(* ===== verification/_CoqProject ===== *)
-Q . S2P
Prelude.v
Decimals.v
GoStrings.v
Transaction.v
BalanceOps.v
SendValidation.v
Overdraft.v
LuaDecimal.v
AtomicScript.v
CacheKeys.v
MBalance.v
BalancePlan.v
Enrichment.v
BalanceSync.v
FeeEngine.v
Billing.v
GoTime.v
Limits.v
LimitChecker.v
Reservations.v
Sanitize.v
Rules.v
RuleSync.v
PgArray.v
Validations.v
OperationRecords.v
WritePath.v
BulkWrite.v
StateTransitions.v
AccountingRoutes.v
RouteConfig.v
RouteCache.v
Revert.v
Settings.v
CreateTransaction.v
Idempotency.v
Backup.v
BalanceCommands.v
Accounts.v
Packages.v
