(* ===== verification/Prelude.v ===== *)
(** * A verification of the Midaz ledger

    Midaz is a double-entry ledger.  A client posts a transaction: a value sent from
    source accounts to destination accounts, each entry an amount, a share or the
    remainder.  The HTTP handler validates it, loads the balances it names, plans one
    operation per balance, and hands the batch to a Lua script that runs atomically in
    Redis, where balances live; workers copy the balances to PostgreSQL afterwards.

    ** The program's parts and the files of this development

    - [Prelude]: errors as values ([result], [GoError], the [let!] notation), folds
      that may fail, the hint database and the tactics of the development.
    - [Decimals]: github.com/shopspring/decimal, which is not part of the repository,
      as the class [DecimalLib] with its documented laws [DecimalLaws] and a
      fixed-point instance [Fixed] for the witnesses; the value of a decimal is [dval].
    - [GoStrings]: the functions of Go's strings and strconv packages the code calls.
    - [Transaction] (src/pkg/mtransaction/transaction.go, input.go): the records of a
      transaction, alias keys such as "0#@alice#default", the payload builders.
    - [SendValidation] (validations.go: [ValidateSendSourceAndDistribute],
      [CalculateTotal], and the create path of http/in/transaction_create.go around
      the fee engine, which is a parameter there).
    - [BalanceOps] (validations.go: [OperateBalances] and its cases per status,
      [ValidateBalancesRules], [DetermineOperation], double entry; update_balance.go).
    - [Overdraft] (overdraft.go): split of a debit into available and overdraft, split
      of a credit into repayment and rest, the limit.
    - [LuaDecimal] and [AtomicScript] (redis/transaction/scripts/
      balance_atomic_operation.lua): the script's own arithmetic on decimal strings,
      then the whole script over a model of Redis ([rd_cache], [rd_schedule],
      [rd_backup]): load, operate, repay, reverse, floor, store, schedule, roll back.
      The class [ScriptNum] has two instances, decimal strings and exact integers, so
      that the script is written once and refined to exact arithmetic.
    - [CacheKeys] (src/pkg/utils/cache.go): the Redis keys and their cluster slot.
    - [MBalance] (src/pkg/mmodel/balance.go, balance_settings.go, balance_position.go):
      the balance as the API and the database have it.
    - [BalancePlan] (http/in/transaction_helper.go, process_balance_operations.go,
      consumer.redis.go): from the validated entries to the arguments of the script,
      and from its reply back to balances or a business error.
    - [Enrichment] (http/in/transaction_overdraft_enrichment.go): the companion
      operations that keep a liability balance in step with the overdraft used.
    - [BalanceSync] (redis/transaction/balance/aggregation.go, sync_balances_batch.go,
      balance_sync.worker.go, balance.postgresql.go [UpdateMany], the claim and remove
      scripts): the copy of cached balances to the database, as functions and as the
      state machine [sync_step] that interleaves workers, mutations and failures.
    - [FeeEngine] (src/components/ledger/pkg/fee, services/fees/calculate-fee.go): the
      choice of a fee package, the amount of each fee, its distribution over the paying
      accounts with the residual on the largest, and the entries rebuilt from the legs.
    - [Packages] (services/fees: the commands on fee packages and the cache of service.go;
      pkg/feeshared/model, adapters/mongodb/fees/pack, http/in/fees_package_handler.go):
      the packages the fee engine chooses from, under the requests that manage them.
    - [Billing] (pkg/fee/billing_calculator.go): quota, tiers and discounts of a bill.

    The records of a transaction (src/components/ledger/internal):

    - [OperationRecords] (http/in/transaction_create.go [BuildOperations] and its
      helpers): the operations recorded for the balances that moved, with the amounts,
      the snapshots of the overdraft and the accounting codes of the routes.
    - [WritePath] (services/command/create_balance_transaction_operations_async.go,
      update_transaction.go, send_transaction_events.go; adapters/postgres/transaction):
      storing one message in the tables, with every call failing before or after its
      effect, and [BulkWrite] (create_bulk_transaction_operations_async.go): storing
      many at once.
    - [CreateTransaction] (http/in/transaction_create.go [executeCreateTransaction],
      transaction_fee_application.go, transaction_reservation_anchor.go,
      create_transaction_idempotency.go): the whole create handler as a function from
      the answers of the calls it makes to the list of its effects and its answer, and
      [Idempotency]: the state machine [race_step] of many such requests on one slot.
    - [StateTransitions] (http/in/transaction_state_handlers.go
      [commitOrCancelTransaction]): commit and cancellation, in the same style, with the
      state machine of concurrent requests.
    - [Revert] (adapters/postgres/transaction/transaction.go [TransactionRevert],
      transaction_state_handlers.go [revertTransaction]): the reversal and its gate.
    - [Backup] (bootstrap/redis.consumer.go, write_transaction.go, the queue commands of
      consumer.redis.go, adapters/postgres/transactionquarantine): the backup entries,
      their replay and their quarantine, cycle by cycle.
    - [BalanceCommands] (services/command: the commands that create, update and delete
      balances; adapters/postgres/balance, services/query/get_balances.go): the table of
      balances and the cache under these commands, and the rows of old messages.
    - [Accounts] (services/command: create_account.go, update_account.go,
      delete_account.go, create_asset.go, delete_asset.go; adapters/postgres/account and
      adapters/postgres/asset): accounts and assets, with the balances they open and
      close.
    - [AccountingRoutes] (services/query/validate_accounting_routes.go), [RouteConfig]
      (http/in/operation_route.go, adapters/postgres/operationroute) and [RouteCache]
      (the route commands, get_or_create_transaction_route_cache.go): the rules a
      transaction must satisfy, how they are configured, and their cache.
    - [Settings] (pkg/mmodel/settings.go, services/command/
      update_ledger_settings.go): the settings document of a ledger, its validation, its
      merge and its typed view.

    The tracer (src/components/tracer):

    - [GoTime]: instants and the calendar of Go's time package.
    - [Limits] (pkg/model/limit.go, scope.go, time_of_day.go, query/check_limits.go),
      [LimitChecker] (query/limit_checker.go, usage_counter_repository.go) and
      [Reservations] (services/reservation_service.go and its repository): limits, the
      counters of their usage, and capacity held for a ledger transaction.
    - [Rules] (pkg/model/rule.go, decision_maker.go, query/rule_evaluator.go) and
      [RuleSync] (services/command, services/cache, workers/rule_sync_worker.go): rules,
      their evaluation, and the cache that follows their table.
    - [Validations] (services/validation_service.go): a validation request from lookup
      to the stored answer and its audit event, on top of the rules and the limits.
    - [Sanitize] (pkg/sanitize/metadata.go) and [PgArray] (adapters/postgres/types.go):
      masking of metadata and the text form of arrays.

    ** What the theorems show

    - Value is conserved: the recorded sources and destinations of an accepted
      transaction each sum to the value sent; shares that add up to 100 are exact
      ([SendValidation]).  Hold followed by cancel or commit moves funds exactly once,
      with and without route validation ([BalanceOps]).
    - The script agrees with the Go engine: it refines exact arithmetic, computes what
      [OperateBalances] computes for the operations the planner queues, keeps balances
      non-negative, and restores every balance when it rejects a batch ([LuaDecimal],
      [AtomicScript]).
    - Keys, balances and snapshots survive the trip to Redis and back ([CacheKeys],
      [MBalance], [BalancePlan]); in direct transactions companions move in step with the
      overdraft ([Enrichment]).
    - Synchronisation forgets no balance under any interleaving and never replaces a
      newer row by an older balance ([BalanceSync]).
    - Fees keep a transaction balanced to the last digit, and only packages in scope
      charge ([FeeEngine]); the packages of a ledger leave that choice unambiguous and
      their deductible fees within the original amount, whatever requests change them and
      whatever calls fail ([Packages]); bills add up ([Billing]).
    - A transaction settles once: requests to create it with one key, and to commit or
      cancel it, settle its balances at most once under any interleaving in which no reply
      of the balances is lost ([Idempotency], [StateTransitions]); every way such a request can end is listed,
      with what it left behind, and a ledger that enforces its limits moves nothing the
      tracer did not grant ([CreateTransaction]).
    - Records follow the balances: one record per balance and entry, from the balance
      before to the balance after ([OperationRecords]); messages in any order and number
      converge to what they carry, in bulk as one by one ([WritePath], [BulkWrite]); a
      crash after the balances moved is repaired from the backup entry, and an entry that
      cannot be replayed ends in the quarantine, none leaving the queue unless it is there or
      stored ([Backup]); a reversal of balanced operations moves back what was recorded
      ([Revert]).
    - The commands on balances keep one live balance per key and the companions of the
      overdrafts, and move no funds, whatever calls fail ([BalanceCommands]); those on
      accounts and assets keep aliases unique and balances with the alias and asset of
      their account, and an account is created with its balance or not at all
      ([Accounts]); for commands that are served one at a time.
    - Routes are decided as configured: a transaction is accepted exactly if its legs use
      the configured routes, what was held can be settled, stored routes comply with the
      matrix of scenarios, and the cache without expiry answers like the tables, as long as
      no change overtakes a lookup ([AccountingRoutes], [RouteConfig], [RouteCache]).
    - Settings keep their schema: what is stored validates and every accepted change
      reads back as asked ([Settings]).
    - The tracer counts exactly: no counter exceeds its cap, committed and reserved,
      under any interleaving, reservations refine an abstract ledger of holds and are
      settled or expired, a request is counted once however often it is sent, and its
      answer is the one its rules and limits give ([Limits], [LimitChecker],
      [Reservations], [Validations]); the clean-up of counters ends and removes only expired
      ones, whatever fails in it ([LimitChecker]); the cache of rules leaves no change
      behind that the next poll does not read, and after a poll without interruption decides
      like the table ([Rules], [RuleSync]).
    - Some theorems state behaviour that differs from what the code means to do.  They
      are named after what happens, for instance [lost_answer_settles_twice],
      [lost_reply_settles_twice], [huge_ttl_settles_twice], [failed_records_settle_twice], [second_reversal_is_replayed],
      [unsettled_transaction_recorded], [recovered_reversal_loses_parent],
      [entries_patch_leaves_cache], [racing_lookup_leaves_stale_entry],
      [racing_creations_share_alias], [settings_rewrite_loses_transaction],
      [operation_metadata_lost],
      [account_deleted_with_funds], [blocked_balance_still_sends],
      [recreated_asset_shares_cache_entry], [crowded_ledger_overlaps]; also the unbalanced
      transaction of the create path, double-precision comparison in the script, a
      repayment that leaves the companion behind, and a fee that a second package
      switches off.

    ** Conventions, bounds and fuel

    Integers of Go are [Z]; the versions and flags of balances stay far from their
    width, and the script's numbers are strings.  The script compares magnitudes in
    double precision, so its arithmetic theorems are for operands below 2^53 units of
    the last decimal place (2^47 for the whole script, which adds up to a few of them);
    the theorems about larger operands say what goes wrong.  Addition and subtraction
    of the script call each other on operands that lose a sign, with a fuel of the
    lengths plus two, which the exactness theorems show is enough.  Go maps whose
    iteration order matters are iterated in an arbitrary order given as a list; a
    failure of the database, of Redis or of a library call is an argument of the
    operation that suffers it.  The state machine assumes what Redis gives: scripts are
    atomic and the time of a script is later than the time of the script before it.
    A handler is a function of the answers of its calls: failures, clock readings, new
    identifiers and the replies of other services are its arguments ([create_answers],
    [message_answers], [faults]).  A call to a store is [Answered], [Refused] (no
    effect) or [AnswerLost] (effect without an answer).  Effects are the list [eff] of the
    prelude.  Loops with fuel are the pages of a query ([all_pages]), the batches of the
    clean-up ([DeleteExpiredCounters]) and the chunks of bulk statements ([chunk_loop]);
    the fuel is the number of rows, and theorems or lemmas show that it suffices.  The
    state machines of concurrent requests bound the time of a request ([MaxRequest]), the
    delay until a stored outcome is read everywhere ([Lag]) and the overlap of polls
    against the 300 seconds of a lock, the time to live of a slot and the lag of commits;
    these are hypotheses of the theorems, with instances in the witnesses.  Requests are
    interleaved, at the calls or database transactions between which another one can run,
    where the code means to guard against it ([Idempotency],
    [StateTransitions], [BalanceSync], [Reservations], [Validations], [RuleSync],
    [Settings], the deliveries of [WritePath] and the events of [Backup]); the commands of
    [BalanceCommands], [Accounts], [RouteCache] and [Packages], which check and then write
    without a guard, are served one at a time, and theorems named above show what happens
    when two of them overlap.  JSON and
    msgpack carry values unchanged; metadata that is empty is absent; letters fold for
    ASCII; instants are not rounded to the precision of a column; a table is the finite
    map of its live rows, in [BalanceCommands] and
    [Accounts] also of its deleted ones, and the collection of [Packages] a list of them; an
    error that names the first offending entry of a Go map does not say which.

    ** Not modelled

    Logging, tracing and metrics; HTTP decoding, routing and pagination, and the texts of
    errors: they choose no outcome of the modelled code.  The create, read, update and
    delete handlers of organizations, portfolios, segments, account types and billing
    packages: rows stored as given; the billing runs that read them.  SQL other than the statements
    named above; RabbitMQ transport and the payloads of events; the CRM and its
    encryption; process set-up and tenants, but for the tenant prefix of keys; the Gold
    language, whose parser is generated. *)

From stdpp Require Import base gmap strings list fin_maps sorting.
From Stdlib Require Import ZArith Lia.

(** ** Error values

    Go functions return [(T, error)].  A function that returns a zero value
    together with an error is modelled by [Err e]; [Ok v] is the [nil] error.
    [GoError] has one constructor per sentinel of [pkg/constant/errors.go] the
    modelled code returns. *)

Inductive GoError :=
  | ErrAccountIneligibility
  | ErrAssetCodeNotFound
  | ErrAccountStatusTransactionRestriction
  | ErrOnHoldExternalAccount
  | ErrTransactionAmbiguous
  | ErrTransactionValueMismatch
  | ErrInvalidFutureTransactionDate
  | ErrInvalidPendingFutureTransactionDate
  | ErrOverdraftLimitExceeded
  | ErrInsufficientFunds
  | ErrStaleBalanceVersion
  | ErrTransactionBackupCacheRetrievalFailed
  | ErrTransactionBackupCacheFailed
  | ErrDirectOperationOnInternalBalance.

Inductive result (E A : Type) :=
  | Ok (a : A)
  | Err (e : E).
Arguments Ok {E A} a.
Arguments Err {E A} e.

Definition rbind {E A B} (m : result E A) (k : A → result E B) : result E B :=
  match m with
  | Ok a => k a
  | Err e => Err e
  end.

(** The development's notations live in their own scope. *)
Declare Scope midaz_scope.
Delimit Scope midaz_scope with midaz.

Notation "'let!' x ':=' m 'in' k" := (rbind m (λ x, k))
  (at level 10, x pattern, m at level 99, k at level 200)
  : midaz_scope.
Notation "'do!' m ';;' k" := (rbind m (λ _, k))
  (at level 10, m at level 99, k at level 200)
  : midaz_scope.
Open Scope midaz_scope.

Definition is_ok {E A} (m : result E A) : bool :=
  match m with Ok _ => true | Err _ => false end.

#[export] Instance GoError_eq_dec : EqDecision GoError.
Proof. solve_decision. Defined.

#[export] Instance result_eq_dec {E A} `{EqDecision E, EqDecision A} :
  EqDecision (result E A).
Proof. solve_decision. Defined.

(** First failure of a loop [for _, x := range l { if err := f(x); err != nil {return err} }]. *)
Fixpoint for_each {E A} (f : A → result E unit) (l : list A) : result E unit :=
  match l with
  | [] => Ok tt
  | x :: l' => do! f x;; for_each f l'
  end.

(** A fold whose body may fail, [for _, x := range l { acc, err = f(acc, x) }]. *)
Fixpoint fold_res {E A B} (f : B → A → result E B) (acc : B) (l : list A) : result E B :=
  match l with
  | [] => Ok acc
  | x :: l' => let! acc' := f acc x in fold_res f acc' l'
  end.

(** Steps that log what they do outside and may stop with an error. *)
Definition eff (F E A : Type) : Type := list F * result E A.
Definition eff_bind {F E A B} (m : eff F E A) (k : A → eff F E B) : eff F E B :=
  match m with
  | (l, Ok a) => let '(l', r) := k a in (l ++ l', r)
  | (l, Err e) => (l, Err e)
  end.
Notation "'let~' x ':=' m 'in' k" := (eff_bind m (λ x, k))
  (at level 10, x pattern, m at level 100, k at level 200)
  : midaz_scope.
Definition emits {F E} (l : list F) : eff F E unit := (l, Ok tt).
(** A call whose error has the name [f] here, after the effects [undo]. *)
Definition or_undo {F E E' A} (undo : list F) (f : E → E') (r : result E A) : eff F E' A :=
  match r with Ok a => ([], Ok a) | Err e => (undo, Err (f e)) end.

(** ** Tactics *)

Create HintDb midaz.

(** Case analysis on the outermost scrutinee, in the goal or a hypothesis. *)
Ltac case_goal :=
  match goal with
  | |- context [match ?x with _ => _ end] => destruct x eqn:?
  | H : context [match ?x with _ => _ end] |- _ => destruct x eqn:?
  end.

(** Turns boolean tests into propositions. *)
Ltac bool_facts :=
  repeat match goal with
  | H : _ && _ = true |- _ => apply andb_true_iff in H as [? ?]
  | H : _ || _ = false |- _ => apply orb_false_iff in H as [? ?]
  | H : negb _ = true |- _ => apply negb_true_iff in H
  | H : negb _ = false |- _ => apply negb_false_iff in H
  | H : bool_decide _ = true |- _ => apply bool_decide_eq_true in H
  | H : bool_decide _ = false |- _ => apply bool_decide_eq_false in H
  | H : String.eqb _ _ = true |- _ => apply String.eqb_eq in H
  | H : String.eqb _ _ = false |- _ => apply String.eqb_neq in H
  | H : Z.eqb _ _ = true |- _ => apply Z.eqb_eq in H
  | H : Z.eqb _ _ = false |- _ => apply Z.eqb_neq in H
  | H : Z.ltb _ _ = true |- _ => apply Z.ltb_lt in H
  | H : Z.ltb _ _ = false |- _ => apply Z.ltb_ge in H
  | H : Z.leb _ _ = true |- _ => apply Z.leb_le in H
  | H : Z.leb _ _ = false |- _ => apply Z.leb_gt in H
  end.

(** ** Lemmas on [result] *)

Lemma rbind_Ok {E A B} (m : result E A) (k : A → result E B) b :
  rbind m k = Ok b ↔ ∃ a, m = Ok a ∧ k a = Ok b.
Proof. destruct m; simpl; naive_solver. Qed.

Lemma rbind_Err {E A B} (m : result E A) (k : A → result E B) e :
  rbind m k = Err e ↔ m = Err e ∨ ∃ a, m = Ok a ∧ k a = Err e.
Proof. destruct m; simpl; naive_solver. Qed.

(** Inverts a successful monadic chain. *)
Ltac inv_ok :=
  repeat match goal with
  | H : rbind _ _ = Ok _ |- _ => apply rbind_Ok in H as (? & ? & ?)
  | H : Ok _ = Ok _ |- _ => injection H as H; try subst
  | H : Err _ = Err _ |- _ => injection H as H; try subst
  | H : Ok _ = Err _ |- _ => discriminate H
  | H : Err _ = Ok _ |- _ => discriminate H
  end.

Lemma for_each_Ok {E A} (f : A → result E unit) l :
  for_each f l = Ok tt ↔ Forall (λ x, f x = Ok tt) l.
Proof.
  induction l as [|x l IH]; simpl; [by split|].
  rewrite Forall_cons, <- IH, rbind_Ok.
  split; [intros ([] & ? & ?)|intros [? ?]]; eauto.
Qed.

Lemma for_each_Err {E A} (f : A → result E unit) l e :
  for_each f l = Err e ↔
  ∃ l1 x l2, l = l1 ++ x :: l2 ∧ Forall (λ y, f y = Ok tt) l1 ∧ f x = Err e.
Proof.
  split.
  - induction l as [|x l IH]; simpl; [done|].
    destruct (f x) as [[]|] eqn:E1; simpl.
    + intros (l1 & y & l2 & -> & ? & ?)%IH. exists (x :: l1), y, l2. auto.
    + intros [= ->]. exists [], x, l. auto.
  - intros (l1 & x & l2 & -> & H & Hx). induction H as [|y l1 Hy _ IH]; simpl.
    + by rewrite Hx.
    + by rewrite Hy.
Qed.

Lemma fold_res_app {E A B} (f : B → A → result E B) acc l1 l2 :
  fold_res f acc (l1 ++ l2) = (let! acc' := fold_res f acc l1 in fold_res f acc' l2).
Proof.
  revert acc; induction l1 as [|x l1 IH]; intros acc; simpl; [done|].
  destruct (f acc x); simpl; auto.
Qed.

(** An invariant of the accumulator kept by every successful iteration. *)
Lemma fold_res_inv {E A B} (f : B → A → result E B) (P : B → Prop) acc acc' l :
  (∀ b x b', x ∈ l → P b → f b x = Ok b' → P b') →
  P acc → fold_res f acc l = Ok acc' → P acc'.
Proof.
  revert acc; induction l as [|x l IH]; intros acc Hf HP; simpl.
  - by intros [= <-].
  - rewrite rbind_Ok. intros (b & Hb & Hl).
    apply IH with b; [| |done].
    + intros; eapply Hf; eauto. by apply elem_of_cons; right.
    + eapply Hf; eauto. by apply elem_of_cons; left.
Qed.
