(* ===== verification/Decimals.v ===== *)
(** * The decimal interface

    Every monetary quantity of the program is a [decimal.Decimal] of the
    third-party package github.com/shopspring/decimal, which is not part of the
    repository.  It is therefore a parameter of the development: the class
    [DecimalLib] lists the operations the code calls, [DecimalLaws] states the
    documented behaviour the code relies on through a denotation into the
    rationals, and every component is written against these two classes.

    The module [Fixed] is a concrete coefficient/scale implementation that
    satisfies the laws; witnesses evaluate on it. *)

From Stdlib Require Import QArith Qabs Lqa.
From stdpp Require Import base gmap strings list numbers.
From S2P Require Import Prelude.

(** ** Operations *)

Class DecimalLib := {
  dec : Type;
  dzero : dec;                        (* decimal.Zero *)
  dnew : Z → dec;                     (* decimal.NewFromInt *)
  dadd : dec → dec → dec;             (* Add *)
  dsub : dec → dec → dec;             (* Sub *)
  dmul : dec → dec → dec;             (* Mul *)
  ddiv : dec → dec → dec;             (* Div; unspecified (a panic) at divisor 0 *)
  dcmp : dec → dec → comparison;      (* Cmp *)
}.

Declare Scope dec_scope.
Delimit Scope dec_scope with dec.
Bind Scope dec_scope with dec.

Infix "+" := dadd : dec_scope.
Infix "-" := dsub : dec_scope.
Infix "*" := dmul : dec_scope.
Infix "/" := ddiv : dec_scope.

Section Comparisons.
Context `{DecimalLib}.

Definition dequal (a b : dec) : bool :=                 (* Equal *)
  match dcmp a b with Eq => true | _ => false end.
Definition dgt (a b : dec) : bool :=                    (* GreaterThan *)
  match dcmp a b with Gt => true | _ => false end.
Definition dge (a b : dec) : bool :=                    (* GreaterThanOrEqual *)
  match dcmp a b with Lt => false | _ => true end.
Definition dlt (a b : dec) : bool :=                    (* LessThan *)
  match dcmp a b with Lt => true | _ => false end.
Definition dle (a b : dec) : bool :=                    (* LessThanOrEqual *)
  match dcmp a b with Gt => false | _ => true end.
Definition dis_zero (a : dec) : bool := dequal a dzero.     (* IsZero *)
Definition dis_positive (a : dec) : bool := dgt a dzero.    (* IsPositive *)
Definition dis_negative (a : dec) : bool := dlt a dzero.    (* IsNegative *)
Definition dmin (a b : dec) : dec := if dlt b a then b else a.  (* decimal.Min *)
Definition dmax (a b : dec) : dec := if dgt b a then b else a.  (* decimal.Max *)
End Comparisons.

(** ** Laws *)

Local Open Scope Q_scope.

(** The unit of the last place kept by [Div]: [DivisionPrecision] is 16. *)
Definition ulp : Q := 1 # 10000000000000000.

Class DecimalLaws `{DecimalLib} := {
  dval : dec → Q;
  dval_zero : dval dzero == 0;
  dval_new n : dval (dnew n) == inject_Z n;
  dval_add a b : dval (a + b)%dec == dval a + dval b;
  dval_sub a b : dval (a - b)%dec == dval a - dval b;
  dval_mul a b : dval (a * b)%dec == dval a * dval b;
  (* DivRound: a multiple of 10^-16 at distance at most half a unit. *)
  dval_div_digits a b : ¬ dval b == 0 → ∃ z, dval (a / b)%dec == inject_Z z * ulp;
  dval_div_round a b : ¬ dval b == 0 →
    Qabs (dval (a / b)%dec - dval a / dval b) <= (1 # 2) * ulp;
  dval_cmp a b : dcmp a b = (dval a ?= dval b);
}.

(** Numeric equality of decimals, the relation [Equal] decides: coarser than
    equality of representations (1.50 and 1.5 differ in exponent). *)
Definition dec_eq `{DecimalLaws} (a b : dec) : Prop := dval a == dval b.
Infix "≡d" := dec_eq (at level 70).

(** ** Consequences of the laws *)

Section Laws.
Context `{DecimalLaws}.
Implicit Types a b c : dec.

#[export] Instance dec_eq_equiv : Equivalence dec_eq.
Proof.
  unfold dec_eq; split; red; intros; [reflexivity|by symmetry|by etransitivity].
Qed.

#[export] Instance dval_proper : Proper (dec_eq ==> Qeq) dval.
Proof. by intros ???. Qed.
#[export] Instance dadd_proper : Proper (dec_eq ==> dec_eq ==> dec_eq) dadd.
Proof. intros ?? E1 ?? E2. unfold dec_eq in *. by rewrite !dval_add, E1, E2. Qed.
#[export] Instance dsub_proper : Proper (dec_eq ==> dec_eq ==> dec_eq) dsub.
Proof. intros ?? E1 ?? E2. unfold dec_eq in *. by rewrite !dval_sub, E1, E2. Qed.
#[export] Instance dmul_proper : Proper (dec_eq ==> dec_eq ==> dec_eq) dmul.
Proof. intros ?? E1 ?? E2. unfold dec_eq in *. by rewrite !dval_mul, E1, E2. Qed.
#[export] Instance dcmp_proper : Proper (dec_eq ==> dec_eq ==> eq) dcmp.
Proof. intros ?? E1 ?? E2. rewrite !dval_cmp. unfold dec_eq in *. by rewrite E1, E2. Qed.
#[export] Instance dequal_proper : Proper (dec_eq ==> dec_eq ==> eq) dequal.
Proof. intros ?? E1 ?? E2. unfold dequal. by rewrite E1, E2. Qed.
#[export] Instance dgt_proper : Proper (dec_eq ==> dec_eq ==> eq) dgt.
Proof. intros ?? E1 ?? E2. unfold dgt. by rewrite E1, E2. Qed.
#[export] Instance dlt_proper : Proper (dec_eq ==> dec_eq ==> eq) dlt.
Proof. intros ?? E1 ?? E2. unfold dlt. by rewrite E1, E2. Qed.
#[export] Instance dmin_proper : Proper (dec_eq ==> dec_eq ==> dec_eq) dmin.
Proof. intros ?? E1 ?? E2. unfold dmin. rewrite E1, E2. by destruct (dlt _ _). Qed.

Lemma dequal_spec a b : dequal a b = true ↔ dval a == dval b.
Proof.
  unfold dequal. rewrite dval_cmp, Qeq_alt. by destruct (dval a ?= dval b).
Qed.
Lemma dlt_spec a b : dlt a b = true ↔ dval a < dval b.
Proof. unfold dlt. rewrite dval_cmp, Qlt_alt. by destruct (dval a ?= dval b). Qed.
Lemma dgt_spec a b : dgt a b = true ↔ dval b < dval a.
Proof. unfold dgt. rewrite dval_cmp, Qgt_alt. by destruct (dval a ?= dval b). Qed.
Lemma dle_spec a b : dle a b = true ↔ dval a <= dval b.
Proof. unfold dle. rewrite dval_cmp, Qle_alt. by destruct (dval a ?= dval b). Qed.
Lemma dge_spec a b : dge a b = true ↔ dval b <= dval a.
Proof. unfold dge. rewrite dval_cmp, Qge_alt. by destruct (dval a ?= dval b). Qed.

Lemma dlt_false a b : dlt a b = false ↔ dval b <= dval a.
Proof.
  split.
  - intros E. apply Qnot_lt_le. rewrite <- dlt_spec. by rewrite E.
  - intros Hle. apply not_true_is_false. rewrite dlt_spec. by apply Qle_not_lt.
Qed.
Lemma dgt_false a b : dgt a b = false ↔ dval a <= dval b.
Proof.
  split.
  - intros E. apply Qnot_lt_le. rewrite <- dgt_spec. by rewrite E.
  - intros Hle. apply not_true_is_false. rewrite dgt_spec. by apply Qle_not_lt.
Qed.
Lemma dge_false a b : dge a b = false ↔ dval a < dval b.
Proof.
  split.
  - intros E. apply Qnot_le_lt. rewrite <- dge_spec. by rewrite E.
  - intros Hle. apply not_true_is_false. rewrite dge_spec. by apply Qlt_not_le.
Qed.
Lemma dequal_false a b : dequal a b = false ↔ ¬ dval a == dval b.
Proof. rewrite <- dequal_spec. by rewrite not_true_iff_false. Qed.

Lemma dis_zero_spec a : dis_zero a = true ↔ dval a == 0.
Proof. unfold dis_zero. by rewrite dequal_spec, dval_zero. Qed.
Lemma dis_zero_false a : dis_zero a = false ↔ ¬ dval a == 0.
Proof. unfold dis_zero. by rewrite dequal_false, dval_zero. Qed.
Lemma dis_positive_spec a : dis_positive a = true ↔ 0 < dval a.
Proof. unfold dis_positive. by rewrite dgt_spec, dval_zero. Qed.
Lemma dis_positive_false a : dis_positive a = false ↔ dval a <= 0.
Proof. unfold dis_positive. by rewrite dgt_false, dval_zero. Qed.
Lemma dis_negative_spec a : dis_negative a = true ↔ dval a < 0.
Proof. unfold dis_negative. by rewrite dlt_spec, dval_zero. Qed.
Lemma dis_negative_false a : dis_negative a = false ↔ 0 <= dval a.
Proof. unfold dis_negative. by rewrite dlt_false, dval_zero. Qed.

Lemma dmin_cases a b :
  (dval a <= dval b ∧ dval (dmin a b) == dval a) ∨
  (dval b < dval a ∧ dval (dmin a b) == dval b).
Proof.
  unfold dmin. destruct (dlt b a) eqn:E.
  - right. apply dlt_spec in E. by split.
  - left. apply dlt_false in E. by split.
Qed.

(** [Div] is exact whenever the quotient has at most 16 decimal places. *)
Lemma dval_div_exact a b z :
  ¬ dval b == 0 → dval a / dval b == inject_Z z * ulp →
  dval (a / b)%dec == dval a / dval b.
Proof.
  intros Hb Hz. destruct (dval_div_digits a b Hb) as [q Hq].
  pose proof (dval_div_round a b Hb) as Hr.
  rewrite Hq, Hz in Hr |- *. revert Hr. unfold ulp. intros Hr.
  assert (q = z) as ->; [|reflexivity].
  apply Qabs_Qle_condition in Hr as [H1 H2].
  unfold Qle, Qminus, Qplus, Qopp, Qmult, inject_Z in H1, H2; simpl in H1, H2. lia.
Qed.
End Laws.

(** Normalises goals and hypotheses about decimals to linear rational
    arithmetic and calls [lra]. *)
Ltac dec_facts :=
  repeat match goal with
  | H : dequal _ _ = true |- _ => apply dequal_spec in H
  | H : dequal _ _ = false |- _ => apply dequal_false in H
  | H : dgt _ _ = true |- _ => apply dgt_spec in H
  | H : dgt _ _ = false |- _ => apply dgt_false in H
  | H : dlt _ _ = true |- _ => apply dlt_spec in H
  | H : dlt _ _ = false |- _ => apply dlt_false in H
  | H : dge _ _ = true |- _ => apply dge_spec in H
  | H : dge _ _ = false |- _ => apply dge_false in H
  | H : dle _ _ = true |- _ => apply dle_spec in H
  | H : dis_zero _ = true |- _ => apply dis_zero_spec in H
  | H : dis_zero _ = false |- _ => apply dis_zero_false in H
  | H : dis_positive _ = true |- _ => apply dis_positive_spec in H
  | H : dis_positive _ = false |- _ => apply dis_positive_false in H
  | H : dis_negative _ = true |- _ => apply dis_negative_spec in H
  | H : dis_negative _ = false |- _ => apply dis_negative_false in H
  end.

Ltac dec_norm :=
  dec_facts; unfold dec_eq in *;
  repeat first
    [ rewrite dval_add in * | rewrite dval_sub in * | rewrite dval_mul in *
    | rewrite dval_zero in * | rewrite dval_new in * ].

Ltac dec_lra := dec_norm; lra.

(** ** A concrete instance

    [Fixed] represents a decimal by a coefficient and a number of decimal
    places, value [coef / 10^scale].  It exists to evaluate the definitions on
    concrete inputs and to show that the laws are satisfiable. *)

Module Fixed.

Local Open Scope Z_scope.

Fixpoint p10 (n : nat) : positive :=
  match n with O => 1%positive | S n => (10 * p10 n)%positive end.

Record t := mk { coef : Z; scale : nat }.

Definition zp10 (n : nat) : Z := Z.pos (p10 n).

Definition add (a b : t) : t :=
  mk (coef a * zp10 (scale b) + coef b * zp10 (scale a)) (scale a + scale b).
Definition sub (a b : t) : t :=
  mk (coef a * zp10 (scale b) - coef b * zp10 (scale a)) (scale a + scale b).
Definition mul (a b : t) : t := mk (coef a * coef b) (scale a + scale b).
Definition cmp (a b : t) : comparison :=
  (coef a * zp10 (scale b) ?= coef b * zp10 (scale a)).

(** Quotient rounded to the nearest integer, halves away from zero. *)
Definition round_div (n m : Z) : Z :=
  Z.sgn n * Z.sgn m * ((2 * Z.abs n + Z.abs m) / (2 * Z.abs m)).

Definition div (a b : t) : t :=
  mk (round_div (coef a * zp10 (scale b + 16)) (coef b * zp10 (scale a))) 16.

#[export] Instance lib : DecimalLib := {|
  dec := t;
  dzero := mk 0 0;
  dnew := λ n, mk n 0;
  dadd := add; dsub := sub; dmul := mul; ddiv := div;
  dcmp := cmp;
|}.

Definition val (a : t) : Q := Qmake (coef a) (p10 (scale a)).

Lemma p10_add m n : p10 (m + n) = (p10 m * p10 n)%positive.
Proof. induction m as [|m IH]; simpl; [done|]. rewrite IH. lia. Qed.

Lemma round_div_spec n m :
  m ≠ 0 → 2 * Z.abs (round_div n m * m - n) <= Z.abs m.
Proof.
  intros Hm. unfold round_div.
  pose proof (Z.div_mod (2 * Z.abs n + Z.abs m) (2 * Z.abs m) ltac:(lia)) as Hd.
  pose proof (Z.mod_pos_bound (2 * Z.abs n + Z.abs m) (2 * Z.abs m) ltac:(lia)) as Hb.
  set (q := (2 * Z.abs n + Z.abs m) / (2 * Z.abs m)) in *.
  set (r := (2 * Z.abs n + Z.abs m) `mod` (2 * Z.abs m)) in *.
  destruct (Z.eq_dec n 0) as [->|Hn]; [simpl; lia|].
  destruct (Z.abs_spec n) as [[? Hn']|[? Hn']], (Z.abs_spec m) as [[? Hm']|[? Hm']];
    rewrite Hn', Hm' in Hd; rewrite Hm' in Hb; rewrite ?Hm';
    repeat first [rewrite (Z.sgn_pos n) by lia | rewrite (Z.sgn_neg n) by lia
                 | rewrite (Z.sgn_pos m) by lia | rewrite (Z.sgn_neg m) by lia]; lia.
Qed.

Lemma val_div_round (a b : t) :
  ¬ (val b == 0)%Q →
  (Qabs (val (div a b) - val a / val b) <= (1 # 2) * ulp)%Q.
Proof.
  intros Hb. assert (coef b ≠ 0) as Hcb.
  { intros E. apply Hb. unfold val, Qeq; simpl. rewrite E. lia. }
  pose proof (round_div_spec (coef a * zp10 (scale b + 16))
                (coef b * zp10 (scale a)) ltac:(unfold zp10; lia)) as Hr.
  unfold div, val; simpl coef; simpl scale.
  set (q := round_div _ _) in *. unfold zp10 in Hr. rewrite p10_add, !Pos2Z.inj_mul in Hr.
  change (p10 16) with 10000000000000000%positive in *.
  assert ((q # 10000000000000000) - (coef a # p10 (scale a)) / (coef b # p10 (scale b))
    == ((q * (coef b * Z.pos (p10 (scale a)))
          - coef a * (Z.pos (p10 (scale b)) * 10000000000000000)) # 10000000000000000)
       / inject_Z (coef b * Z.pos (p10 (scale a))))%Q as ->.
  { rewrite !Qmake_Qdiv. unfold Z.sub.
    rewrite !inject_Z_plus, !inject_Z_opp, !inject_Z_mult. field.
    repeat split; try (unfold Qeq; simpl; lia). }
  unfold Qdiv. rewrite Qabs_Qmult, Qabs_Qinv. unfold ulp.
  apply Qle_shift_div_r.
  { apply Qnot_le_lt; intros Hle. apply Qabs_Qle_condition in Hle as [H1 H2].
    unfold Qle in H1, H2; simpl in H1, H2. nia. }
  unfold Qle; simpl. lia.
Qed.

#[export] Instance laws : DecimalLaws.
Proof.
  refine {| dval := val |}; simpl; unfold val; simpl.
  - reflexivity.
  - intros n. reflexivity.
  - intros [ca sa] [cb sb]. unfold add, zp10, Qeq; simpl. rewrite p10_add. lia.
  - intros [ca sa] [cb sb]. unfold sub, zp10, Qeq; simpl. rewrite p10_add. lia.
  - intros [ca sa] [cb sb]. unfold mul, Qeq; simpl. rewrite p10_add. lia.
  - intros a b _. exists (coef (div a b)). unfold ulp, Qeq, Qmult; simpl. lia.
  - apply val_div_round.
  - intros [ca sa] [cb sb]. reflexivity.
Defined.

End Fixed.

#[export] Existing Instance Fixed.laws.

(** [fx c s] is the decimal [c / 10^s] of the concrete instance. *)
Definition fx (c : Z) (s : nat) : @dec Fixed.lib := Fixed.mk c s.
