(* ===== verification/GoStrings.v ===== *)
(** * Go string functions

    Go strings are byte strings; they are modelled by [string].  This file has
    the functions of the packages [strings] and [strconv] the modelled code
    calls ([Contains], [Index], [Split] for one-byte separators, [Itoa] on
    non-negative integers) and the lemmas about them the components share. *)

From stdpp Require Import base strings list.
From Stdlib Require Import Decimal DecimalNat DecimalString.
From S2P Require Import Prelude.

Local Open Scope string_scope.
Local Open Scope list_scope.

(** ** Definitions *)

(** [strings.Contains(s, string(c))]. *)
Fixpoint contains_char (c : Ascii.ascii) (s : string) : bool :=
  match s with
  | EmptyString => false
  | String a s' => if bool_decide (a = c) then true else contains_char c s'
  end.

(** [s[strings.Index(s, string(c))+1:]], or [None] when [Index] is -1. *)
Fixpoint after_char (c : Ascii.ascii) (s : string) : option string :=
  match s with
  | EmptyString => None
  | String a s' => if bool_decide (a = c) then Some s' else after_char c s'
  end.

(** [strings.Split(s, string(c))]: never empty. *)
Fixpoint split_char (c : Ascii.ascii) (s : string) : string * list string :=
  match s with
  | EmptyString => ("", [])
  | String a s' =>
      let '(w, ws) := split_char c s' in
      if bool_decide (a = c) then ("", w :: ws) else (String a w, ws)
  end.

Definition strings_Split (c : Ascii.ascii) (s : string) : list string :=
  let '(w, ws) := split_char c s in w :: ws.

(** [strings.Join(l, sep)]. *)
Fixpoint strings_Join (sep : string) (l : list string) : string :=
  match l with
  | [] => ""
  | [w] => w
  | w :: ws => w +:+ sep +:+ strings_Join sep ws
  end.

(** [strings.HasPrefix(s, p)] and [strings.TrimPrefix(s, p)]. *)
Fixpoint strings_TrimPrefix (p s : string) : option string :=
  match p, s with
  | EmptyString, _ => Some s
  | String a p', String b s' =>
      if bool_decide (a = b) then strings_TrimPrefix p' s' else None
  | String _ _, EmptyString => None
  end.

Definition strings_HasPrefix (p s : string) : bool :=
  match strings_TrimPrefix p s with Some _ => true | None => false end.

(** [strings.Contains(s, sub)] *)
Fixpoint strings_Contains (s sub : string) : bool :=
  strings_HasPrefix sub s
  || match s with EmptyString => false | String _ s' => strings_Contains s' sub end.

(** [a[strings.LastIndex(a, string(c))+1:]], or [None] when [LastIndex] is -1. *)
Fixpoint after_last_char (c : Ascii.ascii) (s : string) : option string :=
  match s with
  | EmptyString => None
  | String a s' =>
      match after_last_char c s' with
      | Some t => Some t
      | None => if bool_decide (a = c) then Some s' else None
      end
  end.

Definition is_digit (a : Ascii.ascii) : bool :=
  (48 <=? Ascii.nat_of_ascii a)%nat && (Ascii.nat_of_ascii a <=? 57)%nat.

Fixpoint all_chars (p : Ascii.ascii → bool) (s : string) : bool :=
  match s with
  | EmptyString => true
  | String a s' => p a && all_chars p s'
  end.

(** [strings.TrimSpace(s)], with [unicode.IsSpace] on ASCII. *)
Definition is_space (a : Ascii.ascii) : bool :=
  let n := Ascii.nat_of_ascii a in bool_decide (n = 32 ∨ (9 <= n <= 13))%nat.
Fixpoint trim_left (s : string) : string :=
  match s with
  | EmptyString => ""
  | String a s' => if is_space a then trim_left s' else s
  end.
Fixpoint trim_right (s : string) : string :=
  match s with
  | EmptyString => ""
  | String a s' =>
      match trim_right s' with
      | EmptyString => if is_space a then "" else String a ""
      | t => String a t
      end
  end.
Definition strings_TrimSpace (s : string) : string := trim_right (trim_left s).

(** [strings.ToUpper], [strings.ToLower] and [strings.EqualFold], on ASCII. *)
Fixpoint string_map (f : Ascii.ascii → Ascii.ascii) (s : string) : string :=
  match s with
  | EmptyString => EmptyString
  | String a s' => String (f a) (string_map f s')
  end.
Definition to_upper_char (a : Ascii.ascii) : Ascii.ascii :=
  let n := Ascii.nat_of_ascii a in
  if (97 <=? n)%nat && (n <=? 122)%nat then Ascii.ascii_of_nat (n - 32) else a.
Definition to_lower_char (a : Ascii.ascii) : Ascii.ascii :=
  let n := Ascii.nat_of_ascii a in
  if (65 <=? n)%nat && (n <=? 90)%nat then Ascii.ascii_of_nat (n + 32) else a.
Definition strings_ToUpper (s : string) : string := string_map to_upper_char s.
Definition strings_ToLower (s : string) : string := string_map to_lower_char s.
Definition strings_EqualFold (s t : string) : bool :=
  bool_decide (strings_ToLower s = strings_ToLower t).

(** [strconv.Itoa(n)] for [n >= 0]. *)
Definition strconv_Itoa (n : nat) : string := NilZero.string_of_uint (Nat.to_uint n).

(** ** Lemmas *)

Lemma contains_char_app c s1 s2 :
  contains_char c (s1 +:+ s2) = contains_char c s1 || contains_char c s2.
Proof. induction s1 as [|a s1 IH]; simpl; [done|]. case_bool_decide; auto. Qed.

Lemma after_char_None c s : after_char c s = None ↔ contains_char c s = false.
Proof. induction s as [|a s IH]; simpl; [done|]. by case_bool_decide. Qed.

Lemma after_char_app c s1 s2 :
  contains_char c s1 = false → after_char c (s1 +:+ String c s2) = Some s2.
Proof.
  induction s1 as [|a s1 IH]; simpl.
  - by rewrite bool_decide_eq_true_2.
  - case_bool_decide; [done|auto].
Qed.

Lemma split_char_none c s : contains_char c s = false → split_char c s = (s, []).
Proof.
  induction s as [|a s IH]; simpl; [done|]. case_bool_decide; [done|].
  intros ?. by rewrite IH.
Qed.

Lemma split_char_app c s1 s2 :
  contains_char c s1 = false →
  split_char c (s1 +:+ String c s2) = (s1, strings_Split c s2).
Proof.
  unfold strings_Split. induction s1 as [|a s1 IH]; simpl.
  - intros _. destruct (split_char c s2). by rewrite bool_decide_eq_true_2.
  - case_bool_decide; [done|]. intros ?. by rewrite IH.
Qed.

Lemma strings_Split_app c s1 s2 :
  contains_char c s1 = false →
  strings_Split c (s1 +:+ String c s2) = s1 :: strings_Split c s2.
Proof. intros. unfold strings_Split at 1. by rewrite split_char_app. Qed.

Lemma strings_Split_none c s : contains_char c s = false → strings_Split c s = [s].
Proof. intros. unfold strings_Split. by rewrite split_char_none. Qed.

(** [Join] undoes [Split] for the same separator. *)
Lemma strings_Join_Split c s : strings_Join (String c "") (strings_Split c s) = s.
Proof.
  unfold strings_Split. induction s as [|a s IH]; simpl; [done|].
  destruct (split_char c s) as [w ws]. case_bool_decide as E.
  - rewrite E. simpl. simpl in IH. by rewrite IH.
  - destruct ws; simpl in *; (transitivity (String a s); [|done]); by rewrite <- IH.
Qed.

Lemma string_app_cons a s1 s2 : String a s1 +:+ s2 = String a (s1 +:+ s2).
Proof. reflexivity. Qed.

Lemma string_app_nil_r s : s +:+ "" = s.
Proof. induction s as [|a s IH]; [done|]. by rewrite string_app_cons, IH. Qed.

Lemma string_app_assoc (s1 s2 s3 : string) : (s1 +:+ s2) +:+ s3 = s1 +:+ (s2 +:+ s3).
Proof. induction s1 as [|a s1 IH]; [done|]. by rewrite !string_app_cons, IH. Qed.

(** A separator that occurs in neither prefix determines the split. *)
Lemma app_char_inj c s1 s2 t1 t2 :
  contains_char c s1 = false → contains_char c t1 = false →
  s1 +:+ String c s2 = t1 +:+ String c t2 → s1 = t1 ∧ s2 = t2.
Proof.
  intros H1 H2 E. pose proof (after_char_app c s1 s2 H1) as A1.
  pose proof (split_char_app c s1 s2 H1) as S1.
  rewrite E, after_char_app in A1 by done. rewrite E, split_char_app in S1 by done.
  naive_solver.
Qed.

Lemma string_of_uint_digits (d : uint) : all_chars is_digit (NilEmpty.string_of_uint d) = true.
Proof. induction d; simpl; auto. Qed.

Lemma Itoa_digits n : all_chars is_digit (strconv_Itoa n) = true.
Proof.
  unfold strconv_Itoa. destruct (Nat.to_uint n) eqn:E; simpl; try done;
    apply string_of_uint_digits.
Qed.

Lemma Itoa_nonempty n : strconv_Itoa n ≠ "".
Proof. unfold strconv_Itoa. by destruct (Nat.to_uint n). Qed.

Lemma to_uint_nonnil n : Nat.to_uint n ≠ Nil.
Proof.
  intros E. pose proof (Unsigned.of_to n) as H. rewrite E in H.
  simpl in H. subst. done.
Qed.

Lemma Itoa_inj m n : strconv_Itoa m = strconv_Itoa n → m = n.
Proof.
  unfold strconv_Itoa. intros E. apply Unsigned.to_uint_inj.
  apply (f_equal NilZero.uint_of_string) in E.
  rewrite !NilZero.usu in E by apply to_uint_nonnil. by injection E.
Qed.

Lemma digits_no_char p s c :
  p c = false → all_chars p s = true → contains_char c s = false.
Proof.
  intros Hc. induction s as [|a s IH]; simpl; [done|].
  intros [Ha Hs]%andb_true_iff. case_bool_decide; [subst; congruence|auto].
Qed.

Lemma Itoa_no_char c n : is_digit c = false → contains_char c (strconv_Itoa n) = false.
Proof. intros. eapply digits_no_char; [done|apply Itoa_digits]. Qed.

Lemma string_map_idem f s : (∀ a, f (f a) = f a) → string_map f (string_map f s) = string_map f s.
Proof. intros Hf. induction s as [|a s IH]; simpl; [done|]. by rewrite Hf, IH. Qed.

Lemma to_lower_char_idem a : to_lower_char (to_lower_char a) = to_lower_char a.
Proof. destruct a as [[] [] [] [] [] [] [] []]; reflexivity. Qed.

Lemma to_lower_char_space a : is_space (to_lower_char a) = is_space a.
Proof. destruct a as [[] [] [] [] [] [] [] []]; reflexivity. Qed.

Lemma ToLower_idem s : strings_ToLower (strings_ToLower s) = strings_ToLower s.
Proof. apply string_map_idem, to_lower_char_idem. Qed.

Lemma ToLower_trim_left s : trim_left (strings_ToLower s) = strings_ToLower (trim_left s).
Proof.
  induction s as [|a s IH]; simpl; [done|].
  rewrite to_lower_char_space. by destruct (is_space a).
Qed.

Lemma ToLower_trim_right s : trim_right (strings_ToLower s) = strings_ToLower (trim_right s).
Proof.
  induction s as [|a s IH]; [done|].
  change (strings_ToLower (String a s)) with (String (to_lower_char a) (strings_ToLower s)).
  cbn [trim_right]. rewrite IH, to_lower_char_space.
  destruct (trim_right s) as [|b t]; [|done]. by destruct (is_space a).
Qed.

Lemma ToLower_TrimSpace s :
  strings_TrimSpace (strings_ToLower s) = strings_ToLower (strings_TrimSpace s).
Proof. unfold strings_TrimSpace. by rewrite ToLower_trim_left, ToLower_trim_right. Qed.

Lemma trim_right_idem s : trim_right (trim_right s) = trim_right s.
Proof.
  induction s as [|a s IH]; [done|]. cbn [trim_right].
  destruct (trim_right s) as [|b t] eqn:E; [destruct (is_space a) eqn:Ea|].
  - done.
  - cbn [trim_right]. by rewrite Ea.
  - cbn [trim_right] in IH |- *. by rewrite IH.
Qed.

(** Trimming on the right keeps the first character of a text that does not
    start with a space. *)
Lemma trim_left_trim_right s : trim_left (trim_right (trim_left s)) = trim_right (trim_left s).
Proof.
  induction s as [|a s IH]; [done|]. cbn [trim_left]. destruct (is_space a) eqn:Ea; [done|].
  cbn [trim_right]. destruct (trim_right s) as [|b t]; rewrite ?Ea; cbn [trim_left]; by rewrite Ea.
Qed.

Lemma TrimSpace_idem s : strings_TrimSpace (strings_TrimSpace s) = strings_TrimSpace s.
Proof. unfold strings_TrimSpace. by rewrite trim_left_trim_right, trim_right_idem. Qed.
