(* ===== verification/Transaction.v ===== *)
(** * Transaction data and alias keys (pkg/mtransaction/transaction.go, input.go)

    The structs the transaction engine works on, with the source's field names
    behind a prefix per struct, and the functions that build and take apart the
    "index#alias#balanceKey" keys under which amounts and balances meet. *)

From Stdlib Require Import Ascii.
From stdpp Require Import base gmap strings list.
From S2P Require Import Prelude Decimals GoStrings.

Local Open Scope string_scope.
Local Open Scope list_scope.

(** ** Constants of pkg/constant *)

(** Operation types; a Go string field may hold anything else too. *)
Inductive OpType := DEBIT | CREDIT | ONHOLD | RELEASE | OpOther (s : string).

(** Transaction statuses. *)
Inductive TxStatus := CREATED | APPROVED | PENDING | CANCELED | NOTED | StatusOther (s : string).

(** Balance direction; the empty string marks a legacy balance. *)
Inductive Direction := DirectionDebit | DirectionCredit | DirectionEmpty | DirectionOther (s : string).

(** Accounting actions of pkg/constant/action.go. *)
Inductive Action := ActionDirect | ActionHold | ActionCommit | ActionCancel | ActionRevert
  | ActionOverdraft | ActionBlock | ActionUnblock.

Definition DefaultBalanceKey : string := "default".
Definition OverdraftBalanceKey : string := "overdraft".
Definition ExternalAccountType : string := "external".
Definition DefaultExternalAccountAliasPrefix : string := "@external/".

#[export] Instance OpType_eq_dec : EqDecision OpType.
Proof. solve_decision. Defined.
#[export] Instance TxStatus_eq_dec : EqDecision TxStatus.
Proof. solve_decision. Defined.
#[export] Instance Direction_eq_dec : EqDecision Direction.
Proof. solve_decision. Defined.
#[export] Instance Action_eq_dec : EqDecision Action.
Proof. solve_decision. Defined.

(** ** Structs *)

(** A [time.Time] as nanoseconds since the zero time. *)
Abbreviation Time := Z (only parsing).

(** Metadata values: the JSON values of a [map[string]any]. *)
Inductive AnyValue := AnyString (s : string) | AnyNumber (s : string) | AnyBool (b : bool) | AnyNull
  | AnyMap (m : list (string * AnyValue)).

Section Structs.
Context `{DecimalLib}.

Record Balance := mkBalance {
  bal_ID : string; bal_OrganizationID : string; bal_LedgerID : string;
  bal_AccountID : string; bal_Alias : string; bal_Key : string;
  bal_AssetCode : string;
  bal_Available : dec; bal_OnHold : dec; bal_Version : Z;
  bal_AccountType : string; bal_AllowSending : bool; bal_AllowReceiving : bool;
  bal_Direction : Direction; bal_OverdraftUsed : dec; bal_AllowOverdraft : bool;
  bal_OverdraftLimitEnabled : bool; bal_OverdraftLimit : dec; bal_BalanceScope : string;
  bal_CreatedAt : Time; bal_UpdatedAt : Time; bal_DeletedAt : option Time;
  bal_Metadata : gmap string AnyValue;
}.

Record Amount := mkAmount {
  amt_Asset : string; amt_Value : dec;
  amt_Operation : OpType; amt_TransactionType : TxStatus; amt_Direction : Direction;
  amt_RouteValidationEnabled : bool; amt_OverdraftAmount : dec;
}.

Record Share := mkShare { shr_Percentage : Z; shr_PercentageOfPercentage : Z }.

Record Rate := mkRate {
  rate_From : string; rate_To : string; rate_Value : dec; rate_ExternalID : string }.

Record FromTo := mkFromTo {
  ft_AccountAlias : string; ft_BalanceKey : string;
  ft_Amount : option Amount; ft_Share : option Share; ft_Remaining : string;
  ft_Rate : option Rate; ft_Description : string; ft_ChartOfAccounts : string;
  ft_Metadata : gmap string AnyValue; ft_IsFrom : bool;
  ft_Route : string; ft_RouteID : option string;
}.

Record Source := mkSource { src_Remaining : string; src_From : list FromTo }.
Record Distribute := mkDistribute { dst_Remaining : string; dst_To : list FromTo }.
Record Send := mkSend {
  send_Asset : string; send_Value : dec; send_Source : Source; send_Distribute : Distribute }.

Record TransactionSkip := mkSkip { skip_Fees : bool; skip_Tracer : bool }.

Record Transaction := mkTransaction {
  tx_ChartOfAccountsGroupName : string; tx_Description : string; tx_Code : string;
  tx_Pending : bool; tx_Metadata : gmap string AnyValue; tx_Route : string;
  tx_RouteID : option string; tx_TransactionDate : option Time; tx_Send : Send;
  tx_Skip : option TransactionSkip; tx_OperationTypeOverride : string;
}.

Record Responses := mkResponses {
  resp_Total : dec; resp_Asset : string;
  resp_From : gmap string Amount; resp_To : gmap string Amount;
  resp_Sources : list string; resp_Destinations : list string;
  resp_Aliases : list string; resp_Pending : bool;
  resp_TransactionRoute : string; resp_TransactionRouteID : option string;
  resp_OperationRoutesFrom : gmap string string; resp_OperationRoutesTo : gmap string string;
}.

(** The zero values of the structs the code builds from scratch. *)
Definition zeroAmount : Amount :=
  mkAmount "" dzero (OpOther "") (StatusOther "") DirectionEmpty false dzero.
Definition zeroBalance : Balance :=
  mkBalance "" "" "" "" "" "" "" dzero dzero 0 "" false false DirectionEmpty dzero
    false false dzero "" 0 0 None ∅.
Definition zeroFromTo : FromTo :=
  mkFromTo "" "" None None "" None "" "" ∅ false "" None.

Definition set_ft_AccountAlias (a : string) (ft : FromTo) : FromTo :=
  mkFromTo a (ft_BalanceKey ft) (ft_Amount ft) (ft_Share ft) (ft_Remaining ft)
    (ft_Rate ft) (ft_Description ft) (ft_ChartOfAccounts ft) (ft_Metadata ft)
    (ft_IsFrom ft) (ft_Route ft) (ft_RouteID ft).
Definition set_ft_BalanceKey (k : string) (ft : FromTo) : FromTo :=
  mkFromTo (ft_AccountAlias ft) k (ft_Amount ft) (ft_Share ft) (ft_Remaining ft)
    (ft_Rate ft) (ft_Description ft) (ft_ChartOfAccounts ft) (ft_Metadata ft)
    (ft_IsFrom ft) (ft_Route ft) (ft_RouteID ft).
Definition set_ft_Amount (a : option Amount) (ft : FromTo) : FromTo :=
  mkFromTo (ft_AccountAlias ft) (ft_BalanceKey ft) a (ft_Share ft) (ft_Remaining ft)
    (ft_Rate ft) (ft_Description ft) (ft_ChartOfAccounts ft) (ft_Metadata ft)
    (ft_IsFrom ft) (ft_Route ft) (ft_RouteID ft).
Definition set_ft_IsFrom (b : bool) (ft : FromTo) : FromTo :=
  mkFromTo (ft_AccountAlias ft) (ft_BalanceKey ft) (ft_Amount ft) (ft_Share ft)
    (ft_Remaining ft) (ft_Rate ft) (ft_Description ft) (ft_ChartOfAccounts ft)
    (ft_Metadata ft) b (ft_Route ft) (ft_RouteID ft).

(** ** Methods *)

(** [Rate.IsEmpty] *)
Definition Rate_IsEmpty (r : Rate) : bool :=
  bool_decide (rate_ExternalID r = "") && bool_decide (rate_From r = "")
  && bool_decide (rate_To r = "") && dis_zero (rate_Value r).

(** [Transaction.InitialStatus] *)
Definition InitialStatus (t : Transaction) : TxStatus :=
  if tx_Pending t then PENDING else CREATED.

(** [Transaction.IsEmpty] *)
Definition Transaction_IsEmpty (t : Transaction) : bool :=
  bool_decide (send_Asset (tx_Send t) = "") && dis_zero (send_Value (tx_Send t)).
End Structs.

(** ** Alias keys *)

Definition hash : Ascii.ascii := "#"%char.

(** [AliasKey(alias, balanceKey)] *)
Definition AliasKey (alias balanceKey : string) : string :=
  let balanceKey := if bool_decide (balanceKey = "") then "default" else balanceKey in
  alias +:+ "#" +:+ balanceKey.

(** [SplitAlias(alias)]: the second '#'-separated segment, [strings.Split(..)[1]]. *)
Definition SplitAlias (alias : string) : string :=
  if contains_char hash alias then
    match strings_Split hash alias with
    | _ :: s :: _ => s
    | _ => alias  (* unreachable: Split yields two parts when '#' occurs *)
    end
  else alias.

(** [ConcatAlias(i, alias)] (the package function of validations.go). *)
Definition ConcatAlias (i : nat) (alias : string) : string :=
  strconv_Itoa i +:+ "#" +:+ alias.

(** [SplitAliasWithKey(alias)] *)
Definition SplitAliasWithKey (alias : string) : string :=
  match after_char hash alias with
  | Some rest => rest
  | None => alias
  end.

(** The loop of [isConcatedAlias]; [i] is the byte offset. *)
Fixpoint isConcatedAlias_go (i : nat) (alias : string) : bool :=
  match alias with
  | EmptyString => false
  | String c alias' =>
      if bool_decide (c = hash) then (0 <? i)%nat
      else if negb (is_digit c) then false
      else isConcatedAlias_go (S i) alias'
  end.

Definition isConcatedAlias (alias : string) : bool :=
  if (String.length alias <? 2)%nat then false else isConcatedAlias_go 0 alias.

Section AliasMethods.
Context `{DecimalLib}.

(** [FromTo.SplitAlias] *)
Definition FromTo_SplitAlias (ft : FromTo) : string := SplitAlias (ft_AccountAlias ft).

(** [FromTo.ConcatAlias] *)
Definition FromTo_ConcatAlias (ft : FromTo) (i : nat) : string :=
  let balanceKey :=
    if bool_decide (ft_BalanceKey ft = "") then DefaultBalanceKey else ft_BalanceKey ft in
  strconv_Itoa i +:+ "#" +:+ ft_AccountAlias ft +:+ "#" +:+ balanceKey.

(** [MutateConcatAliases]: the result slice and the mutated entries coincide. *)
Definition MutateConcatAliases (entries : list FromTo) : list FromTo :=
  imap (λ i e,
    if negb (isConcatedAlias (ft_AccountAlias e))
    then set_ft_AccountAlias (FromTo_ConcatAlias e i) e else e) entries.

(** [MutateSplitAliases] *)
Definition MutateSplitAliases (entries : list FromTo) : list FromTo :=
  map (λ e,
    if isConcatedAlias (ft_AccountAlias e)
    then set_ft_AccountAlias (FromTo_SplitAlias e) e else e) entries.

(** [utils.SanitizeAccountAliases], which writes through the shared slices. *)
Definition SanitizeAccountAliases (entries : list FromTo) : list FromTo :=
  (λ ft, set_ft_AccountAlias (FromTo_SplitAlias ft) ft) <$> entries.

(** [ApplyDefaultBalanceKeys] *)
Definition ApplyDefaultBalanceKeys (entries : list FromTo) : list FromTo :=
  map (λ e,
    if bool_decide (ft_BalanceKey e = "") then set_ft_BalanceKey DefaultBalanceKey e else e)
    entries.
End AliasMethods.

(** ** Request payloads (input.go)

    The three payload structs share their header fields with [Transaction]; the
    builders copy them and complete the missing side with the asset's external
    account. *)
Section Inputs.
Context `{DecimalLib}.

Record InputHeader := mkInputHeader {
  in_ChartOfAccountsGroupName : string; in_Description : string; in_Code : string;
  in_Metadata : gmap string AnyValue; in_Route : string; in_RouteID : option string;
  in_TransactionDate : option Time; in_Skip : option TransactionSkip;
}.

Record CreateTransactionInput := mkCreateInput {
  cti_Header : InputHeader; cti_Pending : bool; cti_Send : Send }.
Record CreateTransactionInflowInput := mkInflowInput {
  inflow_Header : InputHeader;
  inflow_Asset : string; inflow_Value : dec; inflow_Distribute : Distribute }.
Record CreateTransactionOutflowInput := mkOutflowInput {
  outflow_Header : InputHeader; outflow_Pending : bool;
  outflow_Asset : string; outflow_Value : dec; outflow_Source : Source }.

Definition transaction_of (h : InputHeader) (pending : bool) (send : Send) : Transaction :=
  mkTransaction (in_ChartOfAccountsGroupName h) (in_Description h) (in_Code h) pending
    (in_Metadata h) (in_Route h) (in_RouteID h) (in_TransactionDate h) send (in_Skip h) "".

Definition BuildTransaction (cti : CreateTransactionInput) : Transaction :=
  let s := cti_Send cti in
  let fromClone := map (set_ft_IsFrom true) (src_From (send_Source s)) in
  let send := mkSend (send_Asset s) (send_Value s)
                (mkSource (src_Remaining (send_Source s)) fromClone) (send_Distribute s) in
  transaction_of (cti_Header cti) (cti_Pending cti) send.

Definition external_leg (isFrom : bool) (asset : string) (value : dec) : FromTo :=
  mkFromTo (DefaultExternalAccountAliasPrefix +:+ asset) ""
    (Some (mkAmount asset value (OpOther "") (StatusOther "") DirectionEmpty false dzero))
    None "" None "" "" ∅ isFrom "" None.

Definition BuildInflowEntry (c : CreateTransactionInflowInput) : Transaction :=
  let from := external_leg true (inflow_Asset c) (inflow_Value c) in
  transaction_of (inflow_Header c) false
    (mkSend (inflow_Asset c) (inflow_Value c) (mkSource "" [from]) (inflow_Distribute c)).

Definition BuildOutflowEntry (c : CreateTransactionOutflowInput) : Transaction :=
  let to := external_leg false (outflow_Asset c) (outflow_Value c) in
  let fromClone := map (set_ft_IsFrom true) (src_From (outflow_Source c)) in
  transaction_of (outflow_Header c) (outflow_Pending c)
    (mkSend (outflow_Asset c) (outflow_Value c) (mkSource "" fromClone)
       (mkDistribute "" [to])).
End Inputs.

(** ** Lemmas on alias keys *)

Lemma hash_not_digit : is_digit hash = false.
Proof. reflexivity. Qed.

Lemma isConcated_go_digits i s rest :
  all_chars is_digit s = true →
  isConcatedAlias_go i (s +:+ String hash rest) = (0 <? i + String.length s)%nat.
Proof.
  revert i; induction s as [|a s IH]; intros i; simpl.
  - intros _. by rewrite Nat.add_0_r.
  - intros [Ha Hs]%andb_true_iff.
    rewrite bool_decide_eq_false_2 by (intros ->; by rewrite hash_not_digit in Ha).
    rewrite Ha. simpl. rewrite IH by done. by rewrite <- Nat.add_succ_comm.
Qed.

Lemma string_length_app s t :
  String.length (s +:+ t) = (String.length s + String.length t)%nat.
Proof. induction s as [|a s IH]; [done|]. simpl. f_equal. exact IH. Qed.

(** Every key built by concatenation is recognised as such. *)
Lemma isConcated_index i rest : isConcatedAlias (strconv_Itoa i +:+ String hash rest) = true.
Proof.
  unfold isConcatedAlias. rewrite string_length_app.
  assert (0 < String.length (strconv_Itoa i))%nat as Hlen.
  { pose proof (Itoa_nonempty i). destruct (strconv_Itoa i); [done|simpl; lia]. }
  simpl (String.length (String _ _)).
  destruct (Nat.ltb_spec (String.length (strconv_Itoa i) + S (String.length rest)) 2); [lia|].
  rewrite isConcated_go_digits by apply Itoa_digits.
  by apply Nat.ltb_lt.
Qed.

Lemma no_hash_not_concated alias :
  contains_char hash alias = false → isConcatedAlias alias = false.
Proof.
  unfold isConcatedAlias. destruct (_ <? 2)%nat; [done|]. generalize 0%nat.
  induction alias as [|c alias IH]; intros i; simpl; [done|].
  case_bool_decide; [done|]. destruct (is_digit c); simpl; auto.
Qed.

Lemma SplitAlias_concat i alias rest :
  contains_char hash alias = false →
  SplitAlias (strconv_Itoa i +:+ String hash (alias +:+ String hash rest)) = alias.
Proof.
  intros Ha. unfold SplitAlias. rewrite contains_char_app. simpl.
  rewrite orb_true_r, strings_Split_app by apply Itoa_no_char, hash_not_digit.
  by rewrite strings_Split_app.
Qed.

Lemma SplitAliasWithKey_concat i rest :
  SplitAliasWithKey (strconv_Itoa i +:+ String hash rest) = rest.
Proof.
  unfold SplitAliasWithKey. by rewrite after_char_app by apply Itoa_no_char, hash_not_digit.
Qed.

Lemma AliasKey_eq alias key :
  AliasKey alias key = alias +:+ String hash (if bool_decide (key = "") then "default" else key).
Proof. reflexivity. Qed.

Lemma FromTo_ConcatAlias_eq `{DecimalLib} ft i :
  FromTo_ConcatAlias ft i
  = strconv_Itoa i +:+ String hash (AliasKey (ft_AccountAlias ft) (ft_BalanceKey ft)).
Proof. reflexivity. Qed.

Lemma set_ft_AccountAlias_twice `{DecimalLib} a b ft :
  set_ft_AccountAlias a (set_ft_AccountAlias b ft) = set_ft_AccountAlias a ft.
Proof. reflexivity. Qed.

Lemma set_ft_AccountAlias_id `{DecimalLib} ft :
  set_ft_AccountAlias (ft_AccountAlias ft) ft = ft.
Proof. by destruct ft. Qed.

(** ** Properties of the alias keys *)

Section AliasTheorems.
Context `{DecimalLib}.
Implicit Types e : FromTo.

Definition plain_alias e : Prop := contains_char hash (ft_AccountAlias e) = false.

Lemma concat_entry_concated e i :
  isConcatedAlias (ft_AccountAlias
    (if negb (isConcatedAlias (ft_AccountAlias e))
     then set_ft_AccountAlias (FromTo_ConcatAlias e i) e else e)) = true.
Proof.
  destruct (isConcatedAlias (ft_AccountAlias e)) eqn:E; simpl; [done|].
  apply isConcated_index.
Qed.

Lemma concat_entry_plain e i :
  plain_alias e →
  (if negb (isConcatedAlias (ft_AccountAlias e))
   then set_ft_AccountAlias (FromTo_ConcatAlias e i) e else e)
  = set_ft_AccountAlias (FromTo_ConcatAlias e i) e.
Proof. intros Hp. by rewrite no_hash_not_concated. Qed.

Lemma lookup_MutateConcat es i :
  MutateConcatAliases es !! i
  = (λ e, if negb (isConcatedAlias (ft_AccountAlias e))
          then set_ft_AccountAlias (FromTo_ConcatAlias e i) e else e) <$> es !! i.
Proof. unfold MutateConcatAliases. by rewrite list_lookup_imap. Qed.

(** Keys of distinct entries are distinct, because each starts with its own index. *)
Lemma MutateConcat_NoDup es :
  Forall plain_alias es → NoDup (ft_AccountAlias <$> MutateConcatAliases es).
Proof.
  intros Hp. apply NoDup_alt. intros i j k.
  rewrite !list_lookup_fmap, !lookup_MutateConcat.
  destruct (es !! i) as [ei|] eqn:Ei, (es !! j) as [ej|] eqn:Ej; simpl; try done.
  rewrite !concat_entry_plain by (eapply Forall_lookup; eauto).
  intros [= <-] [= E]. simpl in E. rewrite !FromTo_ConcatAlias_eq in E.
  apply app_char_inj in E as [E _]; [by apply Itoa_inj in E|..];
    apply Itoa_no_char, hash_not_digit.
Qed.

(** Rewriting already rewritten entries changes nothing. *)
Lemma MutateConcat_twice es :
  MutateConcatAliases (MutateConcatAliases es) = MutateConcatAliases es.
Proof.
  apply list_eq. intros i. rewrite !lookup_MutateConcat.
  destruct (es !! i) as [e|]; simpl; [|done]. by rewrite concat_entry_concated.
Qed.

Lemma MutateSplit_Concat es :
  Forall plain_alias es → MutateSplitAliases (MutateConcatAliases es) = es.
Proof.
  intros Hp. apply list_eq. intros i. unfold MutateSplitAliases.
  rewrite list_lookup_fmap, lookup_MutateConcat.
  destruct (es !! i) as [e|] eqn:Ei; simpl; [|done]. f_equal.
  rewrite concat_entry_concated.
  assert (plain_alias e) as He by (eapply Forall_lookup; eauto).
  rewrite concat_entry_plain by done.
  unfold FromTo_SplitAlias. simpl. rewrite FromTo_ConcatAlias_eq, AliasKey_eq.
  rewrite SplitAlias_concat by done.
  by rewrite set_ft_AccountAlias_twice, set_ft_AccountAlias_id.
Qed.
End AliasTheorems.

(** The key rewriting of a list of entries is reversible and collision-free.
    For entries whose aliases contain no '#', [MutateConcatAliases] gives pairwise
    distinct keys, each key minus its index is exactly the alias#balanceKey under
    which the balance is looked up, applying it again changes nothing, and
    [MutateSplitAliases] restores the entries. *)
Theorem alias_keys_round_trip `{DecimalLib} (es : list FromTo) :
  Forall plain_alias es →
  NoDup (ft_AccountAlias <$> MutateConcatAliases es) ∧
  (∀ i e, es !! i = Some e → ∃ e', MutateConcatAliases es !! i = Some e' ∧
     SplitAliasWithKey (ft_AccountAlias e') = AliasKey (ft_AccountAlias e) (ft_BalanceKey e)) ∧
  MutateConcatAliases (MutateConcatAliases es) = MutateConcatAliases es ∧
  MutateSplitAliases (MutateConcatAliases es) = es.
Proof.
  intros Hp. split_and!;
    [by apply MutateConcat_NoDup| |apply MutateConcat_twice|by apply MutateSplit_Concat].
  intros i e He. exists (set_ft_AccountAlias (FromTo_ConcatAlias e i) e). split.
  - rewrite lookup_MutateConcat, He; simpl.
    by rewrite concat_entry_plain by (eapply Forall_lookup; eauto).
  - simpl. rewrite FromTo_ConcatAlias_eq. apply SplitAliasWithKey_concat.
Qed.

Definition sample_entries : list (@FromTo Fixed.lib) :=
  [set_ft_AccountAlias "@alice" zeroFromTo; set_ft_AccountAlias "@bob" zeroFromTo].

Lemma alias_keys_round_trip_witness :
  Forall plain_alias sample_entries ∧
  MutateSplitAliases (MutateConcatAliases sample_entries) = sample_entries ∧
  ft_AccountAlias <$> MutateConcatAliases sample_entries = ["0#@alice#default"; "1#@bob#default"].
Proof.
  assert (Forall plain_alias sample_entries) as Hp by (repeat constructor).
  split; [exact Hp|]. split; [|reflexivity].
  destruct (alias_keys_round_trip sample_entries Hp) as (_ & _ & _ & E). exact E.
Defined.
