(* ===== verification/BalanceOps.v ===== *)
(** * Balance arithmetic (pkg/mtransaction/validations.go)

    The pure part of the engine: how one amount changes one balance
    ([OperateBalances] and the per-status tables it dispatches to), how
    operations are chosen for an entry ([DetermineOperation],
    [PropagateRouteValidation]), and the double-entry split used when route
    validation is on. *)

From Stdlib Require Import QArith Lqa.
From stdpp Require Import base gmap strings list sorting.
From S2P Require Import Prelude Decimals GoStrings Transaction.

Local Open Scope string_scope.
Local Open Scope list_scope.

(** Go's [int64] addition wraps around. *)
Definition int64_wrap (z : Z) : Z := ((z + 2 ^ 63) `mod` 2 ^ 64 - 2 ^ 63)%Z.

Section BalanceOps.
Context `{DecimalLib}.
Local Open Scope dec_scope.
Implicit Types (amount amt : Amount) (balance : Balance).

(** The three results of the [apply*] functions: available, onHold, matched. *)
Definition change : Type := dec * dec * bool.

Definition unmatched balance : change := (bal_Available balance, bal_OnHold balance, false).

Definition applyPendingBalance amount balance : change :=
  match amt_Operation amount, amt_RouteValidationEnabled amount with
  | DEBIT, true => (bal_Available balance - amt_Value amount, bal_OnHold balance, true)
  | ONHOLD, true => (bal_Available balance, bal_OnHold balance + amt_Value amount, true)
  | ONHOLD, false =>
      (bal_Available balance - amt_Value amount, bal_OnHold balance + amt_Value amount, true)
  | _, _ => unmatched balance
  end.

Definition applyCanceledBalance amount balance : change :=
  match amt_Operation amount, amt_RouteValidationEnabled amount with
  | RELEASE, true => (bal_Available balance, bal_OnHold balance - amt_Value amount, true)
  | RELEASE, false =>
      (bal_Available balance + amt_Value amount, bal_OnHold balance - amt_Value amount, true)
  | CREDIT, true => (bal_Available balance + amt_Value amount, bal_OnHold balance, true)
  | _, _ => unmatched balance
  end.

Definition applyApprovedBalance amount balance : change :=
  match amt_Operation amount with
  | DEBIT => (bal_Available balance, bal_OnHold balance - amt_Value amount, true)
  | ONHOLD => (bal_Available balance, bal_OnHold balance - amt_Value amount, true)
  | CREDIT => (bal_Available balance + amt_Value amount, bal_OnHold balance, true)
  | _ => unmatched balance
  end.

Definition applyCreatedBalance amount balance : change :=
  match amt_Operation amount with
  | DEBIT => (bal_Available balance - amt_Value amount, bal_OnHold balance, true)
  | CREDIT => (bal_Available balance + amt_Value amount, bal_OnHold balance, true)
  | _ => unmatched balance
  end.

Definition applyBalanceChange amount balance : change :=
  match amt_TransactionType amount with
  | PENDING => applyPendingBalance amount balance
  | CANCELED => applyCanceledBalance amount balance
  | APPROVED => applyApprovedBalance amount balance
  | CREATED => applyCreatedBalance amount balance
  | _ => unmatched balance
  end.

Definition applyDebitDirectionBalance amount balance : change :=
  match amt_Operation amount with
  | DEBIT => (bal_Available balance + amt_Value amount, bal_OnHold balance, true)
  | CREDIT => (bal_Available balance - amt_Value amount, bal_OnHold balance, true)
  | _ => applyBalanceChange amount balance
  end.

(** [Balance{Available: a, OnHold: h, Version: v}]: every other field is zero. *)
Definition fresh_balance (available onHold : dec) (version : Z) : Balance :=
  mkBalance "" "" "" "" "" "" "" available onHold version "" false false DirectionEmpty
    dzero false false dzero "" 0 0 None ∅.

(** The error result of [OperateBalances] is always nil. *)
Definition OperateBalances amount balance : Balance :=
  let '(available, onHold, matched) :=
    if bool_decide (bal_Direction balance = DirectionDebit)
    then applyDebitDirectionBalance amount balance
    else applyBalanceChange amount balance in
  if matched
  then fresh_balance available onHold (int64_wrap (bal_Version balance + 1))
  else balance.

(** [validate.From[key]]: the zero amount when the key is absent. *)
Definition map_get (m : gmap string Amount) (key : string) : Amount :=
  default zeroAmount (m !! key).

Definition ValidateFromToOperation (ft : FromTo) (validate : Responses) balance
  : Amount * Balance :=
  if ft_IsFrom ft then
    let amt := map_get (resp_From validate) (ft_AccountAlias ft) in
    (amt, OperateBalances amt balance)
  else
    let amt := map_get (resp_To validate) (ft_AccountAlias ft) in
    (amt, OperateBalances amt balance).

Definition IsDoubleEntrySource amt : bool :=
  if negb (amt_RouteValidationEnabled amt) then false
  else match amt_TransactionType amt with
  | PENDING => bool_decide (amt_Operation amt = ONHOLD)
  | CANCELED => bool_decide (amt_Operation amt = RELEASE)
  | _ => false
  end.

Definition set_op_dir (op : OpType) (dir : Direction) amt : Amount :=
  mkAmount (amt_Asset amt) (amt_Value amt) op (amt_TransactionType amt) dir
    (amt_RouteValidationEnabled amt) (amt_OverdraftAmount amt).

Definition SplitDoubleEntryOps amt : Amount * Amount :=
  match amt_TransactionType amt with
  | PENDING => (set_op_dir DEBIT DirectionDebit amt, set_op_dir ONHOLD DirectionCredit amt)
  | CANCELED => (set_op_dir RELEASE DirectionDebit amt, set_op_dir CREDIT DirectionCredit amt)
  | _ => (amt, amt)
  end.

Definition DetermineOperation (isPending isFrom : bool) (transactionType : TxStatus)
  : OpType * Direction :=
  if isPending && bool_decide (transactionType = PENDING) then
    if isFrom then (ONHOLD, DirectionDebit) else (CREDIT, DirectionCredit)
  else if isPending && isFrom && bool_decide (transactionType = CANCELED) then
    (RELEASE, DirectionCredit)
  else if isPending && bool_decide (transactionType = APPROVED) then
    if isFrom then (DEBIT, DirectionDebit) else (CREDIT, DirectionCredit)
  else if negb isPending then
    if isFrom then (DEBIT, DirectionDebit) else (CREDIT, DirectionCredit)
  else (CREDIT, DirectionCredit).

Definition propagate_amount (transactionStatus : TxStatus) amt : Amount :=
  let op := if bool_decide (transactionStatus = APPROVED) && bool_decide (amt_Operation amt = DEBIT)
            then ONHOLD else amt_Operation amt in
  mkAmount (amt_Asset amt) (amt_Value amt) op (amt_TransactionType amt) (amt_Direction amt)
    true (amt_OverdraftAmount amt).

(** [validate] is a non-nil pointer whose [From] map is updated in place. *)
Definition PropagateRouteValidation (validate : Responses) (transactionStatus : TxStatus)
  : Responses :=
  match transactionStatus with
  | PENDING | CANCELED | APPROVED =>
      mkResponses (resp_Total validate) (resp_Asset validate)
        (propagate_amount transactionStatus <$> resp_From validate) (resp_To validate)
        (resp_Sources validate) (resp_Destinations validate) (resp_Aliases validate)
        (resp_Pending validate) (resp_TransactionRoute validate)
        (resp_TransactionRouteID validate) (resp_OperationRoutesFrom validate)
        (resp_OperationRoutesTo validate)
  | _ => validate
  end.

Definition StatusToAction (statusCode : TxStatus) : Action :=
  match statusCode with
  | PENDING => ActionHold
  | APPROVED => ActionCommit
  | CANCELED => ActionCancel
  | _ => ActionDirect
  end.
End BalanceOps.

(** ** Eligibility of the balances of a transaction *)

Section Eligibility.
Context `{DecimalLib}.
Implicit Types (balance : Balance).

(** [key == balance.ID || SplitAliasWithKey(key) == AliasKey(balance.Alias, balance.Key)] *)
Definition key_matches balance (key : string) : bool :=
  bool_decide (key = bal_ID balance)
  || bool_decide (SplitAliasWithKey key = AliasKey (bal_Alias balance) (bal_Key balance)).

Definition validateFromBalance_key balance (asset : string) (pending : bool) (key : string)
  : result GoError unit :=
  if key_matches balance key then
    if negb (bool_decide (bal_AssetCode balance = asset)) then Err ErrAssetCodeNotFound
    else if negb (bal_AllowSending balance) then Err ErrAccountStatusTransactionRestriction
    else if pending && bool_decide (bal_AccountType balance = ExternalAccountType)
    then Err ErrOnHoldExternalAccount
    else Ok tt
  else Ok tt.

(** Go ranges over a map in an unspecified order: [keys] is any enumeration of it. *)
Definition validateFromBalances_order balance (keys : list string) asset pending :=
  for_each (validateFromBalance_key balance asset pending) keys.

Definition validateFromBalances balance (from : gmap string Amount) asset pending
  : result GoError unit :=
  validateFromBalances_order balance (map_to_list from).*1 asset pending.

Definition validateToBalance_key balance (asset : string) (key : string)
  : result GoError unit :=
  if key_matches balance key then
    if negb (bool_decide (bal_AssetCode balance = asset)) then Err ErrAssetCodeNotFound
    else if negb (bal_AllowReceiving balance) then Err ErrAccountStatusTransactionRestriction
    else Ok tt
  else Ok tt.

Definition validateToBalances_order balance (keys : list string) asset :=
  for_each (validateToBalance_key balance asset) keys.

Definition validateToBalances balance (to : gmap string Amount) asset : result GoError unit :=
  validateToBalances_order balance (map_to_list to).*1 asset.

Definition ValidateBalancesRules (transaction : Transaction) (validate : Responses)
    (balances : list Balance) : result GoError unit :=
  if negb (bool_decide (length balances
            = (size (resp_From validate) + size (resp_To validate))%nat))
  then Err ErrAccountIneligibility
  else for_each (λ balance,
    do! validateFromBalances balance (resp_From validate) (resp_Asset validate)
          (resp_Pending validate);;
    validateToBalances balance (resp_To validate) (resp_Asset validate)) balances.
End Eligibility.

(** ** Composition used by the services *)

Section Composition.
Context `{DecimalLib}.
Implicit Types (amount amt : Amount) (balance : Balance).

(** The row written by the fallback path of [UpdateBalances]
    (services/command/update_balance.go): amounts from [OperateBalances],
    the version always bumped, every other column kept. *)
Definition update_row amount balance : Balance :=
  let calculated := OperateBalances amount balance in
  mkBalance (bal_ID balance) (bal_OrganizationID balance) (bal_LedgerID balance)
    (bal_AccountID balance) (bal_Alias balance) (bal_Key balance) (bal_AssetCode balance)
    (bal_Available calculated) (bal_OnHold calculated) (int64_wrap (bal_Version balance + 1))
    (bal_AccountType balance) (bal_AllowSending balance) (bal_AllowReceiving balance)
    (bal_Direction balance) (bal_OverdraftUsed balance) (bal_AllowOverdraft balance)
    (bal_OverdraftLimitEnabled balance) (bal_OverdraftLimit balance)
    (bal_BalanceScope balance) (bal_CreatedAt balance) (bal_UpdatedAt balance)
    (bal_DeletedAt balance) (bal_Metadata balance).

Definition update_rows (amounts : list Amount) balance : Balance :=
  fold_left (λ b a, update_row a b) amounts balance.

(** The operations [buildBalanceOperations] queues for one entry. *)
Definition entry_ops amt : list Amount :=
  if IsDoubleEntrySource amt
  then let '(op1, op2) := SplitDoubleEntryOps amt in [op1; op2] else [amt].

(** The amount [CalculateTotal] records for an entry of value [v]. *)
Definition entry_amount (pending isFrom : bool) (status : TxStatus) (asset : string) (v : dec)
  : Amount :=
  let '(operation, direction) := DetermineOperation pending isFrom status in
  mkAmount asset v operation status direction false dzero.

(** The operations a source entry of a two-phase transaction gets in [status],
    with route validation [rv] propagated or not. *)
Definition source_ops (rv : bool) (status : TxStatus) (asset : string) (v : dec) : list Amount :=
  let amt := entry_amount true true status asset v in
  entry_ops (if rv then propagate_amount status amt else amt).
End Composition.

(** ** Properties of the balance arithmetic *)

(** Two rows agree on the monetary columns. *)
Definition same_funds `{DecimalLaws} (b b' : Balance) : Prop :=
  bal_Available b ≡d bal_Available b' ∧ bal_OnHold b ≡d bal_OnHold b'.

#[export] Instance same_funds_equiv `{DecimalLaws} : Equivalence same_funds.
Proof.
  split; red; unfold same_funds; intros.
  - split; reflexivity.
  - destruct_and!; split; by symmetry.
  - destruct_and!; split; by etransitivity.
Qed.

Section ArithmeticTheorems.
Context `{DecimalLaws}.
Local Open Scope dec_scope.
Implicit Types (amount amt : Amount) (balance b : Balance).

Lemma update_row_Direction amt b : bal_Direction (update_row amt b) = bal_Direction b.
Proof. reflexivity. Qed.

Ltac funds :=
  repeat match goal with
  | |- context [bool_decide (?x = ?y)] => rewrite (bool_decide_eq_false_2 (x = y)) by done
  end.

(** Effect of the source operations of one status on a balance that is not
    of debit direction, as a pair of deltas. *)
Lemma source_ops_effect rv status asset v b :
  bal_Direction b ≠ DirectionDebit →
  match status with
  | PENDING => bal_Available (update_rows (source_ops rv status asset v) b)
                 ≡d bal_Available b - v
               ∧ bal_OnHold (update_rows (source_ops rv status asset v) b) ≡d bal_OnHold b + v
  | CANCELED => bal_Available (update_rows (source_ops rv status asset v) b)
                 ≡d bal_Available b + v
               ∧ bal_OnHold (update_rows (source_ops rv status asset v) b) ≡d bal_OnHold b - v
  | APPROVED => bal_Available (update_rows (source_ops rv status asset v) b) ≡d bal_Available b
               ∧ bal_OnHold (update_rows (source_ops rv status asset v) b) ≡d bal_OnHold b - v
  | _ => True
  end.
Proof.
  intros Hd. destruct status, rv; try done;
    unfold update_rows, source_ops, entry_ops, entry_amount, propagate_amount,
      IsDoubleEntrySource, SplitDoubleEntryOps, DetermineOperation; simpl;
    unfold update_row, OperateBalances; simpl;
    rewrite ?bool_decide_eq_false_2 by done; simpl; split; reflexivity.
Qed.

Lemma update_rows_Direction amts b : bal_Direction (update_rows amts b) = bal_Direction b.
Proof.
  unfold update_rows. revert b; induction amts as [|a amts IH]; intros b; simpl; [done|].
  by rewrite IH.
Qed.

(** Holding and then cancelling restores the funds of the source; holding and
    then committing takes exactly the held value out of Available and leaves
    OnHold as it was; for every combination of the route-validation flag in
    the two phases. *)
Lemma two_phase_source rv1 rv2 asset v b :
  bal_Direction b ≠ DirectionDebit →
  let held := update_rows (source_ops rv1 PENDING asset v) b in
  same_funds (update_rows (source_ops rv2 CANCELED asset v) held) b ∧
  (bal_Available (update_rows (source_ops rv2 APPROVED asset v) held) ≡d bal_Available b - v ∧
   bal_OnHold (update_rows (source_ops rv2 APPROVED asset v) held) ≡d bal_OnHold b).
Proof.
  intros Hd held.
  pose proof (source_ops_effect rv1 PENDING asset v b Hd) as [Ha Ho].
  assert (bal_Direction held ≠ DirectionDebit) as Hd'
    by (unfold held; by rewrite update_rows_Direction).
  pose proof (source_ops_effect rv2 CANCELED asset v held Hd') as [Hca Hco].
  pose proof (source_ops_effect rv2 APPROVED asset v held Hd') as [Haa Hao].
  fold held in Ha, Ho. unfold same_funds. repeat split.
  - rewrite Hca, Ha. dec_lra.
  - rewrite Hco, Ho. dec_lra.
  - rewrite Haa, Ha. dec_lra.
  - rewrite Hao, Ho. dec_lra.
Qed.

(** The one-phase debit of the same value. *)
Lemma one_phase_source asset v b :
  bal_Direction b ≠ DirectionDebit →
  let b' := update_row (entry_amount false true CREATED asset v) b in
  bal_Available b' = bal_Available b - v ∧ bal_OnHold b' = bal_OnHold b.
Proof.
  intros Hd. unfold entry_amount, update_row, OperateBalances; simpl.
  by rewrite bool_decide_eq_false_2.
Qed.

(** Destinations of a two-phase transaction: untouched while pending and when
    cancelled, credited exactly once on commit. *)
Lemma two_phase_destination asset v b :
  bal_Direction b ≠ DirectionDebit →
  same_funds (update_row (entry_amount true false PENDING asset v) b) b ∧
  same_funds (update_row (entry_amount true false CANCELED asset v) b) b ∧
  bal_Available (update_row (entry_amount true false APPROVED asset v) b)
    = bal_Available b + v ∧
  bal_OnHold (update_row (entry_amount true false APPROVED asset v) b) = bal_OnHold b.
Proof.
  intros Hd. unfold entry_amount, update_row, OperateBalances, same_funds; simpl.
  rewrite bool_decide_eq_false_2 by done; simpl. repeat split; reflexivity.
Qed.

(** A liability balance: debits raise and credits lower Available in every
    status, OnHold untouched. *)
Lemma debit_direction_inverts amt b :
  bal_Direction b = DirectionDebit →
  (amt_Operation amt = DEBIT →
     bal_Available (OperateBalances amt b) = bal_Available b + amt_Value amt ∧
     bal_OnHold (OperateBalances amt b) = bal_OnHold b) ∧
  (amt_Operation amt = CREDIT →
     bal_Available (OperateBalances amt b) = bal_Available b - amt_Value amt ∧
     bal_OnHold (OperateBalances amt b) = bal_OnHold b).
Proof.
  intros Hd. unfold OperateBalances. rewrite bool_decide_eq_true_2 by done.
  unfold applyDebitDirectionBalance. split; intros ->; done.
Qed.
End ArithmeticTheorems.

Section EligibilityTheorems.
Context `{DecimalLib}.
Implicit Types balance : Balance.

(** What a source, respectively a destination, has to satisfy. *)
Definition source_check balance asset (pending : bool) : result GoError unit :=
  if negb (bool_decide (bal_AssetCode balance = asset)) then Err ErrAssetCodeNotFound
  else if negb (bal_AllowSending balance) then Err ErrAccountStatusTransactionRestriction
  else if pending && bool_decide (bal_AccountType balance = ExternalAccountType)
  then Err ErrOnHoldExternalAccount else Ok tt.
Definition destination_check balance asset : result GoError unit :=
  if negb (bool_decide (bal_AssetCode balance = asset)) then Err ErrAssetCodeNotFound
  else if negb (bal_AllowReceiving balance) then Err ErrAccountStatusTransactionRestriction
  else Ok tt.

(** A loop whose body returns one fixed verdict on the keys that match. *)
Lemma for_each_uniform {A} (p : A → bool) (r : result GoError unit) l :
  for_each (λ k, if p k then r else Ok tt) l = if existsb p l then r else Ok tt.
Proof.
  induction l as [|x l IH]; simpl; [done|]. destruct (p x); simpl.
  - destruct r as [[]|]; simpl; [|done]. rewrite IH. by destruct (existsb p l).
  - exact IH.
Qed.

Lemma validateFromBalances_order_spec balance keys asset pending :
  validateFromBalances_order balance keys asset pending
  = if existsb (key_matches balance) keys then source_check balance asset pending else Ok tt.
Proof. apply for_each_uniform. Qed.

Lemma validateToBalances_order_spec balance keys asset :
  validateToBalances_order balance keys asset
  = if existsb (key_matches balance) keys then destination_check balance asset else Ok tt.
Proof. apply for_each_uniform. Qed.

Lemma existsb_Permutation {A} (p : A → bool) l l' : l ≡ₚ l' → existsb p l = existsb p l'.
Proof.
  induction 1; simpl; [done|by f_equal| |congruence].
  by rewrite !orb_assoc, (orb_comm (p y)).
Qed.

Lemma source_check_Ok balance asset pending :
  source_check balance asset pending = Ok tt ↔
  bal_AssetCode balance = asset ∧ bal_AllowSending balance = true ∧
  (pending = true → bal_AccountType balance ≠ ExternalAccountType).
Proof.
  unfold source_check. repeat case_bool_decide;
    destruct (bal_AllowSending balance), pending; simpl; naive_solver.
Qed.

Lemma destination_check_Ok balance asset :
  destination_check balance asset = Ok tt ↔
  bal_AssetCode balance = asset ∧ bal_AllowReceiving balance = true.
Proof.
  unfold destination_check. case_bool_decide; destruct (bal_AllowReceiving balance);
    simpl; naive_solver.
Qed.

(** Acceptance, spelled out per balance. *)
Lemma ValidateBalancesRules_Ok tx validate balances :
  ValidateBalancesRules tx validate balances = Ok tt ↔
  length balances = (size (resp_From validate) + size (resp_To validate))%nat ∧
  Forall (λ b,
    ((∃ k, is_Some (resp_From validate !! k) ∧ key_matches b k = true) →
       source_check b (resp_Asset validate) (resp_Pending validate) = Ok tt) ∧
    ((∃ k, is_Some (resp_To validate !! k) ∧ key_matches b k = true) →
       destination_check b (resp_Asset validate) = Ok tt)) balances.
Proof.
  assert (∀ (m : gmap string Amount) (p : string → bool),
    existsb p (map_to_list m).*1 = true ↔ ∃ k, is_Some (m !! k) ∧ p k = true) as Hex.
  { intros m p. rewrite existsb_exists. split.
    - intros (k & Hk & Hp). exists k. split; [|done].
      apply list_elem_of_In, list_elem_of_fmap in Hk as ([k' a] & -> & Ha).
      apply elem_of_map_to_list in Ha. by exists a.
    - intros (k & [a Ha] & Hp). exists k. split; [|done].
      apply list_elem_of_In, list_elem_of_fmap. exists (k, a).
      split; [done|]. by apply elem_of_map_to_list. }
  unfold ValidateBalancesRules. case_bool_decide as Hlen; simpl; [|naive_solver].
  rewrite for_each_Ok. transitivity (Forall (λ b,
    ((∃ k, is_Some (resp_From validate !! k) ∧ key_matches b k = true) →
       source_check b (resp_Asset validate) (resp_Pending validate) = Ok tt) ∧
    ((∃ k, is_Some (resp_To validate !! k) ∧ key_matches b k = true) →
       destination_check b (resp_Asset validate) = Ok tt)) balances); [|naive_solver].
  apply Forall_iff. intros b. rewrite rbind_Ok, <- !Hex.
  unfold validateFromBalances, validateToBalances.
  rewrite validateFromBalances_order_spec, validateToBalances_order_spec.
  destruct (existsb (key_matches b) (map_to_list (resp_From validate)).*1),
    (existsb (key_matches b) (map_to_list (resp_To validate)).*1);
    (split; [intros ([] & ? & ?); split; intros; (done || congruence)
            |intros [Hs Ht]; exists tt; split; auto]).
Qed.
End EligibilityTheorems.

(** Two-phase transactions conserve the funds of the source.  For a balance
    that is not of debit direction and every setting of the route-validation
    switch in the two phases: hold followed by cancel leaves Available and OnHold
    as they were, and hold followed by commit has exactly the effect of the
    one-phase debit of the same value. *)
Theorem two_phase_lifecycle `{DecimalLaws} (rv1 rv2 : bool) (asset : string) (v : dec)
    (b : Balance) :
  bal_Direction b ≠ DirectionDebit →
  let held := update_rows (source_ops rv1 PENDING asset v) b in
  same_funds (update_rows (source_ops rv2 CANCELED asset v) held) b ∧
  same_funds (update_rows (source_ops rv2 APPROVED asset v) held)
             (update_row (entry_amount false true CREATED asset v) b).
Proof.
  intros Hd held. destruct (two_phase_source rv1 rv2 asset v b Hd) as (Hc & Ha & Ho).
  split; [exact Hc|]. destruct (one_phase_source asset v b Hd) as [E1 E2].
  split; [by rewrite E1|by rewrite E2].
Qed.

Definition sample_balance : @Balance Fixed.lib :=
  @mkBalance Fixed.lib "b1" "org" "ledger" "acc" "@alice" "default" "BRL"
    (fx 10000 2) (fx 500 2) 7 "deposit" true true DirectionCredit
    (fx 0 0) false false (fx 0 0) "transactional" 0 0 None ∅.

Lemma two_phase_lifecycle_witness :
  bal_Direction sample_balance ≠ DirectionDebit ∧
  same_funds
    (update_rows (source_ops true CANCELED "BRL" (fx 30 0))
       (update_rows (source_ops false PENDING "BRL" (fx 30 0)) sample_balance))
    sample_balance.
Proof.
  assert (bal_Direction sample_balance ≠ DirectionDebit) as Hd by discriminate.
  split; [exact Hd|].
  exact (proj1 (two_phase_lifecycle false true "BRL" (fx 30 0) sample_balance Hd)).
Defined.

(** With route validation on, the two single-field operations queued for a
    held or released source are together equivalent to the one legacy operation
    they replace, on every balance that is not of debit direction. *)
Theorem double_entry_equivalence `{DecimalLaws} (asset : string) (v : dec) (b : Balance) :
  bal_Direction b ≠ DirectionDebit →
  (∀ status, status = PENDING ∨ status = CANCELED →
     length (source_ops true status asset v) = 2%nat ∧
     length (source_ops false status asset v) = 1%nat ∧
     same_funds (update_rows (source_ops true status asset v) b)
                (update_rows (source_ops false status asset v) b)) ∧
  same_funds (update_rows (source_ops true APPROVED asset v) b)
             (update_rows (source_ops false APPROVED asset v) b).
Proof.
  intros Hd.
  assert (∀ status, status = PENDING ∨ status = CANCELED ∨ status = APPROVED →
    same_funds (update_rows (source_ops true status asset v) b)
               (update_rows (source_ops false status asset v) b)) as Hsame.
  { intros status Hs. pose proof (source_ops_effect true status asset v b Hd) as H1.
    pose proof (source_ops_effect false status asset v b Hd) as H2.
    destruct Hs as [->|[->| ->]]; destruct H1 as [E1 E2], H2 as [E3 E4];
      (split; [by rewrite E1, E3|by rewrite E2, E4]). }
  split; [|apply Hsame; auto].
  intros status Hs. split_and!; [..|apply Hsame; naive_solver]; by destruct Hs as [-> | ->].
Qed.

Lemma double_entry_equivalence_witness :
  same_funds (update_rows (source_ops true PENDING "BRL" (fx 30 0)) sample_balance)
             (update_rows (source_ops false PENDING "BRL" (fx 30 0)) sample_balance).
Proof.
  apply (proj1 (double_entry_equivalence "BRL" (fx 30 0) sample_balance
                  ltac:(discriminate)) PENDING (or_introl eq_refl)).
Defined.

(** [ValidateBalancesRules] accepts exactly when the number of balances is
    the number of entries and every balance addressed by a source entry has the
    transaction's asset, may send and (for a pending transaction) is not an
    external account, and every balance addressed by a destination entry has the
    asset and may receive. *)
Theorem balances_rules_accept `{DecimalLib} (tx : Transaction) (validate : Responses)
    (balances : list Balance) :
  ValidateBalancesRules tx validate balances = Ok tt ↔
  length balances = (size (resp_From validate) + size (resp_To validate))%nat ∧
  ∀ b, b ∈ balances →
    (∀ k, is_Some (resp_From validate !! k) → key_matches b k = true →
       bal_AssetCode b = resp_Asset validate ∧ bal_AllowSending b = true ∧
       (resp_Pending validate = true → bal_AccountType b ≠ ExternalAccountType)) ∧
    (∀ k, is_Some (resp_To validate !! k) → key_matches b k = true →
       bal_AssetCode b = resp_Asset validate ∧ bal_AllowReceiving b = true).
Proof.
  rewrite ValidateBalancesRules_Ok, Forall_forall.
  setoid_rewrite source_check_Ok. setoid_rewrite destination_check_Ok.
  split; intros [Hlen Hall]; (split; [exact Hlen|]); intros b Hb;
    destruct (Hall b Hb) as [Hs Hd]; split.
  - intros k Hk Hm. apply Hs. eauto.
  - intros k Hk Hm. apply Hd. eauto.
  - intros (k & Hk & Hm). eauto.
  - intros (k & Hk & Hm). eauto.
Qed.

(** The verdict on one balance does not depend on the unspecified order in
    which Go ranges over the From and To maps: every enumeration of the keys
    gives the same result, error code included. *)
Theorem balances_rules_order_independent `{DecimalLib} (b : Balance) (keys keys' : list string)
    (asset : string) (pending : bool) :
  keys ≡ₚ keys' →
  validateFromBalances_order b keys asset pending
    = validateFromBalances_order b keys' asset pending ∧
  validateToBalances_order b keys asset = validateToBalances_order b keys' asset.
Proof.
  intros Hp. rewrite !validateFromBalances_order_spec, !validateToBalances_order_spec.
  by rewrite (existsb_Permutation _ _ _ Hp).
Qed.

Lemma balances_rules_order_independent_witness :
  validateFromBalances_order sample_balance ["0#@bob#default"; "1#@alice#default"] "USD" true
  = validateFromBalances_order sample_balance ["1#@alice#default"; "0#@bob#default"] "USD" true
  ∧ validateFromBalances_order sample_balance ["0#@bob#default"; "1#@alice#default"] "USD" true
    = Err ErrAssetCodeNotFound.
Proof.
  split; [|reflexivity].
  exact (proj1 (balances_rules_order_independent sample_balance _ _ "USD" true
                  (Permutation_swap _ _ []))).
Defined.
