(* ===== verification/SendValidation.v ===== *)
(** * Resolution and balancing of a transaction (pkg/mtransaction/validations.go)

    [CalculateTotal] resolves the entries of one side (explicit amounts, shares,
    "remaining") and [ValidateSendSourceAndDistribute] requires both sides to
    total the sent value.  The loop mutates the caller's entries: an entry with
    "remaining" gets a pointer to the loop's [remaining] variable, which later
    iterations still change, so the model keeps that aliasing. *)

From Stdlib Require Import QArith Lqa.
From stdpp Require Import base gmap strings list sorting.
From S2P Require Import Prelude Decimals GoStrings Transaction BalanceOps.

Local Open Scope string_scope.
Local Open Scope list_scope.

(** ** The functions of lib-commons the code calls (not part of the repository) *)

Class LibCommons := {
  IsNilOrEmpty : string → bool;            (* commons.IsNilOrEmpty(&s) *)
  Contains : list string → string → bool;  (* commons.Contains *)
}.

Class LibCommonsLaws `{LibCommons} := {
  IsNilOrEmpty_empty : IsNilOrEmpty "" = true;
  Contains_spec l s : Contains l s = true ↔ s ∈ l;
}.

(** An instance to evaluate the definitions with. *)
Module Commons.
#[export] Instance lib : LibCommons := {|
  IsNilOrEmpty := λ s, bool_decide (s = "");
  Contains := λ l s, bool_decide (s ∈ l);
|}.
#[export] Instance laws : LibCommonsLaws.
Proof. split; [done|]. intros l s. apply bool_decide_eq_true. Defined.
End Commons.

Section Definitions.
Context {D : DecimalLib} {C : LibCommons}.
Local Open Scope dec_scope.

(** [fromTos[i].Amount] after the loop body: the caller's pointer, or the
    address of the loop variable [remaining]. *)
Inductive AmountPtr := OwnAmount (a : option Amount) | AddrRemaining.

Record calc_state := mkCalc {
  cs_fmto : gmap string Amount;
  cs_scdt : list string;
  cs_total : dec;
  cs_remaining : Amount;
  cs_operationRoute : gmap string string;
  cs_fromTos : list (FromTo * AmountPtr);
}.

Definition share_active (ft : FromTo) : bool :=
  match ft_Share ft with
  | Some s => negb (shr_Percentage s =? 0)%Z
  | None => false
  end.
Definition amount_active (ft : FromTo) : bool :=
  match ft_Amount ft with
  | Some a => dis_positive (amt_Value a)
  | None => false
  end.
Definition remaining_active (ft : FromTo) : bool := negb (IsNilOrEmpty (ft_Remaining ft)).

(** [transaction.Send.Value.Mul(percentage/100).Mul(percentageOfPercentage/100)] *)
Definition share_value (sendValue : dec) (s : Share) : dec :=
  let oneHundred := dnew 100 in
  let percentage := dnew (shr_Percentage s) in
  let pop := dnew (shr_PercentageOfPercentage s) in
  let pop := if dis_zero pop then oneHundred else pop in
  let firstPart := percentage / oneHundred in
  let secondPart := pop / oneHundred in
  sendValue * firstPart * secondPart.

Definition set_amt_Value (v : dec) (a : Amount) : Amount :=
  mkAmount (amt_Asset a) v (amt_Operation a) (amt_TransactionType a) (amt_Direction a)
    (amt_RouteValidationEnabled a) (amt_OverdraftAmount a).

Definition calc_share (tx : Transaction) (tt : TxStatus) (op : OpType) (dir : Direction)
    (ft : FromTo) (st : calc_state) : calc_state :=
  match ft_Share ft with
  | Some s =>
      if negb (shr_Percentage s =? 0)%Z then
        let shareValue := share_value (send_Value (tx_Send tx)) s in
        mkCalc
          (<[ft_AccountAlias ft :=
              mkAmount (send_Asset (tx_Send tx)) shareValue op tt dir false dzero]> (cs_fmto st))
          (cs_scdt st) (cs_total st + shareValue)
          (set_amt_Value (amt_Value (cs_remaining st) - shareValue) (cs_remaining st))
          (cs_operationRoute st) (cs_fromTos st)
      else st
  | None => st
  end.

Definition calc_amount (tt : TxStatus) (op : OpType) (dir : Direction)
    (ft : FromTo) (st : calc_state) : calc_state :=
  match ft_Amount ft with
  | Some a =>
      if dis_positive (amt_Value a) then
        let amount := mkAmount (amt_Asset a) (amt_Value a) op tt dir false dzero in
        mkCalc (<[ft_AccountAlias ft := amount]> (cs_fmto st)) (cs_scdt st)
          (cs_total st + amt_Value amount)
          (set_amt_Value (amt_Value (cs_remaining st) - amt_Value amount) (cs_remaining st))
          (cs_operationRoute st) (cs_fromTos st)
      else st
  | None => st
  end.

Definition calc_remaining (op : OpType) (dir : Direction)
    (ft : FromTo) (st : calc_state) : calc_state :=
  if negb (IsNilOrEmpty (ft_Remaining ft)) then
    let total := cs_total st + amt_Value (cs_remaining st) in
    let remaining := set_op_dir op dir (cs_remaining st) in
    mkCalc (<[ft_AccountAlias ft := remaining]> (cs_fmto st)) (cs_scdt st) total remaining
      (cs_operationRoute st) (cs_fromTos st ++ [(ft, AddrRemaining)])
  else
    mkCalc (cs_fmto st) (cs_scdt st) (cs_total st) (cs_remaining st) (cs_operationRoute st)
      (cs_fromTos st ++ [(ft, OwnAmount (ft_Amount ft))]).

(** One iteration of the loop of [CalculateTotal]. *)
Definition calc_step (tx : Transaction) (tt : TxStatus) (st : calc_state) (ft : FromTo)
  : calc_state :=
  let routes := match ft_RouteID ft with
                | Some r => <[ft_AccountAlias ft := r]> (cs_operationRoute st)
                | None => cs_operationRoute st
                end in
  let st := mkCalc (cs_fmto st) (cs_scdt st) (cs_total st) (cs_remaining st) routes
              (cs_fromTos st) in
  let '(operation, direction) := DetermineOperation (tx_Pending tx) (ft_IsFrom ft) tt in
  let st := calc_share tx tt operation direction ft st in
  let st := calc_amount tt operation direction ft st in
  let st := calc_remaining operation direction ft st in
  mkCalc (cs_fmto st) (cs_scdt st ++ [AliasKey (FromTo_SplitAlias ft) (ft_BalanceKey ft)])
    (cs_total st) (cs_remaining st) (cs_operationRoute st) (cs_fromTos st).

Definition calc_init (tx : Transaction) (tt : TxStatus) : calc_state :=
  mkCalc ∅ [] (dnew 0)
    (mkAmount (send_Asset (tx_Send tx)) (send_Value (tx_Send tx)) (OpOther "") tt
       DirectionEmpty false dzero) ∅ [].

(** The caller's entry after the loop: pointers to [remaining] see its last value. *)
Definition deref (remaining : Amount) (e : FromTo * AmountPtr) : FromTo :=
  match e with
  | (ft, OwnAmount a) => set_ft_Amount a ft
  | (ft, AddrRemaining) => set_ft_Amount (Some remaining) ft
  end.

Definition calc_loop (fromTos : list FromTo) (tx : Transaction) (tt : TxStatus) : calc_state :=
  fold_left (calc_step tx tt) fromTos (calc_init tx tt).

(** The four channel values and the caller's mutated entries. *)
Definition CalculateTotal (fromTos : list FromTo) (tx : Transaction) (tt : TxStatus)
  : dec * gmap string Amount * list string * gmap string string * list FromTo :=
  let st := calc_loop fromTos tx tt in
  (cs_total st, cs_fmto st, cs_scdt st, cs_operationRoute st,
   map (deref (cs_remaining st)) (cs_fromTos st)).

Definition AppendIfNotExist (slice s : list string) : list string :=
  fold_left (λ slice v, if negb (Contains slice v) then slice ++ [v] else slice) s slice.

(** [for i, a := range aliases { if _, ok := m[ConcatAlias(i, a)]; ok { ... } }] *)
Definition ambiguous (aliases : list string) (m : gmap string Amount) : bool :=
  existsb (λ x, x)
    (imap (λ i a, match m !! ConcatAlias i a with Some _ => true | None => false end) aliases).

Definition ValidateSendSourceAndDistribute (tx : Transaction) (tt : TxStatus)
  : result GoError (Responses * list FromTo * list FromTo) :=
  let send := tx_Send tx in
  let '(sourcesTotal, from, sources, routesFrom, fromEntries) :=
    CalculateTotal (src_From (send_Source send)) tx tt in
  let aliases := AppendIfNotExist [] sources in
  let '(destinationsTotal, to, destinations, routesTo, toEntries) :=
    CalculateTotal (dst_To (send_Distribute send)) tx tt in
  let aliases := AppendIfNotExist aliases destinations in
  let response :=
    mkResponses (send_Value send) (send_Asset send) from to sources destinations aliases
      (tx_Pending tx) (tx_Route tx) (tx_RouteID tx) routesFrom routesTo in
  if ambiguous sources to then Err ErrTransactionAmbiguous
  else if ambiguous destinations from then Err ErrTransactionAmbiguous
  else if negb (dequal sourcesTotal destinationsTotal)
       || negb (dequal destinationsTotal (resp_Total response))
  then Err ErrTransactionValueMismatch
  else Ok (response, fromEntries, toEntries).

(** [CheckTransactionDate], with [time.Now()] as an argument. *)
Definition CheckTransactionDate (now : Time) (tx : Transaction) (status : TxStatus)
  : result GoError Time :=
  match tx_TransactionDate tx with
  | None => Ok now
  | Some d =>
      if (d =? 0)%Z then Ok now
      else if (now <? d)%Z then Err ErrInvalidFutureTransactionDate
      else if bool_decide (status = PENDING) then Err ErrInvalidPendingFutureTransactionDate
      else Ok d
  end.
End Definitions.

(** ** Semantics of the resolution loop in the rationals *)

Section Semantics.
Context {D : DecimalLib} {DL : DecimalLaws} {C : LibCommons} {CL : LibCommonsLaws}.
Local Open Scope Q_scope.
Implicit Types (ft : FromTo) (tx : Transaction) (st : calc_state).

(** The percentage an entry without percentage-of-percentage stands for. *)
Definition pop_of (s : Share) : Z :=
  if (shr_PercentageOfPercentage s =? 0)%Z then 100 else shr_PercentageOfPercentage s.

Lemma div_by_hundred n : dval (dnew n / dnew 100)%dec == inject_Z n / 100.
Proof.
  assert (dval (dnew n) / dval (dnew 100) == inject_Z n / 100) as E
    by (by rewrite !dval_new).
  rewrite <- E. apply (dval_div_exact _ _ (n * 100000000000000)).
  - rewrite dval_new. done.
  - rewrite E, inject_Z_mult. unfold ulp. field.
Qed.

Lemma share_value_exact v s :
  dval (share_value v s)
  == dval v * (inject_Z (shr_Percentage s) / 100) * (inject_Z (pop_of s) / 100).
Proof.
  unfold share_value, pop_of. rewrite !dval_mul, div_by_hundred.
  destruct (dis_zero (dnew (shr_PercentageOfPercentage s))) eqn:E, (Z.eqb_spec (shr_PercentageOfPercentage s) 0) as [E0|E0];
    rewrite ?div_by_hundred; try reflexivity.
  - dec_norm. exfalso. apply E0. revert E. unfold Qeq. simpl. lia.
  - dec_norm. exfalso. apply E. by rewrite E0.
Qed.

(** What an entry takes explicitly, by share and by amount. *)
Definition explicit_q (V : Q) ft : Q :=
  match ft_Share ft with
  | Some s => if share_active ft
              then V * (inject_Z (shr_Percentage s) / 100) * (inject_Z (pop_of s) / 100)
              else 0
  | None => 0
  end +
  match ft_Amount ft with
  | Some a => if amount_active ft then dval (amt_Value a) else 0
  | None => 0
  end.

Fixpoint explicit_sum (V : Q) (l : list FromTo) : Q :=
  match l with
  | [] => 0
  | ft :: l => explicit_q V ft + explicit_sum V l
  end.

(** The entry's contribution to the total, given what is left before it. *)
Definition contribution (V rem : Q) ft : Q :=
  explicit_q V ft + (if remaining_active ft then rem - explicit_q V ft else 0).

Fixpoint total_spec (V rem : Q) (l : list FromTo) : Q :=
  match l with
  | [] => 0
  | ft :: l => contribution V rem ft + total_spec V (rem - explicit_q V ft) l
  end.

Lemma calc_share_vals tx tt op dir ft st :
  let st' := calc_share tx tt op dir ft st in
  let V := dval (send_Value (tx_Send tx)) in
  let e := match ft_Share ft with
           | Some s => if share_active ft
                       then V * (inject_Z (shr_Percentage s) / 100) * (inject_Z (pop_of s) / 100)
                       else 0
           | None => 0 end in
  dval (cs_total st') == dval (cs_total st) + e ∧
  dval (amt_Value (cs_remaining st')) == dval (amt_Value (cs_remaining st)) - e.
Proof.
  unfold calc_share, share_active. destruct (ft_Share ft) as [s|]; simpl; [|split; lra].
  destruct (shr_Percentage s =? 0)%Z; simpl; [split; lra|].
  by rewrite dval_add, dval_sub, share_value_exact.
Qed.

Lemma calc_amount_vals tt op dir ft st :
  let st' := calc_amount tt op dir ft st in
  let e := match ft_Amount ft with
           | Some a => if amount_active ft then dval (amt_Value a) else 0
           | None => 0 end in
  dval (cs_total st') == dval (cs_total st) + e ∧
  dval (amt_Value (cs_remaining st')) == dval (amt_Value (cs_remaining st)) - e.
Proof.
  unfold calc_amount, amount_active. destruct (ft_Amount ft) as [a|]; simpl; [|split; lra].
  destruct (dis_positive _); simpl; [|split; lra]. by rewrite dval_add, dval_sub.
Qed.

Lemma calc_remaining_vals op dir ft st :
  let st' := calc_remaining op dir ft st in
  dval (cs_total st') == dval (cs_total st) +
    (if remaining_active ft then dval (amt_Value (cs_remaining st)) else 0) ∧
  dval (amt_Value (cs_remaining st')) == dval (amt_Value (cs_remaining st)).
Proof.
  unfold calc_remaining, remaining_active. destruct (IsNilOrEmpty _); simpl.
  - split; lra.
  - rewrite dval_add. split; lra.
Qed.

Lemma calc_step_vals tx tt st ft :
  let V := dval (send_Value (tx_Send tx)) in
  let rem := dval (amt_Value (cs_remaining st)) in
  dval (cs_total (calc_step tx tt st ft)) == dval (cs_total st) + contribution V rem ft ∧
  dval (amt_Value (cs_remaining (calc_step tx tt st ft))) == rem - explicit_q V ft.
Proof.
  unfold calc_step, contribution, explicit_q.
  destruct (DetermineOperation _ _ _) as [op dir]. simpl.
  match goal with |- context [calc_share _ _ _ _ _ ?s] => set (st0 := s) end.
  destruct (calc_share_vals tx tt op dir ft st0) as [T1 R1].
  destruct (calc_amount_vals tt op dir ft (calc_share tx tt op dir ft st0)) as [T2 R2].
  destruct (calc_remaining_vals op dir ft
    (calc_amount tt op dir ft (calc_share tx tt op dir ft st0))) as [T3 R3].
  simpl in T1, R1.
  destruct (remaining_active ft); split; rewrite ?T3, ?R3, ?T2, ?R2, ?T1, ?R1; lra.
Qed.

Lemma explicit_q_proper V V' ft : V == V' → explicit_q V ft == explicit_q V' ft.
Proof.
  intros E. unfold explicit_q.
  destruct (ft_Share ft), (share_active ft); rewrite ?E; reflexivity.
Qed.

Lemma contribution_proper V rem rem' ft :
  rem == rem' → contribution V rem ft == contribution V rem' ft.
Proof. intros E. unfold contribution. destruct (remaining_active ft); lra. Qed.

Lemma total_spec_proper V rem rem' l : rem == rem' → total_spec V rem l == total_spec V rem' l.
Proof.
  revert rem rem'; induction l as [|ft l IH]; intros rem rem' E; simpl; [reflexivity|].
  rewrite (contribution_proper V rem rem'), (IH _ (rem' - explicit_q V ft)) by lra.
  reflexivity.
Qed.

Lemma calc_fold_vals tx tt l st :
  let V := dval (send_Value (tx_Send tx)) in
  let rem := dval (amt_Value (cs_remaining st)) in
  let st' := fold_left (calc_step tx tt) l st in
  dval (cs_total st') == dval (cs_total st) + total_spec V rem l ∧
  dval (amt_Value (cs_remaining st')) == rem - explicit_sum V l.
Proof.
  revert st; induction l as [|ft l IH]; intros st; simpl; [split; lra|].
  destruct (calc_step_vals tx tt st ft) as [T R].
  destruct (IH (calc_step tx tt st ft)) as [T' R'].
  rewrite (total_spec_proper _ _ _ _ R), T in T'. rewrite R in R'.
  split; [rewrite T'|rewrite R']; lra.
Qed.

(** The total of one side is the specified one. *)
Lemma CalculateTotal_total l tx tt :
  dval (cs_total (calc_loop l tx tt))
  == total_spec (dval (send_Value (tx_Send tx))) (dval (send_Value (tx_Send tx))) l.
Proof.
  unfold calc_loop. destruct (calc_fold_vals tx tt l (calc_init tx tt)) as [T _].
  rewrite T. simpl. rewrite dval_new. apply Qplus_0_l.
Qed.

Lemma total_spec_app V rem l1 l2 :
  total_spec V rem (l1 ++ l2)
  == total_spec V rem l1 + total_spec V (rem - explicit_sum V l1) l2.
Proof.
  revert rem; induction l1 as [|ft l1 IH]; intros rem; simpl.
  - rewrite (total_spec_proper V (rem - 0) rem) by lra. lra.
  - rewrite IH. rewrite (total_spec_proper V (rem - (explicit_q V ft + explicit_sum V l1))
      (rem - explicit_q V ft - explicit_sum V l1)) by lra. lra.
Qed.

(** No "remaining" entry: the total is the sum of what the entries state. *)
Lemma total_spec_explicit V rem l :
  Forall (λ ft, remaining_active ft = false) l → total_spec V rem l == explicit_sum V l.
Proof.
  intros Hl. revert rem; induction Hl as [|ft l Hft _ IH]; intros rem; simpl; [reflexivity|].
  unfold contribution. rewrite Hft, IH. lra.
Qed.

(** Exactly one "remaining" entry: only the entries after it unbalance the side. *)
Lemma total_spec_one_remaining V l1 ft l2 :
  Forall (λ ft, remaining_active ft = false) l1 → remaining_active ft = true →
  Forall (λ ft, remaining_active ft = false) l2 →
  total_spec V V (l1 ++ ft :: l2) == V + explicit_sum V l2.
Proof.
  intros Hl1 Hft Hl2. rewrite total_spec_app. simpl.
  rewrite total_spec_explicit, (total_spec_explicit _ _ l2) by done.
  unfold contribution. rewrite Hft. lra.
Qed.
End Semantics.

(** ** Sums over the amount maps *)

Section MapSums.
Context {D : DecimalLib} {DL : DecimalLaws}.
Local Open Scope Q_scope.

(** Sum of the values of [map[string]Amount]. *)
Definition msum (m : gmap string Amount) : Q :=
  map_fold (λ _ a acc, dval (amt_Value a) + acc) 0 m.

Lemma msum_empty : msum ∅ = 0.
Proof. apply map_fold_empty. Qed.

Lemma msum_insert k a m :
  m !! k = None → msum (<[k:=a]> m) == dval (amt_Value a) + msum m.
Proof.
  intros Hk. unfold msum.
  apply (map_fold_insert Qeq (λ _ a acc, dval (amt_Value a) + acc) 0 k a m); [|..|done].
  - intros ?????. lra.
  - intros. lra.
Qed.

Lemma msum_delete k a m :
  m !! k = Some a → msum m == dval (amt_Value a) + msum (delete k m).
Proof.
  intros Hk. rewrite <- (insert_delete_id m k a Hk) at 1.
  apply msum_insert, lookup_delete_eq.
Qed.

Lemma msum_insert_overwrite k a a' m :
  m !! k = Some a' → msum (<[k:=a]> m) == msum m + dval (amt_Value a) - dval (amt_Value a').
Proof.
  intros Hk. rewrite (msum_delete k a' m Hk), <- insert_delete_eq.
  rewrite msum_insert by apply lookup_delete_eq. lra.
Qed.
End MapSums.

Section Conservation.
Context {D : DecimalLib} {DL : DecimalLaws} {C : LibCommons} {CL : LibCommonsLaws}.
Local Open Scope Q_scope.
Implicit Types (ft : FromTo) (tx : Transaction) (st : calc_state).

(** An entry states its value in one way only, the rule of the payload
    validator [singletransactiontype]. *)
Definition single_type ft : Prop :=
  match share_active ft, amount_active ft, remaining_active ft with
  | true, false, false | false, true, false | false, false, true => True
  | _, _, _ => False
  end.

Lemma calc_share_inactive tx tt op dir ft st :
  share_active ft = false → calc_share tx tt op dir ft st = st.
Proof.
  unfold share_active, calc_share. destruct (ft_Share ft) as [s|]; [|done].
  by destruct (shr_Percentage s =? 0)%Z.
Qed.

Lemma calc_amount_inactive tt op dir ft st :
  amount_active ft = false → calc_amount tt op dir ft st = st.
Proof.
  unfold amount_active, calc_amount. destruct (ft_Amount ft) as [a|]; [|done].
  by destruct (dis_positive (amt_Value a)).
Qed.

Lemma calc_remaining_inactive op dir ft st :
  remaining_active ft = false →
  calc_remaining op dir ft st
  = mkCalc (cs_fmto st) (cs_scdt st) (cs_total st) (cs_remaining st) (cs_operationRoute st)
      (cs_fromTos st ++ [(ft, OwnAmount (ft_Amount ft))]).
Proof. unfold remaining_active, calc_remaining. by destruct (IsNilOrEmpty _). Qed.

Lemma calc_step_scdt tx tt st ft :
  cs_scdt (calc_step tx tt st ft)
  = cs_scdt st ++ [AliasKey (FromTo_SplitAlias ft) (ft_BalanceKey ft)].
Proof.
  unfold calc_step. destruct (DetermineOperation _ _ _) as [op dir]. simpl. f_equal.
  transitivity (cs_scdt (calc_amount tt op dir ft (calc_share tx tt op dir ft
    (mkCalc (cs_fmto st) (cs_scdt st) (cs_total st) (cs_remaining st)
      match ft_RouteID ft with
      | Some r => <[ft_AccountAlias ft := r]> (cs_operationRoute st)
      | None => cs_operationRoute st
      end (cs_fromTos st))))).
  { unfold calc_remaining. by destruct (IsNilOrEmpty _). }
  unfold calc_amount. destruct (ft_Amount ft) as [a|]; [destruct (dis_positive _)|]; simpl;
    unfold calc_share; (destruct (ft_Share ft) as [s|]; [by destruct (_ =? 0)%Z|done]).
Qed.

Lemma calc_step_fmto tx tt st ft :
  single_type ft →
  ∃ a, cs_fmto (calc_step tx tt st ft) = <[ft_AccountAlias ft := a]> (cs_fmto st) ∧
    dval (amt_Value a)
    == contribution (dval (send_Value (tx_Send tx))) (dval (amt_Value (cs_remaining st))) ft ∧
    (amt_Operation a, amt_Direction a) = DetermineOperation (tx_Pending tx) (ft_IsFrom ft) tt.
Proof.
  unfold single_type, calc_step, contribution, explicit_q.
  destruct (DetermineOperation _ _ _) as [op dir] eqn:Ed. cbv zeta beta iota.
  match goal with |- context [calc_share _ _ _ _ _ ?s] => set (st0 := s) end.
  destruct (share_active ft) eqn:Es, (amount_active ft) eqn:Ea, (remaining_active ft) eqn:Er;
    intros Hs; try done.
  - rewrite calc_amount_inactive, calc_remaining_inactive by done.
    destruct (ft_Share ft) as [s|] eqn:Eft; [|by unfold share_active in Es; rewrite Eft in Es].
    unfold calc_share, share_active in *. rewrite Eft in *. rewrite Es. simpl.
    eexists; split_and!; [reflexivity| |reflexivity].
    simpl. rewrite share_value_exact. destruct (ft_Amount ft); lra.
  - rewrite calc_share_inactive, calc_remaining_inactive by done.
    destruct (ft_Amount ft) as [am|] eqn:Eft; [|by unfold amount_active in Ea; rewrite Eft in Ea].
    unfold calc_amount, amount_active in *. rewrite Eft in *. rewrite Ea. simpl.
    eexists; split_and!; [reflexivity| |reflexivity].
    simpl. destruct (ft_Share ft); lra.
  - rewrite calc_share_inactive, calc_amount_inactive by done.
    unfold calc_remaining, remaining_active in *. rewrite Er. simpl.
    eexists; split_and!; [reflexivity| |reflexivity].
    simpl. destruct (ft_Share ft), (ft_Amount ft); lra.
Qed.

Lemma calc_amount_fromTos tt op dir ft st :
  cs_fromTos (calc_amount tt op dir ft st) = cs_fromTos st.
Proof. unfold calc_amount. destruct (ft_Amount ft); [by destruct (dis_positive _)|done]. Qed.

Lemma calc_share_fromTos tx tt op dir ft st :
  cs_fromTos (calc_share tx tt op dir ft st) = cs_fromTos st.
Proof. unfold calc_share. destruct (ft_Share ft); [by destruct (_ =? 0)%Z|done]. Qed.

Lemma calc_step_length tx tt st ft :
  length (cs_fromTos (calc_step tx tt st ft)) = S (length (cs_fromTos st)).
Proof.
  unfold calc_step. destruct (DetermineOperation _ _ _) as [op dir]. simpl.
  match goal with |- context [calc_share _ _ _ _ _ ?s] => set (st0 := s) end.
  assert (∀ s, length (cs_fromTos (calc_remaining op dir ft s)) = S (length (cs_fromTos s))) as ->.
  { intros s. unfold calc_remaining.
    destruct (IsNilOrEmpty _); simpl; rewrite length_app; simpl; lia. }
  by rewrite calc_amount_fromTos, calc_share_fromTos.
Qed.

Lemma calc_fold_msum tx tt l st :
  Forall single_type l → NoDup (ft_AccountAlias <$> l) →
  (∀ ft, ft ∈ l → cs_fmto st !! ft_AccountAlias ft = None) →
  msum (cs_fmto st) == dval (cs_total st) →
  msum (cs_fmto (fold_left (calc_step tx tt) l st))
  == dval (cs_total (fold_left (calc_step tx tt) l st)).
Proof.
  revert st; induction l as [|ft l IH]; intros st Hs Hn Hfresh Hsum; simpl; [done|].
  apply Forall_cons in Hs as [Hft Hs]. apply NoDup_cons in Hn as [Hnot Hn].
  destruct (calc_step_fmto tx tt st ft Hft) as (a & Em & Ea & _).
  apply IH; [done|done|..].
  - intros ft' Hin. rewrite Em, lookup_insert_ne.
    + apply Hfresh. by apply elem_of_cons; right.
    + intros E. apply Hnot. rewrite E. by apply list_elem_of_fmap_2.
  - rewrite Em, msum_insert by (apply Hfresh, elem_of_cons; by left).
    rewrite (proj1 (calc_step_vals tx tt st ft)), Ea, Hsum. lra.
Qed.

(** The amounts recorded for one side add up to its total. *)
Lemma CalculateTotal_msum l tx tt :
  Forall single_type l → NoDup (ft_AccountAlias <$> l) →
  msum (cs_fmto (calc_loop l tx tt)) == dval (cs_total (calc_loop l tx tt)).
Proof.
  intros Hs Hn. apply calc_fold_msum; [done|done|..].
  - intros ft _. apply lookup_empty.
  - simpl. rewrite msum_empty, dval_new. reflexivity.
Qed.

Lemma calc_fold_scdt tx tt l st :
  cs_scdt (fold_left (calc_step tx tt) l st)
  = cs_scdt st ++ ((λ ft, AliasKey (FromTo_SplitAlias ft) (ft_BalanceKey ft)) <$> l).
Proof.
  revert st; induction l as [|ft l IH]; intros st; simpl; [by rewrite app_nil_r|].
  by rewrite IH, calc_step_scdt, <- app_assoc.
Qed.

Lemma calc_loop_scdt l tx tt :
  cs_scdt (calc_loop l tx tt)
  = (λ ft, AliasKey (FromTo_SplitAlias ft) (ft_BalanceKey ft)) <$> l.
Proof. unfold calc_loop. by rewrite calc_fold_scdt. Qed.

Lemma calc_fold_dom tx tt l st k :
  Forall single_type l →
  is_Some (cs_fmto (fold_left (calc_step tx tt) l st) !! k) ↔
  is_Some (cs_fmto st !! k) ∨ k ∈ ft_AccountAlias <$> l.
Proof.
  intros Hs. revert st; induction Hs as [|ft l Hft _ IH]; intros st; simpl.
  - rewrite elem_of_nil. tauto.
  - rewrite IH. destruct (calc_step_fmto tx tt st ft Hft) as (a & -> & _).
    rewrite lookup_insert_is_Some, elem_of_cons.
    destruct (decide (ft_AccountAlias ft = k)) as [->|]; naive_solver.
Qed.

Lemma calc_loop_dom l tx tt k :
  Forall single_type l →
  is_Some (cs_fmto (calc_loop l tx tt) !! k) ↔ k ∈ ft_AccountAlias <$> l.
Proof.
  intros Hs. unfold calc_loop. rewrite calc_fold_dom by done. simpl.
  rewrite lookup_empty. split; [intros [[? [=]]|]; done|by right].
Qed.

Lemma AppendIfNotExist_spec slice s :
  NoDup slice →
  NoDup (AppendIfNotExist slice s) ∧ ∀ x, x ∈ AppendIfNotExist slice s ↔ x ∈ slice ∨ x ∈ s.
Proof.
  unfold AppendIfNotExist. revert slice; induction s as [|v s IH]; intros slice Hn; simpl.
  - split; [done|]. intros x. rewrite elem_of_nil. tauto.
  - destruct (Contains slice v) eqn:E; simpl.
    + apply Contains_spec in E. destruct (IH slice Hn) as [? Hx]. split; [done|].
      intros x. rewrite Hx, elem_of_cons. naive_solver.
    + assert (v ∉ slice) as Hv by (rewrite <- Contains_spec; by rewrite E).
      destruct (IH (slice ++ [v])) as [? Hx].
      { apply NoDup_app; split_and!; [done| |apply NoDup_singleton].
        intros x Hx. by intros ->%list_elem_of_singleton. }
      split; [done|]. intros x.
      rewrite Hx, elem_of_app, list_elem_of_singleton, elem_of_cons. tauto.
Qed.

Lemma ambiguous_spec aliases m :
  ambiguous aliases m = true ↔
  ∃ i a, aliases !! i = Some a ∧ is_Some (m !! ConcatAlias i a).
Proof.
  unfold ambiguous. rewrite existsb_exists. split.
  - intros (b & Hb & ->). apply list_elem_of_In, list_elem_of_lookup in Hb as [i Hi].
    rewrite list_lookup_imap in Hi. destruct (aliases !! i) as [a|] eqn:Ea; [|done].
    simpl in Hi. exists i, a. split; [done|]. by destruct (m !! ConcatAlias i a).
  - intros (i & a & Ea & [x Hx]). exists true. split; [|done].
    apply list_elem_of_In, list_elem_of_lookup. exists i.
    rewrite list_lookup_imap, Ea. simpl. by rewrite Hx.
Qed.
End Conservation.

(** ** The create handler's validation seam

    [executeCreateTransaction] (adapters/http/in/transaction_create.go) validates
    the raw entries, lets the fee engine rewrite them, normalises the entries and
    validates again.  Both validations work on the same slices, so the second one
    sees the entries as the first one left them unless the fee engine replaced
    them.  The fee engine is an argument: [applyFees] of the handler. *)
Section CreateSeam.
Context {D : DecimalLib} {C : LibCommons}.

Definition set_entries (from to : list FromTo) (tx : Transaction) : Transaction :=
  let s := tx_Send tx in
  mkTransaction (tx_ChartOfAccountsGroupName tx) (tx_Description tx) (tx_Code tx)
    (tx_Pending tx) (tx_Metadata tx) (tx_Route tx) (tx_RouteID tx) (tx_TransactionDate tx)
    (mkSend (send_Asset s) (send_Value s) (mkSource (src_Remaining (send_Source s)) from)
       (mkDistribute (dst_Remaining (send_Distribute s)) to))
    (tx_Skip tx) (tx_OperationTypeOverride tx).

(** IsFrom on the sources, default balance keys, concat aliases. *)
Definition normalize_send (tx : Transaction) : Transaction :=
  let from := map (set_ft_IsFrom true) (src_From (send_Source (tx_Send tx))) in
  let to := dst_To (send_Distribute (tx_Send tx)) in
  set_entries (MutateConcatAliases (ApplyDefaultBalanceKeys from))
    (MutateConcatAliases (ApplyDefaultBalanceKeys to)) tx.

Definition create_validate (applyFees : Transaction → result GoError Transaction)
    (tx : Transaction) (status : TxStatus) : result GoError Responses :=
  let tx := set_entries (ApplyDefaultBalanceKeys (src_From (send_Source (tx_Send tx))))
              (ApplyDefaultBalanceKeys (dst_To (send_Distribute (tx_Send tx)))) tx in
  let! r := ValidateSendSourceAndDistribute tx status in
  let '(_, from, to) := r in
  let! tx := applyFees (set_entries from to tx) in
  let! r' := ValidateSendSourceAndDistribute (normalize_send tx) status in
  let '(response, _, _) := r' in
  Ok response.
End CreateSeam.

(** ** Properties *)

Section Properties.
Context {D : DecimalLib} {DL : DecimalLaws} {C : LibCommons} {CL : LibCommonsLaws}.
Local Open Scope Q_scope.

Definition sources_of (tx : Transaction) := src_From (send_Source (tx_Send tx)).
Definition destinations_of (tx : Transaction) := dst_To (send_Distribute (tx_Send tx)).

Lemma ValidateSend_Ok tx tt r from' to' :
  ValidateSendSourceAndDistribute tx tt = Ok (r, from', to') ↔
  let V := dval (send_Value (tx_Send tx)) in
  let S := calc_loop (sources_of tx) tx tt in
  let T := calc_loop (destinations_of tx) tx tt in
  ambiguous (cs_scdt S) (cs_fmto T) = false ∧ ambiguous (cs_scdt T) (cs_fmto S) = false ∧
  total_spec V V (sources_of tx) == V ∧ total_spec V V (destinations_of tx) == V ∧
  r = mkResponses (send_Value (tx_Send tx)) (send_Asset (tx_Send tx)) (cs_fmto S) (cs_fmto T)
        (cs_scdt S) (cs_scdt T)
        (AppendIfNotExist (AppendIfNotExist [] (cs_scdt S)) (cs_scdt T))
        (tx_Pending tx) (tx_Route tx) (tx_RouteID tx)
        (cs_operationRoute S) (cs_operationRoute T) ∧
  from' = map (deref (cs_remaining S)) (cs_fromTos S) ∧
  to' = map (deref (cs_remaining T)) (cs_fromTos T).
Proof.
  cbv zeta. rewrite <- !(CalculateTotal_total _ tx tt).
  unfold ValidateSendSourceAndDistribute, CalculateTotal, sources_of, destinations_of.
  simpl.
  set (S := calc_loop (src_From (send_Source (tx_Send tx))) tx tt).
  set (T := calc_loop (dst_To (send_Distribute (tx_Send tx))) tx tt).
  destruct (ambiguous (cs_scdt S) (cs_fmto T)); [naive_solver|].
  destruct (ambiguous (cs_scdt T) (cs_fmto S)); [naive_solver|].
  destruct (dequal (cs_total S) (cs_total T)) eqn:E1; simpl;
    [destruct (dequal (cs_total T) (send_Value (tx_Send tx))) eqn:E2; simpl|].
  - dec_facts. assert (dval (cs_total S) == dval (send_Value (tx_Send tx))) as E3
      by (by rewrite E1). naive_solver.
  - dec_facts. naive_solver.
  - dec_facts. split; [done|]. intros (_ & _ & E3 & E4 & _). exfalso. apply E1. lra.
Qed.
End Properties.

Section Ambiguity.
Context {D : DecimalLib} {DL : DecimalLaws} {C : LibCommons} {CL : LibCommonsLaws}.

Definition entry_key (ft : FromTo) : string := AliasKey (ft_AccountAlias ft) (ft_BalanceKey ft).

Lemma single_type_alias a ft : single_type (set_ft_AccountAlias a ft) ↔ single_type ft.
Proof. reflexivity. Qed.

Lemma MutateConcat_single_type es :
  Forall single_type es → Forall single_type (MutateConcatAliases es).
Proof.
  intros Hs. apply Forall_lookup. intros i e. rewrite lookup_MutateConcat.
  destruct (es !! i) as [e0|] eqn:E; simpl; [|done]. intros [= <-].
  destruct (negb _); rewrite ?single_type_alias; eapply Forall_lookup; eauto.
Qed.

Lemma concat_scdt es tx tt i :
  Forall plain_alias es →
  cs_scdt (calc_loop (MutateConcatAliases es) tx tt) !! i = entry_key <$> es !! i.
Proof.
  intros Hp. rewrite calc_loop_scdt, list_lookup_fmap, lookup_MutateConcat.
  destruct (es !! i) as [e|] eqn:E; simpl; [|done]. f_equal.
  assert (plain_alias e) as He by (eapply Forall_lookup; eauto).
  rewrite concat_entry_plain by done. unfold FromTo_SplitAlias, entry_key. simpl.
  by rewrite FromTo_ConcatAlias_eq, (AliasKey_eq (ft_AccountAlias e)), SplitAlias_concat.
Qed.

Lemma concat_fmto es tx tt i k :
  Forall plain_alias es → Forall single_type es →
  is_Some (cs_fmto (calc_loop (MutateConcatAliases es) tx tt) !! ConcatAlias i k) ↔
  ∃ e, es !! i = Some e ∧ entry_key e = k.
Proof.
  intros Hp Hs. rewrite calc_loop_dom by (by apply MutateConcat_single_type).
  rewrite list_elem_of_lookup. split.
  - intros [j Hj]. rewrite list_lookup_fmap, lookup_MutateConcat in Hj.
    destruct (es !! j) as [e|] eqn:E; [|done]. simpl in Hj. injection Hj as Hj.
    rewrite concat_entry_plain in Hj by (eapply Forall_lookup; eauto).
    simpl in Hj. rewrite FromTo_ConcatAlias_eq in Hj. unfold ConcatAlias in Hj.
    apply app_char_inj in Hj as [Hi Hk]; [|apply Itoa_no_char, hash_not_digit..].
    apply Itoa_inj in Hi as ->. eauto.
  - intros (e & E & <-). exists i. rewrite list_lookup_fmap, lookup_MutateConcat, E. simpl.
    by rewrite concat_entry_plain by (eapply Forall_lookup; eauto).
Qed.

Lemma ambiguous_concat es ds tx tt :
  Forall plain_alias es → Forall plain_alias ds → Forall single_type ds →
  ambiguous (cs_scdt (calc_loop (MutateConcatAliases es) tx tt))
            (cs_fmto (calc_loop (MutateConcatAliases ds) tx tt)) = true ↔
  ∃ i e d, es !! i = Some e ∧ ds !! i = Some d ∧ entry_key e = entry_key d.
Proof.
  intros Hpe Hpd Hsd. rewrite ambiguous_spec. split.
  - intros (i & a & Hi & Hm). rewrite concat_scdt in Hi by done.
    apply concat_fmto in Hm as (d & Hd & Hk); [|done..].
    destruct (es !! i) as [e|] eqn:E; [|done]. simpl in Hi. injection Hi as Hi.
    exists i, e, d. split_and!; [done..|]. by rewrite Hk.
  - intros (i & e & d & He & Hd & Hk). exists i, (entry_key e).
    rewrite concat_scdt, He by done. split; [done|].
    apply concat_fmto; [done..|]. exists d. by split.
Qed.
End Ambiguity.

(** C1: value conservation of an accepted transaction.  When the entries have
    distinct keys and state their value in one way each, the amounts resolved for
    the sources and the amounts resolved for the destinations each sum exactly to
    the transaction's total. *)
Theorem send_conserves_value {D : DecimalLib} {DL : DecimalLaws} {C : LibCommons}
    {CL : LibCommonsLaws} (tx : Transaction) (tt : TxStatus) r from' to' :
  Forall single_type (sources_of tx) → Forall single_type (destinations_of tx) →
  NoDup (ft_AccountAlias <$> sources_of tx) → NoDup (ft_AccountAlias <$> destinations_of tx) →
  ValidateSendSourceAndDistribute tx tt = Ok (r, from', to') →
  (msum (resp_From r) == dval (resp_Total r) ∧ msum (resp_To r) == dval (resp_Total r))%Q.
Proof.
  intros Hs1 Hs2 Hn1 Hn2 (_ & _ & E1 & E2 & -> & _)%ValidateSend_Ok. simpl.
  rewrite !CalculateTotal_msum, !CalculateTotal_total by done. by split.
Qed.

Definition plain_entry (isFrom : bool) (alias : string) (v : Z) : @FromTo Fixed.lib :=
  mkFromTo (H:=Fixed.lib) alias "" (Some (set_amt_Value (fx v 0) zeroAmount)) None "" None "" ""
    ∅ isFrom "" None.
Definition remaining_entry (isFrom : bool) (alias : string) : @FromTo Fixed.lib :=
  mkFromTo (H:=Fixed.lib) alias "" None None "remaining" None "" "" ∅ isFrom "" None.
Definition share_entry (isFrom : bool) (alias : string) (p : Z) : @FromTo Fixed.lib :=
  mkFromTo (H:=Fixed.lib) alias "" None (Some (mkShare p 0)) "" None "" "" ∅ isFrom "" None.
Definition sample_tx (v : Z) (from to : list (@FromTo Fixed.lib)) : @Transaction Fixed.lib :=
  mkTransaction (H:=Fixed.lib) "" "" "" false ∅ "" None None
    (mkSend (H:=Fixed.lib) "BRL" (fx v 0) (mkSource "" from) (mkDistribute "" to)) None "".

#[export] Existing Instance Commons.laws.

(** 100 from an explicit 30 and the rest, to shares of 25% and 75%. *)
Definition mixed_tx : @Transaction Fixed.lib :=
  sample_tx 100 [plain_entry true "0#@a#default" 30; remaining_entry true "1#@b#default"]
    [share_entry false "0#@c#default" 25; share_entry false "1#@d#default" 75].

Lemma send_conserves_value_witness :
  match ValidateSendSourceAndDistribute (C:=Commons.lib) mixed_tx CREATED with
  | Ok (r, _, _) => (msum (resp_From r) == dval (resp_Total r))%Q
  | Err _ => False
  end.
Proof.
  assert (is_ok (ValidateSendSourceAndDistribute (C:=Commons.lib) mixed_tx CREATED) = true)
    as Hok by (vm_compute; reflexivity).
  destruct (ValidateSendSourceAndDistribute (C:=Commons.lib) mixed_tx CREATED)
    as [[[r from'] to']|e] eqn:E; [clear Hok|discriminate Hok].
  refine (proj1 (send_conserves_value mixed_tx CREATED r from' to' _ _ _ _ E)).
  - repeat constructor.
  - repeat constructor.
  - apply (bool_decide_eq_true_1 _). vm_compute. reflexivity.
  - apply (bool_decide_eq_true_1 _). vm_compute. reflexivity.
Defined.

(** What an accepted response contains.  The recorded sources, destinations
    and alias list are the alias#balanceKey of every entry, the alias list has no
    duplicates, and both sides' specified totals equal the sent value. *)
Theorem send_response_contents {D : DecimalLib} {DL : DecimalLaws} {C : LibCommons}
    {CL : LibCommonsLaws} (tx : Transaction) (tt : TxStatus) r from' to' :
  ValidateSendSourceAndDistribute tx tt = Ok (r, from', to') →
  let key := λ ft, AliasKey (FromTo_SplitAlias ft) (ft_BalanceKey ft) in
  resp_Sources r = key <$> sources_of tx ∧ resp_Destinations r = key <$> destinations_of tx ∧
  NoDup (resp_Aliases r) ∧
  (∀ a, a ∈ resp_Aliases r ↔ a ∈ resp_Sources r ∨ a ∈ resp_Destinations r) ∧
  resp_Total r = send_Value (tx_Send tx) ∧ resp_Asset r = send_Asset (tx_Send tx) ∧
  length from' = length (sources_of tx) ∧ length to' = length (destinations_of tx).
Proof.
  intros (_ & _ & _ & _ & -> & -> & ->)%ValidateSend_Ok. simpl.
  assert (∀ l : list FromTo, length (cs_fromTos (calc_loop l tx tt)) = length l) as Hlen.
  { intros l. unfold calc_loop. cut (∀ st, length (cs_fromTos (fold_left (calc_step tx tt) l st))
      = (length (cs_fromTos st) + length l)%nat); [intros E; apply E|].
    induction l as [|ft l IH]; intros st; simpl; [lia|]. rewrite IH.
    cut (length (cs_fromTos (calc_step tx tt st ft)) = S (length (cs_fromTos st))); [lia|].
    apply calc_step_length. }
  destruct (AppendIfNotExist_spec [] (cs_scdt (calc_loop (sources_of tx) tx tt))
              ltac:(constructor)) as [N1 X1].
  destruct (AppendIfNotExist_spec _ (cs_scdt (calc_loop (destinations_of tx) tx tt)) N1) as [N2 X2].
  rewrite !length_map, !Hlen. split_and!; try done; try apply calc_loop_scdt.
  intros a. rewrite X2, X1, elem_of_nil. tauto.
Qed.

Lemma send_response_contents_witness :
  match ValidateSendSourceAndDistribute (C:=Commons.lib) mixed_tx CREATED with
  | Ok (r, _, _) => NoDup (resp_Aliases r)
  | Err _ => False
  end.
Proof.
  assert (is_ok (ValidateSendSourceAndDistribute (C:=Commons.lib) mixed_tx CREATED) = true)
    as Hok by (vm_compute; reflexivity).
  destruct (ValidateSendSourceAndDistribute (C:=Commons.lib) mixed_tx CREATED)
    as [[[r from'] to']|e] eqn:E; [clear Hok|discriminate Hok].
  destruct (send_response_contents mixed_tx CREATED r from' to' E) as (_ & _ & N & _). exact N.
Defined.

(** "remaining" is resolved in entry order.  With exactly one "remaining"
    entry on a side, the side totals the sent value plus whatever the entries
    after it state, so it balances exactly when those entries state nothing; an
    explicit amount after a "remaining" entry is always rejected. *)
Theorem remaining_is_positional {D : DecimalLib} {DL : DecimalLaws} {C : LibCommons}
    {CL : LibCommonsLaws} (tx : Transaction) (tt : TxStatus) l1 ft l2 :
  Forall (λ ft, remaining_active ft = false) l1 → remaining_active ft = true →
  Forall (λ ft, remaining_active ft = false) l2 →
  let V := dval (send_Value (tx_Send tx)) in
  (dval (cs_total (calc_loop (l1 ++ ft :: l2) tx tt)) == V + explicit_sum V l2 ∧
   (sources_of tx = l1 ++ ft :: l2 → ¬ explicit_sum V l2 == 0 →
    is_ok (ValidateSendSourceAndDistribute tx tt) = false))%Q.
Proof.
  intros Hl1 Hft Hl2 V. split.
  - rewrite CalculateTotal_total. by apply total_spec_one_remaining.
  - intros Hsrc Hne. destruct (ValidateSendSourceAndDistribute tx tt) as [[[r f] t]|] eqn:E; [|done].
    apply ValidateSend_Ok in E as (_ & _ & E & _). rewrite Hsrc in E. fold V in E.
    rewrite total_spec_one_remaining in E by done. exfalso. apply Hne. lra.
Qed.

Definition remaining_first_tx : @Transaction Fixed.lib :=
  sample_tx 100 [remaining_entry true "0#@b#default"; plain_entry true "1#@a#default" 30]
    [plain_entry false "0#@c#default" 100].

Lemma remaining_is_positional_witness :
  is_ok (ValidateSendSourceAndDistribute (C:=Commons.lib) remaining_first_tx CREATED) = false.
Proof.
  refine (proj2 (remaining_is_positional (C:=Commons.lib) remaining_first_tx CREATED []
    (remaining_entry true "0#@b#default") [plain_entry true "1#@a#default" 30] _ _ _) _ _).
  - constructor.
  - reflexivity.
  - repeat constructor.
  - reflexivity.
  - intros E. vm_compute in E. discriminate E.
Defined.

(** Shares are exact.  A side made only of shares whose percentages add up to
    100 (with no percentage-of-percentage) totals exactly the sent value, for
    every sent value: the division by 100 never loses a digit. *)
Theorem shares_of_hundred_balance {D : DecimalLib} {DL : DecimalLaws} {C : LibCommons}
    {CL : LibCommonsLaws} (tx : Transaction) (tt : TxStatus) (es : list FromTo) (ps : list Z) :
  Forall2 (λ ft p, ft_Share ft = Some (mkShare p 0) ∧ ft_Amount ft = None ∧ ft_Remaining ft = "")
    es ps →
  foldr Z.add 0%Z ps = 100%Z →
  (dval (cs_total (calc_loop es tx tt)) == dval (send_Value (tx_Send tx)))%Q.
Proof.
  intros Hes Hsum. rewrite CalculateTotal_total.
  set (V := dval (send_Value (tx_Send tx))). rewrite total_spec_explicit.
  - transitivity (V * (inject_Z (foldr Z.add 0%Z ps) / 100))%Q;
      [|rewrite Hsum; simpl; unfold inject_Z; field].
    clear Hsum. induction Hes as [|ft p es ps (Es & Ea & _) _ IH]; simpl.
    + unfold inject_Z. field.
    + rewrite IH, inject_Z_plus. unfold explicit_q, share_active. rewrite Es, Ea. simpl.
      destruct (Z.eqb_spec p 0) as [->|]; simpl; unfold pop_of; simpl; unfold inject_Z; field.
  - clear Hsum. induction Hes as [|ft p es ps (_ & _ & Er) _ IH]; constructor; [|done].
    unfold remaining_active. by rewrite Er, IsNilOrEmpty_empty.
Qed.

Lemma shares_of_hundred_balance_witness :
  (dval (cs_total (calc_loop (C:=Commons.lib)
    [share_entry true "@a" 33; share_entry true "@b" 33; share_entry true "@c" 34]
    (sample_tx 1 [] []) CREATED)) == 1)%Q.
Proof.
  refine (shares_of_hundred_balance (C:=Commons.lib) (sample_tx 1 [] []) CREATED
    [share_entry true "@a" 33; share_entry true "@b" 33; share_entry true "@c" 34]
    [33; 33; 34]%Z _ eq_refl).
  repeat apply List.Forall2_cons; try apply List.Forall2_nil; repeat split.
Defined.

(** The ambiguity check is positional.  On normalised entries the transaction
    is rejected as ambiguous exactly when some index holds the same account and
    balance key on both sides; the same account at different indices passes. *)
Theorem ambiguity_is_positional {D : DecimalLib} {DL : DecimalLaws} {C : LibCommons}
    {CL : LibCommonsLaws} (tx : Transaction) (tt : TxStatus) (es ds : list FromTo) :
  sources_of tx = MutateConcatAliases es → destinations_of tx = MutateConcatAliases ds →
  Forall plain_alias es → Forall plain_alias ds →
  Forall single_type es → Forall single_type ds →
  ValidateSendSourceAndDistribute tx tt = Err ErrTransactionAmbiguous ↔
  ∃ i e d, es !! i = Some e ∧ ds !! i = Some d ∧ entry_key e = entry_key d.
Proof.
  intros Es Ed Hpe Hpd Hse Hsd.
  rewrite <- (ambiguous_concat es ds tx tt) by done.
  unfold ValidateSendSourceAndDistribute, CalculateTotal.
  unfold sources_of, destinations_of in *. rewrite Es, Ed. simpl.
  set (S := calc_loop (MutateConcatAliases es) tx tt).
  set (T := calc_loop (MutateConcatAliases ds) tx tt).
  assert (ambiguous (cs_scdt T) (cs_fmto S) = true → ambiguous (cs_scdt S) (cs_fmto T) = true)
    as Hsym.
  { unfold S, T. rewrite !ambiguous_concat by done. naive_solver. }
  destruct (ambiguous (cs_scdt S) (cs_fmto T)); [done|].
  destruct (ambiguous (cs_scdt T) (cs_fmto S)); [naive_solver|].
  by destruct (negb _ || negb _).
Qed.

Definition swapped_entries (isFrom : bool) (a b : string) : list (@FromTo Fixed.lib) :=
  [plain_entry isFrom a 50; plain_entry isFrom b 50].

Lemma ambiguity_is_positional_witness :
  ValidateSendSourceAndDistribute (C:=Commons.lib)
    (sample_tx 100 (MutateConcatAliases (swapped_entries true "@a" "@b"))
       (MutateConcatAliases (swapped_entries false "@b" "@a"))) CREATED
  ≠ Err ErrTransactionAmbiguous.
Proof.
  intros E.
  apply (ambiguity_is_positional (C:=Commons.lib) _ CREATED (swapped_entries true "@a" "@b")
           (swapped_entries false "@b" "@a")) in E as ([|[|i]] & e & d & He & Hd & Hk);
    [..|discriminate He|reflexivity|reflexivity|repeat constructor|repeat constructor
    |repeat constructor|repeat constructor].
  - injection He as <-. injection Hd as <-. discriminate Hk.
  - injection He as <-. injection Hd as <-. discriminate Hk.
Defined.

Section Revalidation.
Context {D : DecimalLib} {DL : DecimalLaws} {C : LibCommons} {CL : LibCommonsLaws}.
Local Open Scope Q_scope.

Lemma calc_fold_fromTos tx tt l st :
  Forall (λ ft, remaining_active ft = false) l →
  cs_fromTos (fold_left (calc_step tx tt) l st)
  = cs_fromTos st ++ ((λ ft, (ft, OwnAmount (ft_Amount ft))) <$> l).
Proof.
  intros Hl. revert st; induction Hl as [|ft l Hft _ IH]; intros st; simpl.
  - by rewrite app_nil_r.
  - rewrite IH. unfold calc_step.
    destruct (DetermineOperation _ _ _) as [op dir]. cbv zeta beta iota.
    rewrite calc_remaining_inactive by done. cbn [cs_fromTos].
    rewrite calc_amount_fromTos, calc_share_fromTos.
    cbn [cs_fromTos]. by rewrite <- app_assoc.
Qed.

Lemma set_ft_Amount_id (ft : FromTo) : set_ft_Amount (ft_Amount ft) ft = ft.
Proof. by destruct ft. Qed.

(** The caller's entries after one pass over [l1 ++ [e]], [e] being "remaining". *)
Lemma entries_after tx tt l1 e :
  Forall (λ ft, remaining_active ft = false) l1 → remaining_active e = true →
  let st := calc_loop (l1 ++ [e]) tx tt in
  map (deref (cs_remaining st)) (cs_fromTos st)
  = l1 ++ [set_ft_Amount (Some (cs_remaining st)) e].
Proof.
  intros Hl He st. set (rem := cs_remaining st).
  assert (cs_fromTos st = ((λ ft, (ft, OwnAmount (ft_Amount ft))) <$> l1) ++ [(e, AddrRemaining)])
    as ->.
  { unfold st, calc_loop. rewrite fold_left_app. simpl.
    pose proof (calc_fold_fromTos tx tt l1 (calc_init tx tt) Hl) as E. simpl in E.
    rewrite <- E. unfold calc_step.
    destruct (DetermineOperation _ _ _) as [op dir]. cbv zeta beta iota.
    unfold calc_remaining, remaining_active in *. rewrite He. cbn [cs_fromTos].
    by rewrite calc_amount_fromTos, calc_share_fromTos. }
  rewrite map_app. simpl. f_equal.
  clearbody rem. clear Hl st. induction l1 as [|ft l1 IH]; simpl; [done|]. f_equal; [apply set_ft_Amount_id|exact IH].
Qed.

(** The amount recorded for a last "remaining" entry that may also carry an amount. *)
Lemma last_remaining_amount tx tt l1 e :
  share_active e = false → remaining_active e = true →
  ∃ a, cs_fmto (calc_loop (l1 ++ [e]) tx tt) !! ft_AccountAlias e = Some a ∧
    let V := dval (send_Value (tx_Send tx)) in
    dval (amt_Value a) == V - explicit_sum V l1 - explicit_q V e.
Proof.
  intros Hs He. unfold calc_loop. rewrite fold_left_app. simpl.
  set (st := fold_left (calc_step tx tt) l1 (calc_init tx tt)).
  destruct (calc_fold_vals tx tt l1 (calc_init tx tt)) as [_ R]. fold st in R.
  destruct (calc_step_vals tx tt st e) as [_ R'].
  unfold calc_step in *. destruct (DetermineOperation _ _ _) as [op dir].
  cbv zeta beta iota in *. rewrite calc_share_inactive in * by done.
  unfold calc_remaining, remaining_active in *. rewrite He in *. cbn [cs_fmto cs_remaining] in *.
  rewrite lookup_insert_eq. eexists; split; [reflexivity|].
  rewrite R', R. simpl. lra.
Qed.

Lemma remaining_second_pass tx tt l1 e :
  Forall (λ ft, remaining_active ft = false) l1 →
  ft_Share e = None → ft_Amount e = None → remaining_active e = true →
  let V := dval (send_Value (tx_Send tx)) in
  0 < V - explicit_sum V l1 →
  let first := calc_loop (l1 ++ [e]) tx tt in
  let second := calc_loop (map (deref (cs_remaining first)) (cs_fromTos first)) tx tt in
  dval (cs_total second) == V ∧
  (∃ a, cs_fmto first !! ft_AccountAlias e = Some a ∧
     dval (amt_Value a) == V - explicit_sum V l1) ∧
  (∃ a, cs_fmto second !! ft_AccountAlias e = Some a ∧ dval (amt_Value a) == 0).
Proof.
  intros Hl Hs Ha He V Hpos first second.
  assert (explicit_q V e == 0) as Hq.
  { unfold explicit_q. rewrite Hs, Ha. lra. }
  assert (dval (amt_Value (cs_remaining first)) == V - explicit_sum V l1) as Hrem.
  { unfold first, calc_loop. rewrite fold_left_app. simpl.
    rewrite (proj2 (calc_step_vals tx tt _ e)), (proj2 (calc_fold_vals tx tt l1 _)). simpl.
    fold V. rewrite Hq. lra. }
  set (e' := set_ft_Amount (Some (cs_remaining first)) e).
  assert (explicit_q V e' == V - explicit_sum V l1) as Hq'.
  { unfold explicit_q, e', amount_active. simpl. rewrite Hs.
    rewrite (proj2 (dis_positive_spec _)) by (rewrite Hrem; lra). rewrite Hrem. lra. }
  assert (second = calc_loop (l1 ++ [e']) tx tt) as ->.
  { unfold second. f_equal. by apply entries_after. }
  split_and!.
  - rewrite CalculateTotal_total. fold V. rewrite total_spec_one_remaining; [|done|done|constructor].
    simpl. lra.
  - destruct (last_remaining_amount tx tt l1 e) as (a & Hm & Hv);
      [unfold share_active; by rewrite Hs|done|]. exists a. split; [done|].
    fold V in Hv. rewrite Hv, Hq. lra.
  - destruct (last_remaining_amount tx tt l1 e') as (a & Hm & Hv);
      [unfold share_active; simpl; by rewrite Hs|done|]. exists a. split; [done|].
    fold V in Hv. rewrite Hv, Hq'. lra.
Qed.
End Revalidation.

(** Validating the same entries twice loses the "remaining" leg.  The first
    pass stores the address of its resolved remainder in the entry; on the second
    pass that entry counts both as an explicit amount and as the (now zero)
    remainder, so the side still totals the sent value while the amount recorded
    for the entry is zero instead of the remainder. *)
Theorem remaining_lost_on_second_pass {D : DecimalLib} {DL : DecimalLaws} {C : LibCommons}
    {CL : LibCommonsLaws} (tx : Transaction) (tt : TxStatus) (l1 : list FromTo) (e : FromTo) :
  Forall (λ ft, remaining_active ft = false) l1 →
  ft_Share e = None → ft_Amount e = None → remaining_active e = true →
  let V := dval (send_Value (tx_Send tx)) in
  (0 < V - explicit_sum V l1 →
   let '(_, first, _, _, entries) := CalculateTotal (l1 ++ [e]) tx tt in
   let '(total, second, _, _, _) := CalculateTotal entries tx tt in
   dval total == V ∧
   (∃ a, first !! ft_AccountAlias e = Some a ∧ dval (amt_Value a) == V - explicit_sum V l1) ∧
   (∃ a, second !! ft_AccountAlias e = Some a ∧ dval (amt_Value a) == 0))%Q.
Proof. intros Hl Hs Ha He V Hpos. by apply remaining_second_pass. Qed.

Lemma remaining_lost_on_second_pass_witness :
  let tx := sample_tx 100 [] [] in
  (dval (send_Value (tx_Send tx)) - explicit_sum 100 [plain_entry true "@a" 30]
   == 70)%Q ∧
  ∃ a : @Amount Fixed.lib,
    (let '(_, _, _, _, entries) :=
       CalculateTotal (C:=Commons.lib) [plain_entry true "@a" 30; remaining_entry true "@b"] tx CREATED in
     let '(_, second, _, _, _) := CalculateTotal (C:=Commons.lib) entries tx CREATED in second)
    !! "@b" = Some a ∧ (dval (amt_Value a) == 0)%Q.
Proof.
  split; [vm_compute; reflexivity|].
  refine (proj2 (proj2 (remaining_lost_on_second_pass (C:=Commons.lib) (sample_tx 100 [] []) CREATED
    [plain_entry true "@a" 30] (remaining_entry true "@b") _ _ _ _ _))).
  - repeat constructor.
  - reflexivity.
  - reflexivity.
  - reflexivity.
  - vm_compute. reflexivity.
Defined.

(** A payload of 100 from an explicit 30 and "remaining", to one destination. *)
Definition remaining_payload : @Transaction Fixed.lib :=
  sample_tx 100 [plain_entry true "@a" 30; remaining_entry true "@b"] [plain_entry false "@c" 100].

(** The create path accepts an unbalanced transaction.  When the fee engine
    leaves the entries alone, [executeCreateTransaction] validates them twice; a
    payload of 100 from an explicit 30 and "remaining" is accepted with sources
    that sum to 30 against destinations that sum to 100. *)
Theorem create_path_unbalanced :
  match create_validate (C:=Commons.lib) (λ tx, Ok tx) remaining_payload CREATED with
  | Ok r => (msum (resp_From r) == 30 ∧ msum (resp_To r) == 100 ∧ dval (resp_Total r) == 100)%Q
  | Err _ => False
  end.
Proof. vm_compute. repeat split. Qed.
