(* ===== verification/Overdraft.v ===== *)
(** * Overdraft arithmetic (pkg/mtransaction/overdraft.go)

    How a debit that exceeds the available funds is split between a balance and
    its overdraft, and how a credit repays the overdraft first. *)

From Stdlib Require Import QArith Qminmax Lqa.
From stdpp Require Import base gmap strings list.
From S2P Require Import Prelude Decimals Transaction.

Section Overdraft.
Context {D : DecimalLib}.
Local Open Scope dec_scope.
Implicit Types (amount : Amount) (balance : Balance).

Definition CalculateOverdraftSplit (available debitAmount : dec) : dec * dec :=
  let debitOnDefault := dmin available debitAmount in
  let debitOnOverdraft := debitAmount - debitOnDefault in
  (debitOnDefault, debitOnOverdraft).

Definition ValidateOverdraftLimit (currentOverdraftUsed deficit overdraftLimit : dec)
    (limitEnabled : bool) : result GoError unit :=
  if negb limitEnabled then Ok tt
  else
    let projected := currentOverdraftUsed + deficit in
    if dgt projected overdraftLimit then Err ErrOverdraftLimitExceeded else Ok tt.

Definition DetectOverdraftSplit amount balance : bool * dec :=
  if negb (bool_decide (bal_Direction balance = DirectionCredit)) then (false, dzero)
  else if negb (bal_AllowOverdraft balance) then (false, dzero)
  else if negb (bool_decide (amt_Operation amount = DEBIT)) then (false, dzero)
  else if negb (dgt (amt_Value amount) (bal_Available balance)) then (false, dzero)
  else (true, amt_Value amount - bal_Available balance).

Definition CalculateRefundSplit (creditAmount overdraftUsed : dec) : dec * dec :=
  let creditOnOverdraft := dmin creditAmount overdraftUsed in
  let creditOnDefault := creditAmount - creditOnOverdraft in
  (creditOnOverdraft, creditOnDefault).

Definition DetectRefundSplit amount balance : bool * dec * bool :=
  if negb (bool_decide (bal_Direction balance = DirectionCredit)) then (false, dzero, false)
  else if negb (bool_decide (amt_Operation amount = CREDIT)) then (false, dzero, false)
  else if negb (dgt (bal_OverdraftUsed balance) dzero) then (false, dzero, false)
  else
    let repayAmount := dmin (amt_Value amount) (bal_OverdraftUsed balance) in
    let cleared := dis_zero (bal_OverdraftUsed balance - repayAmount) in
    (true, repayAmount, cleared).
End Overdraft.

Section OverdraftLemmas.
Context {D : DecimalLib} {DL : DecimalLaws}.
Local Open Scope Q_scope.
Implicit Types (amount : Amount) (balance : Balance).

Lemma DetectOverdraftSplit_true amount balance deficit :
  DetectOverdraftSplit amount balance = (true, deficit) ↔
  bal_Direction balance = DirectionCredit ∧ bal_AllowOverdraft balance = true ∧
  amt_Operation amount = DEBIT ∧ dval (bal_Available balance) < dval (amt_Value amount) ∧
  deficit = (amt_Value amount - bal_Available balance)%dec.
Proof.
  unfold DetectOverdraftSplit. repeat (case_bool_decide; simpl);
    destruct (bal_AllowOverdraft balance); simpl;
    destruct (dgt (amt_Value amount) (bal_Available balance)) eqn:E; simpl;
    (try apply dgt_spec in E; try apply dgt_false in E); split;
    intros; destruct_and?; simplify_eq; try done; try (split_and!; done);
    exfalso; lra.
Qed.

Lemma DetectRefundSplit_true amount balance repay cleared :
  DetectRefundSplit amount balance = (true, repay, cleared) →
  bal_Direction balance = DirectionCredit ∧ amt_Operation amount = CREDIT ∧
  0 < dval (bal_OverdraftUsed balance) ∧
  repay = dmin (amt_Value amount) (bal_OverdraftUsed balance) ∧
  (cleared = true ↔ dval (bal_OverdraftUsed balance) <= dval (amt_Value amount)).
Proof.
  unfold DetectRefundSplit. repeat (case_bool_decide; simpl; [|done]).
  destruct (dgt _ dzero) eqn:E; simpl; [|done]. intros [= <- <-].
  apply dgt_spec in E. rewrite dval_zero in E. split_and!; try done.
  rewrite dis_zero_spec, dval_sub.
  destruct (dmin_cases (amt_Value amount) (bal_OverdraftUsed balance)) as [[? ->]|[? ->]]; lra.
Qed.
End OverdraftLemmas.

(** Overdraft split of a debit.  The two halves always sum to the debit; with
    non-negative funds and debit neither is negative and the default half is the
    smaller of the two quantities; and a split is detected exactly for a debit
    that exceeds the funds of a credit-direction balance that allows overdraft,
    with a positive deficit equal to the overdraft half. *)
Theorem overdraft_split_correct {D : DecimalLib} {DL : DecimalLaws} (amount : Amount)
    (balance : Balance) :
  let '(onDefault, onOverdraft) :=
    CalculateOverdraftSplit (bal_Available balance) (amt_Value amount) in
  (dval onDefault + dval onOverdraft == dval (amt_Value amount) ∧
   dval onDefault == Qmin (dval (bal_Available balance)) (dval (amt_Value amount)) ∧
   (0 <= dval (bal_Available balance) → 0 <= dval (amt_Value amount) →
      0 <= dval onDefault ∧ 0 <= dval onOverdraft) ∧
   (∀ deficit, DetectOverdraftSplit amount balance = (true, deficit) →
      deficit ≡d onOverdraft ∧ 0 < dval deficit) ∧
   (DetectOverdraftSplit amount balance).1 =
      bool_decide (bal_Direction balance = DirectionCredit) && bal_AllowOverdraft balance
      && bool_decide (amt_Operation amount = DEBIT)
      && dgt (amt_Value amount) (bal_Available balance))%Q.
Proof.
  unfold CalculateOverdraftSplit. split_and!.
  - dec_lra.
  - destruct (dmin_cases (bal_Available balance) (amt_Value amount)) as [[Hle ->]|[Hlt ->]].
    + by rewrite Q.min_l.
    + rewrite Q.min_r by lra. reflexivity.
  - intros. rewrite dval_sub.
    destruct (dmin_cases (bal_Available balance) (amt_Value amount)) as [[Hle ->]|[Hlt ->]];
      split; lra.
  - intros deficit (_ & _ & _ & Hlt & ->)%DetectOverdraftSplit_true.
    unfold dec_eq. rewrite !dval_sub.
    destruct (dmin_cases (bal_Available balance) (amt_Value amount)) as [[Hle ->]|[Hlt' ->]];
      split; lra.
  - unfold DetectOverdraftSplit. repeat (case_bool_decide; simpl);
      destruct (bal_AllowOverdraft balance), (dgt (amt_Value amount) (bal_Available balance)); done.
Qed.

(** Overdraft limit.  With the limit enabled a deficit is accepted exactly
    when the accumulated usage stays within the limit (equality allowed); with it
    disabled every deficit is accepted. *)
Theorem overdraft_limit_correct {D : DecimalLib} {DL : DecimalLaws} (used deficit limit : dec)
    (enabled : bool) :
  (ValidateOverdraftLimit used deficit limit enabled = Ok tt ↔
     (enabled = true → dval used + dval deficit <= dval limit)%Q) ∧
  (ValidateOverdraftLimit used deficit limit enabled = Err ErrOverdraftLimitExceeded ↔
     enabled = true ∧ (dval limit < dval used + dval deficit)%Q).
Proof.
  unfold ValidateOverdraftLimit. destruct enabled; simpl; [|naive_solver].
  destruct (dgt _ _) eqn:E; [apply dgt_spec in E|apply dgt_false in E]; rewrite dval_add in E;
    split; split; intros; try done.
  - exfalso. specialize (H eq_refl). lra.
  - destruct_and!. exfalso. lra.
Qed.

(** Refund split of a credit.  The two halves sum to the credit, the
    repayment never exceeds the outstanding overdraft nor the credit, and when a
    refund is detected the repayment is positive for a positive credit, equals the
    overdraft half, and clears the overdraft exactly when the credit covers it. *)
Theorem refund_split_correct {D : DecimalLib} {DL : DecimalLaws} (amount : Amount)
    (balance : Balance) :
  let '(onOverdraft, onDefault) :=
    CalculateRefundSplit (amt_Value amount) (bal_OverdraftUsed balance) in
  (dval onOverdraft + dval onDefault == dval (amt_Value amount) ∧
   dval onOverdraft <= dval (bal_OverdraftUsed balance) ∧
   0 <= dval onDefault ∧
   (∀ repay cleared, DetectRefundSplit amount balance = (true, repay, cleared) →
      repay = onOverdraft ∧ (0 < dval (amt_Value amount) → 0 < dval repay) ∧
      (cleared = true ↔ dval (bal_OverdraftUsed balance) <= dval (amt_Value amount))))%Q.
Proof.
  unfold CalculateRefundSplit.
  pose proof (dmin_cases (amt_Value amount) (bal_OverdraftUsed balance)) as Hmin.
  split_and!.
  - dec_lra.
  - destruct Hmin as [[? ->]|[? ->]]; lra.
  - rewrite dval_sub. destruct Hmin as [[? ->]|[? ->]]; lra.
  - intros repay cleared (_ & _ & Hpos & -> & Hc)%DetectRefundSplit_true.
    split_and!; [done| |done]. intros. destruct Hmin as [[? ->]|[? ->]]; lra.
Qed.
