(* ===== verification/LuaDecimal.v ===== *)
(** * Decimal strings in the balance script
    (adapters/redis/transaction/scripts/balance_atomic_operation.lua)

    The script that mutates balances atomically inside Redis computes on decimal
    strings, digit by digit.  This file models its string functions
    ([split_decimal], [add_decimal], [sub_decimal], [isPositive], [min_decimal])
    as written, including the one place where it leaves the digits: the test
    [tonumber(a) < tonumber(b)] of [sub_decimal], which compares binary64
    approximations.  The theorems say when the functions are exact and show an
    input where the approximation makes them wrong. *)

From Stdlib Require Import Ascii QArith Qabs Qpower Lqa.
From stdpp Require Import base strings list numbers.
From S2P Require Import Prelude GoStrings.

Local Open Scope string_scope.
Local Open Scope list_scope.
Local Open Scope Z_scope.

(** ** Digits *)

Definition minus : ascii := "-"%char.
Definition dot : ascii := "."%char.

(** [tonumber(c) or 0] for one character. *)
Definition digit_val (c : ascii) : Z :=
  if is_digit c then Z.of_nat (nat_of_ascii c) - 48 else 0.

(** [tostring(d)] for a digit. *)
Definition digit_char (d : Z) : ascii := ascii_of_nat (Z.to_nat (d + 48)).

Fixpoint digits_of (s : string) : list Z :=
  match s with
  | EmptyString => []
  | String c s' => digit_val c :: digits_of s'
  end.

Fixpoint string_of (ds : list Z) : string :=
  match ds with
  | [] => EmptyString
  | d :: ds' => String (digit_char d) (string_of ds')
  end.

(** ** String functions of the script *)

Definition startsWithMinus (s : string) : bool :=
  match s with String c _ => bool_decide (c = minus) | _ => false end.

(** [s:sub(2)] *)
Definition tail (s : string) : string :=
  match s with String _ s' => s' | EmptyString => EmptyString end.

(** [s:match("^(%d+)%.(%d+)$")] *)
Definition match_decimal (s : string) : option (string * string) :=
  let '(intp, rest) := split_char dot s in
  match rest with
  | [fracp] =>
      if negb (bool_decide (intp = "")) && all_chars is_digit intp
         && negb (bool_decide (fracp = "")) && all_chars is_digit fracp
      then Some (intp, fracp) else None
  | _ => None
  end.

(** [split_decimal]: integer part with sign, fraction, negativity. *)
Definition split_decimal (s : string) : string * string * bool :=
  let neg := startsWithMinus s in
  let s := if neg then tail s else s in
  let sign := if neg then "-" else "" in
  match match_decimal s with
  | Some (intp, fracp) => (sign +:+ intp, fracp, neg)
  | None => (sign +:+ s, "", neg)
  end.

(** [frac:gsub("0+$", "")] and [s:gsub("^0+", "")] on digit lists. *)
Fixpoint drop_zeros (ds : list Z) : list Z :=
  match ds with
  | [] => []
  | d :: ds' => if d =? 0 then drop_zeros ds' else ds
  end.
Definition rtrim_zeros (ds : list Z) : list Z := rev (drop_zeros (rev ds)).

(** Right-pads a fraction with zeros to length [n]. *)
Definition pad_right (n : nat) (ds : list Z) : list Z := ds ++ repeat 0 (n - length ds).

(** [rii:sub(i,i)] and [rbi:sub(i,i)] for [i = 1 .. max_i], from the least
    significant digit; a missing digit counts as zero. *)
Fixpoint zip_long (xs ys : list Z) : list (Z * Z) :=
  match xs, ys with
  | [], _ => map (λ y, (0, y)) ys
  | x :: xs', [] => (x, 0) :: zip_long xs' []
  | x :: xs', y :: ys' => (x, y) :: zip_long xs' ys'
  end.

(** The digit loops of [add_decimal] and [sub_decimal]. *)
Fixpoint add_loop (carry : Z) (ps : list (Z * Z)) : list Z * Z :=
  match ps with
  | [] => ([], carry)
  | (da, db) :: ps' =>
      let s := da + db + carry in
      let '(zs, c) := add_loop (s / 10) ps' in (s `mod` 10 :: zs, c)
  end.

Fixpoint sub_loop (borrow : Z) (ps : list (Z * Z)) : list Z * Z :=
  match ps with
  | [] => ([], borrow)
  | (da, db) :: ps' =>
      let diff := da - db - borrow in
      let '(d, b) := if diff <? 0 then (diff + 10, 1) else (diff, 0) in
      let '(zs, b') := sub_loop b ps' in (d :: zs, b')
  end.

(** [int_res .. "." .. frac_res], without the point when the fraction is zero. *)
Definition render (int_res frac_res : list Z) : string :=
  match rtrim_zeros frac_res with
  | [] => string_of int_res
  | f => string_of int_res +:+ String dot (string_of f)
  end.

(** The part of [add_decimal] after the sign cases: both arguments unsigned. *)
Definition add_core (ai af bi bf : list Z) : string :=
  let n := Nat.max (length af) (length bf) in
  let af := pad_right n af in
  let bf := pad_right n bf in
  let '(frac_sum, carry) := add_loop 0 (zip_long (rev af) (rev bf)) in
  let '(int_sum, carry) := add_loop carry (zip_long (rev ai) (rev bi)) in
  let int_sum := if 0 <? carry then int_sum ++ [carry] else int_sum in
  render (rev int_sum) (rev frac_sum).

(** The part of [sub_decimal] after the sign and order cases. *)
Definition sub_core (ai af bi bf : list Z) : string :=
  let n := Nat.max (length af) (length bf) in
  let af := pad_right n af in
  let bf := pad_right n bf in
  let '(frac_res, borrow) := sub_loop 0 (zip_long (rev af) (rev bf)) in
  let '(int_res, _) := sub_loop borrow (zip_long (rev ai) (rev bi)) in
  let res_int := match drop_zeros (rev int_res) with [] => [0] | ds => ds end in
  render res_int (rev frac_res).

(** ** [tonumber]: correctly rounded binary64 *)

(** Nearest integer to [n / d], ties to even. *)
Definition round_even (n d : Z) : Z :=
  let q := n / d in
  let r := n `mod` d in
  if 2 * r <? d then q
  else if d <? 2 * r then q + 1
  else if Z.even q then q else q + 1.

(** The binary64 nearest to [n / d], for [n >= 0] and [d > 0], as [(m, s)] with
    value [m * 2^-s]: 53 significant bits, exponent range not bounded (decimal
    strings beyond 10^308 or below 10^-307 do not occur as balances). *)
Definition round64 (n d : Z) : Z * Z :=
  if n =? 0 then (0, 0)
  else
    let s := 52 - (Z.log2 n - Z.log2 d) in
    let scaled s := (n * 2 ^ Z.max s 0, d * 2 ^ Z.max (- s) 0) in
    let '(num, den) := scaled s in
    let s := if num <? 2 ^ 52 * den then s + 1 else s in
    let '(num, den) := scaled s in
    (round_even num den, s).

Definition double_lt (x y : Z * Z) : bool :=
  let '(mx, sx) := x in
  let '(my, sy) := y in
  let s := Z.max sx sy in
  mx * 2 ^ (s - sx) <? my * 2 ^ (s - sy).

Definition ten (k : nat) : Z := 10 ^ Z.of_nat k.

(** Value of a digit list, most significant digit first. *)
Fixpoint be_val (ds : list Z) : Z :=
  match ds with
  | [] => 0
  | d :: ds' => d * ten (length ds') + be_val ds'
  end.

(** [tonumber(s)] on an unsigned decimal string; other strings are out of the model. *)
Definition tonumber (s : string) : option (Z * Z) :=
  match match_decimal s with
  | Some (intp, fracp) =>
      Some (round64 (be_val (digits_of intp ++ digits_of fracp)) (ten (String.length fracp)))
  | None =>
      if negb (bool_decide (s = "")) && all_chars is_digit s
      then Some (round64 (be_val (digits_of s)) 1) else None
  end.

(** ** [add_decimal] and [sub_decimal]

    Mutually recursive in the script; [None] is a Lua error (or exhausted fuel).
    Every call drops a minus sign or swaps the operands of an unsigned
    subtraction once, so the lengths plus two are enough fuel. *)
Fixpoint arith (fuel : nat) (is_sub : bool) (a b : string) : option string :=
  match fuel with
  | O => None
  | S fuel =>
      let '(ai, af, a_negative) := split_decimal a in
      let '(bi, bf, b_negative) := split_decimal b in
      if is_sub then
        if a_negative && b_negative then arith fuel true (tail b) (tail a)
        else if a_negative then String minus <$> arith fuel false (tail a) b
        else if b_negative then arith fuel false a (tail b)
        else match tonumber a, tonumber b with
        | Some a_num, Some b_num =>
            if double_lt a_num b_num then String minus <$> arith fuel true b a
            else Some (sub_core (digits_of ai) (digits_of af) (digits_of bi) (digits_of bf))
        | _, _ => None
        end
      else
        if a_negative && b_negative then String minus <$> arith fuel false (tail a) (tail b)
        else if a_negative then arith fuel true b (tail a)
        else if b_negative then arith fuel true a (tail b)
        else Some (add_core (digits_of ai) (digits_of af) (digits_of bi) (digits_of bf))
  end.

Definition arith_fuel (a b : string) : nat := (String.length a + String.length b + 2)%nat.
Definition add_decimal (a b : string) : option string := arith (arith_fuel a b) false a b.
Definition sub_decimal (a b : string) : option string := arith (arith_fuel a b) true a b.

(** [s:gsub("%.?0+$", "")] then [:gsub("^0+", "")], tested against "" and ".". *)
Definition strip_trailing (s : string) : string :=
  let cs := rev (String.list_ascii_of_string s) in
  let fix zeros l := match l with
                     | c :: l' => if bool_decide (c = "0"%char) then zeros l' else l
                     | [] => [] end in
  let rest := zeros cs in
  if bool_decide (length rest = length cs) then s
  else String.string_of_list_ascii (rev
    (match rest with c :: l => if bool_decide (c = dot) then l else rest | [] => [] end)).
Fixpoint strip_leading (s : string) : string :=
  match s with
  | String c s' => if bool_decide (c = "0"%char) then strip_leading s' else s
  | EmptyString => s
  end.
Definition isPositive (s : string) : bool :=
  if startsWithMinus s then false
  else
    let normalized := strip_leading (strip_trailing s) in
    negb (bool_decide (normalized = "")) && negb (bool_decide (normalized = ".")).

Definition min_decimal (a b : string) : option string :=
  d ← sub_decimal a b; Some (if startsWithMinus d then a else b).

(** ** Examples on the script's inputs *)

Example add_ex : add_decimal "99.95" "0.1" = Some "100.05".
Proof. vm_compute. reflexivity. Qed.
Example sub_ex : sub_decimal "100" "100.05" = Some "-0.05".
Proof. vm_compute. reflexivity. Qed.
Example mixed_ex : add_decimal "-5" "2.50" = Some "-2.5".
Proof. vm_compute. reflexivity. Qed.

(** ** Digit-list lemmas *)

Definition is_dig (d : Z) : Prop := 0 <= d <= 9.

Fixpoint le_val (ds : list Z) : Z :=
  match ds with
  | [] => 0
  | d :: ds' => d + 10 * le_val ds'
  end.

Lemma ten_S k : ten (S k) = 10 * ten k.
Proof. unfold ten. rewrite Nat2Z.inj_succ, Z.pow_succ_r by lia. lia. Qed.
Lemma ten_add j k : ten (j + k) = ten j * ten k.
Proof. unfold ten. rewrite Nat2Z.inj_add, Z.pow_add_r by lia. done. Qed.
Lemma ten_pos k : 0 < ten k.
Proof. unfold ten. apply Z.pow_pos_nonneg; lia. Qed.
Lemma ten_split j k : (j <= k)%nat → ten k = ten (k - j) * ten j.
Proof. intros. rewrite <- ten_add. f_equal. lia. Qed.

Lemma le_val_app xs ys : le_val (xs ++ ys) = le_val xs + ten (length xs) * le_val ys.
Proof.
  induction xs as [|x xs IH]; simpl; [unfold ten; simpl; lia|].
  rewrite IH, ten_S. lia.
Qed.
Lemma be_val_le ds : be_val ds = le_val (rev ds).
Proof.
  induction ds as [|d ds IH]; simpl; [done|].
  rewrite le_val_app, length_rev, IH. simpl. lia.
Qed.
Lemma be_val_app xs ys : be_val (xs ++ ys) = be_val xs * ten (length ys) + be_val ys.
Proof.
  induction xs as [|x xs IH]; simpl; [done|].
  rewrite IH, length_app, ten_add. lia.
Qed.
Lemma be_val_repeat0 k : be_val (repeat 0 k) = 0.
Proof. induction k as [|k IH]; simpl; [done|]. by rewrite IH. Qed.
Lemma be_val_bound ds : Forall is_dig ds → 0 <= be_val ds < ten (length ds).
Proof.
  induction 1 as [|d ds [Hd1 Hd2] _ IH]; simpl; [unfold ten; simpl; lia|].
  rewrite ten_S. nia.
Qed.
Lemma be_val_pad n ds :
  (length ds <= n)%nat → be_val (pad_right n ds) = be_val ds * ten (n - length ds).
Proof.
  intros. unfold pad_right. rewrite be_val_app, be_val_repeat0, repeat_length. lia.
Qed.
Lemma length_pad n ds : (length ds <= n)%nat → length (pad_right n ds) = n.
Proof. intros. unfold pad_right. rewrite length_app, repeat_length. lia. Qed.
Lemma pad_digits n ds : Forall is_dig ds → Forall is_dig (pad_right n ds).
Proof.
  intros. unfold pad_right. apply Forall_app. split; [done|].
  induction (n - length ds)%nat; simpl; constructor; [unfold is_dig; lia|done].
Qed.

Lemma zip_long_spec xs ys :
  le_val (zip_long xs ys).*1 = le_val xs ∧ le_val (zip_long xs ys).*2 = le_val ys ∧
  length (zip_long xs ys) = Nat.max (length xs) (length ys).
Proof.
  revert ys; induction xs as [|x xs IH]; intros ys; csimpl.
  - induction ys as [|y ys (E1 & E2 & E3)]; csimpl; [done|].
    rewrite E1, E2. split_and!; [lia|lia|]. csimpl in *. lia.
  - destruct ys as [|y ys]; csimpl.
    + destruct (IH []) as (E1 & E2 & E3). rewrite E1, E2, E3. simpl. split_and!; lia.
    + destruct (IH ys) as (E1 & E2 & E3). rewrite E1, E2, E3. split_and!; lia.
Qed.

Definition dig_pair (p : Z * Z) : Prop := is_dig p.1 ∧ is_dig p.2.

Lemma zip_long_digits xs ys :
  Forall is_dig xs → Forall is_dig ys → Forall dig_pair (zip_long xs ys).
Proof.
  assert (is_dig 0) as H0 by (unfold is_dig; lia).
  intros Hx. revert ys; induction Hx as [|x xs Hx _ IH]; intros ys Hy; simpl.
  - induction Hy; simpl; constructor; [by split|done].
  - destruct Hy as [|y ys ? ?]; constructor; (by split) || (apply IH; auto).
Qed.

Lemma add_loop_spec ps c :
  Forall dig_pair ps → 0 <= c <= 1 →
  let '(zs, c') := add_loop c ps in
  length zs = length ps ∧ Forall is_dig zs ∧ 0 <= c' <= 1 ∧
  le_val zs + c' * ten (length ps) = le_val ps.*1 + le_val ps.*2 + c.
Proof.
  intros Hps. revert c; induction Hps as [|[x y] ps [[Hx1 Hx2] [Hy1 Hy2]] _ IH]; intros c Hc;
    csimpl in *; [unfold ten; simpl; split_and!; [done|constructor|lia..]|].
  pose proof (Z.div_mod (x + y + c) 10 ltac:(lia)) as Hdm.
  pose proof (Z.mod_pos_bound (x + y + c) 10 ltac:(lia)) as Hmb.
  assert (0 <= (x + y + c) / 10 <= 1) as Hq.
  { split; [apply Z.div_pos; lia|apply Z.lt_succ_r, Z.div_lt_upper_bound; lia]. }
  specialize (IH ((x + y + c) / 10) Hq).
  destruct (add_loop ((x + y + c) / 10) ps) as [zs c'].
  destruct IH as (Hlen & Hdig & Hc' & Hval). simpl. rewrite Hlen, ten_S.
  split_and!; [done| |lia|lia|lia]. constructor; [unfold is_dig; lia|done].
Qed.

Lemma sub_loop_spec ps b :
  Forall dig_pair ps → 0 <= b <= 1 →
  let '(zs, b') := sub_loop b ps in
  length zs = length ps ∧ Forall is_dig zs ∧ 0 <= b' <= 1 ∧
  le_val zs - b' * ten (length ps) = le_val ps.*1 - le_val ps.*2 - b.
Proof.
  intros Hps. revert b; induction Hps as [|[x y] ps [[Hx1 Hx2] [Hy1 Hy2]] _ IH]; intros b Hb;
    csimpl in *; [unfold ten; simpl; split_and!; [done|constructor|lia..]|].
  destruct (Z.ltb_spec (x - y - b) 0).
  - specialize (IH 1 ltac:(lia)). destruct (sub_loop 1 ps) as [zs b'].
    destruct IH as (Hlen & Hdig & Hb' & Hval). simpl. rewrite Hlen, ten_S.
    split_and!; [done| |lia|lia|lia]. constructor; [unfold is_dig; lia|done].
  - specialize (IH 0 ltac:(lia)). destruct (sub_loop 0 ps) as [zs b'].
    destruct IH as (Hlen & Hdig & Hb' & Hval). simpl. rewrite Hlen, ten_S.
    split_and!; [done| |lia|lia|lia]. constructor; [unfold is_dig; lia|done].
Qed.

Lemma drop_zeros_val ds : be_val (drop_zeros ds) = be_val ds.
Proof.
  induction ds as [|d ds IH]; simpl; [done|].
  destruct (Z.eqb_spec d 0) as [->|]; simpl; [by rewrite IH|done].
Qed.
Lemma drop_zeros_digits ds : Forall is_dig ds → Forall is_dig (drop_zeros ds).
Proof. induction 1; simpl; [done|]. destruct (_ =? 0); auto. Qed.
Lemma drop_zeros_suffix ds : ∃ k, ds = repeat 0 k ++ drop_zeros ds.
Proof.
  induction ds as [|d ds [k IH]]; simpl; [by exists 0%nat|].
  destruct (Z.eqb_spec d 0) as [->|]; [exists (S k); simpl; by rewrite <- IH|by exists 0%nat].
Qed.

Lemma rtrim_spec ds : ∃ k, ds = rtrim_zeros ds ++ repeat 0 k.
Proof.
  destruct (drop_zeros_suffix (rev ds)) as [k E]. exists k. unfold rtrim_zeros.
  apply (f_equal (@rev Z)) in E. rewrite rev_involutive, rev_app_distr in E.
  rewrite E at 1. f_equal. clear. induction k as [|k IH]; simpl; [done|].
  rewrite IH. clear. induction k as [|k IH]; simpl; [done|]. by rewrite <- IH.
Qed.

(** ** Strings of digits *)

Lemma digit_cases d :
  is_dig d → d = 0 ∨ d = 1 ∨ d = 2 ∨ d = 3 ∨ d = 4 ∨ d = 5 ∨ d = 6 ∨ d = 7 ∨ d = 8 ∨ d = 9.
Proof. unfold is_dig. lia. Qed.
Ltac digit_cases H :=
  apply digit_cases in H;
  destruct H as [->|[->|[->|[->|[->|[->|[->|[->|[->| ->]]]]]]]]].

Lemma digit_char_val d : is_dig d → digit_val (digit_char d) = d.
Proof. intros H. digit_cases H; reflexivity. Qed.
Lemma digit_char_digit d : is_dig d → is_digit (digit_char d) = true.
Proof. intros H. digit_cases H; reflexivity. Qed.

Lemma digits_string ds : Forall is_dig ds → digits_of (string_of ds) = ds.
Proof. induction 1; simpl; [done|]. rewrite digit_char_val by done. congruence. Qed.
Lemma string_digits ds : Forall is_dig ds → all_chars is_digit (string_of ds) = true.
Proof. induction 1; simpl; [done|]. by rewrite digit_char_digit by done. Qed.
Lemma string_of_length ds : String.length (string_of ds) = length ds.
Proof. induction ds; simpl; congruence. Qed.
Lemma string_no_dot ds : Forall is_dig ds → contains_char dot (string_of ds) = false.
Proof. intros. apply (digits_no_char is_digit); [done|by apply string_digits]. Qed.

(** An unsigned decimal: digits, and a point with more digits when there is a
    fraction. *)
Definition usg (I F : list Z) : string :=
  match F with
  | [] => string_of I
  | _ => string_of I +:+ String dot (string_of F)
  end.
Definition udec (I F : list Z) : Prop := I ≠ [] ∧ Forall is_dig I ∧ Forall is_dig F.
(** Its value in units of [10^-n]. *)
Definition uval (n : nat) (I F : list Z) : Z := be_val I * ten n + be_val F * ten (n - length F).

Lemma match_usg I F :
  udec I F →
  match_decimal (usg I F) =
    match F with [] => None | _ => Some (string_of I, string_of F) end.
Proof.
  intros (HI & HdI & HdF). unfold match_decimal, usg.
  destruct F as [|f F].
  - by rewrite (split_char_none _ _ (string_no_dot I HdI)).
  - rewrite split_char_app by by apply string_no_dot.
    rewrite strings_Split_none by by apply string_no_dot.
    rewrite (string_digits _ HdI), (string_digits _ HdF). destruct I; [done|].
    rewrite !bool_decide_false by done. done.
Qed.

Lemma usg_no_minus I F : udec I F → startsWithMinus (usg I F) = false.
Proof.
  intros (HI & HdI & _). unfold usg. destruct HdI as [|d I Hd _]; [done|].
  destruct F; simpl; rewrite ?string_app_cons; simpl; apply bool_decide_false;
    intros E; apply (f_equal is_digit) in E; rewrite digit_char_digit in E by done; done.
Qed.

Lemma split_usg I F : udec I F → split_decimal (usg I F) = (string_of I, string_of F, false).
Proof.
  intros H. unfold split_decimal. rewrite usg_no_minus by done. simpl.
  rewrite match_usg by done. destruct F; reflexivity.
Qed.
Lemma split_minus_usg I F :
  udec I F → split_decimal (String minus (usg I F)) = (String minus (string_of I), string_of F, true).
Proof.
  intros H. unfold split_decimal. simpl.
  rewrite match_usg by done. destruct F; reflexivity.
Qed.

Lemma tonumber_usg I F :
  udec I F → tonumber (usg I F) = Some (round64 (be_val (I ++ F)) (ten (length F))).
Proof.
  intros H. unfold tonumber. rewrite match_usg by done. destruct H as (HI & HdI & HdF).
  destruct F as [|f F].
  - simpl. rewrite (string_digits _ HdI), digits_string, app_nil_r by done.
    rewrite bool_decide_false by (by destruct I). done.
  - rewrite !digits_string, string_of_length by done. done.
Qed.

(** ** The digit loops compute the sum and the difference *)

Lemma render_usg I F : render I F = usg I (rtrim_zeros F).
Proof. unfold render, usg. by destruct (rtrim_zeros F). Qed.

Lemma rtrim_digits F : Forall is_dig F → Forall is_dig (rtrim_zeros F).
Proof.
  intros. unfold rtrim_zeros. apply Forall_rev, drop_zeros_digits. by apply Forall_rev.
Qed.

Lemma uval_rtrim n I F :
  (length F <= n)%nat →
  uval n I (rtrim_zeros F) = uval n I F ∧ (length (rtrim_zeros F) <= length F)%nat.
Proof.
  intros Hn. destruct (rtrim_spec F) as [k E].
  assert (length F = length (rtrim_zeros F) + k)%nat as HL
    by (rewrite E at 1; by rewrite length_app, repeat_length).
  split; [|lia]. unfold uval. f_equal.
  rewrite E at 3. rewrite be_val_app, be_val_repeat0, repeat_length.
  rewrite (Nat2Z.inj _ _ (f_equal Z.of_nat HL)).
  replace (n - length (rtrim_zeros F))%nat with (k + (n - (length (rtrim_zeros F) + k)))%nat by lia.
  rewrite ten_add. lia.
Qed.

(** Values at the common scale of two fractions. *)
Lemma uval_scale n m I F :
  (length F <= n)%nat → (n <= m)%nat → uval m I F = uval n I F * ten (m - n).
Proof.
  intros. unfold uval. replace (m - length F)%nat with ((n - length F) + (m - n))%nat by lia.
  replace m with (n + (m - n))%nat at 1 by lia. rewrite !ten_add. lia.
Qed.

(** The result of a digit computation at scale [n]. *)
Definition denotes (n : nat) (s : string) (z : Z) : Prop :=
  ∃ I F, s = usg I F ∧ udec I F ∧ (length F <= n)%nat ∧ uval n I F = z.

Lemma denotes_render n I F :
  I ≠ [] → Forall is_dig I → Forall is_dig F → length F = n →
  denotes n (render I F) (be_val I * ten n + be_val F).
Proof.
  intros HI HdI HdF Hn. destruct (uval_rtrim n I F) as [HV HL]; [lia|].
  exists I, (rtrim_zeros F). split_and!; [apply render_usg| |lia|].
  - split_and!; auto using rtrim_digits.
  - rewrite HV. unfold uval. rewrite Hn, Nat.sub_diag. unfold ten at 2. simpl. lia.
Qed.

(** One pass of a digit loop over two padded digit lists. *)
Definition zip_be (xs ys : list Z) : list (Z * Z) := zip_long (rev xs) (rev ys).

Lemma zip_be_spec xs ys :
  Forall is_dig xs → Forall is_dig ys →
  Forall dig_pair (zip_be xs ys) ∧ le_val (zip_be xs ys).*1 = be_val xs ∧
  le_val (zip_be xs ys).*2 = be_val ys ∧
  length (zip_be xs ys) = Nat.max (length xs) (length ys).
Proof.
  intros. unfold zip_be. destruct (zip_long_spec (rev xs) (rev ys)) as (E1 & E2 & E3).
  rewrite E1, E2, E3, !be_val_le, !length_rev. split_and!; [|done..].
  apply zip_long_digits; by apply Forall_rev.
Qed.

Lemma add_be xs ys c :
  Forall is_dig xs → Forall is_dig ys → 0 <= c <= 1 →
  let '(zs, c') := add_loop c (zip_be xs ys) in
  length zs = Nat.max (length xs) (length ys) ∧ Forall is_dig (rev zs) ∧ 0 <= c' <= 1 ∧
  be_val (rev zs) + c' * ten (Nat.max (length xs) (length ys)) = be_val xs + be_val ys + c.
Proof.
  intros Hx Hy Hc. destruct (zip_be_spec xs ys Hx Hy) as (Hd & E1 & E2 & E3).
  pose proof (add_loop_spec (zip_be xs ys) c Hd Hc) as H.
  destruct (add_loop c (zip_be xs ys)) as [zs c']. rewrite E1, E2, E3 in H.
  destruct H as (H1 & H2 & H3 & H4). rewrite be_val_le, rev_involutive.
  split_and!; [done|by apply Forall_rev|lia..].
Qed.

Lemma sub_be xs ys b :
  Forall is_dig xs → Forall is_dig ys → 0 <= b <= 1 →
  let '(zs, b') := sub_loop b (zip_be xs ys) in
  length zs = Nat.max (length xs) (length ys) ∧ Forall is_dig (rev zs) ∧ 0 <= b' <= 1 ∧
  be_val (rev zs) - b' * ten (Nat.max (length xs) (length ys)) = be_val xs - be_val ys - b.
Proof.
  intros Hx Hy Hc. destruct (zip_be_spec xs ys Hx Hy) as (Hd & E1 & E2 & E3).
  pose proof (sub_loop_spec (zip_be xs ys) b Hd Hc) as H.
  destruct (sub_loop b (zip_be xs ys)) as [zs c']. rewrite E1, E2, E3 in H.
  destruct H as (H1 & H2 & H3 & H4). rewrite be_val_le, rev_involutive.
  split_and!; [done|by apply Forall_rev|lia..].
Qed.

Lemma nonempty_length {A} (l : list A) : (0 < length l)%nat → l ≠ [].
Proof. by destruct l; simpl; [lia|]. Qed.

Lemma uval_pad n I F :
  (length F <= n)%nat → uval n I F = be_val I * ten n + be_val (pad_right n F).
Proof. intros. unfold uval. by rewrite be_val_pad. Qed.

Lemma add_core_spec I F J G :
  let n := Nat.max (length F) (length G) in
  udec I F → udec J G → denotes n (add_core I F J G) (uval n I F + uval n J G).
Proof.
  intros n (HI & HdI & HdF) (HJ & HdJ & HdG). unfold add_core. fold n.
  pose proof (add_be (pad_right n F) (pad_right n G) 0 (pad_digits _ _ HdF) (pad_digits _ _ HdG)
    ltac:(lia)) as Hf.
  unfold zip_be in Hf. rewrite !length_pad, Nat.max_id in Hf by lia.
  destruct (add_loop 0 _) as [fs c]. destruct Hf as (HfL & HfD & Hc & HfV).
  pose proof (add_be I J c HdI HdJ Hc) as Hi. unfold zip_be in Hi.
  destruct (add_loop c _) as [ws c']. destruct Hi as (HiL & HiD & Hc' & HiV).
  assert (0 < length I)%nat by (destruct I; simpl; [done|lia]).
  rewrite !uval_pad by lia.
  set (ws' := if 0 <? c' then ws ++ [c'] else ws).
  assert (Forall is_dig (rev ws') ∧ (0 < length ws')%nat ∧ be_val (rev ws') = be_val I + be_val J + c)
    as (HD & HL & HV).
  { unfold ws'. destruct (Z.ltb_spec 0 c').
    - rewrite rev_app_distr, length_app. simpl. rewrite length_rev, HiL. split_and!; [|lia..].
      constructor; [unfold is_dig; lia|done].
    - replace c' with 0 in * by lia. split_and!; [done|lia..]. }
  replace (_ + _) with (be_val (rev ws') * ten n + be_val (rev fs)) by (rewrite HV; lia).
  apply denotes_render; [|done|done|by rewrite length_rev].
  apply nonempty_length. by rewrite length_rev.
Qed.

Lemma sub_core_spec I F J G :
  let n := Nat.max (length F) (length G) in
  udec I F → udec J G → uval n J G <= uval n I F →
  denotes n (sub_core I F J G) (uval n I F - uval n J G).
Proof.
  intros n (HI & HdI & HdF) (HJ & HdJ & HdG) Hle. unfold sub_core. fold n.
  pose proof (sub_be (pad_right n F) (pad_right n G) 0 (pad_digits _ _ HdF) (pad_digits _ _ HdG)
    ltac:(lia)) as Hf.
  unfold zip_be in Hf. rewrite !length_pad, Nat.max_id in Hf by lia.
  destruct (sub_loop 0 _) as [fs c]. destruct Hf as (HfL & HfD & Hc & HfV).
  pose proof (sub_be I J c HdI HdJ Hc) as Hi. unfold zip_be in Hi.
  destruct (sub_loop c _) as [ws c']. destruct Hi as (HiL & HiD & Hc' & HiV).
  rewrite !uval_pad in * by lia.
  pose proof (be_val_bound _ HfD) as Hfb. rewrite length_rev, HfL in Hfb.
  pose proof (be_val_bound _ HiD) as Hib. rewrite length_rev, HiL in Hib.
  assert (0 <= be_val I - be_val J - c) as Hge.
  { apply Z.lt_succ_r. apply (Z.mul_lt_mono_pos_r (ten n)); [apply ten_pos|]. nia. }
  assert (c' = 0) as -> by nia.
  set (ri := match drop_zeros (rev ws) with [] => [0] | ds => ds end).
  assert (ri ≠ [] ∧ Forall is_dig ri ∧ be_val ri = be_val (rev ws)) as (HN & HD & HV).
  { pose proof (drop_zeros_val (rev ws)) as HV. pose proof (drop_zeros_digits _ HiD) as HD.
    unfold ri. destruct (drop_zeros (rev ws)); [|done]. simpl in HV.
    split_and!; [done| |simpl; lia]. constructor; [unfold is_dig; lia|constructor]. }
  replace (_ - _) with (be_val ri * ten n + be_val (rev fs)) by (rewrite HV; lia).
  apply denotes_render; [done..|by rewrite length_rev].
Qed.

(** ** Rounding to binary64 *)

Section Rounding.
Local Open Scope Q_scope.

Definition pow2 (k : Z) : Q := Qpower (inject_Z 2) k.

Lemma pow2_pos k : 0 < pow2 k.
Proof. apply Qpower_0_lt. reflexivity. Qed.
Lemma pow2_add a b : pow2 (a + b) == pow2 a * pow2 b.
Proof. apply Qpower_plus. discriminate. Qed.
Lemma pow2_Z k : (0 <= k)%Z → inject_Z (2 ^ k) == pow2 k.
Proof. intros. unfold pow2. by rewrite Zpower_Qpower. Qed.
Lemma pow2_le a b : (a <= b)%Z → pow2 a <= pow2 b.
Proof. intros. apply Qpower_le_compat_l; [done|]. discriminate. Qed.

(** The two integers [n * 2^max(s,0)] and [d * 2^max(-s,0)] have ratio [n/d * 2^s]. *)
Definition scaled (n d s : Z) : Z * Z := (n * 2 ^ Z.max s 0, d * 2 ^ Z.max (- s) 0)%Z.

Lemma scaled_spec n d s :
  let '(num, den) := scaled n d s in
  ∃ k : Q, 0 < k ∧ inject_Z num == inject_Z n * pow2 s * k ∧ inject_Z den == inject_Z d * k.
Proof.
  simpl. exists (pow2 (Z.max (- s) 0)). split_and!; [apply pow2_pos| |].
  - rewrite inject_Z_mult, pow2_Z, <- Qmult_assoc, <- pow2_add by lia.
    replace (s + Z.max (- s) 0)%Z with (Z.max s 0) by lia. reflexivity.
  - rewrite inject_Z_mult, pow2_Z by lia. reflexivity.
Qed.

Lemma scaled_lt n d s c :
  (0 < d)%Z →
  let '(num, den) := scaled n d s in
  (num < c * den)%Z ↔ inject_Z n * pow2 s < inject_Z c * inject_Z d.
Proof.
  intros Hd. pose proof (scaled_spec n d s) as H. destruct (scaled n d s) as [num den].
  destruct H as (k & Hk & En & Ed). rewrite Zlt_Qlt, inject_Z_mult, En, Ed.
  rewrite Qmult_assoc. split; [apply Qmult_lt_r; done|by apply Qmult_lt_r].
Qed.

(** The exponent [round64] chooses. *)
Definition exp64 (n d : Z) : Z :=
  let s := (52 - (Z.log2 n - Z.log2 d))%Z in
  let '(num, den) := scaled n d s in
  if (num <? 2 ^ 52 * den)%Z then (s + 1)%Z else s.

Lemma round64_exp n d :
  n ≠ 0%Z →
  round64 n d = (let '(num, den) := scaled n d (exp64 n d) in (round_even num den, exp64 n d)).
Proof. intros Hn. unfold round64, exp64. by destruct (Z.eqb_spec n 0). Qed.

Definition normal_exp (n d s : Z) : Prop :=
  pow2 52 * inject_Z d <= inject_Z n * pow2 s ∧ inject_Z n * pow2 s < pow2 53 * inject_Z d.

Lemma log2_bounds n : (0 < n)%Z → pow2 (Z.log2 n) <= inject_Z n ∧ inject_Z n < pow2 (Z.log2 n + 1).
Proof.
  intros Hn. pose proof (Z.log2_spec n Hn) as [H1 H2]. pose proof (Z.log2_nonneg n).
  rewrite <- !pow2_Z by lia. by rewrite <- Zle_Qle, <- Zlt_Qlt.
Qed.

Lemma exp64_normal n d : (0 < n)%Z → (0 < d)%Z → normal_exp n d (exp64 n d).
Proof.
  intros Hn Hd. unfold exp64. set (s := (52 - (Z.log2 n - Z.log2 d))%Z).
  destruct (log2_bounds n Hn) as [N1 N2]. destruct (log2_bounds d Hd) as [D1 D2].
  pose proof (scaled_lt n d s (2 ^ 52) Hd) as Hs.
  destruct (scaled n d s) as [num den]. rewrite (pow2_Z 52) in Hs by lia.
  assert (inject_Z n * pow2 s < pow2 53 * inject_Z d) as Hup.
  { apply Qlt_le_trans with (pow2 (Z.log2 n + 1) * pow2 s).
    - apply Qmult_lt_r; [apply pow2_pos|done].
    - rewrite <- pow2_add. replace (Z.log2 n + 1 + s)%Z with (53 + Z.log2 d)%Z by lia.
      rewrite pow2_add. apply Qmult_le_l; [apply pow2_pos|done]. }
  assert (pow2 51 * inject_Z d <= inject_Z n * pow2 s) as Hlo.
  { apply Qle_trans with (pow2 51 * pow2 (Z.log2 d + 1)).
    - apply Qmult_le_l; [apply pow2_pos|by apply Qlt_le_weak].
    - rewrite <- pow2_add. replace (51 + (Z.log2 d + 1))%Z with (Z.log2 n + s)%Z by lia.
      rewrite pow2_add. apply Qmult_le_r; [apply pow2_pos|done]. }
  assert (pow2 52 * inject_Z d == 2 * (pow2 51 * inject_Z d)) as E52 by (unfold pow2; simpl; ring).
  assert (pow2 53 * inject_Z d == 2 * (pow2 52 * inject_Z d)) as E53 by (unfold pow2; simpl; ring).
  assert (inject_Z n * pow2 (s + 1) == 2 * (inject_Z n * pow2 s)) as Es.
  { rewrite pow2_add. change (pow2 1) with 2. ring. }
  destruct (Z.ltb_spec num (2 ^ 52 * den)) as [H|H]; unfold normal_exp.
  - apply Hs in H. rewrite Es. split; lra.
  - split; [|done]. apply Qnot_lt_le. intros Hc. apply Hs in Hc. lia.
Qed.

Lemma normal_exp_le n d n' d' s s' :
  (0 < n')%Z → (0 < d)%Z → (0 < d')%Z → (n * d' = n' * d)%Z →
  normal_exp n d s → normal_exp n' d' s' → (s' <= s)%Z.
Proof.
  intros Hn' Hd Hd' E [H1 _] [_ H2]. destruct (Z.le_gt_cases s' s) as [|Hlt]; [done|exfalso].
  apply (f_equal inject_Z) in E. rewrite !inject_Z_mult in E.
  rewrite Zlt_Qlt in Hn', Hd, Hd'.
  assert (pow2 s * 2 <= pow2 s') as Hp.
  { change 2 with (pow2 1). rewrite <- pow2_add. apply pow2_le. lia. }
  assert (pow2 53 == 2 * pow2 52) as E53 by reflexivity.
  set (P := pow2 s) in *. set (P' := pow2 s') in *. rewrite E53 in H2.
  set (N := inject_Z n) in *. set (N' := inject_Z n') in *.
  set (X := inject_Z d) in *. set (X' := inject_Z d') in *.
  assert (N' * (P * 2) <= N' * P') as A1 by (apply Qmult_le_l; done).
  assert (pow2 52 * X * X' <= N * P * X') as A2 by (apply Qmult_le_r; done).
  assert (N' * P' * X < 2 * pow2 52 * X' * X) as A3 by (apply Qmult_lt_r; done).
  assert (N' * (P * 2) * X <= N' * P' * X) as A4 by (apply Qmult_le_r; done).
  assert (N * P * X' == N' * P * X) as A5.
  { transitivity (N * X' * P); [ring|]. rewrite E. ring. }
  assert (N' * (P * 2) * X == 2 * (N' * P * X)) as A6 by ring.
  assert (2 * pow2 52 * X' * X == 2 * (pow2 52 * X * X')) as A7 by ring.
  lra.
Qed.

Lemma round_even_err n d :
  (0 < d → - d <= 2 * (round_even n d * d - n) <= d)%Z.
Proof.
  intros Hd. unfold round_even.
  pose proof (Z.div_mod n d ltac:(lia)) as E. pose proof (Z.mod_pos_bound n d Hd).
  destruct (Z.ltb_spec (2 * (n `mod` d)) d); [nia|].
  destruct (Z.ltb_spec d (2 * (n `mod` d))); [nia|]. destruct (Z.even _); nia.
Qed.

Lemma round_even_ratio n d n' d' :
  (0 < d → 0 < d' → n * d' = n' * d → round_even n d = round_even n' d')%Z.
Proof.
  intros Hd Hd' E. unfold round_even.
  assert (n / d = n' / d')%Z as Eq.
  { rewrite <- (Z.div_mul_cancel_r n d d'), E, (Z.mul_comm d d'), Z.div_mul_cancel_r by lia. done. }
  assert (n `mod` d * d' = n' `mod` d' * d)%Z as Er by (rewrite !Z.mod_eq, Eq by lia; lia).
  rewrite <- Eq. set (r := (n `mod` d)%Z) in *. set (r' := (n' `mod` d')%Z) in *.
  destruct (Z.ltb_spec (2 * r) d), (Z.ltb_spec (2 * r') d'); [done|nia|nia|].
  destruct (Z.ltb_spec d (2 * r)), (Z.ltb_spec d' (2 * r')); [done|nia|nia|done].
Qed.

(** The number a mantissa and exponent stand for. *)
Definition dq (x : Z * Z) : Q := inject_Z x.1 * pow2 (- x.2).

Lemma double_lt_spec x y : double_lt x y = true ↔ dq x < dq y.
Proof.
  destruct x as [mx sx], y as [my sy]. unfold double_lt, dq. simpl.
  rewrite Z.ltb_lt, Zlt_Qlt, !inject_Z_mult, !pow2_Z by lia.
  set (S := Z.max sx sy). rewrite <- (Qmult_lt_r _ _ (pow2 (- S))) by apply pow2_pos.
  rewrite <- !Qmult_assoc, <- !pow2_add.
  replace (S - sx + - S)%Z with (- sx)%Z by lia. by replace (S - sy + - S)%Z with (- sy)%Z by lia.
Qed.

Lemma round64_err n d :
  (0 <= n)%Z → (0 < d)%Z →
  let v := dq (round64 n d) * inject_Z d in
  (pow2 53 - 1) * inject_Z n <= pow2 53 * v ∧ pow2 53 * v <= (pow2 53 + 1) * inject_Z n.
Proof.
  intros Hn Hd. destruct (Z.eq_dec n 0%Z) as [->|Hn0].
  { unfold dq. simpl. change (inject_Z 0) with 0. split; lra. }
  rewrite round64_exp by done. destruct (exp64_normal n d ltac:(lia) Hd) as [Hs _].
  set (s := exp64 n d) in *.
  pose proof (scaled_spec n d s) as Hk. destruct (scaled n d s) as [num den] eqn:Esc.
  destruct Hk as (k & Hkp & En & Ed).
  assert (0 < den)%Z as Hden.
  { rewrite Zlt_Qlt, Ed. change (inject_Z 0) with 0. rewrite Zlt_Qlt in Hd.
    by apply Qmult_lt_0_compat. }
  pose proof (round_even_err num den Hden) as [E1 E2].
  set (m := round_even num den) in *. unfold dq. cbn [fst snd].
  rewrite Zle_Qle, inject_Z_mult in E1. rewrite Zle_Qle, inject_Z_mult in E2.
  unfold Z.sub in E1, E2. rewrite inject_Z_plus, !inject_Z_opp, inject_Z_mult in E1, E2.
  rewrite ?inject_Z_opp, En, Ed in E1. rewrite En, Ed in E2. change (inject_Z 2) with 2 in E1, E2.
  set (M := inject_Z m) in *. set (N := inject_Z n) in *. set (X := inject_Z d) in *.
  set (P := pow2 s) in *.
  (* divide by k, then by the scale P *)
  assert (- X <= 2 * (M * X - N * P)) as F1.
  { apply (Qmult_le_r _ _ k Hkp). lra. }
  assert (2 * (M * X - N * P) <= X) as F2.
  { apply (Qmult_le_r _ _ k Hkp). lra. }
  assert (0 < pow2 (- s)) as Hi by apply pow2_pos.
  assert (P * pow2 (- s) == 1) as EP.
  { unfold P. rewrite <- pow2_add. by replace (s + - s)%Z with 0%Z by lia. }
  set (R := pow2 (- s)) in *.
  assert (N * P * R == N) as EN by (rewrite <- Qmult_assoc, EP; ring).
  assert (- (X * R) <= 2 * (M * R * X - N)) as G1.
  { rewrite <- (Qmult_le_r _ _ R Hi) in F1. lra. }
  assert (2 * (M * R * X - N) <= X * R) as G2.
  { rewrite <- (Qmult_le_r _ _ R Hi) in F2. lra. }
  assert (pow2 52 * (X * R) <= N) as G3.
  { rewrite <- (Qmult_le_r _ _ R Hi) in Hs. lra. }
  change (pow2 53) with (inject_Z 9007199254740992). change (pow2 52) with (inject_Z 4503599627370496) in G3.
  unfold inject_Z in *. set (Y := M * R * X) in *. split; lra.
Qed.

Lemma round64_ratio n d n' d' :
  (0 <= n → 0 <= n' → 0 < d → 0 < d' → n * d' = n' * d → round64 n d = round64 n' d')%Z.
Proof.
  intros Hn Hn' Hd Hd' E. destruct (Z.eq_dec n 0%Z) as [->|Hn0].
  { assert (n' = 0)%Z as -> by nia. done. }
  assert (n' ≠ 0)%Z by nia. rewrite !round64_exp by done.
  assert (exp64 n d = exp64 n' d') as Es.
  { pose proof (exp64_normal n d ltac:(lia) Hd). pose proof (exp64_normal n' d' ltac:(lia) Hd').
    apply Z.le_antisymm; [apply (normal_exp_le n' d' n d)|apply (normal_exp_le n d n' d')];
      (done || lia). }
  rewrite <- Es. unfold scaled. f_equal.
  assert (0 < 2 ^ Z.max (- exp64 n d) 0)%Z by (apply Z.pow_pos_nonneg; lia).
  apply round_even_ratio; nia.
Qed.

(** A comparison of doubles agrees with the comparison of the decimals when the
    two values, in units of the last decimal place, sum to less than [2^53]. *)
Lemma double_lt_exact n d n' d' K X Y :
  (0 <= n → 0 <= n' → 0 < d → 0 < d' → 0 < K → X * d = n * K → Y * d' = n' * K → X + Y < 2 ^ 53 →
   double_lt (round64 n d) (round64 n' d') = (X <? Y))%Z.
Proof.
  intros Hn Hn' Hd Hd' HK EX EY HS.
  assert (∀ n d X, (0 <= n)%Z → (0 < d)%Z → (X * d = n * K)%Z →
    (pow2 53 - 1) * inject_Z X <= pow2 53 * (dq (round64 n d) * inject_Z K) ∧
    pow2 53 * (dq (round64 n d) * inject_Z K) <= (pow2 53 + 1) * inject_Z X) as Herr.
  { clear - HK. intros n d X Hn Hd E. destruct (round64_err n d Hn Hd) as [H1 H2].
    set (v := dq _) in *. apply (f_equal inject_Z) in E. rewrite !inject_Z_mult in E.
    rewrite Zlt_Qlt in Hd, HK. change (inject_Z 0) with 0 in *.
    rewrite <- (Qmult_le_r _ _ (inject_Z K) HK) in H1.
    rewrite <- (Qmult_le_r _ _ (inject_Z K) HK) in H2.
    split; apply (Qmult_le_r _ _ (inject_Z d) Hd).
    - rewrite <- Qmult_assoc, E. lra.
    - rewrite <- (Qmult_assoc _ (inject_Z X)), E. lra. }
  destruct (Herr n d X Hn Hd EX) as [A1 A2]. destruct (Herr n' d' Y Hn' Hd' EY) as [B1 B2].
  rewrite Zlt_Qlt in HS. rewrite inject_Z_plus in HS.
  change (inject_Z (2 ^ 53)) with (inject_Z 9007199254740992) in HS.
  change (pow2 53) with (inject_Z 9007199254740992) in *.
  apply eq_true_iff_eq. rewrite double_lt_spec, Z.ltb_lt.
  pose proof HK as HKq. rewrite Zlt_Qlt in HKq. change (inject_Z 0) with 0 in HKq.
  rewrite <- (Qmult_lt_r _ _ (inject_Z K) HKq).
  destruct (Z.lt_trichotomy X Y) as [H|[->|H]].
  - split; [done|intros _]. apply Z.le_succ_l in H. rewrite Zle_Qle in H.
    unfold Z.succ in H. rewrite inject_Z_plus in H. unfold inject_Z in *. lra.
  - rewrite (round64_ratio n d n' d') by nia. split; [intros Hc; lra|lia].
  - split; [intros Hc; exfalso|lia]. apply Z.le_succ_l in H. rewrite Zle_Qle in H.
    unfold Z.succ in H. rewrite inject_Z_plus in H. unfold inject_Z in *. lra.
Qed.
End Rounding.

(** ** Decimal strings and their values *)

(** [repr n s z]: the string [s] is a decimal with at most [n] fractional digits
    and value [z / 10^n]; a minus sign only in front of a non-zero value. *)
Inductive repr (n : nat) : string → Z → Prop :=
| repr_pos I F : udec I F → (length F <= n)%nat → repr n (usg I F) (uval n I F)
| repr_neg I F : udec I F → (length F <= n)%nat → 0 < uval n I F →
    repr n (String minus (usg I F)) (- uval n I F).

Lemma uval_nonneg n I F : udec I F → 0 <= uval n I F.
Proof.
  intros (_ & HI & HF). unfold uval. pose proof (be_val_bound _ HI). pose proof (be_val_bound _ HF).
  pose proof (ten_pos n). pose proof (ten_pos (n - length F)). nia.
Qed.

Lemma uval_digits n I F : (length F <= n)%nat → uval n I F * ten (length F) = be_val (I ++ F) * ten n.
Proof.
  intros H. unfold uval. rewrite be_val_app, (ten_split (length F) n H). lia.
Qed.

Lemma denotes_scale n m s z : (n <= m)%nat → denotes n s z → denotes m s (z * ten (m - n)).
Proof.
  intros Hnm (I & F & -> & HU & HL & <-). exists I, F. split_and!; [done..|lia|].
  by apply uval_scale.
Qed.

Lemma denotes_repr n s z : denotes n s z → repr n s z.
Proof. intros (I & F & -> & HU & HL & <-). by constructor. Qed.
Lemma denotes_repr_neg n s z : denotes n s z → 0 < z → repr n (String minus s) (- z).
Proof. intros (I & F & -> & HU & HL & <-) Hz. by constructor. Qed.

Section Unsigned.
Context (n : nat) (I F J G : list Z).
Context (HF : udec I F) (HG : udec J G) (LF : (length F <= n)%nat) (LG : (length G <= n)%nat).
Let X := uval n I F.
Let Y := uval n J G.
Let m := Nat.max (length F) (length G).

Lemma uval_common : X = uval m I F * ten (n - m) ∧ Y = uval m J G * ten (n - m).
Proof. unfold X, Y. split; apply uval_scale; lia. Qed.

Lemma add_unsigned f :
  ∃ s, arith (S f) false (usg I F) (usg J G) = Some s ∧ denotes n s (X + Y).
Proof.
  destruct uval_common as [EX EY]. eexists. split.
  - cbn [arith]. rewrite !split_usg by done. cbn. reflexivity.
  - destruct HF as (? & ? & ?), HG as (? & ? & ?). rewrite !digits_string by done.
    rewrite EX, EY, <- Z.mul_add_distr_r. apply denotes_scale; [lia|].
    by apply add_core_spec.
Qed.

Lemma tonumber_lt :
  X + Y < 2 ^ 53 →
  double_lt (round64 (be_val (I ++ F)) (ten (length F))) (round64 (be_val (J ++ G)) (ten (length G)))
  = (X <? Y).
Proof.
  intros HS. destruct HF as (? & ? & ?), HG as (? & ? & ?).
  apply (double_lt_exact _ _ _ _ (ten n)); try apply ten_pos; try done.
  - apply be_val_bound. by apply Forall_app.
  - apply be_val_bound. by apply Forall_app.
  - by apply uval_digits.
  - by apply uval_digits.
Qed.

(** One unswapped subtraction. *)
Lemma sub_core_unsigned :
  Y <= X → denotes n (sub_core I F J G) (X - Y).
Proof.
  intros Hle. destruct uval_common as [EX EY].
  rewrite EX, EY, <- Z.mul_sub_distr_r in *. apply denotes_scale; [lia|].
  apply sub_core_spec; [done..|]. pose proof (ten_pos (n - m)). fold m. nia.
Qed.
End Unsigned.

Lemma sub_unsigned n I F J G f :
  udec I F → udec J G → (length F <= n)%nat → (length G <= n)%nat →
  uval n I F + uval n J G < 2 ^ 53 →
  ∃ s, arith (S (S f)) true (usg I F) (usg J G) = Some s ∧ repr n s (uval n I F - uval n J G).
Proof.
  intros HF HG LF LG HS. remember (S f) as g eqn:Eg. cbn [arith].
  rewrite !split_usg, !tonumber_usg by done. cbn [andb].
  rewrite (tonumber_lt n) by done. destruct (Z.ltb_spec (uval n I F) (uval n J G)) as [Hlt|Hge].
  - subst g. cbn [arith]. rewrite !split_usg, !tonumber_usg by done. cbn [andb].
    rewrite (tonumber_lt n) by (done || lia).
    destruct (Z.ltb_spec (uval n J G) (uval n I F)); [lia|].
    destruct HF as (? & ? & ?), HG as (? & ? & ?). rewrite !digits_string by done.
    eexists; split; [reflexivity|].
    replace (uval n I F - uval n J G) with (- (uval n J G - uval n I F)) by lia.
    apply denotes_repr_neg; [|lia]. by apply sub_core_unsigned.
  - destruct HF as (? & ? & ?), HG as (? & ? & ?). rewrite !digits_string by done.
    eexists; split; [reflexivity|]. apply denotes_repr. by apply sub_core_unsigned.
Qed.

(** When the digits or the comparison of doubles give the exact result. *)
Definition same_sign (x y : Z) : Prop := (x < 0 ∧ y < 0) ∨ (0 <= x ∧ 0 <= y).
Definition opposite_sign (x y : Z) : Prop := (x < 0 ∧ 0 <= y) ∨ (0 <= x ∧ y < 0).
Definition within53 (x y : Z) : Prop := Z.abs x + Z.abs y < 2 ^ 53.

Section Signs.
Context (I F J G : list Z) (HF : udec I F) (HG : udec J G) (g : nat).
Abbreviation a := (usg I F).
Abbreviation b := (usg J G).

Lemma arith_neg_neg (is_sub : bool) :
  arith (S g) is_sub (String minus a) (String minus b) =
  if is_sub then arith g true b a else String minus <$> arith g false a b.
Proof. cbn [arith]. rewrite !split_minus_usg by done. by destruct is_sub. Qed.
Lemma arith_neg_pos (is_sub : bool) :
  arith (S g) is_sub (String minus a) b =
  if is_sub then String minus <$> arith g false a b else arith g true b a.
Proof. cbn [arith]. rewrite split_minus_usg, split_usg by done. by destruct is_sub. Qed.
Lemma arith_pos_neg (is_sub : bool) :
  arith (S g) is_sub a (String minus b) = arith g (negb is_sub) a b.
Proof. cbn [arith]. rewrite split_minus_usg, split_usg by done. by destruct is_sub. Qed.
End Signs.

Lemma arith_exact n f (is_sub : bool) a b x y :
  repr n a x → repr n b y →
  within53 x y ∨ (if is_sub then opposite_sign x y else same_sign x y) →
  ∃ s, arith (S (S (S f))) is_sub a b = Some s ∧ repr n s (if is_sub then x - y else x + y).
Proof.
  unfold within53, opposite_sign, same_sign. intros Ha Hb HE.
  destruct Ha as [I F HF LF|I F HF LF PX], Hb as [J G HG LG|J G HG LG PY];
    pose proof (uval_nonneg n _ _ HF); pose proof (uval_nonneg n _ _ HG);
    rewrite ?arith_neg_neg, ?arith_neg_pos, ?arith_pos_neg by done; destruct is_sub; cbn [negb].
  - apply sub_unsigned; (done || lia).
  - destruct (add_unsigned n I F J G HF HG LF LG (S (S f))) as (s & E & D).
    exists s. auto using denotes_repr.
  - destruct (add_unsigned n I F J G HF HG LF LG (S f)) as (s & E & D).
    exists s. split; [done|]. rewrite Z.sub_opp_r. by apply denotes_repr.
  - rewrite Z.add_opp_r. apply sub_unsigned; (done || lia).
  - destruct (add_unsigned n I F J G HF HG LF LG (S f)) as (s & E & D). rewrite E.
    eexists. split; [reflexivity|]. replace (- _ - _) with (- (uval n I F + uval n J G)) by lia.
    apply denotes_repr_neg; [done|lia].
  - rewrite Z.add_comm, Z.add_opp_r. apply sub_unsigned; (done || lia).
  - replace (- _ - - _) with (uval n J G - uval n I F) by lia.
    apply sub_unsigned; (done || lia).
  - destruct (add_unsigned n I F J G HF HG LF LG (S f)) as (s & E & D). rewrite E.
    eexists. split; [reflexivity|]. replace (- _ + - _) with (- (uval n I F + uval n J G)) by lia.
    apply denotes_repr_neg; [done|lia].
Qed.

Lemma arith_fuel_enough a b n x y :
  repr n a x → repr n b y → ∃ f, arith_fuel a b = S (S (S f)).
Proof.
  intros Ha _. assert (0 < String.length a)%nat.
  { destruct Ha as [I F (HI & _) _|]; simpl; [|lia]. unfold usg.
    destruct I; [done|]. destruct F; simpl; rewrite ?string_app_cons; simpl; lia. }
  unfold arith_fuel. exists (String.length a + String.length b - 1)%nat. lia.
Qed.

Lemma add_decimal_repr n a b x y :
  repr n a x → repr n b y → within53 x y ∨ same_sign x y →
  ∃ s, add_decimal a b = Some s ∧ repr n s (x + y).
Proof.
  intros Ha Hb HE. unfold add_decimal. destruct (arith_fuel_enough _ _ _ _ _ Ha Hb) as [f ->].
  by apply (arith_exact n f false).
Qed.
Lemma sub_decimal_repr n a b x y :
  repr n a x → repr n b y → within53 x y ∨ opposite_sign x y →
  ∃ s, sub_decimal a b = Some s ∧ repr n s (x - y).
Proof.
  intros Ha Hb HE. unfold sub_decimal. destruct (arith_fuel_enough _ _ _ _ _ Ha Hb) as [f ->].
  by apply (arith_exact n f true).
Qed.

Lemma repr_sign n s z : repr n s z → startsWithMinus s = (z <? 0).
Proof.
  intros [I F HU _|I F HU _ HP]; pose proof (uval_nonneg n _ _ HU).
  - rewrite usg_no_minus by done. destruct (Z.ltb_spec (uval n I F) 0); [lia|done].
  - simpl. destruct (Z.ltb_spec (- uval n I F) 0); [done|lia].
Qed.

(** ** [isPositive] *)

(** A character other than [0] and the point. *)
Definition significant (c : ascii) : bool := negb (bool_decide (c = "0"%char)) && negb (bool_decide (c = dot)).
Definition nz (l : list ascii) : bool := existsb significant l.
Definition chars : string → list ascii := String.list_ascii_of_string.

Lemma nz_app l k : nz (l ++ k) = nz l || nz k.
Proof. apply existsb_app. Qed.
Lemma nz_rev l : nz (rev l) = nz l.
Proof.
  induction l as [|c l IH]; simpl; [done|]. rewrite nz_app, IH. simpl.
  rewrite orb_false_r. apply orb_comm.
Qed.
Lemma chars_app s t : chars (s +:+ t) = chars s ++ chars t.
Proof. induction s as [|c s IH]; [done|]. rewrite string_app_cons. simpl. by rewrite IH. Qed.

Lemma significant_digit d : is_dig d → significant (digit_char d) = negb (d =? 0).
Proof. intros H. digit_cases H; reflexivity. Qed.
Lemma nz_digits ds : Forall is_dig ds → nz (chars (string_of ds)) = negb (be_val ds =? 0).
Proof.
  unfold nz, chars. induction 1 as [|d ds Hd Hds IH]; simpl; [done|].
  rewrite significant_digit, IH by done. pose proof (be_val_bound _ Hds). pose proof (ten_pos (length ds)).
  unfold is_dig in Hd.
  destruct (Z.eqb_spec d 0), (Z.eqb_spec (be_val ds) 0),
    (Z.eqb_spec (d * ten (length ds) + be_val ds) 0); simpl; (done || nia).
Qed.
Lemma nz_usg n I F : udec I F → (length F <= n)%nat → nz (chars (usg I F)) = negb (uval n I F =? 0).
Proof.
  intros (_ & HI & HF) HL. pose proof (be_val_bound _ HI). pose proof (be_val_bound _ HF).
  pose proof (ten_pos n). pose proof (ten_pos (n - length F)).
  assert (nz (chars (usg I F)) = negb (be_val I =? 0) || negb (be_val F =? 0)) as ->.
  { unfold usg. destruct F as [|f F]; [simpl; by rewrite nz_digits, orb_false_r|].
    rewrite chars_app, nz_app, nz_digits by done. f_equal. by apply (nz_digits (f :: F)). }
  unfold uval. destruct (Z.eqb_spec (be_val I) 0), (Z.eqb_spec (be_val F) 0),
    (Z.eqb_spec (be_val I * ten n + be_val F * ten (n - length F)) 0); simpl; (done || nia).
Qed.

(** Dropping the zeros (and one point) at the end, on characters. *)
Fixpoint drop0 (l : list ascii) : list ascii :=
  match l with
  | c :: l' => if bool_decide (c = "0"%char) then drop0 l' else l
  | [] => []
  end.
Lemma drop0_nz l : nz (drop0 l) = nz l.
Proof.
  induction l as [|c l IH]; simpl; [done|]. case_bool_decide as E; [|done].
  rewrite IH. subst c. reflexivity.
Qed.
Lemma drop0_length l : (length (drop0 l) <= length l)%nat.
Proof. induction l; simpl; [done|]. case_bool_decide; simpl; lia. Qed.

Lemma strip_trailing_chars s :
  strip_trailing s = s ∨
  ∃ l, chars (strip_trailing s) = rev l ∧
    (drop0 (rev (chars s)) = l ∨ drop0 (rev (chars s)) = dot :: l).
Proof.
  unfold strip_trailing. change (fix zeros l := match l with
    | [] => [] | c :: l' => if bool_decide (c = "0"%char) then zeros l' else l end) with drop0.
  fold (chars s). case_bool_decide; [by left|right].
  unfold chars at 1. rewrite String.list_ascii_of_string_of_list_ascii.
  eexists; split; [reflexivity|].
  destruct (drop0 (rev (chars s))) as [|c l]; [by left|]. case_bool_decide; [right|left]; congruence.
Qed.

Lemma strip_trailing_nz s : nz (chars (strip_trailing s)) = nz (chars s).
Proof.
  destruct (strip_trailing_chars s) as [->|(l & -> & H)]; [done|].
  rewrite nz_rev, <- (nz_rev (chars s)), <- (drop0_nz (rev (chars s))).
  by destruct H as [-> | ->].
Qed.
Lemma strip_leading_chars s : chars (strip_leading s) = drop0 (chars s).
Proof. induction s as [|c s IH]; simpl; [done|]. by case_bool_decide. Qed.

Lemma nz_positive s :
  nz (chars s) = true → bool_decide (s = "") = false ∧ bool_decide (s = ".") = false.
Proof. intros H. split; apply bool_decide_false; intros ->; discriminate. Qed.

Lemma strip_trailing_eq s :
  strip_trailing s =
    if bool_decide (length (drop0 (rev (chars s))) = length (rev (chars s))) then s
    else String.string_of_list_ascii (rev
      (match drop0 (rev (chars s)) with
       | c :: l => if bool_decide (c = dot) then l else c :: l
       | [] => []
       end)).
Proof.
  unfold strip_trailing. change (fix zeros l := match l with
    | [] => [] | c :: l' => if bool_decide (c = "0"%char) then zeros l' else l end) with drop0.
  fold (chars s). by destruct (drop0 (rev (chars s))).
Qed.

Lemma drop0_app l k : drop0 l = [] → drop0 (l ++ k) = drop0 k.
Proof. induction l as [|c l IH]; simpl; [done|]. by case_bool_decide; [auto|]. Qed.

Lemma digits_drop0 ds : Forall is_dig ds → be_val ds = 0 → drop0 (chars (string_of ds)) = [] ∧ drop0 (rev (chars (string_of ds))) = [].
Proof.
  intros Hd Hz. assert (nz (chars (string_of ds)) = false) as Hn by by rewrite nz_digits, Hz.
  assert (∀ l, nz l = false → Forall (λ c, c ≠ dot) l → drop0 l = []) as Hall.
  { clear. induction l as [|c l IH]; simpl; [done|]. intros [Hc Hl]%orb_false_iff HF.
    inversion HF as [|?? Hne HF']; subst. unfold significant in Hc.
    rewrite (bool_decide_false _ Hne) in Hc. case_bool_decide; [auto|done]. }
  assert (Forall (λ c, c ≠ dot) (chars (string_of ds))).
  { clear - Hd. induction Hd as [|d ds Hd _ IH]; simpl; constructor; [|done].
    digit_cases Hd; discriminate. }
  split; apply Hall; rewrite ?nz_rev; [done..|]. by apply Forall_rev.
Qed.

Lemma zero_normalizes n I F :
  udec I F → (length F <= n)%nat → uval n I F = 0 → strip_leading (strip_trailing (usg I F)) = "".
Proof.
  intros (HI & HdI & HdF) HL HZ. pose proof (be_val_bound _ HdI). pose proof (be_val_bound _ HdF).
  pose proof (ten_pos n). pose proof (ten_pos (n - length F)). unfold uval in HZ.
  assert (be_val I = 0 ∧ be_val F = 0) as [ZI ZF] by nia.
  destruct (digits_drop0 I HdI ZI) as [I1 I2]. destruct (digits_drop0 F HdF ZF) as [F1 F2].
  enough (chars (strip_leading (strip_trailing (usg I F))) = []) as E by (by destruct (strip_leading _)).
  rewrite strip_leading_chars, strip_trailing_eq.
  assert (0 < length (chars (string_of I)))%nat by (destruct I; [done|simpl; lia]).
  unfold usg. destruct F as [|f F].
  - rewrite I2. rewrite bool_decide_false by (rewrite length_rev; simpl; lia). done.
  - assert (0 < length (chars (string_of (f :: F))))%nat by (simpl; lia).
    rewrite chars_app. change (chars (String dot ?s)) with (dot :: chars s).
    rewrite rev_app_distr. cbn [rev]. rewrite <- app_assoc, drop0_app by done.
    cbn [app drop0]. rewrite (bool_decide_false (dot = "0"%char)) by done.
    rewrite bool_decide_false by (cbn [length]; rewrite !length_app, !length_rev; cbn [length]; rewrite ?length_rev; lia).
    rewrite bool_decide_true by done. unfold chars at 1.
    by rewrite String.list_ascii_of_string_of_list_ascii, rev_involutive.
Qed.

Lemma isPositive_repr n s z : repr n s z → isPositive s = (0 <? z).
Proof.
  intros Hr. unfold isPositive. rewrite (repr_sign _ _ _ Hr).
  destruct Hr as [I F HU HL|I F HU HL HP]; pose proof (uval_nonneg n _ _ HU).
  - destruct (Z.ltb_spec (uval n I F) 0); [lia|].
    destruct (Z.ltb_spec 0 (uval n I F)).
    + assert (nz (chars (strip_leading (strip_trailing (usg I F)))) = true) as Hn.
      { rewrite strip_leading_chars, drop0_nz, strip_trailing_nz, (nz_usg n) by done.
        destruct (Z.eqb_spec (uval n I F) 0); [lia|done]. }
      by destruct (nz_positive _ Hn) as [-> ->].
    + rewrite (zero_normalizes n) by (done || lia). done.
  - destruct (Z.ltb_spec (- uval n I F) 0), (Z.ltb_spec 0 (- uval n I F)); (done || lia).
Qed.

(** ** Properties *)

(** Addition of decimal strings in the balance script is exact.  For two
    decimal strings with at most [n] fractional digits and values [x] and [y] in
    units of [10^-n], [add_decimal] always returns a string, and that string
    denotes [x + y], whenever the signs agree (any number of digits) or the two
    magnitudes sum to less than [2^53] units; the result has no negative zero. *)
Theorem add_decimal_exact n a b x y :
  repr n a x → repr n b y → within53 x y ∨ same_sign x y →
  ∃ s, add_decimal a b = Some s ∧ repr n s (x + y).
Proof. apply add_decimal_repr. Qed.

(** Subtraction, and the sign test, the positivity test and the minimum the
    overdraft rules build on it, are exact for operands of opposite sign (any
    number of digits) and for magnitudes that sum to less than [2^53] units. *)
Theorem sub_decimal_exact n a b x y :
  repr n a x → repr n b y → within53 x y ∨ opposite_sign x y →
  ∃ s, sub_decimal a b = Some s ∧ repr n s (x - y) ∧
    startsWithMinus s = (x <? y) ∧ isPositive s = (y <? x) ∧
    min_decimal a b = Some (if x <? y then a else b).
Proof.
  intros Ha Hb HE. destruct (sub_decimal_repr n a b x y Ha Hb HE) as (s & E & Hs).
  exists s. unfold min_decimal. rewrite E. simpl.
  assert (startsWithMinus s = (x <? y)) as ->.
  { rewrite (repr_sign _ _ _ Hs). destruct (Z.ltb_spec (x - y) 0), (Z.ltb_spec x y); (done || lia). }
  split_and!; [done..| |done].
  rewrite (isPositive_repr _ _ _ Hs).
  destruct (Z.ltb_spec 0 (x - y)), (Z.ltb_spec y x); (done || lia).
Qed.

(** Evaluation of [repr] on a concrete string. *)
Definition mk_repr (n : nat) (neg : bool) (I F : list Z) : string * Z :=
  if neg then (String minus (usg I F), - uval n I F) else (usg I F, uval n I F).
Definition digits_ok (ds : list Z) : bool := forallb (λ d, (0 <=? d) && (d <=? 9)) ds.
Lemma mk_repr_ok n neg I F :
  negb (bool_decide (I = [])) && digits_ok I && digits_ok F && (length F <=? n)%nat
    && (negb neg || (0 <? uval n I F)) = true →
  repr n (mk_repr n neg I F).1 (mk_repr n neg I F).2.
Proof.
  intros H. repeat (apply andb_true_iff in H as [H ?]).
  assert (∀ ds, digits_ok ds = true → Forall is_dig ds) as Hd.
  { clear. induction ds as [|d ds IH]; simpl; [by constructor|].
    intros [Hd Hs]%andb_true_iff. constructor; [unfold is_dig; lia|auto]. }
  assert (udec I F).
  { split_and!; auto. case_bool_decide; done. }
  assert (length F <= n)%nat by (apply Nat.leb_le; done).
  unfold mk_repr. destruct neg; simpl in *; constructor; (done || lia).
Qed.

Lemma add_decimal_exact_witness :
  ∃ s, add_decimal "99.95" "-0.1" = Some s ∧ repr 2 s (9995 + - 10).
Proof.
  apply (add_decimal_exact 2 "99.95" "-0.1" 9995 (-10)).
  - exact (mk_repr_ok 2 false [9; 9] [9; 5] eq_refl).
  - exact (mk_repr_ok 2 true [0] [1] eq_refl).
  - left. reflexivity.
Defined.

Lemma sub_decimal_exact_witness :
  ∃ s, sub_decimal "100" "100.05" = Some s ∧ repr 2 s (10000 - 10005) ∧
    startsWithMinus s = (10000 <? 10005) ∧ isPositive s = (10005 <? 10000) ∧
    min_decimal "100" "100.05" = Some (if 10000 <? 10005 then "100" else "100.05").
Proof.
  apply (sub_decimal_exact 2 "100" "100.05" 10000 10005).
  - exact (mk_repr_ok 2 false [1; 0; 0] [] eq_refl).
  - exact (mk_repr_ok 2 false [1; 0; 0] [0; 5] eq_refl).
  - left. reflexivity.
Defined.

(** The bound on the magnitudes is needed: [sub_decimal] orders its operands
    by [tonumber], and two decimals that differ beyond the 53rd significant bit
    compare equal.  Taking 1000.000000000000000001 from 1000 then yields
    9999.999999999999999999 with no minus sign, so a debit larger than the
    balance is reported as a large positive balance; the same happens to
    integers from [2^53] on. *)
Theorem sub_decimal_double_precision :
  sub_decimal "1000" "1000.000000000000000001" = Some "9999.999999999999999999" ∧
  sub_decimal "9007199254740992" "9007199254740993" = Some "9999999999999999" ∧
  min_decimal "1000.000000000000000001" "1000" = Some "1000" ∧
  min_decimal "1000" "1000.000000000000000001" = Some "1000.000000000000000001".
Proof. vm_compute. auto. Qed.
