(* ===== verification/AtomicScript.v ===== *)
(** * The atomic balance script (adapters/redis/transaction/scripts/
    balance_atomic_operation.lua, function [main])

    Every change of a cached balance goes through this script, which Redis runs
    atomically on a batch of operations.  The monetary part of one operation
    ([settle]) is written once over an interface [ScriptNum] of the four
    functions it computes with, and used at two instances: the decimal strings
    of LuaDecimal.v, which is the script, and exact integers, which is its
    specification.  [settle_refines] relates them.  Around it, [script_step] and
    [script_main] model the cache, the schedule set and the rollback. *)

From Stdlib Require Import Ascii QArith Lqa.
From stdpp Require Import base gmap strings list numbers.
From S2P Require Import Prelude Decimals GoStrings Transaction BalanceOps LuaDecimal.

Local Open Scope string_scope.
Local Open Scope list_scope.
Local Open Scope Z_scope.

(** ** Results of a piece of the script *)

(** [Reply c] is [rollback(...); return redis.error_reply(c)]; [Crash] is an
    uncaught Lua error. *)
Inductive outcome (A : Type) := Done (a : A) | Reply (code : string) | Crash.
Arguments Done {A} a.
Arguments Reply {A} code.
Arguments Crash {A}.

Definition obind {A B} (m : outcome A) (k : A → outcome B) : outcome B :=
  match m with Done a => k a | Reply c => Reply c | Crash => Crash end.
Definition lift {A} (m : option A) : outcome A :=
  match m with Some a => Done a | None => Crash end.

Notation "'let*' x ':=' m 'in' k" := (obind m (λ x, k))
  (at level 10, x name, m at level 99, k at level 200) : midaz_scope.
Notation "'let+' x ':=' m 'in' k" := (obind (lift m) (λ x, k))
  (at level 10, x name, m at level 99, k at level 200) : midaz_scope.

(** ** Numbers of the script *)

Class ScriptNum (T : Type) := {
  num_zero : T;                          (* "0" *)
  num_add : T → T → option T;            (* add_decimal *)
  num_sub : T → T → option T;            (* sub_decimal *)
  num_min : T → T → option T;            (* min_decimal *)
  num_neg : T → bool;                    (* startsWithMinus *)
  num_pos : T → bool;                    (* isPositive *)
}.

#[export] Instance string_num : ScriptNum string := {
  num_zero := "0"; num_add := add_decimal; num_sub := sub_decimal; num_min := min_decimal;
  num_neg := startsWithMinus; num_pos := isPositive }.

#[export] Instance exact_num : ScriptNum Z := {
  num_zero := 0; num_add x y := Some (x + y); num_sub x y := Some (x - y);
  num_min x y := Some (Z.min x y); num_neg x := x <? 0; num_pos x := 0 <? x }.

(** ** The balance table and one group of 24 arguments *)

Record LuaBalance (T : Type) := mkLuaBalance {
  lb_ID : string; lb_Available : T; lb_OnHold : T; lb_Version : Z;
  lb_AccountType : string; lb_AccountID : string; lb_AssetCode : string;
  lb_AllowSending : Z; lb_AllowReceiving : Z; lb_Key : string;
  lb_Direction : Direction; lb_OverdraftUsed : T; lb_AllowOverdraft : Z;
  lb_OverdraftLimitEnabled : Z; lb_OverdraftLimit : T; lb_BalanceScope : string;
  lb_Alias : option string }.
Arguments mkLuaBalance {T}.
Arguments lb_ID {T}. Arguments lb_Available {T}. Arguments lb_OnHold {T}.
Arguments lb_Version {T}. Arguments lb_AccountType {T}. Arguments lb_AccountID {T}.
Arguments lb_AssetCode {T}. Arguments lb_AllowSending {T}. Arguments lb_AllowReceiving {T}.
Arguments lb_Key {T}. Arguments lb_Direction {T}. Arguments lb_OverdraftUsed {T}.
Arguments lb_AllowOverdraft {T}. Arguments lb_OverdraftLimitEnabled {T}.
Arguments lb_OverdraftLimit {T}. Arguments lb_BalanceScope {T}. Arguments lb_Alias {T}.

Record ScriptArg (T : Type) := mkScriptArg {
  arg_redisBalanceKey : string; arg_isPending : Z; arg_transactionStatus : TxStatus;
  arg_operation : OpType; arg_amount : T; arg_alias : string;
  arg_routeValidationEnabled : Z; arg_balance : LuaBalance T; arg_overdraftAmount : T }.
Arguments mkScriptArg {T}.
Arguments arg_redisBalanceKey {T}. Arguments arg_isPending {T}.
Arguments arg_transactionStatus {T}. Arguments arg_operation {T}. Arguments arg_amount {T}.
Arguments arg_alias {T}. Arguments arg_routeValidationEnabled {T}. Arguments arg_balance {T}.
Arguments arg_overdraftAmount {T}.

(** ** The monetary part of one operation *)

Section Settle.
Context {T : Type} {N : ScriptNum T}.
Implicit Types (balance : LuaBalance T) (arg : ScriptArg T).

Definition isDebitDirection balance : bool := bool_decide (lb_Direction balance = DirectionDebit).
Definition op_is arg (o : OpType) : bool := bool_decide (arg_operation arg = o).
Definition status_is arg (s : TxStatus) : bool := bool_decide (arg_transactionStatus arg = s).
Definition rve arg : bool := arg_routeValidationEnabled arg =? 1.
Definition not_external balance : bool :=
  negb (bool_decide (lb_AccountType balance = ExternalAccountType)).

(** A debit or a credit of [Available], by direction of the balance. *)
Definition debit_available balance arg : outcome T :=
  lift (if isDebitDirection balance then num_add (lb_Available balance) (arg_amount arg)
        else num_sub (lb_Available balance) (arg_amount arg)).
Definition credit_available balance arg : outcome T :=
  lift (if isDebitDirection balance then num_sub (lb_Available balance) (arg_amount arg)
        else num_add (lb_Available balance) (arg_amount arg)).
Definition only_available balance (m : outcome T) : outcome (T * T) :=
  let* r := m in Done (r, lb_OnHold balance).
Definition only_onhold balance (m : option T) : outcome (T * T) :=
  let+ h := m in Done (lb_Available balance, h).

(** Direction-aware arithmetic: [result] and [resultOnHold]. *)
Definition operate balance arg : outcome (T * T) :=
  let amount := arg_amount arg in
  let onHold := lb_OnHold balance in
  if arg_isPending arg =? 1 then
    if op_is arg DEBIT && status_is arg PENDING && rve arg then
      only_available balance (debit_available balance arg)
    else if op_is arg DEBIT && status_is arg PENDING && isDebitDirection balance then
      only_available balance (lift (num_add (lb_Available balance) amount))
    else if op_is arg ONHOLD && status_is arg PENDING && rve arg then
      only_onhold balance (num_add onHold amount)
    else if op_is arg ONHOLD && status_is arg PENDING then
      let* r := debit_available balance arg in
      let+ h := num_add onHold amount in Done (r, h)
    else if op_is arg RELEASE && status_is arg CANCELED && rve arg then
      only_onhold balance (num_sub onHold amount)
    else if op_is arg RELEASE && status_is arg CANCELED then
      let+ h := num_sub onHold amount in
      let* r := credit_available balance arg in Done (r, h)
    else if op_is arg CREDIT && status_is arg CANCELED && rve arg then
      only_available balance (credit_available balance arg)
    else if op_is arg CREDIT && status_is arg CANCELED && isDebitDirection balance then
      only_available balance (lift (num_sub (lb_Available balance) amount))
    else if op_is arg ONHOLD && status_is arg APPROVED && rve arg then
      only_onhold balance (num_sub onHold amount)
    else if status_is arg APPROVED then
      if op_is arg DEBIT then only_onhold balance (num_sub onHold amount)
      else only_available balance (credit_available balance arg)
    else Done (lb_Available balance, onHold)
  else
    if op_is arg DEBIT then only_available balance (debit_available balance arg)
    else only_available balance (credit_available balance arg).

(** [incomingVersion]: the version the caller read. *)
Definition incomingVersion arg : Z := lb_Version (arg_balance arg).
Definition stale balance arg : bool := negb (lb_Version balance =? incomingVersion arg).

(** Repayment of the overdraft by a credit: [(result, newOverdraftUsed)]. *)
Definition credit_repayment balance arg (result : T) : outcome (T * T) :=
  let used := lb_OverdraftUsed balance in
  if op_is arg CREDIT && negb (isDebitDirection balance) && not_external balance && num_pos used
  then
    let sameBatchCancelCredit :=
      op_is arg CREDIT && status_is arg CANCELED && rve arg
      && (lb_Version balance =? incomingVersion arg + 1) in
    if stale balance arg && negb sameBatchCancelCredit then Reply "0174"
    else
      let+ repay := num_min (arg_amount arg) used in
      let* repay :=
        if num_pos (arg_overdraftAmount arg) then
          let+ m := num_min (arg_overdraftAmount arg) (arg_amount arg) in
          lift (num_min m used)
        else Done repay in
      let+ used' := num_sub used repay in
      let+ result' := num_sub result repay in
      Done (result', used')
  else Done (result, used).

(** Reversal of the overdraft by a legacy cancel. *)
Definition release_reversal balance arg (state : T * T) : outcome (T * T) :=
  let '(result, newUsed) := state in
  let used := lb_OverdraftUsed balance in
  if op_is arg RELEASE && status_is arg CANCELED && (arg_routeValidationEnabled arg =? 0)
     && negb (isDebitDirection balance) && not_external balance
     && num_pos (arg_overdraftAmount arg)
  then
    if stale balance arg then Reply "0174"
    else
      let+ m := num_min (arg_overdraftAmount arg) (arg_amount arg) in
      let+ repay := num_min m used in
      let+ used' := num_sub used repay in
      let+ result' := num_sub result repay in
      Done (result', used')
  else Done (result, newUsed).

(** Floor at zero, accrual and limit of the overdraft. *)
Definition overdraft_floor balance arg (state : T * T) : outcome (T * T) :=
  let '(result, newUsed) := state in
  if num_neg result && not_external balance then
    if bool_decide (lb_Direction balance = DirectionCredit) && (lb_AllowOverdraft balance =? 1) then
      let+ deficit := num_sub num_zero result in
      if stale balance arg then Reply "0174"
      else
        let+ used' := num_add (lb_OverdraftUsed balance) deficit in
        if lb_OverdraftLimitEnabled balance =? 1 then
          let+ room := num_sub (lb_OverdraftLimit balance) used' in
          if num_neg room then Reply "0167" else Done (num_zero, used')
        else Done (num_zero, used')
    else Reply "0018"
  else Done (result, newUsed).

(** [(result, resultOnHold, newOverdraftUsed)] *)
Definition settle balance arg : outcome (T * T * T) :=
  let* rh := operate balance arg in
  let* st := credit_repayment balance arg rh.1 in
  let* st := release_reversal balance arg st in
  let* ru := overdraft_floor balance arg st in
  Done (ru.1, rh.2, ru.2).
End Settle.

(** ** The cache and one run of the script *)

(** A cached JSON object; the fields of older entries may be missing.
    Encoding and decoding by cjson is the identity on these records. *)
Record CacheEntry := mkCacheEntry {
  ce_ID : string; ce_Available : string; ce_OnHold : string; ce_Version : Z;
  ce_AccountType : string; ce_AccountID : string; ce_AssetCode : string;
  ce_AllowSending : Z; ce_AllowReceiving : Z; ce_Key : string;
  ce_Direction : option Direction; ce_OverdraftUsed : option string;
  ce_AllowOverdraft : option Z; ce_OverdraftLimitEnabled : option Z;
  ce_OverdraftLimit : option string; ce_BalanceScope : option string;
  ce_Alias : option string }.

(** [cjson.decode] and the defaults for missing fields. *)
Definition load (e : CacheEntry) : LuaBalance string :=
  mkLuaBalance (ce_ID e) (ce_Available e) (ce_OnHold e) (ce_Version e) (ce_AccountType e)
    (ce_AccountID e) (ce_AssetCode e) (ce_AllowSending e) (ce_AllowReceiving e) (ce_Key e)
    (default DirectionEmpty (ce_Direction e)) (default "0" (ce_OverdraftUsed e))
    (default 0 (ce_AllowOverdraft e)) (default 0 (ce_OverdraftLimitEnabled e))
    (default "0" (ce_OverdraftLimit e)) (default "transactional" (ce_BalanceScope e))
    (ce_Alias e).

(** [cjson.encode(balance)] *)
Definition store (b : LuaBalance string) : CacheEntry :=
  mkCacheEntry (lb_ID b) (lb_Available b) (lb_OnHold b) (lb_Version b) (lb_AccountType b)
    (lb_AccountID b) (lb_AssetCode b) (lb_AllowSending b) (lb_AllowReceiving b) (lb_Key b)
    (Some (lb_Direction b)) (Some (lb_OverdraftUsed b)) (Some (lb_AllowOverdraft b))
    (Some (lb_OverdraftLimitEnabled b)) (Some (lb_OverdraftLimit b))
    (Some (lb_BalanceScope b)) (lb_Alias b).

Definition set_alias (alias : string) (b : LuaBalance string) : LuaBalance string :=
  mkLuaBalance (lb_ID b) (lb_Available b) (lb_OnHold b) (lb_Version b) (lb_AccountType b)
    (lb_AccountID b) (lb_AssetCode b) (lb_AllowSending b) (lb_AllowReceiving b) (lb_Key b)
    (lb_Direction b) (lb_OverdraftUsed b) (lb_AllowOverdraft b) (lb_OverdraftLimitEnabled b)
    (lb_OverdraftLimit b) (lb_BalanceScope b) (Some alias).

(** The four assignments after the "before" snapshot. *)
Definition apply_result {T} (result resultOnHold newUsed : T) (b : LuaBalance T) : LuaBalance T :=
  mkLuaBalance (lb_ID b) result resultOnHold (lb_Version b + 1) (lb_AccountType b)
    (lb_AccountID b) (lb_AssetCode b) (lb_AllowSending b) (lb_AllowReceiving b) (lb_Key b)
    (lb_Direction b) newUsed (lb_AllowOverdraft b) (lb_OverdraftLimitEnabled b)
    (lb_OverdraftLimit b) (lb_BalanceScope b) (lb_Alias b).

(** A field of the transaction backup hash: an object with the two snapshot
    lists and other members, or text that does not decode. *)
Inductive BackupEntry :=
| BackupObject (rest : gmap string string) (balances balancesAfter : list (LuaBalance string))
| BackupOther (raw : string).

Record Redis := mkRedis {
  rd_cache : gmap string CacheEntry;      (* balance keys *)
  rd_schedule : gmap string Z;            (* the sorted set at scheduleKey: member, score *)
  rd_backup : gmap string BackupEntry;    (* the hash at transactionBackupQueue *)
}.

Record ScriptState := mkScriptState {
  ss_redis : Redis;
  ss_before : list (LuaBalance string);             (* returnBalances *)
  ss_after : list (LuaBalance string);              (* returnBalancesAfter *)
  ss_rollback : gmap string (LuaBalance string) }.  (* rollbackBalances *)

(** How a run of the script ends; a crash leaves the writes made so far. *)
Inductive ScriptResult :=
| ScriptOk (before after : list (LuaBalance string)) (r : Redis)
| ScriptError (code : string) (r : Redis)
| ScriptCrash (r : Redis).

Definition set_cache (m : gmap string CacheEntry) (r : Redis) : Redis :=
  mkRedis m (rd_schedule r) (rd_backup r).

(** [rollback(rollbackBalances, ttl)]: MSET of the saved entries. *)
Definition rollback (saved : gmap string (LuaBalance string)) (r : Redis) : Redis :=
  set_cache ((store <$> saved) ∪ rd_cache r) r.

Inductive step_result := Next (st : ScriptState) | Stop (res : ScriptResult).

(** [SET key value NX], and the current entry when the key is taken. *)
Definition set_nx (key : string) (incoming : LuaBalance string) (r : Redis)
  : Redis * option (LuaBalance string) :=
  match rd_cache r !! key with
  | None => (set_cache (<[key := store incoming]> (rd_cache r)) r, Some incoming)
  | Some _ => (r, load <$> rd_cache r !! key)
  end.

(** One iteration of the loop over the argument groups. *)
Definition script_step (dueAt : Z) (st : ScriptState) (arg : ScriptArg string) : step_result :=
  let key := arg_redisBalanceKey arg in
  match set_nx key (arg_balance arg) (ss_redis st) with
  | (r, None) => Stop (ScriptError "0061" r)
  | (r, Some balance) =>
      let saved := match ss_rollback st !! key with
                   | Some _ => ss_rollback st
                   | None => <[key := balance]> (ss_rollback st)
                   end in
      match settle balance arg with
      | Crash => Stop (ScriptCrash r)
      | Reply code => Stop (ScriptError code (rollback saved r))
      | Done (result, resultOnHold, newUsed) =>
          if negb (bool_decide (result = lb_Available balance))
             || negb (bool_decide (resultOnHold = lb_OnHold balance))
             || negb (bool_decide (newUsed = lb_OverdraftUsed balance))
          then
            let before := set_alias (arg_alias arg) balance in
            let after := apply_result result resultOnHold newUsed before in
            Next (mkScriptState
              (mkRedis (<[key := store after]> (rd_cache r)) (<[key := dueAt]> (rd_schedule r))
                 (rd_backup r))
              (ss_before st ++ [before]) (ss_after st ++ [after]) saved)
          else Next (mkScriptState r (ss_before st) (ss_after st) saved)
      end
  end.

Fixpoint script_loop (dueAt : Z) (st : ScriptState) (args : list (ScriptArg string)) : step_result :=
  match args with
  | [] => Next st
  | a :: args' =>
      match script_step dueAt st a with
      | Next st' => script_loop dueAt st' args'
      | Stop res => Stop res
      end
  end.

(** [updateTransactionHash] *)
Definition updateTransactionHash (transactionKey : string)
    (balances balancesAfter : list (LuaBalance string)) (r : Redis) : Redis :=
  let rest := match rd_backup r !! transactionKey with
              | Some (BackupObject rest _ _) => rest
              | _ => ∅
              end in
  mkRedis (rd_cache r) (rd_schedule r)
    (<[transactionKey := BackupObject rest balances balancesAfter]> (rd_backup r)).

Definition script_main (transactionKey : string) (dueAt : Z) (args : list (ScriptArg string))
    (r : Redis) : ScriptResult :=
  match script_loop dueAt (mkScriptState r [] [] ∅) args with
  | Stop res => res
  | Next st =>
      ScriptOk (ss_before st) (ss_after st)
        (updateTransactionHash transactionKey (ss_before st) (ss_after st) (ss_redis st))
  end.

(** ** Refinement: the strings compute the integers *)

(** [s] denotes [z] units of [10^-n], with [|z| < 2^k]. *)
Definition money (n : nat) (k : Z) (s : string) (z : Z) : Prop := repr n s z ∧ Z.abs z < 2 ^ k.

Record balance_sim (n : nat) (k : Z) (s : LuaBalance string) (z : LuaBalance Z) : Prop := {
  sim_Available : money n k (lb_Available s) (lb_Available z);
  sim_OnHold : money n k (lb_OnHold s) (lb_OnHold z);
  sim_OverdraftUsed : money n k (lb_OverdraftUsed s) (lb_OverdraftUsed z);
  sim_OverdraftLimit : money n k (lb_OverdraftLimit s) (lb_OverdraftLimit z);
  sim_Version : lb_Version s = lb_Version z;
  sim_AccountType : lb_AccountType s = lb_AccountType z;
  sim_Direction : lb_Direction s = lb_Direction z;
  sim_AllowOverdraft : lb_AllowOverdraft s = lb_AllowOverdraft z;
  sim_LimitEnabled : lb_OverdraftLimitEnabled s = lb_OverdraftLimitEnabled z }.

Record arg_sim (n : nat) (k : Z) (s : ScriptArg string) (z : ScriptArg Z) : Prop := {
  sim_amount : money n k (arg_amount s) (arg_amount z);
  sim_overdraftAmount : money n k (arg_overdraftAmount s) (arg_overdraftAmount z);
  sim_isPending : arg_isPending s = arg_isPending z;
  sim_status : arg_transactionStatus s = arg_transactionStatus z;
  sim_operation : arg_operation s = arg_operation z;
  sim_rve : arg_routeValidationEnabled s = arg_routeValidationEnabled z;
  sim_incoming : lb_Version (arg_balance s) = lb_Version (arg_balance z) }.

(** The same reply, or related values; never a crash on either side. *)
Inductive osim {A B} (P : A → B → Prop) : outcome A → outcome B → Prop :=
| osim_Done a b : P a b → osim P (Done a) (Done b)
| osim_Reply c : osim P (Reply c) (Reply c).

Lemma osim_bind {A B A' B'} (P : A → B → Prop) (Q : A' → B' → Prop) m m' f g :
  osim P m m' → (∀ a b, P a b → osim Q (f a) (g b)) → osim Q (obind m f) (obind m' g).
Proof. intros [a b Hab|c] H; simpl; [by apply H|constructor]. Qed.

Section Simulation.
Context (n : nat) (k : Z) (Hk : 0 <= k).
Abbreviation pair_sim j := (λ s z, money n j s.1 z.1 ∧ money n j s.2 z.2).

Lemma money_mono i j s z : i <= j → money n i s z → money n j s z.
Proof.
  intros Hij [Hr Hb]. split; [done|].
  assert (2 ^ i <= 2 ^ j) by (apply Z.pow_le_mono_r; lia). lia.
Qed.

Lemma pow2_S i : 0 <= i → 2 ^ (i + 1) = 2 * 2 ^ i.
Proof. intros. by rewrite Z.pow_add_r, Z.mul_comm by lia. Qed.

Lemma money_add j s z s' z' :
  0 <= j <= 52 → money n j s z → money n j s' z' →
  osim (money n (j + 1)) (lift (num_add s s')) (lift (num_add z z')).
Proof.
  intros Hj [Hr Hb] [Hr' Hb']. assert (2 ^ j <= 2 ^ 52) by (apply Z.pow_le_mono_r; lia).
  destruct (add_decimal_repr n s s' z z' Hr Hr') as (t & E & Ht).
  { left. unfold within53. change (2 ^ 53) with (2 * 2 ^ 52). lia. }
  simpl. rewrite E. constructor. split; [done|]. rewrite pow2_S by lia. lia.
Qed.
Lemma money_sub j s z s' z' :
  0 <= j <= 52 → money n j s z → money n j s' z' →
  osim (money n (j + 1)) (lift (num_sub s s')) (lift (num_sub z z')).
Proof.
  intros Hj [Hr Hb] [Hr' Hb']. assert (2 ^ j <= 2 ^ 52) by (apply Z.pow_le_mono_r; lia).
  destruct (sub_decimal_repr n s s' z z' Hr Hr') as (t & E & Ht).
  { left. unfold within53. change (2 ^ 53) with (2 * 2 ^ 52). lia. }
  simpl. rewrite E. constructor. split; [done|]. rewrite pow2_S by lia. lia.
Qed.
Lemma money_min j s z s' z' :
  0 <= j <= 52 → money n j s z → money n j s' z' →
  osim (money n j) (lift (num_min s s')) (lift (num_min z z')).
Proof.
  intros Hj [Hr Hb] [Hr' Hb']. assert (2 ^ j <= 2 ^ 52) by (apply Z.pow_le_mono_r; lia).
  destruct (sub_decimal_repr n s s' z z' Hr Hr') as (t & E & Ht).
  { left. unfold within53. change (2 ^ 53) with (2 * 2 ^ 52). lia. }
  simpl. unfold min_decimal. rewrite E. simpl. constructor.
  rewrite (repr_sign _ _ _ Ht). destruct (Z.ltb_spec (z - z') 0).
  - rewrite Z.min_l by lia. by split.
  - rewrite Z.min_r by lia. by split.
Qed.
Lemma money_neg j s z : money n j s z → num_neg s = num_neg z.
Proof. intros [Hr _]. apply (repr_sign _ _ _ Hr). Qed.
Lemma money_pos j s z : money n j s z → num_pos s = num_pos z.
Proof. intros [Hr _]. apply (isPositive_repr _ _ _ Hr). Qed.
Lemma money_zero j : 0 <= j → money n j num_zero num_zero.
Proof.
  intros. split; [|simpl; assert (0 < 2 ^ j) by (apply Z.pow_pos_nonneg; lia); lia].
  pose proof (mk_repr_ok n false [0] [] eq_refl) as Hz. exact Hz.
Qed.

Context (bs : LuaBalance string) (bz : LuaBalance Z) (Hb : balance_sim n k bs bz).
Context (xs : ScriptArg string) (xz : ScriptArg Z) (Hx : arg_sim n k xs xz) (Hk47 : k <= 47).

Lemma guards_sim :
  isDebitDirection bs = isDebitDirection bz ∧ not_external bs = not_external bz ∧
  stale bs xs = stale bz xz ∧ rve xs = rve xz ∧
  (∀ o, op_is xs o = op_is xz o) ∧ (∀ t, status_is xs t = status_is xz t).
Proof.
  unfold isDebitDirection, not_external, stale, incomingVersion, rve, op_is, status_is.
  destruct Hb as [_ _ _ _ -> -> -> _ _], Hx as [_ _ _ -> -> -> ->]. done.
Qed.

Lemma money_field j s z : k <= j → money n k s z → money n j s z.
Proof. intros. by apply (money_mono k). Qed.

Lemma debit_sim : osim (money n (k + 1)) (debit_available bs xs) (debit_available bz xz).
Proof.
  destruct guards_sim as (E & _). destruct Hb, Hx. unfold debit_available. rewrite E.
  destruct (isDebitDirection bz); [apply money_add|apply money_sub]; (done || lia).
Qed.
Lemma credit_sim : osim (money n (k + 1)) (credit_available bs xs) (credit_available bz xz).
Proof.
  destruct guards_sim as (E & _). destruct Hb, Hx. unfold credit_available. rewrite E.
  destruct (isDebitDirection bz); [apply money_sub|apply money_add]; (done || lia).
Qed.
Lemma only_available_sim m m' :
  osim (money n (k + 1)) m m' →
  osim (pair_sim (k + 1)) (only_available bs m) (only_available bz m').
Proof.
  intros H. eapply osim_bind; [exact H|]. intros a b Hab. constructor. split; [done|].
  apply money_field; [lia|apply Hb].
Qed.
Lemma only_onhold_sim m m' :
  osim (money n (k + 1)) (lift m) (lift m') →
  osim (pair_sim (k + 1)) (only_onhold bs m) (only_onhold bz m').
Proof.
  intros H. eapply osim_bind; [exact H|]. intros a b Hab. constructor. split; [|done].
  apply money_field; [lia|apply Hb].
Qed.
Lemma hold_add_sim :
  osim (money n (k + 1)) (lift (num_add (lb_OnHold bs) (arg_amount xs)))
    (lift (num_add (lb_OnHold bz) (arg_amount xz))).
Proof. destruct Hb, Hx. apply money_add; (done || lia). Qed.
Lemma hold_sub_sim :
  osim (money n (k + 1)) (lift (num_sub (lb_OnHold bs) (arg_amount xs)))
    (lift (num_sub (lb_OnHold bz) (arg_amount xz))).
Proof. destruct Hb, Hx. apply money_sub; (done || lia). Qed.
Hint Resolve debit_sim credit_sim only_available_sim only_onhold_sim hold_add_sim hold_sub_sim : core.

Lemma operate_sim : osim (pair_sim (k + 1)) (operate bs xs) (operate bz xz).
Proof.
  destruct guards_sim as (E1 & _ & _ & E4 & E5 & E6). unfold operate.
  rewrite (sim_isPending _ _ _ _ Hx), E1, E4. repeat setoid_rewrite E5. repeat setoid_rewrite E6.
  repeat match goal with |- osim _ (if ?c then _ else _) _ => destruct c; auto end.
  - apply only_available_sim. destruct Hb, Hx. apply money_add; (done || lia).
  - eapply osim_bind; [apply debit_sim|]. intros r r' Hr.
    eapply osim_bind; [apply hold_add_sim|]. intros h h' Hh. by constructor.
  - eapply osim_bind; [apply hold_sub_sim|]. intros r r' Hr.
    eapply osim_bind; [apply credit_sim|]. intros h h' Hh. by constructor.
  - apply only_available_sim. destruct Hb, Hx. apply money_sub; (done || lia).
  - constructor. split; (apply money_field; [lia|apply Hb]).
Qed.

(** Subtracting the same repayment from [used] and from [result]. *)
Lemma repay_sim j repay repay' result result' :
  k <= j <= k + 2 → money n k repay repay' → money n j result result' →
  osim (pair_sim (j + 1))
    (let+ used' := num_sub (lb_OverdraftUsed bs) repay in
     let+ r := num_sub result repay in Done (r, used'))
    (let+ used' := num_sub (lb_OverdraftUsed bz) repay' in
     let+ r := num_sub result' repay' in Done (r, used')).
Proof.
  intros Hj Hr Hres. eapply osim_bind.
  { apply (money_sub k); [lia|apply Hb|done]. }
  intros u u' Hu. eapply osim_bind.
  { apply (money_sub j); [lia|done|]. apply (money_mono k); [lia|done]. }
  intros r r' Hr'. constructor. split; [done|]. apply (money_mono (k + 1)); [lia|done].
Qed.

Lemma capped_sim :
  osim (money n k)
    (let+ m := num_min (arg_overdraftAmount xs) (arg_amount xs) in
     lift (num_min m (lb_OverdraftUsed bs)))
    (let+ m := num_min (arg_overdraftAmount xz) (arg_amount xz) in
     lift (num_min m (lb_OverdraftUsed bz))).
Proof.
  eapply osim_bind; [apply (money_min k); [lia|apply Hx..]|]. intros m m' Hm.
  apply (money_min k); [lia|done|apply Hb].
Qed.

Lemma credit_repayment_sim result result' :
  money n (k + 1) result result' →
  osim (pair_sim (k + 2)) (credit_repayment bs xs result) (credit_repayment bz xz result').
Proof.
  intros Hres. destruct guards_sim as (E1 & E2 & E3 & E4 & E5 & E6). unfold credit_repayment, incomingVersion.
  rewrite E1, E2, E3, E4, !E5, !E6, (sim_Version _ _ _ _ Hb), (sim_incoming _ _ _ _ Hx).
  rewrite (money_pos k _ _ (sim_OverdraftUsed _ _ _ _ Hb)).
  destruct (_ && _ && _ && num_pos (lb_OverdraftUsed bz)).
  2:{ constructor. split; [apply (money_mono (k + 1)); [lia|done]|].
      apply money_field; [lia|apply Hb]. }
  destruct (stale bz xz && _); [constructor|].
  eapply osim_bind; [apply (money_min k); [lia|apply Hx|apply Hb]|]. intros m m' Hm.
  rewrite (money_pos k _ _ (sim_overdraftAmount _ _ _ _ Hx)).
  eapply (osim_bind (money n k)).
  { destruct (num_pos _); [apply capped_sim|by constructor]. }
  intros r r' Hr. replace (k + 2) with ((k + 1) + 1) by lia. apply repay_sim; (done || lia).
Qed.

Lemma release_reversal_sim st st' :
  pair_sim (k + 2) st st' →
  osim (pair_sim (k + 3)) (release_reversal bs xs st) (release_reversal bz xz st').
Proof.
  destruct st as [r u], st' as [r' u']. intros [Hr Hu].
  destruct guards_sim as (E1 & E2 & E3 & E4 & E5 & E6). unfold release_reversal.
  rewrite E1, E2, E3, !E5, !E6, (sim_rve _ _ _ _ Hx).
  rewrite (money_pos k _ _ (sim_overdraftAmount _ _ _ _ Hx)).
  destruct (_ && _ && _ && _ && _ && num_pos (arg_overdraftAmount xz)).
  2:{ constructor. split; (apply (money_mono (k + 2)); [lia|done]). }
  destruct (stale bz xz); [constructor|].
  eapply osim_bind; [apply (money_min k); [lia|apply Hx..]|]. intros m m' Hm.
  eapply osim_bind; [apply (money_min k); [lia|done|apply Hb]|]. intros p p' Hp.
  replace (k + 3) with ((k + 2) + 1) by lia. apply repay_sim; (done || lia).
Qed.

Lemma overdraft_floor_sim st st' :
  pair_sim (k + 3) st st' →
  osim (pair_sim (k + 5)) (overdraft_floor bs xs st) (overdraft_floor bz xz st').
Proof.
  destruct st as [r u], st' as [r' u']. intros [Hr Hu]. simpl in Hr, Hu.
  destruct guards_sim as (E1 & E2 & E3 & E4 & E5 & E6). unfold overdraft_floor.
  rewrite E2, E3, (money_neg _ _ _ Hr), (sim_Direction _ _ _ _ Hb),
    (sim_AllowOverdraft _ _ _ _ Hb), (sim_LimitEnabled _ _ _ _ Hb).
  destruct (num_neg r' && not_external bz).
  2:{ constructor. split; (apply (money_mono (k + 3)); [lia|done]). }
  destruct (_ && _); [|constructor].
  eapply osim_bind; [apply (money_sub (k + 3)); [lia|apply money_zero; lia|done]|].
  intros d d' Hd. destruct (stale bz xz); [constructor|].
  eapply osim_bind; [apply (money_add (k + 4));
    [lia|apply money_field; [lia|apply Hb]|by replace (k + 4) with (k + 3 + 1) by lia]|].
  intros v v' Hv. replace (k + 4 + 1) with (k + 5) in Hv by lia.
  assert (pair_sim (k + 5) (num_zero, v) (num_zero, v')) by (split; [apply money_zero; lia|done]).
  destruct (_ =? 1); [|by constructor].
  eapply osim_bind; [apply (money_sub (k + 5)); [lia|apply money_field; [lia|apply Hb]|done]|].
  intros w w' Hw. rewrite (money_neg _ _ _ Hw). destruct (num_neg w'); by constructor.
Qed.

Lemma settle_sim :
  osim (λ s z, money n (k + 5) s.1.1 z.1.1 ∧ money n (k + 5) s.1.2 z.1.2 ∧
               money n (k + 5) s.2 z.2)
    (settle bs xs) (settle bz xz).
Proof.
  unfold settle. eapply osim_bind; [apply operate_sim|]. intros rh rh' [Hr Hh].
  eapply osim_bind; [by apply credit_repayment_sim|]. intros st st' Hst.
  eapply osim_bind; [by apply release_reversal_sim|]. intros st1 st1' Hst1.
  eapply osim_bind; [by apply overdraft_floor_sim|]. intros ru ru' [Hr' Hu'].
  constructor. split_and!; [done| |done]. apply (money_mono (k + 1)); [lia|done].
Qed.
End Simulation.

(** ** The exact script *)

Section Exact.
Context (b : LuaBalance Z) (x : ScriptArg Z).
Let a := arg_amount x.
Let U := lb_OverdraftUsed b.

(** What an operation does to [Available] and [OnHold] of a credit balance. *)
Definition effect (status : TxStatus) (op : OpType) (rv : bool) (a : Z) : Z * Z :=
  match status, op, rv with
  | PENDING, DEBIT, true => (- a, 0)
  | PENDING, ONHOLD, true => (0, a)
  | PENDING, ONHOLD, false => (- a, a)
  | CANCELED, RELEASE, true => (0, - a)
  | CANCELED, RELEASE, false => (a, - a)
  | CANCELED, CREDIT, true => (a, 0)
  | APPROVED, (DEBIT | ONHOLD), _ => (0, - a)
  | APPROVED, CREDIT, _ => (a, 0)
  | CREATED, DEBIT, _ => (- a, 0)
  | CREATED, CREDIT, _ => (a, 0)
  | _, _, _ => (0, 0)
  end.

(** The operations the services queue: direct transactions carry [CREATED]
    debits and credits; in a two-phase transaction an approved hold is released
    by a DEBIT, or by an ON_HOLD when route validation is on. *)
Definition queued (pending : bool) (status : TxStatus) (op : OpType) (rv : bool) : bool :=
  match pending, status, op with
  | false, CREATED, (DEBIT | CREDIT) => true
  | true, (PENDING | CANCELED), _ => true
  | true, APPROVED, (DEBIT | CREDIT) => true
  | true, APPROVED, ONHOLD => rv
  | _, _, _ => false
  end.

(** A credit that has no effect on [Available]. *)
Definition void_credit (status : TxStatus) (op : OpType) (rv : bool) : bool :=
  match status, op, rv with
  | PENDING, CREDIT, _ => true
  | CANCELED, CREDIT, false => true
  | _, _, _ => false
  end.

Definition arg_effect : Z * Z := effect (arg_transactionStatus x) (arg_operation x) (rve x) a.

Lemma operate_effect :
  isDebitDirection b = false →
  queued (arg_isPending x =? 1) (arg_transactionStatus x) (arg_operation x) (rve x) = true →
  operate b x = Done (lb_Available b + arg_effect.1, lb_OnHold b + arg_effect.2).
Proof.
  intros Hd Hq. unfold operate, only_available, only_onhold, debit_available, credit_available,
    op_is, status_is, arg_effect, a in *. rewrite Hd.
  destruct (arg_isPending x =? 1), (arg_transactionStatus x), (arg_operation x), (rve x);
    try discriminate Hq; simpl; f_equal; f_equal; lia.
Qed.

Context (Ha : 0 <= a) (HU : 0 <= U).

Lemma credit_repayment_exact res r1 u1 :
  credit_repayment b x res = Done (r1, u1) →
  ∃ p, 0 <= p <= U ∧ p <= a ∧ r1 = res - p ∧ u1 = U - p ∧
    (p ≠ 0 → arg_operation x = CREDIT ∧ not_external b = true).
Proof.
  unfold credit_repayment, op_is. fold U a. destruct (_ && _ && _ && _) eqn:G; [|].
  - bool_facts. destruct (stale b x && _); [done|]. simpl in *.
    destruct (Z.ltb_spec 0 (arg_overdraftAmount x)); simpl; intros [= <- <-]; eexists;
      (split_and!; [..|reflexivity|reflexivity|done]); unfold U, a in *; bool_facts; lia.
  - intros [= <- <-]. exists 0. split_and!; (done || lia).
Qed.

Lemma release_reversal_exact r1 u1 r2 u2 :
  release_reversal b x (r1, u1) = Done (r2, u2) →
  (r2 = r1 ∧ u2 = u1) ∨
  ∃ p, 0 <= p <= U ∧ p <= a ∧ r2 = r1 - p ∧ u2 = U - p ∧ arg_operation x = RELEASE ∧
    arg_transactionStatus x = CANCELED ∧ arg_routeValidationEnabled x = 0.
Proof.
  unfold release_reversal, op_is, status_is. fold U a.
  destruct (_ && _ && _ && _ && _ && _) eqn:G; [|intros [= <- <-]; by left].
  bool_facts. destruct (stale b x); [done|]. simpl in *. intros [= <- <-]. right. eexists.
  split_and!; [..|reflexivity|reflexivity|done|done|done]; unfold U, a in *; bool_facts; lia.
Qed.

Lemma overdraft_floor_exact r2 u2 r u :
  overdraft_floor b x (r2, u2) = Done (r, u) →
  (r = r2 ∧ u = u2 ∧ (not_external b = true → 0 <= r)) ∨
  (r2 < 0 ∧ r = 0 ∧ u = U - r2 ∧ not_external b = true ∧ lb_AllowOverdraft b = 1 ∧
   lb_Direction b = DirectionCredit ∧
   (lb_OverdraftLimitEnabled b = 1 → u <= lb_OverdraftLimit b)).
Proof.
  unfold overdraft_floor. fold U. simpl.
  destruct (Z.ltb_spec r2 0); simpl; [|intros [= <- <-]; left; split_and!; (done || lia)].
  destruct (not_external b) eqn:E; [|intros [= <- <-]; by left].
  destruct (_ && _) eqn:G; [|done]. bool_facts. destruct (stale b x); [done|].
  destruct (Z.eqb_spec (lb_OverdraftLimitEnabled b) 1).
  - destruct (Z.ltb_spec (lb_OverdraftLimit b - (U + (0 - r2))) 0); [done|].
    intros [= <- <-]. right. split_and!; (done || lia).
  - intros [= <- <-]. right. split_and!; (done || lia).
Qed.

Lemma settle_exact r h u :
  isDebitDirection b = false →
  queued (arg_isPending x =? 1) (arg_transactionStatus x) (arg_operation x) (rve x) = true →
  void_credit (arg_transactionStatus x) (arg_operation x) (rve x) = false →
  (not_external b = true → 0 <= lb_Available b) →
  settle b x = Done (r, h, u) →
  r - u = lb_Available b + arg_effect.1 - U ∧ h = lb_OnHold b + arg_effect.2 ∧ 0 <= u ∧
  (not_external b = true → 0 <= r) ∧
  (arg_operation x = DEBIT ∨ arg_operation x = ONHOLD → U <= u) ∧
  (U < u → r = 0 ∧ lb_AllowOverdraft b = 1 ∧
           (lb_OverdraftLimitEnabled b = 1 → u <= lb_OverdraftLimit b)).
Proof.
  intros Hd Hq Hv HA. unfold settle. rewrite operate_effect by done. cbn [obind fst snd].
  destruct (credit_repayment b x _) as [[r1 u1]| |] eqn:E1; cbn [obind fst snd]; [|done..].
  destruct (release_reversal b x _) as [[r2 u2]| |] eqn:E2; cbn [obind fst snd]; [|done..].
  destruct (overdraft_floor b x _) as [[r3 u3]| |] eqn:E3; cbn [obind fst snd]; [|done..].
  intros [= <- <- <-].
  apply credit_repayment_exact in E1 as (p & Hp1 & Hp2 & -> & -> & Hp3).
  apply release_reversal_exact in E2.
  apply overdraft_floor_exact in E3.
  assert (p ≠ 0 → arg_effect.1 = a) as Hcr.
  { intros Hp. destruct (Hp3 Hp) as [Eo _]. unfold arg_effect. rewrite Eo in *.
    destruct (arg_isPending x =? 1), (arg_transactionStatus x), (rve x); try discriminate Hq;
      try discriminate Hv; reflexivity. }
  assert (arg_operation x = RELEASE → arg_transactionStatus x = CANCELED →
          arg_routeValidationEnabled x = 0 → arg_effect.1 = a ∧ p = 0) as Hrel.
  { intros Eo Es Er. split.
    - unfold arg_effect, rve. by rewrite Eo, Es, Er.
    - destruct (Z.eq_dec p 0); [done|]. destruct (Hp3 n) as [? _]. congruence. }
  assert (p = 0 ∨ arg_effect.1 = a) as Hpa by (destruct (Z.eq_dec p 0); auto).
  assert (p = 0 ∨ arg_operation x = CREDIT) as Hpc.
  { destruct (Z.eq_dec p 0) as [|Hp]; [by left|right; apply (Hp3 Hp)]. }
  destruct E2 as [[-> ->]|(q & Hq1 & Hq2 & -> & -> & Eo & Es & Er)];
    [|destruct (Hrel Eo Es Er) as [Ea Ep]];
    destruct E3 as [(-> & -> & Hnn)|(Hlt & -> & -> & Hne & Hao & _ & Hlim)];
    try specialize (HA Hne); (split_and!; [lia|done|lia|try done; lia|intros [Ed|Ed]; destruct Hpc as [Hpc|Hpc]; (congruence || lia)|]);
    intros Hlt'; (lia || split_and!; (done || lia)).
Qed.
End Exact.

(** ** Agreement with the Go engine *)

(** The rational value of [z] units of [10^-n]. *)
Definition qv (n : nat) (z : Z) : Q := (inject_Z z / inject_Z (ten n))%Q.

Section Engine.
Context {D : DecimalLib} {DL : DecimalLaws}.

(** A Go balance and amount with the values and flags of a script operation. *)
Record engine_sim (n : nat) (b : LuaBalance Z) (x : ScriptArg Z) (balance : Balance)
    (amount : Amount) : Prop := {
  es_Available : dval (bal_Available balance) == qv n (lb_Available b);
  es_OnHold : dval (bal_OnHold balance) == qv n (lb_OnHold b);
  es_Value : dval (amt_Value amount) == qv n (arg_amount x);
  es_Direction : bal_Direction balance = lb_Direction b;
  es_Operation : amt_Operation amount = arg_operation x;
  es_Type : amt_TransactionType amount = arg_transactionStatus x;
  es_rve : amt_RouteValidationEnabled amount = rve x }.

Lemma qv_add n y z : (qv n (y + z) == qv n y + qv n z)%Q.
Proof.
  unfold qv. rewrite inject_Z_plus. field. intros E. pose proof (ten_pos n) as H.
  rewrite Zlt_Qlt, E in H. by apply Qlt_irrefl in H.
Qed.
Lemma qv_opp n z : (qv n (- z) == - qv n z)%Q.
Proof. unfold qv. rewrite inject_Z_opp. unfold Qdiv. ring. Qed.
Lemma qv_0 n : (qv n 0 == 0)%Q.
Proof. unfold qv, Qdiv. change (inject_Z 0) with 0%Q. ring. Qed.

Lemma OperateBalances_effect n b x balance amount :
  engine_sim n b x balance amount → isDebitDirection b = false →
  (dval (bal_Available (OperateBalances amount balance)) == qv n (lb_Available b + (arg_effect x).1))%Q
  ∧ (dval (bal_OnHold (OperateBalances amount balance)) == qv n (lb_OnHold b + (arg_effect x).2))%Q.
Proof.
  intros [EA EH EV ED EO ET ER] Hd. unfold OperateBalances.
  unfold isDebitDirection in Hd. rewrite ED, Hd.
  unfold applyBalanceChange, applyPendingBalance, applyCanceledBalance, applyApprovedBalance,
    applyCreatedBalance, unmatched, arg_effect. rewrite EO, ET, ER.
  destruct (arg_transactionStatus x), (arg_operation x), (rve x); simpl;
    rewrite ?dval_add, ?dval_sub, EA, EH, ?EV, ?qv_add, ?qv_opp, ?qv_0; split; lra.
Qed.
End Engine.

(** ** Batches *)

Lemma load_store b : load (store b) = b.
Proof. by destruct b. Qed.

Lemma settle_not_negative (b : LuaBalance string) (x : ScriptArg string) r h u :
  settle b x = Done (r, h, u) → not_external b = true → startsWithMinus r = false.
Proof.
  unfold settle. destruct (operate b x) as [rh| |]; [|done..]. cbn [obind].
  destruct (credit_repayment b x rh.1) as [st| |]; [|done..]. cbn [obind].
  destruct (release_reversal b x st) as [[r1 u1]| |]; [|done..]. cbn [obind].
  destruct (overdraft_floor b x (r1, u1)) as [[r2 u2]| |] eqn:E; [|done..]. cbn [obind fst snd].
  intros [= <- <- <-] Hn. revert E. unfold overdraft_floor. rewrite Hn, andb_true_r.
  change (num_neg r1) with (startsWithMinus r1). destruct (startsWithMinus r1) eqn:Er.
  2:{ intros [= <- <-]. done. }
  destruct (_ && _); [|done]. destruct (lift _) as [d| |]; [|done..]. cbn [obind].
  destruct (stale b x); [done|]. destruct (lift (num_add _ _)) as [v| |]; [|done..]. cbn [obind].
  destruct (_ =? 1); [destruct (lift _) as [w| |]; [|done..]; cbn [obind]; destruct (num_neg w); [done|]|];
    intros [= <- _]; reflexivity.
Qed.

(** The codes [settle] can reply. *)
Definition reply_codes : list string := ["0018"; "0167"; "0174"].

Definition only_codes {A} (m : outcome A) : Prop := ∀ c, m = Reply c → c ∈ reply_codes.

Lemma only_codes_bind {A B} (m : outcome A) (f : A → outcome B) :
  only_codes m → (∀ a, only_codes (f a)) → only_codes (obind m f).
Proof. intros Hm Hf c. destruct m; simpl; [apply Hf|intros [= <-]; by apply Hm|done]. Qed.
Lemma only_codes_lift {A} (m : option A) : only_codes (lift m).
Proof. by destruct m. Qed.
Lemma only_codes_Done {A} (a : A) : only_codes (Done a).
Proof. done. Qed.
Lemma only_codes_Reply {A} c : bool_decide (c ∈ reply_codes) = true → only_codes (@Reply A c).
Proof. intros H c' [= <-]. by apply bool_decide_eq_true in H. Qed.

Ltac only_codes :=
  repeat match goal with
  | |- only_codes (obind _ _) => apply only_codes_bind; [|intros ?]
  | |- only_codes (lift _) => apply only_codes_lift
  | |- only_codes (Done _) => apply only_codes_Done
  | |- only_codes (Reply _) => apply only_codes_Reply; reflexivity
  | |- only_codes (if ?g then _ else _) => destruct g
  | |- only_codes (let '(_, _) := ?p in _) => destruct p
  end.

Lemma settle_codes (b : LuaBalance string) (x : ScriptArg string) : only_codes (settle b x).
Proof.
  unfold settle, operate, only_available, only_onhold, debit_available, credit_available,
    credit_repayment, release_reversal, overdraft_floor. only_codes.
Qed.

(** [set_nx] finds or creates the entry, so the script never replies 0061. *)
Lemma set_nx_spec key incoming r :
  ∃ r' balance, set_nx key incoming r = (r', Some balance) ∧
    rd_backup r' = rd_backup r ∧
    ((∃ e, rd_cache r !! key = Some e ∧ balance = load e ∧ r' = r) ∨
     (rd_cache r !! key = None ∧ balance = incoming ∧
      rd_cache r' = <[key := store incoming]> (rd_cache r))).
Proof.
  unfold set_nx. destruct (rd_cache r !! key) as [e|] eqn:E; simpl.
  - exists r, (load e). split_and!; [done..|]. left. eauto.
  - exists (set_cache (<[key := store incoming]> (rd_cache r)) r), incoming.
    split_and!; [done..|]. right. done.
Qed.

(** The origin of an entry: it was cached before the run, or it is the snapshot
    an operation of the batch brought along. *)
Definition origin (r0 : Redis) (args : list (ScriptArg string)) (k : string) (b : LuaBalance string)
  : Prop :=
  (∃ e, rd_cache r0 !! k = Some e ∧ b = load e) ∨
  (rd_cache r0 !! k = None ∧ ∃ a, a ∈ args ∧ arg_redisBalanceKey a = k ∧ b = arg_balance a).

(** What the loop keeps: saved entries are originals, everything else in the
    cache is untouched, and the backup hash is not written. *)
Record loop_inv (r0 : Redis) (args : list (ScriptArg string)) (st : ScriptState) : Prop := {
  li_saved : ∀ k b, ss_rollback st !! k = Some b → origin r0 args k b;
  li_other : ∀ k, ss_rollback st !! k = None → rd_cache (ss_redis st) !! k = rd_cache r0 !! k;
  li_backup : rd_backup (ss_redis st) = rd_backup r0 }.

(** The cache after a rollback, against the cache before the run. *)
Definition restored (r0 : Redis) (args : list (ScriptArg string)) (r : Redis) : Prop :=
  rd_backup r = rd_backup r0 ∧
  ∀ k, rd_cache r !! k = rd_cache r0 !! k ∨
    ∃ b, rd_cache r !! k = Some (store b) ∧ origin r0 args k b.

Lemma rollback_restores r0 args saved r :
  (∀ k b, saved !! k = Some b → origin r0 args k b) →
  (∀ k, saved !! k = None → rd_cache r !! k = rd_cache r0 !! k) →
  rd_backup r = rd_backup r0 → restored r0 args (rollback saved r).
Proof.
  intros Hs Ho Hb. split; [done|]. intros k. unfold rollback. simpl.
  rewrite lookup_union, lookup_fmap. destruct (saved !! k) as [b|] eqn:E; simpl.
  - right. exists b. split; [by destruct (rd_cache r !! k)|by apply Hs].
  - left. rewrite (Ho k E). by destruct (rd_cache r0 !! k).
Qed.

Lemma script_step_inv r0 args dueAt st a :
  a ∈ args → loop_inv r0 args st →
  match script_step dueAt st a with
  | Next st' => loop_inv r0 args st'
  | Stop (ScriptError c r) => c ∈ reply_codes ∧ restored r0 args r
  | Stop (ScriptOk _ _ _) => False
  | Stop (ScriptCrash _) => True
  end.
Proof.
  intros Ha [Hs Ho Hb]. unfold script_step. set (k := arg_redisBalanceKey a).
  destruct (set_nx_spec k (arg_balance a) (ss_redis st)) as (r & bal & -> & Hbk & Hcase).
  set (saved := match ss_rollback st !! k with Some _ => _ | None => _ end).
  assert (∀ k' b, saved !! k' = Some b → origin r0 args k' b) as Hs'.
  { intros k' b. unfold saved. destruct (ss_rollback st !! k) eqn:E; [apply Hs|].
    rewrite lookup_insert_Some. intros [[<- <-]|[_ Hk']]; [|by apply Hs].
    unfold origin. destruct Hcase as [(e & He & -> & _)|(Hn & -> & _)]; rewrite (Ho k E) in *;
      [left|right]; eauto. }
  assert (is_Some (saved !! k)) as Hsk.
  { unfold saved. destruct (ss_rollback st !! k) eqn:E; [by rewrite E|].
    by rewrite lookup_insert_eq. }
  assert (∀ k', saved !! k' = None → k' ≠ k ∧ rd_cache r !! k' = rd_cache r0 !! k') as Ho'.
  { intros k' Hk'. assert (k' ≠ k) as Hne by (intros ->; rewrite Hk' in Hsk; by destruct Hsk).
    split; [done|]. assert (ss_rollback st !! k' = None) as Hk''.
    { unfold saved in Hk'. destruct (ss_rollback st !! k); [done|].
      by rewrite lookup_insert_ne in Hk'. }
    rewrite <- (Ho k' Hk''). destruct Hcase as [(e & _ & _ & ->)|(_ & _ & ->)]; [done|].
    by rewrite lookup_insert_ne. }
  destruct (settle bal a) as [[[res hold] used]|c|] eqn:Es; [|split|done].
  - destruct (_ || _); (split; [done|intros k' Hk'; simpl; destruct (Ho' k' Hk') as [Hne <-]|
      simpl; congruence]); [by rewrite lookup_insert_ne|done].
  - by apply (settle_codes bal a).
  - apply rollback_restores; [done| |congruence]. intros k' Hk'. by apply Ho'.
Qed.

Lemma script_loop_inv r0 args dueAt l st :
  (∀ a, a ∈ l → a ∈ args) → loop_inv r0 args st →
  match script_loop dueAt st l with
  | Next st' => loop_inv r0 args st'
  | Stop (ScriptError c r) => c ∈ reply_codes ∧ restored r0 args r
  | Stop (ScriptOk _ _ _) => False
  | Stop (ScriptCrash _) => True
  end.
Proof.
  revert st; induction l as [|a l IH]; intros st Hl Hinv; simpl; [done|].
  pose proof (script_step_inv r0 args dueAt st a (Hl a ltac:(left)) Hinv) as H.
  destruct (script_step dueAt st a) as [st'|res]; [|done].
  apply IH; [|done]. intros a' Ha'. apply Hl. by right.
Qed.

Lemma loop_inv_start r args : loop_inv r args (mkScriptState r [] [] ∅).
Proof. split; simpl; [|done|done]. intros k b. by rewrite lookup_empty. Qed.

(** A balance of a non-external account is not negative. *)
Definition balance_ok (b : LuaBalance string) : Prop :=
  lb_AccountType b ≠ ExternalAccountType → startsWithMinus (lb_Available b) = false.
Definition cache_ok (r : Redis) : Prop := ∀ k e, rd_cache r !! k = Some e → balance_ok (load e).

Definition result_redis (res : ScriptResult) : Redis :=
  match res with ScriptOk _ _ r | ScriptError _ r | ScriptCrash r => r end.

(** An "after" snapshot is its "before" snapshot with new amounts and the next version. *)
Definition snapshot_step (before after : LuaBalance string) : Prop :=
  ∃ r h u, after = apply_result r h u before.

Record ok_inv (st : ScriptState) : Prop := {
  oi_cache : cache_ok (ss_redis st);
  oi_saved : ∀ k b, ss_rollback st !! k = Some b → balance_ok b;
  oi_after : Forall balance_ok (ss_after st);
  oi_steps : Forall2 snapshot_step (ss_before st) (ss_after st) }.

Lemma cache_ok_insert r k b :
  balance_ok b → cache_ok r → cache_ok (set_cache (<[k := store b]> (rd_cache r)) r).
Proof.
  intros Hb Hr k' e'. simpl. rewrite lookup_insert_Some. intros [[_ <-]|[_ He]].
  - by rewrite load_store.
  - by apply (Hr k').
Qed.

Lemma rollback_ok saved r :
  (∀ k b, saved !! k = Some b → balance_ok b) → cache_ok r → cache_ok (rollback saved r).
Proof.
  intros Hs Hr k e. unfold rollback. simpl. rewrite lookup_union, lookup_fmap.
  destruct (saved !! k) as [b|] eqn:E; simpl.
  - intros H. assert (e = store b) as -> by (destruct (rd_cache r !! k); by injection H).
    rewrite load_store. by apply (Hs k).
  - intros H. apply (Hr k). by destruct (rd_cache r !! k).
Qed.

Lemma script_step_ok dueAt st a :
  balance_ok (arg_balance a) → ok_inv st →
  match script_step dueAt st a with
  | Next st' => ok_inv st'
  | Stop res => cache_ok (result_redis res)
  end.
Proof.
  intros Ha [Hc Hs Hf Hst]. unfold script_step. set (k := arg_redisBalanceKey a).
  assert (∃ r bal, set_nx k (arg_balance a) (ss_redis st) = (r, Some bal) ∧
            cache_ok r ∧ balance_ok bal) as (r & bal & -> & Hr & Hbal).
  { unfold set_nx. destruct (rd_cache (ss_redis st) !! k) as [e|] eqn:E; simpl.
    - eexists _, _. split_and!; [done..|]. by apply (Hc k).
    - eexists _, _. split_and!; [done| |done]. by apply cache_ok_insert. }
  set (saved := match ss_rollback st !! k with Some _ => _ | None => _ end).
  assert (∀ k' b, saved !! k' = Some b → balance_ok b) as Hs'.
  { intros k' b. unfold saved. destruct (ss_rollback st !! k); [apply Hs|].
    rewrite lookup_insert_Some. intros [[_ <-]|[_ H]]; [done|by apply (Hs k')]. }
  destruct (settle bal a) as [[[res hold] used]|c|] eqn:Es; [|by apply rollback_ok|done].
  destruct (_ || _); [|by split].
  assert (balance_ok (apply_result res hold used (set_alias (arg_alias a) bal))) as Hafter.
  { intros Hne. simpl in *. apply (settle_not_negative _ _ _ _ _ Es).
    unfold not_external. by rewrite bool_decide_false. }
  split; simpl; [|done| |].
  - intros k' e' He'. by apply (cache_ok_insert r k _ Hafter Hr k').
  - apply Forall_app. split; [done|by constructor].
  - apply Forall2_app; [done|]. constructor; [by eexists _, _, _|constructor].
Qed.

Lemma script_loop_ok dueAt l st :
  Forall (λ a, balance_ok (arg_balance a)) l → ok_inv st →
  match script_loop dueAt st l with
  | Next st' => ok_inv st'
  | Stop res => cache_ok (result_redis res)
  end.
Proof.
  intros Hl. revert st; induction Hl as [|a l Ha _ IH]; intros st Hinv; simpl; [done|].
  pose proof (script_step_ok dueAt st a Ha Hinv) as H.
  destruct (script_step dueAt st a) as [st'|res]; [by apply IH|done].
Qed.

(** ** Properties *)

(** C19: the decimal-string script computes exact integer arithmetic.  On a
    balance and an operation whose amounts have at most [n] fractional digits and
    are below [2^47] in units of [10^-n], one operation of the script never
    crashes, replies exactly the error code the specification on integers
    replies, and otherwise ends with strings that denote the integers of the
    specification for [Available], [OnHold] and [OverdraftUsed]. *)
Theorem settle_refines_exact n bs bz xs xz :
  balance_sim n 47 bs bz → arg_sim n 47 xs xz →
  match settle bz xz with
  | Done (r, h, u) => ∃ r' h' u', settle bs xs = Done (r', h', u') ∧
      repr n r' r ∧ repr n h' h ∧ repr n u' u
  | Reply code => settle bs xs = Reply code
  | Crash => False
  end.
Proof.
  intros Hb Hx. destruct (settle_sim n 47 ltac:(lia) bs bz Hb xs xz Hx ltac:(lia))
    as [[[r' h'] u'] [[r h] u] H|c]; [|done].
  destruct H as ([Hr _] & [Hh _] & [Hu _]). by exists r', h', u'.
Qed.

(** C2: the script agrees with the Go engine, and overdraft is safe.  For a
    queued operation of non-negative amount on a balance that is not of direction
    debit: when the script accepts it, [Available] minus the overdraft newly used
    is the [Available] that [OperateBalances] computes and [OnHold] is its
    [OnHold]; a non-external balance stays non-negative; overdraft is drawn only
    when allowed, only after [Available] has reached zero, and never beyond an
    enabled limit.  Credits without effect on [Available] (the destination of a
    pending transaction, a cancelled one without route validation) are excluded:
    see [pending_credit_moves_overdraft]. *)
Theorem settle_agrees_with_OperateBalances {D : DecimalLib} {DL : DecimalLaws}
    n bs bz xs xz (balance : Balance) (amount : Amount) r h u :
  balance_sim n 47 bs bz → arg_sim n 47 xs xz → engine_sim n bz xz balance amount →
  lb_Direction bz ≠ DirectionDebit →
  queued (arg_isPending xz =? 1) (arg_transactionStatus xz) (arg_operation xz) (rve xz) = true →
  void_credit (arg_transactionStatus xz) (arg_operation xz) (rve xz) = false →
  0 <= arg_amount xz → 0 <= lb_OverdraftUsed bz → (not_external bz = true → 0 <= lb_Available bz) →
  settle bs xs = Done (r, h, u) →
  ∃ rz hz uz, repr n r rz ∧ repr n h hz ∧ repr n u uz ∧ 0 <= uz ∧
    (dval (bal_Available (OperateBalances amount balance)) == qv n (rz - (uz - lb_OverdraftUsed bz)))%Q ∧
    (dval (bal_OnHold (OperateBalances amount balance)) == qv n hz)%Q ∧
    (not_external bz = true → 0 <= rz) ∧
    (lb_OverdraftUsed bz < uz → rz = 0 ∧ lb_AllowOverdraft bz = 1 ∧
       (lb_OverdraftLimitEnabled bz = 1 → uz <= lb_OverdraftLimit bz)).
Proof.
  intros Hb Hx He Hdir Hq Hv Ha HU HA Hs.
  pose proof (settle_sim n 47 ltac:(lia) bs bz Hb xs xz Hx ltac:(lia)) as H. rewrite Hs in H.
  inversion H as [? [[rz hz] uz] (Hr & Hh & Hu) Eq1 Eq2|]; subst. simpl in *.
  assert (isDebitDirection bz = false) as Hd by (by apply bool_decide_eq_false_2).
  destruct (settle_exact bz xz Ha HU rz hz uz Hd Hq Hv HA (eq_sym Eq2)) as (E1 & E2 & E3 & E4 & _ & E5).
  destruct (OperateBalances_effect n bz xz balance amount He Hd) as [EA EH].
  exists rz, hz, uz. split_and!; [apply Hr|apply Hh|apply Hu|done| | |done|done].
  - rewrite EA. by replace (rz - (uz - lb_OverdraftUsed bz))
      with (lb_Available bz + (arg_effect xz).1) by lia.
  - rewrite EH. by rewrite E2.
Qed.

(** C18: a rejected batch leaves no trace in the balances.  When the script ends
    with an error reply, the code is 0018, 0167 or 0174 (never the "entry
    vanished" code 0061), the backup hash is as before, and every cache key holds
    what it held before the batch, read back through the defaults of missing
    fields; a key that was not cached is absent or holds the caller's own
    snapshot of the balance. *)
Theorem rejected_batch_restores_balances transactionKey dueAt args r code r' :
  script_main transactionKey dueAt args r = ScriptError code r' →
  code ∈ reply_codes ∧ rd_backup r' = rd_backup r ∧
  (∀ k e, rd_cache r !! k = Some e → ∃ e', rd_cache r' !! k = Some e' ∧ load e' = load e) ∧
  (∀ k e', rd_cache r !! k = None → rd_cache r' !! k = Some e' →
     ∃ a, a ∈ args ∧ arg_redisBalanceKey a = k ∧ load e' = arg_balance a).
Proof.
  unfold script_main. intros H.
  pose proof (script_loop_inv r args dueAt args _ ltac:(done) (loop_inv_start r args)) as Hinv.
  destruct (script_loop _ _ _) as [st|[]]; simplify_eq. destruct Hinv as (Hc & Hbk & Hk).
  split_and!; [done..| |].
  - intros k e He. destruct (Hk k) as [->|(b & -> & [(e0 & He0 & ->)|[Hn _]])]; [eauto| |congruence].
    eexists. split; [done|]. rewrite load_store. congruence.
  - intros k e' Hn He'. destruct (Hk k) as [E|(b & E & [(e0 & He0 & _)|[_ (a & Ha & Hk' & ->)]])];
      [congruence..|].
    exists a. split_and!; [done..|]. rewrite E in He'. injection He' as <-. by rewrite load_store.
Qed.

(** No run of the script (accepted, rejected or aborted by a Lua error) makes
    a non-external balance negative: if the cached balances and the snapshots of
    the batch are non-negative, so is every cached balance afterwards.  An
    accepted batch returns matching snapshots: the "after" list has, position by
    position, the "before" balance with new amounts and its version plus one. *)
Theorem script_keeps_balances_non_negative transactionKey dueAt args r :
  cache_ok r → Forall (λ a, balance_ok (arg_balance a)) args →
  cache_ok (result_redis (script_main transactionKey dueAt args r)) ∧
  match script_main transactionKey dueAt args r with
  | ScriptOk before after r' =>
      Forall2 snapshot_step before after ∧ Forall balance_ok after ∧
      (∃ rest, rd_backup r' !! transactionKey = Some (BackupObject rest before after))
  | _ => True
  end.
Proof.
  intros Hr Ha. unfold script_main.
  assert (ok_inv (mkScriptState r [] [] ∅)) as H0.
  { split; simpl; [done| |constructor|constructor]. intros k b. by rewrite lookup_empty. }
  pose proof (script_loop_ok dueAt args _ Ha H0) as H.
  destruct (script_loop _ _ _) as [st|res] eqn:E.
  - destruct H as [Hc _ Hf Hs]. split_and!; [exact Hc|done|done|]. simpl.
    eexists. by rewrite lookup_insert_eq.
  - split; [done|]. destruct res; [|done..]. exfalso. revert E.
    pose proof (script_loop_inv r args dueAt args _ ltac:(done) (loop_inv_start r args)) as Hinv.
    intros E. by rewrite E in Hinv.
Qed.

(** A pending credit moves the overdraft of its destination.  The comments of
    the script say that CREDIT in PENDING has no effect; but on a credit balance
    with outstanding overdraft and nothing available the repayment block runs on
    the unchanged [Available], the negative result is floored at zero, and the
    deficit is added to the old [OverdraftUsed]: the debt of the destination grows
    by the amount of a credit it has not yet received, while [OperateBalances]
    leaves the balance as it is. *)
Theorem pending_credit_moves_overdraft {D : DecimalLib} (b : LuaBalance Z) (x : ScriptArg Z)
    (balance : Balance) (amount : Amount) :
  arg_isPending x = 1 → arg_transactionStatus x = PENDING → arg_operation x = CREDIT →
  arg_overdraftAmount x = 0 → incomingVersion x = lb_Version b →
  lb_Direction b = DirectionCredit → not_external b = true → lb_AllowOverdraft b = 1 →
  lb_OverdraftLimitEnabled b = 0 → lb_Available b = 0 →
  0 < lb_OverdraftUsed b → 0 < arg_amount x →
  bal_Direction balance = DirectionCredit → amt_TransactionType amount = PENDING →
  amt_Operation amount = CREDIT →
  settle b x = Done (0, lb_OnHold b,
    lb_OverdraftUsed b + Z.min (arg_amount x) (lb_OverdraftUsed b)) ∧
  OperateBalances amount balance = balance.
Proof.
  intros E1 E2 E3 E4 E5 E6 E7 E8 E9 E10 HU Ha G1 G2 G3.
  set (p := Z.min (arg_amount x) (lb_OverdraftUsed b)). assert (0 < p) by lia.
  split.
  - assert (operate b x = Done (0, lb_OnHold b)) as Eo.
    { unfold operate, op_is, status_is. by rewrite E1, E2, E3, E10. }
    assert (stale b x = false) as Est.
    { unfold stale. rewrite E5. by rewrite Z.eqb_refl. }
    assert (credit_repayment b x 0 = Done (0 - p, lb_OverdraftUsed b - p)) as Ec.
    { unfold credit_repayment, op_is, isDebitDirection. rewrite E3, E4, E6, E7, Est. simpl.
      by destruct (Z.ltb_spec 0 (lb_OverdraftUsed b)); [|lia]. }
    assert (∀ s, release_reversal b x s = Done s) as Er.
    { intros [? ?]. unfold release_reversal, op_is. by rewrite E3. }
    unfold settle. rewrite Eo. cbn [obind fst snd]. rewrite Ec. cbn [obind]. rewrite Er. cbn [obind].
    unfold overdraft_floor. rewrite E6, E7, E8, E9, Est. simpl.
    destruct (Z.ltb_spec (0 - p) 0); [|lia]. simpl.
    by replace (0 - (0 - p)) with p by lia.
  - unfold OperateBalances, applyBalanceChange, applyPendingBalance. by rewrite G1, G2, G3.
Qed.

(** ** Sample inputs *)

Module Sample.
Definition mk {T} (available onHold used limit : T) (version : Z) : LuaBalance T :=
  mkLuaBalance "b1" available onHold version "deposit" "acc1" "USD" 1 1 "default"
    DirectionCredit used 1 1 limit "transactional" None.
Definition alice : LuaBalance string := mk "100" "0" "0" "500" 7.
Definition alice_z : LuaBalance Z := mk 10000 0 0 50000 7.
Definition op {T} (status : TxStatus) (pending : Z) (o : OpType) (amount : T) (zero : T)
    (b : LuaBalance T) : ScriptArg T :=
  mkScriptArg "balance:alice" pending status o amount "0#@alice#default" 0 b zero.
Definition debit : ScriptArg string := op CREATED 0 DEBIT "250.5" "0" alice.
Definition debit_z : ScriptArg Z := op CREATED 0 DEBIT 25050 0 alice_z.
Definition redis : Redis := mkRedis {[ "balance:alice" := store alice ]} ∅ ∅.
Definition too_much : ScriptArg string := op CREATED 0 DEBIT "601" "0" alice.

Definition go_balance : @Balance Fixed.lib :=
  mkBalance "b1" "" "" "acc1" "@alice" "default" "USD" (fx 100 0) (fx 0 0) 7 "deposit" true true
    DirectionCredit (fx 0 0) true true (fx 500 0) "transactional" 0 0 None ∅.
Definition go_debit : @Amount Fixed.lib :=
  mkAmount "USD" (fx 2505 1) DEBIT CREATED DirectionDebit false (fx 0 0).

Lemma money_of n neg I F :
  negb (bool_decide (I = [])) && digits_ok I && digits_ok F && (length F <=? n)%nat
    && (negb neg || (0 <? uval n I F)) && (Z.abs (mk_repr n neg I F).2 <? 2 ^ 47) = true →
  money n 47 (mk_repr n neg I F).1 (mk_repr n neg I F).2.
Proof. intros [H1 H2]%andb_true_iff. split; [by apply mk_repr_ok|by apply Z.ltb_lt]. Qed.

Lemma alice_sim : balance_sim 2 47 alice alice_z.
Proof.
  split; try reflexivity.
  - exact (money_of 2 false [1; 0; 0] [] eq_refl).
  - exact (money_of 2 false [0] [] eq_refl).
  - exact (money_of 2 false [0] [] eq_refl).
  - exact (money_of 2 false [5; 0; 0] [] eq_refl).
Qed.
Lemma debit_arg_sim : arg_sim 2 47 debit debit_z.
Proof.
  split; try reflexivity.
  - exact (money_of 2 false [2; 5; 0] [5] eq_refl).
  - exact (money_of 2 false [0] [] eq_refl).
Qed.
Lemma go_sim : engine_sim 2 alice_z debit_z go_balance go_debit.
Proof. split; reflexivity. Qed.
End Sample.

Lemma settle_refines_exact_witness :
  ∃ r' h' u', settle Sample.alice Sample.debit = Done (r', h', u') ∧
    repr 2 r' 0 ∧ repr 2 h' 0 ∧ repr 2 u' 15050.
Proof. exact (settle_refines_exact 2 _ _ _ _ Sample.alice_sim Sample.debit_arg_sim). Defined.

Lemma settle_agrees_with_OperateBalances_witness :
  settle Sample.alice Sample.debit = Done ("0", "0", "150.5") ∧
  ∃ rz hz uz, repr 2 "0" rz ∧ repr 2 "0" hz ∧ repr 2 "150.5" uz ∧ 0 <= uz ∧
    (dval (bal_Available (OperateBalances Sample.go_debit Sample.go_balance)) == qv 2 (rz - (uz - 0)))%Q ∧
    (dval (bal_OnHold (OperateBalances Sample.go_debit Sample.go_balance)) == qv 2 hz)%Q ∧
    (not_external Sample.alice_z = true → 0 <= rz) ∧
    (0 < uz → rz = 0 ∧ lb_AllowOverdraft Sample.alice_z = 1 ∧
       (lb_OverdraftLimitEnabled Sample.alice_z = 1 → uz <= lb_OverdraftLimit Sample.alice_z)).
Proof.
  assert (settle Sample.alice Sample.debit = Done ("0", "0", "150.5")) as E by (vm_compute; reflexivity).
  split; [exact E|].
  refine (settle_agrees_with_OperateBalances 2 _ _ _ _ _ _ _ _ _ Sample.alice_sim Sample.debit_arg_sim
    Sample.go_sim _ eq_refl eq_refl _ _ _ E); simpl; (lia || discriminate).
Defined.

Lemma rejected_batch_restores_balances_witness :
  ∃ r', script_main "tx1" 0 [Sample.debit; Sample.too_much] Sample.redis = ScriptError "0174" r' ∧
    "0174" ∈ reply_codes ∧ rd_backup r' = rd_backup Sample.redis ∧
    (∀ k e, rd_cache Sample.redis !! k = Some e →
       ∃ e', rd_cache r' !! k = Some e' ∧ load e' = load e) ∧
    (∀ k e', rd_cache Sample.redis !! k = None → rd_cache r' !! k = Some e' →
       ∃ a, a ∈ [Sample.debit; Sample.too_much] ∧ arg_redisBalanceKey a = k ∧ load e' = arg_balance a).
Proof.
  eexists. assert (script_main "tx1" 0 [Sample.debit; Sample.too_much] Sample.redis
    = ScriptError "0174" (rollback {["balance:alice" := Sample.alice]}
        (mkRedis {["balance:alice" := store (apply_result "0" "0" "150.5"
           (set_alias "0#@alice#default" Sample.alice))]} {["balance:alice" := 0]} ∅))) as E
    by (vm_compute; reflexivity).
  split; [exact E|]. exact (rejected_batch_restores_balances _ _ _ _ _ _ E).
Defined.

Lemma script_keeps_balances_non_negative_witness :
  cache_ok (result_redis (script_main "tx1" 0 [Sample.debit] Sample.redis)) ∧
  match script_main "tx1" 0 [Sample.debit] Sample.redis with
  | ScriptOk before after r' =>
      Forall2 snapshot_step before after ∧ Forall balance_ok after ∧
      (∃ rest, rd_backup r' !! "tx1" = Some (BackupObject rest before after))
  | _ => True
  end.
Proof.
  apply script_keeps_balances_non_negative.
  - intros k e. simpl. intros [_ <-]%lookup_singleton_Some. done.
  - constructor; [done|constructor].
Defined.

Definition overdrawn : LuaBalance Z :=
  mkLuaBalance "b2" 0 0 3 "deposit" "acc2" "USD" 1 1 "default" DirectionCredit 5000 1 0 0
    "transactional" None.

Lemma pending_credit_moves_overdraft_witness :
  settle overdrawn (Sample.op PENDING 1 CREDIT 3000 0 overdrawn) = Done (0, 0, 8000) ∧
  @OperateBalances Fixed.lib (mkAmount "USD" (fx 30 0) CREDIT PENDING DirectionCredit false (fx 0 0))
    Sample.go_balance = Sample.go_balance.
Proof.
  apply (pending_credit_moves_overdraft overdrawn (Sample.op PENDING 1 CREDIT 3000 0 overdrawn)
    Sample.go_balance (mkAmount "USD" (fx 30 0) CREDIT PENDING DirectionCredit false (fx 0 0)));
    reflexivity.
Defined.
