(* ===== verification/CacheKeys.v ===== *)
(** * Cache keys (pkg/utils/cache.go)

    The builders of the Redis keys of the ledger.  UUIDs come from
    github.com/google/uuid, which is outside the repository: [UuidLib] has the
    type and its [String] method, [UuidLaws] what the key layout relies on.  The
    theorems say that keys identify what they were built from, that the families
    do not collide, and that every key the balance script touches carries the
    same Redis Cluster hash tag. *)

From Stdlib Require Import Ascii.
From stdpp Require Import base strings list.
From S2P Require Import Prelude GoStrings.

Local Open Scope string_scope.
Local Open Scope list_scope.

Class UuidLib := { uuid : Type; uuid_String : uuid → string }.

(** [uuid.Parse] *)
Class UuidParse `{UuidLib} := { uuid_Parse : string → option uuid }.
Class UuidParseLaws `{UuidParse} := {
  uuid_Parse_String u : uuid_Parse (uuid_String u) = Some u;
  uuid_String_length u : String.length (uuid_String u) = 36%nat }.

Definition colon : ascii := ":"%char.
Definition lbrace : ascii := "{"%char.
Definition rbrace : ascii := "}"%char.

(** The 36-character text of a UUID is made of hex digits and dashes and
    determines the UUID. *)
Class UuidLaws `{UuidLib} := {
  uuid_inj u v : uuid_String u = uuid_String v → u = v;
  uuid_no_colon u : contains_char colon (uuid_String u) = false;
  uuid_no_rbrace u : contains_char rbrace (uuid_String u) = false }.

(** ** Key builders *)

Definition BalanceSyncScheduleKey : string := "schedule:{transactions}:balance-sync-v2".
Definition TransactionBackupQueue : string := "backup_queue:{transactions}".

Section Builders.
Context `{UuidLib}.
Implicit Types (organizationID ledgerID : uuid) (key : string).

Definition TransactionInternalKey organizationID ledgerID key : string :=
  "transaction" +:+ ":" +:+ "{" +:+ "transactions" +:+ "}" +:+ ":" +:+
  uuid_String organizationID +:+ ":" +:+ uuid_String ledgerID +:+ ":" +:+ key.

Definition BalanceInternalKey organizationID ledgerID key : string :=
  "balance" +:+ ":" +:+ "{" +:+ "transactions" +:+ "}" +:+ ":" +:+
  uuid_String organizationID +:+ ":" +:+ uuid_String ledgerID +:+ ":" +:+ key.

Definition IdempotencyReverseKey organizationID ledgerID (transactionID : string) : string :=
  "idempotency_reverse" +:+ ":" +:+ "{" +:+
  uuid_String organizationID +:+ ":" +:+ uuid_String ledgerID +:+ "}" +:+ ":" +:+ transactionID.

Definition IdempotencyInternalKey organizationID ledgerID key : string :=
  "idempotency" +:+ ":" +:+ "{" +:+
  uuid_String organizationID +:+ ":" +:+ uuid_String ledgerID +:+ ":" +:+ key +:+ "}".

Definition AccountingRoutesInternalKey organizationID ledgerID (key : uuid) : string :=
  "accounting_routes" +:+ ":" +:+ "{" +:+
  uuid_String organizationID +:+ ":" +:+ uuid_String ledgerID +:+ ":" +:+ uuid_String key +:+ "}".

Definition PendingTransactionLockKey organizationID ledgerID (transactionID : string) : string :=
  "pending_transaction" +:+ ":" +:+ "{" +:+ "transaction" +:+ "}" +:+ ":" +:+
  uuid_String organizationID +:+ ":" +:+ uuid_String ledgerID +:+ ":" +:+ transactionID.

Definition RedisConsumerLockKey organizationID ledgerID (transactionID : string) : string :=
  "redis_consumer_lock" +:+ ":" +:+ "{" +:+
  uuid_String organizationID +:+ ":" +:+ uuid_String ledgerID +:+ "}" +:+ ":" +:+ transactionID.

Definition RedisConsumerCycleLockKey : string := "lock:{transactions}:backup-consumer-cycle".

Definition LedgerSettingsInternalKey organizationID ledgerID : string :=
  "ledger_settings" +:+ ":" +:+ "{" +:+
  uuid_String organizationID +:+ ":" +:+ uuid_String ledgerID +:+ "}".

Definition WriteBehindTransactionKey organizationID ledgerID (transactionID : string) : string :=
  "wb_transaction" +:+ ":" +:+ "{" +:+
  uuid_String organizationID +:+ ":" +:+ uuid_String ledgerID +:+ ":" +:+ transactionID +:+ "}".
End Builders.

(** ** The cluster slot *)

(** The text before the first [c]. *)
Fixpoint before_char (c : ascii) (s : string) : option string :=
  match s with
  | EmptyString => None
  | String a s' => if bool_decide (a = c) then Some "" else String a <$> before_char c s'
  end.

(** Redis Cluster hashes the text between the first '{' and the next '}' when it
    is there and not empty, and the whole key otherwise. *)
Definition hash_tag (key : string) : string :=
  match after_char lbrace key with
  | Some rest =>
      match before_char rbrace rest with
      | Some "" => key
      | Some tag => tag
      | None => key
      end
  | None => key
  end.

(** ** Lemmas *)

(** The segments of a key up to a colon. *)
Lemma colon_inj s1 s2 t1 t2 :
  contains_char colon s1 = false → contains_char colon t1 = false →
  s1 +:+ ":" +:+ s2 = t1 +:+ ":" +:+ t2 → s1 = t1 ∧ s2 = t2.
Proof. intros H1 H2 E. by apply (app_char_inj colon) in E. Qed.

Lemma rbrace_inj s1 s2 t1 t2 :
  contains_char rbrace s1 = false → contains_char rbrace t1 = false →
  s1 +:+ "}" +:+ s2 = t1 +:+ "}" +:+ t2 → s1 = t1 ∧ s2 = t2.
Proof. intros H1 H2 E. by apply (app_char_inj rbrace) in E. Qed.

Lemma string_app_inj_l (p s t : string) : p +:+ s = p +:+ t → s = t.
Proof. induction p as [|c p IH]; [done|]. rewrite !string_app_cons. intros [= E]. auto. Qed.

Lemma string_app_length (s t : string) :
  String.length (s +:+ t) = (String.length s + String.length t)%nat.
Proof. induction s as [|c s IH]; [done|]. rewrite string_app_cons. simpl. by rewrite IH. Qed.

Lemma string_app_inj_r (p s t : string) : s +:+ p = t +:+ p → s = t.
Proof.
  intros E. assert (String.length s = String.length t) as HL.
  { apply (f_equal String.length) in E. revert E. rewrite !string_app_length. lia. }
  revert t E HL. induction s as [|c s IH]; intros [|d t]; simpl; try lia; [done|].
  rewrite !string_app_cons. intros [= -> E] [= HL]. f_equal. auto.
Qed.

Section Injectivity.
Context `{UuidLaws}.

Lemma org_ledger_inj (o o' l l' : uuid) s s' :
  uuid_String o +:+ ":" +:+ uuid_String l +:+ ":" +:+ s
    = uuid_String o' +:+ ":" +:+ uuid_String l' +:+ ":" +:+ s' → o = o' ∧ l = l' ∧ s = s'.
Proof.
  intros [Eo E]%colon_inj; [|apply uuid_no_colon..].
  apply colon_inj in E as [El E]; [|apply uuid_no_colon..]. auto using uuid_inj.
Qed.

Lemma org_ledger_brace_inj (o o' l l' : uuid) s s' :
  uuid_String o +:+ ":" +:+ uuid_String l +:+ "}" +:+ s
    = uuid_String o' +:+ ":" +:+ uuid_String l' +:+ "}" +:+ s' → o = o' ∧ l = l' ∧ s = s'.
Proof.
  intros [Eo E]%colon_inj; [|apply uuid_no_colon..].
  apply rbrace_inj in E as [El E]; [|apply uuid_no_rbrace..]. auto using uuid_inj.
Qed.
End Injectivity.

(** ** Properties *)

(** A cache key identifies the organization, the ledger and the entity it was
    built from, in every family of keys (balances, transactions, idempotency
    entries and their reverse index, accounting routes, pending-transaction and
    consumer locks, ledger settings, write-behind transactions), whatever
    characters the entity part contains; so two tenants never share an entry. *)
Theorem cache_keys_injective `{UuidLaws} (o o' l l' : uuid) :
  (∀ k k', BalanceInternalKey o l k = BalanceInternalKey o' l' k' → o = o' ∧ l = l' ∧ k = k') ∧
  (∀ k k', TransactionInternalKey o l k = TransactionInternalKey o' l' k' → o = o' ∧ l = l' ∧ k = k') ∧
  (∀ k k', IdempotencyInternalKey o l k = IdempotencyInternalKey o' l' k' → o = o' ∧ l = l' ∧ k = k') ∧
  (∀ k k', IdempotencyReverseKey o l k = IdempotencyReverseKey o' l' k' → o = o' ∧ l = l' ∧ k = k') ∧
  (∀ k k', AccountingRoutesInternalKey o l k = AccountingRoutesInternalKey o' l' k' → o = o' ∧ l = l' ∧ k = k') ∧
  (∀ k k', PendingTransactionLockKey o l k = PendingTransactionLockKey o' l' k' → o = o' ∧ l = l' ∧ k = k') ∧
  (∀ k k', RedisConsumerLockKey o l k = RedisConsumerLockKey o' l' k' → o = o' ∧ l = l' ∧ k = k') ∧
  (∀ k k', WriteBehindTransactionKey o l k = WriteBehindTransactionKey o' l' k' → o = o' ∧ l = l' ∧ k = k') ∧
  (LedgerSettingsInternalKey o l = LedgerSettingsInternalKey o' l' → o = o' ∧ l = l').
Proof.
  split_and!.
  - intros k k' E. do 6 apply string_app_inj_l in E. by apply org_ledger_inj.
  - intros k k' E. do 6 apply string_app_inj_l in E. by apply org_ledger_inj.
  - intros k k' E. do 3 apply string_app_inj_l in E.
    apply org_ledger_inj in E as (-> & -> & E). by apply string_app_inj_r in E.
  - intros k k' E. do 3 apply string_app_inj_l in E.
    apply org_ledger_brace_inj in E as (-> & -> & E). by apply string_app_inj_l in E.
  - intros k k' E. do 3 apply string_app_inj_l in E.
    apply org_ledger_inj in E as (-> & -> & E). apply string_app_inj_r in E. auto using uuid_inj.
  - intros k k' E. do 6 apply string_app_inj_l in E. by apply org_ledger_inj.
  - intros k k' E. do 3 apply string_app_inj_l in E.
    apply org_ledger_brace_inj in E as (-> & -> & E). by apply string_app_inj_l in E.
  - intros k k' E. do 3 apply string_app_inj_l in E.
    apply org_ledger_inj in E as (-> & -> & E). by apply string_app_inj_r in E.
  - intros E. do 3 apply string_app_inj_l in E.
    destruct (org_ledger_brace_inj o o' l l' "" "") as (-> & -> & _); [|done].
    by rewrite !string_app_nil_r.
Qed.

(** The balance script may run in a Redis Cluster: the transaction backup
    queue, the transaction key, the synchronisation schedule and every balance
    key have the same hash tag, so they live in one slot; and a balance key is
    never a transaction key, the backup queue or the schedule, so the script's
    writes to one never overwrite another. *)
Theorem script_keys_share_a_slot `{UuidLib} (o l o' l' : uuid) k k' :
  hash_tag (BalanceInternalKey o l k) = "transactions" ∧
  hash_tag (TransactionInternalKey o' l' k') = "transactions" ∧
  hash_tag TransactionBackupQueue = "transactions" ∧
  hash_tag BalanceSyncScheduleKey = "transactions" ∧
  BalanceInternalKey o l k ≠ TransactionInternalKey o' l' k' ∧
  BalanceInternalKey o l k ≠ TransactionBackupQueue ∧
  BalanceInternalKey o l k ≠ BalanceSyncScheduleKey.
Proof. split_and!; try reflexivity; discriminate. Qed.

(** ** A concrete instance *)

(** Numbered identifiers written in decimal. *)
Module Numbered.
#[export] Instance lib : UuidLib := {| uuid := nat; uuid_String := strconv_Itoa |}.
#[export] Instance laws : UuidLaws.
Proof.
  split; simpl; intros; [by apply Itoa_inj|by apply Itoa_no_char..].
Defined.
End Numbered.
#[export] Existing Instance Numbered.laws.

Lemma cache_keys_injective_witness :
  let key l k := BalanceInternalKey (7 : @uuid Numbered.lib) (l : @uuid Numbered.lib) k in
  key 1 "@a:b#default" ≠ key 12 "@a:b#default" ∧ (key 1 "@a#default" = key 1 "@a#default").
Proof.
  split; [|reflexivity]. intros E.
  destruct (proj1 (cache_keys_injective (H := Numbered.lib) 7 7 1 12) _ _ E) as (_ & C & _).
  discriminate C.
Defined.

(** Four UUIDs, told apart by their last two digits. *)
Module FourIds.
Definition text (u : bool * bool) : string :=
  "00000000-0000-0000-0000-0000000000" +:+ (if u.1 then "1" else "0") +:+ (if u.2 then "1" else "0").
#[export] Instance lib : UuidLib := {| uuid := bool * bool; uuid_String := text |}.
#[export] Instance laws : UuidLaws.
Proof. split; [intros [[] []] [[] []]|intros [[] []]..]; simpl; done. Defined.
#[export] Instance parse : UuidParse (H := lib) :=
  {| uuid_Parse := λ s, List.find (λ u : @uuid lib, bool_decide (text u = s))
                          [(false, false); (false, true); (true, false); (true, true)] |}.
#[export] Instance parse_laws : UuidParseLaws.
Proof. split; intros [[] []]; reflexivity. Defined.
End FourIds.
#[export] Existing Instances FourIds.laws FourIds.parse_laws.
