(* ===== verification/MBalance.v ===== *)
(** * Balances as stored (pkg/mmodel/balance.go, balance_settings.go,
    balance_position.go)

    The balance row with its optional settings, the validation of the settings,
    the conversion to the engine's balance (which fails closed on a corrupted
    limit) and the position block of the API.  Decimal text is produced and
    parsed by the decimal library: [DecimalText] adds the two functions to the
    interface, [DecimalTextLaws] relates them to the values. *)

From Stdlib Require Import Ascii QArith Lqa.
From stdpp Require Import base gmap strings list numbers.
From S2P Require Import Prelude Decimals GoStrings Transaction BalanceOps LuaDecimal AtomicScript.

Local Open Scope string_scope.
Local Open Scope list_scope.

(** ** Decimal text *)

Class DecimalText `{DecimalLib} := {
  dstring : dec → string;               (* Decimal.String *)
  dparse : string → option dec;         (* decimal.NewFromString *)
}.

Class DecimalTextLaws `{DT : DecimalText} {DL : DecimalLaws} := {
  dstring_repr d : ∃ n z, repr n (dstring d) z ∧ (dval d == qv n z)%Q;
  dparse_repr n s z : repr n s z → ∃ d, dparse s = Some d ∧ (dval d == qv n z)%Q;
  dparse_empty : dparse "" = None }.

(** An amount is read back from its text, up to its representation. *)
Lemma parse_dstring `{DecimalTextLaws} d : ∃ d', dparse (dstring d) = Some d' ∧ d' ≡d d.
Proof.
  destruct (dstring_repr d) as (n & z & Hr & Hz). destruct (dparse_repr n _ z Hr) as (d' & E & Hz').
  exists d'. split; [done|]. unfold dec_eq. by rewrite Hz, Hz'.
Qed.

(** ** Settings *)

Definition BalanceScopeTransactional : string := "transactional".
Definition BalanceScopeInternal : string := "internal".

Record BalanceSettings := mkBalanceSettings {
  bs_BalanceScope : string; bs_AllowOverdraft : bool; bs_OverdraftLimitEnabled : bool;
  bs_OverdraftLimit : option string }.

Definition NewDefaultBalanceSettings : BalanceSettings :=
  mkBalanceSettings BalanceScopeTransactional false false None.

(** The errors of [Validate], one per return of the source. *)
Inductive SettingsError :=
| InvalidBalanceScope | LimitMustBeAbsent | LimitRequired | LimitEmpty | LimitNotDecimal
| LimitNotPositive.

Definition validateScope (s : BalanceSettings) : result SettingsError unit :=
  if bool_decide (bs_BalanceScope s = "") || bool_decide (bs_BalanceScope s = BalanceScopeTransactional)
     || bool_decide (bs_BalanceScope s = BalanceScopeInternal)
  then Ok tt else Err InvalidBalanceScope.

Section MBalance.
Context {D : DecimalLib} {DT : DecimalText}.

Definition validateOverdraftLimit (s : BalanceSettings) : result SettingsError unit :=
  if negb (bs_OverdraftLimitEnabled s) then
    match bs_OverdraftLimit s with Some _ => Err LimitMustBeAbsent | None => Ok tt end
  else
    match bs_OverdraftLimit s with
    | None => Err LimitRequired
    | Some lim =>
        if bool_decide (lim = "") then Err LimitEmpty
        else match dparse lim with
        | None => Err LimitNotDecimal
        | Some limit => if negb (dis_positive limit) then Err LimitNotPositive else Ok tt
        end
    end.

(** [(s *BalanceSettings) Validate]; [None] is the nil receiver. *)
Definition Settings_Validate (s : option BalanceSettings) : result SettingsError unit :=
  match s with
  | None => Ok tt
  | Some s => do! validateScope s;; validateOverdraftLimit s
  end.

(** ** The row *)

Record MBalance := mkMBalance {
  mb_ID : string; mb_OrganizationID : string; mb_LedgerID : string; mb_AccountID : string;
  mb_Alias : string; mb_Key : string; mb_AssetCode : string;
  mb_Available : dec; mb_OnHold : dec; mb_Version : Z; mb_AccountType : string;
  mb_AllowSending : bool; mb_AllowReceiving : bool; mb_Direction : Direction;
  mb_OverdraftUsed : dec; mb_Settings : option BalanceSettings;
  mb_CreatedAt : Time; mb_UpdatedAt : Time; mb_DeletedAt : option Time;
  mb_Metadata : gmap string AnyValue }.

Record BalanceHistory := mkBalanceHistory {
  bh_ID : string; bh_OrganizationID : string; bh_LedgerID : string; bh_AccountID : string;
  bh_Alias : string; bh_Key : string; bh_AssetCode : string;
  bh_Available : dec; bh_OnHold : dec; bh_Version : Z; bh_AccountType : string;
  bh_Direction : Direction; bh_OverdraftUsed : dec; bh_Settings : option BalanceSettings;
  bh_CreatedAt : Time; bh_UpdatedAt : Time }.

(** [deepCopySettings]: values are immutable here, so the copy is the value. *)
Definition deepCopySettings (src : option BalanceSettings) : option BalanceSettings :=
  match src with
  | None => None
  | Some s => Some (mkBalanceSettings (bs_BalanceScope s) (bs_AllowOverdraft s)
                      (bs_OverdraftLimitEnabled s) (bs_OverdraftLimit s))
  end.

Definition ToHistoryResponse (b : MBalance) : BalanceHistory :=
  mkBalanceHistory (mb_ID b) (mb_OrganizationID b) (mb_LedgerID b) (mb_AccountID b)
    (mb_Alias b) (mb_Key b) (mb_AssetCode b) (mb_Available b) (mb_OnHold b) (mb_Version b)
    (mb_AccountType b) (mb_Direction b) (mb_OverdraftUsed b) (deepCopySettings (mb_Settings b))
    (mb_CreatedAt b) (mb_UpdatedAt b).

(** [ToTransactionBalance]; the error carries the limit that does not parse. *)
Definition ToTransactionBalance (b : MBalance) : result string Balance :=
  let make allow enabled scope limit :=
    mkBalance (mb_ID b) (mb_OrganizationID b) (mb_LedgerID b) (mb_AccountID b) (mb_Alias b)
      (mb_Key b) (mb_AssetCode b) (mb_Available b) (mb_OnHold b) (mb_Version b)
      (mb_AccountType b) (mb_AllowSending b) (mb_AllowReceiving b) (mb_Direction b)
      (mb_OverdraftUsed b) allow enabled limit scope (mb_CreatedAt b) (mb_UpdatedAt b)
      (mb_DeletedAt b) (mb_Metadata b) in
  match mb_Settings b with
  | None => Ok (make false false "" dzero)
  | Some s =>
      match bs_OverdraftLimit s with
      | None => Ok (make (bs_AllowOverdraft s) (bs_OverdraftLimitEnabled s) (bs_BalanceScope s) dzero)
      | Some txt =>
          match dparse txt with
          | None => Err txt
          | Some lim => Ok (make (bs_AllowOverdraft s) (bs_OverdraftLimitEnabled s) (bs_BalanceScope s) lim)
          end
      end
  end.

(** ** Position *)

Record Position := mkPosition {
  pos_Available : dec; pos_OnHold : dec; pos_OverdraftLimitAvailable : option dec }.

Definition computePosition (available onHold overdraftUsed : dec)
    (settings : option BalanceSettings) : Position :=
  let pos l := mkPosition (available - overdraftUsed)%dec onHold l in
  match settings with
  | None => pos (Some dzero)
  | Some s =>
      if negb (bs_AllowOverdraft s) then pos (Some dzero)
      else if negb (bs_OverdraftLimitEnabled s) then pos None
      else
        let limit := match bs_OverdraftLimit s with
                     | Some txt => default dzero (dparse txt)
                     | None => dzero
                     end in
        pos (Some (limit - overdraftUsed)%dec)
  end.

Definition Balance_ComputePosition (b : MBalance) : Position :=
  computePosition (mb_Available b) (mb_OnHold b) (mb_OverdraftUsed b) (mb_Settings b).
Definition BalanceHistory_ComputePosition (b : BalanceHistory) : Position :=
  computePosition (bh_Available b) (bh_OnHold b) (bh_OverdraftUsed b) (bh_Settings b).
End MBalance.

(** ** Properties *)

Section Properties.
Context {D : DecimalLib} {DT : DecimalText} {DL : DecimalLaws}.

(** Settings that pass [Validate] always convert: the engine's balance has
    the flags of the settings, a limit that is strictly positive exactly when
    the limit is enabled, every other field unchanged, and the scope is one of
    the two documented ones or empty.  So the fail-closed error of the
    conversion is reached only by rows whose settings were never validated. *)
Theorem validated_settings_convert (b : MBalance) :
  Settings_Validate (mb_Settings b) = Ok tt →
  ∃ t, ToTransactionBalance b = Ok t ∧
    bal_ID t = mb_ID b ∧ bal_Available t = mb_Available b ∧ bal_OnHold t = mb_OnHold b ∧
    bal_OverdraftUsed t = mb_OverdraftUsed b ∧ bal_Version t = mb_Version b ∧
    bal_Direction t = mb_Direction b ∧
    bal_AllowOverdraft t = default false (bs_AllowOverdraft <$> mb_Settings b) ∧
    bal_OverdraftLimitEnabled t = default false (bs_OverdraftLimitEnabled <$> mb_Settings b) ∧
    (if bal_OverdraftLimitEnabled t then 0 < dval (bal_OverdraftLimit t)
     else dval (bal_OverdraftLimit t) == 0)%Q ∧
    bal_BalanceScope t ∈ [""; BalanceScopeTransactional; BalanceScopeInternal].
Proof.
  unfold ToTransactionBalance. destruct (mb_Settings b) as [s|]; simpl.
  2:{ intros _. eexists. split_and!; try reflexivity; [apply dval_zero|set_solver]. }
  intros ([] & H1 & H2)%rbind_Ok. unfold validateScope in H1.
  destruct (_ || _) eqn:Heqb0; [clear H1|done].
  assert (bs_BalanceScope s ∈ [""; BalanceScopeTransactional; BalanceScopeInternal]) as Hs.
  { apply orb_true_iff in Heqb0 as [Hb|Hb]; [apply orb_true_iff in Hb as [Hb|Hb]|];
      apply bool_decide_eq_true in Hb; rewrite Hb; set_solver. }
  unfold validateOverdraftLimit in H2. destruct (bs_OverdraftLimitEnabled s) eqn:El; simpl in *.
  - destruct (bs_OverdraftLimit s) as [txt|]; [|done]. case_bool_decide; [done|].
    destruct (dparse txt) as [lim|]; [|done]. destruct (dis_positive lim) eqn:Ep; [|done].
    apply dis_positive_spec in Ep. eexists. split_and!; try reflexivity; done.
  - destruct (bs_OverdraftLimit s); [done|]. eexists.
    split_and!; try reflexivity; [apply dval_zero|done].
Qed.

(** The position of a balance is its net spendable amount, [Available] minus
    [OverdraftUsed], with the hold unchanged; the headroom is absent exactly when
    overdraft is allowed without a limit, zero when overdraft is off, and
    otherwise the limit minus the amount used.  The history snapshot of a balance
    has the position of the balance. *)
Theorem position_correct (b : MBalance) :
  BalanceHistory_ComputePosition (ToHistoryResponse b) = Balance_ComputePosition b ∧
  (dval (pos_Available (Balance_ComputePosition b)) == dval (mb_Available b) - dval (mb_OverdraftUsed b))%Q ∧
  pos_OnHold (Balance_ComputePosition b) = mb_OnHold b ∧
  (pos_OverdraftLimitAvailable (Balance_ComputePosition b) = None ↔
     ∃ s, mb_Settings b = Some s ∧ bs_AllowOverdraft s = true ∧ bs_OverdraftLimitEnabled s = false) ∧
  (∀ h, pos_OverdraftLimitAvailable (Balance_ComputePosition b) = Some h →
     (dval h == 0)%Q ∧ default false (bs_AllowOverdraft <$> mb_Settings b) = false ∨
     ∃ s, mb_Settings b = Some s ∧ bs_AllowOverdraft s = true ∧ bs_OverdraftLimitEnabled s = true ∧
       ∀ t, ToTransactionBalance b = Ok t →
         (dval h == dval (bal_OverdraftLimit t) - dval (mb_OverdraftUsed b))%Q).
Proof.
  unfold Balance_ComputePosition, BalanceHistory_ComputePosition, ToHistoryResponse,
    computePosition, ToTransactionBalance, deepCopySettings.
  destruct (mb_Settings b) as [[scope allow enabled lim]|]; simpl.
  2:{ split_and!; [done|apply dval_sub|done| |].
      - split; [done|]. by intros (s & ? & _).
      - intros h [= <-]. left. split; [apply dval_zero|done]. }
  destruct allow, enabled; simpl; (split_and!; [done|apply dval_sub|done| |]).
  - split; [done|]. intros (s & [= <-] & _ & ?). done.
  - intros h [= <-]. right. eexists. split_and!; [done..|]. intros t Ht. simpl in Ht.
    destruct lim as [txt|]; [destruct (dparse txt); [|done]|];
      injection Ht as <-; simpl; apply dval_sub.
  - split; [|done]. intros _. by eexists.
  - done.
  - split; [done|]. intros (s & [= <-] & ? & _). done.
  - intros h [= <-]. left. split; [apply dval_zero|done].
  - split; [done|]. intros (s & [= <-] & ? & _). done.
  - intros h [= <-]. left. split; [apply dval_zero|done].
Qed.
End Properties.

(** ** Decimal text of the concrete instance *)

Module FixedText.

(** The [k] least significant decimal digits, most significant first. *)
Fixpoint to_digits (k : nat) (n : Z) : list Z :=
  match k with
  | O => []
  | S k' => (n / ten k') `mod` 10 :: to_digits k' n
  end%Z.

Definition print (d : Fixed.t) : string :=
  let n := Z.abs (Fixed.coef d) in
  let s := Fixed.scale d in
  let ds := to_digits (S (Z.to_nat (Z.log2 n)) + s) n in
  let I := match drop_zeros (take (S (Z.to_nat (Z.log2 n))) ds) with [] => [0%Z] | l => l end in
  let body := usg I (rtrim_zeros (drop (S (Z.to_nat (Z.log2 n))) ds)) in
  if (Fixed.coef d <? 0)%Z then String minus body else body.

Definition parse_unsigned (s : string) : option Fixed.t :=
  match match_decimal s with
  | Some (i, f) => Some (Fixed.mk (be_val (digits_of i ++ digits_of f)) (String.length f))
  | None =>
      if negb (bool_decide (s = "")) && all_chars is_digit s
      then Some (Fixed.mk (be_val (digits_of s)) 0) else None
  end.
Definition parse (s : string) : option Fixed.t :=
  if startsWithMinus s
  then (λ d, Fixed.mk (- Fixed.coef d) (Fixed.scale d)) <$> parse_unsigned (tail s)
  else parse_unsigned s.

#[export] Instance text : @DecimalText Fixed.lib := {| dstring := print : @dec Fixed.lib → string; dparse := parse : string → option (@dec Fixed.lib) |}.

Lemma to_digits_length k n : length (to_digits k n) = k.
Proof. induction k; simpl; congruence. Qed.
Lemma to_digits_dig k n : Forall is_dig (to_digits k n).
Proof.
  induction k; simpl; constructor; [|done].
  pose proof (Z.mod_pos_bound (n / ten k) 10 ltac:(lia)). unfold is_dig. lia.
Qed.
Lemma to_digits_val k n : (0 <= n → be_val (to_digits k n) = n `mod` ten k)%Z.
Proof.
  intros Hn. induction k as [|k IH]; simpl; [unfold ten; simpl; by rewrite Z.mod_1_r|].
  rewrite to_digits_length, IH, ten_S. pose proof (ten_pos k).
  rewrite (Z.mul_comm 10), Z.rem_mul_r by lia. lia.
Qed.
Lemma p10_ten s : Z.pos (Fixed.p10 s) = ten s.
Proof. induction s as [|s IH]; [done|]. rewrite ten_S, <- IH. simpl. lia. Qed.

Lemma val_qv c s : (Fixed.val (Fixed.mk c s) == qv s c)%Q.
Proof. unfold Fixed.val, qv. simpl. rewrite <- p10_ten, Qmake_Qdiv. reflexivity. Qed.

Lemma print_repr d : repr (Fixed.scale d) (print d) (Fixed.coef d).
Proof.
  destruct d as [c s]. unfold print. simpl Fixed.coef. simpl Fixed.scale.
  set (n := Z.abs c). set (w := S (Z.to_nat (Z.log2 n))). set (ds := to_digits (w + s) n).
  pose proof (to_digits_dig (w + s) n) as Hd. fold ds in Hd.
  assert (length ds = w + s)%nat as HL by apply to_digits_length.
  assert (be_val ds = n) as HV.
  { unfold ds. rewrite to_digits_val by lia. apply Z.mod_small. split; [lia|].
    destruct (Z.eq_dec n 0%Z) as [->|]; [apply ten_pos|].
    pose proof (Z.log2_spec n ltac:(lia)) as [_ Hlt]. pose proof (Z.log2_nonneg n).
    apply Z.lt_le_trans with (1 := Hlt). rewrite ten_add. pose proof (ten_pos s).
    assert (2 ^ Z.succ (Z.log2 n) <= ten w)%Z.
    { unfold ten, w. rewrite Nat2Z.inj_succ, Z2Nat.id by lia. apply Z.pow_le_mono_l. lia. }
    nia. }
  set (I0 := take w ds). set (F := drop w ds).
  assert (length F = s) as HF by (unfold F; rewrite length_drop; lia).
  assert (Forall is_dig I0 ∧ Forall is_dig F) as [HdI HdF] by (split; [by apply Forall_take|by apply Forall_drop]).
  set (I := match drop_zeros I0 with [] => [0%Z] | l => l end).
  assert (I ≠ [] ∧ Forall is_dig I ∧ be_val I = be_val I0) as (HN & HD & HB).
  { pose proof (drop_zeros_val I0) as E. pose proof (drop_zeros_digits _ HdI) as Ed.
    unfold I. destruct (drop_zeros I0); [|done]. simpl in E. split_and!; [done| |simpl; lia].
    constructor; [unfold is_dig; lia|constructor]. }
  destruct (uval_rtrim s I F) as [HU HR]; [lia|].
  assert (uval s I (rtrim_zeros F) = n) as HUn.
  { rewrite HU. unfold uval. rewrite HF, Nat.sub_diag, HB. unfold ten at 2. simpl Z.of_nat.
    rewrite <- HF, Z.pow_0_r, Z.mul_1_r, <- be_val_app. unfold I0, F. by rewrite take_drop. }
  assert (udec I (rtrim_zeros F)) by (split_and!; auto using rtrim_digits).
  destruct (Z.ltb_spec c 0).
  - replace c with (- uval s I (rtrim_zeros F))%Z by lia. constructor; [done|lia|lia].
  - replace c with (uval s I (rtrim_zeros F)) by lia. constructor; [done|lia].
Qed.

Lemma parse_usg I F :
  udec I F → parse_unsigned (usg I F) = Some (Fixed.mk (be_val (I ++ F)) (length F)).
Proof.
  intros HU. unfold parse_unsigned. rewrite match_usg by done. destruct HU as (HI & HdI & HdF).
  destruct F as [|f F].
  - simpl. rewrite (string_digits _ HdI), digits_string, app_nil_r by done.
    rewrite bool_decide_false by (by destruct I). done.
  - rewrite !digits_string, string_of_length by done. done.
Qed.

Lemma usg_value n I F :
  (length F <= n)%nat → (qv (length F) (be_val (I ++ F)) == qv n (uval n I F))%Q.
Proof.
  intros HL. unfold qv. pose proof (uval_digits n I F HL) as E.
  pose proof (ten_pos n). pose proof (ten_pos (length F)).
  apply (f_equal inject_Z) in E. rewrite !inject_Z_mult in E.
  rewrite Zlt_Qlt in *. change (inject_Z 0) with 0%Q in *.
  assert (inject_Z (be_val (I ++ F)) == inject_Z (uval n I F) * inject_Z (ten (length F)) / inject_Z (ten n))%Q as ->.
  { rewrite E. field. intros Hc. lra. }
  field. split; intros Hc; lra.
Qed.

#[export] Instance text_laws : @DecimalTextLaws Fixed.lib text Fixed.laws.
Proof.
  split.
  - intros d. exists (Fixed.scale d), (Fixed.coef d). split; [apply print_repr|].
    destruct d. apply val_qv.
  - intros n s z [I F HU HL|I F HU HL HP]; simpl; unfold parse.
    + rewrite usg_no_minus, parse_usg by done. eexists. split; [done|].
      rewrite <- usg_value by done. apply val_qv.
    + simpl. rewrite parse_usg by done. eexists. split; [done|]. simpl.
      rewrite qv_opp, <- usg_value, <- qv_opp by done. apply val_qv.
  - reflexivity.
Defined.
End FixedText.
#[export] Existing Instance FixedText.text.
#[export] Existing Instance FixedText.text_laws.

Definition limited : @MBalance Fixed.lib :=
  mkMBalance "b1" "org" "ledger" "acc1" "@alice" "default" "USD" (fx 100 0) (fx 0 0) 7 "deposit"
    true true DirectionCredit (fx 0 0)
    (Some (mkBalanceSettings "transactional" true true (Some "500.00"))) 0 0 None ∅.

Lemma validated_settings_convert_witness :
  Settings_Validate (D := Fixed.lib) (mb_Settings limited) = Ok tt ∧
  ∃ t, ToTransactionBalance (D := Fixed.lib) limited = Ok t ∧ bal_OverdraftLimitEnabled t = true ∧
    (0 < dval (bal_OverdraftLimit t))%Q.
Proof.
  assert (Settings_Validate (D := Fixed.lib) (mb_Settings limited) = Ok tt) as E by (vm_compute; reflexivity).
  split; [exact E|].
  destruct (validated_settings_convert (DL := Fixed.laws) limited E)
    as (t & Et & _ & _ & _ & _ & _ & _ & _ & He & Hl & _).
  exists t. rewrite He in Hl. split; [exact Et|]. split; [exact He|exact Hl].
Defined.
