(* ===== verification/BalancePlan.v ===== *)
(** * From balances to the script and back (http/in/transaction_helper.go,
    services/command/process_balance_operations.go,
    adapters/redis/transaction/consumer.redis.go)

    The services turn a validated transaction and the loaded balances into a
    list of operations sorted by cache key ([buildBalanceOperations]), flatten
    each into the 24 arguments of one script group
    ([buildBalanceAtomicOperationPlan]), run the script and convert its snapshots
    back ([balanceRedisToBalance]).  The tenant prefix of a key comes from a
    library and is the parameter [tenant_key]. *)

From Stdlib Require Import Ascii QArith Lqa.
From stdpp Require Import base gmap strings list numbers sorting.
From S2P Require Import Prelude Decimals GoStrings Transaction BalanceOps LuaDecimal AtomicScript CacheKeys.
From S2P Require Import MBalance.

Local Open Scope string_scope.
Local Open Scope list_scope.

(** ** Building the operations *)

Section Operations.
Context {D : DecimalLib} {DT : DecimalText} {U : UuidLib}.

(** [mmodel.BalanceOperation]; the balance pointer is never nil on this path. *)
Record BalanceOperation := mkBalanceOperation {
  bo_Balance : MBalance; bo_Alias : string; bo_Amount : Amount; bo_InternalKey : string }.

(** [getAliasWithoutKey] *)
Definition getAliasWithoutKey (array : list string) : list string :=
  map (λ str, match strings_Split hash str with w :: _ => w | [] => "" end) array.

(** [filterCompanionAliases] *)
Definition is_companion_alias (a : string) : bool :=
  match after_last_char hash a with
  | Some key => bool_decide (key = OverdraftBalanceKey)
  | None => false
  end.
Definition filterCompanionAliases (aliases : list string) : list string :=
  List.filter (λ a, negb (is_companion_alias a)) aliases.

Definition balance_alias_key (b : MBalance) : string :=
  mb_Alias b +:+ "#" +:+
  (if bool_decide (mb_Key b = "") then DefaultBalanceKey else mb_Key b).

(** The map [balanceByAliasKey]: a later balance overwrites an earlier one. *)
Definition balanceByAliasKey (organizationID ledgerID : uuid) (balances : list MBalance)
  : gmap string (MBalance * string) :=
  fold_left (λ m b,
    <[balance_alias_key b := (b, BalanceInternalKey organizationID ledgerID (balance_alias_key b))]> m)
    balances ∅.

(** The body of the loop over [validate.From]. *)
Definition from_ops (index : gmap string (MBalance * string)) (entry : string * Amount)
  : list BalanceOperation :=
  let '(alias, amount) := entry in
  match index !! SplitAliasWithKey alias with
  | None => []
  | Some (b, internalKey) =>
      if IsDoubleEntrySource amount then
        let '(op1, op2) := SplitDoubleEntryOps amount in
        [mkBalanceOperation b alias op1 internalKey; mkBalanceOperation b alias op2 internalKey]
      else [mkBalanceOperation b alias amount internalKey]
  end.

(** The body of the loop over [validate.To]. *)
Definition to_ops (index : gmap string (MBalance * string)) (entry : string * Amount)
  : list BalanceOperation :=
  let '(alias, amount) := entry in
  match index !! SplitAliasWithKey alias with
  | None => []
  | Some (b, internalKey) => [mkBalanceOperation b alias amount internalKey]
  end.

Definition key_le (x y : BalanceOperation) : Prop :=
  String.leb (bo_InternalKey x) (bo_InternalKey y) = true.
#[export] Instance key_le_dec : RelDecision key_le.
Proof. intros x y. unfold key_le. apply _. Defined.

(** The entries in the order in which Go happens to range over the maps. *)
Definition collect_ops (index : gmap string (MBalance * string))
    (from to : list (string * Amount)) : list BalanceOperation :=
  flat_map (from_ops index) from ++ flat_map (to_ops index) to.

(** [sort.Slice] orders by key and promises nothing about equal keys; the
    executable definition keeps their order. *)
Definition buildBalanceOperations (organizationID ledgerID : uuid) (validate : Responses)
    (balances : list MBalance) : list BalanceOperation :=
  merge_sort key_le (collect_ops (balanceByAliasKey organizationID ledgerID balances)
    (map_to_list (resp_From validate)) (map_to_list (resp_To validate))).

(** [deduplicateBalances]: one balance per alias, the first operation wins. *)
Fixpoint dedup_loop (seen : gset string) (operations : list BalanceOperation)
  : result string (list Balance) :=
  match operations with
  | [] => Ok []
  | bo :: rest =>
      if bool_decide (bo_Alias bo ∈ seen) then dedup_loop seen rest
      else
        let! txBal := ToTransactionBalance (bo_Balance bo) in
        let! others := dedup_loop ({[bo_Alias bo]} ∪ seen) rest in
        Ok (txBal :: others)
  end.
Definition deduplicateBalances (operations : list BalanceOperation) : result string (list Balance) :=
  dedup_loop ∅ operations.

(** [rejectInternalScopeBalances] *)
Definition rejectInternalScopeBalances (balances : list MBalance) : result GoError unit :=
  for_each (λ b,
    match mb_Settings b with
    | None => Ok tt
    | Some s => if bool_decide (bs_BalanceScope s = BalanceScopeInternal)
                then Err ErrDirectOperationOnInternalBalance else Ok tt
    end) balances.

(** ** Arguments of the script *)

Definition boolToInt (b : bool) : Z := if b then 1 else 0.

(** One group of [luaArgsPerOperation] values.  Integers travel as decimal text
    and are read back by [tonumber], which is exact below [2^53]. *)
Definition plan_arg (redisBalanceKey : string) (transactionStatus : TxStatus) (isPending : Z)
    (bo : BalanceOperation) : ScriptArg string :=
  let b := bo_Balance bo in
  let settings := mb_Settings b in
  let allowOverdraft := match settings with Some s => boolToInt (bs_AllowOverdraft s) | None => 0%Z end in
  let overdraftLimitEnabled :=
    match settings with Some s => boolToInt (bs_OverdraftLimitEnabled s) | None => 0%Z end in
  let overdraftLimit :=
    match settings with Some s => default "0" (bs_OverdraftLimit s) | None => "0" end in
  let balanceScope :=
    match settings with
    | Some s => if negb (bool_decide (bs_BalanceScope s = "")) then bs_BalanceScope s
                else BalanceScopeTransactional
    | None => BalanceScopeTransactional
    end in
  mkScriptArg redisBalanceKey isPending transactionStatus (amt_Operation (bo_Amount bo))
    (dstring (amt_Value (bo_Amount bo))) (bo_Alias bo)
    (boolToInt (amt_RouteValidationEnabled (bo_Amount bo)))
    (mkLuaBalance (mb_ID b) (dstring (mb_Available b)) (dstring (mb_OnHold b)) (mb_Version b)
       (mb_AccountType b) (mb_AccountID b) (mb_AssetCode b) (boolToInt (mb_AllowSending b))
       (boolToInt (mb_AllowReceiving b)) (mb_Key b) (mb_Direction b) (dstring (mb_OverdraftUsed b))
       allowOverdraft overdraftLimitEnabled overdraftLimit balanceScope None)
    (dstring (amt_OverdraftAmount (bo_Amount bo))).

Record balanceAtomicOperationPlan := mkPlan {
  plan_args : list (ScriptArg string);
  plan_mapBalances : gmap string MBalance;
  plan_notedBalances : list MBalance }.

Definition set_mb_Alias (alias : string) (b : MBalance) : MBalance :=
  mkMBalance (mb_ID b) (mb_OrganizationID b) (mb_LedgerID b) (mb_AccountID b) alias (mb_Key b)
    (mb_AssetCode b) (mb_Available b) (mb_OnHold b) (mb_Version b) (mb_AccountType b)
    (mb_AllowSending b) (mb_AllowReceiving b) (mb_Direction b) (mb_OverdraftUsed b)
    (mb_Settings b) (mb_CreatedAt b) (mb_UpdatedAt b) (mb_DeletedAt b) (mb_Metadata b).

Section Plan.
Context (tenant_key : string → result string string).

Definition plan_step (transactionStatus : TxStatus) (pending : bool)
    (plan : balanceAtomicOperationPlan) (bo : BalanceOperation)
  : result string balanceAtomicOperationPlan :=
  let! key := tenant_key (bo_InternalKey bo) in
  Ok (mkPlan
    (plan_args plan ++ [plan_arg key transactionStatus (boolToInt pending) bo])
    (<[bo_Alias bo := bo_Balance bo]> (plan_mapBalances plan))
    (if bool_decide (transactionStatus = NOTED)
     then plan_notedBalances plan ++ [set_mb_Alias (bo_Alias bo) (bo_Balance bo)]
     else plan_notedBalances plan)).

Definition buildBalanceAtomicOperationPlan (transactionStatus : TxStatus) (pending : bool)
    (balancesOperation : list BalanceOperation) : result string balanceAtomicOperationPlan :=
  fold_res (plan_step transactionStatus pending) (mkPlan [] ∅ []) balancesOperation.
End Plan.

(** ** Snapshots back to balances *)

Record BalanceRedis := mkBalanceRedis {
  br_ID : string; br_Alias : string; br_Key : string; br_AccountID : string;
  br_AssetCode : string; br_Available : dec; br_OnHold : dec; br_Version : Z;
  br_AccountType : string; br_AllowSending : Z; br_AllowReceiving : Z; br_Direction : Direction;
  br_OverdraftUsed : string; br_AllowOverdraft : Z; br_OverdraftLimitEnabled : Z;
  br_OverdraftLimit : string; br_BalanceScope : string }.

(** [BalanceRedis.UnmarshalJSON] on a snapshot of the script, whose amounts are
    strings; [None] is its error. *)
Definition decode_snapshot (b : LuaBalance string) : option BalanceRedis :=
  available ← dparse (lb_Available b);
  onHold ← dparse (lb_OnHold b);
  Some (mkBalanceRedis (lb_ID b) (default "" (lb_Alias b))
    (if bool_decide (lb_Key b = "") then DefaultBalanceKey else lb_Key b)
    (lb_AccountID b) (lb_AssetCode b) available onHold (lb_Version b) (lb_AccountType b)
    (lb_AllowSending b) (lb_AllowReceiving b) (lb_Direction b) (lb_OverdraftUsed b)
    (lb_AllowOverdraft b) (lb_OverdraftLimitEnabled b)
    (if bool_decide (lb_OverdraftLimit b = "") then "0" else lb_OverdraftLimit b)
    (lb_BalanceScope b)).

(** The settings [balanceRedisToBalance] rebuilds. *)
Definition redis_settings (b : BalanceRedis) : option BalanceSettings :=
  if negb (br_AllowOverdraft b =? 0)%Z || negb (br_OverdraftLimitEnabled b =? 0)%Z
     || (negb (bool_decide (br_BalanceScope b = ""))
         && negb (bool_decide (br_BalanceScope b = BalanceScopeTransactional)))
     || (negb (bool_decide (br_OverdraftLimit b = "")) && negb (bool_decide (br_OverdraftLimit b = "0")))
  then Some (mkBalanceSettings (br_BalanceScope b) (br_AllowOverdraft b =? 1)%Z
    (br_OverdraftLimitEnabled b =? 1)%Z
    (if (br_OverdraftLimitEnabled b =? 1)%Z && negb (bool_decide (br_OverdraftLimit b = ""))
     then Some (br_OverdraftLimit b) else None))
  else None.

Definition balanceRedisToBalance (b : BalanceRedis) (mapBalances : gmap string MBalance)
  : option MBalance :=
  mapBalance ← mapBalances !! br_Alias b;
  Some (mkMBalance (br_ID b) (mb_OrganizationID mapBalance) (mb_LedgerID mapBalance)
    (br_AccountID b) (br_Alias b)
    (if bool_decide (mb_Key mapBalance = "") then DefaultBalanceKey else mb_Key mapBalance)
    (mb_AssetCode mapBalance) (br_Available b) (br_OnHold b) (br_Version b) (br_AccountType b)
    (mb_AllowSending mapBalance) (mb_AllowReceiving mapBalance) (br_Direction b)
    (default dzero (dparse (br_OverdraftUsed b))) (redis_settings b)
    (mb_CreatedAt mapBalance) (mb_UpdatedAt mapBalance) None ∅).

(** The list decoder skips an element it cannot decode. *)
Definition decode_list (l : list (LuaBalance string)) : list BalanceRedis := omap decode_snapshot l.

Definition collectBalanceSnapshots (balances : list BalanceRedis) (mapBalances : gmap string MBalance)
  : list MBalance := omap (λ b, balanceRedisToBalance b mapBalances) balances.

(** ** Running the script *)

Inductive ProcessError :=
| Business (e : GoError)        (* pkg.ValidateBusinessError *)
| RawError (msg : string).      (* the error as it came *)

Definition mapBalanceAtomicScriptError (msg : string) : ProcessError :=
  if strings_Contains msg "0167" then Business ErrOverdraftLimitExceeded
  else if strings_Contains msg "0174" then Business ErrStaleBalanceVersion
  else if strings_Contains msg "0018" then Business ErrInsufficientFunds
  else if strings_Contains msg "0098" then Business ErrOnHoldExternalAccount
  else if strings_Contains msg "0139" then Business ErrTransactionBackupCacheRetrievalFailed
  else RawError msg.

(** [ProcessBalanceAtomicOperation]; [crash_message] is the text of a Lua error. *)
Definition ProcessBalanceAtomicOperation (tenant_key : string → result string string)
    (crash_message : string) (dueAt : Z) (organizationID ledgerID : uuid) (transactionID : string)
    (transactionStatus : TxStatus) (pending : bool) (balancesOperation : list BalanceOperation)
    (r : Redis) : Redis * result ProcessError (list MBalance * list MBalance) :=
  match buildBalanceAtomicOperationPlan tenant_key transactionStatus pending balancesOperation with
  | Err msg => (r, Err (RawError msg))
  | Ok plan =>
      if bool_decide (transactionStatus = NOTED)
      then (r, Ok (plan_notedBalances plan, plan_notedBalances plan))
      else
        match (let! _ := tenant_key TransactionBackupQueue in
               let! key := tenant_key (TransactionInternalKey organizationID ledgerID transactionID) in
               let! _ := tenant_key BalanceSyncScheduleKey in Ok key) with
        | Err msg => (r, Err (RawError msg))
        | Ok transactionKey =>
            match script_main transactionKey dueAt (plan_args plan) r with
            | ScriptError code r' => (r', Err (mapBalanceAtomicScriptError code))
            | ScriptCrash r' => (r', Err (mapBalanceAtomicScriptError crash_message))
            | ScriptOk before after r' =>
                (r', Ok (collectBalanceSnapshots (decode_list before) (plan_mapBalances plan),
                         collectBalanceSnapshots (decode_list after) (plan_mapBalances plan)))
            end
        end
  end.
(** What a handler learns of its balance operations: the balances before and after, that they
    were refused, or an error although the script ran and only its reply was lost. *)
Inductive process_answer :=
  | Processed (before after : list MBalance)
  | ProcessRefused (e : string)
  | ProcessLost (e : string).

End Operations.

(** ** Lemmas *)

Section Lemmas.
Context {D : DecimalLib} {DT : DecimalText} {U : UuidLib}.

Lemma balanceByAliasKey_lookup o l balances k b ik :
  balanceByAliasKey o l balances !! k = Some (b, ik) →
  b ∈ balances ∧ k = balance_alias_key b ∧ ik = BalanceInternalKey o l k.
Proof.
  unfold balanceByAliasKey.
  assert (∀ m : gmap string (MBalance * string), (∀ k b ik, m !! k = Some (b, ik) →
      b ∈ balances ∧ k = balance_alias_key b ∧ ik = BalanceInternalKey o l k) →
    ∀ bs, (∀ b, b ∈ bs → b ∈ balances) →
    fold_left (λ m b, <[balance_alias_key b
        := (b, BalanceInternalKey o l (balance_alias_key b))]> m) bs m !! k = Some (b, ik) →
    b ∈ balances ∧ k = balance_alias_key b ∧ ik = BalanceInternalKey o l k) as H.
  { intros m Hm bs. revert m Hm. induction bs as [|b' bs IH]; intros m Hm Hbs; simpl; [apply Hm|].
    apply IH; [|intros; apply Hbs; by right]. intros k' b0 ik0. rewrite lookup_insert_Some.
    intros [[<- [= <- <-]]|[_ H]]; [|by apply Hm]. split_and!; [apply Hbs; by left|done..]. }
  apply H; [|done]. intros ???. by rewrite lookup_empty.
Qed.

Lemma balanceByAliasKey_total o l balances b :
  b ∈ balances → is_Some (balanceByAliasKey o l balances !! balance_alias_key b).
Proof.
  unfold balanceByAliasKey. intros Hb.
  assert (∀ bs (m : gmap string (MBalance * string)), (b ∈ bs ∨ is_Some (m !! balance_alias_key b)) →
    is_Some (fold_left (λ m b, <[balance_alias_key b
        := (b, BalanceInternalKey o l (balance_alias_key b))]> m) bs m !! balance_alias_key b)) as H.
  { induction bs as [|b' bs IH]; intros m [Hin|Hm]; simpl; [by apply elem_of_nil in Hin|done| |].
    - apply IH. apply elem_of_cons in Hin as [->|Hin]; [right|by left].
      rewrite lookup_insert_eq. eauto.
    - apply IH. right. destruct (decide (balance_alias_key b' = balance_alias_key b)) as [E|E];
        [rewrite E, lookup_insert_eq; eauto|by rewrite lookup_insert_ne]. }
  apply H. by left.
Qed.

Lemma key_le_total : Total key_le.
Proof. intros x y. unfold key_le. apply String.leb_total. Qed.

Lemma flat_map_Permutation {A B} (f : A → list B) l l' : l ≡ₚ l' → flat_map f l ≡ₚ flat_map f l'.
Proof.
  induction 1; simpl; [done|by apply Permutation_app_head| |by etransitivity].
  rewrite !app_assoc. apply Permutation_app_tail, Permutation_app_comm.
Qed.

(** The operations of one recorded entry: the amount itself, or its two halves. *)
Definition entry_amounts (is_from : bool) (amount : Amount) : list Amount :=
  if is_from && IsDoubleEntrySource amount
  then [(SplitDoubleEntryOps amount).1; (SplitDoubleEntryOps amount).2] else [amount].

Lemma from_ops_spec index alias amount op :
  op ∈ from_ops index (alias, amount) ↔
  ∃ b ik, index !! SplitAliasWithKey alias = Some (b, ik) ∧ bo_Balance op = b ∧
    bo_Alias op = alias ∧ bo_InternalKey op = ik ∧ bo_Amount op ∈ entry_amounts true amount.
Proof.
  unfold from_ops, entry_amounts. destruct (index !! _) as [[b ik]|] eqn:E; simpl.
  - destruct (IsDoubleEntrySource amount); simpl.
    + destruct (SplitDoubleEntryOps amount) as [a1 a2]. simpl. rewrite !elem_of_cons, elem_of_nil. split.
      * intros [->|[->|[]]]; eexists _, _; (split_and!; [done..|]); simpl; set_solver.
      * intros (b' & ik' & [= <- <-] & Hb & Ha & Hk & Hin). destruct op as [ob oa om ok]. simpl in *.
        subst. set_solver.
    + rewrite list_elem_of_singleton. split.
      * intros ->. eexists _, _; (split_and!; [done..|]); simpl; set_solver.
      * intros (b' & ik' & [= <- <-] & Hb & Ha & Hk & Hin). destruct op as [ob oa om ok]. simpl in *.
        subst. by apply list_elem_of_singleton in Hin as ->.
  - rewrite elem_of_nil. split; [done|]. by intros (? & ? & ? & _).
Qed.

Lemma to_ops_spec index alias amount op :
  op ∈ to_ops index (alias, amount) ↔
  ∃ b ik, index !! SplitAliasWithKey alias = Some (b, ik) ∧ bo_Balance op = b ∧
    bo_Alias op = alias ∧ bo_InternalKey op = ik ∧ bo_Amount op ∈ entry_amounts false amount.
Proof.
  unfold to_ops, entry_amounts. destruct (index !! _) as [[b ik]|] eqn:E; simpl.
  - rewrite list_elem_of_singleton. split.
    + intros ->. eexists _, _; (split_and!; [done..|]); simpl; set_solver.
    + intros (b' & ik' & [= <- <-] & Hb & Ha & Hk & Hin). destruct op as [ob oa om ok]. simpl in *.
      subst. by apply list_elem_of_singleton in Hin as ->.
  - rewrite elem_of_nil. split; [done|]. by intros (? & ? & ? & _).
Qed.
End Lemmas.

(** ** Properties *)

(** The operations of a transaction are complete, sound and sorted by cache
    key.  The list is sorted; for every order in which Go ranges over the two maps
    it is a permutation of the operations collected in that order; an operation is
    in it exactly when its amount is the amount recorded for its alias (or, for a
    double-entry source, one of its two halves) and its balance is the one indexed
    under the alias without its position; and that balance is one of the loaded
    balances, with the cache key of its own alias and key. *)
Theorem built_operations_correct {D : DecimalLib} {DT : DecimalText} {U : UuidLib}
    (o l : uuid) (validate : Responses) (balances : list MBalance) :
  let index := balanceByAliasKey o l balances in
  let ops := buildBalanceOperations o l validate balances in
  Sorted key_le ops ∧
  (∀ from to, from ≡ₚ map_to_list (resp_From validate) → to ≡ₚ map_to_list (resp_To validate) →
     ops ≡ₚ collect_ops index from to) ∧
  (∀ op, op ∈ ops ↔ ∃ (is_from : bool) amount,
     (if is_from then resp_From validate else resp_To validate) !! bo_Alias op = Some amount ∧
     bo_Amount op ∈ entry_amounts is_from amount ∧
     index !! SplitAliasWithKey (bo_Alias op) = Some (bo_Balance op, bo_InternalKey op)) ∧
  (∀ op, op ∈ ops → bo_Balance op ∈ balances ∧
     SplitAliasWithKey (bo_Alias op) = balance_alias_key (bo_Balance op) ∧
     bo_InternalKey op = BalanceInternalKey o l (balance_alias_key (bo_Balance op))).
Proof.
  intros index ops.
  assert (∀ op, op ∈ ops ↔ ∃ (is_from : bool) amount,
     (if is_from then resp_From validate else resp_To validate) !! bo_Alias op = Some amount ∧
     bo_Amount op ∈ entry_amounts is_from amount ∧
     index !! SplitAliasWithKey (bo_Alias op) = Some (bo_Balance op, bo_InternalKey op)) as Hin.
  { intros op. unfold ops, buildBalanceOperations. rewrite merge_sort_Permutation. fold index.
    unfold collect_ops. rewrite elem_of_app, !list_elem_of_In, !in_flat_map.
    setoid_rewrite <- list_elem_of_In. split.
    - intros [([a amt] & Ha & H)|([a amt] & Ha & H)]; apply elem_of_map_to_list in Ha;
        [apply from_ops_spec in H|apply to_ops_spec in H]; destruct H as (b & ik & Hi & <- & <- & <- & Hm);
        [exists true|exists false]; exists amt; auto.
    - intros ([] & amt & Ha & Hm & Hi); [left|right]; exists (bo_Alias op, amt);
        (split; [by apply elem_of_map_to_list|]); [apply from_ops_spec|apply to_ops_spec];
        eexists _, _; eauto. }
  split_and!; [|intros from to Hf Ht|exact Hin|].
  - apply Sorted_merge_sort, key_le_total.
  - unfold ops, buildBalanceOperations. rewrite merge_sort_Permutation. unfold collect_ops.
    apply Permutation_app; by apply flat_map_Permutation.
  - intros op (is_from & amt & _ & _ & Hi)%Hin.
    apply balanceByAliasKey_lookup in Hi as (Hb & Hk & ->). rewrite <- Hk. auto.
Qed.

(** The flattening into script arguments loses nothing.  For an operation on
    a balance with valid settings, the snapshot the script takes of the balance it
    was handed decodes, and converts back to the balance: same identifiers,
    version, type, direction and permissions, the same three amounts, the same
    overdraft flags and limit, and settings that validate again. *)
Theorem snapshot_round_trip {D : DecimalLib} {DT : DecimalText} {DL : DecimalLaws}
    {TL : DecimalTextLaws} (bo : BalanceOperation) key status pending :
  let b := bo_Balance bo in
  Settings_Validate (mb_Settings b) = Ok tt →
  ∃ br mb,
    decode_snapshot (set_alias (bo_Alias bo) (arg_balance (plan_arg key status pending bo))) = Some br ∧
    balanceRedisToBalance br {[bo_Alias bo := b]} = Some mb ∧
    mb_ID mb = mb_ID b ∧ mb_AccountID mb = mb_AccountID b ∧ mb_Version mb = mb_Version b ∧
    mb_AccountType mb = mb_AccountType b ∧ mb_Direction mb = mb_Direction b ∧
    mb_AllowSending mb = mb_AllowSending b ∧ mb_AllowReceiving mb = mb_AllowReceiving b ∧
    (mb_Available mb ≡d mb_Available b) ∧ (mb_OnHold mb ≡d mb_OnHold b) ∧
    (mb_OverdraftUsed mb ≡d mb_OverdraftUsed b) ∧
    default false (bs_AllowOverdraft <$> mb_Settings mb) = default false (bs_AllowOverdraft <$> mb_Settings b) ∧
    default false (bs_OverdraftLimitEnabled <$> mb_Settings mb)
      = default false (bs_OverdraftLimitEnabled <$> mb_Settings b) ∧
    (mb_Settings mb ≫= bs_OverdraftLimit) = (mb_Settings b ≫= bs_OverdraftLimit) ∧
    Settings_Validate (mb_Settings mb) = Ok tt.
Proof.
  intros b Hv.
  pose proof parse_dstring as Hd.
  destruct (Hd (mb_Available b)) as (a' & Ea & Ha), (Hd (mb_OnHold b)) as (h' & Eh & Hh),
    (Hd (mb_OverdraftUsed b)) as (u' & Eu & Hu).
  unfold decode_snapshot, plan_arg. simpl. fold b. rewrite Ea, Eh. simpl.
  eexists _, _. split; [reflexivity|]. unfold balanceRedisToBalance, redis_settings. simpl.
  rewrite lookup_singleton_eq. simpl. split; [reflexivity|]. simpl. fold b. rewrite Eu. simpl.
  do 7 (split; [done|]). do 3 (split; [done|]).
  unfold Settings_Validate in *. destruct (mb_Settings b) as [s|]; [|done].
  apply rbind_Ok in Hv as ([] & Hs & Hl). unfold validateScope, validateOverdraftLimit in *.
  destruct s as [scope allow enabled limit]. simpl in *.
  destruct enabled; simpl in *.
  - destruct limit as [txt|]; [|done]. simpl. destruct (bool_decide (txt = "")) eqn:Et; [done|].
    rewrite Et, orb_true_r. simpl. rewrite Et.
    destruct allow, (bool_decide (scope = "")) eqn:Es; simpl in *; rewrite ?Es; simpl;
      (split_and!; [done..|]); rewrite ?Hs; exact Hl.
  - destruct limit as [txt|]; [done|]. simpl.
    destruct allow; simpl.
    + destruct (bool_decide (scope = "")) eqn:Es; simpl; rewrite ?Es, ?Hs; done.
    + rewrite orb_false_r.
      destruct (bool_decide (scope = "")) eqn:Es; simpl in *; [done|].
      rewrite Es. simpl. destruct (bool_decide (scope = BalanceScopeTransactional)) eqn:E2;
        simpl in *; [done|]. rewrite Es, E2. simpl.
      destruct (bool_decide (scope = BalanceScopeInternal)); done.
Qed.

(** What the caller of the script can see.  An annotation ([NOTED]) never
    touches Redis and returns its balances unchanged.  Otherwise a business error
    is one of the three the script signals (insufficient funds, overdraft limit,
    stale version) and leaves every cached balance as it was; so does an error of
    the tenant prefix, before the script runs. *)
Theorem process_outcomes {D : DecimalLib} {DT : DecimalText} {U : UuidLib}
    tenant_key crash_message dueAt o l tid status pending ops r :
  mapBalanceAtomicScriptError crash_message = RawError crash_message →
  match ProcessBalanceAtomicOperation tenant_key crash_message dueAt o l tid status pending ops r with
  | (r', Ok (before, after)) => status = NOTED → r' = r ∧ before = after ∧ length before = length ops
  | (r', Err (Business e)) =>
      e ∈ [ErrInsufficientFunds; ErrOverdraftLimitExceeded; ErrStaleBalanceVersion] ∧ status ≠ NOTED ∧
      ∀ k en, rd_cache r !! k = Some en → ∃ en', rd_cache r' !! k = Some en' ∧ load en' = load en
  | (r', Err (RawError _)) => True
  end.
Proof.
  intros Hc. unfold ProcessBalanceAtomicOperation.
  destruct (buildBalanceAtomicOperationPlan tenant_key status pending ops) as [plan|] eqn:Ep; [|done].
  case_bool_decide as Hn.
  - intros _. split_and!; [done..|]. unfold buildBalanceAtomicOperationPlan in Ep. subst status.
    assert (∀ l p p', fold_res (plan_step tenant_key NOTED pending) p l = Ok p' →
      length (plan_notedBalances p') = length (plan_notedBalances p) + length l)%nat as H.
    { clear. induction l as [|bo l IH]; intros p p'; simpl; [intros [= <-]; lia|].
      rewrite rbind_Ok. intros (p1 & Hp1 & H). apply IH in H.
      unfold plan_step in Hp1. destruct (tenant_key _); simpl in Hp1; [|done].
      injection Hp1 as <-. simpl in H. rewrite length_app in H. simpl in H. lia. }
    apply H in Ep. simpl in Ep. lia.
  - destruct (rbind _ _) as [transactionKey|]; [|done].
    destruct (script_main transactionKey dueAt (plan_args plan) r) as [before after r'|code r'|r'] eqn:Es.
    + done.
    + assert (code ∈ reply_codes ∧ ∀ k en, rd_cache r !! k = Some en →
        ∃ en', rd_cache r' !! k = Some en' ∧ load en' = load en) as [Hcode Hk].
      { unfold script_main in Es.
        pose proof (script_loop_inv r (plan_args plan) dueAt (plan_args plan) _ ltac:(done)
          (loop_inv_start r (plan_args plan))) as Hinv.
        destruct (script_loop _ _ _) as [st|[]]; simplify_eq. destruct Hinv as (Hcode & _ & Hk).
        split; [done|]. intros k en He.
        destruct (Hk k) as [->|(b & -> & [(e0 & He0 & ->)|[Hnone _]])]; [eauto| |congruence].
        eexists. split; [done|]. rewrite load_store. congruence. }
      unfold reply_codes in Hcode. rewrite !elem_of_cons, elem_of_nil in Hcode.
      destruct Hcode as [->|[->|[->|[]]]]; (split_and!; [set_solver|done|done]).
    + by rewrite Hc.
Qed.

(** ** The order of operations on one key *)

Module OrderSample.
Definition text_balance : @MBalance Fixed.lib :=
  mkMBalance "b1" "org" "ledger" "acc1" "@alice" "default" "USD" (fx 100 0) (fx 0 0) 7 "deposit"
    true true DirectionCredit (fx 0 0)
    (Some (mkBalanceSettings "transactional" true false None)) 0 0 None ∅.
Definition half (op : OpType) : @BalanceOperation Fixed.lib :=
  mkBalanceOperation text_balance "0#@alice#default"
    (mkAmount "USD" (fx 250 0) op PENDING DirectionDebit true (fx 0 0)) "balance:alice".
Definition tenant (k : string) : result string string := Ok k.
Definition run (ops : list (@BalanceOperation Fixed.lib)) : result ProcessError (list MBalance * list MBalance) :=
  (ProcessBalanceAtomicOperation (U := Numbered.lib) tenant "lua error" 0 0%nat 1%nat "tx1" PENDING true
     ops (mkRedis ∅ ∅ ∅)).2.
Definition is_stale {A} (m : result ProcessError A) : bool :=
  match m with Err (Business ErrStaleBalanceVersion) => true | _ => false end.
End OrderSample.

(** The order among operations on one balance decides whether a hold succeeds.
    The two halves of a double-entry hold have the same cache key, so both of their
    orders are sorted and [sort.Slice] may return either.  When the hold draws on
    the overdraft, debit before hold is accepted; hold before debit bumps the
    version first and the debit is then rejected as stale (0174), although nobody
    else touched the balance. *)
Theorem double_entry_order_decides :
  let debit := OrderSample.half DEBIT in
  let hold := OrderSample.half ONHOLD in
  SplitDoubleEntryOps (bo_Amount (OrderSample.half ONHOLD))
    = (bo_Amount debit, set_op_dir ONHOLD DirectionCredit (bo_Amount hold)) ∧
  Sorted key_le [debit; hold] ∧ Sorted key_le [hold; debit] ∧
  is_ok (OrderSample.run [debit; hold]) = true ∧
  OrderSample.is_stale (OrderSample.run [hold; debit]) = true.
Proof.
  split_and!.
  - reflexivity.
  - repeat constructor; reflexivity.
  - repeat constructor; reflexivity.
  - vm_compute. reflexivity.
  - vm_compute. reflexivity.
Qed.

Lemma process_outcomes_witness :
  is_ok (OrderSample.run [OrderSample.half DEBIT]) = true ∧
  match ProcessBalanceAtomicOperation (D := Fixed.lib) (U := Numbered.lib) OrderSample.tenant "lua error" 0
          0%nat 1%nat "tx1" NOTED false [OrderSample.half DEBIT] (mkRedis ∅ ∅ ∅) with
  | (r', Ok (before, after)) => NOTED = NOTED → r' = mkRedis ∅ ∅ ∅ ∧ before = after ∧ length before = 1%nat
  | (r', Err (Business e)) =>
      e ∈ [ErrInsufficientFunds; ErrOverdraftLimitExceeded; ErrStaleBalanceVersion] ∧ NOTED ≠ NOTED ∧
      ∀ k en, rd_cache (mkRedis ∅ ∅ ∅) !! k = Some en → ∃ en', rd_cache r' !! k = Some en' ∧ load en' = load en
  | (r', Err (RawError _)) => True
  end.
Proof.
  split; [vm_compute; reflexivity|].
  exact (process_outcomes (D := Fixed.lib) (U := Numbered.lib) OrderSample.tenant "lua error" 0
    0%nat 1%nat "tx1" NOTED false [OrderSample.half DEBIT] (mkRedis ∅ ∅ ∅) eq_refl).
Defined.

Lemma snapshot_round_trip_witness :
  ∃ br mb,
    decode_snapshot (set_alias "0#@alice#default"
      (arg_balance (plan_arg "balance:alice" PENDING 1 (OrderSample.half DEBIT)))) = Some br ∧
    balanceRedisToBalance br {["0#@alice#default" := OrderSample.text_balance]} = Some mb ∧
    mb_ID mb = "b1" ∧ (mb_Available mb ≡d fx 100 0).
Proof.
  destruct (snapshot_round_trip (D := Fixed.lib) (OrderSample.half DEBIT) "balance:alice" PENDING 1 eq_refl)
    as (br & mb & E1 & E2 & E3 & _ & _ & _ & _ & _ & _ & E4 & _).
  exists br, mb. split; [exact E1|]. split; [exact E2|]. split; [exact E3|exact E4].
Defined.
