(* ===== verification/Enrichment.v ===== *)
(** * Overdraft enrichment (http/in/transaction_overdraft_enrichment.go)

    Before the script runs, every debit that will overdraw a credit balance gets
    a companion DEBIT on the account's "overdraft" balance, every credit that will
    repay overdraft gets a companion CREDIT, and every cancelled hold that drew on
    the overdraft gets the reversal.  The companions are appended to the
    operations and mirrored in [validate].  The theorems say what is appended and
    that companion and primary stay in lock-step in the script. *)

From Stdlib Require Import Ascii QArith Lqa.
From stdpp Require Import base gmap strings list numbers.
From S2P Require Import Prelude Decimals GoStrings Transaction BalanceOps Overdraft LuaDecimal AtomicScript.
From S2P Require Import CacheKeys MBalance BalancePlan.

Local Open Scope string_scope.
Local Open Scope list_scope.

(** ** Alias prefixes *)

(** [indexPrefix]: the text up to and with the first '#', or nothing. *)
Fixpoint indexPrefix_go (alias : string) : option string :=
  match alias with
  | EmptyString => None
  | String c rest =>
      if bool_decide (c = hash) then Some (String c "") else String c <$> indexPrefix_go rest
  end.
Definition indexPrefix (alias : string) : string := default "" (indexPrefix_go alias).

(** [stripIndexPrefix] *)
Definition stripIndexPrefix (alias : string) : string :=
  let prefix := indexPrefix alias in
  if bool_decide (prefix = "") then alias
  else String.substring (String.length prefix) (String.length alias - String.length prefix) alias.

(** [bare[:strings.LastIndex(bare, "#")]], or [None] when there is none. *)
Fixpoint before_last_char (c : ascii) (s : string) : option string :=
  match s with
  | EmptyString => None
  | String a s' =>
      match before_last_char c s' with
      | Some t => Some (String a t)
      | None => if bool_decide (a = c) then Some "" else None
      end
  end.
Definition accountAliasFromOperationAlias (alias : string) : string :=
  let bare := stripIndexPrefix alias in default bare (before_last_char hash bare).

(** [containsString] *)
Fixpoint containsString (l : list string) (want : string) : bool :=
  match l with
  | [] => false
  | s :: l' => if bool_decide (s = want) then true else containsString l' want
  end.

Section Enrichment.
Context {D : DecimalLib} {DT : DecimalText} {U : UuidLib}.
Local Open Scope dec_scope.

Definition set_amt_Operation (op : OpType) (a : Amount) : Amount :=
  mkAmount (amt_Asset a) (amt_Value a) op (amt_TransactionType a) (amt_Direction a)
    (amt_RouteValidationEnabled a) (amt_OverdraftAmount a).
Definition set_companion (v : dec) (op : OpType) (dir : Direction) (a : Amount) : Amount :=
  mkAmount (amt_Asset a) v op (amt_TransactionType a) dir (amt_RouteValidationEnabled a)
    (amt_OverdraftAmount a).
Definition set_OverdraftAmount (v : dec) (a : Amount) : Amount :=
  mkAmount (amt_Asset a) (amt_Value a) (amt_Operation a) (amt_TransactionType a) (amt_Direction a)
    (amt_RouteValidationEnabled a) v.

(** ** Which operations need a companion *)

Definition isOverdraftDebitSplitCandidate (amount : Amount) : bool :=
  if bool_decide (amt_Operation amount = DEBIT) then true
  else bool_decide (amt_Operation amount = ONHOLD)
       && bool_decide (amt_TransactionType amount = PENDING)
       && negb (amt_RouteValidationEnabled amount).

Definition isCancelOverdraftOverride (amount : Amount) : bool :=
  if negb (bool_decide (amt_TransactionType amount = CANCELED))
     || negb (dgt (amt_OverdraftAmount amount) dzero)
  then false
  else bool_decide (amt_Operation amount = RELEASE) || bool_decide (amt_Operation amount = CREDIT).

Definition companionAliasKey (op : BalanceOperation) : string :=
  mb_Alias (bo_Balance op) +:+ "#" +:+ OverdraftBalanceKey.

(** [overdraftSplit], [overdraftRefund] and [overdraftCancel] have the same three
    fields: the primary operation, the amount, the companion's alias key. *)
Record companionSplit := mkSplit {
  sp_primary : BalanceOperation; sp_amount : dec; sp_companionAliasKey : string }.

Definition debit_split (op : BalanceOperation) : option companionSplit :=
  if negb (isOverdraftDebitSplitCandidate (bo_Amount op)) then None
  else match ToTransactionBalance (bo_Balance op) with
  | Err _ => None
  | Ok txBalance =>
      let '(split, deficit) := DetectOverdraftSplit (set_amt_Operation DEBIT (bo_Amount op)) txBalance in
      if split then Some (mkSplit op deficit (companionAliasKey op)) else None
  end.
Definition collectOverdraftDebitSplits (balanceOps : list BalanceOperation) : list companionSplit :=
  omap debit_split balanceOps.

Definition refund_split (op : BalanceOperation) : option companionSplit :=
  if negb (bool_decide (amt_Operation (bo_Amount op) = CREDIT)) || isCancelOverdraftOverride (bo_Amount op)
  then None
  else match ToTransactionBalance (bo_Balance op) with
  | Err _ => None
  | Ok txBalance =>
      let '(split, repay, _) := DetectRefundSplit (bo_Amount op) txBalance in
      if split then Some (mkSplit op repay (companionAliasKey op)) else None
  end.
Definition collectOverdraftRefundSplits (balanceOps : list BalanceOperation) : list companionSplit :=
  omap refund_split balanceOps.

Definition cancel_split (op : BalanceOperation) : option companionSplit :=
  if negb (isCancelOverdraftOverride (bo_Amount op)) then None
  else match ToTransactionBalance (bo_Balance op) with
  | Err _ => None
  | Ok txBalance =>
      if negb (bool_decide (bal_Direction txBalance = DirectionCredit))
         || negb (dgt (bal_OverdraftUsed txBalance) dzero) then None
      else
        let repay := dmin (amt_OverdraftAmount (bo_Amount op)) (bal_OverdraftUsed txBalance) in
        let repay := if dgt repay (amt_Value (bo_Amount op)) then amt_Value (bo_Amount op) else repay in
        if negb (dgt repay dzero) then None else Some (mkSplit op repay (companionAliasKey op))
  end.
Definition collectOverdraftCancelSplits (balanceOps : list BalanceOperation) : list companionSplit :=
  omap cancel_split balanceOps.

(** ** The companion operations *)

Definition companion_op (organizationID ledgerID : uuid) (op : OpType) (dir : Direction)
    (s : companionSplit) (companion : MBalance) : BalanceOperation :=
  mkBalanceOperation companion
    (indexPrefix (bo_Alias (sp_primary s)) +:+ sp_companionAliasKey s)
    (set_companion (sp_amount s) op dir (bo_Amount (sp_primary s)))
    (BalanceInternalKey organizationID ledgerID (mb_Alias companion +:+ "#" +:+ mb_Key companion)).

Definition buildCompanionDebitOp organizationID ledgerID s companion : BalanceOperation :=
  companion_op organizationID ledgerID DEBIT DirectionDebit s companion.
Definition buildCompanionCreditOp organizationID ledgerID s companion : BalanceOperation :=
  companion_op organizationID ledgerID CREDIT DirectionCredit s companion.

Definition lookupRouteID (validate : option Responses) (primaryAlias : string) (isFrom : bool) : string :=
  match validate with
  | None => ""
  | Some v =>
      default "" ((if isFrom then resp_OperationRoutesFrom v else resp_OperationRoutesTo v)
        !! primaryAlias)
  end.

(** First-wins insertion. *)
Definition insert_new {A} (k : string) (v : A) (m : gmap string A) : gmap string A :=
  match m !! k with Some _ => m | None => <[k := v]> m end.

Definition registerCompanionInValidate (validate : Responses) (companionOp : BalanceOperation)
    (primaryRouteID : string) : Responses :=
  let from := insert_new (bo_Alias companionOp) (bo_Amount companionOp) (resp_From validate) in
  let routes := if negb (bool_decide (primaryRouteID = ""))
                then insert_new (bo_Alias companionOp) primaryRouteID (resp_OperationRoutesFrom validate)
                else resp_OperationRoutesFrom validate in
  let bareAlias := stripIndexPrefix (bo_Alias companionOp) in
  let make sources aliases :=
    mkResponses (resp_Total validate) (resp_Asset validate) from (resp_To validate) sources
      (resp_Destinations validate) aliases (resp_Pending validate) (resp_TransactionRoute validate)
      (resp_TransactionRouteID validate) routes (resp_OperationRoutesTo validate) in
  if containsString (resp_Sources validate) bareAlias
  then make (resp_Sources validate) (resp_Aliases validate)
  else make (resp_Sources validate ++ [bareAlias])
         (if negb (containsString (resp_Aliases validate) bareAlias)
          then resp_Aliases validate ++ [bareAlias] else resp_Aliases validate).

Definition registerCompanionInValidateTo (validate : Responses) (companionOp : BalanceOperation)
    (primaryRouteID : string) : Responses :=
  let to := insert_new (bo_Alias companionOp) (bo_Amount companionOp) (resp_To validate) in
  let routes := if negb (bool_decide (primaryRouteID = ""))
                then insert_new (bo_Alias companionOp) primaryRouteID (resp_OperationRoutesTo validate)
                else resp_OperationRoutesTo validate in
  let bareAlias := stripIndexPrefix (bo_Alias companionOp) in
  let make destinations aliases :=
    mkResponses (resp_Total validate) (resp_Asset validate) (resp_From validate) to
      (resp_Sources validate) destinations aliases (resp_Pending validate)
      (resp_TransactionRoute validate) (resp_TransactionRouteID validate)
      (resp_OperationRoutesFrom validate) routes in
  if containsString (resp_Destinations validate) bareAlias
  then make (resp_Destinations validate) (resp_Aliases validate)
  else make (resp_Destinations validate ++ [bareAlias])
         (if negb (containsString (resp_Aliases validate) bareAlias)
          then resp_Aliases validate ++ [bareAlias] else resp_Aliases validate).

(** [buildCompanionFromTo]; [OverdraftAmount] is not copied. *)
Definition buildCompanionFromTo (companionOp : BalanceOperation) (isFrom : bool)
    (primaryRouteID : string) : FromTo :=
  let a := bo_Amount companionOp in
  mkFromTo (bo_Alias companionOp) OverdraftBalanceKey
    (Some (mkAmount (amt_Asset a) (amt_Value a) (amt_Operation a) (amt_TransactionType a)
             (amt_Direction a) (amt_RouteValidationEnabled a) dzero))
    None "" None "" "" ∅ isFrom
    (if negb (bool_decide (primaryRouteID = "")) then primaryRouteID else "")
    (if negb (bool_decide (primaryRouteID = "")) then Some primaryRouteID else None).

(** ** The enrichment *)

Record enriched := mkEnriched {
  en_ops : list BalanceOperation; en_validate : option Responses; en_fromTos : list FromTo }.

(** One iteration of one of the three loops. *)
Definition enrich_one (organizationID ledgerID : uuid) (isFrom : bool)
    (build : companionSplit → MBalance → BalanceOperation)
    (register : Responses → BalanceOperation → string → Responses)
    (companions : gmap string MBalance) (st : enriched) (s : companionSplit) : enriched :=
  match companions !! sp_companionAliasKey s with
  | None => st
  | Some companion =>
      let op := build s companion in
      let routeID := lookupRouteID (en_validate st) (bo_Alias (sp_primary s)) isFrom in
      mkEnriched (en_ops st ++ [op])
        ((λ v, register v op routeID) <$> en_validate st)
        (en_fromTos st ++ [buildCompanionFromTo op isFrom routeID])
  end.

(** [enrichOverdraftOperations]; [loader] returns the companion balances of the
    given aliases, in the order of the alias set.  The receiver of the registration
    of a cancellation is the source side. *)
Definition enrichOverdraftOperations (organizationID ledgerID : uuid)
    (balanceOps : list BalanceOperation) (validate : option Responses)
    (loader : gset string → result string (list MBalance)) : result string enriched :=
  let debits := collectOverdraftDebitSplits balanceOps in
  let refunds := collectOverdraftRefundSplits balanceOps in
  let cancellations := collectOverdraftCancelSplits balanceOps in
  if bool_decide (debits = [] ∧ refunds = [] ∧ cancellations = [])
  then Ok (mkEnriched balanceOps validate [])
  else
    let aliasSet : gset string :=
      list_to_set (map sp_companionAliasKey (debits ++ refunds ++ cancellations)) in
    let! companions := loader aliasSet in
    let companionByAliasKey : gmap string MBalance :=
      fold_left (λ m b, <[mb_Alias b +:+ "#" +:+ mb_Key b := b]> m) companions ∅ in
    let st := mkEnriched balanceOps validate [] in
    let st := fold_left (enrich_one organizationID ledgerID true
      (buildCompanionDebitOp organizationID ledgerID) registerCompanionInValidate
      companionByAliasKey) debits st in
    let st := fold_left (enrich_one organizationID ledgerID false
      (buildCompanionCreditOp organizationID ledgerID) registerCompanionInValidateTo
      companionByAliasKey) refunds st in
    let st := fold_left (enrich_one organizationID ledgerID true
      (buildCompanionCreditOp organizationID ledgerID) registerCompanionInValidate
      companionByAliasKey) cancellations st in
    Ok st.

(** ** Reversal of a cancelled hold *)

(** The fields of [operation.Operation] the reversal reads. *)
Record OperationRow := mkOperationRow {
  or_AccountAlias : string; or_BalanceKey : string; or_Type : string;
  or_Direction : Direction; or_Value : option dec;
  or_OverdraftUsedBefore : string; or_OverdraftUsedAfter : string }.

Definition OVERDRAFT : string := "OVERDRAFT".

(** [usage[alias] = usage[alias].Add(v)] *)
Definition add_usage (alias : string) (v : dec) (usage : gmap string dec) : gmap string dec :=
  <[alias := default dzero (usage !! alias) + v]> usage.

(** First loop: debits recorded on the companion. *)
Definition usage_companion (usage : gmap string dec) (op : OperationRow) : gmap string dec :=
  if negb (bool_decide (or_BalanceKey op = OverdraftBalanceKey)) then usage
  else match or_Value op with
  | None => usage
  | Some v =>
      if negb (bool_decide (or_Type op = OVERDRAFT)) && negb (bool_decide (or_Type op = "DEBIT")) then usage
      else if negb (bool_decide (or_Direction op = DirectionEmpty))
              && negb (bool_decide (or_Direction op = DirectionDebit)) then usage
      else if negb (dgt v dzero) then usage
      else add_usage (or_AccountAlias op) v usage
  end.

(** Second loop: the snapshot of a hold, when no companion row was found. *)
Definition usage_snapshot (usage : gmap string dec) (op : OperationRow) : gmap string dec :=
  if bool_decide (or_BalanceKey op = OverdraftBalanceKey) || negb (bool_decide (or_Type op = "ON_HOLD"))
  then usage
  else if match usage !! or_AccountAlias op with Some existing => dgt existing dzero | None => false end
  then usage
  else match dparse (or_OverdraftUsedBefore op), dparse (or_OverdraftUsedAfter op) with
  | Some before, Some after =>
      let delta := after - before in
      if dgt delta dzero then add_usage (or_AccountAlias op) delta usage else usage
  | _, _ => usage
  end.

Definition pendingOverdraftUsageByAlias (ops : list OperationRow) : gmap string dec :=
  fold_left usage_snapshot ops (fold_left usage_companion ops ∅).

Definition annotate_op (usageByAlias : gmap string dec) (op : BalanceOperation) : BalanceOperation :=
  let amount := bo_Amount op in
  if negb (bool_decide (amt_TransactionType amount = CANCELED)) then op
  else if negb (bool_decide (amt_Operation amount = RELEASE))
          && negb (bool_decide (amt_Operation amount = CREDIT)) then op
  else if amt_RouteValidationEnabled amount && negb (bool_decide (amt_Operation amount = CREDIT)) then op
  else if negb (amt_RouteValidationEnabled amount)
          && negb (bool_decide (amt_Operation amount = RELEASE)) then op
  else match usageByAlias !! accountAliasFromOperationAlias (bo_Alias op) with
  | None => op
  | Some usage =>
      if negb (dgt usage dzero) then op
      else mkBalanceOperation (bo_Balance op) (bo_Alias op) (set_OverdraftAmount usage amount)
             (bo_InternalKey op)
  end.

(** [annotateCanceledOverdraftAmounts]; [tran] is [None] when nil. *)
Definition annotateCanceledOverdraftAmounts (balanceOps : list BalanceOperation)
    (tran : option (list OperationRow)) : list BalanceOperation :=
  match tran with
  | None | Some [] => balanceOps
  | Some operations =>
      let usageByAlias := pendingOverdraftUsageByAlias operations in
      if bool_decide (usageByAlias = ∅) then balanceOps
      else map (annotate_op usageByAlias) balanceOps
  end.
End Enrichment.

(** ** Lemmas *)

Section ScriptLemmas.
Local Open Scope Z_scope.

(** Outside a two-phase transaction a debit-direction balance grows by debits and
    shrinks by credits; overdraft fields do not move. *)
Lemma settle_debit_direction (c : LuaBalance Z) (y : ScriptArg Z) r h u :
  lb_Direction c = DirectionDebit → arg_isPending y = 0 → settle c y = Done (r, h, u) →
  r = lb_Available c + (if op_is y DEBIT then arg_amount y else - arg_amount y) ∧
  h = lb_OnHold c ∧ u = lb_OverdraftUsed c.
Proof.
  intros Hd Hp. assert (isDebitDirection c = true) as Hi by (unfold isDebitDirection; by rewrite Hd).
  unfold settle. assert (operate c y = Done (lb_Available c + (if op_is y DEBIT then arg_amount y else - arg_amount y),
    lb_OnHold c)) as ->.
  { unfold operate, only_available, debit_available, credit_available. rewrite Hp, Hi. simpl.
    by destruct (op_is y DEBIT). }
  set (res := lb_Available c + _). cbn [obind fst snd].
  assert (∀ v, credit_repayment c y v = Done (v, lb_OverdraftUsed c)) as ->.
  { intros v. unfold credit_repayment. by rewrite Hi, andb_false_r. }
  cbn [obind]. assert (∀ v, release_reversal c y v = Done v) as ->.
  { intros [? ?]. unfold release_reversal. rewrite Hi. simpl. by rewrite !andb_false_r. }
  cbn [obind]. unfold overdraft_floor. rewrite Hd.
  destruct (num_neg res && not_external c); [done|]. by intros [= <- <- <-].
Qed.

(** A direct debit beyond [Available] and a direct credit on an overdrawn balance. *)
Lemma settle_overdraw (b : LuaBalance Z) (x : ScriptArg Z) r h u :
  lb_Direction b = DirectionCredit → arg_isPending x = 0 → arg_transactionStatus x = CREATED →
  arg_operation x = DEBIT → not_external b = true → 0 <= lb_Available b < arg_amount x →
  0 <= lb_OverdraftUsed b → settle b x = Done (r, h, u) →
  r = 0 ∧ u = lb_OverdraftUsed b + (arg_amount x - lb_Available b).
Proof.
  intros Hd Hp Hs Ho He HA HU Hset.
  assert (isDebitDirection b = false) as Hi by (unfold isDebitDirection; by rewrite Hd).
  destruct (settle_exact b x ltac:(lia) HU r h u Hi) as (E & _ & Hu & Hr & _ & Hlim); [| |lia|done|].
  - by rewrite Hp, Hs, Ho.
  - by rewrite Hs, Ho.
  - unfold arg_effect in E. rewrite Hs, Ho in E. simpl in E. specialize (Hr He). lia.
Qed.

Lemma settle_repay (b : LuaBalance Z) (x : ScriptArg Z) r h u :
  lb_Direction b = DirectionCredit → arg_isPending x = 0 →
  arg_operation x = CREDIT → not_external b = true → 0 <= lb_Available b →
  0 < lb_OverdraftUsed b → 0 <= arg_amount x → arg_overdraftAmount x = 0 →
  settle b x = Done (r, h, u) →
  u = lb_OverdraftUsed b - Z.min (arg_amount x) (lb_OverdraftUsed b) ∧
  r = lb_Available b + arg_amount x - Z.min (arg_amount x) (lb_OverdraftUsed b).
Proof.
  intros Hd Hp Ho He HA HU Ha Hov.
  assert (isDebitDirection b = false) as Hi by (unfold isDebitDirection; by rewrite Hd).
  set (p := Z.min (arg_amount x) (lb_OverdraftUsed b)).
  assert (operate b x = Done (lb_Available b + arg_amount x, lb_OnHold b)) as Eo.
  { unfold operate, op_is, only_available, credit_available. by rewrite Hp, Ho, Hi. }
  assert (credit_repayment b x (lb_Available b + arg_amount x) = Reply "0174" ∨
    credit_repayment b x (lb_Available b + arg_amount x)
      = Done (lb_Available b + arg_amount x - p, lb_OverdraftUsed b - p)) as Ec.
  { assert (op_is x CREDIT = true) as Hc by (unfold op_is; by rewrite Ho).
    unfold credit_repayment. rewrite Hi, He, Hc, Hov. simpl.
    destruct (Z.ltb_spec 0 (lb_OverdraftUsed b)); [|lia]. destruct (stale b x && _); [by left|by right]. }
  assert (∀ v, release_reversal b x v = Done v) as Er.
  { intros [? ?]. unfold release_reversal, op_is. by rewrite Ho. }
  unfold settle. rewrite Eo. cbn [obind fst snd]. destruct Ec as [-> | ->]; [done|].
  cbn [obind]. rewrite Er. cbn [obind]. unfold overdraft_floor. simpl.
  destruct (Z.ltb_spec (lb_Available b + arg_amount x - p) 0); [lia|].
  intros [= <- <- <-]. done.
Qed.
End ScriptLemmas.

Section GoLemmas.
Context {D : DecimalLib} {DT : DecimalText} {DL : DecimalLaws} {U : UuidLib}.

Lemma qv_lt n x y : (qv n x < qv n y)%Q ↔ (x < y)%Z.
Proof.
  unfold qv, Qdiv. pose proof (ten_pos n) as Ht. rewrite Zlt_Qlt in Ht. change (inject_Z 0) with 0%Q in Ht.
  rewrite Qmult_lt_r by by apply Qinv_lt_0_compat. by rewrite <- Zlt_Qlt.
Qed.
Lemma qv_eq n x y : (qv n x == qv n y)%Q → x = y.
Proof.
  intros E. destruct (Z.lt_trichotomy x y) as [H|[H|H]]; [|done|]; apply (qv_lt n) in H;
    rewrite E in H; by apply Qlt_irrefl in H.
Qed.
Lemma qv_le n x y : (qv n x <= qv n y)%Q ↔ (x <= y)%Z.
Proof. rewrite <- Z.nlt_ge, <- (qv_lt n). split; [apply Qle_not_lt|apply Qnot_lt_le]. Qed.

(** The script's exact view of a Go operation. *)
Record op_view (n : nat) (op : BalanceOperation) (b : LuaBalance Z) (x : ScriptArg Z) : Prop := {
  ov_Available : (dval (mb_Available (bo_Balance op)) == qv n (lb_Available b))%Q;
  ov_OverdraftUsed : (dval (mb_OverdraftUsed (bo_Balance op)) == qv n (lb_OverdraftUsed b))%Q;
  ov_Value : (dval (amt_Value (bo_Amount op)) == qv n (arg_amount x))%Q;
  ov_Direction : mb_Direction (bo_Balance op) = lb_Direction b;
  ov_Operation : amt_Operation (bo_Amount op) = arg_operation x;
  ov_status : amt_TransactionType (bo_Amount op) = arg_transactionStatus x }.

Lemma ToTransactionBalance_fields b t :
  ToTransactionBalance b = Ok t →
  bal_Available t = mb_Available b ∧ bal_OverdraftUsed t = mb_OverdraftUsed b ∧
  bal_Direction t = mb_Direction b.
Proof.
  unfold ToTransactionBalance. destruct (mb_Settings b) as [s|]; [|by intros [= <-]].
  destruct (bs_OverdraftLimit s); [|by intros [= <-]].
  destruct (dparse _); [by intros [= <-]|done].
Qed.

Lemma debit_split_spec n op s b x :
  debit_split op = Some s → op_view n op b x → amt_Operation (bo_Amount op) = DEBIT →
  lb_Direction b = DirectionCredit ∧ (lb_Available b < arg_amount x)%Z ∧
  (dval (sp_amount s) == qv n (arg_amount x - lb_Available b))%Q.
Proof.
  intros Hs [HA HU HV HD HO HT] Hop. unfold debit_split in Hs.
  destruct (negb _); [done|]. destruct (ToTransactionBalance _) as [t|] eqn:Et; [|done].
  apply ToTransactionBalance_fields in Et as (EA & EU & ED).
  destruct (DetectOverdraftSplit _ t) as [[] d] eqn:Ed; [|done]. injection Hs as <-. simpl.
  apply DetectOverdraftSplit_true in Ed as (Hdir & _ & _ & Hlt & ->). simpl in *.
  rewrite EA, HA, HV in Hlt. rewrite <- HD, <- ED. split_and!; [done|by apply (qv_lt n)|].
  rewrite dval_sub, EA, HA, HV. unfold Z.sub. rewrite qv_add, qv_opp. reflexivity.
Qed.

Lemma qv_min n x y (d e : dec) :
  (dval d == qv n x)%Q → (dval e == qv n y)%Q → (dval (dmin d e) == qv n (Z.min x y))%Q.
Proof.
  intros Hd He. unfold dmin. destruct (dlt e d) eqn:E.
  - apply dlt_spec in E. rewrite Hd, He in E. apply qv_lt in E. by rewrite Z.min_r by lia.
  - apply dlt_false in E. rewrite Hd, He in E. apply qv_le in E. by rewrite Z.min_l by lia.
Qed.

Lemma refund_split_spec n op s b x :
  refund_split op = Some s → op_view n op b x →
  lb_Direction b = DirectionCredit ∧ arg_operation x = CREDIT ∧ (0 < lb_OverdraftUsed b)%Z ∧
  (dval (sp_amount s) == qv n (Z.min (arg_amount x) (lb_OverdraftUsed b)))%Q.
Proof.
  intros Hs [HA HU HV HD HO HT]. unfold refund_split in Hs.
  destruct (negb _ || _) eqn:G; [done|]. bool_facts.
  destruct (ToTransactionBalance _) as [t|] eqn:Et; [|done].
  apply ToTransactionBalance_fields in Et as (EA & EU & ED). unfold DetectRefundSplit in Hs.
  destruct (negb (bool_decide (bal_Direction t = _))) eqn:G1; [done|].
  destruct (negb (bool_decide (amt_Operation _ = _))) eqn:G2; [done|].
  destruct (negb (dgt _ _)) eqn:G3; [done|]. bool_facts. injection Hs as <-. simpl.
  apply dgt_spec in G3. rewrite dval_zero, EU, HU, <- (qv_0 n) in G3. apply qv_lt in G3.
  rewrite <- HD, <- ED, <- HO. split_and!; [done..|]. rewrite EU. by apply qv_min.
Qed.
End GoLemmas.

Section Structure.
Context {D : DecimalLib} {DT : DecimalText} {DL : DecimalLaws} {U : UuidLib}.

Lemma insert_new_keeps {A} k k' (v w : A) m : m !! k' = Some w → insert_new k v m !! k' = Some w.
Proof.
  unfold insert_new. destruct (m !! k) eqn:E; [done|]. intros H.
  rewrite lookup_insert_ne; [done|congruence].
Qed.
Lemma insert_new_in {A} k (v : A) m : is_Some (insert_new k v m !! k).
Proof.
  unfold insert_new. destruct (m !! k) eqn:E; [by rewrite E|]. by rewrite lookup_insert_eq.
Qed.

(** What the enrichment keeps of [validate]. *)
Definition validate_extends (v v' : option Responses) : Prop :=
  match v, v' with
  | Some v, Some v' =>
      resp_Total v' = resp_Total v ∧ resp_Asset v' = resp_Asset v ∧ resp_Pending v' = resp_Pending v ∧
      (∀ k a, resp_From v !! k = Some a → resp_From v' !! k = Some a) ∧
      (∀ k a, resp_To v !! k = Some a → resp_To v' !! k = Some a)
  | None, None => True
  | _, _ => False
  end.

Lemma validate_extends_refl v : validate_extends v v.
Proof. by destruct v. Qed.
Lemma validate_extends_trans v1 v2 v3 :
  validate_extends v1 v2 → validate_extends v2 v3 → validate_extends v1 v3.
Proof.
  destruct v1, v2, v3; simpl; try done. intros (A1 & A2 & A3 & A4 & A5) (B1 & B2 & B3 & B4 & B5).
  split_and!; [congruence..| |]; auto.
Qed.

Definition registered (v : option Responses) (alias : string) : Prop :=
  match v with
  | Some v => is_Some (resp_From v !! alias) ∨ is_Some (resp_To v !! alias)
  | None => True
  end.
Lemma registered_extends v v' alias : validate_extends v v' → registered v alias → registered v' alias.
Proof.
  destruct v, v'; simpl; try done. intros (_ & _ & _ & H4 & H5) [[a Ha]|[a Ha]]; eauto.
Qed.

(** A registration adds its alias and keeps everything else. *)
Definition good_register (register : Responses → BalanceOperation → string → Responses) : Prop :=
  ∀ v op route, validate_extends (Some v) (Some (register v op route)) ∧
    registered (Some (register v op route)) (bo_Alias op).

Lemma register_from_good : good_register registerCompanionInValidate.
Proof.
  intros v op route. unfold registerCompanionInValidate.
  destruct (containsString (resp_Sources v) _); simpl;
    (split; [split_and!; auto using insert_new_keeps|left; apply insert_new_in]).
Qed.
Lemma register_to_good : good_register registerCompanionInValidateTo.
Proof.
  intros v op route. unfold registerCompanionInValidateTo.
  destruct (containsString (resp_Destinations v) _); simpl;
    (split; [split_and!; auto using insert_new_keeps|right; apply insert_new_in]).
Qed.

(** A companion operation of the transaction: it acts on a loaded companion
    balance, carries the amount of a split of a primary operation under that
    primary's position, and inherits its asset, status and route flag. *)
Definition companion_of (balanceOps : list BalanceOperation) (companions : gmap string MBalance)
    (op : BalanceOperation) : Prop :=
  ∃ primary s, primary ∈ balanceOps ∧
    (debit_split primary = Some s ∨ refund_split primary = Some s ∨ cancel_split primary = Some s) ∧
    companions !! companionAliasKey primary = Some (bo_Balance op) ∧
    bo_Alias op = indexPrefix (bo_Alias primary) +:+ companionAliasKey primary ∧
    amt_Value (bo_Amount op) = sp_amount s ∧
    amt_Asset (bo_Amount op) = amt_Asset (bo_Amount primary) ∧
    amt_TransactionType (bo_Amount op) = amt_TransactionType (bo_Amount primary) ∧
    amt_RouteValidationEnabled (bo_Amount op) = amt_RouteValidationEnabled (bo_Amount primary).

Lemma split_fields op s :
  debit_split op = Some s ∨ refund_split op = Some s ∨ cancel_split op = Some s →
  sp_primary s = op ∧ sp_companionAliasKey s = companionAliasKey op.
Proof.
  unfold debit_split, refund_split, cancel_split.
  destruct (ToTransactionBalance _) as [t|].
  - intros [H|[H|H]]; repeat (destruct (_ : bool); simpl in H; try done).
    all: try (by injection H as <-).
    + destruct (DetectOverdraftSplit _ _) as [[] d]; [|done]. by injection H as <-.
    + destruct (DetectRefundSplit _ _) as [[[] d] e]; [|done]. by injection H as <-.
  - intros [H|[H|H]]; destruct (_ : bool) in H; done.
Qed.

Definition enriched_inv (balanceOps : list BalanceOperation) (validate : option Responses)
    (companions : gmap string MBalance) (st : enriched) : Prop :=
  ∃ extra, en_ops st = balanceOps ++ extra ∧ length (en_fromTos st) = length extra ∧
    validate_extends validate (en_validate st) ∧
    Forall (companion_of balanceOps companions) extra ∧
    Forall (λ op, registered (en_validate st) (bo_Alias op)) extra.

Lemma enrich_loop balanceOps validate companions o l isFrom op dir register splits st :
  good_register register →
  (∀ s, s ∈ splits → sp_primary s ∈ balanceOps ∧
     (debit_split (sp_primary s) = Some s ∨ refund_split (sp_primary s) = Some s ∨
      cancel_split (sp_primary s) = Some s)) →
  enriched_inv balanceOps validate companions st →
  enriched_inv balanceOps validate companions
    (fold_left (enrich_one o l isFrom (companion_op o l op dir) register companions) splits st).
Proof.
  intros Hreg. revert st. induction splits as [|s splits IH]; intros st Hs Hinv; simpl; [done|].
  apply IH; [intros; apply Hs; by right|].
  unfold enrich_one. destruct (companions !! sp_companionAliasKey s) as [companion|] eqn:Ec; [|done].
  destruct Hinv as (extra & E1 & E2 & E3 & E4 & E5). destruct (Hs s ltac:(left)) as [Hp Hsplit].
  destruct (split_fields _ _ Hsplit) as [_ Ek].
  set (route := lookupRouteID _ _ _). set (cop := companion_op o l op dir s companion).
  exists (extra ++ [cop]). cbn [en_ops en_fromTos en_validate].
  assert (validate_extends (en_validate st) ((λ v, register v cop route) <$> en_validate st)) as Hext.
  { destruct (en_validate st) as [v|]; [|done]. apply Hreg. }
  split_and!.
  - by rewrite E1, app_assoc.
  - rewrite !length_app, E2. done.
  - by eapply validate_extends_trans.
  - apply Forall_app. split; [done|]. constructor; [|constructor].
    exists (sp_primary s), s. rewrite <- Ek. split_and!; done.
  - apply Forall_app. split.
    + rewrite Forall_forall in E5 |- *. intros cop' Hr. eapply registered_extends; eauto.
    + constructor; [|constructor]. destruct (en_validate st) as [v|]; [|done]. apply Hreg.
Qed.

Lemma omap_split (f : BalanceOperation → option companionSplit) (balanceOps : list BalanceOperation) s :
  (∀ op s, f op = Some s → sp_primary s = op) → s ∈ omap f balanceOps →
  sp_primary s ∈ balanceOps ∧ f (sp_primary s) = Some s.
Proof. intros Hf (op & Hin & E)%list_elem_of_omap. by rewrite (Hf _ _ E). Qed.
End Structure.

(** ** Properties *)

(** What the enrichment does to a transaction.  The primary operations are
    kept, in order, in front; every appended operation acts on a loaded companion
    balance, with the amount of the overdraft split of a primary operation and
    that primary's position, asset, status and route flag; there is one entry for
    the operation records per appended operation; the total, the asset and every
    amount recorded in [validate] are unchanged, and every companion is registered
    there. *)
Theorem enrichment_only_adds_companions {D : DecimalLib} {DT : DecimalText} {U : UuidLib}
    (o l : uuid) balanceOps validate loader st :
  enrichOverdraftOperations o l balanceOps validate loader = Ok st →
  ∃ extra companions,
    en_ops st = balanceOps ++ extra ∧ length (en_fromTos st) = length extra ∧
    validate_extends validate (en_validate st) ∧
    Forall (companion_of balanceOps companions) extra ∧
    Forall (λ op, registered (en_validate st) (bo_Alias op)) extra.
Proof.
  unfold enrichOverdraftOperations. case_bool_decide.
  { intros [= <-]. exists [], ∅. simpl. rewrite app_nil_r.
    split_and!; [done|done|apply validate_extends_refl|constructor|constructor]. }
  rewrite rbind_Ok. intros (companions & _ & [= <-]).
  set (m := fold_left _ companions ∅).
  assert (enriched_inv balanceOps validate m (mkEnriched balanceOps validate [])) as H0.
  { exists []. simpl. rewrite app_nil_r.
    split_and!; [done|done|apply validate_extends_refl|constructor|constructor]. }
  assert (∀ f : BalanceOperation → option companionSplit,
    (∀ op s, f op = Some s → debit_split op = Some s ∨ refund_split op = Some s ∨ cancel_split op = Some s) →
    ∀ s, s ∈ omap f balanceOps → sp_primary s ∈ balanceOps ∧
      (debit_split (sp_primary s) = Some s ∨ refund_split (sp_primary s) = Some s ∨
       cancel_split (sp_primary s) = Some s)) as Hsplits.
  { intros f Hf s Hs. apply omap_split in Hs as [? ?]; [split; eauto|].
    intros op s' E. apply (split_fields op s'). auto. }
  apply (enrich_loop _ _ _ o l true DEBIT DirectionDebit _ (collectOverdraftDebitSplits balanceOps) _
    register_from_good (Hsplits debit_split ltac:(by left))) in H0.
  apply (enrich_loop _ _ _ o l false CREDIT DirectionCredit _ (collectOverdraftRefundSplits balanceOps) _
    register_to_good (Hsplits refund_split ltac:(by right; left))) in H0.
  apply (enrich_loop _ _ _ o l true CREDIT DirectionCredit _ (collectOverdraftCancelSplits balanceOps) _
    register_from_good (Hsplits cancel_split ltac:(by right; right))) in H0.
  destruct H0 as (extra & H0). exists extra, m. exact H0.
Qed.

(** The companion operation the enrichment adds for an operation that it splits. *)
Definition companion_built {D : DecimalLib} {DT : DecimalText} {U : UuidLib} (o l : uuid) (op : BalanceOperation)
    (companion : MBalance) (cop : BalanceOperation) : Prop :=
  (∃ s, debit_split op = Some s ∧ cop = buildCompanionDebitOp o l s companion) ∨
  (∃ s, refund_split op = Some s ∧ cop = buildCompanionCreditOp o l s companion).

(** C40: in a direct transaction, one that is neither held nor settled later, the companion
    balance stays in lock-step.  Take a balance, in credit direction and not external, whose
    companion holds exactly its [OverdraftUsed].  When Go splits a direct debit or credit on
    it and the script accepts the primary operation and the operation that
    [buildCompanionDebitOp] or [buildCompanionCreditOp] makes of the split, each as the
    script reads it, the companion again holds exactly the new [OverdraftUsed].
    ([two_phase_repayment_drifts] shows a two-phase credit for which it does not.) *)
Theorem companion_lockstep {D : DecimalLib} {DT : DecimalText} {U : UuidLib} {DL : DecimalLaws}
    n (o l : uuid) op companion cop (b c : LuaBalance Z) (x y : ScriptArg Z) r h u r' h' u' :
  companion_built o l op companion cop →
  op_view n op b x → op_view n cop c y →
  arg_transactionStatus x = CREATED → arg_isPending x = 0%Z → arg_overdraftAmount x = 0%Z →
  arg_isPending y = 0%Z →
  lb_Direction c = DirectionDebit → lb_Available c = lb_OverdraftUsed b →
  not_external b = true → (0 <= lb_Available b)%Z → (0 <= lb_OverdraftUsed b)%Z → (0 <= arg_amount x)%Z →
  settle b x = Done (r, h, u) → settle c y = Done (r', h', u') →
  r' = u.
Proof.
  intros Hs Hv Hvc Hst Hp Hov Hpy Hcd Hc He HA HU Ha Hb Hcs.
  pose proof Hv as [EA EU EV ED EO ET]. pose proof Hvc as [_ _ Hy _ Hoy _].
  apply (settle_debit_direction c y r' h' u' Hcd Hpy) in Hcs as (-> & _ & _).
  unfold op_is. rewrite Hc. destruct Hs as [(s & Hs & ->)|(s & Hs & ->)]; cbn in Hy, Hoy.
  - assert (arg_operation x = DEBIT) as Eop.
    { rewrite <- EO. unfold debit_split in Hs. destruct (negb _) eqn:G; [done|]. bool_facts.
      unfold isOverdraftDebitSplitCandidate in G. case_bool_decide; [done|].
      rewrite ET, Hst, andb_false_r in G. done. }
    destruct (debit_split_spec n op s b x Hs Hv ltac:(congruence)) as (Hd & Hlt & Hval).
    rewrite Hy in Hval. apply qv_eq in Hval.
    destruct (settle_overdraw b x r h u Hd Hp Hst Eop He ltac:(lia) HU Hb) as [_ ->].
    rewrite <- Hoy, bool_decide_true by done. lia.
  - destruct (refund_split_spec n op s b x Hs Hv) as (Hd & Eop & HUp & Hval).
    rewrite Hy in Hval. apply qv_eq in Hval.
    destruct (settle_repay b x r h u Hd Hp Eop He HA HUp Ha Hov Hb) as [-> _].
    rewrite <- Hoy, bool_decide_false by done. lia.
Qed.

(** Cancelling a hold that drew on the overdraft restores the balance.  When
    the script accepts a pending hold (without route validation) and then the
    RELEASE of the same amount, annotated by Go with the overdraft the hold used
    and sent with the version the hold produced, the balance has its original
    [Available], [OnHold] and [OverdraftUsed]; the release is never rejected. *)
Theorem overdraft_hold_cancel_restores (b : LuaBalance Z) (x1 x2 : ScriptArg Z) r h u :
  lb_Direction b = DirectionCredit → not_external b = true →
  (0 <= lb_Available b)%Z → (0 <= lb_OverdraftUsed b)%Z → (0 <= arg_amount x1)%Z →
  arg_isPending x1 = 1%Z → arg_transactionStatus x1 = PENDING → arg_operation x1 = ONHOLD →
  arg_routeValidationEnabled x1 = 0%Z → settle b x1 = Done (r, h, u) →
  arg_isPending x2 = 1%Z → arg_transactionStatus x2 = CANCELED → arg_operation x2 = RELEASE →
  arg_routeValidationEnabled x2 = 0%Z → arg_amount x2 = arg_amount x1 →
  arg_overdraftAmount x2 = (u - lb_OverdraftUsed b)%Z → incomingVersion x2 = (lb_Version b + 1)%Z →
  settle (apply_result r h u b) x2 = Done (lb_Available b, lb_OnHold b, lb_OverdraftUsed b).
Proof.
  intros Hd He HA HU Ha P1 S1 O1 R1 H1 P2 S2 O2 R2 EA EO EV.
  assert (isDebitDirection b = false) as Hi by (unfold isDebitDirection; by rewrite Hd).
  destruct (settle_exact b x1 Ha HU r h u Hi) as (E & Eh & Hu & Hr & HUu & Hlim);
    [by rewrite P1, S1|by rewrite S1, O1|done|done|].
  unfold arg_effect, rve in E, Eh. rewrite S1, O1, R1 in E, Eh. simpl in E, Eh.
  specialize (Hr He). specialize (HUu ltac:(auto)).
  set (b1 := apply_result r h u b).
  assert (isDebitDirection b1 = false) as Hi1 by exact Hi. unfold settle.
  assert (operate b1 x2 = Done (r + arg_amount x1, lb_OnHold b)%Z) as ->.
  { unfold operate, op_is, status_is, rve, credit_available. rewrite P2, S2, O2, R2, Hi1, EA. simpl.
    unfold b1. simpl. rewrite Eh. do 2 f_equal. lia. }
  cbn [obind fst snd].
  assert (credit_repayment b1 x2 (r + arg_amount x1)%Z = Done (r + arg_amount x1, u)%Z) as ->.
  { unfold credit_repayment, op_is. by rewrite O2. }
  cbn [obind].
  assert (release_reversal b1 x2 (r + arg_amount x1, u)%Z = Done (lb_Available b, lb_OverdraftUsed b)) as ->.
  { assert (stale b1 x2 = false) as Hst by (unfold stale; rewrite EV; apply negb_false_iff, Z.eqb_refl).
    assert (not_external b1 = true) as He1 by exact He.
    unfold release_reversal, op_is, status_is. rewrite O2, S2, R2, Hi1, He1, EO, EA, Hst. simpl.
    destruct (Z.ltb_spec 0 (u - lb_OverdraftUsed b)).
    - destruct Hlim as [-> _]; [lia|]. unfold b1. simpl. f_equal. f_equal; lia.
    - f_equal. f_equal; lia. }
  cbn [obind]. unfold overdraft_floor. simpl.
  destruct (Z.ltb_spec (lb_Available b) 0); [lia|]. done.
Qed.

(** A two-phase repayment never reaches the companion.  The companion CREDIT
    queued while the transaction is pending changes nothing (the script has no
    branch for it), and the commit queues no companion at all; but the APPROVED
    credit repays the overdraft of the destination.  So after the commit the
    companion still holds the old liability while [OverdraftUsed] is smaller by
    the repayment. *)
Theorem two_phase_repayment_drifts (b c : LuaBalance Z) (xc x : ScriptArg Z) :
  lb_Direction c = DirectionDebit → (0 <= lb_Available c)%Z →
  arg_isPending xc = 1%Z → arg_transactionStatus xc = PENDING → arg_operation xc = CREDIT →
  lb_Direction b = DirectionCredit → not_external b = true → (0 <= lb_Available b)%Z →
  (0 < lb_OverdraftUsed b)%Z → (0 < arg_amount x)%Z → arg_overdraftAmount x = 0%Z →
  arg_isPending x = 1%Z → arg_transactionStatus x = APPROVED → arg_operation x = CREDIT →
  incomingVersion x = lb_Version b → lb_Available c = lb_OverdraftUsed b →
  settle c xc = Done (lb_Available c, lb_OnHold c, lb_OverdraftUsed c) ∧
  ∃ r h u, settle b x = Done (r, h, u) ∧ (u < lb_Available c)%Z.
Proof.
  intros Hc HAc Pc Sc Oc Hd He HA HU Ha Hov P S O V Hl. split.
  - assert (isDebitDirection c = true) as Hi by (unfold isDebitDirection; by rewrite Hc).
    unfold settle, operate, op_is, status_is. rewrite Pc, Sc, Oc. simpl.
    unfold credit_repayment. rewrite Hi, andb_false_r. cbn [andb obind].
    unfold release_reversal, op_is. rewrite Oc. simpl.
    destruct (Z.ltb_spec (lb_Available c) 0); [lia|]. done.
  - assert (isDebitDirection b = false) as Hi by (unfold isDebitDirection; by rewrite Hd).
    assert (op_is x CREDIT = true) as Hop by (unfold op_is; by rewrite O).
    assert (stale b x = false) as Hst by (unfold stale; rewrite V; apply negb_false_iff, Z.eqb_refl).
    set (p := Z.min (arg_amount x) (lb_OverdraftUsed b)). assert (0 < p)%Z by lia.
    exists (lb_Available b + arg_amount x - p)%Z, (lb_OnHold b), (lb_OverdraftUsed b - p)%Z.
    split; [|lia].
    assert (operate b x = Done (lb_Available b + arg_amount x, lb_OnHold b)%Z) as Eo.
    { unfold operate, op_is, status_is, only_available, credit_available. by rewrite P, S, O, Hi. }
    assert (credit_repayment b x (lb_Available b + arg_amount x)
      = Done (lb_Available b + arg_amount x - p, lb_OverdraftUsed b - p))%Z as Ec.
    { unfold credit_repayment. rewrite Hi, He, Hop, Hov, Hst. simpl.
      by destruct (Z.ltb_spec 0 (lb_OverdraftUsed b)); [|lia]. }
    assert (∀ v, release_reversal b x v = Done v) as Er.
    { intros [? ?]. unfold release_reversal, op_is. by rewrite O. }
    unfold settle. rewrite Eo. cbn [obind fst snd]. rewrite Ec. cbn [obind]. rewrite Er. cbn [obind].
    unfold overdraft_floor. simpl.
    destruct (Z.ltb_spec (lb_Available b + arg_amount x - p) 0); [lia|]. done.
Qed.

(** ** Sample inputs *)

Module CompanionSample.
Definition primary : @MBalance Fixed.lib :=
  mkMBalance "b1" "org" "ledger" "acc1" "@alice" "default" "USD" (fx 100 0) (fx 0 0) 7 "deposit"
    true true DirectionCredit (fx 0 0)
    (Some (mkBalanceSettings "transactional" true false None)) 0 0 None ∅.
Definition companion : @MBalance Fixed.lib :=
  mkMBalance "b2" "org" "ledger" "acc1" "@alice" "overdraft" "USD" (fx 0 0) (fx 0 0) 1 "deposit"
    true true DirectionDebit (fx 0 0)
    (Some (mkBalanceSettings "internal" false false None)) 0 0 None ∅.
Definition debit_op : @BalanceOperation Fixed.lib :=
  mkBalanceOperation primary "0#@alice#default"
    (mkAmount "USD" (fx 250 0) DEBIT CREATED DirectionDebit false (fx 0 0)) "balance:alice".
Definition loader (s : gset string) : result string (list (@MBalance Fixed.lib)) := Ok [companion].
Definition run := enrichOverdraftOperations (U := Numbered.lib) 0%nat 1%nat [debit_op] None loader.

Definition balance (dir : Direction) (available onHold used : Z) : LuaBalance Z :=
  mkLuaBalance "b1" available onHold 7 "deposit" "acc1" "USD" 1 1 "default" dir used 1 0 0%Z
    "transactional" None.
Definition arg (pending : Z) (status : TxStatus) (o : OpType) (amount overdraft version : Z) : ScriptArg Z :=
  mkScriptArg "k" pending status o amount "a" 0
    (mkLuaBalance "b1" 0%Z 0%Z version "deposit" "acc1" "USD" 1 1 "default" DirectionCredit 0%Z 1 0 0%Z
       "transactional" None) overdraft.
End CompanionSample.

Lemma enrichment_only_adds_companions_witness :
  match CompanionSample.run with
  | Ok st => ∃ extra companions,
      en_ops st = [CompanionSample.debit_op] ++ extra ∧ length (en_fromTos st) = length extra ∧
      validate_extends None (en_validate st) ∧
      Forall (companion_of [CompanionSample.debit_op] companions) extra ∧
      Forall (λ op, registered (en_validate st) (bo_Alias op)) extra
  | Err _ => False
  end.
Proof.
  assert (match CompanionSample.run with Ok st => length (en_ops st) =? 2 | Err _ => false end = true)%nat
    as H2 by (vm_compute; reflexivity).
  destruct CompanionSample.run as [st|] eqn:E; [|discriminate H2].
  exact (enrichment_only_adds_companions _ _ _ _ _ st E).
Defined.

Lemma companion_lockstep_witness :
  let b := CompanionSample.balance DirectionCredit 100 0 0 in
  let c := CompanionSample.balance DirectionDebit 0 0 0 in
  settle b (CompanionSample.arg 0 CREATED DEBIT 250 0 7) = Done (0, 0, 150)%Z ∧
  settle c (CompanionSample.arg 0 CREATED DEBIT 150 0 7) = Done (150, 0, 0)%Z ∧ (150 = 150)%Z.
Proof.
  split; [reflexivity|]. split; [reflexivity|].
  assert (∃ s, debit_split CompanionSample.debit_op = Some s ∧ (dval (sp_amount s) == qv 0 150)%Q) as (s & Es & Ev).
  { eexists. split; [reflexivity|reflexivity]. }
  pose (cop := buildCompanionDebitOp (U := Numbered.lib) 0%nat 1%nat s CompanionSample.companion).
  assert (companion_built (U := Numbered.lib) 0%nat 1%nat CompanionSample.debit_op CompanionSample.companion cop) as Hcop
    by (left; exists s; split; [exact Es|reflexivity]).
  assert (op_view 0 cop (CompanionSample.balance DirectionDebit 0 0 0) (CompanionSample.arg 0 CREATED DEBIT 150 0 7)) as Hc.
  { injection Es as <-. split; reflexivity. }
  refine (companion_lockstep (D := Fixed.lib) (U := Numbered.lib) 0 0%nat 1%nat CompanionSample.debit_op
    CompanionSample.companion cop
    (CompanionSample.balance DirectionCredit 100 0 0) (CompanionSample.balance DirectionDebit 0 0 0)
    (CompanionSample.arg 0 CREATED DEBIT 250 0 7) (CompanionSample.arg 0 CREATED DEBIT 150 0 7)
    0 0 150 150 0 0 Hcop _ Hc eq_refl eq_refl eq_refl eq_refl eq_refl eq_refl eq_refl
    _ _ _ eq_refl eq_refl)%Z; try (vm_compute; discriminate).
  split; reflexivity.
Defined.

Lemma overdraft_hold_cancel_restores_witness :
  let b := CompanionSample.balance DirectionCredit 100 0 20 in
  settle b (CompanionSample.arg 1 PENDING ONHOLD 250 0 7) = Done (0, 250, 170)%Z ∧
  settle (apply_result 0 250 170 b)%Z (CompanionSample.arg 1 CANCELED RELEASE 250 150 8) = Done (100, 0, 20)%Z.
Proof.
  split; [reflexivity|].
  apply (overdraft_hold_cancel_restores (CompanionSample.balance DirectionCredit 100 0 20)
    (CompanionSample.arg 1 PENDING ONHOLD 250 0 7) (CompanionSample.arg 1 CANCELED RELEASE 250 150 8)
    0 250 170); (reflexivity || (vm_compute; discriminate)).
Defined.

Lemma two_phase_repayment_drifts_witness :
  let b := CompanionSample.balance DirectionCredit 0 0 50 in
  let c := CompanionSample.balance DirectionDebit 50 0 0 in
  settle c (CompanionSample.arg 1 PENDING CREDIT 30 0 7) = Done (50, 0, 0)%Z ∧
  ∃ r h u, settle b (CompanionSample.arg 1 APPROVED CREDIT 30 0 7) = Done (r, h, u) ∧ (u < 50)%Z.
Proof.
  apply (two_phase_repayment_drifts (CompanionSample.balance DirectionCredit 0 0 50)
    (CompanionSample.balance DirectionDebit 50 0 0) (CompanionSample.arg 1 PENDING CREDIT 30 0 7)
    (CompanionSample.arg 1 APPROVED CREDIT 30 0 7)); (reflexivity || (vm_compute; discriminate)).
Defined.
