(* ===== verification/BalanceSync.v ===== *)
(** * Synchronisation of cached balances to the database
    (adapters/redis/transaction/balance/aggregation.go,
    services/command/sync_balances_batch.go, scripts/claim_balance_sync_keys.lua,
    scripts/remove_balance_sync_keys_batch.lua, adapters/postgres/balance)

    Balances are mutated in Redis and written to PostgreSQL later: the balance
    script schedules the key of every changed balance, workers claim due keys,
    read the balances, keep the highest version per balance, update the rows whose
    version is lower, and remove a key from the schedule only when its score is the
    one they claimed.  The state machine [sync_step] interleaves these phases with
    mutations by other clients; [sync_never_forgets] is its safety theorem. *)

From Stdlib Require Import Ascii QArith.
From stdpp Require Import base gmap strings list numbers sorting.
From S2P Require Import Prelude Decimals GoStrings Transaction LuaDecimal AtomicScript CacheKeys MBalance.
From S2P Require Import BalancePlan.

Local Open Scope string_scope.
Local Open Scope list_scope.

(** [strings.TrimSpace(s) == ""] *)
Definition blank (s : string) : bool := all_chars is_space s.

Section Sync.
Context {D : DecimalLib} {DT : DecimalText} {U : UuidLib} {P : UuidParse}.

(** ** Composite keys *)

Record BalanceCompositeKey := mkCompositeKey {
  ck_OrganizationID : uuid; ck_LedgerID : uuid; ck_AccountID : string;
  ck_AssetCode : string; ck_PartitionKey : string }.

Definition CompositeKey_String (k : BalanceCompositeKey) : string :=
  uuid_String (ck_OrganizationID k) +:+ ":" +:+ uuid_String (ck_LedgerID k) +:+ ":" +:+
  ck_AccountID k +:+ ":" +:+ ck_AssetCode k +:+ ":" +:+ ck_PartitionKey k.

(** One segment of the key: a UUID only when it has 36 characters. *)
Definition segment_uuid (seg : string) : option uuid :=
  if negb (String.length seg =? 36)%nat then None else uuid_Parse seg.

(** The loop over the segments: the first two UUIDs and what follows them. *)
Fixpoint find_ids (org : option uuid) (parts : list string) : option (uuid * uuid * list string) :=
  match parts with
  | [] => None
  | seg :: rest =>
      match segment_uuid seg with
      | None => find_ids org rest
      | Some u =>
          match org with
          | None => find_ids (Some u) rest
          | Some o => Some (o, u, rest)
          end
      end
  end.

Definition BalanceCompositeKeyFromRedisKey (redisKey : string) : result string BalanceCompositeKey :=
  match find_ids None (strings_Split colon redisKey) with
  | None => Err redisKey
  | Some (orgID, ledgerID, rest) =>
      let aliasAndKey := strings_Join ":" rest in
      let aliasParts := strings_Split hash aliasAndKey in
      let alias := match aliasParts with a :: _ => a | [] => "" end in
      let partitionKey := match aliasParts with
                          | _ :: k :: _ => if negb (blank k) then k else DefaultBalanceKey
                          | _ => DefaultBalanceKey
                          end in
      Ok (mkCompositeKey orgID ledgerID alias "" partitionKey)
  end.

(** [extractIDsFromMember] of the worker scans the key byte by byte; [seg] is
    [member[start:i]]. *)
Definition close_segment (first : option uuid) (seg : string) : option uuid + (uuid * uuid) :=
  if bool_decide (seg = "") then inl first
  else if (String.length seg =? 36)%nat then
    match uuid_Parse seg with
    | Some u => match first with None => inl (Some u) | Some f => inr (f, u) end
    | None => inl first
    end
  else inl first.

Fixpoint scan_member (first : option uuid) (seg member : string) : option (uuid * uuid) :=
  match member with
  | EmptyString => match close_segment first seg with inr r => Some r | inl _ => None end
  | String a member' =>
      if bool_decide (a = colon) then
        match close_segment first seg with
        | inr r => Some r
        | inl first' => scan_member first' "" member'
        end
      else scan_member first (seg +:+ String a "") member'
  end.

Definition extractIDsFromMember (member : string) : option (uuid * uuid) :=
  scan_member None "" member.

(** ** Aggregation *)

Record AggregatedBalance := mkAggregated {
  ab_RedisKey : string; ab_Balance : option BalanceRedis; ab_Key : BalanceCompositeKey }.

Definition set_asset (asset : string) (k : BalanceCompositeKey) : BalanceCompositeKey :=
  mkCompositeKey (ck_OrganizationID k) (ck_LedgerID k) (ck_AccountID k) asset (ck_PartitionKey k).
Definition set_partition (p : string) (k : BalanceCompositeKey) : BalanceCompositeKey :=
  mkCompositeKey (ck_OrganizationID k) (ck_LedgerID k) (ck_AccountID k) (ck_AssetCode k) p.

(** The element as the loop leaves it. *)
Definition with_asset (ab : AggregatedBalance) (b : BalanceRedis) : AggregatedBalance :=
  if bool_decide (ck_AssetCode (ab_Key ab) = "") && negb (bool_decide (br_AssetCode b = ""))
  then mkAggregated (ab_RedisKey ab) (ab_Balance ab) (set_asset (br_AssetCode b) (ab_Key ab))
  else ab.

Definition version_of (ab : AggregatedBalance) : Z :=
  match ab_Balance ab with Some b => br_Version b | None => 0 end.

Definition group_step (grouped : gmap string AggregatedBalance) (ab : AggregatedBalance)
  : gmap string AggregatedBalance :=
  match ab_Balance ab with
  | None => grouped
  | Some b =>
      let ab := with_asset ab b in
      let keyStr := CompositeKey_String (ab_Key ab) in
      match grouped !! keyStr with
      | None => <[keyStr := ab]> grouped
      | Some existing =>
          if (version_of existing <? br_Version b)%Z then <[keyStr := ab]> grouped else grouped
      end
  end.

Definition keystr_le (x y : AggregatedBalance) : Prop :=
  String.leb (CompositeKey_String (ab_Key x)) (CompositeKey_String (ab_Key y)) = true.
#[export] Instance keystr_le_dec : RelDecision keystr_le.
Proof. intros x y. unfold keystr_le. apply _. Defined.

Definition Aggregate (balances : list AggregatedBalance) : list AggregatedBalance :=
  merge_sort keystr_le (map_to_list (fold_left group_step balances ∅)).*2.

(** ** The rows *)

Record Row := mkRow {
  row_OrganizationID : uuid; row_LedgerID : uuid; row_Available : dec; row_OnHold : dec;
  row_Version : Z; row_OverdraftUsed : dec; row_deleted : bool; row_UpdatedAt : Time }.

(** Deduplication by ID, the highest version at the position of the first. *)
Fixpoint upsert (ids : string) (b : BalanceRedis) (l : list (string * BalanceRedis))
  : list (string * BalanceRedis) :=
  match l with
  | [] => [(ids, b)]
  | (ids', b') :: l' =>
      if bool_decide (ids' = ids)
      then (ids', if (br_Version b' <? br_Version b)%Z then b else b') :: l'
      else (ids', b') :: upsert ids b l'
  end.

Definition dedup_step (acc : list (string * BalanceRedis)) (b : BalanceRedis)
  : result string (list (string * BalanceRedis)) :=
  match uuid_Parse (br_ID b) with
  | None => Err (br_ID b)
  | Some id => Ok (upsert (uuid_String id) b acc)
  end.

(** The VALUES list: a row with malformed OverdraftUsed is skipped. *)
Definition values_of (l : list (string * BalanceRedis)) : list (string * (BalanceRedis * dec)) :=
  omap (λ '(id, b), (λ u, (id, (b, u))) <$> dparse (br_OverdraftUsed b)) l.

Definition find_value (id : string) (vs : list (string * (BalanceRedis * dec)))
  : option (BalanceRedis * dec) :=
  snd <$> List.find (λ v, bool_decide (v.1 = id)) vs.

(** The WHERE clause and the SET clause on one row. *)
Definition row_matches (organizationID ledgerID : uuid) (row : Row) (version : Z) : bool :=
  bool_decide (uuid_String (row_OrganizationID row) = uuid_String organizationID)
  && bool_decide (uuid_String (row_LedgerID row) = uuid_String ledgerID)
  && (row_Version row <? version)%Z && negb (row_deleted row).

Definition update_row_sql (now : Time) (organizationID ledgerID : uuid)
    (vs : list (string * (BalanceRedis * dec))) (id : string) (row : Row) : Row :=
  match find_value id vs with
  | Some (b, used) =>
      if row_matches organizationID ledgerID row (br_Version b)
      then mkRow (row_OrganizationID row) (row_LedgerID row) (br_Available b) (br_OnHold b)
             (br_Version b) used (row_deleted row) now
      else row
  | None => row
  end.

(** The rows the statement hits, for [RowsAffected]. *)
Definition row_hit (organizationID ledgerID : uuid) (vs : list (string * (BalanceRedis * dec)))
    (ir : string * Row) : bool :=
  match find_value ir.1 vs with
  | Some (b, _) => row_matches organizationID ledgerID ir.2 (br_Version b)
  | None => false
  end.

(** [UpdateMany]; the database is the balance table by ID.  The result is the table
    and the number of rows updated. *)
Definition UpdateMany (now : Time) (organizationID ledgerID : uuid) (balances : list BalanceRedis)
    (db : gmap string Row) : result string (gmap string Row * nat) :=
  let! deduped := fold_res dedup_step [] balances in
  let vs := values_of deduped in
  Ok (map_imap (λ id row, Some (update_row_sql now organizationID ledgerID vs id row)) db,
      length (List.filter (row_hit organizationID ledgerID vs) (map_to_list db))).

(** ** The schedule *)

Definition SyncKey : Type := string * Z.     (* member, score in microseconds *)

(** claim_balance_sync_keys.lua on the due members in score order. *)
Fixpoint claim_loop (locks : gset string) (due : list SyncKey) : gset string * list SyncKey :=
  match due with
  | [] => (locks, [])
  | (m, s) :: due' =>
      if bool_decide (m ∈ locks) then claim_loop locks due'
      else let '(locks', claimed) := claim_loop ({[m]} ∪ locks) due' in (locks', (m, s) :: claimed)
  end.
Definition score_le (x y : SyncKey) : Prop := (x.2 <= y.2)%Z.
#[export] Instance score_le_dec : RelDecision score_le.
Proof. intros x y. unfold score_le. apply _. Defined.
Definition claim_keys (now : Z) (limit : nat) (schedule : gmap string Z) (locks : gset string)
  : gset string * list SyncKey :=
  claim_loop locks (take limit (merge_sort score_le
    (List.filter (λ ms, (ms.2 <=? now)%Z) (map_to_list schedule)))).

(** remove_balance_sync_keys_batch.lua *)
Definition remove_step (st : gmap string Z * gset string * Z) (sk : SyncKey)
  : gmap string Z * gset string * Z :=
  let '(schedule, locks, removed) := st in
  let '(member, claimedScore) := sk in
  let '(schedule, removed) :=
    match schedule !! member with
    | Some currentScore =>
        if (currentScore =? claimedScore)%Z then (delete member schedule, removed + 1)%Z
        else (schedule, removed)
    | None => (schedule, removed)
    end in
  (schedule, locks ∖ {[member]}, removed).
Definition remove_batch (keys : list SyncKey) (schedule : gmap string Z) (locks : gset string)
  : gmap string Z * gset string * Z := fold_left remove_step keys (schedule, locks, 0%Z).

(** ** The batch *)

(** The composite key under which [SyncBalancesBatch] files a balance. *)
Definition sync_composite (key : string) (b : BalanceRedis) : result string BalanceCompositeKey :=
  let! k := BalanceCompositeKeyFromRedisKey key in
  let k := set_asset (br_AssetCode b) k in
  let parsedIsGeneric := bool_decide (ck_PartitionKey k = "")
                         || bool_decide (ck_PartitionKey k = DefaultBalanceKey) in
  let balanceHasSpecificKey := negb (bool_decide (br_Key b = ""))
                               && negb (bool_decide (br_Key b = DefaultBalanceKey)) in
  Ok (if parsedIsGeneric && balanceHasSpecificKey then set_partition (br_Key b) k else k).

Record prepared := mkPrepared {
  pr_aggregated : list AggregatedBalance;
  pr_orphaned : list SyncKey;
  pr_redisKeys : gmap string (list string) }.   (* compositeToRedisKeys *)

Definition prepare_step (scoreMap : gmap string Z) (balanceMap : gmap string BalanceRedis)
    (st : prepared) (key : string) : prepared :=
  let orphan := mkPrepared (pr_aggregated st)
    (pr_orphaned st ++ [(key, default 0%Z (scoreMap !! key))]) (pr_redisKeys st) in
  match balanceMap !! key with
  | None => orphan
  | Some b =>
      match sync_composite key b with
      | Err _ => orphan
      | Ok k =>
          let s := CompositeKey_String k in
          mkPrepared (pr_aggregated st ++ [mkAggregated key (Some b) k]) (pr_orphaned st)
            (<[s := default [] (pr_redisKeys st !! s) ++ [key]]> (pr_redisKeys st))
      end
  end.

(** [scoreMap]: a later entry overwrites an earlier one. *)
Definition scoreMap_of (keys : list SyncKey) : gmap string Z :=
  fold_left (λ m sk, <[sk.1 := sk.2]> m) keys ∅.

Definition sync_prepare (keys : list SyncKey) (balanceMap : gmap string BalanceRedis) : prepared :=
  fold_left (prepare_step (scoreMap_of keys) balanceMap) keys.*1 (mkPrepared [] [] ∅).

Definition keysToRemove (scoreMap : gmap string Z) (pr : prepared)
    (deduplicated : list AggregatedBalance) : list SyncKey :=
  pr_orphaned pr ++ flat_map (λ ab,
    map (λ rk, (rk, default 0%Z (scoreMap !! rk)))
      (default [] (pr_redisKeys pr !! CompositeKey_String (ab_Key ab)))) deduplicated.

(** The balances to write and the keys to remove once they are written. *)
Definition batch_balances (keys : list SyncKey) (balanceMap : gmap string BalanceRedis)
  : list BalanceRedis :=
  omap ab_Balance (Aggregate (pr_aggregated (sync_prepare keys balanceMap))).
Definition batch_keys (keys : list SyncKey) (balanceMap : gmap string BalanceRedis) : list SyncKey :=
  let pr := sync_prepare keys balanceMap in
  keysToRemove (scoreMap_of keys) pr (Aggregate (pr_aggregated pr)).
Definition batch_orphans (keys : list SyncKey) (balanceMap : gmap string BalanceRedis) : list SyncKey :=
  pr_orphaned (sync_prepare keys balanceMap).

Record SyncResult := mkSyncResult {
  sr_KeysProcessed : nat; sr_BalancesAggregated : nat; sr_BalancesSynced : nat; sr_KeysRemoved : Z }.

(** [RemoveBalanceSyncKeysBatch]: an error of Redis leaves the schedule as it is and
    is only logged. *)
Definition remove_or_log (redis_ok : bool) (keys : list SyncKey) (schedule : gmap string Z)
    (locks : gset string) : gmap string Z * gset string * Z :=
  if redis_ok then remove_batch keys schedule locks else (schedule, locks, 0%Z).

(** [SyncBalancesBatch]: [fetched] is the reply of MGET, [db_error] a failure of the
    database and [redis_ok] the availability of Redis at the cleanup. *)
Definition SyncBalancesBatch (now : Time) (fetched : result string (gmap string BalanceRedis))
    (db_error : option string) (redis_ok : bool) (organizationID ledgerID : uuid)
    (keys : list SyncKey) (db : gmap string Row) (schedule : gmap string Z) (locks : gset string)
  : gmap string Row * gmap string Z * gset string * result string SyncResult :=
  match keys, fetched with
  | [], _ => (db, schedule, locks, Ok (mkSyncResult 0 0 0 0))
  | _, Err e => (db, schedule, locks, Err e)
  | _, Ok balanceMap =>
      let orphans := batch_orphans keys balanceMap in
      match batch_balances keys balanceMap with
      | [] =>
          let '(schedule, locks, removed) := remove_or_log redis_ok orphans schedule locks in
          (db, schedule, locks, Ok (mkSyncResult (length keys) 0 0 removed))
      | balancesToSync =>
          match db_error, UpdateMany now organizationID ledgerID balancesToSync db with
          | None, Ok (db', synced) =>
              let '(schedule, locks, removed) :=
                remove_or_log redis_ok (batch_keys keys balanceMap) schedule locks in
              (db', schedule, locks,
               Ok (mkSyncResult (length keys) (length balancesToSync) synced removed))
          | Some e, _ | None, Err e =>
              let '(schedule, locks, _) := remove_or_log redis_ok orphans schedule locks in
              (db, schedule, locks, Err e)
          end
      end
  end.

(** ** The worker *)

(** [groupKeysByOrgLedger]: the groups (in some order: a Go map) and the keys without
    two identifiers, which are removed from the schedule. *)
Fixpoint add_to_group (ids : uuid * uuid) (key : SyncKey) (groups : list (uuid * uuid * list SyncKey))
  : list (uuid * uuid * list SyncKey) :=
  match groups with
  | [] => [(ids, [key])]
  | (ids', keys) :: groups' =>
      if bool_decide (uuid_String ids'.1 = uuid_String ids.1 ∧ uuid_String ids'.2 = uuid_String ids.2)
      then (ids', keys ++ [key]) :: groups'
      else (ids', keys) :: add_to_group ids key groups'
  end.

Definition group_key (acc : list (uuid * uuid * list SyncKey) * list SyncKey) (key : SyncKey)
  : list (uuid * uuid * list SyncKey) * list SyncKey :=
  match extractIDsFromMember key.1 with
  | Some ids => (add_to_group ids key acc.1, acc.2)
  | None => (acc.1, acc.2 ++ [key])
  end.
Definition groupKeysByOrgLedger (keys : list SyncKey)
  : list (uuid * uuid * list SyncKey) * list SyncKey := fold_left group_key keys ([], []).
End Sync.

(** ** The two parsers *)

Section Parsers.
Context {D : DecimalLib} {DT : DecimalText} {U : UuidLib} {P : UuidParse}.

Definition ids_of (r : option (uuid * uuid * list string)) : option (uuid * uuid) := fst <$> r.

Lemma find_ids_cons f seg rest :
  ids_of (find_ids f (seg :: rest)) =
  match close_segment f seg with inr r => Some r | inl f' => ids_of (find_ids f' rest) end.
Proof.
  simpl. unfold close_segment, segment_uuid. case_bool_decide as E; [by subst|].
  destruct (String.length seg =? 36)%nat; simpl; [|done].
  destruct (uuid_Parse seg); [by destruct f|done].
Qed.

Lemma scan_member_split f seg member :
  contains_char colon seg = false →
  scan_member f seg member = ids_of (find_ids f (strings_Split colon (seg +:+ member))).
Proof.
  revert f seg. induction member as [|a member IH]; intros f seg Hs.
  - rewrite string_app_nil_r, strings_Split_none, find_ids_cons by done. simpl.
    by destruct close_segment.
  - cbn [scan_member]. case_bool_decide as E.
    + subst a. rewrite strings_Split_app, find_ids_cons by done.
      destruct close_segment as [f'|r]; [|done]. by rewrite IH.
    + rewrite IH, string_app_assoc; [done|].
      rewrite contains_char_app, Hs. simpl. by rewrite bool_decide_eq_false_2.
Qed.

Lemma composite_ids key :
  extractIDsFromMember key =
  match BalanceCompositeKeyFromRedisKey key with
  | Ok k => Some (ck_OrganizationID k, ck_LedgerID k)
  | Err _ => None
  end.
Proof.
  unfold extractIDsFromMember, BalanceCompositeKeyFromRedisKey.
  rewrite scan_member_split by done. simpl (_ +:+ key).
  by destruct (find_ids _ _) as [[[o l] rest]|].
Qed.

(** The key of a tenant, as the Redis client prefixes it. *)
Definition tenant_key (tenant : option string) (key : string) : string :=
  match tenant with Some t => "tenant" +:+ ":" +:+ t +:+ ":" +:+ key | None => key end.

Context `{!UuidLaws} `{!UuidParseLaws}.

Lemma segment_uuid_String u : segment_uuid (uuid_String u) = Some u.
Proof. unfold segment_uuid. by rewrite uuid_String_length, uuid_Parse_String. Qed.

Lemma Split_colon s t :
  contains_char colon s = false →
  strings_Split colon (s +:+ ":" +:+ t) = s :: strings_Split colon t.
Proof. apply strings_Split_app. Qed.

Lemma find_ids_balance_key o l entity :
  find_ids None (strings_Split colon (BalanceInternalKey o l entity))
  = Some (o, l, strings_Split colon entity).
Proof.
  unfold BalanceInternalKey.
  change ("balance" +:+ ":" +:+ "{" +:+ "transactions" +:+ "}" +:+ ":" +:+ ?x)
    with ("balance" +:+ ":" +:+ "{transactions}" +:+ ":" +:+ x).
  rewrite !Split_colon by (done || apply uuid_no_colon).
  cbn [find_ids]. by rewrite !segment_uuid_String.
Qed.

Lemma find_ids_tenant t key :
  contains_char colon t = false →
  find_ids None (strings_Split colon (tenant_key (Some t) key))
  = match segment_uuid t with
    | Some u => find_ids (Some u) (strings_Split colon key)
    | None => find_ids None (strings_Split colon key)
    end.
Proof. intros. unfold tenant_key. rewrite !Split_colon by done. reflexivity. Qed.

Definition partition_of (key : string) : string := if blank key then DefaultBalanceKey else key.

Lemma parse_entity alias key :
  contains_char hash alias = false → contains_char hash key = false →
  strings_Split hash (strings_Join ":" (strings_Split colon (alias +:+ "#" +:+ key))) = [alias; key].
Proof.
  intros Ha Hk. change ":" with (String colon ""). rewrite strings_Join_Split.
  change "#" with (String hash ""). rewrite string_app_cons, strings_Split_app by done.
  f_equal. by apply (strings_Split_none hash key).
Qed.

(** The key of a cached balance is read back as it was built: whatever tenant
    prefix (not itself a UUID) the client put in front of it, both parsers find the
    organization and the ledger, and the composite key has the alias, colons
    included, and the balance key, or the default one when it is blank. *)
Theorem composite_key_round_trip (o l : uuid) alias key tenant :
  contains_char hash alias = false → contains_char hash key = false →
  (∀ t, tenant = Some t → contains_char colon t = false ∧ segment_uuid t = None) →
  let redisKey := tenant_key tenant (BalanceInternalKey o l (alias +:+ "#" +:+ key)) in
  BalanceCompositeKeyFromRedisKey redisKey = Ok (mkCompositeKey o l alias "" (partition_of key))
  ∧ extractIDsFromMember redisKey = Some (o, l).
Proof.
  intros Ha Hk Ht redisKey.
  assert (find_ids None (strings_Split colon redisKey)
          = Some (o, l, strings_Split colon (alias +:+ "#" +:+ key))) as E.
  { subst redisKey. destruct tenant as [t|]; [|apply find_ids_balance_key].
    destruct (Ht t) as [Hc Hs]; [done|]. rewrite find_ids_tenant, Hs by done.
    apply find_ids_balance_key. }
  assert (BalanceCompositeKeyFromRedisKey redisKey
          = Ok (mkCompositeKey o l alias "" (partition_of key))) as EB.
  { unfold BalanceCompositeKeyFromRedisKey. rewrite E, parse_entity by done.
    unfold partition_of. by destruct (blank key). }
  split; [done|]. by rewrite composite_ids, EB.
Qed.

(** A tenant identifier that is a UUID shifts the parse: the tenant is taken for
    the organization, the organization for the ledger, and the ledger becomes a part
    of the alias, so the rows of the balance are not updated. *)
Theorem uuid_tenant_prefix_misread (t o l : uuid) alias key :
  contains_char hash (uuid_String l) = false →
  contains_char hash alias = false → contains_char hash key = false →
  let redisKey := tenant_key (Some (uuid_String t))
                    (BalanceInternalKey o l (alias +:+ "#" +:+ key)) in
  extractIDsFromMember redisKey = Some (t, o)
  ∧ BalanceCompositeKeyFromRedisKey redisKey
    = Ok (mkCompositeKey t o (uuid_String l +:+ ":" +:+ alias) "" (partition_of key)).
Proof.
  intros Hl Ha Hk redisKey.
  assert (find_ids None (strings_Split colon redisKey)
          = Some (t, o, strings_Split colon ((uuid_String l +:+ ":" +:+ alias) +:+ "#" +:+ key))) as E.
  { subst redisKey. rewrite find_ids_tenant, segment_uuid_String by apply uuid_no_colon.
    unfold BalanceInternalKey.
    change ("balance" +:+ ":" +:+ "{" +:+ "transactions" +:+ "}" +:+ ":" +:+ ?x)
      with ("balance" +:+ ":" +:+ "{transactions}" +:+ ":" +:+ x).
    rewrite !string_app_assoc, !Split_colon by (done || apply uuid_no_colon).
    cbn [find_ids]. by rewrite segment_uuid_String. }
  assert (BalanceCompositeKeyFromRedisKey redisKey
    = Ok (mkCompositeKey t o (uuid_String l +:+ ":" +:+ alias) "" (partition_of key))) as EB.
  { unfold BalanceCompositeKeyFromRedisKey. rewrite E, parse_entity; [|by rewrite !contains_char_app, Hl, Ha|done].
    unfold partition_of. by destruct (blank key). }
  split; [|done]. by rewrite composite_ids, EB.
Qed.
End Parsers.

Lemma composite_key_round_trip_witness :
  BalanceCompositeKeyFromRedisKey (P := FourIds.parse)
    (tenant_key (Some "acme") (BalanceInternalKey (H := FourIds.lib) (false, true) (true, false)
      ("@shop:till" +:+ "#" +:+ "food")))
  = Ok (mkCompositeKey (U := FourIds.lib) (false, true) (true, false) "@shop:till" "" "food").
Proof.
  refine (proj1 (composite_key_round_trip (U := FourIds.lib) (P := FourIds.parse)
    (false, true) (true, false) "@shop:till" "food" (Some "acme") _ _ _)); [reflexivity|reflexivity|].
  intros t E. apply (inj Some) in E. subst t. split; reflexivity.
Defined.

Lemma uuid_tenant_prefix_misread_witness :
  extractIDsFromMember (P := FourIds.parse)
    (tenant_key (Some (FourIds.text (true, true))) (BalanceInternalKey (H := FourIds.lib)
       (false, true) (true, false) ("@shop:till" +:+ "#" +:+ "food")))
  = Some ((true, true), (false, true)).
Proof.
  refine (proj1 (uuid_tenant_prefix_misread (U := FourIds.lib) (P := FourIds.parse)
    (true, true) (false, true) (true, false) "@shop:till" "food" _ _ _)); reflexivity.
Defined.

(** ** Aggregation keeps the newest version *)

Section Aggregation.
Context {D : DecimalLib} {DT : DecimalText} {U : UuidLib} {P : UuidParse}.
Implicit Types (ab : AggregatedBalance) (l : list AggregatedBalance).

(** What the loop files: the non-nil elements, with their asset code. *)
Definition filed (ab : AggregatedBalance) : option AggregatedBalance := with_asset ab <$> ab_Balance ab.
Definition key_str (ab : AggregatedBalance) : string := CompositeKey_String (ab_Key ab).

Definition group_ok l (g : gmap string AggregatedBalance) : Prop :=
  (∀ k ab, g !! k = Some ab → k = key_str ab ∧ ab ∈ omap filed l) ∧
  (∀ ab, ab ∈ omap filed l → ∃ ab', g !! key_str ab = Some ab' ∧ (version_of ab <= version_of ab')%Z).

Lemma filed_balance ab ab' : filed ab = Some ab' → ab_Balance ab' = ab_Balance ab.
Proof.
  unfold filed. destruct (ab_Balance ab) as [b|] eqn:E; [|done]. intros [= <-].
  unfold with_asset. by destruct (_ && _).
Qed.

Lemma group_step_filed g ab :
  group_step g ab =
  match filed ab with
  | None => g
  | Some ab' =>
      match g !! key_str ab' with
      | Some e => if (version_of e <? version_of ab')%Z then <[key_str ab' := ab']> g else g
      | None => <[key_str ab' := ab']> g
      end
  end.
Proof.
  unfold group_step. destruct (filed ab) as [ab'|] eqn:F.
  - pose proof (filed_balance _ _ F) as Hb. unfold filed in F.
    destruct (ab_Balance ab) as [b|] eqn:E; [|done]. injection F as F. rewrite F.
    unfold key_str. destruct (g !! _); [|done].
    by assert (version_of ab' = br_Version b) as -> by (unfold version_of; by rewrite Hb).
  - unfold filed in F. by destruct (ab_Balance ab).
Qed.

Lemma group_step_ok l g ab : group_ok l g → group_ok (l ++ [ab]) (group_step g ab).
Proof.
  intros [H1 H2]. rewrite group_step_filed. unfold group_ok. setoid_rewrite omap_app.
  setoid_rewrite elem_of_app. simpl. destruct (filed ab) as [ab'|] eqn:F; simpl.
  2: { split; [naive_solver|]. intros x [Hx|Hx%elem_of_nil]; [auto|done]. }
  setoid_rewrite list_elem_of_singleton.
  assert (∀ g', g' = <[key_str ab' := ab']> g →
    (∀ e, g !! key_str ab' = Some e → (version_of e <= version_of ab')%Z) →
    (∀ k x, g' !! k = Some x → k = key_str x ∧ (x ∈ omap filed l ∨ x = ab')) ∧
    (∀ x, x ∈ omap filed l ∨ x = ab' →
       ∃ x', g' !! key_str x = Some x' ∧ (version_of x <= version_of x')%Z)) as Ins.
  { intros g' -> Hle. split.
    - intros k x. rewrite lookup_insert_Some. naive_solver.
    - intros x Hx. destruct (decide (key_str x = key_str ab')) as [Ek|Ek].
      + exists ab'. rewrite Ek, lookup_insert_eq. split; [done|].
        destruct Hx as [Hx| ->]; [|done]. destruct (H2 x Hx) as (e & He & ?).
        rewrite Ek in He. specialize (Hle e He). lia.
      + destruct Hx as [Hx| ->]; [|done]. rewrite lookup_insert_ne by done. auto. }
  destruct (g !! key_str ab') as [e|] eqn:E; [|apply Ins; naive_solver].
  destruct (Z.ltb_spec (version_of e) (version_of ab')) as [Hlt|Hge].
  - apply Ins; [done|]. intros e' [= <-]. lia.
  - split; [intros k x Hx; naive_solver|]. intros x [Hx| ->]; [auto|]. exists e. naive_solver.
Qed.

Lemma group_fold_ok l : group_ok l (fold_left group_step l ∅).
Proof.
  induction l as [|ab l IH] using rev_ind.
  - split; [|by intros ab ?%elem_of_nil]. intros k ab H. simpl in H. by rewrite lookup_empty in H.
  - rewrite fold_left_app. by apply group_step_ok.
Qed.

Lemma elem_of_Aggregate l ab :
  ab ∈ Aggregate l ↔ fold_left group_step l ∅ !! key_str ab = Some ab.
Proof.
  unfold Aggregate. rewrite (merge_sort_Permutation keystr_le), list_elem_of_fmap. split.
  - intros ([k x] & -> & Hx). apply elem_of_map_to_list in Hx. simpl.
    by destruct (proj1 (group_fold_ok l) k x Hx) as [-> _].
  - intros H. exists (key_str ab, ab). split; [done|]. by apply elem_of_map_to_list.
Qed.

#[local] Instance keystr_le_total : Total keystr_le.
Proof. intros x y. unfold keystr_le. apply String.leb_total. Qed.

(** Aggregation deduplicates a batch by composite key: the keys of the result are
    distinct and in order, every element is one of the batch (with the asset code of
    its balance) and no element of the batch with its key is newer, and every element
    of the batch that has a balance is represented. *)
Theorem aggregate_correct l :
  NoDup (key_str <$> Aggregate l)
  ∧ Sorted keystr_le (Aggregate l)
  ∧ (∀ ab, ab ∈ Aggregate l →
       ab ∈ omap filed l
       ∧ ∀ ab', ab' ∈ omap filed l → key_str ab' = key_str ab → (version_of ab' <= version_of ab)%Z)
  ∧ (∀ ab, ab ∈ omap filed l → ∃ ab', ab' ∈ Aggregate l ∧ key_str ab' = key_str ab).
Proof.
  destruct (group_fold_ok l) as [H1 H2]. repeat split.
  - unfold Aggregate. rewrite (merge_sort_Permutation keystr_le), <- list_fmap_compose.
    rewrite (list_fmap_ext _ fst).
    + apply NoDup_fst_map_to_list.
    + intros i [k ab] Hi%list_elem_of_lookup_2%elem_of_map_to_list. simpl.
      by destruct (H1 k ab Hi) as [-> _].
  - apply Sorted_merge_sort. apply _.
  - apply elem_of_Aggregate in H. by destruct (H1 _ _ H).
  - intros ab' Hab' Ek. apply elem_of_Aggregate in H.
    destruct (H2 ab' Hab') as (x & Hx & Hv). rewrite Ek in Hx. by simplify_eq.
  - intros ab Hab. destruct (H2 ab Hab) as (x & Hx & Hv). destruct (H1 _ _ Hx) as [Ek _].
    exists x. rewrite elem_of_Aggregate, <- Ek. done.
Qed.
End Aggregation.

(** ** The batch update *)

(** A key has one value in an association list with distinct keys. *)
Lemma NoDup_fst_inj {K A} (l : list (K * A)) k x y :
  NoDup l.*1 → (k, x) ∈ l → (k, y) ∈ l → x = y.
Proof.
  induction l as [|[i z] l IH]; [by intros _ ?%elem_of_nil|].
  rewrite fmap_cons, NoDup_cons, !elem_of_cons. simpl. intros [Hn ND] Hx Hy.
  assert (∀ w, (i, w) ∈ l → False) as Hno.
  { intros w Hw. apply Hn. apply list_elem_of_fmap. by exists (i, w). }
  destruct Hx as [Hx|Hx], Hy as [Hy|Hy]; simplify_eq; naive_solver.
Qed.

Section Update.
Context {D : DecimalLib} {DT : DecimalText} {U : UuidLib} {P : UuidParse}.
Implicit Types (b : BalanceRedis) (bs : list BalanceRedis) (acc : list (string * BalanceRedis)).

(** The ID of the row of a balance. *)
Definition row_id (b : BalanceRedis) : option string := uuid_String <$> uuid_Parse (br_ID b).

Definition dedup_ok bs acc : Prop :=
  NoDup acc.*1
  ∧ (∀ id b, (id, b) ∈ acc → b ∈ bs ∧ row_id b = Some id)
  ∧ (∀ b id, b ∈ bs → row_id b = Some id →
       ∃ b', (id, b') ∈ acc ∧ (br_Version b <= br_Version b')%Z).

Lemma upsert_keys id b acc :
  (upsert id b acc).*1 = if bool_decide (id ∈ acc.*1) then acc.*1 else acc.*1 ++ [id].
Proof.
  induction acc as [|[i x] acc IH]; [done|]. cbn [upsert].
  destruct (decide (i = id)) as [->|Hn].
  - rewrite !bool_decide_eq_true_2; [done| |done]. left.
  - rewrite (bool_decide_eq_false_2 _ Hn), !fmap_cons, IH. cbn [fst].
    assert (bool_decide (id ∈ i :: acc.*1) = bool_decide (id ∈ acc.*1)) as ->.
    { apply bool_decide_ext. rewrite elem_of_cons. naive_solver. }
    by case_bool_decide.
Qed.

(** Where an entry of the new list comes from. *)
Lemma upsert_elem id b acc i x :
  (i, x) ∈ upsert id b acc → (i, x) ∈ acc ∨ (i = id ∧ x = b).
Proof.
  induction acc as [|[j y] acc IH]; cbn [upsert].
  - rewrite list_elem_of_singleton. naive_solver.
  - case_bool_decide as E; rewrite !elem_of_cons; [|naive_solver].
    destruct (_ <? _)%Z; naive_solver.
Qed.

Lemma upsert_new id b acc : ∃ b', (id, b') ∈ upsert id b acc ∧ (br_Version b <= br_Version b')%Z.
Proof.
  induction acc as [|[j y] acc (b' & Hb & Hv)]; cbn [upsert].
  - exists b. split; [left|lia].
  - case_bool_decide as E; [subst j|exists b'; split; [by right|done]].
    eexists. split; [left|]. destruct (Z.ltb_spec (br_Version y) (br_Version b)); lia.
Qed.

Lemma upsert_old id b acc i x :
  (i, x) ∈ acc → ∃ b', (i, b') ∈ upsert id b acc ∧ (br_Version x <= br_Version b')%Z.
Proof.
  induction acc as [|[j y] acc IH]; cbn [upsert]; [by intros ?%elem_of_nil|].
  intros [E|Hx]%elem_of_cons.
  - injection E as <- <-. case_bool_decide; [|exists x; split; [left|lia]].
    eexists. split; [left|]. destruct (Z.ltb_spec (br_Version x) (br_Version b)); lia.
  - case_bool_decide as E; [exists x; split; [by right|lia]|].
    destruct (IH Hx) as (b' & ? & ?). exists b'. split; [by right|done].
Qed.

Lemma dedup_step_ok bs acc b acc' :
  dedup_ok bs acc → dedup_step acc b = Ok acc' → dedup_ok (bs ++ [b]) acc'.
Proof.
  intros (ND & H1 & H2). unfold dedup_step. destruct (uuid_Parse (br_ID b)) as [u|] eqn:Eu; [|done].
  intros [= <-]. assert (row_id b = Some (uuid_String u)) as Eb by (unfold row_id; by rewrite Eu).
  repeat split.
  - rewrite upsert_keys. case_bool_decide; [done|]. apply NoDup_app. split_and!; [done| |apply NoDup_singleton].
    intros x Hx ->%list_elem_of_singleton. done.
  - apply upsert_elem in H as [H|[-> ->]]; rewrite elem_of_app, ?list_elem_of_singleton; naive_solver.
  - apply upsert_elem in H as [H|[-> ->]]; naive_solver.
  - intros x i [Hx| ->%list_elem_of_singleton]%elem_of_app Hi.
    + destruct (H2 x i Hx Hi) as (y & Hy & Hv). destruct (upsert_old (uuid_String u) b acc i y Hy) as (z & Hz & ?).
      exists z. split; [done|lia].
    + rewrite Eb in Hi. injection Hi as <-. apply upsert_new.
Qed.

Lemma dedup_fold_ok bs0 acc bs acc' :
  dedup_ok bs0 acc → fold_res dedup_step acc bs = Ok acc' → dedup_ok (bs0 ++ bs) acc'.
Proof.
  revert bs0 acc. induction bs as [|b bs IH]; intros bs0 acc Hok; simpl.
  - intros [= <-]. by rewrite app_nil_r.
  - destruct (dedup_step acc b) as [acc1|] eqn:E; [|done]. simpl. intros H.
    replace (bs0 ++ b :: bs) with ((bs0 ++ [b]) ++ bs) by by rewrite <- app_assoc.
    eapply IH; [|done]. by eapply dedup_step_ok.
Qed.

Lemma dedup_total bs acc :
  (∀ b, b ∈ bs → is_Some (uuid_Parse (br_ID b))) → ∃ acc', fold_res dedup_step acc bs = Ok acc'.
Proof.
  revert acc. induction bs as [|b bs IH]; intros acc Hp; simpl; [by eexists|].
  destruct (Hp b) as [u Hu]; [left|]. unfold dedup_step at 1. rewrite Hu. simpl.
  apply IH. intros x Hx. apply Hp. by right.
Qed.

Lemma elem_of_values id b u acc :
  (id, (b, u)) ∈ values_of acc ↔ (id, b) ∈ acc ∧ dparse (br_OverdraftUsed b) = Some u.
Proof.
  unfold values_of. rewrite list_elem_of_omap. split.
  - intros ([i x] & Hx & E). destruct (dparse (br_OverdraftUsed x)) eqn:Ed; [|done].
    simpl in E. by simplify_eq.
  - intros [Hb Hu]. exists (id, b). by rewrite Hu.
Qed.

Lemma find_value_Some id vs v : find_value id vs = Some v → (id, v) ∈ vs.
Proof.
  unfold find_value. destruct (List.find _ vs) as [[i x]|] eqn:F; [|done].
  apply find_some in F as [Hin E%bool_decide_eq_true]. simpl in *. intros [= <-]. subst i.
  by apply list_elem_of_In.
Qed.

Lemma find_value_total id vs v : (id, v) ∈ vs → is_Some (find_value id vs).
Proof.
  intros Hv. unfold find_value. destruct (List.find _ vs) as [[i x]|] eqn:F; [done|].
  apply list_elem_of_In in Hv. apply (find_none _ _ F) in Hv. simpl in Hv.
  by rewrite bool_decide_eq_true_2 in Hv.
Qed.

(** The row the statement writes for a balance. *)
Definition written (now : Time) (b : BalanceRedis) (used : dec) (row : Row) : Row :=
  mkRow (row_OrganizationID row) (row_LedgerID row) (br_Available b) (br_OnHold b) (br_Version b)
    used (row_deleted row) now.

Definition parses (b : BalanceRedis) : Prop :=
  is_Some (uuid_Parse (br_ID b)) ∧ is_Some (dparse (br_OverdraftUsed b)).

(** What one row becomes. *)
Definition row_outcome (now : Time) (o l : uuid) bs (id : string) (row row' : Row) : Prop :=
  (row' = row ∨ ∃ b used, b ∈ bs ∧ row_id b = Some id ∧ dparse (br_OverdraftUsed b) = Some used
                  ∧ row_matches o l row (br_Version b) = true ∧ row' = written now b used row)
  ∧ ∀ b, b ∈ bs → row_id b = Some id → row_matches o l row' (br_Version b) = false.

Lemma row_matches_mono o l row row' v v' :
  row_OrganizationID row' = row_OrganizationID row → row_LedgerID row' = row_LedgerID row →
  row_deleted row' = row_deleted row → (row_Version row <= row_Version row')%Z → (v <= v')%Z →
  row_matches o l row v' = false → row_matches o l row' v = false.
Proof.
  unfold row_matches. intros -> -> -> Hv Hv' H.
  destruct (bool_decide _); [|done]. destruct (bool_decide _); [|done].
  destruct (row_deleted row); [by rewrite !andb_false_r in *|]. simpl in *.
  rewrite !andb_true_r in *. apply Z.ltb_ge in H. apply Z.ltb_ge. lia.
Qed.

Lemma row_matches_written o l now b used row :
  row_matches o l (written now b used row) (br_Version b) = false.
Proof. unfold row_matches. simpl. by rewrite Z.ltb_irrefl, andb_false_r. Qed.

Lemma update_row_outcome now o l bs acc id row :
  dedup_ok bs acc → (∀ b, b ∈ bs → parses b) →
  row_outcome now o l bs id row (update_row_sql now o l (values_of acc) id row).
Proof.
  intros (ND & H1 & H2) Hp. unfold row_outcome, update_row_sql.
  destruct (find_value id (values_of acc)) as [[b used]|] eqn:F.
  - apply find_value_Some, elem_of_values in F as [Hin Hu]. destruct (H1 id b Hin) as [Hb Hid].
    assert (∀ x, x ∈ bs → row_id x = Some id → (br_Version x <= br_Version b)%Z) as Hmax.
    { intros x Hx Hxid. destruct (H2 x id Hx Hxid) as (y & Hy & Hv).
      by rewrite (NoDup_fst_inj acc id b y ND Hin Hy). }
    destruct (row_matches o l row (br_Version b)) eqn:M.
    + split; [right; by exists b, used|]. intros x Hx Hxid.
      eapply (row_matches_mono _ _ (written now b used row)); [done..|by apply Hmax|].
      apply row_matches_written.
    + split; [by left|]. intros x Hx Hxid.
      eapply (row_matches_mono _ _ row); [done..|by apply Hmax|done].
  - split; [by left|]. intros x Hx Hxid. exfalso. destruct (H2 x id Hx Hxid) as (y & Hy & _).
    destruct (H1 id y Hy) as [Hyb _]. destruct (Hp y Hyb) as [_ [u Hu]].
    destruct (find_value_total id (values_of acc) (y, u)) as [? E]; [|congruence].
    by apply elem_of_values.
Qed.

Lemma UpdateMany_rows now o l bs (db : gmap string Row) :
  (∀ b, b ∈ bs → parses b) →
  ∃ db' n, UpdateMany now o l bs db = Ok (db', n)
    ∧ dom db' = dom db
    ∧ ∀ id row, db !! id = Some row →
        ∃ row', db' !! id = Some row' ∧ row_outcome now o l bs id row row'.
Proof.
  intros Hp. destruct (dedup_total bs []) as [acc Hacc]; [intros b Hb; by apply Hp|].
  assert (dedup_ok bs acc) as Hok.
  { apply (dedup_fold_ok [] [] bs acc); [|done].
    split_and!; [constructor|by intros ?? ?%elem_of_nil|by intros ?? ?%elem_of_nil]. }
  unfold UpdateMany. rewrite Hacc. simpl. do 2 eexists. split; [done|]. split.
  - apply set_eq. intros id. rewrite !elem_of_dom, map_lookup_imap.
    destruct (db !! id); simpl; split; intros [??]; done.
  - intros id row Hrow. rewrite map_lookup_imap, Hrow. simpl. eexists. split; [done|].
    by apply update_row_outcome.
Qed.

(** Writing a batch to the database keeps the newest version: when identifiers and
    overdraft amounts parse, the statement succeeds, touches only existing rows, each
    row is unchanged or takes the amounts of a balance of the batch that is newer than
    it, and afterwards no balance of the batch is newer than its row. *)
Theorem update_many_newest_wins now o l bs (db : gmap string Row) :
  (∀ b, b ∈ bs → parses b) →
  ∃ db' n, UpdateMany now o l bs db = Ok (db', n)
    ∧ dom db' = dom db
    ∧ ∀ id row, db !! id = Some row →
        ∃ row', db' !! id = Some row' ∧ row_outcome now o l bs id row row'.
Proof. apply UpdateMany_rows. Qed.
End Update.

(** ** What a batch writes and removes *)

Section Batch.
Context {D : DecimalLib} {DT : DecimalText} {U : UuidLib} {P : UuidParse}.
Implicit Types (keys : list SyncKey) (bm : gmap string BalanceRedis).

Definition as_aggregated bm (key : string) : option AggregatedBalance :=
  b ← bm !! key;
  match sync_composite key b with Ok k => Some (mkAggregated key (Some b) k) | Err _ => None end.
Definition is_orphan bm (key : string) : bool :=
  match as_aggregated bm key with Some _ => false | None => true end.

Lemma prepare_fold sm bm l :
  let pr := fold_left (prepare_step sm bm) l (mkPrepared [] [] ∅) in
  pr_aggregated pr = omap (as_aggregated bm) l
  ∧ pr_orphaned pr = (λ k, (k, default 0%Z (sm !! k))) <$> List.filter (is_orphan bm) l
  ∧ ∀ s k, k ∈ default [] (pr_redisKeys pr !! s) → k ∈ l.
Proof.
  induction l as [|key l IH] using rev_ind; cbn zeta.
  { split_and!; [done|done|]. intros s k. simpl. by rewrite lookup_empty. }
  cbn zeta in IH. rewrite fold_left_app. cbn [fold_left].
  set (st := fold_left _ l _) in *. destruct IH as (Ea & Eo & Er).
  rewrite omap_app, List.filter_app, fmap_app, <- Ea, <- Eo. simpl.
  unfold prepare_step, is_orphan, as_aggregated.
  destruct (bm !! key) as [b|]; simpl; [destruct (sync_composite key b) as [c|] eqn:Ec; simpl|].
  2,3: rewrite app_nil_r; split_and!; [done..|]; intros s k Hk; apply elem_of_app; left; by eapply Er.
  rewrite app_nil_r. split_and!; [done..|]. intros s k.
  destruct (decide (CompositeKey_String c = s)) as [<-|Es];
    [rewrite lookup_insert_eq|rewrite lookup_insert_ne by done]; simpl.
  - intros [Hk|Hk]%elem_of_app; apply elem_of_app; [left; by eapply Er|by right].
  - intros Hk. apply elem_of_app. left. by eapply Er.
Qed.

Lemma scoreMap_lookup keys k s : scoreMap_of keys !! k = Some s → (k, s) ∈ keys.
Proof.
  unfold scoreMap_of. induction keys as [|[k' s'] keys IH] using rev_ind; [done|].
  rewrite fold_left_app. simpl. rewrite elem_of_app, list_elem_of_singleton.
  destruct (decide (k' = k)) as [->|]; [rewrite lookup_insert_eq|rewrite lookup_insert_ne by done].
  - intros [= ->]. by right.
  - auto.
Qed.

Lemma scoreMap_total keys k : k ∈ keys.*1 → is_Some (scoreMap_of keys !! k).
Proof.
  unfold scoreMap_of. induction keys as [|[k' s'] keys IH] using rev_ind; [by intros ?%elem_of_nil|].
  rewrite fold_left_app, fmap_app, elem_of_app. simpl. rewrite list_elem_of_singleton.
  destruct (decide (k' = k)) as [->|]; [by rewrite lookup_insert_eq|rewrite lookup_insert_ne by done].
  naive_solver.
Qed.

(** A key is removed with a score it was claimed with. *)
Lemma claimed_score keys k : k ∈ keys.*1 → (k, default 0%Z (scoreMap_of keys !! k)) ∈ keys.
Proof. intros Hk. destruct (scoreMap_total keys k Hk) as [s Hs]. rewrite Hs. by apply scoreMap_lookup. Qed.

Lemma batch_orphans_spec keys bm k s :
  (k, s) ∈ batch_orphans keys bm → (k, s) ∈ keys ∧ as_aggregated bm k = None.
Proof.
  unfold batch_orphans, sync_prepare.
  destruct (prepare_fold (scoreMap_of keys) bm keys.*1) as (_ & -> & _).
  intros (k' & [= -> ->] & [Hin Ho]%list_elem_of_In%filter_In)%list_elem_of_fmap.
  unfold is_orphan in Ho. destruct (as_aggregated bm k') eqn:E; [done|].
  split; [|done]. apply claimed_score. by apply list_elem_of_In.
Qed.

Lemma batch_keys_spec keys bm k s : (k, s) ∈ batch_keys keys bm → (k, s) ∈ keys.
Proof.
  unfold batch_keys, keysToRemove. intros [Ho|Hr]%elem_of_app.
  - by apply batch_orphans_spec in Ho as [? _].
  - apply list_elem_of_In, in_flat_map in Hr as (ab & _ & Hr).
    apply in_map_iff in Hr as (k' & [= <- <-] & Hk').
    apply claimed_score. unfold sync_prepare in Hk'.
    destruct (prepare_fold (scoreMap_of keys) bm keys.*1) as (_ & _ & Er).
    eapply Er. by apply list_elem_of_In.
Qed.

Lemma filed_as_aggregated bm k ab : as_aggregated bm k = Some ab → filed ab = Some ab.
Proof.
  unfold as_aggregated. destruct (bm !! k) as [b|]; simpl; [|done].
  unfold sync_composite. destruct (BalanceCompositeKeyFromRedisKey k) as [c|]; simpl; [|done].
  match goal with |- context [mkAggregated _ _ ?x] => set (c' := x) end.
  assert (ck_AssetCode c' = br_AssetCode b) as Ha.
  { subst c'. match goal with |- context [if ?x then _ else _] => destruct x end; done. }
  clearbody c'. intros [= <-]. unfold filed, with_asset. simpl. rewrite Ha. by destruct (bool_decide _).
Qed.

Lemma filed_batch bm (l : list string) :
  omap filed (omap (as_aggregated bm) l) = omap (as_aggregated bm) l.
Proof.
  induction l as [|k l IH]; [done|]. simpl. destruct (as_aggregated bm k) as [ab|] eqn:E; [|done].
  simpl. rewrite (filed_as_aggregated bm k) by done. f_equal. apply IH.
Qed.

(** The balances written come from the batch, *)
Lemma batch_balances_from keys bm b :
  b ∈ batch_balances keys bm →
  ∃ k c, k ∈ keys.*1 ∧ bm !! k = Some b ∧ sync_composite k b = Ok c.
Proof.
  unfold batch_balances, sync_prepare.
  destruct (prepare_fold (scoreMap_of keys) bm keys.*1) as (-> & _ & _).
  intros (ab & Hab & Eb)%list_elem_of_omap. apply elem_of_Aggregate in Hab.
  destruct (group_fold_ok (omap (as_aggregated bm) keys.*1)) as [H1 _].
  destruct (H1 _ _ Hab) as [_ Hin]. rewrite filed_batch in Hin.
  apply list_elem_of_omap in Hin as (k & Hk & E). unfold as_aggregated in E.
  destruct (bm !! k) as [b'|] eqn:Eb'; simpl in E; [|done].
  destruct (sync_composite k b') as [c|] eqn:Ec; [|done]. injection E as <-.
  injection Eb as ->. by exists k, c.
Qed.

(** and every balance of the batch is represented by one that is not older. *)
Lemma batch_balances_cover keys bm k b c :
  k ∈ keys.*1 → bm !! k = Some b → sync_composite k b = Ok c →
  ∃ k' b' c', b' ∈ batch_balances keys bm ∧ bm !! k' = Some b' ∧ sync_composite k' b' = Ok c'
    ∧ CompositeKey_String c' = CompositeKey_String c ∧ (br_Version b <= br_Version b')%Z.
Proof.
  intros Hk Hb Hc.
  assert (as_aggregated bm k = Some (mkAggregated k (Some b) c)) as Ea
    by (unfold as_aggregated; rewrite Hb; simpl; by rewrite Hc).
  destruct (group_fold_ok (omap (as_aggregated bm) keys.*1)) as [H1 H2].
  destruct (H2 (mkAggregated k (Some b) c)) as (ab & Hab & Hv).
  { rewrite filed_batch. apply list_elem_of_omap. by exists k. }
  destruct (H1 _ _ Hab) as [Ek Hin]. rewrite filed_batch in Hin.
  apply list_elem_of_omap in Hin as (k' & Hk' & E). unfold as_aggregated in E.
  destruct (bm !! k') as [b'|] eqn:Eb'; simpl in E; [|done].
  destruct (sync_composite k' b') as [c'|] eqn:Ec'; [|done]. injection E as <-.
  exists k', b', c'. split_and!; [|done..|by symmetry|done].
  unfold batch_balances, sync_prepare.
  destruct (prepare_fold (scoreMap_of keys) bm keys.*1) as (-> & _ & _).
  apply list_elem_of_omap. exists (mkAggregated k' (Some b') c'). split; [|reflexivity].
  apply elem_of_Aggregate. by rewrite <- Ek.
Qed.

(** ** The schedule *)

Lemma remove_batch_lookup ks sch locks k s :
  (remove_batch ks sch locks).1.1 !! k = Some s ↔ sch !! k = Some s ∧ (k, s) ∉ ks.
Proof.
  unfold remove_batch. generalize 0%Z. revert sch locks.
  induction ks as [|[m c] ks IH]; intros sch locks n; simpl.
  { split; [intros H; split; [done|apply not_elem_of_nil]|by intros [? _]]. }
  rewrite elem_of_cons. destruct (sch !! m) as [cur|] eqn:E.
  - destruct (Z.eqb_spec cur c) as [->|Hn]; simpl; rewrite IH.
    + rewrite lookup_delete_Some. split; [naive_solver|].
      intros [Hs Hno]. split_and!; [|done|naive_solver]. intros ->. naive_solver.
    + split; [|naive_solver]. intros [Hs Hno]. split; [done|]. intros [[= -> ->]|?]; [|done].
      congruence.
  - simpl. rewrite IH. split; [|naive_solver]. intros [Hs Hno]. split; [done|].
    intros [[= -> ->]|?]; [|done]. congruence.
Qed.

Lemma claim_loop_sub locks due locks' claimed :
  claim_loop locks due = (locks', claimed) → claimed ⊆ due.
Proof.
  revert locks locks' claimed. induction due as [|[m s] due IH]; intros locks locks' claimed; simpl.
  - intros [= <- <-]. done.
  - case_bool_decide.
    + intros Hs%IH. set_solver.
    + destruct (claim_loop _ due) as [locks1 cl] eqn:E. intros [= <- <-]. apply IH in E. set_solver.
Qed.

Lemma claim_keys_scheduled now limit sch locks locks' claimed k s :
  claim_keys now limit sch locks = (locks', claimed) → (k, s) ∈ claimed → sch !! k = Some s.
Proof.
  intros Hc Hin. apply claim_loop_sub in Hc. apply Hc in Hin.
  apply subseteq_take, list_elem_of_In in Hin. apply elem_of_map_to_list.
  rewrite <- list_elem_of_In, merge_sort_Permutation, list_elem_of_In in Hin.
  apply filter_In in Hin as [Hin _]. by apply list_elem_of_In.
Qed.
End Batch.

(** ** The state machine *)

Section Machine.
Context {D : DecimalLib} {DT : DecimalText} {U : UuidLib} {P : UuidParse} {UL : UuidLaws}.

(** A batch in progress: its organization and ledger, the claimed keys, the balances
    it read, and whether they are written. *)
Record Flight := mkFlight {
  fl_org : uuid; fl_ledger : uuid; fl_keys : list SyncKey;
  fl_balances : gmap string BalanceRedis; fl_written : bool }.

(** Redis (cache, schedule, claim locks, clock), the database, and the workers: the
    keys ever claimed and the batches in progress. *)
Record World := mkWorld {
  w_cache : gmap string BalanceRedis; w_schedule : gmap string Z; w_locks : gset string;
  w_clock : Z; w_db : gmap string Row; w_claimed : list SyncKey; w_flights : list Flight }.

(** The balance table has one row per composite key: [id_of] is its index.  A cached
    balance is well keyed when its ID is the one of its composite key and its
    overdraft amount parses. *)
Variable id_of : string → uuid.
Definition well_keyed (key : string) (b : BalanceRedis) : Prop :=
  is_Some (dparse (br_OverdraftUsed b))
  ∧ ∀ c, sync_composite key b = Ok c → uuid_Parse (br_ID b) = Some (id_of (CompositeKey_String c)).

(** MGET *)
Definition fetch (keys : list SyncKey) (cache : gmap string BalanceRedis) : gmap string BalanceRedis :=
  filter (λ kb, kb.1 ∈ keys.*1) cache.

Definition remove_world (w : World) (ks : list SyncKey) (flights : list Flight) : World :=
  let '(schedule, locks, _) := remove_batch ks (w_schedule w) (w_locks w) in
  mkWorld (w_cache w) schedule locks (w_clock w) (w_db w) (w_claimed w) flights.

Definition with_flights (w : World) (flights : list Flight) : World :=
  mkWorld (w_cache w) (w_schedule w) (w_locks w) (w_clock w) (w_db w) (w_claimed w) flights.

(** One step of the system.  A mutation is one run of the balance script: the new
    balance and its key scheduled at the time of the script.  (The script first seeds an
    absent entry with SET NX from the row the request read; the run then stores or restores
    the balance, so this is not a step of its own.)  A flush takes any list
    of keys claimed at any time, so the steps cover every number of workers, slow
    workers whose locks expired, repeated claims and duplicates. *)
Inductive sync_step (w : World) : World → Prop :=
  | step_mutate key b score :
      (w_clock w < score)%Z → well_keyed key b →
      sync_step w (mkWorld (<[key := b]> (w_cache w)) (<[key := score]> (w_schedule w)) (w_locks w)
                     score (w_db w) (w_claimed w) (w_flights w))
  | step_expire_balance key :
      sync_step w (mkWorld (delete key (w_cache w)) (w_schedule w) (w_locks w) (w_clock w) (w_db w)
                     (w_claimed w) (w_flights w))
  | step_expire_lock key :
      sync_step w (mkWorld (w_cache w) (w_schedule w) (w_locks w ∖ {[key]}) (w_clock w) (w_db w)
                     (w_claimed w) (w_flights w))
  | step_claim now limit locks claimed :
      claim_keys now limit (w_schedule w) (w_locks w) = (locks, claimed) →
      sync_step w (mkWorld (w_cache w) (w_schedule w) locks (w_clock w) (w_db w)
                     (w_claimed w ++ claimed) (w_flights w))
  | step_poison keys :
      keys ⊆ w_claimed w →
      sync_step w (remove_world w (groupKeysByOrgLedger keys).2 (w_flights w))
  | step_fetch keys o l ks :
      keys ⊆ w_claimed w → (o, l, ks) ∈ (groupKeysByOrgLedger keys).1 →
      sync_step w (with_flights w (mkFlight o l ks (fetch ks (w_cache w)) false :: w_flights w))
  | step_write f1 o l ks bm f2 now db n :
      w_flights w = f1 ++ mkFlight o l ks bm false :: f2 →
      UpdateMany now o l (batch_balances ks bm) (w_db w) = Ok (db, n) →
      sync_step w (mkWorld (w_cache w) (w_schedule w) (w_locks w) (w_clock w) db (w_claimed w)
                     (f1 ++ mkFlight o l ks bm true :: f2))
  | step_write_failed f1 f f2 :
      w_flights w = f1 ++ f :: f2 →
      sync_step w (remove_world w (batch_orphans (fl_keys f) (fl_balances f)) (f1 ++ f2))
  | step_remove f1 f f2 :
      w_flights w = f1 ++ f :: f2 → fl_written f = true →
      sync_step w (remove_world w (batch_keys (fl_keys f) (fl_balances f)) (f1 ++ f2))
  | step_crash f1 f f2 :
      w_flights w = f1 ++ f :: f2 → sync_step w (with_flights w (f1 ++ f2)).

(** A cached balance is ahead of the database when the row with its ID, in the
    organization and ledger of its key, has a lower version.  The key is read as the
    workers read it; a key they cannot read has no row and is removed as poison. *)
Definition ahead (key : string) (b : BalanceRedis) (db : gmap string Row) : Prop :=
  ∃ o l id row, extractIDsFromMember key = Some (o, l) ∧ row_id b = Some id
    ∧ db !! id = Some row ∧ row_matches o l row (br_Version b) = true.

Definition scheduled (w : World) : Prop :=
  ∀ key b, w_cache w !! key = Some b → ahead key b (w_db w) → is_Some (w_schedule w !! key).

(** ** The invariant *)

Definition flight_ok (w : World) (f : Flight) : Prop :=
  fl_keys f ⊆ w_claimed w
  ∧ (∀ k, k ∈ (fl_keys f).*1 → extractIDsFromMember k = Some (fl_org f, fl_ledger f))
  ∧ (∀ k b, fl_balances f !! k = Some b → well_keyed k b)
  ∧ (∀ k s b, (k, s) ∈ fl_keys f → w_schedule w !! k = Some s → w_cache w !! k = Some b →
       fl_balances f !! k = Some b)
  ∧ (fl_written f = true →
       ∀ k b, k ∈ (fl_keys f).*1 → fl_balances f !! k = Some b → ¬ ahead k b (w_db w)).

Record inv (w : World) : Prop := {
  inv_cache k b : w_cache w !! k = Some b → well_keyed k b;
  inv_scores k s : w_schedule w !! k = Some s → (s <= w_clock w)%Z;
  inv_claimed k s : (k, s) ∈ w_claimed w → (s <= w_clock w)%Z;
  inv_flights f : f ∈ w_flights w → flight_ok w f;
  inv_scheduled : scheduled w }.

(** *** Groups *)

Lemma add_to_group_spec ids key groups o l ks :
  (o, l, ks) ∈ add_to_group ids key groups →
  (∃ ks', (o, l, ks') ∈ groups ∧ ks ⊆ ks') ∨
  ((o, l) = ids ∧ ∃ ks', ((o, l, ks') ∈ groups ∨ ks' = []) ∧ ks ⊆ key :: ks').
Proof.
  induction groups as [|[ids' keys] groups IH]; cbn [add_to_group].
  - rewrite list_elem_of_singleton. intros [= -> ->]. right. split; [by destruct ids|].
    exists []. split; [by right|done].
  - case_bool_decide as E.
    + intros [[= <- ->]|Hin]%elem_of_cons.
      * right. destruct ids as [o1 l1]. destruct E as [E1 E2].
        apply uuid_inj in E1, E2. simpl in *. subst. split; [done|].
        exists keys. split; [left; left|]. set_solver.
      * left. exists ks. split; [by right|done].
    + intros [[= <- ->]|Hin]%elem_of_cons; [left; exists keys; split; [left|done]|].
      destruct (IH Hin) as [(ks' & ? & ?)|(? & ks' & [?| ->] & ?)].
      * left. exists ks'. split; [by right|done].
      * right. split; [done|]. exists ks'. split; [left; by right|done].
      * right. split; [done|]. exists []. split; [by right|done].
Qed.

Lemma groupKeys_spec keys :
  (∀ o l ks, (o, l, ks) ∈ (groupKeysByOrgLedger keys).1 →
     ks ⊆ keys ∧ ∀ k, k ∈ ks.*1 → extractIDsFromMember k = Some (o, l))
  ∧ (∀ k s, (k, s) ∈ (groupKeysByOrgLedger keys).2 → (k, s) ∈ keys ∧ extractIDsFromMember k = None).
Proof.
  unfold groupKeysByOrgLedger. induction keys as [|key keys IH] using rev_ind.
  { split; [by intros ??? ?%elem_of_nil|by intros ?? ?%elem_of_nil]. }
  rewrite fold_left_app. simpl. set (st := fold_left _ _ _) in *. destruct IH as [IH1 IH2].
  unfold group_key. destruct (extractIDsFromMember key.1) as [ids|] eqn:E; simpl.
  - split; [|intros k s Hk; destruct (IH2 k s Hk); set_solver].
    intros o l ks [(ks' & Hg & Hs)|(<- & ks' & Hg & Hs)]%add_to_group_spec.
    + destruct (IH1 _ _ _ Hg) as [Hk He]. split; [set_solver|].
      intros k (x & -> & Hx)%list_elem_of_fmap. apply He, list_elem_of_fmap. exists x. auto.
    + assert (ks' ⊆ keys ∧ ∀ k, k ∈ ks'.*1 → extractIDsFromMember k = Some (o, l)) as [Hk He].
      { destruct Hg as [Hg| ->]; [by apply IH1|]. split; [set_solver|by intros k ?%elem_of_nil]. }
      split; [set_solver|]. intros k (x & -> & Hx)%list_elem_of_fmap.
      apply Hs, elem_of_cons in Hx as [->|Hx]; [done|]. apply He, list_elem_of_fmap. by exists x.
  - split; [intros o l ks Hg; destruct (IH1 o l ks Hg); set_solver|].
    intros k s [Hk|Hk]%elem_of_app; [destruct (IH2 k s Hk); set_solver|].
    apply list_elem_of_singleton in Hk. subst key. split; [set_solver|done].
Qed.

(** *** The database only catches up *)

Lemma composite_of_ids key b ids :
  extractIDsFromMember key = Some ids → ∃ c, sync_composite key b = Ok c.
Proof.
  rewrite composite_ids. unfold sync_composite.
  destruct (BalanceCompositeKeyFromRedisKey key); [|done]. intros _. by eexists.
Qed.

Lemma flight_parses w f b :
  flight_ok w f → b ∈ batch_balances (fl_keys f) (fl_balances f) → parses b.
Proof.
  intros (_ & _ & Hw & _) (k & c & _ & Hb & Hc)%batch_balances_from.
  destruct (Hw k b Hb) as [Hu Hid]. split; [|done]. by rewrite (Hid c Hc).
Qed.

Lemma row_outcome_keeps now o l bs id row row' o' l' v :
  row_outcome now o l bs id row row' → row_matches o' l' row' v = true → row_matches o' l' row v = true.
Proof.
  intros [[->|(b & used & _ & _ & _ & M & ->)] _] Hm; [done|].
  destruct (row_matches o' l' row v) eqn:E; [done|].
  rewrite (row_matches_mono o' l' row (written now b used row) v v) in Hm; try done.
  unfold row_matches in M. simpl. apply andb_prop in M as [[_ M%Z.ltb_lt]%andb_prop _]. lia.
Qed.

Lemma ahead_antitone now o l bs db db' n k b :
  (∀ b, b ∈ bs → parses b) → UpdateMany now o l bs db = Ok (db', n) →
  ahead k b db' → ahead k b db.
Proof.
  intros Hp E (o' & l' & id & row' & H1 & H2 & H3 & H4).
  destruct (UpdateMany_rows now o l bs db Hp) as (db1 & n1 & E1 & Hd & Hr). rewrite E in E1.
  injection E1 as <- <-. destruct (db !! id) as [row|] eqn:Er.
  - destruct (Hr id row Er) as (r & Hr1 & Hout). exists o', l', id, row. split_and!; try done.
    rewrite H3 in Hr1. injection Hr1 as <-. by eapply row_outcome_keeps.
  - apply not_elem_of_dom in Er. rewrite <- Hd in Er. by apply not_elem_of_dom_2 in Er || (apply not_elem_of_dom in Er; congruence).
Qed.

Lemma write_catches_up w f now db n k b :
  flight_ok w f →
  UpdateMany now (fl_org f) (fl_ledger f) (batch_balances (fl_keys f) (fl_balances f)) (w_db w) = Ok (db, n) →
  k ∈ (fl_keys f).*1 → fl_balances f !! k = Some b → ¬ ahead k b db.
Proof.
  intros Hf E Hk Hb (o & l & id & row' & H1 & H2 & H3 & H4).
  pose proof Hf as (_ & Hids & Hw & _). rewrite (Hids k Hk) in H1. injection H1 as <- <-.
  destruct (composite_of_ids k b _ (Hids k Hk)) as [c Hc].
  destruct (batch_balances_cover _ _ _ _ _ Hk Hb Hc) as (k' & b' & c' & Hin & Hb' & Hc' & Es & Hv).
  assert (row_id b' = Some id) as Hid'.
  { rewrite <- H2. unfold row_id. destruct (Hw k b Hb) as [_ ->%(λ f, f c Hc)].
    destruct (Hw k' b' Hb') as [_ ->%(λ f, f c' Hc')]. by rewrite Es. }
  destruct (UpdateMany_rows now (fl_org f) (fl_ledger f) _ (w_db w) (λ b, flight_parses w f b Hf))
    as (db1 & n1 & E1 & Hd & Hr). rewrite E in E1. injection E1 as <- <-.
  assert (is_Some (w_db w !! id)) as [row Hrow].
  { apply elem_of_dom. rewrite <- Hd. apply elem_of_dom. by eexists. }
  destruct (Hr id row Hrow) as (r & Hr1 & [_ Hout]). rewrite H3 in Hr1. injection Hr1 as <-.
  rewrite (row_matches_mono _ _ row' row' (br_Version b) (br_Version b')) in H4; try done. auto.
Qed.

(** *** The steps *)

Lemma flight_ok_frame w w' f :
  w_claimed w ⊆ w_claimed w' → w_cache w' = w_cache w →
  (∀ k s, w_schedule w' !! k = Some s → w_schedule w !! k = Some s) →
  (∀ k b, ahead k b (w_db w') → ahead k b (w_db w)) →
  flight_ok w f → flight_ok w' f.
Proof.
  intros Hc Hca Hs Ha (H1 & H2 & H3 & H4 & H5).
  split_and!; [by etrans|done|done| |].
  - intros k s b Hk Hks. rewrite Hca. eauto.
  - intros Hw k b Hk Hb Hah. eapply H5; eauto.
Qed.

Lemma remove_world_inv w ks flights :
  inv w → flights ⊆ w_flights w →
  (∀ k s b, (k, s) ∈ ks → w_schedule w !! k = Some s → w_cache w !! k = Some b → ¬ ahead k b (w_db w)) →
  inv (remove_world w ks flights).
Proof.
  intros [I0 I1 I2 I3 I4] Hf Hks. unfold remove_world.
  pose proof (remove_batch_lookup ks (w_schedule w) (w_locks w)) as R.
  destruct (remove_batch ks _ _) as [[sch locks] n]. simpl in R.
  split; simpl; [done| |done| |].
  - intros k s [Hs _]%R. by eapply I1.
  - intros f Hin. eapply (flight_ok_frame w); try done; [|auto]. simpl. by intros k s [? _]%R.
  - intros k b Hb Ha. simpl in *. destruct (I4 k b Hb Ha) as [s Hs]. exists s. apply R. split; [done|].
    intros Hin. by eapply Hks.
Qed.

Lemma mutate_inv w key b score :
  inv w → (w_clock w < score)%Z → well_keyed key b →
  inv (mkWorld (<[key := b]> (w_cache w)) (<[key := score]> (w_schedule w)) (w_locks w)
         score (w_db w) (w_claimed w) (w_flights w)).
Proof.
  intros [I0 I1 I2 I3 I4] Hc Hb. split; simpl.
  - intros k x. rewrite lookup_insert_Some. naive_solver.
  - intros k s. rewrite lookup_insert_Some. intros [[_ <-]|[_ Hs]]; [done|]. apply I1 in Hs. lia.
  - intros k s Hk. apply I2 in Hk. lia.
  - intros f Hf. destruct (I3 f Hf) as (H1 & H2 & H3 & H4 & H5). split_and!; try done. simpl.
    intros k s x Hk. rewrite !lookup_insert_Some. intros [[-> <-]|[Hn Hs]].
    + apply H1, I2 in Hk. lia.
    + intros [[? _]|[_ Hx]]; [done|]. by eapply H4.
  - intros k x. simpl. rewrite lookup_insert_Some. intros [[-> ->]|[Hn Hx]] Ha.
    + rewrite lookup_insert_eq. by eexists.
    + rewrite lookup_insert_ne by done. by eapply I4.
Qed.

Lemma write_inv w f1 o l ks bm f2 now db n :
  inv w → w_flights w = f1 ++ mkFlight o l ks bm false :: f2 →
  UpdateMany now o l (batch_balances ks bm) (w_db w) = Ok (db, n) →
  inv (mkWorld (w_cache w) (w_schedule w) (w_locks w) (w_clock w) db (w_claimed w)
         (f1 ++ mkFlight o l ks bm true :: f2)).
Proof.
  intros [I0 I1 I2 I3 I4] H HU.
  assert (flight_ok w (mkFlight o l ks bm false)) as Hf by (apply I3; rewrite H; set_solver).
  assert (∀ k b, ahead k b db → ahead k b (w_db w)) as Ha.
  { intros k b. eapply ahead_antitone; [|done]. intros x. by apply (flight_parses w _ x Hf). }
  assert (∀ f, f ∈ w_flights w → flight_ok (mkWorld (w_cache w) (w_schedule w) (w_locks w) (w_clock w) db
    (w_claimed w) (f1 ++ mkFlight o l ks bm true :: f2)) f) as Hfr.
  { intros f Hin. eapply (flight_ok_frame w); try done. by apply I3. }
  split; simpl; try done.
  + intros f [Hin|[->|Hin]%elem_of_cons]%elem_of_app; [apply Hfr; rewrite H; set_solver| |apply Hfr; rewrite H; set_solver].
    pose proof Hf as (H1 & H2 & H3 & H4 & _). split_and!; try done. simpl.
    intros _ k b. by eapply (write_catches_up w (mkFlight o l ks bm false)).
  + intros k b Hb Hah. eapply I4; [done|]. by apply Ha.
Qed.

Lemma step_inv w w' : inv w → sync_step w w' → inv w'.
Proof.
  intros I St. pose proof I as [I0 I1 I2 I3 I4]. destruct St.
  - by apply mutate_inv.
  - split; simpl; [|done|done| |].
    + intros k b [_ Hb]%lookup_delete_Some. by apply I0.
    + intros f Hf. destruct (I3 f Hf) as (H1 & H2 & H3 & H4 & H5). split_and!; try done. simpl.
      intros k s b Hk Hs [_ Hb]%lookup_delete_Some. by eapply H4.
    + intros k b Hb Ha. simpl in Hb. apply lookup_delete_Some in Hb as [_ Hb]. by eapply I4.
  - by split.
  - split; simpl; try done.
    + intros k s [Hk|Hk]%elem_of_app; [by eapply I2|]. eapply I1. by eapply claim_keys_scheduled.
    + intros f Hf. eapply (flight_ok_frame w); try done; [simpl; set_solver|by apply I3].
  - apply remove_world_inv; [done..|]. intros k s b [_ Hn]%(proj2 (groupKeys_spec keys)) _ _ (o & l & ? & ? & E & _).
    congruence.
  - destruct (proj1 (groupKeys_spec keys) _ _ _ H0) as [Hs He].
    split; simpl; try done. intros f [->|Hf]%elem_of_cons; [|by eapply (flight_ok_frame w), I3].
    split_and!; simpl; [by etrans|done| | |done].
    + intros k b [Hb _]%map_lookup_filter_Some. by apply I0.
    + intros k s b Hk Hsch Hb. apply map_lookup_filter_Some. split; [done|].
      apply list_elem_of_fmap. by exists (k, s).
  - by eapply write_inv.
  - assert (flight_ok w f) as (H1 & H2 & H3 & H4 & H5) by (apply I3; rewrite H; set_solver).
    apply remove_world_inv; [done|rewrite H; set_solver|].
    intros k s b [Hk Ho]%batch_orphans_spec Hs Hb Ha.
    destruct (composite_of_ids k b (fl_org f, fl_ledger f)) as [c Hc].
    { apply H2, list_elem_of_fmap. by exists (k, s). }
    unfold as_aggregated in Ho. rewrite (H4 k s b Hk Hs Hb) in Ho. simpl in Ho. by rewrite Hc in Ho.
  - assert (flight_ok w f) as (H1 & H2 & H3 & H4 & H5) by (apply I3; rewrite H; set_solver).
    apply remove_world_inv; [done|rewrite H; set_solver|].
    intros k s b Hk%batch_keys_spec Hs Hb. eapply H5; [done| |by eapply H4].
    apply list_elem_of_fmap. by exists (k, s).
  - split; simpl; try done. intros x Hx. eapply (flight_ok_frame w); try done. apply I3. rewrite H. set_solver.
Qed.

Lemma steps_inv w w' : inv w → rtc sync_step w w' → inv w'.
Proof. intros I. induction 1; eauto using step_inv. Qed.

(** Nothing is cached, scheduled or in progress. *)
Definition initial (w : World) : Prop :=
  w_cache w = ∅ ∧ w_schedule w = ∅ ∧ w_claimed w = [] ∧ w_flights w = [].

Lemma initial_inv w : initial w → inv w.
Proof.
  intros (E1 & E2 & E3 & E4).
  split; unfold scheduled; rewrite ?E1, ?E2, ?E3, ?E4.
  - intros k b. by rewrite lookup_empty.
  - intros k s. by rewrite lookup_empty.
  - by intros k s ?%elem_of_nil.
  - by intros f ?%elem_of_nil.
  - intros k b. by rewrite lookup_empty.
Qed.

(** C4: no balance is forgotten.  From a system with nothing cached, through any
    interleaving of mutations, expiries, claims, and batches of any number of workers
    that read, write, fail, remove or crash, every cached balance that is ahead of its
    row has its key on the schedule; so when the schedule is empty the rows have
    caught up with the cache. *)
Theorem sync_never_forgets w0 w :
  initial w0 → rtc sync_step w0 w →
  scheduled w
  ∧ (w_schedule w = ∅ → ∀ key b, w_cache w !! key = Some b → ¬ ahead key b (w_db w)).
Proof.
  intros I%initial_inv R. destruct (steps_inv w0 w I R) as [_ _ _ _ S]. split; [done|].
  intros E key b Hb Ha. destruct (S key b Hb Ha) as [s Hs]. by rewrite E, lookup_empty in Hs.
Qed.

Lemma orphans_or_log w f ks redis_ok sch locks n :
  ks = batch_orphans (fl_keys f) (fl_balances f) ∨
    (fl_written f = true ∧ ks = batch_keys (fl_keys f) (fl_balances f)) →
  remove_or_log redis_ok ks (w_schedule w) (w_locks w) = (sch, locks, n) →
  sync_step (with_flights w (f :: w_flights w))
    (mkWorld (w_cache w) sch locks (w_clock w) (w_db w) (w_claimed w) (w_flights w)).
Proof.
  intros Hks E. destruct redis_ok; simpl in E.
  - assert (mkWorld (w_cache w) sch locks (w_clock w) (w_db w) (w_claimed w) (w_flights w)
            = remove_world (with_flights w (f :: w_flights w)) ks ([] ++ w_flights w)) as ->
      by (unfold remove_world; simpl; by rewrite E).
    destruct Hks as [->|[Hw ->]]; [by apply step_write_failed|by apply step_remove].
  - injection E as <- <- <-. exact (step_crash (with_flights w (f :: w_flights w)) [] f (w_flights w) eq_refl).
Qed.

(** A call of [SyncBalancesBatch] on a group of claimed keys is a run of the state
    machine, whatever fails: the database, the removal, both or nothing. *)
Theorem sync_batch_is_a_run w now db_error redis_ok o l keys ks db sch locks res :
  keys ⊆ w_claimed w → (o, l, ks) ∈ (groupKeysByOrgLedger keys).1 →
  SyncBalancesBatch now (Ok (fetch ks (w_cache w))) db_error redis_ok o l ks
    (w_db w) (w_schedule w) (w_locks w) = (db, sch, locks, res) →
  rtc sync_step w (mkWorld (w_cache w) sch locks (w_clock w) db (w_claimed w) (w_flights w)).
Proof.
  intros Hk Hg E. unfold SyncBalancesBatch in E.
  destruct ks as [|k0 ks0] eqn:Eks; [injection E as <- <- <- <-; by destruct w|]. rewrite <- Eks in *.
  set (bm := fetch ks (w_cache w)) in *. set (f := mkFlight o l ks bm false).
  eapply rtc_l; [by apply (step_fetch w keys o l ks)|]. fold bm. fold f.
  assert (∀ ok sch locks n, remove_or_log ok (batch_orphans ks bm) (w_schedule w) (w_locks w) = (sch, locks, n) →
    rtc sync_step (with_flights w (f :: w_flights w))
      (mkWorld (w_cache w) sch locks (w_clock w) (w_db w) (w_claimed w) (w_flights w))) as Horphans.
  { intros. apply rtc_once. eapply (orphans_or_log w f); [by left|done]. }
  destruct (batch_balances ks bm) as [|b0 bs] eqn:Eb.
  { destruct (remove_or_log _ _ _ _) as [[sch1 locks1] n1] eqn:Er. injection E as <- <- <- <-.
    by eapply Horphans. }
  rewrite <- Eb in E.
  destruct db_error as [e|]; [|destruct (UpdateMany _ _ _ _ _) as [[db1 synced]|e] eqn:EU].
  1,3: destruct (remove_or_log _ (batch_orphans _ _) _ _) as [[sch1 locks1] n1] eqn:Er;
    injection E as <- <- <- <-; by eapply Horphans.
  destruct (remove_or_log _ (batch_keys _ _) _ _) as [[sch1 locks1] n1] eqn:Er.
  injection E as <- <- <- <-.
  eapply rtc_l; [by apply (step_write _ [] o l ks bm (w_flights w) now db1 synced)|]. apply rtc_once.
  eapply (orphans_or_log (mkWorld (w_cache w) (w_schedule w) (w_locks w) (w_clock w) db1 (w_claimed w)
    (w_flights w)) (mkFlight o l ks bm true)); [by right|done].
Qed.
End Machine.

(** ** A balance mutated while a batch is in progress *)

#[local] Existing Instances Fixed.lib FixedText.text FourIds.lib FourIds.parse.

Module SyncSample.
Definition key : string :=
  BalanceInternalKey (H := FourIds.lib) (false, true) (true, false) ("@alice" +:+ "#" +:+ "default").
Definition balance (available version : Z) : @BalanceRedis Fixed.lib :=
  mkBalanceRedis (FourIds.text (true, true)) "@alice" "default" "acc1" "USD" (fx available 0) (fx 0 0)
    version "deposit" 1 1 DirectionCredit "0" 0 0 "0" "transactional".
Definition row : @Row Fixed.lib FourIds.lib :=
  mkRow (U := FourIds.lib) (false, true) (true, false) (fx 100 0) (fx 0 0) 1 (fx 0 0) false 0.
Definition start : @World Fixed.lib FourIds.lib :=
  mkWorld ∅ ∅ ∅ 0 {[FourIds.text (true, true) := row]} [] [].
Definition id_of (s : string) : @uuid FourIds.lib := (true, true).
Definition newest (w : @World Fixed.lib FourIds.lib) : option Z := br_Version <$> w_cache w !! key.
Definition stored (w : @World Fixed.lib FourIds.lib) : option Z := row_Version <$> w_db w !! FourIds.text (true, true).

Lemma balance_keyed a v : well_keyed id_of key (balance a v).
Proof. split; [by eexists|]. intros c _. reflexivity. Qed.
End SyncSample.

(** The write of version 2 does not unschedule version 3. *)
Lemma sync_never_forgets_witness :
  ∃ w : @World Fixed.lib FourIds.lib, SyncSample.newest w = Some 3%Z ∧ SyncSample.stored w = Some 2%Z
    ∧ w_schedule w !! SyncSample.key = Some 20%Z ∧ scheduled w.
Proof.
  assert (∃ w, rtc (sync_step SyncSample.id_of) SyncSample.start w ∧ SyncSample.newest w = Some 3%Z
    ∧ SyncSample.stored w = Some 2%Z ∧ w_schedule w !! SyncSample.key = Some 20%Z) as (w & R & H1 & H2 & H3).
  { eexists. split_and!.
    - eapply rtc_l; [apply (step_mutate SyncSample.id_of _ SyncSample.key (SyncSample.balance 70 2) 10);
        [reflexivity|apply SyncSample.balance_keyed]|].
      eapply rtc_l; [by apply (step_claim SyncSample.id_of _ 15 50%nat {[SyncSample.key]} [(SyncSample.key, 10%Z)])|].
      eapply rtc_l; [apply (step_fetch SyncSample.id_of _ [(SyncSample.key, 10%Z)] (false, true) (true, false)
        [(SyncSample.key, 10%Z)]); [done|apply list_elem_of_In; by left]|].
      eapply rtc_l; [apply (step_mutate SyncSample.id_of _ SyncSample.key (SyncSample.balance 30 3) 20);
        [reflexivity|apply SyncSample.balance_keyed]|].
      eapply rtc_l; [eapply (step_write SyncSample.id_of _ [] _ _ _ _ _ 21%Z); reflexivity|].
      eapply rtc_l; [eapply (step_remove SyncSample.id_of _ []); reflexivity|]. apply rtc_refl.
    - vm_compute; reflexivity.
    - vm_compute; reflexivity.
    - vm_compute; reflexivity. }
  exists w. split_and!; [done..|].
  refine (proj1 (sync_never_forgets SyncSample.id_of SyncSample.start w _ R)). by repeat split.
Defined.

Lemma update_many_newest_wins_witness :
  let batch := [SyncSample.balance 70 2; SyncSample.balance 30 3] in
  let id := FourIds.text (true, true) in
  ∃ (db' : gmap string Row) row', db' !! id = Some row' ∧ row_Version row' = 3%Z
    ∧ row_outcome (U := FourIds.lib) 21%Z (false, true) (true, false) batch id SyncSample.row row'.
Proof.
  intros batch id.
  destruct (update_many_newest_wins (U := FourIds.lib) 21%Z (false, true) (true, false)
    batch (w_db SyncSample.start)) as (db' & n & E & Hd & Hr).
  { intros b [->|[->|[]%elem_of_nil]%elem_of_cons]%elem_of_cons; split; by eexists. }
  destruct (Hr id SyncSample.row eq_refl) as (row' & Hrow & Hout).
  exists db', row'. split_and!; [done| |done].
  assert (match UpdateMany (U := FourIds.lib) 21%Z (false, true) (true, false) batch (w_db SyncSample.start) with
          | Ok (d, _) => bool_decide (row_Version <$> d !! id = Some 3%Z) | Err _ => false end = true) as Hv
    by (vm_compute; reflexivity).
  rewrite E in Hv. apply bool_decide_eq_true in Hv. rewrite Hrow in Hv. by injection Hv.
Defined.

(** The database fails: the batch is a run that keeps the key scheduled. *)
Lemma sync_batch_is_a_run_witness :
  let w := mkWorld {[SyncSample.key := SyncSample.balance 70 2]} {[SyncSample.key := 10%Z]} ∅ 10
             (w_db SyncSample.start) [(SyncSample.key, 10%Z)] [] in
  rtc (sync_step SyncSample.id_of) w
    (mkWorld (w_cache w) {[SyncSample.key := 10%Z]} ∅ 10 (w_db w) (w_claimed w) []).
Proof.
  intros w.
  refine (sync_batch_is_a_run SyncSample.id_of w 21%Z (Some "connection refused") true
    (false, true) (true, false) [(SyncSample.key, 10%Z)] [(SyncSample.key, 10%Z)] _ _ _
    (Err "connection refused") _ _ _); [done|apply list_elem_of_In; by left|].
  reflexivity.
Defined.
