(* ===== verification/FeeEngine.v ===== *)
(** * The fee engine (components/ledger/pkg/fee, services/fees/calculate-fee.go)

    A fee package is chosen by route, segment and amount ([FindPackageToCalculateFee]).
    Each of its fees is computed (flat, percentage, or the larger), then distributed
    over the paying accounts in proportion to their amounts: a non-deductible fee adds
    a debit leg per source and a credit leg to the fee account, a deductible fee is
    carved out of the destinations.  What rounding leaves over goes to the largest
    account.  Legs live in the From and To maps of the validated response under keys
    built from the account, the fee's index and its route ("@a->fee0->route").

    Go ranges over maps in an unspecified order; [range] is that order, one per fee
    and loop.  The account resolver (a database read) is a parameter; its cache only
    saves calls and is left out. *)

From Stdlib Require Import Ascii QArith Lqa.
From stdpp Require Import base gmap strings list numbers sorting.
From S2P Require Import Prelude Decimals GoStrings Transaction BalanceOps SendValidation LuaDecimal.
From S2P Require Import CacheKeys MBalance.

Local Open Scope string_scope.
Local Open Scope list_scope.

(** ** Keys with arrows *)

Definition arrow : string := "->".

(** The text before the first [p], [s[:strings.Index(s, p)]]. *)
Fixpoint before_sub (p s : string) : option string :=
  if strings_HasPrefix p s then Some ""
  else match s with EmptyString => None | String a s' => String a <$> before_sub p s' end.

Definition trimFeeSuffix (s : string) : string := default s (before_sub arrow s).

(** [strings.Split(s, "->")] *)
Fixpoint split_arrow (s : string) : string * list string :=
  match s with
  | EmptyString => ("", [])
  | String a s' =>
      match s' with
      | String b s'' =>
          if bool_decide (a = "-"%char) && bool_decide (b = ">"%char)
          then let '(w, ws) := split_arrow s'' in ("", w :: ws)
          else let '(w, ws) := split_arrow s' in (String a w, ws)
      | EmptyString => (String a "", [])
      end
  end.
Definition Split_arrow (s : string) : list string := let '(w, ws) := split_arrow s in w :: ws.

(** ** Data *)

Record Calculation := mkCalculation { calc_Type : string; calc_Value : string }.
Record CalculationModel := mkCalculationModel {
  cm_ApplicationRule : string; cm_Calculations : list Calculation }.

Record Fee := mkFee {
  fee_FeeLabel : string; fee_CalculationModel : CalculationModel; fee_ReferenceAmount : string;
  fee_Priority : Z; fee_IsDeductibleFrom : option bool; fee_CreditAccount : string;
  fee_RouteFrom : option string; fee_RouteTo : option string }.

Definition GetIsDeductibleFrom (f : Fee) : bool := default false (fee_IsDeductibleFrom f).
Definition GetRouteFrom (f : Fee) : string := default "" (fee_RouteFrom f).
Definition GetRouteTo (f : Fee) : string := default "" (fee_RouteTo f).

Inductive FeeError :=
  | ErrApplicationRule
  | ErrCalculationRequired
  | ErrDeductibleFeeExceedsAmount
  | ErrMissingSegmentContext
  | ErrFilterPackage
  | ErrValidateDistributeTransactionValue
  | FeeRawError (msg : string).

Section Engine.
Context {D : DecimalLib} {DT : DecimalText} {U : UuidLib} {P : UuidParse}.

(** [pack.Package]; the fees in the order Go ranges over their map. *)
Record Package := mkPackage {
  pk_ID : uuid; pk_FeeGroupLabel : string; pk_Description : option string;
  pk_SegmentID : option uuid; pk_LedgerID : uuid;
  pk_TransactionRoute : option string; pk_MinimumAmount : dec; pk_MaximumAmount : dec;
  pk_WaivedAccounts : option (list string); pk_Fees : list Fee; pk_Enable : option bool;
  pk_CreatedAt : Time; pk_UpdatedAt : Time; pk_DeletedAt : option Time }.

(** [MidazResolver.GetAccountByAlias]: the segment of the account, if there is one. *)
Definition Resolver : Type := string → result string (option (option uuid)).

(** ** Selection of a package (filter.go) *)

Definition uuid_eqb (u v : uuid) : bool := bool_decide (uuid_String u = uuid_String v).

Definition matches_route (route : string) (p : Package) : bool :=
  match pk_TransactionRoute p with
  | None => bool_decide (route = "")
  | Some r => bool_decide (r = route)
  end.
Definition filterByTransactionRoute (packages : list Package) (route : string) : list Package :=
  List.filter (matches_route route) packages.

Definition matches_segment (segmentID : option uuid) (p : Package) : bool :=
  match segmentID, pk_SegmentID p with
  | None, None => true
  | Some s, Some s' => uuid_eqb s s'
  | _, _ => false
  end.
Definition filterBySegmentID (packages : list Package) (segmentID : option uuid) : list Package :=
  List.filter (matches_segment segmentID) packages.

Definition isTransactionValueBetweenMaxAndMinAmountPackage (p : Package) (amount : dec) : bool :=
  dge amount (pk_MinimumAmount p) && dle amount (pk_MaximumAmount p).
Definition filterByAmount (packages : list Package) (amount : dec) : list Package :=
  List.filter (λ p, isTransactionValueBetweenMaxAndMinAmountPackage p amount) packages.

(** The filters after the one by route. *)
Definition select_package (byRoute : list Package) (segmentID : option uuid) (amount : dec)
  : result FeeError (option Package) :=
  match filterBySegmentID byRoute segmentID with
  | [p] => Ok (Some p)
  | bySegment =>
      match filterByAmount bySegment amount with
      | [p] => Ok (Some p)
      | [] => Ok None
      | _ => Err ErrFilterPackage
      end
  end.

Definition FindPackageToCalculateFee (packages : list Package) (transactionRoute : string)
    (segmentID : option uuid) (amount : dec) : result FeeError (option Package) :=
  match filterByTransactionRoute packages transactionRoute with
  | [p] => match pk_SegmentID p with
           | None => Ok (Some p)
           | Some _ => select_package [p] segmentID amount
           end
  | byRoute => select_package byRoute segmentID amount
  end.

(** ** The amount of a fee (calculate-fee.go) *)

Definition plain_amount (asset : string) (value : dec) : Amount :=
  mkAmount asset value (OpOther "") (StatusOther "") DirectionEmpty false dzero.

Definition selectReferenceAmount (fee : Fee) (currentValue originalValue : dec) : dec :=
  if bool_decide (fee_ReferenceAmount fee = "afterFeesAmount") then currentValue else originalValue.

Definition findPercentualOfValue (feeValue transactionValue : dec) (feeAsset : string) : Amount :=
  plain_amount feeAsset (transactionValue * (feeValue / dnew 100))%dec.

Definition max_step (valueToCalculate : dec) (feeAsset : string) (acc : dec * Amount) (calc : Calculation)
  : result FeeError (dec * Amount) :=
  let '(maxValue, maxAmount) := acc in
  let! resultAmount :=
    if bool_decide (calc_Type calc = "flat") then
      match dparse (calc_Value calc) with
      | Some v => Ok (plain_amount feeAsset v)
      | None => Err ErrApplicationRule
      end
    else if bool_decide (calc_Type calc = "percentage") then
      match dparse (calc_Value calc) with
      | Some v => Ok (findPercentualOfValue v valueToCalculate feeAsset)
      | None => Err ErrApplicationRule
      end
    else Err ErrApplicationRule in
  Ok (if dgt (amt_Value resultAmount) maxValue then (amt_Value resultAmount, resultAmount)
      else (maxValue, maxAmount)).

Definition calculateMaxBetweenTypesFee (fee : Fee) (valueToCalculate : dec) (feeAsset : string)
  : result FeeError Amount :=
  let! acc := fold_res (max_step valueToCalculate feeAsset) (dzero, zeroAmount)
                (cm_Calculations (fee_CalculationModel fee)) in
  Ok acc.2.

Definition calculateFlatFee (fee : Fee) (feeAsset : string) : result FeeError Amount :=
  match cm_Calculations (fee_CalculationModel fee) with
  | [] => Err ErrCalculationRequired
  | calc :: _ =>
      match dparse (calc_Value calc) with
      | Some v => Ok (plain_amount feeAsset v)
      | None => Err ErrApplicationRule
      end
  end.

Definition calculatePercentualFee (fee : Fee) (valueToCalculate : dec) (feeAsset : string)
  : result FeeError Amount :=
  match cm_Calculations (fee_CalculationModel fee) with
  | [] => Err ErrCalculationRequired
  | calc :: _ =>
      match dparse (calc_Value calc) with
      | Some v => Ok (findPercentualOfValue v valueToCalculate feeAsset)
      | None => Err ErrApplicationRule
      end
  end.

(** The switch over the application rule. *)
Definition fee_amount (fee : Fee) (valueToCalculate : dec) (feeAsset : string) : result FeeError Amount :=
  let rule := cm_ApplicationRule (fee_CalculationModel fee) in
  if bool_decide (rule = "maxBetweenTypes") then calculateMaxBetweenTypesFee fee valueToCalculate feeAsset
  else if bool_decide (rule = "flatFee") then calculateFlatFee fee feeAsset
  else if bool_decide (rule = "percentual") then calculatePercentualFee fee valueToCalculate feeAsset
  else Err ErrApplicationRule.

(** ** Exemptions (segment-resolution.go) *)

Definition segmentPrefix : string := "segment:".

Definition isSegmentReference (entry : string) : result FeeError (option uuid) :=
  match strings_TrimPrefix segmentPrefix entry with
  | None => Ok None
  | Some raw => match uuid_Parse raw with
                | Some id => Ok (Some id)
                | None => Err (FeeRawError entry)
                end
  end.

Definition resolve_step (acc : list string * list uuid) (entry : string)
  : result FeeError (list string * list uuid) :=
  let! segment := isSegmentReference entry in
  Ok (match segment with
      | Some id => (acc.1, acc.2 ++ [id])
      | None => (acc.1 ++ [entry], acc.2)
      end).
Definition resolveSegmentWaivedAccounts (waivedAccounts : list string)
  : result FeeError (list string * list uuid) := fold_res resolve_step ([], []) waivedAccounts.

Definition isAccountExempt (account : string) (exemptAccounts : list string) : bool :=
  existsb (λ e, bool_decide (account = e)) exemptAccounts.

Definition isAccountExemptWithSegments (account : string) (directAliases : list string)
    (segmentIDs : list uuid) (resolver : Resolver) : result FeeError bool :=
  if isAccountExempt account directAliases then Ok true
  else if strings_HasPrefix "@external/" account then Ok false
  else match resolver account with
       | Err e => Err (FeeRawError e)
       | Ok (Some (Some segment)) => Ok (existsb (uuid_eqb segment) segmentIDs)
       | Ok _ => Ok false
       end.

Definition isAccountExemptOrSegment (account : string) (exemptAccounts : list string)
    (segmentIDs : list uuid) (resolver : option Resolver) : result FeeError bool :=
  let account := trimFeeSuffix account in
  match segmentIDs, resolver with
  | [], _ => Ok (isAccountExempt account exemptAccounts)
  | _, None => Err ErrMissingSegmentContext
  | _, Some r => isAccountExemptWithSegments account exemptAccounts segmentIDs r
  end.

(** ** Distribution (distribute.go)

    [range feeIndex loop m] is the order in which a loop visits the map. *)
Context (range : nat → nat → gmap string Amount → list (string * Amount)).

Section Distribute.
Context (segmentIDs : list uuid) (resolver : option Resolver).

Definition exempt_check (key : string) (exemptAccounts : list string) : result FeeError bool :=
  isAccountExemptOrSegment key exemptAccounts segmentIDs resolver.

(** The loop of [allAccountsExempt], with its early return. *)
Fixpoint all_exempt (exemptAccounts : list string) (l : list (string * Amount)) : result FeeError bool :=
  match l with
  | [] => Ok true
  | (key, _) :: l' =>
      let! exempt := exempt_check key exemptAccounts in
      if exempt then all_exempt exemptAccounts l' else Ok false
  end.
Definition allAccountsExempt (i loop : nat) (accounts : gmap string Amount) (exemptAccounts : list string)
  : result FeeError bool :=
  if (size accounts =? 0)%nat then Ok false else all_exempt exemptAccounts (range i loop accounts).

Definition max_account_step (exemptAccounts : list string) (acc : dec * string) (entry : string * Amount)
  : result FeeError (dec * string) :=
  let! exempt := exempt_check entry.1 exemptAccounts in
  Ok (if negb exempt && dge (amt_Value entry.2) acc.1 then (amt_Value entry.2, entry.1) else acc).
Definition findMaxAccount (i : nat) (amounts : gmap string Amount) (exemptAccounts : list string)
  : result FeeError string :=
  let! acc := fold_res (max_account_step exemptAccounts) (dzero, "") (range i 0 amounts) in
  Ok acc.2.

(** [feeCorrectionTarget]; [None] is [found = false]. *)
Record correction_target := mkTarget { tg_debitLegKey : string; tg_creditLegKey : string; tg_payerKey : string }.

Definition fee_source_key (fee : Fee) (i : nat) (key : string) : string :=
  fee_CreditAccount fee +:+ "->fee_source" +:+ strconv_Itoa i +:+ "->" +:+ key +:+ "->" +:+ GetRouteTo fee.
Definition debit_key (fee : Fee) (i : nat) (key : string) : string :=
  key +:+ "->fee" +:+ strconv_Itoa i +:+ "->" +:+ GetRouteFrom fee.

Definition set_value (v : dec) (a : Amount) : Amount :=
  mkAmount (amt_Asset a) v (amt_Operation a) (amt_TransactionType a) (amt_Direction a)
    (amt_RouteValidationEnabled a) (amt_OverdraftAmount a).

(** The variables of the loop of [calculateProportionalFees]. *)
Record dist_state := mkDist {
  ds_update : gmap string Amount;        (* updateAmount *)
  ds_to : gmap string Amount;            (* updateAmountToStruct; a nil map is empty *)
  ds_total : dec;                        (* newFeeTotalPaying *)
  ds_exempt : list string;               (* *exemptAccounts *)
  ds_target : option correction_target }.

(** [emitDeductibleLeg], with the reduced amount of the payer. *)
Definition emitDeductibleLeg (fee : Fee) (i : nat) (key : string) (amount resultAmount : Amount)
    (maxAccount : string) (st : dist_state) : dist_state * Amount :=
  let legKey := fee_source_key fee i key in
  (mkDist (<[legKey := resultAmount]> (ds_update st)) (ds_to st) (ds_total st)
     (ds_exempt st ++ [legKey])
     (if bool_decide (key = maxAccount) then Some (mkTarget legKey "" key) else ds_target st),
   set_value (amt_Value amount - amt_Value resultAmount)%dec amount).

Definition emitNonDeductibleLeg (fee : Fee) (i : nat) (key : string) (resultAmount : Amount)
    (maxAccount : string) (st : dist_state) : dist_state :=
  let debitLegKey := debit_key fee i key in
  let feeSourceKey := fee_source_key fee i key in
  mkDist (<[debitLegKey := resultAmount]> (ds_update st)) (<[feeSourceKey := resultAmount]> (ds_to st))
    (ds_total st) (ds_exempt st ++ [feeSourceKey; debitLegKey])
    (if bool_decide (key = maxAccount) then Some (mkTarget debitLegKey feeSourceKey "") else ds_target st).

Definition total_step (exemptAccounts : list string) (totalPaying : dec) (entry : string * Amount)
  : result FeeError dec :=
  let! exempt := exempt_check entry.1 exemptAccounts in
  Ok (if exempt then totalPaying else (totalPaying + amt_Value entry.2)%dec).

Definition leg_step (fee : Fee) (i : nat) (feeValue : Amount) (isToStruct : bool) (maxAccount : string)
    (totalPaying : dec) (st : dist_state) (entry : string * Amount) : result FeeError dist_state :=
  let '(key, amount) := entry in
  let! exempt := exempt_check key (ds_exempt st) in
  if exempt then
    Ok (mkDist (<[key := amount]> (ds_update st)) (ds_to st) (ds_total st) (ds_exempt st) (ds_target st))
  else
    let proportionalFeePercent := (amt_Value amount / totalPaying)%dec in
    let feeApplied := (amt_Value feeValue * proportionalFeePercent)%dec in
    let resultAmount := plain_amount (amt_Asset feeValue) feeApplied in
    let! emitted :=
      if isToStruct then
        if dge feeApplied (amt_Value amount) then Err ErrDeductibleFeeExceedsAmount
        else Ok (emitDeductibleLeg fee i key amount resultAmount maxAccount st)
      else Ok (emitNonDeductibleLeg fee i key resultAmount maxAccount st, amount) in
    let '(st, amount) := emitted in
    Ok (mkDist (<[key := amount]> (ds_update st)) (ds_to st) (ds_total st + feeApplied)%dec
          (ds_exempt st) (ds_target st)).

Definition calculateProportionalFees (fee : Fee) (i : nat) (amounts amountsToStruct : gmap string Amount)
    (feeValue : Amount) (exemptAccounts : list string) (isToStruct : bool) (maxAccount : string)
  : result FeeError dist_state :=
  let! totalPaying := fold_res (total_step exemptAccounts) dzero (range i 1 amounts) in
  if dis_zero totalPaying then Ok (mkDist amounts amountsToStruct dzero exemptAccounts None)
  else fold_res (leg_step fee i feeValue isToStruct maxAccount totalPaying)
         (mkDist ∅ amountsToStruct dzero exemptAccounts None) (range i 2 amounts).

Definition applyFeeCorrection (st : dist_state) (feeValue : Amount) (isToStruct : bool)
  : gmap string Amount * gmap string Amount :=
  match ds_target st with
  | None => (ds_update st, ds_to st)
  | Some target =>
      let delta := (amt_Value feeValue - ds_total st)%dec in
      if dis_zero delta then (ds_update st, ds_to st)
      else match ds_update st !! tg_debitLegKey target with
      | None => (ds_update st, ds_to st)
      | Some leg =>
          let update := <[tg_debitLegKey target := set_value (amt_Value leg + delta)%dec leg]> (ds_update st) in
          if isToStruct then
            (match update !! tg_payerKey target with
             | Some payer => <[tg_payerKey target := set_value (amt_Value payer - delta)%dec payer]> update
             | None => update
             end, ds_to st)
          else
            (update,
             match ds_to st !! tg_creditLegKey target with
             | Some credit =>
                 <[tg_creditLegKey target := set_value (amt_Value credit + delta)%dec credit]> (ds_to st)
             | None => ds_to st
             end)
      end
  end.

(** [applyProportionalFee]: the two maps and the exempt accounts. *)
Definition applyProportionalFee (fee : Fee) (i : nat) (amounts amountsToStruct : gmap string Amount)
    (feeValue : Amount) (exemptAccounts : list string) (isToStruct : bool)
  : result FeeError (gmap string Amount * gmap string Amount * list string) :=
  let! maxAccount := findMaxAccount i amounts exemptAccounts in
  let! st := calculateProportionalFees fee i amounts amountsToStruct feeValue exemptAccounts isToStruct
               maxAccount in
  Ok (applyFeeCorrection st feeValue isToStruct, ds_exempt st).

(** [setFeeExemptionMetadata] *)
Definition exemption_message (reason : string) : string :=
  if bool_decide (reason = "all_source_accounts_exempt") then "All source accounts are exempt from fees."
  else if bool_decide (reason = "all_destination_accounts_exempt")
  then "All destination accounts are exempt from fees."
  else if bool_decide (reason = "all_accounts_exempt")
  then "All accounts (source and destination) are exempt from fees."
  else "".
Definition assoc_string (k : string) (m : list (string * AnyValue)) : string :=
  match List.find (λ e, bool_decide (e.1 = k)) m with Some (_, AnyString s) => s | _ => "" end.
Definition setFeeExemptionMetadata (reason : string) (metadata : gmap string AnyValue) : gmap string AnyValue :=
  let reason :=
    match metadata !! "feeExemption" with
    | Some (AnyMap m) =>
        let existingReason := assoc_string "reason" m in
        if negb (bool_decide (existingReason = reason))
           && negb (bool_decide (existingReason = "all_accounts_exempt"))
        then "all_accounts_exempt" else existingReason
    | _ => reason
    end in
  <["feeExemption" := AnyMap [("exempt", AnyBool true); ("reason", AnyString reason);
                              ("message", AnyString (exemption_message reason))]]> metadata.

(** The transaction and the response the loop over the fees mutates. *)
Record fee_state := mkFeeState {
  fs_From : gmap string Amount; fs_To : gmap string Amount; fs_waived : list string;
  fs_Value : dec; fs_Metadata : gmap string AnyValue }.

(** All sources exempt: only the metadata changes. *)
Definition exempt_sources (i : nat) (fee : Fee) (st : fee_state) : result FeeError fee_state :=
  let metadata := setFeeExemptionMetadata "all_source_accounts_exempt" (fs_Metadata st) in
  let! allToExempt := allAccountsExempt i 4 (fs_To st) (fs_waived st) in
  let metadata := if allToExempt then setFeeExemptionMetadata "all_destination_accounts_exempt" metadata
                  else metadata in
  Ok (mkFeeState (fs_From st) (fs_To st) (fs_waived st ++ [fee_CreditAccount fee]) (fs_Value st) metadata).

Definition applyDeductibleAndReferenceAmountRules (i : nat) (fee : Fee) (feeValue : Amount) (st : fee_state)
  : result FeeError fee_state :=
  let! allFromExempt := allAccountsExempt i 3 (fs_From st) (fs_waived st) in
  if allFromExempt then exempt_sources i fee st
  else if negb (GetIsDeductibleFrom fee) then
    let! r := applyProportionalFee fee i (fs_From st) (fs_To st) feeValue (fs_waived st) false in
    let '(from, to, waived) := r in
    let value := if negb (size (fs_To st) =? size to)%nat
                 then (fs_Value st + amt_Value feeValue)%dec else fs_Value st in
    Ok (mkFeeState from to (waived ++ [fee_CreditAccount fee]) value (fs_Metadata st))
  else
    let! r := applyProportionalFee fee i (fs_To st) ∅ feeValue (fs_waived st) true in
    let '(to, _, waived) := r in
    let! allToExempt := allAccountsExempt i 5 to waived in
    let metadata := if allToExempt
                    then setFeeExemptionMetadata "all_destination_accounts_exempt" (fs_Metadata st)
                    else fs_Metadata st in
    Ok (mkFeeState (fs_From st) to (waived ++ [fee_CreditAccount fee]) (fs_Value st) metadata).
End Distribute.

(** [processAccount] *)
Definition processAccount (account : string) : string * gmap string AnyValue :=
  match Split_arrow account with
  | part0 :: part1 :: part2 :: _ =>
      if strings_Contains part1 "fee_source" then (part0, {["source" := AnyString part2]})
      else (account, ∅)
  | _ => (account, ∅)
  end.

(** One iteration of [updatedAmountsFromFee]. *)
Definition entry_of_leg (leg : string * Amount) : FromTo :=
  let '(account, amount) := leg in
  let parts := Split_arrow account in
  let '(cleanAccount, metadata) :=
    if strings_Contains account "->fee_source" then processAccount account
    else (trimFeeSuffix account, ∅) in
  let route := if (2 <? length parts)%nat then default "" (last parts) else "" in
  mkFromTo cleanAccount "" (Some (plain_amount (amt_Asset amount) (amt_Value amount))) None "" None "" ""
    metadata false route None.

Definition updatedAmountsFromFee (loop : nat) (amounts : gmap string Amount) : list FromTo :=
  map entry_of_leg (range 0 loop amounts).

Definition priority_le (x y : Fee) : Prop := (fee_Priority x <= fee_Priority y)%Z.
#[export] Instance priority_le_dec : RelDecision priority_le.
Proof. intros x y. unfold priority_le. apply _. Defined.

(** One iteration of the loop over the fees. *)
Definition fee_step (segmentIDs : list uuid) (resolver : option Resolver) (feeAsset : string)
    (originalValue : dec) (st : fee_state) (indexed : nat * Fee) : result FeeError fee_state :=
  let '(feeIndex, fee) := indexed in
  let! feeValue := fee_amount fee (selectReferenceAmount fee (fs_Value st) originalValue) feeAsset in
  applyDeductibleAndReferenceAmountRules segmentIDs resolver feeIndex fee feeValue st.

(** [CalculateFee]: the transaction with the fees and the sizes of the two maps. *)
Definition CalculateFee (tx : Transaction) (p : Package) (from to : gmap string Amount)
    (defaultCurrency : string) (resolver : option Resolver)
  : result FeeError (Transaction * nat * nat) :=
  let send := tx_Send tx in
  let defaultCurrency := if bool_decide (defaultCurrency = "") then "BRL" else defaultCurrency in
  let feeAsset := if bool_decide (send_Asset send = "") then defaultCurrency else send_Asset send in
  let fees := merge_sort priority_le (pk_Fees p) in
  let! waived := resolveSegmentWaivedAccounts (default [] (pk_WaivedAccounts p)) in
  let '(directAliases, segmentIDs) := waived in
  let! st := fold_res (fee_step segmentIDs resolver feeAsset (send_Value send))
               (mkFeeState from to directAliases (send_Value send) (tx_Metadata tx)) (imap pair fees) in
  Ok (mkTransaction (tx_ChartOfAccountsGroupName tx) (tx_Description tx) (tx_Code tx) (tx_Pending tx)
        (fs_Metadata st) (tx_Route tx) (tx_RouteID tx) (tx_TransactionDate tx)
        (mkSend (send_Asset send) (fs_Value st)
           (mkSource (src_Remaining (send_Source send)) (updatedAmountsFromFee 6 (fs_From st)))
           (mkDistribute (dst_Remaining (send_Distribute send)) (updatedAmountsFromFee 7 (fs_To st))))
        (tx_Skip tx) (tx_OperationTypeOverride tx),
      size (fs_From st), size (fs_To st)).

(** ** The use case (services/fees/calculate-fee.go) *)

Context {C : LibCommons}.

(** [resolveSourceSegment] on the decorated sources; a read failure yields [None]. *)
Fixpoint source_segment (resolver : Resolver) (resolved : option uuid) (sources : list string) : option uuid :=
  match sources with
  | [] => resolved
  | source :: sources' =>
      let alias := strings_TrimSpace source in
      let alias := default alias (before_sub "#" alias) in
      if bool_decide (alias = "") || strings_HasPrefix "@external/" alias
      then source_segment resolver resolved sources'
      else match resolver alias with
      | Ok (Some (Some segment)) =>
          match resolved with
          | None => source_segment resolver (Some segment) sources'
          | Some s => if uuid_eqb s segment then source_segment resolver resolved sources' else None
          end
      | _ => None
      end
  end.
Definition resolveSourceSegment (resolver : option Resolver) (sources : list string) : option uuid :=
  match resolver with None => None | Some r => source_segment r None sources end.

(** [updateFeeMetadataIfNeeded] *)
Definition updateFeeMetadataIfNeeded (packageID : uuid) (feeApplied : bool) (tx : Transaction) : Transaction :=
  let metadata := tx_Metadata tx in
  let hasExemption := bool_decide (is_Some (metadata !! "feeExemption")) in
  let metadata :=
    if feeApplied || hasExemption then
      let metadata := <["packageAppliedID" := AnyString (uuid_String packageID)]> metadata in
      if feeApplied then <["feeApplied" := AnyString "true"]> metadata else metadata
    else metadata in
  mkTransaction (tx_ChartOfAccountsGroupName tx) (tx_Description tx) (tx_Code tx) (tx_Pending tx)
    metadata (tx_Route tx) (tx_RouteID tx) (tx_TransactionDate tx) (tx_Send tx) (tx_Skip tx)
    (tx_OperationTypeOverride tx).

(** [calculateFeeForSinglePackage] and [calculateFeeForMultiplePackages] have the same
    body, the former on a list of one. *)
Definition calculateFeeForPackages (packages : list Package) (resolver : option Resolver)
    (defaultCurrency : string) (segmentID : option uuid) (tx : Transaction) (resp : Responses)
  : result FeeError Transaction :=
  let value := send_Value (tx_Send tx) in
  let! selected := FindPackageToCalculateFee packages (tx_Route tx) segmentID value in
  match selected with
  | None => Ok tx
  | Some p =>
      if negb (dge value (pk_MinimumAmount p)) || negb (dle value (pk_MaximumAmount p)) then Ok tx
      else
        let! r := CalculateFee tx p (resp_From resp) (resp_To resp) defaultCurrency resolver in
        let '(tx', fromSize, toSize) := r in
        Ok (updateFeeMetadataIfNeeded (pk_ID p)
              (negb (fromSize =? size (resp_From resp))%nat || negb (toSize =? size (resp_To resp))%nat) tx')
  end.

(** [UseCase.CalculateFee] once the packages are loaded.  Validation also writes the
    resolved amounts into the entries of the transaction. *)
Definition UseCase_CalculateFee (packages : list Package) (resolver : option Resolver)
    (defaultCurrency : string) (segmentID : option uuid) (tx : Transaction) : result FeeError Transaction :=
  match packages with
  | [] => Ok tx
  | _ =>
      match ValidateSendSourceAndDistribute tx (StatusOther "") with
      | Err _ => Err ErrValidateDistributeTransactionValue
      | Ok (resp, fromEntries, toEntries) =>
          let segmentID := match segmentID with
                           | Some s => Some s
                           | None => resolveSourceSegment resolver (resp_Sources resp)
                           end in
          calculateFeeForPackages packages resolver defaultCurrency segmentID
            (set_entries fromEntries toEntries tx) resp
      end
  end.
End Engine.

(** ** Keys *)

Definition gt_char : ascii := ">"%char.
Definition segs (k : string) : list string := strings_Split gt_char k.
(** The marker of a debit leg is the last segment but one, of a credit leg the second. *)
Definition debit_mark (k : string) : option string := last (removelast (segs k)).
Definition source_mark (k : string) : option string := segs k !! 1%nat.

Lemma Split_app_general c s1 s2 :
  strings_Split c (s1 +:+ String c s2) = strings_Split c s1 ++ strings_Split c s2.
Proof.
  unfold strings_Split. induction s1 as [|a s1 IH].
  - simpl. destruct (split_char c s2). by rewrite bool_decide_eq_true_2.
  - rewrite string_app_cons. cbn [split_char].
    destruct (split_char c (s1 +:+ String c s2)) as [w ws], (split_char c s1) as [v vs],
      (split_char c s2) as [u us]. simpl in IH. injection IH as -> ->.
    by case_bool_decide.
Qed.

Lemma debit_mark_key fee i key :
  contains_char gt_char (GetRouteFrom fee) = false →
  debit_mark (debit_key fee i key) = Some ("fee" +:+ strconv_Itoa i +:+ "-").
Proof.
  intros Hr. unfold debit_mark, segs, debit_key.
  change ("->fee" +:+ ?x) with ("-" +:+ String gt_char ("fee" +:+ x)).
  replace (key +:+ "-" +:+ String gt_char ("fee" +:+ strconv_Itoa i +:+ "->" +:+ GetRouteFrom fee))
    with ((key +:+ "-") +:+ String gt_char (("fee" +:+ strconv_Itoa i +:+ "-") +:+ String gt_char (GetRouteFrom fee)))
    by by rewrite !string_app_assoc.
  rewrite Split_app_general, strings_Split_app, (strings_Split_none gt_char (GetRouteFrom fee)); [|done|].
  - replace (strings_Split gt_char (key +:+ "-") ++ ["fee" +:+ strconv_Itoa i +:+ "-"; GetRouteFrom fee])
      with ((strings_Split gt_char (key +:+ "-") ++ ["fee" +:+ strconv_Itoa i +:+ "-"]) ++ [GetRouteFrom fee])
      by by rewrite <- app_assoc.
    by rewrite removelast_last, last_snoc.
  - rewrite !contains_char_app, Itoa_no_char by done. done.
Qed.

Lemma source_mark_key fee i key :
  contains_char gt_char (fee_CreditAccount fee) = false →
  source_mark (fee_source_key fee i key) = Some ("fee_source" +:+ strconv_Itoa i +:+ "-").
Proof.
  intros Hc. unfold source_mark, segs, fee_source_key.
  replace (fee_CreditAccount fee +:+ "->fee_source" +:+ strconv_Itoa i +:+ "->" +:+ key +:+ "->" +:+ GetRouteTo fee)
    with ((fee_CreditAccount fee +:+ "-") +:+ String gt_char (("fee_source" +:+ strconv_Itoa i +:+ "-") +:+
            String gt_char (key +:+ "->" +:+ GetRouteTo fee)))
    by by rewrite !string_app_assoc.
  rewrite !strings_Split_app; [done|..]; by rewrite !contains_char_app, ?Itoa_no_char, ?Hc.
Qed.

Lemma mark_inj p i j :
  p +:+ strconv_Itoa i +:+ "-" = p +:+ strconv_Itoa j +:+ "-" → i = j.
Proof. intros E%string_app_inj_l%string_app_inj_r. by apply Itoa_inj. Qed.

Lemma no_gt_marks k :
  contains_char gt_char k = false → debit_mark k = None ∧ source_mark k = None.
Proof. intros H. unfold debit_mark, source_mark, segs. by rewrite strings_Split_none. Qed.

Lemma debit_key_inj fee i k k' : debit_key fee i k = debit_key fee i k' → k = k'.
Proof. unfold debit_key. by intros E%string_app_inj_r. Qed.

Lemma fee_source_key_inj fee i k k' : fee_source_key fee i k = fee_source_key fee i k' → k = k'.
Proof. unfold fee_source_key. by intros E%string_app_inj_l%string_app_inj_l%string_app_inj_l%string_app_inj_l%string_app_inj_r. Qed.

(** *** Trimming *)

Lemma before_sub_arrow_app s r :
  before_sub arrow (s +:+ arrow +:+ r) = Some (default s (before_sub arrow s)).
Proof.
  unfold arrow. induction s as [|a s IH]; [done|].
  rewrite string_app_cons. cbn [before_sub].
  assert (strings_HasPrefix "->" (String a (s +:+ "->" +:+ r)) = strings_HasPrefix "->" (String a s)) as ->.
  { unfold strings_HasPrefix. cbn [strings_TrimPrefix]. case_bool_decide; [|done].
    destruct s as [|b s]; [reflexivity|]. rewrite string_app_cons. by case_bool_decide. }
  destruct (strings_HasPrefix "->" (String a s)); [done|]. rewrite IH.
  by destruct (before_sub "->" s).
Qed.

Lemma trim_debit_key fee i key : trimFeeSuffix (debit_key fee i key) = trimFeeSuffix key.
Proof.
  unfold trimFeeSuffix, debit_key.
  change ("->fee" +:+ ?x) with (arrow +:+ ("fee" +:+ x)). by rewrite before_sub_arrow_app.
Qed.

(** Without the arrow there is nothing to trim. *)
Definition no_arrow (s : string) : Prop := before_sub arrow s = None.

Lemma no_arrow_cons a s : no_arrow (String a s) → no_arrow s.
Proof.
  unfold no_arrow. cbn [before_sub]. destruct (strings_HasPrefix _ _); [done|].
  by destruct (before_sub arrow s).
Qed.

Lemma before_sub_no_arrow s t : before_sub arrow s = Some t → no_arrow t.
Proof.
  revert t. induction s as [|a s IH]; intros t; cbn [before_sub].
  - by destruct (strings_HasPrefix _ _); intros [= <-].
  - destruct (strings_HasPrefix arrow (String a s)) eqn:Hp; [by intros [= <-]|].
    destruct (before_sub arrow s) as [u|] eqn:E; [|done]. intros [= <-].
    specialize (IH u eq_refl). unfold no_arrow in *. cbn [before_sub]. rewrite IH.
    destruct (strings_HasPrefix arrow (String a u)) eqn:Hu; [|done].
    (* the arrow would start at [a] in [s] too *)
    unfold arrow, strings_HasPrefix in *. cbn [strings_TrimPrefix] in Hp, Hu.
    case_bool_decide; [|done]. destruct u as [|b u]; [done|]. case_bool_decide as Eb; [|done].
    destruct s as [|b' s]; [done|]. cbn [before_sub] in E. unfold strings_HasPrefix in E.
    destruct (strings_TrimPrefix "->" (String b' s)); [done|].
    destruct (before_sub "->" s); [|done]. injection E as <- _. rewrite bool_decide_eq_true_2 in Hp by done.
    done.
Qed.

Lemma trim_no_arrow s : no_arrow (trimFeeSuffix s).
Proof.
  unfold trimFeeSuffix. destruct (before_sub arrow s) as [t|] eqn:E; simpl; [|done].
  by eapply before_sub_no_arrow.
Qed.

Lemma trim_id s : no_arrow s → trimFeeSuffix s = s.
Proof. unfold trimFeeSuffix. by intros ->. Qed.

Lemma leg_has_arrow s r : ¬ no_arrow (s +:+ arrow +:+ r).
Proof. unfold no_arrow. by rewrite before_sub_arrow_app. Qed.

Lemma debit_key_arrow fee i key : ¬ no_arrow (debit_key fee i key).
Proof. apply leg_has_arrow. Qed.
Lemma source_key_arrow fee i key : ¬ no_arrow (fee_source_key fee i key).
Proof. apply leg_has_arrow. Qed.

Lemma no_gt_no_arrow s : contains_char gt_char s = false → no_arrow s.
Proof.
  induction s as [|a s IH]; [done|]. cbn [contains_char]. case_bool_decide; [done|]. intros Hs.
  unfold no_arrow. cbn [before_sub]. rewrite IH by done.
  assert (strings_HasPrefix arrow (String a s) = false) as ->; [|done].
  unfold arrow, strings_HasPrefix. cbn [strings_TrimPrefix]. case_bool_decide; [|done].
  destruct s as [|b s]; [done|]. cbn [contains_char] in Hs.
  destruct (decide (b = gt_char)) as [->|Hn]; [by rewrite bool_decide_eq_true_2 in Hs|].
  by rewrite bool_decide_eq_false_2 by (intros <-; by apply Hn).
Qed.

(** ** Conservation *)

Section Conserve.
Context {D : DecimalLib} {DL : DecimalLaws} {DT : DecimalText} {U : UuidLib} {P : UuidParse}.
Context (range : nat → nat → gmap string Amount → list (string * Amount)).
Context (range_perm : ∀ i loop m, range i loop m ≡ₚ map_to_list m).
Context (segmentIDs : list uuid) (resolver : option Resolver).
Local Open Scope Q_scope.
Implicit Types (l : list (string * Amount)) (st : dist_state) (ex : list string).

Abbreviation check := (exempt_check segmentIDs resolver).

(** Sum of the values of a list of entries. *)
Fixpoint vsum l : Q :=
  match l with [] => 0 | (_, a) :: l' => dval (amt_Value a) + vsum l' end.

#[local] Instance vsum_proper : Proper ((≡ₚ) ==> Qeq) vsum.
Proof. intros l l'. induction 1 as [|[??]|[??] [??]|]; simpl; try lra. Qed.

Lemma vsum_map m : vsum (map_to_list m) == msum m.
Proof.
  induction m as [|k a m Hk IH] using map_ind; [by rewrite map_to_list_empty, msum_empty|].
  rewrite map_to_list_insert, msum_insert by done. simpl. by rewrite IH.
Qed.

Lemma vsum_range i loop m : vsum (range i loop m) == msum m.
Proof. rewrite range_perm. apply vsum_map. Qed.

Lemma range_NoDup i loop m : NoDup (range i loop m).*1.
Proof. rewrite range_perm. apply NoDup_fst_map_to_list. Qed.

Lemma elem_of_range i loop m k a : (k, a) ∈ range i loop m ↔ m !! k = Some a.
Proof. by rewrite range_perm, elem_of_map_to_list. Qed.

(** Legs added to the exempt accounts exempt nobody: checks are on trimmed keys. *)
Lemma check_legs k ex legs : Forall (λ s, ¬ no_arrow s) legs → check k (ex ++ legs) = check k ex.
Proof.
  intros Hl. unfold exempt_check, isAccountExemptOrSegment, isAccountExemptWithSegments.
  assert (isAccountExempt (trimFeeSuffix k) (ex ++ legs) = isAccountExempt (trimFeeSuffix k) ex) as ->; [|done].
  unfold isAccountExempt. rewrite existsb_app.
  assert (existsb (λ e, bool_decide (trimFeeSuffix k = e)) legs = false) as ->; [|apply orb_false_r].
  apply not_true_is_false. intros (e & He & E%bool_decide_eq_true)%existsb_exists.
  rewrite Forall_forall in Hl. apply (Hl e); [by apply list_elem_of_In|]. rewrite <- E. apply trim_no_arrow.
Qed.

Lemma check_trim k ex : check (trimFeeSuffix k) ex = check k ex.
Proof.
  unfold exempt_check, isAccountExemptOrSegment. by rewrite (trim_id _ (trim_no_arrow k)).
Qed.

(** *** The payers *)

Definition payer ex (k : string) : Prop := check k ex = Ok false.

Lemma total_none ex l t0 t :
  fold_res (total_step segmentIDs resolver ex) t0 l = Ok t →
  (∀ k a, (k, a) ∈ l → ¬ payer ex k) → t = t0.
Proof.
  revert t0. induction l as [|[k a] l IH]; intros t0; simpl; [by intros [= ->]|].
  rewrite rbind_Ok. intros (t1 & Ht & Hl) Hn. unfold total_step in Ht. apply rbind_Ok in Ht as (b & Hb & Ht).
  simpl in Hb, Ht. destruct b; [|exfalso; apply (Hn k a); [by left|done]].
  injection Ht as <-. apply IH; [done|]. intros k' a' Hin. apply (Hn k' a'). by right.
Qed.

Lemma payer_dec ex l t0 t :
  fold_res (total_step segmentIDs resolver ex) t0 l = Ok t →
  (∃ k a, (k, a) ∈ l ∧ payer ex k) ∨ (∀ k a, (k, a) ∈ l → ¬ payer ex k).
Proof.
  revert t0. induction l as [|[k a] l IH]; intros t0; simpl; [right; by intros ?? ?%elem_of_nil|].
  rewrite rbind_Ok. intros (t1 & Ht & Hl). unfold total_step in Ht. apply rbind_Ok in Ht as (b & Hb & Ht).
  simpl in Hb. destruct b.
  - destruct (IH _ Hl) as [(k' & a' & ? & ?)|Hn]; [left; exists k', a'; split; [by right|done]|right].
    intros k' a' [[= -> ->]|Hin]%elem_of_cons; [|eauto]. unfold payer. rewrite Hb. done.
  - left. exists k, a. split; [by left|done].
Qed.

(** A payer with a non-negative amount makes [findMaxAccount] find a payer. *)
Lemma max_account_fold ex (good : string → Prop) l acc acc' :
  fold_res (max_account_step segmentIDs resolver ex) acc l = Ok acc' →
  (∀ k, k ∈ l.*1 → payer ex k → good k) →
  0 <= dval acc.1 → (0 < dval acc.1 → good acc.2) →
  (∃ k a, (k, a) ∈ l ∧ payer ex k ∧ 0 <= dval (amt_Value a)) ∨ good acc.2 → good acc'.2.
Proof.
  revert acc. induction l as [|[k a] l IH]; intros acc; cbn [fold_res].
  { intros [= <-] _ _ _ [(? & ? & []%elem_of_nil & _)|?]; auto. }
  rewrite rbind_Ok. intros (acc1 & H1 & Hl) Hg Hv Ha Hex.
  unfold max_account_step in H1. apply rbind_Ok in H1 as (b & Hb & H1). simpl in Hb, H1. injection H1 as <-.
  assert (∀ k', k' ∈ l.*1 → payer ex k' → good k') as Hg' by (intros; apply Hg; [by right|done]).
  destruct (negb b && dge (amt_Value a) acc.1) eqn:E.
  - apply andb_prop in E as [->%negb_true_iff E%dge_spec].
    assert (good k) as Hk by (apply Hg; [by left|done]).
    apply (IH _ Hl); simpl; [done|lra|done|by right].
  - apply (IH _ Hl); [done..|].
    destruct Hex as [(k' & a' & [[= -> ->]|Hin]%elem_of_cons & Hp & Hpos)|?]; [|left; by exists k', a'|by right].
    right. unfold payer in Hp. rewrite Hp in Hb. injection Hb as <-. simpl in E. apply dge_false in E.
    apply Ha. lra.
Qed.

Lemma findMaxAccount_payer ex i m mx k a :
  findMaxAccount range segmentIDs resolver i m ex = Ok mx →
  m !! k = Some a → payer ex k → 0 <= dval (amt_Value a) → is_Some (m !! mx) ∧ payer ex mx.
Proof.
  unfold findMaxAccount. intros (acc & Hmax & [= <-])%rbind_Ok Hk Hp Hv.
  refine (max_account_fold ex (λ k, is_Some (m !! k) ∧ payer ex k) _ _ _ Hmax _ _ _ _).
  - intros k' (e & -> & He)%list_elem_of_fmap Hp'. split; [|done]. destruct e as [k1 a1].
    apply elem_of_range in He. by eexists.
  - simpl. rewrite dval_zero. lra.
  - simpl. rewrite dval_zero. lra.
  - left. exists k, a. by rewrite elem_of_range.
Qed.

(** *** The legs of a non-deductible fee *)

Section NonDeductible.
Context (fee : Fee) (i : nat) (fv : Amount) (mx : string) (T : dec).
Abbreviation step := (leg_step segmentIDs resolver fee i fv false mx T).

(** What the loop has done from [st] to [st'] over the entries [l]. *)
Definition nd_progress ex l st st' : Prop :=
  (∃ legs, ds_exempt st' = ds_exempt st ++ legs ∧ Forall (λ s, ¬ no_arrow s) legs)
  ∧ msum (ds_update st') - msum (ds_update st) == vsum l + (dval (ds_total st') - dval (ds_total st))
  ∧ msum (ds_to st') - msum (ds_to st) == dval (ds_total st') - dval (ds_total st)
  ∧ (∀ k, is_Some (ds_update st' !! k) →
       is_Some (ds_update st !! k) ∨ k ∈ l.*1 ∨ ∃ k', k' ∈ l.*1 ∧ k = debit_key fee i k')
  ∧ (∀ k a, ds_update st !! k = Some a → ds_update st' !! k = Some a)
  ∧ (∀ k a, (k, a) ∈ l → ds_update st' !! k = Some a)
  ∧ (∀ k, is_Some (ds_to st' !! k) → is_Some (ds_to st !! k) ∨ ∃ k', k' ∈ l.*1 ∧ k = fee_source_key fee i k')
  ∧ (∀ k a, ds_to st !! k = Some a → ds_to st' !! k = Some a)
  ∧ (∀ k, k ∈ l.*1 → payer ex k →
       is_Some (ds_update st' !! debit_key fee i k) ∧ is_Some (ds_to st' !! fee_source_key fee i k))
  ∧ (mx ∈ l.*1 → payer ex mx →
       ds_target st' = Some (mkTarget (debit_key fee i mx) (fee_source_key fee i mx) ""))
  ∧ (mx ∉ l.*1 → ds_target st' = ds_target st).

(** The keys to come are new. *)
Definition nd_fresh l st : Prop :=
  NoDup l.*1
  ∧ (∀ k, k ∈ l.*1 → ds_update st !! k = None ∧ ds_update st !! debit_key fee i k = None
       ∧ ds_to st !! fee_source_key fee i k = None)
  ∧ (∀ k k', k ∈ l.*1 → k' ∈ l.*1 → debit_key fee i k ≠ k').

Lemma leg_step_nd ex k a st st' :
  (∃ legs, ds_exempt st = ex ++ legs ∧ Forall (λ s, ¬ no_arrow s) legs) →
  step st (k, a) = Ok st' →
  (∃ b, check k ex = Ok b) ∧
  (check k ex = Ok true ∧ st' = mkDist (<[k := a]> (ds_update st)) (ds_to st) (ds_total st) (ds_exempt st) (ds_target st)
   ∨ payer ex k ∧ ∃ leg,
     st' = mkDist (<[k := a]> (<[debit_key fee i k := leg]> (ds_update st)))
             (<[fee_source_key fee i k := leg]> (ds_to st)) (ds_total st + amt_Value leg)%dec
             (ds_exempt st ++ [fee_source_key fee i k; debit_key fee i k])
             (if bool_decide (k = mx) then Some (mkTarget (debit_key fee i k) (fee_source_key fee i k) "")
              else ds_target st)).
Proof.
  intros (legs & He & Hl). unfold leg_step. rewrite He, check_legs by done.
  rewrite rbind_Ok. intros (b & Hb & H). split; [by eexists|]. destruct b.
  - injection H as <-. rewrite <- He. left. done.
  - right. split; [done|]. simpl in H. injection H as <-.
    exists (plain_amount (amt_Asset fv) (amt_Value fv * (amt_Value a / T))%dec). rewrite <- ?He. reflexivity.
Qed.

Lemma nd_compose ex l1 l2 st st1 st2 :
  nd_progress ex l1 st st1 → nd_progress ex l2 st1 st2 → nd_progress ex (l1 ++ l2) st st2.
Proof.
  intros ((g1 & Ee1 & Hg1) & S1 & R1 & D1 & K1 & A1 & F1 & L1 & Y1 & T1 & N1)
         ((g2 & Ee2 & Hg2) & S2 & R2 & D2 & K2 & A2 & F2 & L2 & Y2 & T2 & N2).
  unfold nd_progress. rewrite fmap_app. setoid_rewrite elem_of_app.
  split_and!.
  - exists (g1 ++ g2). rewrite Ee2, Ee1, <- app_assoc. split; [done|]. by apply Forall_app.
  - assert (vsum (l1 ++ l2) == vsum l1 + vsum l2) as ->; [|lra].
    clear. induction l1 as [|[k a] l1 IH]; simpl; [lra|]. rewrite IH. lra.
  - lra.
  - intros k [Hk|[Hk|(k' & Hk & ->)]]%D2; [apply D1 in Hk; naive_solver|naive_solver..].
  - eauto.
  - intros k a [Hk|Hk]; eauto.
  - intros k [Hk|(k' & Hk & ->)]%F2; [apply F1 in Hk; naive_solver|naive_solver].
  - eauto.
  - intros k [Hk|Hk] Hp; [|by apply Y2]. destruct (Y1 k Hk Hp) as [[x Hx] [y Hy]].
    split; [exists x; auto|exists y; auto].
  - intros Hm Hp. destruct (decide (mx ∈ l2.*1)); [auto|]. rewrite N2 by done. naive_solver.
  - intros Hm. rewrite N2, N1; naive_solver.
Qed.

Lemma nd_one ex k a st st' :
  (∃ legs, ds_exempt st = ex ++ legs ∧ Forall (λ s, ¬ no_arrow s) legs) →
  nd_fresh [(k, a)] st → step st (k, a) = Ok st' → nd_progress ex [(k, a)] st st'.
Proof.
  intros He (_ & Hf & Hd) [_ [[Hc ->]|(Hp & leg & ->)]]%(leg_step_nd ex); [..|done].
  all: destruct (Hf k) as (F1 & F2 & F3); [by left|].
  all: assert (debit_key fee i k ≠ k) as Hne by (apply Hd; by left).
  all: unfold nd_progress; simpl; setoid_rewrite list_elem_of_singleton.
  - split_and!; try done.
    + exists []. by rewrite app_nil_r.
    + rewrite msum_insert by done. lra.
    + lra.
    + intros k' Hk. destruct (decide (k = k')) as [->|]; [by right; left|].
      rewrite lookup_insert_ne in Hk by done. by left.
    + intros k' a' Hk. rewrite lookup_insert_ne; [done|congruence].
    + intros k' a' [= -> ->]. apply lookup_insert_eq.
    + by left.
    + intros k' -> Hp. unfold payer in Hp. congruence.
    + intros -> Hp. unfold payer in Hp. congruence.
  - split_and!.
    + exists [fee_source_key fee i k; debit_key fee i k]. split; [done|].
      repeat constructor; [apply source_key_arrow|apply debit_key_arrow].
    + rewrite !msum_insert by (done || by rewrite lookup_insert_ne). rewrite dval_add. lra.
    + rewrite msum_insert by done. rewrite dval_add. lra.
    + intros k' [Hk|Hk]%lookup_insert_is_Some; [by right; left|].
      destruct Hk as [_ [Hk|[_ Hk]]%lookup_insert_is_Some]; [right; right; by exists k|by left].
    + intros k' a' Hk. rewrite !lookup_insert_ne; [done|congruence..].
    + intros k' a' [= -> ->]. apply lookup_insert_eq.
    + intros k' [Hk|[_ Hk]]%lookup_insert_is_Some; [right; by exists k|by left].
    + intros k' a' Hk. rewrite lookup_insert_ne; [done|congruence].
    + intros k' -> _. rewrite lookup_insert_ne, !lookup_insert_eq by done. split; by eexists.
    + intros -> _. by rewrite bool_decide_eq_true_2.
    + intros Hm. rewrite bool_decide_eq_false_2; [done|congruence].
Qed.

Lemma nd_fresh_tail ex k a l st st' :
  nd_fresh ((k, a) :: l) st → nd_progress ex [(k, a)] st st' → nd_fresh l st'.
Proof.
  intros (ND & Hf & Hd) (_ & _ & _ & D1 & _ & _ & F1 & _). simpl in *.
  apply NoDup_cons in ND as [Hk ND]. split_and!; [done| |intros; apply Hd; by right].
  intros k' Hk'. destruct (Hf k') as (H1 & H2 & H3); [by right|].
  assert (k' ≠ k) as Hn by (intros ->; done).
  split_and!; apply eq_None_not_Some.
  - intros [Hx|[Hx|(k'' & Hx & E)]]%D1.
    + rewrite H1 in Hx. by destruct Hx.
    + apply list_elem_of_singleton in Hx. done.
    + apply list_elem_of_singleton in Hx. subst k''. by apply (Hd k k'); [left|right|].
  - intros [Hx|[Hx|(k'' & Hx & E)]]%D1.
    + rewrite H2 in Hx. by destruct Hx.
    + apply list_elem_of_singleton in Hx. by apply (Hd k' k); [right|left|].
    + apply list_elem_of_singleton in Hx. subst k''. by apply debit_key_inj in E.
  - intros [Hx|(k'' & Hx & E)]%F1; [rewrite H3 in Hx; by destruct Hx|].
    apply list_elem_of_singleton in Hx. subst k''. by apply fee_source_key_inj in E.
Qed.

Lemma nd_loop ex l st st' :
  (∃ legs, ds_exempt st = ex ++ legs ∧ Forall (λ s, ¬ no_arrow s) legs) →
  nd_fresh l st → fold_res step st l = Ok st' → nd_progress ex l st st'.
Proof.
  revert st. induction l as [|[k a] l IH]; intros st He Hf; cbn [fold_res].
  - intros [= <-]. unfold nd_progress. simpl. setoid_rewrite elem_of_nil.
    split_and!; try done; try lra; [exists []; by rewrite app_nil_r|naive_solver..].
  - rewrite rbind_Ok. intros (st1 & H1 & Hl).
    assert (nd_progress ex [(k, a)] st st1) as Hp.
    { apply nd_one; [done| |done]. destruct Hf as (_ & Hf & Hd). split_and!; [apply NoDup_singleton|..].
      - intros k' ->%list_elem_of_singleton. apply Hf. by left.
      - intros k1 k2 ->%list_elem_of_singleton ->%list_elem_of_singleton. apply Hd; by left. }
    apply (nd_compose ex [(k, a)] l st st1 st' Hp). apply IH; [|by eapply nd_fresh_tail|done].
    destruct Hp as ((g & Eg & Hg) & _). destruct He as (legs & He & Hl').
    exists (legs ++ g). rewrite Eg, He, app_assoc. split; [done|]. by apply Forall_app.
Qed.
End NonDeductible.

(** *** The residual goes to the largest payer *)

Lemma set_value_val v a : amt_Value (set_value v a) = v.
Proof. done. Qed.

Lemma correction_nd (st : dist_state) fv dk sk :
  ds_target st = Some (mkTarget dk sk "") → is_Some (ds_update st !! dk) → is_Some (ds_to st !! sk) →
  let '(u, t) := applyFeeCorrection st fv false in
  msum u == msum (ds_update st) + (dval (amt_Value fv) - dval (ds_total st))
  ∧ msum t == msum (ds_to st) + (dval (amt_Value fv) - dval (ds_total st))
  ∧ (∀ k, k ≠ dk → u !! k = ds_update st !! k) ∧ dom u = dom (ds_update st) ∧ dom t = dom (ds_to st).
Proof.
  intros Ht [leg Hleg] [cr Hcr]. unfold applyFeeCorrection. rewrite Ht. simpl.
  destruct (dis_zero _) eqn:Ez.
  - apply dis_zero_spec in Ez. rewrite dval_sub in Ez. split_and!; try done; lra.
  - rewrite Hleg, Hcr.
    split_and!.
    + rewrite (msum_insert_overwrite _ _ leg) by done. rewrite set_value_val, dval_add, dval_sub. lra.
    + rewrite (msum_insert_overwrite _ _ cr) by done. rewrite set_value_val, dval_add, dval_sub. lra.
    + intros k Hk. by rewrite lookup_insert_ne.
    + rewrite dom_insert_L. apply elem_of_dom_2 in Hleg. set_solver.
    + rewrite dom_insert_L. apply elem_of_dom_2 in Hcr. set_solver.
Qed.

Lemma size_grows (m m' : gmap string Amount) k :
  dom m ⊆ dom m' → m !! k = None → is_Some (m' !! k) → (size m < size m')%nat.
Proof.
  intros Hs Hn Hk. rewrite <- !size_dom. apply subset_size. apply elem_of_dom in Hk.
  apply not_elem_of_dom in Hn. set_solver.
Qed.

(** A non-deductible fee adds its amount to both sides, or nothing to either. *)
Lemma nd_apply fee i fv ex (frm to frm' to' : gmap string Amount) ex' :
  (∀ k k', is_Some (frm !! k) → is_Some (frm !! k') → debit_key fee i k ≠ k') →
  (∀ k, is_Some (frm !! k) → to !! fee_source_key fee i k = None) →
  (∀ k a, frm !! k = Some a → ∃ b, frm !! trimFeeSuffix k = Some b ∧ 0 <= dval (amt_Value b)) →
  applyProportionalFee range segmentIDs resolver fee i frm to fv ex false = Ok (frm', to', ex') →
  (∃ legs, ex' = ex ++ legs ∧ Forall (λ s, ¬ no_arrow s) legs)
  ∧ ((frm' = frm ∧ to' = to) ∨
     (msum frm' == msum frm + dval (amt_Value fv) ∧ msum to' == msum to + dval (amt_Value fv)
      ∧ size to ≠ size to'))
  ∧ (∀ k a, frm !! k = Some a → frm' !! k = Some a)
  ∧ (∀ k, is_Some (frm' !! k) → is_Some (frm !! k) ∨ ∃ k', is_Some (frm !! k') ∧ k = debit_key fee i k')
  ∧ (∀ k, is_Some (to' !! k) → is_Some (to !! k) ∨ ∃ k', k = fee_source_key fee i k').
Proof.
  intros Hfd Hfs Hbase. unfold applyProportionalFee, calculateProportionalFees. rewrite rbind_Ok.
  intros (mx & Hmx & H). rewrite rbind_Ok in H. destruct H as (st & Hst & H).
  rewrite rbind_Ok in Hst. destruct Hst as (T & HT & Hst).
  destruct (dis_zero T) eqn:Ez.
  { injection Hst as <-. simpl in H. injection H as <- <- <-. split_and!; try done; eauto.
    exists []. by rewrite app_nil_r. }
  (* there is a payer, so the largest one is found *)
  destruct (payer_dec _ _ _ _ HT) as [(k & a & Hka & Hp)|Hn].
  2: { rewrite (total_none _ _ _ _ HT Hn) in Ez. unfold dis_zero in Ez.
       assert (dequal dzero dzero = true) by (apply dequal_spec; reflexivity). congruence. }
  apply elem_of_range in Hka. destruct (Hbase k a Hka) as (b & Hb & Hpos).
  assert (is_Some (frm !! mx) ∧ payer ex mx) as [[am Ham] Hpm].
  { eapply findMaxAccount_payer; [done|exact Hb| |done]. unfold payer. by rewrite check_trim. }
  assert (∀ k, k ∈ (range i 2 frm).*1 ↔ is_Some (frm !! k)) as Hdom.
  { intros k0. rewrite list_elem_of_fmap. split.
    - intros ([k1 a1] & -> & H1). apply elem_of_range in H1. by eexists.
    - intros [a1 H1]. exists (k0, a1). by rewrite elem_of_range. }
  apply (nd_loop fee i fv mx T ex) in Hst.
  2: { exists []. by rewrite app_nil_r. }
  2: { split_and!; [apply range_NoDup| |].
       - intros k0 Hk0%Hdom. split_and!; [done..|by apply Hfs].
       - intros k0 k1 Hk0%Hdom Hk1%Hdom. by apply Hfd. }
  destruct Hst as ((g & Eg & Hg) & S1 & R1 & D1 & _ & A1 & F1 & L1 & Y1 & T1 & _).
  simpl in *. specialize (T1 (proj2 (Hdom mx) ltac:(by eexists)) Hpm).
  destruct (Y1 mx (proj2 (Hdom mx) ltac:(by eexists)) Hpm) as [Yd Ys].
  pose proof (correction_nd st fv _ _ T1 Yd Ys) as Hc.
  destruct (applyFeeCorrection st fv false) as [u t]. simpl in H. injection H as <- <- <-.
  destruct Hc as (C1 & C2 & C3 & C4 & C5).
  rewrite msum_empty, dval_zero in S1. rewrite dval_zero in R1. rewrite vsum_range in S1.
  split_and!.
  - by exists g.
  - right. split_and!; [lra|lra|]. apply Nat.lt_neq.
    apply (size_grows _ _ (fee_source_key fee i mx)).
    + rewrite C5. intros k0 [a0 Hk0]%elem_of_dom. apply elem_of_dom. exists a0. auto.
    + apply Hfs. by eexists.
    + apply elem_of_dom. rewrite C5. by apply elem_of_dom.
  - intros k0 a0 Hk0. rewrite C3; [|intros ->; by apply (Hfd mx _ ltac:(by eexists) ltac:(by eexists))].
    apply A1. by apply elem_of_range.
  - intros k0 Hk0. apply elem_of_dom in Hk0. rewrite C4 in Hk0. apply elem_of_dom in Hk0.
    apply D1 in Hk0 as [[? Hx]|[Hx|(k' & Hx & ->)]]; [by rewrite lookup_empty in Hx|left; by apply Hdom|].
    right. exists k'. by rewrite <- Hdom.
  - intros k0 Hk0. apply elem_of_dom in Hk0. rewrite C5 in Hk0. apply elem_of_dom in Hk0.
    apply F1 in Hk0 as [Hx|(k' & Hx & ->)]; [by left|right; by exists k'].
Qed.

(** *** A deductible fee only moves value between destinations *)

Section Deductible.
Context (fee : Fee) (i : nat) (fv : Amount) (mx : string) (T : dec).
Abbreviation dstep := (leg_step segmentIDs resolver fee i fv true mx T).

Definition d_ok st : Prop :=
  match ds_target st with
  | Some t => ∃ k, t = mkTarget (fee_source_key fee i k) "" k ∧ fee_source_key fee i k ≠ k
      ∧ is_Some (ds_update st !! fee_source_key fee i k) ∧ is_Some (ds_update st !! k)
  | None => True
  end.

Definition d_fresh l st : Prop :=
  NoDup l.*1
  ∧ (∀ k, k ∈ l.*1 → ds_update st !! k = None ∧ ds_update st !! fee_source_key fee i k = None)
  ∧ (∀ k k', k ∈ l.*1 → k' ∈ l.*1 → fee_source_key fee i k ≠ k').

Lemma d_one ex k a st st' :
  (∃ legs, ds_exempt st = ex ++ legs ∧ Forall (λ s, ¬ no_arrow s) legs) →
  ds_update st !! k = None → ds_update st !! fee_source_key fee i k = None → fee_source_key fee i k ≠ k →
  d_ok st → dstep st (k, a) = Ok st' →
  d_ok st'
  ∧ (∃ legs, ds_exempt st' = ex ++ legs ∧ Forall (λ s, ¬ no_arrow s) legs)
  ∧ msum (ds_update st') == msum (ds_update st) + dval (amt_Value a)
  ∧ (∀ k', is_Some (ds_update st' !! k') →
       is_Some (ds_update st !! k') ∨ k' = k ∨ k' = fee_source_key fee i k).
Proof.
  intros (legs & He & Hl) F1 F2 Hne Hok. unfold leg_step. rewrite He, check_legs by done.
  rewrite rbind_Ok. intros (b & Hb & H). destruct b.
  - injection H as <-. split_and!; simpl.
    + revert Hok. unfold d_ok. simpl. destruct (ds_target st) as [t|]; [|done].
      intros (k0 & -> & ? & H1 & H2). exists k0. rewrite !lookup_insert_is_Some'. auto.
    + exists legs. by rewrite <- He.
    + rewrite msum_insert by done. lra.
    + intros k' [?|[_ ?]]%lookup_insert_is_Some; auto.
  - destruct (dge _ _); [done|]. simpl in H. injection H as <-. split_and!; simpl.
    + unfold d_ok. simpl. case_bool_decide as E; [|destruct (ds_target st) as [t|] eqn:Et; [|done]].
      * exists k. rewrite !lookup_insert_is_Some'. split_and!; [done|done|right; by left|by left].
      * unfold d_ok in Hok. rewrite Et in Hok. destruct Hok as (k0 & -> & ? & H1 & H2).
        exists k0. rewrite !lookup_insert_is_Some'. split_and!; [done|done|right; by right|right; by right].
    + exists (legs ++ [fee_source_key fee i k]). rewrite He, app_assoc. split; [done|].
      apply Forall_app. split; [done|]. apply Forall_singleton, source_key_arrow.
    + rewrite msum_insert by by rewrite lookup_insert_ne. rewrite msum_insert by done.
      rewrite set_value_val, dval_sub. simpl. lra.
    + intros k' [?|[_ [?|[_ ?]]%lookup_insert_is_Some]]%lookup_insert_is_Some; auto.
Qed.

Lemma d_loop ex l st st' :
  (∃ legs, ds_exempt st = ex ++ legs ∧ Forall (λ s, ¬ no_arrow s) legs) →
  d_fresh l st → d_ok st → fold_res dstep st l = Ok st' →
  d_ok st'
  ∧ (∃ legs, ds_exempt st' = ex ++ legs ∧ Forall (λ s, ¬ no_arrow s) legs)
  ∧ msum (ds_update st') == msum (ds_update st) + vsum l
  ∧ (∀ k, is_Some (ds_update st' !! k) →
       is_Some (ds_update st !! k) ∨ k ∈ l.*1 ∨ ∃ k', k' ∈ l.*1 ∧ k = fee_source_key fee i k').
Proof.
  revert st. induction l as [|[k a] l IH]; intros st He Hf Hok; cbn [fold_res].
  { intros [= <-]. split_and!; [done|done|simpl; lra|auto]. }
  rewrite rbind_Ok. intros (st1 & H1 & Hl). destruct Hf as (ND & Hf & Hd).
  destruct (Hf k) as [F1 F2]; [by left|].
  destruct (d_one ex k a st st1) as (O1 & E1 & M1 & D1); [done..|apply Hd; by left|done|done|].
  apply NoDup_cons in ND as [Hk ND].
  destruct (IH st1 E1) as (O2 & E2 & M2 & D2); [|done|done|].
  - split_and!; [done| |intros; apply Hd; by right].
    intros k' Hk'. destruct (Hf k') as [G1 G2]; [by right|].
    split; apply eq_None_not_Some; intros [Hx|[E|E]]%D1.
    + rewrite G1 in Hx. by destruct Hx.
    + by subst.
    + by apply (Hd k k'); [left|right|].
    + rewrite G2 in Hx. by destruct Hx.
    + by apply (Hd k' k); [right|left|].
    + apply fee_source_key_inj in E. by subst.
  - split_and!; [done|done|simpl; lra|]. intros k' [[Hx|[->| ->]]%D1|[Hx|(k'' & ? & ->)]]%D2;
      [by left|right; left; by left|right; right; exists k; split; [by left|done]
      |right; left; by right|right; right; exists k''; split; [by right|done]].
Qed.
End Deductible.

Lemma d_apply fee i fv ex (to to' x : gmap string Amount) ex' :
  (∀ k k', is_Some (to !! k) → is_Some (to !! k') → fee_source_key fee i k ≠ k') →
  applyProportionalFee range segmentIDs resolver fee i to ∅ fv ex true = Ok (to', x, ex') →
  (∃ legs, ex' = ex ++ legs ∧ Forall (λ s, ¬ no_arrow s) legs)
  ∧ msum to' == msum to
  ∧ (∀ k, is_Some (to' !! k) → is_Some (to !! k) ∨ ∃ k', k = fee_source_key fee i k').
Proof.
  intros Hfd. unfold applyProportionalFee, calculateProportionalFees. rewrite rbind_Ok.
  intros (mx & Hmx & H). rewrite rbind_Ok in H. destruct H as (st & Hst & H).
  rewrite rbind_Ok in Hst. destruct Hst as (T & HT & Hst). destruct (dis_zero T) eqn:Ez.
  { injection Hst as <-. simpl in H. injection H as <- <- <-. split_and!; [|lra|auto].
    exists []. by rewrite app_nil_r. }
  assert (∀ k, k ∈ (range i 2 to).*1 → is_Some (to !! k)) as Hdom.
  { intros k0 ([k1 a1] & -> & H1)%list_elem_of_fmap. apply elem_of_range in H1. by eexists. }
  apply (d_loop fee i fv mx T ex) in Hst as (Ok' & E1 & M1 & D1).
  2: { exists []. by rewrite app_nil_r. }
  2: { split_and!; [apply range_NoDup|done|intros; apply Hfd; auto]. }
  2: { done. }
  simpl in M1. rewrite msum_empty, vsum_range in M1.
  assert (∀ k, is_Some (ds_update st !! k) → is_Some (to !! k) ∨ ∃ k', k = fee_source_key fee i k') as Hk.
  { intros k [[? Hx]|[Hx|(k' & _ & ->)]]%D1; [simpl in Hx; by rewrite lookup_empty in Hx|left; auto|right; by exists k']. }
  assert (msum (applyFeeCorrection st fv true).1 == msum (ds_update st)
    ∧ dom (applyFeeCorrection st fv true).1 = dom (ds_update st)) as [C1 C2].
  { unfold applyFeeCorrection. destruct (ds_target st) as [t|] eqn:Et; [|simpl; split; [lra|done]].
    cbn zeta. destruct (dis_zero (amt_Value fv - ds_total st)%dec); [simpl; split; [lra|done]|].
    unfold d_ok in Ok'. rewrite Et in Ok'. destruct Ok' as (k & -> & Hne & [leg Hleg] & [pay Hpay]).
    cbn [tg_debitLegKey tg_payerKey]. rewrite Hleg, lookup_insert_ne, Hpay by done. cbn [fst]. split.
    - rewrite (msum_insert_overwrite _ _ pay) by by rewrite lookup_insert_ne.
      rewrite (msum_insert_overwrite _ _ leg) by done. rewrite !set_value_val, dval_add, !dval_sub. lra.
    - apply elem_of_dom_2 in Hleg, Hpay. rewrite !dom_insert_L. set_solver. }
  destruct (applyFeeCorrection st fv true) as [u t]. simpl in *. injection H as <- <- <-.
  split_and!; [done|lra|]. intros k Hx. apply Hk. apply elem_of_dom. rewrite <- C2. by apply elem_of_dom.
Qed.

(** *** The loop over the fees *)

Definition mark (p : string) (j : nat) : string := p +:+ strconv_Itoa j +:+ "-".

Record fee_inv (i : nat) (st : fee_state) : Prop := {
  fi_from k j : is_Some (fs_From st !! k) → (i <= j)%nat → debit_mark k ≠ Some (mark "fee" j);
  fi_to k j : is_Some (fs_To st !! k) → (i <= j)%nat → source_mark k ≠ Some (mark "fee_source" j);
  fi_base k a : fs_From st !! k = Some a →
    ∃ b, fs_From st !! trimFeeSuffix k = Some b ∧ 0 <= dval (amt_Value b);
  fi_from_sum : msum (fs_From st) == dval (fs_Value st);
  fi_to_sum : msum (fs_To st) == dval (fs_Value st) }.

(** Account aliases and routes do not contain '>', the character of the leg keys. *)
Definition plain_fee (fee : Fee) : Prop :=
  contains_char gt_char (fee_CreditAccount fee) = false ∧ contains_char gt_char (GetRouteFrom fee) = false.

Lemma fee_inv_next i (st : fee_state) : fee_inv i st → fee_inv (S i) st.
Proof.
  intros [H1 H2 H3 H4 H5]. split; [|..|done|done|done].
  - intros k j Hk Hj. apply H1; [done|lia].
  - intros k j Hk Hj. apply H2; [done|lia].
Qed.

Lemma fee_inv_same i (st st' : fee_state) :
  fs_From st' = fs_From st → fs_To st' = fs_To st → fs_Value st' = fs_Value st →
  fee_inv i st → fee_inv i st'.
Proof. intros E1 E2 E3 [H1 H2 H3 H4 H5]. split; rewrite ?E1, ?E2, ?E3; done. Qed.

Lemma marks_fresh fee i (st : fee_state) :
  plain_fee fee → fee_inv i st →
  (∀ k k', is_Some (fs_From st !! k) → is_Some (fs_From st !! k') → debit_key fee i k ≠ k')
  ∧ (∀ k, fs_To st !! fee_source_key fee i k = None).
Proof.
  intros [Hc Hr] [H1 H2 _ _ _]. split.
  - intros k k' _ Hk' E. apply (H1 k' i); [done|lia|]. rewrite <- E. by apply debit_mark_key.
  - intros k. apply eq_None_not_Some. intros Hk. apply (H2 _ i Hk); [lia|]. by apply source_mark_key.
Qed.

Lemma new_marks fee i (st : fee_state) (frm to : gmap string Amount) :
  plain_fee fee → fee_inv i st →
  (∀ k, is_Some (frm !! k) → is_Some (fs_From st !! k) ∨ ∃ k', is_Some (fs_From st !! k') ∧ k = debit_key fee i k') →
  (∀ k, is_Some (to !! k) → is_Some (fs_To st !! k) ∨ ∃ k', k = fee_source_key fee i k') →
  (∀ k j, is_Some (frm !! k) → (S i <= j)%nat → debit_mark k ≠ Some (mark "fee" j))
  ∧ (∀ k j, is_Some (to !! k) → (S i <= j)%nat → source_mark k ≠ Some (mark "fee_source" j)).
Proof.
  intros [Hc Hr] [H1 H2 _ _ _] Hf Ht. split.
  - intros k j Hk Hj E. apply Hf in Hk as [Hk|(k' & _ & ->)]; [apply (H1 k j); [done|lia|done]|].
    rewrite debit_mark_key in E by done. apply (inj Some) in E. apply (mark_inj "fee") in E. lia.
  - intros k j Hk Hj E. apply Ht in Hk as [Hk|(k' & ->)]; [apply (H2 k j); [done|lia|done]|].
    rewrite source_mark_key in E by done. apply (inj Some) in E. apply (mark_inj "fee_source") in E. lia.
Qed.

Lemma rules_inv fee i fv (st st' : fee_state) :
  plain_fee fee → fee_inv i st →
  applyDeductibleAndReferenceAmountRules range segmentIDs resolver i fee fv st = Ok st' → fee_inv (S i) st'.
Proof.
  intros Hp I. pose proof (marks_fresh fee i st Hp I) as [Fd Fs].
  unfold applyDeductibleAndReferenceAmountRules, exempt_sources. rewrite rbind_Ok. intros (ae & Hae & H).
  destruct ae; [|destruct (GetIsDeductibleFrom fee); simpl in H].
  - apply rbind_Ok in H as (at' & _ & [= <-]). by apply (fee_inv_same _ st), fee_inv_next.
  - apply rbind_Ok in H as ([[to x] waived] & Ha & H). apply rbind_Ok in H as (at' & _ & [= <-]).
    apply d_apply in Ha as (_ & Hs & Hk); [|intros k k' _ [? Hk'] E; specialize (Fs k); rewrite E in Fs; congruence].
    destruct (new_marks fee i st (fs_From st) to Hp I ltac:(auto) Hk) as [M1 M2].
    destruct I as [H1 H2 H3 H4 H5]. split; simpl; [done|done|done|done|lra].
  - apply rbind_Ok in H as ([[frm to] waived] & Ha & [= <-]).
    apply nd_apply in Ha as (_ & Hs & Hkeep & Hkf & Hkt); [|done|done|apply I].
    destruct (new_marks fee i st frm to Hp I Hkf Hkt) as [M1 M2]. destruct I as [H1 H2 H3 H4 H5].
    split; simpl; [done|done| | |].
    + intros k a Hk. destruct (Hkf k) as [[b Hb]|(k' & [b Hb] & ->)]; [by eexists|..].
      * destruct (H3 k b Hb) as (c & Hc & ?). exists c. auto.
      * rewrite trim_debit_key. destruct (H3 k' b Hb) as (c & Hc & ?). exists c. auto.
    + destruct Hs as [[-> ->]|(S1 & S2 & Hn)]; [by rewrite Nat.eqb_refl|].
      apply Nat.eqb_neq in Hn. rewrite Hn. simpl. rewrite dval_add. lra.
    + destruct Hs as [[-> ->]|(S1 & S2 & Hn)]; [by rewrite Nat.eqb_refl|].
      apply Nat.eqb_neq in Hn. rewrite Hn. simpl. rewrite dval_add. lra.
Qed.

Lemma fees_inv fees feeAsset orig (st st' : fee_state) :
  Forall plain_fee fees → fee_inv 0 st →
  fold_res (fee_step range segmentIDs resolver feeAsset orig) st (imap pair fees) = Ok st' →
  fee_inv (length fees) st'.
Proof.
  intros Hp I. revert st'. induction fees as [|fee fees IH] using rev_ind; intros st'.
  - intros [= <-]. done.
  - apply Forall_app in Hp as [Hp Hp1]. rewrite Forall_singleton in Hp1.
    rewrite imap_app, fold_res_app. intros (st1 & H1 & H2)%rbind_Ok.
    simpl in H2. apply rbind_Ok in H2 as (st2 & H2 & [= <-]).
    unfold fee_step in H2. simpl in H2. apply rbind_Ok in H2 as (fv & _ & H2).
    rewrite Nat.add_0_r in H2. rewrite length_app, Nat.add_comm. simpl.
    apply (rules_inv fee (length fees) fv st1 st2 Hp1); [|done]. by apply IH.
Qed.
End Conserve.

(** ** Properties *)

(** The sum of the explicit amounts of a list of entries. *)
Fixpoint entries_sum {D : DecimalLib} {DL : DecimalLaws} (l : list FromTo) : Q :=
  match l with
  | [] => 0
  | e :: l' => match ft_Amount e with Some a => dval (amt_Value a) | None => 0 end + entries_sum l'
  end%Q.

Lemma entries_sum_legs {D : DecimalLib} {DL : DecimalLaws} (l : list (string * Amount)) :
  (entries_sum (map entry_of_leg l) == vsum l)%Q.
Proof.
  induction l as [|[k a] l IH]; [reflexivity|]. cbn [map entries_sum vsum]. rewrite IH.
  assert (ft_Amount (entry_of_leg (k, a)) = Some (plain_amount (amt_Asset a) (amt_Value a))) as ->; [|reflexivity].
  unfold entry_of_leg. by destruct (if strings_Contains k "->fee_source" then _ else _).
Qed.

(** C6: the fee engine keeps a transaction balanced.  From a response whose two sides
    each sum to the sent value, with aliases and routes free of '>', non-negative
    sources, and any fees, in any order Go visits the maps: when [CalculateFee]
    succeeds, the rebuilt sources and the rebuilt destinations each sum exactly to the
    new sent value, rounding included. *)
Theorem fee_engine_conserves {D : DecimalLib} {DL : DecimalLaws} {DT : DecimalText} {U : UuidLib} {P : UuidParse}
    (range : nat → nat → gmap string Amount → list (string * Amount)) tx p from to cur resolver tx' n m :
  (∀ i loop m, range i loop m ≡ₚ map_to_list m) →
  (∀ k a, from !! k = Some a → contains_char gt_char k = false ∧ (0 <= dval (amt_Value a))%Q) →
  (∀ k a, to !! k = Some a → contains_char gt_char k = false) →
  Forall plain_fee (pk_Fees p) →
  (msum from == dval (send_Value (tx_Send tx)) ∧ msum to == dval (send_Value (tx_Send tx)))%Q →
  CalculateFee range tx p from to cur resolver = Ok (tx', n, m) →
  (entries_sum (src_From (send_Source (tx_Send tx'))) == dval (send_Value (tx_Send tx')) ∧
   entries_sum (dst_To (send_Distribute (tx_Send tx'))) == dval (send_Value (tx_Send tx')))%Q.
Proof.
  intros Hr Hf Ht Hp [Sf St]. unfold CalculateFee. intros ([al segIDs] & _ & H)%rbind_Ok.
  apply rbind_Ok in H as (st & Hst & [= <- <- <-]). simpl.
  apply (fees_inv range Hr) in Hst as [_ _ _ E1 E2].
  - unfold updatedAmountsFromFee. rewrite !entries_sum_legs, !(vsum_range range Hr). split; done.
  - rewrite Forall_forall in *. intros fee Hfee. apply Hp. by rewrite <- (merge_sort_Permutation priority_le).
  - split; simpl; [| | |done|done].
    + intros k j [a Hk] _. destruct (no_gt_marks k) as [-> _]; [by eapply Hf|done].
    + intros k j [a Hk] _. destruct (no_gt_marks k) as [_ ->]; [by eapply Ht|done].
    + intros k a Hk. destruct (Hf k a Hk) as [Hg Hv]. rewrite trim_id by by apply no_gt_no_arrow. eauto.
Qed.

(** The package that is selected matches by route and by segment. *)
Lemma elem_of_filter_list {A} (f : A → bool) x l : x ∈ List.filter f l ↔ x ∈ l ∧ f x = true.
Proof. by rewrite !list_elem_of_In, filter_In. Qed.

Lemma select_package_scope {D : DecimalLib} {U : UuidLib} byRoute segmentID amount p :
  select_package byRoute segmentID amount = Ok (Some p) → p ∈ byRoute ∧ matches_segment segmentID p = true.
Proof.
  unfold select_package. rewrite <- elem_of_filter_list.
  fold (filterBySegmentID byRoute segmentID).
  destruct (filterBySegmentID byRoute segmentID) as [|q [|q' l]]; [done|intros [= <-]; by left|].
  destruct (filterByAmount (q :: q' :: l) amount) as [|r [|r' l']] eqn:E; [done| |done]. intros [= <-].
  assert (r ∈ filterByAmount (q :: q' :: l) amount) as Hr by (rewrite E; by left).
  by apply elem_of_filter_list in Hr as [Hr _].
Qed.

Lemma find_package_scope {D : DecimalLib} {U : UuidLib} packages route segmentID amount p :
  FindPackageToCalculateFee packages route segmentID amount = Ok (Some p) →
  p ∈ packages ∧ matches_route route p = true ∧ (pk_SegmentID p = None ∨ matches_segment segmentID p = true).
Proof.
  intros H. assert (p ∈ filterByTransactionRoute packages route
    ∧ (pk_SegmentID p = None ∨ matches_segment segmentID p = true)) as [Hp Hs];
    [|apply elem_of_filter_list in Hp; naive_solver].
  revert H. unfold FindPackageToCalculateFee.
  destruct (filterByTransactionRoute packages route) as [|q [|q' l]]; [done| |].
  - destruct (pk_SegmentID q) eqn:E; [|intros [= <-]; split; [by left|by left]].
    intros [??]%select_package_scope. auto.
  - intros [??]%select_package_scope. auto.
Qed.

(** Rebuilding the entries loses where they were to be posted.  After
    [CalculateFee] the create path fills in default balance keys, so every entry of
    the charged transaction, the client's own included, is posted to the balance
    "default" of its account, without its route identifier or its description. *)
Theorem fees_reset_balance_keys {D : DecimalLib} {DT : DecimalText} {U : UuidLib} {P : UuidParse}
    (range : nat → nat → gmap string Amount → list (string * Amount)) tx p from to cur resolver tx' n m :
  CalculateFee range tx p from to cur resolver = Ok (tx', n, m) →
  Forall (λ e, ft_BalanceKey e = DefaultBalanceKey ∧ ft_RouteID e = None ∧ ft_Description e = "")
    (src_From (send_Source (tx_Send (normalize_send tx'))) ++
     dst_To (send_Distribute (tx_Send (normalize_send tx')))).
Proof.
  unfold CalculateFee. intros ([al segIDs] & _ & H)%rbind_Ok.
  apply rbind_Ok in H as (st & Hst & [= <- <- <-]). unfold normalize_send. simpl.
  assert (∀ l (f : FromTo → FromTo),
    (∀ e, ft_BalanceKey (f e) = ft_BalanceKey e ∧ ft_RouteID (f e) = ft_RouteID e
          ∧ ft_Description (f e) = ft_Description e) →
    Forall (λ e, ft_BalanceKey e = DefaultBalanceKey ∧ ft_RouteID e = None ∧ ft_Description e = "")
      (MutateConcatAliases (ApplyDefaultBalanceKeys (map f (map entry_of_leg l))))) as Hall.
  { intros l f Hf. unfold MutateConcatAliases, ApplyDefaultBalanceKeys. rewrite !map_map.
    apply Forall_lookup. intros i e. rewrite list_lookup_imap, list_lookup_fmap.
    intros He. apply fmap_Some in He as (e0 & He0 & ->). apply fmap_Some in He0 as ([k a] & _ & ->).
    destruct (Hf (entry_of_leg (k, a))) as (Hb & Hr & Hd).
    assert (ft_BalanceKey (entry_of_leg (k, a)) = "" ∧ ft_RouteID (entry_of_leg (k, a)) = None
            ∧ ft_Description (entry_of_leg (k, a)) = "") as (B & R & DD).
    { unfold entry_of_leg. by destruct (if strings_Contains k "->fee_source" then _ else _). }
    set (e := entry_of_leg (k, a)) in *. clearbody e.
    assert (bool_decide (ft_BalanceKey (f e) = "") = true) as ->
      by (apply bool_decide_eq_true_2; by rewrite Hb).
    destruct (negb _); simpl; rewrite Hr, Hd; done. }
  apply Forall_app. split; [by apply Hall|].
  specialize (Hall (range 0 7 (fs_To st)) id). rewrite map_id in Hall. by apply Hall.
Qed.

(** A fee is charged only by a package whose scope the transaction matches: its
    route, its segment when it has one, and its range of amounts. *)
Theorem charged_package_in_scope {D : DecimalLib} {DT : DecimalText} {U : UuidLib} {P : UuidParse}
    (range : nat → nat → gmap string Amount → list (string * Amount)) packages resolver cur segmentID tx resp tx' :
  calculateFeeForPackages range packages resolver cur segmentID tx resp = Ok tx' →
  tx' = tx ∨
  ∃ p, p ∈ packages ∧ matches_route (tx_Route tx) p = true
    ∧ (pk_SegmentID p = None ∨ matches_segment segmentID p = true)
    ∧ isTransactionValueBetweenMaxAndMinAmountPackage p (send_Value (tx_Send tx)) = true
    ∧ ∃ charged, CalculateFee range tx p (resp_From resp) (resp_To resp) cur resolver = Ok charged
        ∧ tx_Send tx' = tx_Send charged.1.1.
Proof.
  unfold calculateFeeForPackages. intros (sel & Hsel & H)%rbind_Ok.
  destruct sel as [p|]; [|injection H as <-; by left].
  destruct (dge (send_Value (tx_Send tx)) (pk_MinimumAmount p)) eqn:E1; simpl in H; [|injection H as <-; by left].
  destruct (dle (send_Value (tx_Send tx)) (pk_MaximumAmount p)) eqn:E2; simpl in H; [|injection H as <-; by left].
  apply rbind_Ok in H as ([[c nf] nt] & Hc & [= <-]). right. exists p.
  assert (p ∈ packages ∧ matches_route (tx_Route tx) p = true
          ∧ (pk_SegmentID p = None ∨ matches_segment segmentID p = true)) as (Hp & Hr & Hs).
  { apply find_package_scope in Hsel. done. }
  split_and!; [done|done|done| |].
  - unfold isTransactionValueBetweenMaxAndMinAmountPackage. by rewrite E1, E2.
  - eexists. by split.
Qed.

(** A second package can switch a fee off.  A package without a segment is charged
    to a source with a segment as long as it is the only one for the route; with a
    second one (say, for another range of amounts) the filter by segment drops both
    and nothing is charged. *)
Theorem second_package_drops_fee {D : DecimalLib} {U : UuidLib} (p q : Package) route s amount :
  matches_route route p = true → matches_route route q = true →
  pk_SegmentID p = None → pk_SegmentID q = None →
  FindPackageToCalculateFee [p] route (Some s) amount = Ok (Some p) ∧
  FindPackageToCalculateFee [p; q] route (Some s) amount = Ok None.
Proof.
  intros Hp Hq Sp Sq.
  unfold FindPackageToCalculateFee, filterByTransactionRoute, select_package, filterBySegmentID. simpl.
  rewrite Hp, Hq, Sp. simpl. unfold matches_segment. by rewrite ?Sp, ?Sq.
Qed.

(** ** Samples *)

#[local] Existing Instances Fixed.lib FixedText.text FourIds.lib FourIds.parse.

Module FeeSample.
Definition order (i loop : nat) (m : gmap string (@Amount Fixed.lib)) := map_to_list m.
Definition fee (label rule type value credit : string) (deductible : bool) (priority : Z) : Fee :=
  mkFee label (mkCalculationModel rule [mkCalculation type value]) "originalAmount" priority
    (Some deductible) credit None None.
Definition package (fees : list Fee) : @Package Fixed.lib FourIds.lib :=
  mkPackage (U := FourIds.lib) (true, true) "standard" None None (false, true) None (fx 0 0) (fx 1000 0)
    (Some ["@vip"]) fees (Some true) 0 0 None.
(** 1% from the sources and a flat 10 out of the destinations. *)
Definition fees : list Fee :=
  [fee "service" "flatFee" "flat" "10" "@fees" true 2; fee "admin" "percentual" "percentage" "1" "@fees" false 1].

Definition source_entry : @FromTo Fixed.lib :=
  mkFromTo "@alice" "food" (Some (mkAmount "USD" (fx 100 0) (OpOther "") (StatusOther "") DirectionEmpty false (fx 0 0)))
    None "" None "lunch" "" ∅ true "" (Some "route-1").
Definition target_entry (alias : string) (v : Z) : @FromTo Fixed.lib :=
  mkFromTo alias "default" (Some (mkAmount "USD" (fx v 0) (OpOther "") (StatusOther "") DirectionEmpty false (fx 0 0)))
    None "" None "" "" ∅ false "" None.
Definition payload : @Transaction Fixed.lib :=
  mkTransaction "" "" "" false ∅ "" None None
    (mkSend "USD" (fx 100 0) (mkSource "" [source_entry])
       (mkDistribute "" [target_entry "@bob" 70; target_entry "@carol" 30])) None "".
Definition from : gmap string (@Amount Fixed.lib) := {["@alice" := plain_amount "USD" (fx 100 0)]}.
Definition to : gmap string (@Amount Fixed.lib) :=
  {["@bob" := plain_amount "USD" (fx 70 0); "@carol" := plain_amount "USD" (fx 30 0)]}.
Definition charged := CalculateFee order payload (package fees) from to "" None.
End FeeSample.

Lemma fee_engine_conserves_witness :
  match FeeSample.charged with
  | Ok (tx', _, _) =>
      dequal (send_Value (tx_Send tx')) (fx 101 0) = true ∧
      length (dst_To (send_Distribute (tx_Send tx'))) = 5%nat ∧
      (entries_sum (dst_To (send_Distribute (tx_Send tx'))) == dval (send_Value (tx_Send tx')))%Q
  | Err _ => False
  end.
Proof.
  assert (match FeeSample.charged with
          | Ok (tx', _, _) => dequal (send_Value (tx_Send tx')) (fx 101 0)
                              && (length (dst_To (send_Distribute (tx_Send tx'))) =? 5)%nat
          | Err _ => false end = true) as H by (vm_compute; reflexivity).
  destruct FeeSample.charged as [[[tx' n] m]|] eqn:E; [|discriminate H].
  apply andb_prop in H as [H1 H2%Nat.eqb_eq]. split; [exact H1|]. split; [exact H2|].
  refine (proj2 (fee_engine_conserves FeeSample.order FeeSample.payload (FeeSample.package FeeSample.fees)
    FeeSample.from FeeSample.to "" None tx' n m _ _ _ _ _ E)).
  - intros. reflexivity.
  - intros k a Hk. unfold FeeSample.from in Hk. apply lookup_singleton_Some in Hk as [<- <-]. split; [reflexivity|vm_compute; discriminate].
  - intros k a Hk. unfold FeeSample.to in Hk.
    apply lookup_insert_Some in Hk as [[<- _]|[_ Hk]]; [reflexivity|].
    apply lookup_singleton_Some in Hk as [<- _]. reflexivity.
  - repeat constructor.
  - split; vm_compute; reflexivity.
Defined.

(** The entry for the balance "food" is posted to "default". *)
Lemma fees_reset_balance_keys_witness :
  ft_BalanceKey FeeSample.source_entry = "food" ∧
  match FeeSample.charged with
  | Ok (tx', _, _) =>
      Forall (λ e, ft_BalanceKey e = DefaultBalanceKey ∧ ft_RouteID e = None ∧ ft_Description e = "")
        (src_From (send_Source (tx_Send (normalize_send tx'))) ++
         dst_To (send_Distribute (tx_Send (normalize_send tx'))))
  | Err _ => False
  end.
Proof.
  split; [reflexivity|].
  assert (is_ok FeeSample.charged = true) as H by (vm_compute; reflexivity).
  destruct FeeSample.charged as [[[tx' n] m]|] eqn:E; [|discriminate H].
  exact (fees_reset_balance_keys FeeSample.order FeeSample.payload (FeeSample.package FeeSample.fees)
    FeeSample.from FeeSample.to "" None tx' n m E).
Defined.

Lemma second_package_drops_fee_witness :
  let p := FeeSample.package FeeSample.fees in
  FindPackageToCalculateFee [p] "" (Some (true, false)) (fx 50 0) = Ok (Some p) ∧
  FindPackageToCalculateFee [p; p] "" (Some (true, false)) (fx 50 0) = Ok None.
Proof.
  exact (second_package_drops_fee (FeeSample.package FeeSample.fees) (FeeSample.package FeeSample.fees) ""
    (true, false) (fx 50 0) eq_refl eq_refl eq_refl eq_refl).
Defined.

Definition sample_response : @Responses Fixed.lib :=
  mkResponses (fx 100 0) "USD" FeeSample.from FeeSample.to [] [] [] false "" None ∅ ∅.

Lemma charged_package_in_scope_witness :
  ∃ tx', calculateFeeForPackages FeeSample.order [FeeSample.package FeeSample.fees] None "" None
           FeeSample.payload sample_response = Ok tx'
    ∧ (tx' = FeeSample.payload ∨ ∃ p, p ∈ [FeeSample.package FeeSample.fees] ∧ matches_route "" p = true).
Proof.
  assert (is_ok (calculateFeeForPackages FeeSample.order [FeeSample.package FeeSample.fees] None "" None
           FeeSample.payload sample_response) = true) as H by (vm_compute; reflexivity).
  destruct (calculateFeeForPackages _ _ _ _ _ _ _) as [tx'|] eqn:E; [|discriminate H].
  exists tx'. split; [reflexivity|].
  destruct (charged_package_in_scope _ _ _ _ _ _ _ tx' E) as [Eq|(p & Hp & Hr & _)]; [left; exact Eq|].
  right. exists p. split; [exact Hp|exact Hr].
Defined.
