(* ===== verification/Billing.v ===== *)
(** * Billing calculators (components/ledger/pkg/fee/billing_calculator.go)

    Volume pricing: the free quota is subtracted from the events, one tier prices all
    of the rest, and the best discount tier is applied to the gross amount. *)

From Stdlib Require Import QArith Qabs Lqa.
From stdpp Require Import base strings list numbers sets.
From S2P Require Import Prelude Decimals.

Local Open Scope list_scope.

Section Billing.
Context {D : DecimalLib}.

Record PricingTier := mkPricingTier {
  pt_MinQuantity : Z; pt_MaxQuantity : option Z; pt_UnitPrice : dec }.
Record DiscountTier := mkDiscountTier { dt_MinQuantity : Z; dt_DiscountPercentage : dec }.
Record DiscountDetail := mkDiscountDetail {
  dd_DiscountPercentage : dec; dd_DiscountAmount : dec; dd_MinQuantity : Z }.

Inductive BillingError := NoTiers | NoMatchingTier.

Definition eventFallsInTier (billableEvents : Z) (tier : PricingTier) : bool :=
  if (billableEvents <? pt_MinQuantity tier)%Z then false
  else match pt_MaxQuantity tier with
       | Some mx => if (mx <? billableEvents)%Z then false else true
       | None => true
       end.

Fixpoint tiered_loop (billableEvents : Z) (tiers : list PricingTier) : result BillingError (dec * dec) :=
  match tiers with
  | [] => Err NoMatchingTier
  | tier :: tiers' =>
      if negb (eventFallsInTier billableEvents tier) then tiered_loop billableEvents tiers'
      else Ok (pt_UnitPrice tier, (dnew billableEvents * pt_UnitPrice tier)%dec)
  end.

Definition CalculateTiered (billableEvents : Z) (tiers : list PricingTier) : result BillingError (dec * dec) :=
  if (billableEvents <=? 0)%Z then Ok (dzero, dzero)
  else match tiers with [] => Err NoTiers | _ => tiered_loop billableEvents tiers end.

Definition ApplyFreeQuota (totalEvents freeQuota : Z) : Z :=
  if (totalEvents <=? 0)%Z then 0
  else if (freeQuota <=? 0)%Z then totalEvents
  else let billable := (totalEvents - freeQuota)%Z in
       if (billable <? 0)%Z then 0 else billable.

(** The loop for [bestIdx]; the best tier is kept in place of its index. *)
Definition best_step (totalEvents : Z) (best : option DiscountTier) (tier : DiscountTier)
  : option DiscountTier :=
  if (dt_MinQuantity tier <=? totalEvents)%Z then
    match best with
    | None => Some tier
    | Some b => if (dt_MinQuantity b <? dt_MinQuantity tier)%Z then Some tier else best
    end
  else best.

Definition ApplyDiscount (grossAmount : dec) (totalEvents : Z) (discountTiers : list DiscountTier)
  : dec * option DiscountDetail :=
  match fold_left (best_step totalEvents) discountTiers None with
  | None => (grossAmount, None)
  | Some tier =>
      let discountAmount := (grossAmount * dt_DiscountPercentage tier / dnew 100)%dec in
      ((grossAmount - discountAmount)%dec,
       Some (mkDiscountDetail (dt_DiscountPercentage tier) discountAmount (dt_MinQuantity tier)))
  end.

Definition CalculateFixed (billableEvents : Z) (unitPrice : dec) : dec :=
  if (billableEvents <=? 0)%Z then dzero else (dnew billableEvents * unitPrice)%dec.
End Billing.

Section Lemmas.
Context {D : DecimalLib}.

(** The best tier is an applicable one with the largest threshold. *)
Definition best_of (totalEvents : Z) (tiers : list DiscountTier) (best : option DiscountTier) : Prop :=
  match best with
  | None => ∀ t, t ∈ tiers → (totalEvents < dt_MinQuantity t)%Z
  | Some b => b ∈ tiers ∧ (dt_MinQuantity b <= totalEvents)%Z ∧
      ∀ t, t ∈ tiers → (dt_MinQuantity t <= totalEvents)%Z → (dt_MinQuantity t <= dt_MinQuantity b)%Z
  end.

Lemma best_fold totalEvents tiers :
  best_of totalEvents tiers (fold_left (best_step totalEvents) tiers None).
Proof.
  induction tiers as [|t tiers IH] using rev_ind; [by intros t ?%elem_of_nil|].
  rewrite fold_left_app. simpl. set (best := fold_left _ _ _) in *.
  unfold best_step. destruct (Z.leb_spec (dt_MinQuantity t) totalEvents).
  - destruct best as [b|]; simpl in *.
    + destruct IH as (Hb & Hle & Hmax). destruct (Z.ltb_spec (dt_MinQuantity b) (dt_MinQuantity t)); simpl.
      * split_and!; [set_solver|done|]. intros t' [Ht| ->%list_elem_of_singleton]%elem_of_app Hq; [|lia].
        specialize (Hmax t' Ht Hq). lia.
      * split_and!; [set_solver|done|]. intros t' [Ht| ->%list_elem_of_singleton]%elem_of_app Hq; [auto|lia].
    + split_and!; [set_solver|done|]. intros t' [Ht| ->%list_elem_of_singleton]%elem_of_app Hq; [|lia].
      specialize (IH t' Ht). lia.
  - destruct best as [b|]; simpl in *.
    + destruct IH as (Hb & Hle & Hmax). split_and!; [set_solver|done|].
      intros t' [Ht| ->%list_elem_of_singleton]%elem_of_app Hq; [auto|lia].
    + intros t' [Ht| ->%list_elem_of_singleton]%elem_of_app; [auto|lia].
Qed.
End Lemmas.

(** ** Properties *)

(** A bill is priced as documented.  The billable events are the events beyond the
    free quota, never negative; the discount is the one of the largest applicable
    threshold, and the net amount and the discount reported add up exactly to the
    gross amount, the discount being the percentage of the gross amount up to half a
    unit of the sixteenth decimal place. *)
Theorem bill_correct {D : DecimalLib} {DL : DecimalLaws} total quota gross tiers :
  ApplyFreeQuota total quota = Z.max 0 (total - Z.max 0 quota) ∧
  let '(net, detail) := ApplyDiscount gross total tiers in
  match detail with
  | None => net = gross ∧ ∀ t, t ∈ tiers → (total < dt_MinQuantity t)%Z
  | Some d =>
      (dval net + dval (dd_DiscountAmount d) == dval gross)%Q
      ∧ (Qabs (dval (dd_DiscountAmount d) - dval gross * dval (dd_DiscountPercentage d) / 100)
           <= (1 # 2) * ulp)%Q
      ∧ (dd_MinQuantity d <= total)%Z
      ∧ (∃ t, t ∈ tiers ∧ dt_MinQuantity t = dd_MinQuantity d ∧ dt_DiscountPercentage t = dd_DiscountPercentage d)
      ∧ ∀ t, t ∈ tiers → (dt_MinQuantity t <= total)%Z → (dt_MinQuantity t <= dd_MinQuantity d)%Z
  end.
Proof.
  split.
  { unfold ApplyFreeQuota. repeat case_match; lia. }
  unfold ApplyDiscount. pose proof (best_fold total tiers) as Hb.
  destruct (fold_left (best_step total) tiers None) as [b|]; simpl in *; [|done].
  destruct Hb as (Hin & Hle & Hmax). split_and!; [|..|done|by exists b|done].
  - rewrite dval_sub. lra.
  - assert (¬ dval (dnew 100) == 0)%Q as Hn by (rewrite dval_new; discriminate).
    pose proof (dval_div_round (gross * dt_DiscountPercentage b)%dec (dnew 100) Hn) as H.
    by rewrite dval_mul, dval_new in H.
Qed.
