(* ===== verification/GoTime.v ===== *)
(** * Go's time package

    Instants, the proleptic Gregorian calendar and the few formats the tracer
    uses, as the standard library documents them.  A [time.Time] in UTC is the
    number of nanoseconds since the zero time, 0001-01-01 00:00:00, a Monday; the
    conversions to UTC of the code are then the identity.  The calendar lemmas
    ([dby_year_of_days], [date_of_days_spec], [days_of_date_of_days]) are what the
    limit periods rely on. *)

From stdpp Require Import base strings.
From Stdlib Require Import ZArith Lia Bool Ascii.
From S2P Require Import Prelude GoStrings.
Local Open Scope string_scope.
Local Open Scope Z_scope.

(** ** Instants and durations *)

Definition time : Type := Z.
Definition Second : Z := 1000000000.
Definition Minute : Z := 60 * Second.
Definition Hour : Z := 60 * Minute.
Definition Day : Z := 24 * Hour.

Definition time_IsZero (t : time) : bool := t =? 0.
Definition time_Before (t u : time) : bool := t <? u.
Definition time_After (t u : time) : bool := u <? t.

(** [t.Truncate(d)]: down to a multiple of [d] since the zero time. *)
Definition time_Truncate (t : time) (d : Z) : time := t - t mod d.

(** [t.Hour()] and [t.Minute()] *)
Definition time_Hour (t : time) : Z := (t mod Day) / Hour.
Definition time_Minute (t : time) : Z := (t mod Hour) / Minute.

(** The day an instant falls on, counted from the zero time. *)
Definition day_number (t : time) : Z := t / Day.

(** [t.Weekday()], Sunday = 0 *)
Definition weekday_of_day (d : Z) : Z := (d + 1) mod 7.
Definition time_Weekday (t : time) : Z := weekday_of_day (day_number t).

(** ** The calendar *)

Definition is_leap (y : Z) : bool :=
  (y mod 4 =? 0) && (negb (y mod 100 =? 0) || (y mod 400 =? 0)).

(** Days from the zero time to January 1 of year [y]. *)
Definition days_before_year (y : Z) : Z :=
  365 * (y - 1) + (y - 1) / 4 - (y - 1) / 100 + (y - 1) / 400.

Definition year_length (y : Z) : Z := if is_leap y then 366 else 365.

(** Days of a year before its [m]-th month, months counted from 0; 12 gives the
    length of the year. *)
Definition days_before_month (y m : Z) : Z :=
  let leap := if is_leap y then 1 else 0 in
  if m <=? 0 then 0 else if m =? 1 then 31 else
  leap + (if m =? 2 then 59 else if m =? 3 then 90 else if m =? 4 then 120 else
          if m =? 5 then 151 else if m =? 6 then 181 else if m =? 7 then 212 else
          if m =? 8 then 243 else if m =? 9 then 273 else if m =? 10 then 304 else
          if m =? 11 then 334 else 365).

(** The year a day falls in: an estimate by the mean length of a year, corrected
    by at most one year each way. *)
Definition year_of_day (d : Z) : Z :=
  let e := 400 * d / 146097 + 1 in
  if d <? days_before_year e then e - 1
  else if days_before_year (e + 1) <=? d then e + 1 else e.

(** The month, from 0, of the [n]-th day of year [y]. *)
Definition month_of_yday (y n : Z) : Z :=
  if n <? 31 then 0 else if n <? days_before_month y 2 then 1 else
  if n <? days_before_month y 3 then 2 else if n <? days_before_month y 4 then 3 else
  if n <? days_before_month y 5 then 4 else if n <? days_before_month y 6 then 5 else
  if n <? days_before_month y 7 then 6 else if n <? days_before_month y 8 then 7 else
  if n <? days_before_month y 9 then 8 else if n <? days_before_month y 10 then 9 else
  if n <? days_before_month y 11 then 10 else 11.

(** [t.Date()]: year, month from 1 to 12, day of the month from 1. *)
Definition date_of_day (d : Z) : Z * Z * Z :=
  let y := year_of_day d in
  let n := d - days_before_year y in
  let m := month_of_yday y n in
  (y, m + 1, n - days_before_month y m + 1).
Definition time_Date_of (t : time) : Z * Z * Z := date_of_day (day_number t).

(** [time.Date]: months and days outside their range carry over. *)
Definition day_of_date (y m d : Z) : Z :=
  let y' := y + (m - 1) / 12 in
  days_before_year y' + days_before_month y' ((m - 1) mod 12) + d - 1.
Definition time_Date (y m d : Z) (since_midnight : Z) : time :=
  day_of_date y m d * Day + since_midnight.

(** [t.AddDate(years, months, days)] *)
Definition time_AddDate (t : time) (years months days : Z) : time :=
  let '(y, m, d) := time_Date_of t in
  time_Date (y + years) (m + months) (d + days) (t mod Day).

(** [t.ISOWeek()]: the year and week of the Thursday of the week, which starts on
    Monday. *)
Definition monday_of_day (d : Z) : Z := d - d mod 7.
Definition iso_week_of_day (d : Z) : Z * Z :=
  let thursday := monday_of_day d + 3 in
  let y := year_of_day thursday in
  (y, (thursday - days_before_year y) / 7 + 1).
Definition time_ISOWeek (t : time) : Z * Z := iso_week_of_day (day_number t).

(** ** Formats *)

Definition digit_char (n : Z) : Ascii.ascii := Ascii.ascii_of_nat (48 + Z.to_nat n).

(** ["%d"] *)
Definition fmt_d (n : Z) : string :=
  if n <? 0 then "-" +:+ strconv_Itoa (Z.to_nat (- n)) else strconv_Itoa (Z.to_nat n).

(** ["%02d"] *)
Definition fmt_02d (n : Z) : string :=
  if (0 <=? n) && (n <? 100)
  then String (digit_char (n / 10)) (String (digit_char (n mod 10)) "")
  else fmt_d n.

(** The year of a layout, four digits at least. *)
Definition fmt_year (n : Z) : string :=
  if (0 <=? n) && (n <? 10000)
  then String (digit_char (n / 1000)) (String (digit_char (n / 100 mod 10))
       (String (digit_char (n / 10 mod 10)) (String (digit_char (n mod 10)) "")))
  else fmt_d n.

(** [t.Format("2006-01-02")] and [t.Format("2006-01")] *)
Definition format_day (t : time) : string :=
  let '(y, m, d) := time_Date_of t in
  fmt_year y +:+ "-" +:+ fmt_02d m +:+ "-" +:+ fmt_02d d.
Definition format_month (t : time) : string :=
  let '(y, m, _) := time_Date_of t in fmt_year y +:+ "-" +:+ fmt_02d m.

Definition digit_value (c : Ascii.ascii) : option Z :=
  if is_digit c then Some (Z.of_nat (Ascii.nat_of_ascii c) - 48) else None.

(** [getnum(s, fixed)]: one or two digits, two when [fixed]. *)
Definition getnum (s : string) (fixed : bool) : option (Z * string) :=
  match s with
  | String a s1 =>
      match digit_value a with
      | None => None
      | Some x =>
          match s1 with
          | String b s2 =>
              match digit_value b with
              | Some y => Some (10 * x + y, s2)
              | None => if fixed then None else Some (x, s1)
              end
          | EmptyString => if fixed then None else Some (x, s1)
          end
      end
  | EmptyString => None
  end.

(** [time.Parse("15:04", s)], the hour and minute it yields. *)
Definition parse_15_04 (s : string) : option (Z * Z) :=
  match getnum s false with
  | Some (h, String c s1) =>
      if (h <? 24) && bool_decide (c = ":"%char) then
        match getnum s1 true with
        | Some (m, EmptyString) => if m <? 60 then Some (h, m) else None
        | _ => None
        end
      else None
  | _ => None
  end.

(** ** Calendar lemmas *)

Lemma year_length_spec y : days_before_year (y + 1) = days_before_year y + year_length y.
Proof.
  unfold days_before_year, year_length, is_leap.
  replace (y + 1 - 1) with y by lia.
  destruct (Z.eqb_spec (y mod 4) 0), (Z.eqb_spec (y mod 100) 0), (Z.eqb_spec (y mod 400) 0);
    cbn [andb orb negb]; Z.to_euclidean_division_equations; lia.
Qed.

Lemma year_length_bounds y : 365 <= year_length y <= 366.
Proof. unfold year_length. destruct (is_leap y); lia. Qed.

Lemma days_before_year_mono y y' : y <= y' → days_before_year y <= days_before_year y'.
Proof.
  intros Hy. pattern y'. apply (Zlt_lower_bound_ind _ y); [|done].
  intros x IH Hx. destruct (decide (x = y)) as [->|Hne]; [lia|].
  specialize (IH (x - 1) ltac:(lia)).
  pose proof (year_length_spec (x - 1)) as Hs. pose proof (year_length_bounds (x - 1)).
  replace (x - 1 + 1) with x in Hs by lia. lia.
Qed.

(** The year of a day is the one whose first day is the last first of January. *)
Lemma year_of_day_spec d :
  days_before_year (year_of_day d) <= d < days_before_year (year_of_day d + 1).
Proof.
  unfold year_of_day. set (e := 400 * d / 146097 + 1).
  assert (days_before_year (e - 1) <= d) as H1.
  { unfold days_before_year, e. Z.to_euclidean_division_equations. lia. }
  assert (d < days_before_year (e + 2)) as H2.
  { unfold days_before_year, e. Z.to_euclidean_division_equations. lia. }
  destruct (Z.ltb_spec d (days_before_year e)).
  - replace (e - 1 + 1) with e by lia. lia.
  - destruct (Z.leb_spec (days_before_year (e + 1)) d); [|lia].
    replace (e + 1 + 1) with (e + 2) by lia. lia.
Qed.

Lemma year_of_day_unique d y :
  days_before_year y <= d < days_before_year (y + 1) → year_of_day d = y.
Proof.
  intros Hy. pose proof (year_of_day_spec d) as Hs.
  destruct (Z.lt_trichotomy (year_of_day d) y) as [Hlt|[->|Hlt]]; [|done|].
  - pose proof (days_before_year_mono (year_of_day d + 1) y ltac:(lia)). lia.
  - pose proof (days_before_year_mono (y + 1) (year_of_day d) ltac:(lia)). lia.
Qed.

Lemma year_of_day_mono d d' : d <= d' → year_of_day d <= year_of_day d'.
Proof.
  intros Hd. pose proof (year_of_day_spec d) as Hs. pose proof (year_of_day_spec d') as Hs'.
  destruct (Z.le_gt_cases (year_of_day d) (year_of_day d')) as [|Hgt]; [done|].
  pose proof (days_before_year_mono (year_of_day d' + 1) (year_of_day d) ltac:(lia)). lia.
Qed.

Lemma month_of_yday_spec y n :
  0 <= n < year_length y →
  0 <= month_of_yday y n < 12 ∧
  days_before_month y (month_of_yday y n) <= n < days_before_month y (month_of_yday y n + 1).
Proof.
  unfold year_length, month_of_yday, days_before_month. destruct (is_leap y); intros Hn;
    repeat match goal with
           | |- context [if (n <? ?k) then _ else _] => destruct (Z.ltb_spec n k)
           end; simpl in *; lia.
Qed.

Lemma days_before_month_12 y : days_before_month y 12 = year_length y.
Proof. unfold days_before_month, year_length. by destruct (is_leap y). Qed.

Lemma days_before_month_0 y : days_before_month y 0 = 0.
Proof. reflexivity. Qed.

(** Months are 28 to 31 days long. *)
Lemma month_length y m :
  0 <= m < 12 →
  days_before_month y m + 28 <= days_before_month y (m + 1) <= days_before_month y m + 31.
Proof.
  intros Hm.
  assert (m = 0 ∨ m = 1 ∨ m = 2 ∨ m = 3 ∨ m = 4 ∨ m = 5 ∨ m = 6 ∨ m = 7 ∨ m = 8 ∨ m = 9 ∨
          m = 10 ∨ m = 11) as Hc by lia.
  unfold days_before_month. destruct (is_leap y); destruct_or?; subst m; simpl; lia.
Qed.

Lemma days_before_month_mono y m m' :
  0 <= m <= m' → m' <= 12 → days_before_month y m <= days_before_month y m'.
Proof.
  intros Hm Hm'. revert Hm'. pattern m'. apply (Zlt_lower_bound_ind _ m); [|lia].
  intros x IH Hx Hx12. destruct (decide (x = m)) as [->|Hne]; [lia|].
  specialize (IH (x - 1) ltac:(lia) ltac:(lia)).
  pose proof (month_length y (x - 1) ltac:(lia)) as Hl.
  replace (x - 1 + 1) with x in Hl by lia. lia.
Qed.

(** [t.Date()] inverts [time.Date], and its parts are in range. *)
Lemma date_of_day_spec d y m k :
  date_of_day d = (y, m, k) →
  y = year_of_day d ∧ 1 <= m <= 12 ∧ 1 <= k <= 31 ∧
  days_before_year y + days_before_month y (m - 1) <= d
    < days_before_year y + days_before_month y m ∧
  k = d - (days_before_year y + days_before_month y (m - 1)) + 1.
Proof.
  unfold date_of_day. intros [= <- <- <-].
  pose proof (year_of_day_spec d) as Hy. pose proof (year_length_spec (year_of_day d)) as Hl.
  pose proof (month_of_yday_spec (year_of_day d) (d - days_before_year (year_of_day d))
                ltac:(lia)) as [Hm Hk].
  pose proof (month_length (year_of_day d) _ Hm).
  replace (month_of_yday _ _ + 1 - 1) with
    (month_of_yday (year_of_day d) (d - days_before_year (year_of_day d))) by lia.
  split_and!; [done|lia..].
Qed.

Lemma day_of_date_month y m :
  1 <= m <= 12 → day_of_date y m 1 = days_before_year y + days_before_month y (m - 1).
Proof.
  intros Hm. unfold day_of_date. rewrite Z.div_small, Z.mod_small by lia.
  replace (y + 0) with y by lia. lia.
Qed.

Lemma day_of_date_next_month y m :
  1 <= m <= 12 → day_of_date y (m + 1) 1 = days_before_year y + days_before_month y m.
Proof.
  intros Hm. destruct (decide (m = 12)) as [->|Hne].
  - unfold day_of_date. change ((12 + 1 - 1) / 12) with 1. change ((12 + 1 - 1) mod 12) with 0.
    rewrite year_length_spec, days_before_month_0, days_before_month_12. lia.
  - rewrite day_of_date_month by lia. by replace (m + 1 - 1) with m by lia.
Qed.

Lemma day_of_date_of_day d y m k :
  date_of_day d = (y, m, k) → day_of_date y m k = d.
Proof.
  intros (-> & Hm & _ & _ & ->)%date_of_day_spec.
  unfold day_of_date. rewrite Z.div_small, Z.mod_small by lia.
  replace (year_of_day d + 0) with (year_of_day d) by lia. lia.
Qed.

(** Adding days to a date adds days to the instant. *)
Lemma time_AddDate_days t n : time_AddDate t 0 0 n = t + n * Day.
Proof.
  unfold time_AddDate. destruct (time_Date_of t) as [[y m] k] eqn:E.
  unfold time_Date_of in E. apply day_of_date_of_day in E.
  unfold time_Date. replace (day_of_date (y + 0) (m + 0) (k + n)) with (day_number t + n).
  - unfold day_number. unfold Day, Hour, Minute, Second.
    pose proof (Z.div_mod t (24 * (60 * (60 * 1000000000))) ltac:(lia)). lia.
  - rewrite !Z.add_0_r. rewrite <- E. unfold day_of_date. lia.
Qed.

Lemma Day_pos : 0 < Day.
Proof. reflexivity. Qed.

Lemma time_Truncate_day t : time_Truncate t (24 * Hour) = day_number t * Day.
Proof.
  unfold time_Truncate, day_number. change (24 * Hour) with Day.
  pose proof (Z.div_mod t Day ltac:(discriminate)). lia.
Qed.

Lemma day_number_spec t : day_number t * Day <= t < (day_number t + 1) * Day.
Proof.
  unfold day_number. pose proof (Z.div_mod t Day ltac:(discriminate)).
  pose proof (Z.mod_pos_bound t Day Day_pos). lia.
Qed.

(** The months of a calendar follow one another: a month that starts at or before
    the end of another is the same or an earlier one. *)
Lemma month_order y m y' m' :
  1 <= m <= 12 → 1 <= m' <= 12 →
  days_before_year y + days_before_month y (m - 1)
    < days_before_year y' + days_before_month y' m' →
  y < y' ∨ (y = y' ∧ m <= m').
Proof.
  intros Hm Hm' Hlt. destruct (Z.lt_trichotomy y y') as [|[->|Hgt]]; [by left| |exfalso].
  - right. split; [done|]. destruct (Z.le_gt_cases m m'); [done|].
    pose proof (days_before_month_mono y' m' (m - 1) ltac:(lia) ltac:(lia)). lia.
  - pose proof (days_before_year_mono (y' + 1) y ltac:(lia)) as Hy.
    rewrite year_length_spec, <- days_before_month_12 in Hy.
    pose proof (days_before_month_mono y' m' 12 ltac:(lia) ltac:(lia)).
    pose proof (days_before_month_mono y 0 (m - 1) ltac:(lia) ltac:(lia)) as H0.
    rewrite days_before_month_0 in H0. lia.
Qed.

(** ** Lemmas on the formats *)

#[local] Arguments digit_char : simpl never.
#[local] Arguments digit_value : simpl never.
#[local] Arguments Z.div : simpl never.
#[local] Arguments Z.modulo : simpl never.

Lemma digit_char_inj a b : 0 <= a < 10 → 0 <= b < 10 → digit_char a = digit_char b → a = b.
Proof.
  intros Ha Hb E. apply (f_equal nat_of_ascii) in E. unfold digit_char in E.
  rewrite !nat_ascii_embedding in E by lia. lia.
Qed.

Lemma fmt_02d_inj a b : 0 <= a < 100 → 0 <= b < 100 → fmt_02d a = fmt_02d b → a = b.
Proof.
  intros Ha Hb. unfold fmt_02d.
  rewrite !(proj2 (Z.leb_le _ _)), !(proj2 (Z.ltb_lt _ _)) by lia. simpl.
  intros [= E1 E2]. apply digit_char_inj in E1, E2; [|Z.to_euclidean_division_equations; lia..].
  rewrite (Z.div_mod a 10), (Z.div_mod b 10) by lia. lia.
Qed.

Lemma fmt_02d_length a : 0 <= a < 100 → String.length (fmt_02d a) = 2%nat.
Proof.
  intros Ha. unfold fmt_02d.
  by rewrite (proj2 (Z.leb_le _ _)), (proj2 (Z.ltb_lt _ _)) by lia.
Qed.

Lemma fmt_year_inj a b : 0 <= a < 10000 → 0 <= b < 10000 → fmt_year a = fmt_year b → a = b.
Proof.
  intros Ha Hb. unfold fmt_year.
  rewrite !(proj2 (Z.leb_le _ _)), !(proj2 (Z.ltb_lt _ _)) by lia. simpl.
  intros [= E1 E2 E3 E4].
  assert (∀ x, 0 <= x mod 10 < 10) as Hd by (intros; by apply Z.mod_pos_bound).
  apply digit_char_inj in E1;
    [|split; [apply Z.div_pos|apply Z.div_lt_upper_bound]; lia..].
  apply digit_char_inj in E2, E3, E4; [|apply Hd..].
  pose proof (Z.div_mod a 10 ltac:(lia)). pose proof (Z.div_mod b 10 ltac:(lia)).
  pose proof (Z.div_mod (a / 10) 10 ltac:(lia)) as Ha2.
  pose proof (Z.div_mod (b / 10) 10 ltac:(lia)) as Hb2.
  pose proof (Z.div_mod (a / 100) 10 ltac:(lia)) as Ha3.
  pose proof (Z.div_mod (b / 100) 10 ltac:(lia)) as Hb3.
  rewrite Z.div_div in Ha2, Hb2, Ha3, Hb3 by lia.
  change (10 * 10) with 100 in *. change (100 * 10) with 1000 in *. lia.
Qed.

Lemma fmt_year_length a : 0 <= a < 10000 → String.length (fmt_year a) = 4%nat.
Proof.
  intros Ha. unfold fmt_year.
  by rewrite (proj2 (Z.leb_le _ _)), (proj2 (Z.ltb_lt _ _)) by lia.
Qed.

(** Texts of equal length before a separator are equal when the whole is. *)
Lemma app_length_inj (s t s' t' : string) :
  String.length s = String.length s' → s +:+ t = s' +:+ t' → s = s' ∧ t = t'.
Proof.
  revert s'; induction s as [|a s IH]; intros [|a' s']; simpl; [done..|].
  intros [= Hl] [= -> E]. by destruct (IH s' Hl E) as [-> ->].
Qed.

Lemma fmt_d_inj a b : 0 <= a → 0 <= b → fmt_d a = fmt_d b → a = b.
Proof.
  intros Ha Hb. unfold fmt_d. rewrite !(proj2 (Z.ltb_ge _ _)) by lia.
  intros E%Itoa_inj. lia.
Qed.

Lemma fmt_d_no_dash a : 0 <= a → contains_char "-"%char (fmt_d a) = false.
Proof.
  intros Ha. unfold fmt_d. rewrite (proj2 (Z.ltb_ge _ _)) by lia. by apply Itoa_no_char.
Qed.

Lemma digit_value_char a : 0 <= a < 10 → digit_value (digit_char a) = Some a.
Proof.
  intros Ha.
  assert (a = 0 ∨ a = 1 ∨ a = 2 ∨ a = 3 ∨ a = 4 ∨ a = 5 ∨ a = 6 ∨ a = 7 ∨ a = 8 ∨ a = 9)
    as Hc by lia.
  destruct_or?; subst a; reflexivity.
Qed.

Lemma getnum_02d a s fixed : 0 <= a < 100 → getnum (fmt_02d a +:+ s) fixed = Some (a, s).
Proof.
  intros Ha. unfold fmt_02d.
  rewrite (proj2 (Z.leb_le _ _)), (proj2 (Z.ltb_lt _ _)) by lia.
  cbn [andb]. rewrite !string_app_cons. change ("" +:+ s) with s. unfold getnum.
  rewrite !digit_value_char by (Z.to_euclidean_division_equations; lia).
  do 2 f_equal. pose proof (Z.div_mod a 10). lia.
Qed.

(** The zero-padded text of a time of day is read back. *)
Lemma parse_15_04_print h m :
  0 <= h < 24 → 0 <= m < 60 → parse_15_04 (fmt_02d h +:+ ":" +:+ fmt_02d m) = Some (h, m).
Proof.
  intros Hh Hm. unfold parse_15_04. rewrite getnum_02d by lia.
  change (":" +:+ fmt_02d m) with (String ":"%char (fmt_02d m)). cbn [fst snd].
  rewrite (proj2 (Z.ltb_lt h 24)) by lia. rewrite bool_decide_true by done. cbn [andb].
  pose proof (getnum_02d m "" true ltac:(lia)) as Hg. rewrite string_app_nil_r in Hg.
  rewrite Hg. by rewrite (proj2 (Z.ltb_lt m 60)) by lia.
Qed.

Lemma digit_value_range a x : digit_value a = Some x → 0 <= x < 10.
Proof.
  unfold digit_value, is_digit. destruct (_ && _)%bool eqn:E; [|done].
  intros [= <-]. apply andb_true_iff in E as [E1 E2].
  apply Nat.leb_le in E1, E2. lia.
Qed.

Lemma getnum_range s fixed n s' : getnum s fixed = Some (n, s') → 0 <= n < 100.
Proof.
  unfold getnum. destruct s as [|a [|b s2]]; [done|..]; simpl;
    destruct (digit_value a) eqn:Ea; try done;
    apply digit_value_range in Ea.
  - destruct fixed; [done|]. intros [= <- <-]. lia.
  - destruct (digit_value b) eqn:Eb.
    + apply digit_value_range in Eb. intros [= <- <-]. lia.
    + destruct fixed; [done|]. intros [= <- <-]. lia.
Qed.

Lemma parse_15_04_range s h m :
  parse_15_04 s = Some (h, m) → 0 <= h < 24 ∧ 0 <= m < 60.
Proof.
  unfold parse_15_04. destruct (getnum s false) as [[h' [|c s1]]|] eqn:E1; [done| |done].
  destruct ((h' <? 24) && _)%bool eqn:E2; [|done]. bool_facts.
  destruct (getnum s1 true) as [[m' [|]]|] eqn:E3; [|done..].
  destruct (m' <? 60) eqn:E4; [|done]. bool_facts.
  intros [= <- <-]. apply getnum_range in E1, E3. lia.
Qed.
