(* ===== verification/Limits.v ===== *)
(** * Spending limits of the tracer

    The domain model of src/components/tracer/pkg/model: scopes (scope.go),
    times of day (time_of_day.go), limits and usage counters (limit.go), and the
    keys under which usage is counted (check_limits.go).  A limit is created as a
    draft, activated, deactivated and deleted; it caps the amount that matching
    transactions may add up to in a day, a week, a month or a custom period, or
    the amount of a single transaction. *)

From stdpp Require Import base gmap strings list.
From Stdlib Require Import ZArith QArith Lia Ascii.
From S2P Require Import Prelude Decimals GoStrings CacheKeys GoTime.
Local Open Scope string_scope.
Local Open Scope list_scope.
Local Open Scope Z_scope.

(** The sentinels of pkg/constant/errors.go the tracer returns; [DbError] is a
    failure of the database or of another collaborator. *)
Inductive TracerError :=
  | ErrLimitNameRequired | ErrLimitNameTooLong | ErrLimitNameInvalidChars
  | ErrLimitDescriptionTooLong | ErrLimitDescriptionInvalidChars
  | ErrLimitInvalidType | ErrLimitInvalidMaxAmount | ErrLimitInvalidCurrency
  | ErrLimitInvalidScope | ErrLimitInvalidStatusChange | ErrLimitDeletedAtInvariant
  | ErrLimitTimeWindowMismatch | ErrLimitTimeWindowZeroWidth | ErrTimeOfDayInvalidFormat
  | ErrLimitCustomDatesRequired | ErrLimitCustomDatesOrder | ErrLimitCustomPeriodTooLong
  | ErrLimitCustomPeriodExpired | ErrLimitCustomDatesNotAllowed
  | ErrLimitNotFound | ErrLimitInvalidID | ErrLimitNilInput | ErrLimitAlreadyDeleted
  | ErrLimitInvalidCustomStartFormat | ErrLimitInvalidCustomEndFormat
  | ErrLimitInvalidStatusFilter | ErrLimitInvalidTypeFilter | ErrPaginationLimitInvalid
  | ErrPaginationLimitExceeded | ErrInvalidSortColumn | ErrInvalidSortOrder
  | ErrUsageCounterLimitIDRequired | ErrUsageCounterScopeKeyRequired
  | ErrUsageCounterPeriodKeyRequired | ErrUsageCounterCurrentUsageNegative
  | ErrUsageCounterIncrementNonNegative | ErrUsageCounterNotFound
  | ErrUsageCounterExceedsLimit
  | ErrCheckLimitsInvalidAmount | ErrCheckLimitsInvalidCurrency
  | ErrCheckLimitsUnknownLimitType | ErrCheckLimitsInvalidTimestamp
  | ErrCheckLimitsNilInput | ErrCheckLimitsInvalidAccountID
  | ErrCheckLimitsInvalidTransactionType | ErrCheckLimitsInvalidSubType
  | ErrCheckLimitsInvalidSegmentID | ErrCheckLimitsInvalidPortfolioID
  | ErrCheckLimitsInvalidMerchantID
  | ErrReservationLimitIDRequired | ErrReservationTransactionIDReq
  | ErrReservationScopeKeyRequired | ErrReservationPeriodKeyRequired
  | ErrReservationAmountInvalid | ErrReservationInvalidStatus
  | ErrReservationExpiresAtRequired | ErrReservationNotFound
  | ErrReservationAlreadyTerminal | ErrNilReservationTransationID
  | ErrNilReservationRequest
  | ErrRuleNameRequired | ErrRuleNameTooLong | ErrRuleExpressionRequired
  | ErrRuleExpressionTooLong | ErrRuleInvalidAction | ErrRuleDescriptionTooLong
  | ErrRuleInvalidScope | ErrRuleInvalidStatus | InvalidTransitionError (from to : string)
  | ErrRuleNotFound | ErrRuleNilInput | ErrExpressionNotModifiable
  | ErrRuleNameAlreadyExistsInCtx | ErrExpressionInvalid | ErrExpressionMissingKey
  | ErrExpressionRuntime | ErrRuleCacheNotReady
  | ErrInvalidDecision | ErrReasonRequired | ErrInvalidDefaultDecision
  | ErrNilValidationRequest | ErrContextCancelled
  | ErrValidationRequestIDRequired | ErrValidationInvalidTransactionType
  | ErrValidationAmountNonPositive | ErrValidationCurrencyRequired
  | ErrValidationInvalidCurrency | ErrValidationTimestampRequired
  | ErrValidationTimestampFuture | ErrValidationTimestampPast
  | ErrValidationAccountRequired | ErrValidationSubTypeTooLong
  | ErrValidationSegmentIDRequired | ErrValidationPortfolioIDRequired
  | ErrValidationInvalidAccountType | ErrValidationInvalidAccountStatus
  | ErrValidationMerchantIDRequired | ErrValidationInvalidMerchantCategory
  | ErrValidationInvalidMerchantCountry | ErrMetadataEntriesExceeded
  | ErrMetadataKeyLengthExceeded | ErrMetadataKeyInvalidChars
  | ErrDuplicateValidation | ErrTransactionValidationIDRequired
  | ErrTransactionValidationCreatedAtRequired | ErrTransactionValidationInvalid
  | DbError.

#[export] Instance TracerError_eq_dec : EqDecision TracerError.
Proof. solve_decision. Defined.

(** github.com/google/uuid: a nil value, and equality of the sixteen bytes. *)
Class UuidNil `{UuidLib} := {
  uuid_Nil : uuid;
  uuid_EqDecision :: EqDecision uuid;
  uuid_Countable :: Countable uuid }.

(** golang.org/x/text/currency: whether [ParseISO] knows the code. *)
Class CurrencyLib := { currency_ParseISO : string → bool }.

(** ** Scopes (scope.go) and transaction types (transaction.go) *)

Inductive TransactionType :=
  | TransactionTypeCard | TransactionTypeWire | TransactionTypePix | TransactionTypeCrypto
  | TransactionTypeOther (s : string).

#[export] Instance TransactionType_eq_dec : EqDecision TransactionType.
Proof. solve_decision. Defined.

Definition TransactionType_IsValid (t : TransactionType) : bool :=
  match t with
  | TransactionTypeCard | TransactionTypeWire | TransactionTypePix | TransactionTypeCrypto => true
  | TransactionTypeOther _ => false
  end.

Definition TransactionType_String (t : TransactionType) : string :=
  match t with
  | TransactionTypeCard => "CARD" | TransactionTypeWire => "WIRE"
  | TransactionTypePix => "PIX" | TransactionTypeCrypto => "CRYPTO"
  | TransactionTypeOther s => s
  end.

(** A nil pattern matches anything. *)
Definition ptrMatches {T} `{EqDecision T} (pattern value : option T) : bool :=
  match pattern, value with
  | None, _ => true
  | Some _, None => false
  | Some p, Some v => bool_decide (p = v)
  end.

Definition ptrMatchesFold (pattern value : option string) : bool :=
  match pattern, value with
  | None, _ => true
  | Some _, None => false
  | Some p, Some v => strings_EqualFold p v
  end.

Definition normalizeSubTypeRaw (s : option string) : option string :=
  (λ s, strings_ToLower (strings_TrimSpace s)) <$> s.

Section Scopes.
Context `{UuidNil}.

Record Scope := {
  sc_SegmentID : option uuid;
  sc_PortfolioID : option uuid;
  sc_AccountID : option uuid;
  sc_MerchantID : option uuid;
  sc_TransactionType : option TransactionType;
  sc_SubType : option string }.

#[export] Instance Scope_eq_dec : EqDecision Scope.
Proof. solve_decision. Defined.

Definition normalizeScopeSubType (s : Scope) : Scope := {|
  sc_SegmentID := sc_SegmentID s; sc_PortfolioID := sc_PortfolioID s;
  sc_AccountID := sc_AccountID s; sc_MerchantID := sc_MerchantID s;
  sc_TransactionType := sc_TransactionType s;
  sc_SubType := normalizeSubTypeRaw (sc_SubType s) |}.

(** A copy of a scope, normalised; values have no aliases in the model. *)
Definition cloneAndNormalizeScope (s : Scope) : Scope := normalizeScopeSubType s.

Definition is_nil {A} (p : option A) : bool := match p with None => true | Some _ => false end.

Definition Scope_IsEmpty (s : Scope) : bool :=
  is_nil (sc_SegmentID s) && is_nil (sc_PortfolioID s) && is_nil (sc_AccountID s) &&
  is_nil (sc_MerchantID s) && is_nil (sc_TransactionType s) && is_nil (sc_SubType s).

Definition Scope_Matches (s other : Scope) : bool :=
  ptrMatches (sc_AccountID s) (sc_AccountID other) &&
  ptrMatches (sc_SegmentID s) (sc_SegmentID other) &&
  ptrMatches (sc_PortfolioID s) (sc_PortfolioID other) &&
  ptrMatches (sc_MerchantID s) (sc_MerchantID other) &&
  ptrMatches (sc_TransactionType s) (sc_TransactionType other) &&
  ptrMatchesFold (sc_SubType s) (sc_SubType other).

(** The map handed to the expression evaluator, in insertion order. *)
Definition Scope_ToMap (s : Scope) : list (string * string) :=
  let put {A} k (f : A → string) (p : option A) :=
    match p with Some x => [(k, f x)] | None => [] end in
  put "segmentId" uuid_String (sc_SegmentID s) ++
  put "portfolioId" uuid_String (sc_PortfolioID s) ++
  put "accountId" uuid_String (sc_AccountID s) ++
  put "merchantId" uuid_String (sc_MerchantID s) ++
  put "transactionType" TransactionType_String (sc_TransactionType s) ++
  put "subType" (λ x, x) (sc_SubType s).

(** A limit or a rule with several scopes applies when one of them matches; with
    none it applies to every transaction (scope_matcher.go and limit_checker.go). *)
Definition RuleScopesMatch (ruleScopes : list Scope) (txScope : option Scope) : bool :=
  match ruleScopes, txScope with
  | [], _ => true
  | _, None => false
  | _, Some tx => existsb (λ s, Scope_Matches s tx) ruleScopes
  end.

End Scopes.

(** ** Times of day (time_of_day.go) *)

Record TimeOfDay := { tod_hour : Z; tod_minute : Z; tod_isValid : bool }.

#[export] Instance TimeOfDay_eq_dec : EqDecision TimeOfDay.
Proof. solve_decision. Defined.

Definition TimeOfDay_zero : TimeOfDay := {| tod_hour := 0; tod_minute := 0; tod_isValid := false |}.

Definition NewTimeOfDay (s : string) : result TracerError TimeOfDay :=
  match parse_15_04 (strings_TrimSpace s) with
  | Some (h, m) => Ok {| tod_hour := h; tod_minute := m; tod_isValid := true |}
  | None => Err ErrTimeOfDayInvalidFormat
  end.

Definition TimeOfDay_String (t : TimeOfDay) : string :=
  if tod_isValid t then fmt_02d (tod_hour t) +:+ ":" +:+ fmt_02d (tod_minute t) else "".

Definition MinutesSinceMidnight (t : TimeOfDay) : Z := tod_hour t * 60 + tod_minute t.

Definition TimeOfDay_Before (t other : TimeOfDay) : bool :=
  if negb (tod_isValid t) || negb (tod_isValid other) then false
  else MinutesSinceMidnight t <? MinutesSinceMidnight other.
Definition TimeOfDay_After (t other : TimeOfDay) : bool :=
  if negb (tod_isValid t) || negb (tod_isValid other) then false
  else MinutesSinceMidnight other <? MinutesSinceMidnight t.
Definition TimeOfDay_Equal (t other : TimeOfDay) : bool :=
  (MinutesSinceMidnight t =? MinutesSinceMidnight other) &&
  bool_decide (tod_isValid t = tod_isValid other).
Definition TimeOfDay_IsZero (t : TimeOfDay) : bool := negb (tod_isValid t).

Definition TimeOfDay_MarshalText (t : TimeOfDay) : string :=
  if negb (tod_isValid t) then "" else TimeOfDay_String t.
Definition TimeOfDay_UnmarshalText (text : string) : result TracerError TimeOfDay :=
  if bool_decide (text = "") then Ok TimeOfDay_zero else NewTimeOfDay text.

(** ** Limits (limit.go) *)

Inductive LimitType :=
  | LimitTypeDaily | LimitTypeMonthly | LimitTypePerTransaction | LimitTypeWeekly
  | LimitTypeCustom | LimitTypeOther (s : string).

Inductive LimitStatus :=
  | LimitStatusDraft | LimitStatusActive | LimitStatusInactive | LimitStatusDeleted
  | LimitStatusOther (s : string).

#[export] Instance LimitType_eq_dec : EqDecision LimitType.
Proof. solve_decision. Defined.
#[export] Instance LimitStatus_eq_dec : EqDecision LimitStatus.
Proof. solve_decision. Defined.

Definition LimitType_IsValid (t : LimitType) : bool :=
  match t with
  | LimitTypeDaily | LimitTypeMonthly | LimitTypePerTransaction | LimitTypeWeekly
  | LimitTypeCustom => true
  | LimitTypeOther _ => false
  end.

Definition LimitStatus_IsValid (s : LimitStatus) : bool :=
  match s with
  | LimitStatusDraft | LimitStatusActive | LimitStatusInactive | LimitStatusDeleted => true
  | LimitStatusOther _ => false
  end.

Definition CalculateResetAt (limitType : LimitType) (now : time) : option time :=
  match limitType with
  | LimitTypeDaily => Some (time_Truncate now (24 * Hour) + 24 * Hour)
  | LimitTypeMonthly =>
      let '(year, month, _) := time_Date_of now in Some (time_Date year (month + 1) 1 0)
  | LimitTypeWeekly =>
      let daysUntilMonday := (8 - time_Weekday now) mod 7 in
      let daysUntilMonday := if daysUntilMonday =? 0 then 7 else daysUntilMonday in
      Some (time_AddDate (time_Truncate now (24 * Hour)) 0 0 daysUntilMonday)
  | LimitTypePerTransaction => None
  | LimitTypeCustom => None
  | LimitTypeOther _ => None
  end.

Definition CalculateCustomResetAt (customEndDate : time) : option time :=
  Some (time_AddDate (time_Truncate customEndDate (24 * Hour)) 0 0 1).

Definition MaxNameLength : nat := 255.
Definition MaxDescriptionLength : nat := 1000.
Definition MaxSubTypeLength : nat := 50.
Definition MaxCustomPeriodYears : Z := 5.

(** [^[a-zA-Z0-9 \-_.()]+$] *)
Definition safe_name_char (a : ascii) : bool :=
  let n := nat_of_ascii a in
  ((65 <=? n)%nat && (n <=? 90)%nat) || ((97 <=? n)%nat && (n <=? 122)%nat) || is_digit a ||
  bool_decide (a = " "%char ∨ a = "-"%char ∨ a = "_"%char ∨ a = "."%char ∨ a = "("%char ∨
               a = ")"%char).
Definition safeNameRegex (s : string) : bool :=
  negb (bool_decide (s = "")) && all_chars safe_name_char s.

(** [^[^<>]*$] *)
Definition safeDescriptionRegex (s : string) : bool :=
  all_chars (λ a, negb (bool_decide (a = "<"%char ∨ a = ">"%char))) s.

Section LimitModel.
Context `{DecimalLib, UuidNil, CurrencyLib}.

Record Limit := {
  lim_ID : uuid;
  lim_Name : string;
  lim_Description : option string;
  lim_LimitType : LimitType;
  lim_MaxAmount : dec;
  lim_Currency : string;
  lim_Scopes : list Scope;
  lim_Status : LimitStatus;
  lim_ActiveTimeStart : option TimeOfDay;
  lim_ActiveTimeEnd : option TimeOfDay;
  lim_CustomStartDate : option time;
  lim_CustomEndDate : option time;
  lim_ResetAt : option time;
  lim_CreatedAt : time;
  lim_UpdatedAt : time;
  lim_DeletedAt : option time }.

(** pkg.IsValidCurrency (utils.go) *)
Definition IsValidCurrency (code : string) : bool :=
  all_chars (λ a, (65 <=? nat_of_ascii a)%nat && (nat_of_ascii a <=? 90)%nat) code &&
  currency_ParseISO code.

Definition guard_err (b : bool) (e : TracerError) : result TracerError unit :=
  if b then Err e else Ok tt.

Definition validateCurrency (currency : string) : result TracerError unit :=
  guard_err (negb (IsValidCurrency currency)) ErrLimitInvalidCurrency.

Definition validateScopes (scopes : list Scope) : result TracerError unit :=
  if bool_decide (length scopes = 0%nat) then Err ErrLimitInvalidScope else
  for_each (λ scope,
    if Scope_IsEmpty scope then Err ErrLimitInvalidScope else
    match sc_TransactionType scope with
    | Some ty => guard_err (negb (TransactionType_IsValid ty)) ErrLimitInvalidScope
    | None => Ok tt
    end) scopes.

Definition validateName (name : string) : result TracerError unit :=
  if bool_decide (strings_TrimSpace name = "") then Err ErrLimitNameRequired else
  if (MaxNameLength <? String.length name)%nat then Err ErrLimitNameTooLong else
  guard_err (negb (safeNameRegex name)) ErrLimitNameInvalidChars.

Definition validateMaxAmount (maxAmount : dec) : result TracerError unit :=
  guard_err (dle maxAmount dzero) ErrLimitInvalidMaxAmount.

Definition validateDescription (description : option string) : result TracerError unit :=
  match description with
  | None => Ok tt
  | Some d =>
      if (MaxDescriptionLength <? String.length d)%nat then Err ErrLimitDescriptionTooLong else
      guard_err (negb (safeDescriptionRegex d)) ErrLimitDescriptionInvalidChars
  end.

Definition ValidateTimeWindow (start end_ : option TimeOfDay) : result TracerError unit :=
  match start, end_ with
  | None, None => Ok tt
  | Some s, Some e => guard_err (TimeOfDay_Equal s e) ErrLimitTimeWindowZeroWidth
  | _, _ => Err ErrLimitTimeWindowMismatch
  end.

Definition ValidateCustomPeriod (limitType : LimitType) (startDate endDate : option time)
    (now : time) : result TracerError unit :=
  if bool_decide (limitType = LimitTypeCustom) then
    match startDate, endDate with
    | Some startUTC, Some endUTC =>
        if negb (time_After endUTC startUTC) then Err ErrLimitCustomDatesOrder else
        let maxEndDate := time_AddDate startUTC MaxCustomPeriodYears 0 0 in
        if time_After endUTC maxEndDate then Err ErrLimitCustomPeriodTooLong else
        guard_err (time_Before endUTC (time_Truncate now (24 * Hour))) ErrLimitCustomPeriodExpired
    | _, _ => Err ErrLimitCustomDatesRequired
    end
  else guard_err (negb (is_nil startDate) || negb (is_nil endDate)) ErrLimitCustomDatesNotAllowed.

(** [l.validateCustomPeriod()], which leaves the expiry check out. *)
Definition Limit_validateCustomPeriod (l : Limit) : result TracerError unit :=
  if bool_decide (lim_LimitType l = LimitTypeCustom) then
    match lim_CustomStartDate l, lim_CustomEndDate l with
    | Some startUTC, Some endUTC =>
        if negb (time_After endUTC startUTC) then Err ErrLimitCustomDatesOrder else
        let maxEndDate := time_AddDate startUTC MaxCustomPeriodYears 0 0 in
        guard_err (time_After endUTC maxEndDate) ErrLimitCustomPeriodTooLong
    | _, _ => Err ErrLimitCustomDatesRequired
    end
  else guard_err (negb (is_nil (lim_CustomStartDate l)) || negb (is_nil (lim_CustomEndDate l)))
         ErrLimitCustomDatesNotAllowed.

Definition Limit_validateDeletedAtInvariant (l : Limit) : result TracerError unit :=
  if bool_decide (lim_Status l = LimitStatusDeleted) && is_nil (lim_DeletedAt l)
  then Err ErrLimitDeletedAtInvariant else
  guard_err (negb (bool_decide (lim_Status l = LimitStatusDeleted)) &&
             negb (is_nil (lim_DeletedAt l))) ErrLimitDeletedAtInvariant.

Definition Limit_Validate (l : Limit) : result TracerError unit :=
  do! validateName (lim_Name l);;
  do! validateDescription (lim_Description l);;
  do! guard_err (negb (LimitType_IsValid (lim_LimitType l))) ErrLimitInvalidType;;
  do! validateMaxAmount (lim_MaxAmount l);;
  do! validateCurrency (lim_Currency l);;
  do! validateScopes (lim_Scopes l);;
  do! guard_err (negb (LimitStatus_IsValid (lim_Status l))) ErrLimitInvalidStatusChange;;
  do! ValidateTimeWindow (lim_ActiveTimeStart l) (lim_ActiveTimeEnd l);;
  do! Limit_validateCustomPeriod l;;
  Limit_validateDeletedAtInvariant l.

(** *** Constructors; [id] is the result of [uuid.New()] *)

Definition newLimitBase (id : uuid) (name : string) (limitType : LimitType) (maxAmount : dec)
    (currency : string) (scopes : list Scope) (description : option string)
    (createdAt : time) : Limit := {|
  lim_ID := id;
  lim_Name := strings_TrimSpace name;
  lim_Description := strings_TrimSpace <$> description;
  lim_LimitType := limitType;
  lim_MaxAmount := maxAmount;
  lim_Currency := strings_ToUpper (strings_TrimSpace currency);
  lim_Scopes := normalizeScopeSubType <$> scopes;
  lim_Status := LimitStatusDraft;
  lim_ActiveTimeStart := None; lim_ActiveTimeEnd := None;
  lim_CustomStartDate := None; lim_CustomEndDate := None;
  lim_ResetAt := None;
  lim_CreatedAt := createdAt; lim_UpdatedAt := createdAt;
  lim_DeletedAt := None |}.

Definition with_ResetAt (l : Limit) (v : option time) : Limit := {|
  lim_ID := lim_ID l; lim_Name := lim_Name l; lim_Description := lim_Description l;
  lim_LimitType := lim_LimitType l; lim_MaxAmount := lim_MaxAmount l;
  lim_Currency := lim_Currency l; lim_Scopes := lim_Scopes l; lim_Status := lim_Status l;
  lim_ActiveTimeStart := lim_ActiveTimeStart l; lim_ActiveTimeEnd := lim_ActiveTimeEnd l;
  lim_CustomStartDate := lim_CustomStartDate l; lim_CustomEndDate := lim_CustomEndDate l;
  lim_ResetAt := v; lim_CreatedAt := lim_CreatedAt l; lim_UpdatedAt := lim_UpdatedAt l;
  lim_DeletedAt := lim_DeletedAt l |}.
Definition with_ActiveTime (l : Limit) (s e : option TimeOfDay) : Limit := {|
  lim_ID := lim_ID l; lim_Name := lim_Name l; lim_Description := lim_Description l;
  lim_LimitType := lim_LimitType l; lim_MaxAmount := lim_MaxAmount l;
  lim_Currency := lim_Currency l; lim_Scopes := lim_Scopes l; lim_Status := lim_Status l;
  lim_ActiveTimeStart := s; lim_ActiveTimeEnd := e;
  lim_CustomStartDate := lim_CustomStartDate l; lim_CustomEndDate := lim_CustomEndDate l;
  lim_ResetAt := lim_ResetAt l; lim_CreatedAt := lim_CreatedAt l;
  lim_UpdatedAt := lim_UpdatedAt l; lim_DeletedAt := lim_DeletedAt l |}.
Definition with_CustomDates (l : Limit) (s e : option time) : Limit := {|
  lim_ID := lim_ID l; lim_Name := lim_Name l; lim_Description := lim_Description l;
  lim_LimitType := lim_LimitType l; lim_MaxAmount := lim_MaxAmount l;
  lim_Currency := lim_Currency l; lim_Scopes := lim_Scopes l; lim_Status := lim_Status l;
  lim_ActiveTimeStart := lim_ActiveTimeStart l; lim_ActiveTimeEnd := lim_ActiveTimeEnd l;
  lim_CustomStartDate := s; lim_CustomEndDate := e;
  lim_ResetAt := lim_ResetAt l; lim_CreatedAt := lim_CreatedAt l;
  lim_UpdatedAt := lim_UpdatedAt l; lim_DeletedAt := lim_DeletedAt l |}.
Definition with_Name (l : Limit) (v : string) : Limit := {|
  lim_ID := lim_ID l; lim_Name := v; lim_Description := lim_Description l;
  lim_LimitType := lim_LimitType l; lim_MaxAmount := lim_MaxAmount l;
  lim_Currency := lim_Currency l; lim_Scopes := lim_Scopes l; lim_Status := lim_Status l;
  lim_ActiveTimeStart := lim_ActiveTimeStart l; lim_ActiveTimeEnd := lim_ActiveTimeEnd l;
  lim_CustomStartDate := lim_CustomStartDate l; lim_CustomEndDate := lim_CustomEndDate l;
  lim_ResetAt := lim_ResetAt l; lim_CreatedAt := lim_CreatedAt l;
  lim_UpdatedAt := lim_UpdatedAt l; lim_DeletedAt := lim_DeletedAt l |}.
Definition with_MaxAmount (l : Limit) (v : dec) : Limit := {|
  lim_ID := lim_ID l; lim_Name := lim_Name l; lim_Description := lim_Description l;
  lim_LimitType := lim_LimitType l; lim_MaxAmount := v;
  lim_Currency := lim_Currency l; lim_Scopes := lim_Scopes l; lim_Status := lim_Status l;
  lim_ActiveTimeStart := lim_ActiveTimeStart l; lim_ActiveTimeEnd := lim_ActiveTimeEnd l;
  lim_CustomStartDate := lim_CustomStartDate l; lim_CustomEndDate := lim_CustomEndDate l;
  lim_ResetAt := lim_ResetAt l; lim_CreatedAt := lim_CreatedAt l;
  lim_UpdatedAt := lim_UpdatedAt l; lim_DeletedAt := lim_DeletedAt l |}.
Definition with_Description (l : Limit) (v : option string) : Limit := {|
  lim_ID := lim_ID l; lim_Name := lim_Name l; lim_Description := v;
  lim_LimitType := lim_LimitType l; lim_MaxAmount := lim_MaxAmount l;
  lim_Currency := lim_Currency l; lim_Scopes := lim_Scopes l; lim_Status := lim_Status l;
  lim_ActiveTimeStart := lim_ActiveTimeStart l; lim_ActiveTimeEnd := lim_ActiveTimeEnd l;
  lim_CustomStartDate := lim_CustomStartDate l; lim_CustomEndDate := lim_CustomEndDate l;
  lim_ResetAt := lim_ResetAt l; lim_CreatedAt := lim_CreatedAt l;
  lim_UpdatedAt := lim_UpdatedAt l; lim_DeletedAt := lim_DeletedAt l |}.
Definition with_Scopes (l : Limit) (v : list Scope) : Limit := {|
  lim_ID := lim_ID l; lim_Name := lim_Name l; lim_Description := lim_Description l;
  lim_LimitType := lim_LimitType l; lim_MaxAmount := lim_MaxAmount l;
  lim_Currency := lim_Currency l; lim_Scopes := v; lim_Status := lim_Status l;
  lim_ActiveTimeStart := lim_ActiveTimeStart l; lim_ActiveTimeEnd := lim_ActiveTimeEnd l;
  lim_CustomStartDate := lim_CustomStartDate l; lim_CustomEndDate := lim_CustomEndDate l;
  lim_ResetAt := lim_ResetAt l; lim_CreatedAt := lim_CreatedAt l;
  lim_UpdatedAt := lim_UpdatedAt l; lim_DeletedAt := lim_DeletedAt l |}.
Definition with_UpdatedAt (l : Limit) (v : time) : Limit := {|
  lim_ID := lim_ID l; lim_Name := lim_Name l; lim_Description := lim_Description l;
  lim_LimitType := lim_LimitType l; lim_MaxAmount := lim_MaxAmount l;
  lim_Currency := lim_Currency l; lim_Scopes := lim_Scopes l; lim_Status := lim_Status l;
  lim_ActiveTimeStart := lim_ActiveTimeStart l; lim_ActiveTimeEnd := lim_ActiveTimeEnd l;
  lim_CustomStartDate := lim_CustomStartDate l; lim_CustomEndDate := lim_CustomEndDate l;
  lim_ResetAt := lim_ResetAt l; lim_CreatedAt := lim_CreatedAt l;
  lim_UpdatedAt := v; lim_DeletedAt := lim_DeletedAt l |}.
Definition with_Status (l : Limit) (s : LimitStatus) (updatedAt : time)
    (deletedAt : option time) : Limit := {|
  lim_ID := lim_ID l; lim_Name := lim_Name l; lim_Description := lim_Description l;
  lim_LimitType := lim_LimitType l; lim_MaxAmount := lim_MaxAmount l;
  lim_Currency := lim_Currency l; lim_Scopes := lim_Scopes l; lim_Status := s;
  lim_ActiveTimeStart := lim_ActiveTimeStart l; lim_ActiveTimeEnd := lim_ActiveTimeEnd l;
  lim_CustomStartDate := lim_CustomStartDate l; lim_CustomEndDate := lim_CustomEndDate l;
  lim_ResetAt := lim_ResetAt l; lim_CreatedAt := lim_CreatedAt l;
  lim_UpdatedAt := updatedAt; lim_DeletedAt := deletedAt |}.

Definition NewLimit (id : uuid) (name : string) (limitType : LimitType) (maxAmount : dec)
    (currency : string) (scopes : list Scope) (description : option string)
    (createdAt : time) : result TracerError Limit :=
  let limit := with_ResetAt (newLimitBase id name limitType maxAmount currency scopes
                               description createdAt) (CalculateResetAt limitType createdAt) in
  do! Limit_Validate limit;; Ok limit.

Definition NewLimitWithTimeWindow (id : uuid) (name : string) (limitType : LimitType)
    (maxAmount : dec) (currency : string) (scopes : list Scope) (description : option string)
    (activeTimeStart activeTimeEnd : string) (createdAt : time) : result TracerError Limit :=
  let! startTime := NewTimeOfDay activeTimeStart in
  let! endTime := NewTimeOfDay activeTimeEnd in
  do! ValidateTimeWindow (Some startTime) (Some endTime);;
  let limit := newLimitBase id name limitType maxAmount currency scopes description createdAt in
  let limit := with_ActiveTime limit (Some startTime) (Some endTime) in
  let limit := with_ResetAt limit (CalculateResetAt limitType createdAt) in
  do! Limit_Validate limit;; Ok limit.

Definition NewLimitWithCustomPeriod (id : uuid) (name : string) (limitType : LimitType)
    (maxAmount : dec) (currency : string) (scopes : list Scope) (description : option string)
    (customStartDate customEndDate : time) (createdAt : time) : result TracerError Limit :=
  do! ValidateCustomPeriod limitType (Some customStartDate) (Some customEndDate) createdAt;;
  let limit := newLimitBase id name limitType maxAmount currency scopes description createdAt in
  let limit := with_CustomDates limit (Some customStartDate) (Some customEndDate) in
  let limit := with_ResetAt limit (CalculateCustomResetAt customEndDate) in
  do! Limit_Validate limit;; Ok limit.

Definition NewLimitWithCustomPeriodAndTimeWindow (id : uuid) (name : string)
    (limitType : LimitType) (maxAmount : dec) (currency : string) (scopes : list Scope)
    (description : option string) (customStartDate customEndDate : time)
    (activeTimeStart activeTimeEnd : string) (createdAt : time) : result TracerError Limit :=
  do! ValidateCustomPeriod limitType (Some customStartDate) (Some customEndDate) createdAt;;
  let! startTime := NewTimeOfDay activeTimeStart in
  let! endTime := NewTimeOfDay activeTimeEnd in
  do! ValidateTimeWindow (Some startTime) (Some endTime);;
  let limit := newLimitBase id name limitType maxAmount currency scopes description createdAt in
  let limit := with_CustomDates limit (Some customStartDate) (Some customEndDate) in
  let limit := with_ResetAt limit (CalculateCustomResetAt customEndDate) in
  let limit := with_ActiveTime limit (Some startTime) (Some endTime) in
  do! Limit_Validate limit;; Ok limit.

(** *** Updates

    [Update] assigns each field as soon as that field is validated, so a later
    failure leaves the earlier assignments in the object: the limit is returned
    together with the outcome.  The flag says whether a field was assigned. *)

Definition upd_bind (m : Limit * result TracerError bool)
    (k : Limit → bool → Limit * result TracerError bool) : Limit * result TracerError bool :=
  match m with
  | (l, Ok updated) => k l updated
  | (l, Err e) => (l, Err e)
  end.

(** A field that is given is checked and assigned. *)
Definition upd_field {A} (p : option A) (check : A → result TracerError unit)
    (assign : Limit → A → Limit) (l : Limit) (updated : bool) : Limit * result TracerError bool :=
  match p with
  | None => (l, Ok updated)
  | Some v => match check v with Ok _ => (assign l v, Ok true) | Err e => (l, Err e) end
  end.

Definition upd_window (s e : option TimeOfDay) (l : Limit) (updated : bool)
    : Limit * result TracerError bool :=
  if negb (is_nil s) || negb (is_nil e) then
    match ValidateTimeWindow s e with
    | Ok _ => (with_ActiveTime l s e, Ok true)
    | Err err => (l, Err err)
    end
  else (l, Ok updated).

Definition upd_custom (s e : option time) (now : time) (l : Limit) (updated : bool)
    : Limit * result TracerError bool :=
  if negb (is_nil s) || negb (is_nil e) then
    match ValidateCustomPeriod (lim_LimitType l) s e now with
    | Ok _ =>
        let l := with_CustomDates l s e in
        (match e with
         | Some customEndDate => with_ResetAt l (CalculateCustomResetAt customEndDate)
         | None => l
         end, Ok true)
    | Err err => (l, Err err)
    end
  else (l, Ok updated).

Definition Limit_Update (l : Limit) (name : option string) (maxAmount : option dec)
    (description : option string) (scopes : option (list Scope))
    (activeTimeStart activeTimeEnd : option TimeOfDay)
    (customStartDate customEndDate : option time) (now : time)
    : Limit * result TracerError unit :=
  let m := upd_field name (λ n, validateName (strings_TrimSpace n))
             (λ l n, with_Name l (strings_TrimSpace n)) l false in
  let m := upd_bind m (upd_field maxAmount validateMaxAmount with_MaxAmount) in
  let m := upd_bind m (upd_field description (λ d, validateDescription (Some (strings_TrimSpace d)))
             (λ l d, with_Description l (Some (strings_TrimSpace d)))) in
  let m := upd_bind m (upd_field scopes validateScopes
             (λ l s, with_Scopes l (normalizeScopeSubType <$> s))) in
  let m := upd_bind m (upd_window activeTimeStart activeTimeEnd) in
  let m := upd_bind m (upd_custom customStartDate customEndDate now) in
  match m with
  | (l, Ok updated) => (if updated then with_UpdatedAt l now else l, Ok tt)
  | (l, Err e) => (l, Err e)
  end.

(** *** Status changes *)

Definition validStatusTransitions (s : LimitStatus) : list LimitStatus :=
  match s with
  | LimitStatusDraft => [LimitStatusActive; LimitStatusDeleted]
  | LimitStatusActive => [LimitStatusInactive]
  | LimitStatusInactive => [LimitStatusActive; LimitStatusDraft; LimitStatusDeleted]
  | LimitStatusDeleted => []
  | LimitStatusOther _ => []
  end.

Definition Limit_SetStatus (l : Limit) (status : LimitStatus) (now : time)
    : result TracerError Limit :=
  if negb (LimitStatus_IsValid status) then Err ErrLimitInvalidStatusChange else
  if bool_decide (lim_Status l = status) then Ok l else
  if negb (existsb (λ allowed, bool_decide (status = allowed)) (validStatusTransitions (lim_Status l)))
  then Err ErrLimitInvalidStatusChange else
  Ok (with_Status l status now
        (if bool_decide (status = LimitStatusDeleted) then Some now else None)).

Definition Limit_IsActive (l : Limit) : bool := bool_decide (lim_Status l = LimitStatusActive).

Definition Limit_IsWithinTimeWindow (l : Limit) (timestamp : time) : bool :=
  match lim_ActiveTimeStart l, lim_ActiveTimeEnd l with
  | Some s, Some e =>
      let currentMins := time_Hour timestamp * 60 + time_Minute timestamp in
      let startMins := MinutesSinceMidnight s in
      let endMins := MinutesSinceMidnight e in
      if startMins <? endMins then (startMins <=? currentMins) && (currentMins <? endMins)
      else (startMins <=? currentMins) || (currentMins <? endMins)
  | _, _ => true
  end.

Definition Limit_IsWithinCustomPeriod (l : Limit) (timestamp : time) : bool :=
  if negb (bool_decide (lim_LimitType l = LimitTypeCustom)) then true else
  match lim_CustomStartDate l, lim_CustomEndDate l with
  | Some s, Some e => negb (time_Before timestamp s) && time_Before timestamp e
  | _, _ => true
  end.

(** *** Usage counters *)

Record UsageCounter := {
  uc_ID : uuid;
  uc_LimitID : uuid;
  uc_ScopeKey : string;
  uc_PeriodKey : string;
  uc_CurrentUsage : dec;
  uc_LastUpdatedAt : time }.

Definition NewUsageCounter (id limitID : uuid) (scopeKey periodKey : string) (createdAt : time)
    : result TracerError UsageCounter :=
  if bool_decide (limitID = uuid_Nil) then Err ErrUsageCounterLimitIDRequired else
  let normalizedScopeKey := strings_TrimSpace scopeKey in
  if bool_decide (normalizedScopeKey = "") then Err ErrUsageCounterScopeKeyRequired else
  let normalizedPeriodKey := strings_TrimSpace periodKey in
  if bool_decide (normalizedPeriodKey = "") then Err ErrUsageCounterPeriodKeyRequired else
  Ok {| uc_ID := id; uc_LimitID := limitID; uc_ScopeKey := normalizedScopeKey;
        uc_PeriodKey := normalizedPeriodKey; uc_CurrentUsage := dzero;
        uc_LastUpdatedAt := createdAt |}.

Definition UsageCounter_Increment (u : UsageCounter) (amount : dec) (now : time)
    : result TracerError UsageCounter :=
  if dis_negative amount then Err ErrUsageCounterIncrementNonNegative else
  if dis_zero amount then Ok u else
  Ok {| uc_ID := uc_ID u; uc_LimitID := uc_LimitID u; uc_ScopeKey := uc_ScopeKey u;
        uc_PeriodKey := uc_PeriodKey u; uc_CurrentUsage := (uc_CurrentUsage u + amount)%dec;
        uc_LastUpdatedAt := now |}.

Definition UsageCounter_Validate (u : UsageCounter) : result TracerError unit :=
  if bool_decide (uc_LimitID u = uuid_Nil) then Err ErrUsageCounterLimitIDRequired else
  if bool_decide (strings_TrimSpace (uc_ScopeKey u) = "") then Err ErrUsageCounterScopeKeyRequired else
  if bool_decide (strings_TrimSpace (uc_PeriodKey u) = "") then Err ErrUsageCounterPeriodKeyRequired else
  guard_err (dis_negative (uc_CurrentUsage u)) ErrUsageCounterCurrentUsageNegative.

End LimitModel.

(** *** Listing (ListLimitsFilter) *)

Definition DefaultPaginationLimit : Z := 10.
Definition MaxPaginationLimit : Z := 100.
Definition DefaultLimitSortField : string := "created_at".

Record ListLimitsFilter := {
  lf_Status : option LimitStatus;
  lf_LimitType : option LimitType;
  lf_Currency : option string;
  lf_Limit : Z;
  lf_Cursor : string;
  lf_SortBy : string;
  lf_SortOrder : string }.

Definition IsValidLimitSortField (field : string) : bool :=
  bool_decide (field = "name" ∨ field = DefaultLimitSortField ∨ field = "updated_at" ∨
               field = "max_amount").

Definition ListLimitsFilter_ApplyDefaults (f : ListLimitsFilter) : ListLimitsFilter := {|
  lf_Status := lf_Status f; lf_LimitType := lf_LimitType f; lf_Currency := lf_Currency f;
  lf_Limit := (if lf_Limit f <=? 0 then DefaultPaginationLimit
               else if MaxPaginationLimit <? lf_Limit f then MaxPaginationLimit
               else lf_Limit f);
  lf_Cursor := lf_Cursor f;
  lf_SortBy := (if bool_decide (lf_SortBy f = "") then DefaultLimitSortField else lf_SortBy f);
  lf_SortOrder := (if bool_decide (lf_SortOrder f = "") then "desc"
                   else strings_ToLower (lf_SortOrder f)) |}.

Definition ListLimitsFilter_Validate (f : ListLimitsFilter) : result TracerError unit :=
  if match lf_Status f with Some s => negb (LimitStatus_IsValid s) | None => false end
  then Err ErrLimitInvalidStatusFilter else
  if match lf_LimitType f with Some t => negb (LimitType_IsValid t) | None => false end
  then Err ErrLimitInvalidTypeFilter else
  if lf_Limit f <=? 0 then Err ErrPaginationLimitInvalid else
  if MaxPaginationLimit <? lf_Limit f then Err ErrPaginationLimitExceeded else
  if negb (bool_decide (lf_SortBy f = "")) && negb (IsValidLimitSortField (lf_SortBy f))
  then Err ErrInvalidSortColumn else
  if negb (bool_decide (lf_SortOrder f = "")) &&
     negb (bool_decide (strings_ToLower (lf_SortOrder f) = "asc")) &&
     negb (bool_decide (strings_ToLower (lf_SortOrder f) = "desc"))
  then Err ErrInvalidSortOrder else Ok tt.

(** ** Period and scope keys (check_limits.go) *)

Definition GlobalScopeKey : string := "global".

Definition CalculatePeriodKey (limitType : LimitType) (timestamp : time)
    : result TracerError string :=
  match limitType with
  | LimitTypeDaily => Ok (format_day timestamp)
  | LimitTypeMonthly => Ok (format_month timestamp)
  | LimitTypeWeekly =>
      let '(year, week) := time_ISOWeek timestamp in
      Ok (fmt_d year +:+ "-W" +:+ fmt_02d week)
  | LimitTypeCustom => Ok "custom"
  | LimitTypePerTransaction => Ok ""
  | LimitTypeOther _ => Err ErrCheckLimitsUnknownLimitType
  end.

(** [sort.Strings]: ascending byte order. *)
Fixpoint sort_insert (s : string) (l : list string) : list string :=
  match l with
  | [] => [s]
  | t :: l' => if String.leb s t then s :: l else t :: sort_insert s l'
  end.
Definition sort_Strings (l : list string) : list string := foldr sort_insert [] l.

Section ScopeKey.
Context `{UuidNil}.

Definition scope_part (prefix : string) (p : option uuid) : list string :=
  match p with Some id => [prefix +:+ uuid_String id] | None => [] end.

Definition CalculateScopeKey (scope : option Scope) : string :=
  match scope with
  | None => GlobalScopeKey
  | Some scope =>
      if Scope_IsEmpty scope then GlobalScopeKey else
      let parts := scope_part "acct:" (sc_AccountID scope) ++
                   scope_part "port:" (sc_PortfolioID scope) ++
                   scope_part "seg:" (sc_SegmentID scope) ++
                   scope_part "merch:" (sc_MerchantID scope) in
      strings_Join "|" (sort_Strings parts)
  end.

End ScopeKey.

(** ** Periods *)

(** The day on which the period of a day ends. *)
Definition next_month_day (d : Z) : Z :=
  let '(y, m, _) := date_of_day d in day_of_date y (m + 1) 1.

Lemma daily_reset t : CalculateResetAt LimitTypeDaily t = Some ((day_number t + 1) * Day).
Proof.
  unfold CalculateResetAt. rewrite time_Truncate_day. change (24 * Hour) with Day. f_equal. lia.
Qed.

Lemma monthly_reset t : CalculateResetAt LimitTypeMonthly t = Some (next_month_day (day_number t) * Day).
Proof.
  unfold CalculateResetAt, next_month_day, time_Date_of, time_Date.
  destruct (date_of_day (day_number t)) as [[y m] k]. f_equal. lia.
Qed.

Lemma weekly_reset t :
  CalculateResetAt LimitTypeWeekly t = Some ((monday_of_day (day_number t) + 7) * Day).
Proof.
  unfold CalculateResetAt, time_Weekday, weekday_of_day, monday_of_day.
  rewrite time_AddDate_days, time_Truncate_day. f_equal.
  rewrite <- Z.mul_add_distr_r. f_equal. set (d := day_number t).
  assert (((8 - (d + 1) mod 7) mod 7 = 0 ∧ d mod 7 = 0) ∨
          ((8 - (d + 1) mod 7) mod 7 = 7 - d mod 7 ∧ d mod 7 ≠ 0)) as [[-> ->]|[-> Hd]].
  { clearbody d. Z.to_euclidean_division_equations. lia. }
  - cbn. lia.
  - rewrite (proj2 (Z.eqb_neq _ _)) by (pose proof (Z.mod_pos_bound d 7); lia). lia.
Qed.

Lemma next_month_day_spec d y m k :
  date_of_day d = (y, m, k) →
  next_month_day d = days_before_year y + days_before_month y m ∧
  d < next_month_day d <= d + 31.
Proof.
  intros E. unfold next_month_day. rewrite E.
  pose proof (date_of_day_spec _ _ _ _ E) as (_ & Hm & _ & Hd & _).
  pose proof (month_length y (m - 1) ltac:(lia)) as Hl.
  replace (m - 1 + 1) with m in Hl by lia.
  rewrite day_of_date_next_month by done. lia.
Qed.

(** Two days have the same next month exactly when they are of one month. *)
Lemma next_month_day_inj d y m k d' y' m' k' :
  date_of_day d = (y, m, k) → date_of_day d' = (y', m', k') →
  next_month_day d = next_month_day d' ↔ y = y' ∧ m = m'.
Proof.
  intros E E'. pose proof (next_month_day_spec _ _ _ _ E) as [-> Hd].
  pose proof (next_month_day_spec _ _ _ _ E') as [-> Hd'].
  pose proof (date_of_day_spec _ _ _ _ E) as (_ & Hm & _ & Hr & _).
  pose proof (date_of_day_spec _ _ _ _ E') as (_ & Hm' & _ & Hr' & _).
  split; [|by intros [-> ->]]. intros Heq.
  pose proof (month_order y m y' m' Hm Hm' ltac:(lia)).
  pose proof (month_order y' m' y m Hm' Hm ltac:(lia)). lia.
Qed.

Lemma next_month_day_first d : ∃ y m, date_of_day (next_month_day d) = (y, m, 1).
Proof.
  destruct (date_of_day d) as [[y m] k] eqn:E.
  pose proof (next_month_day_spec _ _ _ _ E) as [En Hn].
  pose proof (date_of_day_spec _ _ _ _ E) as (-> & Hm & _ & Hr & _).
  destruct (date_of_day (next_month_day d)) as [[y' m'] k'] eqn:E'. exists y', m'. repeat f_equal.
  pose proof (date_of_day_spec _ _ _ _ E') as (Hy' & Hm' & _ & Hr' & ->).
  set (y := year_of_day d) in *.
  (* the day before is the last one of its month, so this month starts here *)
  destruct (Z.lt_trichotomy (days_before_year y' + days_before_month y' (m' - 1))
              (next_month_day d)) as [Hlt|[Heq|Hgt]]; [exfalso|lia|lia].
  pose proof (month_order y' m' y m Hm' Hm ltac:(lia)) as Ho.
  pose proof (month_order y m y' m' Hm Hm' ltac:(lia)) as Ho'.
  assert (y' = y ∧ m' = m) as [-> ->] by lia. lia.
Qed.

(** A limit's next reset is a midnight strictly in the future: at most a day
    ahead for DAILY, at most a week ahead and on a Monday for WEEKLY, at most 31
    days ahead and on the first of a month for MONTHLY; the other types have none. *)
Theorem reset_at_bounds ty now :
  match CalculateResetAt ty now with
  | Some r =>
      now < r ∧ r mod Day = 0 ∧
      match ty with
      | LimitTypeDaily => r <= now + Day
      | LimitTypeWeekly => r <= now + 7 * Day ∧ time_Weekday r = 1
      | LimitTypeMonthly => r <= now + 31 * Day ∧ ∃ y m, time_Date_of r = (y, m, 1)
      | _ => False
      end
  | None =>
      ty ≠ LimitTypeDaily ∧ ty ≠ LimitTypeWeekly ∧ ty ≠ LimitTypeMonthly
  end.
Proof.
  assert (∀ n, day_number (n * Day) = n) as Hdn.
  { intros n. unfold day_number. by apply Z.div_mul. }
  assert (∀ n, (n * Day) mod Day = 0) as Hmod by (intros; by apply Z.mod_mul).
  pose proof (day_number_spec now) as Hs. set (d := day_number now) in *.
  destruct ty; try (by split_and!).
  - rewrite daily_reset. fold d. split_and!; [lia|apply Hmod|lia].
  - rewrite monthly_reset. fold d. destruct (date_of_day d) as [[y m] k] eqn:E.
    pose proof (next_month_day_spec _ _ _ _ E) as [_ Hn]. pose proof Day_pos.
    split_and!; [nia|apply Hmod|nia|]. unfold time_Date_of. rewrite Hdn.
    apply next_month_day_first.
  - rewrite weekly_reset. fold d. unfold monday_of_day, time_Weekday, weekday_of_day.
    pose proof (Z.mod_pos_bound d 7 ltac:(lia)). pose proof Day_pos.
    split_and!; [nia|apply Hmod|nia|]. rewrite Hdn.
    clear. Z.to_euclidean_division_equations. lia.
Qed.

(** ** Period keys *)

Definition first_time_of_year (y : Z) : time := days_before_year y * Day.

Lemma year_range t :
  first_time_of_year 1 <= t < first_time_of_year 10000 →
  0 <= day_number t ∧ 1 <= year_of_day (day_number t) < 10000.
Proof.
  unfold first_time_of_year. intros [H1 H2].
  pose proof (day_number_spec t) as Hs. pose proof Day_pos.
  change (days_before_year 1) with 0 in H1.
  assert (0 <= day_number t < days_before_year 10000) as [Hlo Hhi].
  { split; [nia|]. assert (day_number t * Day < days_before_year 10000 * Day) by lia. nia. }
  split; [done|].
  pose proof (year_of_day_mono 0 (day_number t) Hlo) as Hm. change (year_of_day 0) with 1 in Hm.
  split; [done|]. pose proof (year_of_day_spec (day_number t)) as Hy.
  destruct (Z.lt_ge_cases (year_of_day (day_number t)) 10000); [done|].
  pose proof (days_before_year_mono 10000 (year_of_day (day_number t)) ltac:(lia)). lia.
Qed.

Lemma format_day_inj t t' :
  first_time_of_year 1 <= t < first_time_of_year 10000 →
  first_time_of_year 1 <= t' < first_time_of_year 10000 →
  format_day t = format_day t' → day_number t = day_number t'.
Proof.
  intros Ht%year_range Ht'%year_range. unfold format_day, time_Date_of.
  destruct (date_of_day (day_number t)) as [[y m] k] eqn:E.
  destruct (date_of_day (day_number t')) as [[y' m'] k'] eqn:E'.
  pose proof (date_of_day_spec _ _ _ _ E) as (Hy & Hm & Hk & _ & _).
  pose proof (date_of_day_spec _ _ _ _ E') as (Hy' & Hm' & Hk' & _ & _).
  intros Heq.
  apply app_length_inj in Heq as [->%fmt_year_inj Heq]; [|lia..|by rewrite !fmt_year_length by lia].
  apply app_length_inj in Heq as [_ Heq]; [|done].
  apply app_length_inj in Heq as [->%fmt_02d_inj Heq]; [|lia..|by rewrite !fmt_02d_length by lia].
  apply app_length_inj in Heq as [_ ->%fmt_02d_inj]; [|lia..|done].
  by rewrite <- (day_of_date_of_day _ _ _ _ E), <- (day_of_date_of_day _ _ _ _ E').
Qed.

Lemma format_month_inj t t' :
  first_time_of_year 1 <= t < first_time_of_year 10000 →
  first_time_of_year 1 <= t' < first_time_of_year 10000 →
  format_month t = format_month t' ↔
  next_month_day (day_number t) = next_month_day (day_number t').
Proof.
  intros Ht%year_range Ht'%year_range. unfold format_month, time_Date_of.
  destruct (date_of_day (day_number t)) as [[y m] k] eqn:E.
  destruct (date_of_day (day_number t')) as [[y' m'] k'] eqn:E'.
  rewrite (next_month_day_inj _ _ _ _ _ _ _ _ E E').
  pose proof (date_of_day_spec _ _ _ _ E) as (Hy & Hm & _).
  pose proof (date_of_day_spec _ _ _ _ E') as (Hy' & Hm' & _).
  split; [|by intros [-> ->]]. intros Heq.
  apply app_length_inj in Heq as [->%fmt_year_inj Heq]; [|lia..|by rewrite !fmt_year_length by lia].
  apply app_length_inj in Heq as [_ ->%fmt_02d_inj]; [|lia..|done]. done.
Qed.

(** The ISO week of a day determines its Monday. *)
Lemma iso_week_monday d d' :
  iso_week_of_day d = iso_week_of_day d' → monday_of_day d = monday_of_day d'.
Proof.
  unfold iso_week_of_day, monday_of_day. intros [= Hy Hw].
  rewrite <- Hy in Hw.
  set (k := days_before_year (year_of_day (d - d mod 7 + 3))) in *. clearbody k. clear Hy.
  Z.to_euclidean_division_equations. lia.
Qed.

Lemma iso_week_range d : 0 <= d → 1 <= fst (iso_week_of_day d) ∧ 1 <= snd (iso_week_of_day d) <= 53.
Proof.
  intros Hd. unfold iso_week_of_day, monday_of_day. cbn [fst snd].
  assert (0 <= d - d mod 7 + 3) as H3 by (Z.to_euclidean_division_equations; lia).
  pose proof (year_of_day_mono 0 _ H3) as Hm. change (year_of_day 0) with 1 in Hm.
  pose proof (year_of_day_spec (d - d mod 7 + 3)) as Hs. rewrite year_length_spec in Hs.
  pose proof (year_length_bounds (year_of_day (d - d mod 7 + 3))).
  set (k := d - d mod 7 + 3 - days_before_year (year_of_day (d - d mod 7 + 3))) in *.
  split; [lia|]. assert (0 <= k < 366) by lia. clearbody k. Z.to_euclidean_division_equations. lia.
Qed.

Definition is_periodic (ty : LimitType) : bool :=
  match ty with LimitTypeDaily | LimitTypeWeekly | LimitTypeMonthly => true | _ => false end.

Lemma weekly_key_inj t t' :
  0 <= day_number t → 0 <= day_number t' →
  CalculatePeriodKey LimitTypeWeekly t = CalculatePeriodKey LimitTypeWeekly t' ↔
  monday_of_day (day_number t) = monday_of_day (day_number t').
Proof.
  intros Ht Ht'. unfold CalculatePeriodKey, time_ISOWeek. split.
  - pose proof (iso_week_range _ Ht) as Hr. pose proof (iso_week_range _ Ht') as Hr'.
    destruct (iso_week_of_day (day_number t)) as [y w] eqn:E.
    destruct (iso_week_of_day (day_number t')) as [y' w'] eqn:E'. cbn [fst snd] in *.
    intros Heq. assert (fmt_d y +:+ "-W" +:+ fmt_02d w = fmt_d y' +:+ "-W" +:+ fmt_02d w') as Hs
      by congruence. clear Heq.
    change ("-W" +:+ fmt_02d w) with (String "-" ("W" +:+ fmt_02d w)) in Hs.
    change ("-W" +:+ fmt_02d w') with (String "-" ("W" +:+ fmt_02d w')) in Hs.
    apply app_char_inj in Hs as [->%fmt_d_inj Hw]; [|lia..|apply fmt_d_no_dash; lia|
      apply fmt_d_no_dash; lia].
    apply app_length_inj in Hw as [_ ->%fmt_02d_inj]; [|lia..|done].
    apply iso_week_monday. congruence.
  - intros Hm. unfold iso_week_of_day. by rewrite Hm.
Qed.

(** Usage is counted per period: in the years 1 to 9999, two instants have the
    same period key for a DAILY, WEEKLY or MONTHLY limit exactly when the limit next
    resets at the same instant.  A counter's bucket is therefore exactly the span of
    time between two resets, across month ends, leap years and ISO weeks that belong
    to another year. *)
Theorem period_key_iff_reset ty t t' :
  is_periodic ty = true →
  first_time_of_year 1 <= t < first_time_of_year 10000 →
  first_time_of_year 1 <= t' < first_time_of_year 10000 →
  CalculatePeriodKey ty t = CalculatePeriodKey ty t' ↔
  CalculateResetAt ty t = CalculateResetAt ty t'.
Proof.
  intros Hty Ht Ht'. pose proof Day_pos as HD.
  pose proof (year_range _ Ht) as [H0 _]. pose proof (year_range _ Ht') as [H0' _].
  assert (∀ a b : Z, Some (a * Day) = Some (b * Day) ↔ a = b) as Hmul.
  { intros a b. split; [intros [= E]; nia|by intros ->]. }
  destruct ty; try done.
  - rewrite !daily_reset, Hmul. unfold CalculatePeriodKey. split.
    + intros E. assert (format_day t = format_day t') as E' by congruence.
      apply format_day_inj in E'; [lia|done..].
    + intros E. unfold format_day, time_Date_of. by replace (day_number t) with (day_number t') by lia.
  - rewrite !monthly_reset, Hmul. unfold CalculatePeriodKey.
    rewrite <- format_month_inj by done. split; [intros E; congruence|by intros ->].
  - rewrite !weekly_reset, Hmul, (weekly_key_inj t t' H0 H0'). lia.
Qed.

Lemma period_key_iff_reset_witness :
  let jan31 := time_Date 2026 1 31 (23 * Hour) in
  let feb01 := time_Date 2026 2 1 0 in
  CalculatePeriodKey LimitTypeMonthly jan31 ≠ CalculatePeriodKey LimitTypeMonthly feb01 ∧
  CalculatePeriodKey LimitTypeWeekly jan31 = CalculatePeriodKey LimitTypeWeekly feb01.
Proof.
  intros jan31 feb01. split.
  - intros E. apply (period_key_iff_reset LimitTypeMonthly jan31 feb01) in E;
      [vm_compute in E; discriminate E|vm_compute; repeat split; discriminate..].
  - apply (period_key_iff_reset LimitTypeWeekly jan31 feb01);
      [reflexivity|vm_compute; repeat split; discriminate..|vm_compute; reflexivity].
Defined.

(** ** Time windows *)

(** The minutes from [a] forward to [b] on the clock. *)
Definition minutes_from (a b : Z) : Z := (b - a) mod 1440.

Definition tod_ok (t : TimeOfDay) : Prop :=
  tod_isValid t = true ∧ 0 <= tod_hour t < 24 ∧ 0 <= tod_minute t < 60.

Lemma NewTimeOfDay_ok s t : NewTimeOfDay s = Ok t → tod_ok t.
Proof.
  unfold NewTimeOfDay. destruct (parse_15_04 _) as [[h m]|] eqn:E; [|done].
  intros [= <-]. apply parse_15_04_range in E. split; simpl; [done|lia].
Qed.

Lemma tod_minutes_range t : tod_ok t → 0 <= MinutesSinceMidnight t < 1440.
Proof. unfold MinutesSinceMidnight. intros (_ & Hh & Hm). lia. Qed.

Lemma clock_minutes_range t : 0 <= time_Hour t * 60 + time_Minute t < 1440.
Proof.
  unfold time_Hour, time_Minute, Day, Hour, Minute, Second.
  Z.to_euclidean_division_equations. lia.
Qed.

Lemma TrimSpace_digit_ends a b s :
  is_space a = false → is_space b = false →
  strings_TrimSpace (String a (s +:+ String b "")) = String a (s +:+ String b "").
Proof.
  intros Ha Hb. unfold strings_TrimSpace. cbn [trim_left]. rewrite Ha.
  assert (trim_right (s +:+ String b "") = s +:+ String b "") as Ht.
  { induction s as [|c s IH].
    - change ("" +:+ String b "") with (String b ""). cbn [trim_right]. by rewrite Hb.
    - rewrite string_app_cons. cbn [trim_right]. rewrite IH. by destruct s. }
  cbn [trim_right]. rewrite Ht. by destruct s.
Qed.

Lemma digit_char_not_space n : 0 <= n < 10 → is_space (digit_char n) = false.
Proof.
  intros Hn. unfold is_space, digit_char. rewrite nat_ascii_embedding by lia.
  apply bool_decide_eq_false. lia.
Qed.

(** A time of day survives its text form: [String] prints a valid time as
    HH:MM, and [NewTimeOfDay] and [UnmarshalText] read it back; whatever
    [NewTimeOfDay] accepts is a time between 00:00 and 23:59. *)
Theorem time_of_day_round_trip t s :
  (tod_ok t → NewTimeOfDay (TimeOfDay_String t) = Ok t ∧
              TimeOfDay_UnmarshalText (TimeOfDay_MarshalText t) = Ok t) ∧
  (∀ t', NewTimeOfDay s = Ok t' → tod_ok t').
Proof.
  split; [|apply NewTimeOfDay_ok]. intros (Hv & Hh & Hm).
  assert (NewTimeOfDay (TimeOfDay_String t) = Ok t) as Hn.
  { unfold TimeOfDay_String, NewTimeOfDay. rewrite Hv.
    assert (strings_TrimSpace (fmt_02d (tod_hour t) +:+ ":" +:+ fmt_02d (tod_minute t)) =
            fmt_02d (tod_hour t) +:+ ":" +:+ fmt_02d (tod_minute t)) as ->.
    { unfold fmt_02d. rewrite !(proj2 (Z.leb_le _ _)), !(proj2 (Z.ltb_lt _ _)) by lia.
      cbn [andb].
      apply (TrimSpace_digit_ends _ (digit_char (tod_minute t mod 10))
        (String (digit_char (tod_hour t mod 10)) (":" +:+ String (digit_char (tod_minute t / 10)) "")));
        apply digit_char_not_space; Z.to_euclidean_division_equations; lia. }
    rewrite parse_15_04_print by lia. destruct t; simpl in *; by subst. }
  split; [done|]. unfold TimeOfDay_UnmarshalText, TimeOfDay_MarshalText. rewrite Hv. simpl.
  rewrite bool_decide_false; [done|].
  unfold TimeOfDay_String, fmt_02d. rewrite Hv.
  by rewrite !(proj2 (Z.leb_le 0 (tod_hour t))), !(proj2 (Z.ltb_lt (tod_hour t) _)) by lia.
Qed.

Lemma time_of_day_round_trip_witness :
  NewTimeOfDay "09:30" = Ok {| tod_hour := 9; tod_minute := 30; tod_isValid := true |} ∧
  NewTimeOfDay "24:00" = Err ErrTimeOfDayInvalidFormat.
Proof.
  split; [|reflexivity].
  apply (time_of_day_round_trip {| tod_hour := 9; tod_minute := 30; tod_isValid := true |} "").
  repeat split; simpl; lia.
Defined.

(** A limit with an active window is enforced exactly while the clock is in
    the window, read around midnight: the minutes from the start to now are fewer
    than the minutes from the start to the end.  So 20:00 to 06:00 covers the night
    and 06:00 to 20:00 the day, the start belongs to the window and the end does not. *)
Theorem time_window_is_cyclic `{DecimalLib, UuidNil} l s e t :
  lim_ActiveTimeStart l = Some s → lim_ActiveTimeEnd l = Some e →
  tod_ok s → tod_ok e → ValidateTimeWindow (Some s) (Some e) = Ok tt →
  Limit_IsWithinTimeWindow l t = true ↔
  minutes_from (MinutesSinceMidnight s) (time_Hour t * 60 + time_Minute t) <
  minutes_from (MinutesSinceMidnight s) (MinutesSinceMidnight e).
Proof.
  intros Es Ee Hs He Hw. unfold Limit_IsWithinTimeWindow. rewrite Es, Ee.
  pose proof (tod_minutes_range s Hs). pose proof (tod_minutes_range e He).
  pose proof (clock_minutes_range t).
  assert (MinutesSinceMidnight s ≠ MinutesSinceMidnight e) as Hne.
  { intros Heq. revert Hw. unfold ValidateTimeWindow, guard_err, TimeOfDay_Equal.
    destruct Hs as (-> & _), He as (-> & _). by rewrite Heq, Z.eqb_refl. }
  set (a := MinutesSinceMidnight s) in *. set (b := MinutesSinceMidnight e) in *.
  set (c := time_Hour t * 60 + time_Minute t) in *. clearbody a b c. unfold minutes_from.
  assert (∀ x y, 0 <= x < 1440 → 0 <= y < 1440 →
            (y - x) mod 1440 = if x <=? y then y - x else y - x + 1440) as Hmod.
  { intros x y Hx Hy. destruct (Z.leb_spec x y); [apply Z.mod_small; lia|].
    rewrite <- (Z.mod_add _ 1) by lia. apply Z.mod_small. lia. }
  rewrite !Hmod by done.
  destruct (Z.ltb_spec a b), (Z.leb_spec a c), (Z.ltb_spec c b), (Z.leb_spec a b);
    simpl; split; intros; try done; lia.
Qed.

(** ** The life of a limit *)

Section Lifecycle.
Context `{DecimalLib, UuidNil, CurrencyLib}.

Lemma guard_err_Ok b e : guard_err b e = Ok tt ↔ b = false.
Proof. destruct b; simpl; by split. Qed.

Lemma do_Ok {A} (m : result TracerError unit) (k : result TracerError A) a :
  (do! m;; k) = Ok a ↔ m = Ok tt ∧ k = Ok a.
Proof. destruct m as [[]|]; simpl; naive_solver. Qed.

Lemma Limit_Validate_iff l :
  Limit_Validate l = Ok tt ↔
  validateName (lim_Name l) = Ok tt ∧ validateDescription (lim_Description l) = Ok tt ∧
  LimitType_IsValid (lim_LimitType l) = true ∧ validateMaxAmount (lim_MaxAmount l) = Ok tt ∧
  validateCurrency (lim_Currency l) = Ok tt ∧ validateScopes (lim_Scopes l) = Ok tt ∧
  LimitStatus_IsValid (lim_Status l) = true ∧
  ValidateTimeWindow (lim_ActiveTimeStart l) (lim_ActiveTimeEnd l) = Ok tt ∧
  Limit_validateCustomPeriod l = Ok tt ∧ Limit_validateDeletedAtInvariant l = Ok tt.
Proof.
  unfold Limit_Validate. rewrite !do_Ok, !guard_err_Ok, !negb_false_iff. tauto.
Qed.

Lemma deleted_invariant_iff l :
  Limit_validateDeletedAtInvariant l = Ok tt ↔
  (lim_Status l = LimitStatusDeleted ↔ is_Some (lim_DeletedAt l)).
Proof.
  unfold Limit_validateDeletedAtInvariant, guard_err.
  destruct (bool_decide_reflect (lim_Status l = LimitStatusDeleted)), (lim_DeletedAt l); simpl;
    split; intros; try done; destruct_and?; naive_solver.
Qed.

Lemma validateScopes_normal scopes :
  validateScopes scopes = Ok tt → validateScopes (normalizeScopeSubType <$> scopes) = Ok tt.
Proof.
  unfold validateScopes. rewrite length_fmap. case_bool_decide; [done|].
  rewrite !for_each_Ok, Forall_fmap. intros HF. eapply Forall_impl; [exact HF|]. intros s. simpl.
  unfold Scope_IsEmpty. simpl. by destruct (sc_SubType s).
Qed.

Lemma normalizeScopeSubType_idem s :
  normalizeScopeSubType (normalizeScopeSubType s) = normalizeScopeSubType s.
Proof.
  unfold normalizeScopeSubType, normalizeSubTypeRaw. simpl. destruct (sc_SubType s); simpl; [|done].
  by rewrite ToLower_TrimSpace, ToLower_idem, TrimSpace_idem.
Qed.

(** What holds of every limit of the program: it passes the program's own validation, so
    what that means is what [Limit_Validate] checks, its text fields and
    scopes are in canonical form, and a CUSTOM limit resets on the midnight after
    its last day. *)
Record limit_wf (l : Limit) : Prop := {
  wf_valid : Limit_Validate l = Ok tt;
  wf_name : strings_TrimSpace (lim_Name l) = lim_Name l;
  wf_scopes : Forall (λ s, normalizeScopeSubType s = s) (lim_Scopes l);
  wf_custom_reset : ∀ e, lim_CustomEndDate l = Some e → lim_ResetAt l = CalculateCustomResetAt e }.

Lemma normal_scopes (l : list Scope) :
  Forall (λ s, normalizeScopeSubType s = s) (normalizeScopeSubType <$> l).
Proof. apply Forall_fmap, Forall_true. intros. apply normalizeScopeSubType_idem. Qed.

(** A field that is checked before it is assigned keeps the limit well-formed. *)
Lemma upd_field_wf {A} (p : option A) check assign l u l' r :
  (∀ l v, limit_wf l → check v = Ok tt → limit_wf (assign l v)) →
  limit_wf l → upd_field p check assign l u = (l', r) → limit_wf l'.
Proof.
  intros Ha Hl. unfold upd_field. destruct p as [v|]; [|by intros [= <- <-]].
  destruct (check v) as [[]|] eqn:E; intros [= <- <-]; auto.
Qed.

Lemma upd_bind_wf m k l' r :
  limit_wf m.1 → (∀ l u l' r, limit_wf l → k l u = (l', r) → limit_wf l') →
  upd_bind m k = (l', r) → limit_wf l'.
Proof.
  intros Hm Hk. unfold upd_bind. destruct m as [l [u|e]]; simpl in *; [|by intros [= <- <-]].
  by apply Hk.
Qed.

Ltac wf_field :=
  split; [apply Limit_Validate_iff; cbn; split_and?; try done; try (by apply validateScopes_normal)
         |cbn -[strings_TrimSpace]; rewrite ?TrimSpace_idem; auto|cbn; auto using normal_scopes|cbn; auto].

Ltac wf_open Hl :=
  let Hv := fresh "Hv" in
  destruct Hl as [Hv ? ? ?]; apply Limit_Validate_iff in Hv;
  unfold Limit_validateCustomPeriod, Limit_validateDeletedAtInvariant in Hv;
  destruct_and? Hv.

Lemma with_Name_wf l n :
  limit_wf l → validateName (strings_TrimSpace n) = Ok tt → limit_wf (with_Name l (strings_TrimSpace n)).
Proof. intros Hl Hc. wf_open Hl. wf_field. Qed.

Lemma with_MaxAmount_wf l v : limit_wf l → validateMaxAmount v = Ok tt → limit_wf (with_MaxAmount l v).
Proof. intros Hl Hc. wf_open Hl. wf_field. Qed.

Lemma with_Description_wf l d :
  limit_wf l → validateDescription (Some (strings_TrimSpace d)) = Ok tt →
  limit_wf (with_Description l (Some (strings_TrimSpace d))).
Proof. intros Hl Hc. wf_open Hl. wf_field. Qed.

Lemma with_Scopes_wf l s :
  limit_wf l → validateScopes s = Ok tt → limit_wf (with_Scopes l (normalizeScopeSubType <$> s)).
Proof. intros Hl Hc. wf_open Hl. wf_field. Qed.

Lemma with_UpdatedAt_wf l v : limit_wf l → limit_wf (with_UpdatedAt l v).
Proof. intros Hl. wf_open Hl. wf_field. Qed.

Lemma upd_window_wf s e l u l' r :
  limit_wf l → upd_window s e l u = (l', r) → limit_wf l'.
Proof.
  intros Hl. unfold upd_window. destruct (negb (is_nil s) || negb (is_nil e)).
  - destruct (ValidateTimeWindow s e) as [[]|] eqn:E; intros [= <- <-]; [|done].
    wf_open Hl. wf_field.
  - by intros [= <- <-].
Qed.

(** The dates [ValidateCustomPeriod] accepts are valid in the limit. *)
Lemma ValidateCustomPeriod_limit l s e now :
  ValidateCustomPeriod (lim_LimitType l) s e now = Ok tt →
  Limit_validateCustomPeriod (with_CustomDates l s e) = Ok tt.
Proof.
  unfold ValidateCustomPeriod, Limit_validateCustomPeriod. cbn.
  case_bool_decide; [|done]. destruct s as [s|], e as [e|]; try done.
  destruct (negb (time_After e s)); [done|]. by destruct (time_After _ _).
Qed.

Lemma upd_custom_wf s e now l u l' r :
  limit_wf l → upd_custom s e now l u = (l', r) → limit_wf l'.
Proof.
  intros Hl. unfold upd_custom. destruct (negb (is_nil s) || negb (is_nil e)) eqn:Hne.
  - destruct (ValidateCustomPeriod _ s e now) as [[]|] eqn:E; intros [= <- <-]; [|done].
    pose proof (ValidateCustomPeriod_limit _ _ _ _ E) as Hc.
    destruct Hl as [Hv Hn Hs Hr]. apply Limit_Validate_iff in Hv. destruct_and? Hv.
    destruct e as [e|].
    + split; [apply Limit_Validate_iff; cbn; split_and?; done|done|done|].
      cbn. by intros ? [= <-].
    + split; [apply Limit_Validate_iff; cbn; split_and?; done|done|done|done].
  - by intros [= <- <-].
Qed.

Lemma Limit_Update_wf l n m d sc s e cs ce now l' r :
  limit_wf l → Limit_Update l n m d sc s e cs ce now = (l', r) → limit_wf l'.
Proof.
  intros Hl. unfold Limit_Update.
  set (m1 := upd_field n _ _ l false).
  assert (limit_wf m1.1) as Hm1.
  { destruct m1 as [l1 r1] eqn:E. eapply upd_field_wf; [|exact Hl|exact E].
    intros; by apply with_Name_wf. }
  assert (∀ m k, limit_wf m.1 → (∀ l u l' r, limit_wf l → k l u = (l', r) → limit_wf l') →
            limit_wf (upd_bind m k).1) as Hb.
  { intros m0 k Hm Hk. destruct (upd_bind m0 k) as [x y] eqn:E. by eapply upd_bind_wf. }
  match goal with |- context [match ?m with _ => _ end] => assert (limit_wf m.1) as Hm6 end.
  { apply Hb; [|intros; by eapply upd_custom_wf]. apply Hb; [|intros; by eapply upd_window_wf].
    apply Hb; [|intros ? ? ? ? Hw E; eapply upd_field_wf; [|exact Hw|exact E];
      intros; by apply with_Scopes_wf].
    apply Hb; [|intros ? ? ? ? Hw E; eapply upd_field_wf; [|exact Hw|exact E];
      intros; by apply with_Description_wf].
    apply Hb; [done|intros ? ? ? ? Hw E; eapply upd_field_wf; [|exact Hw|exact E];
      intros; by apply with_MaxAmount_wf]. }
  match goal with |- context [match ?m with _ => _ end] => destruct m as [l6 [u6|e6]] end;
    simpl in Hm6; intros [= <- <-]; [|done].
  destruct u6; [by apply with_UpdatedAt_wf|done].
Qed.

Lemma Limit_SetStatus_wf l st now l' :
  limit_wf l → Limit_SetStatus l st now = Ok l' → limit_wf l'.
Proof.
  intros Hl. unfold Limit_SetStatus. destruct (LimitStatus_IsValid st) eqn:Ev; simpl; [|done].
  case_bool_decide as Hst; [by intros [= <-]|].
  destruct (existsb _ _); simpl; [|done]. intros [= <-].
  destruct Hl as [Hv Hn Hs Hr]. apply Limit_Validate_iff in Hv.
  destruct Hv as (? & ? & ? & ? & ? & ? & ? & ? & ? & _).
  split; [apply Limit_Validate_iff; cbn; split_and!; try done|done|done|done].
  apply deleted_invariant_iff. cbn. case_bool_decide; split; intros; naive_solver.
Qed.

(** The limits the program can hold: made by one of the four constructors, then
    updated (successfully or not: a failed update keeps the fields assigned before
    the failure) and moved between statuses. *)
Inductive limit_reachable : Limit → Prop :=
  | reach_new id name ty max cur scopes desc now l :
      NewLimit id name ty max cur scopes desc now = Ok l → limit_reachable l
  | reach_new_window id name ty max cur scopes desc s e now l :
      NewLimitWithTimeWindow id name ty max cur scopes desc s e now = Ok l → limit_reachable l
  | reach_new_custom id name ty max cur scopes desc s e now l :
      NewLimitWithCustomPeriod id name ty max cur scopes desc s e now = Ok l → limit_reachable l
  | reach_new_custom_window id name ty max cur scopes desc cs ce s e now l :
      NewLimitWithCustomPeriodAndTimeWindow id name ty max cur scopes desc cs ce s e now = Ok l →
      limit_reachable l
  | reach_update l n m d sc s e cs ce now l' r :
      limit_reachable l → Limit_Update l n m d sc s e cs ce now = (l', r) → limit_reachable l'
  | reach_status l st now l' :
      limit_reachable l → Limit_SetStatus l st now = Ok l' → limit_reachable l'.

Lemma new_limit_wf id name ty max cur scopes desc now s e cs ce r l :
  l = with_ResetAt (with_CustomDates (with_ActiveTime
        (newLimitBase id name ty max cur scopes desc now) s e) cs ce) r →
  (∀ x, ce = Some x → r = CalculateCustomResetAt x) →
  Limit_Validate l = Ok tt → limit_wf l.
Proof.
  intros -> Hr Hv. split; [done| |by apply normal_scopes|done]. apply TrimSpace_idem.
Qed.

(** C38: every limit the program can hold is well-formed: it passes [Validate], so
    its amount is positive, its window and custom period are coherent and it has a
    deletion time exactly when it is deleted; its name is trimmed, its sub-types are
    in the canonical form matching expects, and a CUSTOM limit resets on the midnight
    after its end.  In particular a failed [Update], which keeps the fields it
    assigned before failing, still leaves a well-formed limit. *)
Theorem limit_lifecycle_wf l :
  limit_reachable l →
  limit_wf l ∧ (lim_Status l = LimitStatusDeleted ↔ is_Some (lim_DeletedAt l)).
Proof.
  intros Hl. assert (limit_wf l) as Hw.
  { induction Hl as [????????? E|??????????? E|??????????? E|????????????? E|
                     ???????????? _ IH E|???? _ IH E].
    - unfold NewLimit in E. apply do_Ok in E as [Hv [= <-]].
      by eapply (new_limit_wf _ _ _ _ _ _ _ _ None None None None).
    - unfold NewLimitWithTimeWindow in E. inv_ok.
      match goal with Hv : Limit_Validate _ = Ok ?u |- _ => destruct u; revert Hv end.
      by eapply (new_limit_wf _ _ _ _ _ _ _ _ (Some _) (Some _) None None).
    - unfold NewLimitWithCustomPeriod in E. inv_ok.
      match goal with Hv : Limit_Validate _ = Ok ?u |- _ => destruct u; revert Hv end.
      eapply (new_limit_wf _ _ _ _ _ _ _ _ None None (Some _) (Some _)); [reflexivity|by intros ? [= <-]].
    - unfold NewLimitWithCustomPeriodAndTimeWindow in E. inv_ok.
      match goal with Hv : Limit_Validate _ = Ok ?u |- _ => destruct u; revert Hv end.
      eapply (new_limit_wf _ _ _ _ _ _ _ _ (Some _) (Some _) (Some _) (Some _)); [reflexivity|by intros ? [= <-]].
    - by eapply Limit_Update_wf.
    - by eapply Limit_SetStatus_wf. }
  split; [done|]. apply deleted_invariant_iff. apply Limit_Validate_iff, Hw.
Qed.

(** The status machine: from any limit, [SetStatus] follows the documented
    arrows and no other (drafts are activated or deleted, active limits are only
    deactivated, inactive ones are reactivated, redrafted or deleted), a deleted
    limit never changes again, and asking for the current status changes nothing. *)
Theorem limit_status_machine l st now :
  (Limit_SetStatus l (lim_Status l) now = Ok l ∨ LimitStatus_IsValid (lim_Status l) = false) ∧
  (∀ l', Limit_SetStatus l st now = Ok l' → lim_Status l ≠ st →
     lim_Status l' = st ∧
     ((lim_Status l = LimitStatusDraft ∧ (st = LimitStatusActive ∨ st = LimitStatusDeleted)) ∨
      (lim_Status l = LimitStatusActive ∧ st = LimitStatusInactive) ∨
      (lim_Status l = LimitStatusInactive ∧
        (st = LimitStatusActive ∨ st = LimitStatusDraft ∨ st = LimitStatusDeleted)))) ∧
  (lim_Status l = LimitStatusDeleted →
     Limit_SetStatus l st now = if bool_decide (st = LimitStatusDeleted) then Ok l
                                else Err ErrLimitInvalidStatusChange).
Proof.
  unfold Limit_SetStatus. split_and!.
  - destruct (LimitStatus_IsValid (lim_Status l)); [left|by right].
    simpl. by rewrite bool_decide_true.
  - intros l' E Hne. destruct (LimitStatus_IsValid st) eqn:Ev; simpl in E; [|done].
    rewrite bool_decide_false in E by done.
    destruct (existsb _ _) eqn:Ex; simpl in E; [|done]. injection E as <-.
    split; [done|]. apply existsb_exists in Ex as (a & Ha & Ex). bool_facts. subst a.
    destruct (lim_Status l); simpl in Ha; naive_solver.
  - intros Hd. rewrite Hd. destruct st; simpl; done.
Qed.

End Lifecycle.

(** ** Scope keys *)

(** The text of a UUID is made of hex digits and dashes. *)
Class UuidText `{UuidLib} := {
  uuid_no_pipe u : contains_char "|"%char (uuid_String u) = false;
  uuid_text_inj u v : uuid_String u = uuid_String v → u = v }.

Definition scope_has_id `{UuidLib} (s : Scope) : bool :=
  negb (is_nil (sc_AccountID s) && is_nil (sc_PortfolioID s) && is_nil (sc_SegmentID s) &&
        is_nil (sc_MerchantID s)).

Lemma cons_eq_inv {A} (x y : A) l l' : x :: l = y :: l' → x = y ∧ l = l'.
Proof. by intros [= -> ->]. Qed.

Lemma Split_Join (l : list string) :
  l ≠ [] → Forall (λ s, contains_char "|"%char s = false) l →
  strings_Split "|"%char (strings_Join "|" l) = l.
Proof.
  intros Hne Hl. induction Hl as [|s l Hs Hl IH]; [done|].
  destruct l as [|t l]; [by apply strings_Split_none|].
  change (strings_Join "|" (s :: t :: l)) with (s +:+ String "|" (strings_Join "|" (t :: l))).
  rewrite strings_Split_app by done. by rewrite IH.
Qed.

Section ScopeKeys.
Context `{UuidNil, !UuidText}.

(** The parts in the order of their prefixes. *)
Definition scope_parts (s : Scope) : list string :=
  scope_part "acct:" (sc_AccountID s) ++ scope_part "merch:" (sc_MerchantID s) ++
  scope_part "port:" (sc_PortfolioID s) ++ scope_part "seg:" (sc_SegmentID s).

Lemma scope_parts_sorted s :
  sort_Strings (scope_part "acct:" (sc_AccountID s) ++ scope_part "port:" (sc_PortfolioID s) ++
                scope_part "seg:" (sc_SegmentID s) ++ scope_part "merch:" (sc_MerchantID s)) =
  scope_parts s.
Proof.
  unfold scope_parts.
  destruct (sc_AccountID s), (sc_PortfolioID s), (sc_SegmentID s), (sc_MerchantID s); reflexivity.
Qed.

Lemma CalculateScopeKey_parts s :
  Scope_IsEmpty s = false → CalculateScopeKey (Some s) = strings_Join "|" (scope_parts s).
Proof. unfold CalculateScopeKey. intros ->. by rewrite scope_parts_sorted. Qed.

Lemma scope_has_id_nonempty s : scope_has_id s = true → Scope_IsEmpty s = false ∧ scope_parts s ≠ [].
Proof.
  unfold scope_has_id, Scope_IsEmpty, scope_parts.
  destruct (sc_AccountID s), (sc_PortfolioID s), (sc_SegmentID s), (sc_MerchantID s); done.
Qed.

Lemma scope_parts_no_pipe s : Forall (λ p, contains_char "|"%char p = false) (scope_parts s).
Proof.
  unfold scope_parts, scope_part. rewrite !Forall_app.
  split_and!; case_match; repeat constructor;
    rewrite contains_char_app, uuid_no_pipe; reflexivity.
Qed.

Lemma scope_part_inj p u v : p +:+ uuid_String u = p +:+ uuid_String v → u = v.
Proof. intros E%string_app_inj_l. by apply uuid_text_inj. Qed.

(** Parts with different prefixes are never the same text. *)
Lemma scope_parts_inj s s' :
  scope_parts s = scope_parts s' →
  sc_AccountID s = sc_AccountID s' ∧ sc_MerchantID s = sc_MerchantID s' ∧
  sc_PortfolioID s = sc_PortfolioID s' ∧ sc_SegmentID s = sc_SegmentID s'.
Proof.
  unfold scope_parts.
  destruct (sc_AccountID s), (sc_MerchantID s), (sc_PortfolioID s), (sc_SegmentID s),
    (sc_AccountID s'), (sc_MerchantID s'), (sc_PortfolioID s'), (sc_SegmentID s');
    unfold scope_part; cbn [app]; intros E; try discriminate E;
    repeat match goal with
    | E : _ :: _ = _ :: _ |- _ =>
        let E1 := fresh in let E2 := fresh in
        apply cons_eq_inv in E as [E1 E2]; apply scope_part_inj in E1
    end; subst; done.
Qed.

(** Usage counters are kept apart by account, portfolio, segment and merchant:
    two scopes that name at least one of them have the same scope key exactly when
    they name the same ones, and such a key is never the key of a global limit.  A
    scope that restricts only the transaction type or sub-type has the empty key,
    which is neither. *)
Theorem scope_key_identifies s s' :
  (scope_has_id s = true → scope_has_id s' = true →
   CalculateScopeKey (Some s) = CalculateScopeKey (Some s') ↔
   sc_AccountID s = sc_AccountID s' ∧ sc_MerchantID s = sc_MerchantID s' ∧
   sc_PortfolioID s = sc_PortfolioID s' ∧ sc_SegmentID s = sc_SegmentID s') ∧
  (scope_has_id s = true → CalculateScopeKey (Some s) ≠ GlobalScopeKey ∧
                           CalculateScopeKey (Some s) ≠ "") ∧
  (scope_has_id s = false → Scope_IsEmpty s = false → CalculateScopeKey (Some s) = "").
Proof.
  split_and!.
  - intros [Hs Hn]%scope_has_id_nonempty [Hs' Hn']%scope_has_id_nonempty.
    rewrite !CalculateScopeKey_parts by done. split.
    + intros E. apply scope_parts_inj.
      rewrite <- (Split_Join _ Hn (scope_parts_no_pipe s)), E.
      apply Split_Join; [done|apply scope_parts_no_pipe].
    + intros (E1 & E2 & E3 & E4). unfold scope_parts. by rewrite E1, E2, E3, E4.
  - intros [Hs Hn]%scope_has_id_nonempty. rewrite CalculateScopeKey_parts by done.
    split; intros E; apply (f_equal (strings_Split "|"%char)) in E;
      rewrite Split_Join in E by (done || apply scope_parts_no_pipe);
      revert E; unfold scope_parts; clear;
      destruct (sc_AccountID s), (sc_MerchantID s), (sc_PortfolioID s), (sc_SegmentID s);
      vm_compute; intros E; discriminate E.
  - intros Hid He. rewrite CalculateScopeKey_parts by done. revert Hid. clear.
    unfold scope_has_id, scope_parts.
    by destruct (sc_AccountID s), (sc_PortfolioID s), (sc_SegmentID s), (sc_MerchantID s).
Qed.

End ScopeKeys.

(** ** Concrete identifiers, currencies and limits *)

Module TracerSample.
#[export] Instance ids : UuidNil (H := Numbered.lib) := {|
  uuid_Nil := (0%nat : @uuid Numbered.lib);
  uuid_EqDecision := Nat.eq_dec;
  uuid_Countable := nat_countable |}.
#[export] Instance text : UuidText (H := Numbered.lib).
Proof. split; simpl; [intros; by apply Itoa_no_char|apply Itoa_inj]. Defined.
#[export] Instance currencies : CurrencyLib :=
  {| currency_ParseISO s := bool_decide (s = "USD" ∨ s = "BRL") |}.

Definition id (n : nat) : @uuid Numbered.lib := n.

Definition acct_scope (n : nat) : @Scope Numbered.lib := {|
  sc_SegmentID := None; sc_PortfolioID := None; sc_AccountID := Some (id n);
  sc_MerchantID := None; sc_TransactionType := None; sc_SubType := None |}.

Definition pix_scope : @Scope Numbered.lib := {|
  sc_SegmentID := None; sc_PortfolioID := None; sc_AccountID := None;
  sc_MerchantID := None; sc_TransactionType := Some TransactionTypePix; sc_SubType := None |}.

(** Noon of 2 March 2026, a Monday. *)
Definition noon : time := time_Date 2026 3 2 (12 * Hour).

Definition new_limit (ty : LimitType) (max : @dec Fixed.lib) (scopes : list Scope)
    : result TracerError Limit :=
  NewLimit (H := Fixed.lib) (id 1) " cap " ty max "usd" scopes None noon.

Definition limit_of (r : result TracerError (@Limit Fixed.lib Numbered.lib)) (s : LimitStatus)
    : @Limit Fixed.lib Numbered.lib :=
  match r with
  | Ok l => with_Status l s noon None
  | Err _ => with_Status (newLimitBase (H := Fixed.lib) (id 1) "" LimitTypeDaily (fx 0 0) "" [] None 0)
               s noon None
  end.

(** An active daily limit of 100.00 on account 7. *)
Definition daily100 : @Limit Fixed.lib Numbered.lib :=
  limit_of (new_limit LimitTypeDaily (fx 10000 2) [acct_scope 7]) LimitStatusActive.
End TracerSample.
Import TracerSample.
#[export] Existing Instances TracerSample.ids TracerSample.text TracerSample.currencies.
#[local] Existing Instances Fixed.lib Numbered.lib.

Lemma scope_key_identifies_witness :
  CalculateScopeKey (Some (acct_scope 7)) ≠ CalculateScopeKey (Some (acct_scope 8)) ∧
  CalculateScopeKey (Some pix_scope) = "".
Proof.
  split.
  - intros E. apply (scope_key_identifies (acct_scope 7) (acct_scope 8)) in E as (E & _);
      [discriminate E|reflexivity..].
  - by apply (scope_key_identifies pix_scope pix_scope).
Defined.

Lemma limit_lifecycle_wf_witness :
  let l := limit_of (new_limit LimitTypeDaily (fx 10000 2) [acct_scope 7]) LimitStatusDraft in
  limit_wf l ∧ lim_Name l = "cap" ∧ lim_Currency l = "USD".
Proof.
  split; [|by split].
  apply limit_lifecycle_wf.
  apply (reach_new (id 1) " cap " LimitTypeDaily (fx 10000 2) "usd" [acct_scope 7] None noon).
  vm_compute. reflexivity.
Defined.

Lemma limit_status_machine_witness :
  Limit_SetStatus daily100 LimitStatusDeleted noon = Err ErrLimitInvalidStatusChange.
Proof.
  destruct (Limit_SetStatus daily100 LimitStatusDeleted noon) as [l'|] eqn:E.
  - destruct (limit_status_machine daily100 LimitStatusDeleted noon) as (_ & Hm & _).
    destruct (Hm l' E ltac:(discriminate)) as (_ & [[C _]|[[_ C]|[C _]]]); discriminate C.
  - vm_compute in E. congruence.
Defined.

Lemma time_window_is_cyclic_witness :
  let night s e := with_ActiveTime daily100 (Some s) (Some e) in
  let t20 := {| tod_hour := 20; tod_minute := 0; tod_isValid := true |} in
  let t06 := {| tod_hour := 6; tod_minute := 0; tod_isValid := true |} in
  Limit_IsWithinTimeWindow (night t20 t06) (time_Date 2026 3 2 (23 * Hour)) = true.
Proof.
  intros night t20 t06.
  apply (time_window_is_cyclic (night t20 t06) t20 t06 (time_Date 2026 3 2 (23 * Hour)));
    [reflexivity..|repeat split; simpl; lia|repeat split; simpl; lia|reflexivity|].
  vm_compute. reflexivity.
Defined.
