(* ===== verification/LimitChecker.v ===== *)
(** * Usage counters and the limit checker

    The table usage_counters as src/components/tracer's migrations define it, the
    statements of internal/adapters/postgres/usage_counter_repository.go on it, the
    clean-up worker, and internal/services/query/limit_checker.go, which checks a
    transaction against every applicable limit and counts it.

    A row of the table has a committed usage (a DECIMAL column) and a reserved usage
    (a BIGINT column); (limit, scope key, period key) is unique, so the table is a
    finite map.  PostgreSQL adds and compares decimals exactly, which is what the
    decimal class promises too.  Each statement is atomic; a failing connection is an
    argument of the operation that uses it, and so is the answer of each round of the
    clean-up. *)

From stdpp Require Import base gmap strings list sorting.
From Stdlib Require Import ZArith QArith Lia Lqa Ascii.
From S2P Require Import Prelude Decimals GoStrings CacheKeys GoTime Limits.
Local Open Scope string_scope.
Local Open Scope list_scope.
Local Open Scope Z_scope.

(** ** The table *)

Section Table.
Context `{DecimalLib, UuidNil}.

Record CounterRow := {
  cr_current_usage : dec;
  cr_reserved_usage : Z;
  cr_last_updated_at : time;
  cr_expires_at : option time }.

(** limit_id, scope_key, period_key *)
Definition counter_key : Type := uuid * string * string.
#[local] Abbreviation Counters := (gmap counter_key CounterRow).

(** The statement [upsertAndIncrementCTEQuery]: the new table, the current usage it
    reports and whether the attempt succeeded. *)
Definition upsertAndIncrementCTEQuery (db : Counters) (k : counter_key) (amount maxAmount : dec)
    (expiresAt : option time) (now : time) : Counters * (dec * bool) :=
  match db !! k with
  | None =>
      (<[k := {| cr_current_usage := amount; cr_reserved_usage := 0;
                 cr_last_updated_at := now; cr_expires_at := expiresAt |}]> db, (amount, true))
  | Some row =>
      let usage := (cr_current_usage row + amount)%dec in
      if dle usage maxAmount then
        (<[k := {| cr_current_usage := usage; cr_reserved_usage := cr_reserved_usage row;
                   cr_last_updated_at := now; cr_expires_at := expiresAt |}]> db, (usage, true))
      else (db, (cr_current_usage row, false))
  end.

(** [UpsertAndIncrementAtomic]: the usage is returned with the error. *)
Definition UpsertAndIncrementAtomic (db : Counters) (dbfail : bool) (k : counter_key)
    (amount maxAmount : dec) (expiresAt : option time) (now : time)
    : Counters * dec * result TracerError unit :=
  if dis_zero amount then (db, dzero, Ok tt) else
  if dis_negative amount then (db, dzero, Err ErrUsageCounterIncrementNonNegative) else
  if dgt amount maxAmount then (db, dzero, Err ErrUsageCounterExceedsLimit) else
  if dbfail then (db, dzero, Err DbError) else
  let '(db', (currentUsage, succeeded)) :=
    upsertAndIncrementCTEQuery db k amount maxAmount expiresAt now in
  if negb succeeded then (db', currentUsage, Err ErrUsageCounterExceedsLimit)
  else (db', currentUsage, Ok tt).

(** [IncrementAtomic], by the row; no row is [ErrUsageCounterNotFound]. *)
Definition IncrementAtomic (db : Counters) (dbfail : bool) (k : counter_key) (amount : dec)
    (now : time) : Counters * result TracerError unit :=
  if dis_negative amount then (db, Err ErrUsageCounterIncrementNonNegative) else
  if dis_zero amount then (db, Ok tt) else
  if dbfail then (db, Err DbError) else
  match db !! k with
  | None => (db, Err ErrUsageCounterNotFound)
  | Some row =>
      (<[k := {| cr_current_usage := (cr_current_usage row + amount)%dec;
                 cr_reserved_usage := cr_reserved_usage row;
                 cr_last_updated_at := now; cr_expires_at := cr_expires_at row |}]> db, Ok tt)
  end.

(** [GetUsageForLimits]: the usage of those of the limits that have a row. *)
Definition GetUsageForLimits (db : Counters) (dbfail : bool) (limitIDs : list uuid)
    (scopeKey periodKey : string) : result TracerError (gmap uuid dec) :=
  if bool_decide (length limitIDs = 0%nat) then Ok ∅ else
  if dbfail then Err DbError else
  Ok (list_to_map (omap (λ id, (λ row, (id, cr_current_usage row)) <$>
                                 db !! (id, scopeKey, periodKey)) limitIDs)).

(** The rows the clean-up statement selects, in the order the database finds them. *)
Definition expired (now : time) (row : CounterRow) : bool :=
  match cr_expires_at row with Some e => time_Before e now | None => false end.

Definition DefaultDeleteBatchSize : nat := 1000.

(** One DELETE ... LIMIT of [DeleteExpiredCounters]; [order] is the order in which
    the database meets the rows. *)
Definition delete_batch (order : list counter_key → list counter_key) (batch : nat) (now : time)
    (db : Counters) : Counters * nat :=
  let found := (map_to_list (filter (λ kr, expired now kr.2 = true) db)).*1 in
  let victims := take batch (order found) in
  (foldr delete db victims, length victims).

(** How a round of [DeleteExpiredCounters] goes: it is answered, the context is cancelled
    before it, there is no connection, the statement fails without effect, its answer is
    lost after it took effect, or the number of rows is not available. *)
Inductive batch_answer :=
  | BatchAnswered | ContextCancelled | NoConnection | ExecFailed | ExecLost | RowsUnknown.
Inductive CleanupError := ErrCleanupCancelled | ErrCleanupConnection | ErrCleanupDelete | ErrCleanupCount.

(** The loop of [DeleteExpiredCounters] from a round on, with the total so far: the
    answers of the rounds to come are an argument, the fuel bounds their number.  The
    total is returned with an error too. *)
Fixpoint DeleteExpiredCounters (order : list counter_key → list counter_key) (batch : nat)
    (now : time) (answers : nat → batch_answer) (fuel : nat) (totalDeleted : nat) (db : Counters)
    : option (Counters * nat * option CleanupError) :=
  match fuel with
  | O => None
  | S fuel =>
      let '(db', rowsAffected) := delete_batch order batch now db in
      match answers O with
      | ContextCancelled => Some (db, totalDeleted, Some ErrCleanupCancelled)
      | NoConnection => Some (db, totalDeleted, Some ErrCleanupConnection)
      | ExecFailed => Some (db, totalDeleted, Some ErrCleanupDelete)
      | ExecLost => Some (db', totalDeleted, Some ErrCleanupDelete)
      | RowsUnknown => Some (db', totalDeleted, Some ErrCleanupCount)
      | BatchAnswered =>
          let totalDeleted := (totalDeleted + rowsAffected)%nat in
          if bool_decide (rowsAffected = 0%nat) then Some (db', totalDeleted, None)
          else DeleteExpiredCounters order batch now (λ i, answers (S i)) fuel totalDeleted db'
      end
  end.

End Table.

Abbreviation Counters := (gmap counter_key CounterRow).

(** ** The limit checker (limit_checker.go) *)

Definition CounterRetentionDays : Z := 90.

Definition calculateCounterExpiresAt (limitType : LimitType) (resetAt customEndDate : option time)
    : option time :=
  match limitType with
  | LimitTypeDaily | LimitTypeWeekly | LimitTypeMonthly =>
      (λ t, time_AddDate t 0 0 CounterRetentionDays) <$> resetAt
  | LimitTypeCustom => (λ t, time_AddDate t 0 0 CounterRetentionDays) <$> customEndDate
  | LimitTypePerTransaction => None
  | LimitTypeOther _ => None
  end.

Section Checker.
Context `{DecimalLib, UuidNil, CurrencyLib}.

Record CheckLimitsInput := {
  ci_Amount : dec;
  ci_Currency : string;
  ci_AccountID : uuid;
  ci_SegmentID : option uuid;
  ci_PortfolioID : option uuid;
  ci_MerchantID : option uuid;
  ci_TransactionType : option TransactionType;
  ci_SubType : option string;
  ci_TransactionTimestamp : time }.

Definition is_ptr_nil_uuid (p : option uuid) : bool :=
  match p with Some u => bool_decide (u = uuid_Nil) | None => false end.

Definition CheckLimitsInput_validate (i : CheckLimitsInput) (requireAccount : bool)
    : result TracerError unit :=
  if dle (ci_Amount i) dzero then Err ErrCheckLimitsInvalidAmount else
  if negb (IsValidCurrency (ci_Currency i)) then Err ErrCheckLimitsInvalidCurrency else
  if requireAccount && bool_decide (ci_AccountID i = uuid_Nil)
  then Err ErrCheckLimitsInvalidAccountID else
  if is_ptr_nil_uuid (ci_SegmentID i) then Err ErrCheckLimitsInvalidSegmentID else
  if is_ptr_nil_uuid (ci_PortfolioID i) then Err ErrCheckLimitsInvalidPortfolioID else
  if is_ptr_nil_uuid (ci_MerchantID i) then Err ErrCheckLimitsInvalidMerchantID else
  if time_IsZero (ci_TransactionTimestamp i) then Err ErrCheckLimitsInvalidTimestamp else
  if match ci_TransactionType i with Some t => negb (TransactionType_IsValid t) | None => false end
  then Err ErrCheckLimitsInvalidTransactionType else
  if match ci_SubType i with Some s => (MaxSubTypeLength <? String.length s)%nat | None => false end
  then Err ErrCheckLimitsInvalidSubType else Ok tt.

(** [NewCheckLimitsInput] normalises the currency, then validates. *)
Definition NewCheckLimitsInput (amount : dec) (currency : string) (accountID : uuid)
    (segmentID portfolioID merchantID : option uuid) (transactionType : option TransactionType)
    (subType : option string) (timestamp : time) : result TracerError CheckLimitsInput :=
  let input := {| ci_Amount := amount;
                  ci_Currency := strings_ToUpper (strings_TrimSpace currency);
                  ci_AccountID := accountID; ci_SegmentID := segmentID;
                  ci_PortfolioID := portfolioID; ci_MerchantID := merchantID;
                  ci_TransactionType := transactionType; ci_SubType := subType;
                  ci_TransactionTimestamp := timestamp |} in
  do! CheckLimitsInput_validate input true;; Ok input.

Record LimitUsageDetail := {
  ud_LimitID : uuid;
  ud_LimitAmount : dec;
  ud_Scope : string;
  ud_Period : LimitType;
  ud_CurrentUsage : dec;
  ud_AttemptedAmount : dec;
  ud_Exceeded : bool;
  ud_Skipped : bool;
  ud_SkipReason : string;
  ud_Scopes : list Scope;
  ud_InternalPeriodKey : string }.

Record CheckLimitsOutput := {
  co_Allowed : bool;
  co_ExceededLimitIDs : list uuid;
  co_LimitUsageDetails : list LimitUsageDetail;
  co_EvaluatedAt : time }.

Definition RemainingAmount (d : LimitUsageDetail) : dec :=
  if dle (ud_CurrentUsage d) dzero then ud_LimitAmount d else
  if dge (ud_CurrentUsage d) (ud_LimitAmount d) then dzero else
  (ud_LimitAmount d - ud_CurrentUsage d)%dec.

Definition buildTransactionScope (input : CheckLimitsInput) : Scope := {|
  sc_SegmentID := ci_SegmentID input; sc_PortfolioID := ci_PortfolioID input;
  sc_AccountID := Some (ci_AccountID input); sc_MerchantID := ci_MerchantID input;
  sc_TransactionType := ci_TransactionType input; sc_SubType := ci_SubType input |}.

Definition scopeMatchesLimit (limitScopes : list Scope) (txScope : option Scope) : bool :=
  match limitScopes, txScope with
  | [], _ => true
  | _, None => false
  | _, Some tx => existsb (λ s, Scope_Matches s tx) limitScopes
  end.

(** The key of the first scope of the limit that matches the transaction. *)
Definition calculateScopeKeyFromScopes (scopes : list Scope) (txScope : Scope) : string :=
  match scopes with
  | [] => GlobalScopeKey
  | _ =>
      match List.find (λ s, Scope_Matches s txScope) scopes with
      | Some s => CalculateScopeKey (Some s)
      | None => CalculateScopeKey (Some txScope)
      end
  end.

Definition formatScopeString (scopes : list Scope) : string :=
  match scopes with
  | [] => GlobalScopeKey
  | _ =>
      let field {A} k (f : A → string) (p : option A) :=
        match p with Some x => [k +:+ f x] | None => [] end in
      let fields s :=
        field "account:" uuid_String (sc_AccountID s) ++
        field "segment:" uuid_String (sc_SegmentID s) ++
        field "portfolio:" uuid_String (sc_PortfolioID s) ++
        field "merchant:" uuid_String (sc_MerchantID s) ++
        field "transactionType:" TransactionType_String (sc_TransactionType s) ++
        field "subType:" (λ x, x) (sc_SubType s) in
      let scopeGroups := omap (λ s, match fields s with
                                    | [] => None
                                    | fs => Some ("(" +:+ strings_Join "," fs +:+ ")")
                                    end) scopes in
      match scopeGroups with
      | [] => GlobalScopeKey
      | _ => strings_Join " OR " scopeGroups
      end
  end.

Definition mk_detail (limit : Limit) (input : CheckLimitsInput) (usage : dec)
    (exceeded skipped : bool) (reason periodKey : string) : LimitUsageDetail := {|
  ud_LimitID := lim_ID limit; ud_LimitAmount := lim_MaxAmount limit;
  ud_Scope := formatScopeString (lim_Scopes limit); ud_Period := lim_LimitType limit;
  ud_CurrentUsage := usage; ud_AttemptedAmount := ci_Amount input;
  ud_Exceeded := exceeded; ud_Skipped := skipped; ud_SkipReason := reason;
  ud_Scopes := lim_Scopes limit; ud_InternalPeriodKey := periodKey |}.

Definition skipIfOutsideTimeWindow (limit : Limit) (input : CheckLimitsInput) (serverNow : time)
    : option LimitUsageDetail :=
  if negb (Limit_IsWithinTimeWindow limit serverNow)
  then Some (mk_detail limit input dzero false true "outside_time_window" "") else None.

Definition skipIfOutsideCustomPeriod (limit : Limit) (input : CheckLimitsInput) (serverNow : time)
    : option LimitUsageDetail :=
  if negb (Limit_IsWithinCustomPeriod limit serverNow)
  then Some (mk_detail limit input dzero false true "outside_custom_period" "") else None.

Definition handlePerTransactionLimit (limit : Limit) (input : CheckLimitsInput)
    : LimitUsageDetail * bool :=
  let exceeded := dgt (ci_Amount input) (lim_MaxAmount limit) in
  (mk_detail limit input dzero exceeded false "" "", exceeded).

(** One limit: the table afterwards, the detail and whether it was exceeded.
    [dbfail] is the fate of the statement it issues. *)
Definition processLimitAtomic (db : Counters) (dbfail : bool) (limit : Limit)
    (input : CheckLimitsInput) (scopeKey : string) (serverNow : time)
    : Counters * result TracerError (LimitUsageDetail * bool) :=
  match skipIfOutsideTimeWindow limit input serverNow with
  | Some detail => (db, Ok (detail, false))
  | None =>
  match skipIfOutsideCustomPeriod limit input serverNow with
  | Some detail => (db, Ok (detail, false))
  | None =>
  if bool_decide (lim_LimitType limit = LimitTypePerTransaction)
  then (db, Ok (handlePerTransactionLimit limit input)) else
  match CalculatePeriodKey (lim_LimitType limit) serverNow with
  | Err e => (db, Err e)
  | Ok periodKey =>
      let resetAt := CalculateResetAt (lim_LimitType limit) serverNow in
      let expiresAt := calculateCounterExpiresAt (lim_LimitType limit) resetAt
                         (lim_CustomEndDate limit) in
      if dgt (ci_Amount input) (lim_MaxAmount limit) then
        match GetUsageForLimits db dbfail [lim_ID limit] scopeKey periodKey with
        | Err e => (db, Err e)
        | Ok usageMap =>
            let currentUsage := default dzero (usageMap !! lim_ID limit) in
            (db, Ok (mk_detail limit input (currentUsage + ci_Amount input)%dec
                       true false "" periodKey, true))
        end
      else
        let '(db', newUsage, r) :=
          UpsertAndIncrementAtomic db dbfail (lim_ID limit, scopeKey, periodKey)
            (ci_Amount input) (lim_MaxAmount limit) expiresAt serverNow in
        match r with
        | Err ErrUsageCounterExceedsLimit =>
            (db', Ok (mk_detail limit input (newUsage + ci_Amount input)%dec
                        true false "" periodKey, true))
        | Err e => (db', Err e)
        | Ok _ => (db', Ok (mk_detail limit input newUsage false false "" periodKey, false))
        end
  end end end.

(** *** The applicable limits, page by page

    [List] is the limit repository (limit_repository.go); a page is its limits, the
    cursor of the next one and whether there is a next one. *)

Definition page_filter (currency cursor : string) : ListLimitsFilter := {|
  lf_Status := Some LimitStatusActive; lf_LimitType := None; lf_Currency := Some currency;
  lf_Limit := MaxPaginationLimit; lf_Cursor := cursor; lf_SortBy := ""; lf_SortOrder := "" |}.

Record ListLimitsResult := { lr_Limits : list Limit; lr_NextCursor : string; lr_HasMore : bool }.

Section Pages.
Variable List : ListLimitsFilter → result TracerError ListLimitsResult.

(** The loop over pages; [None] when the fuel runs out. *)
Fixpoint all_pages (fuel : nat) (currency cursor : string) (allLimits : list Limit)
    : option (result TracerError (list Limit)) :=
  match fuel with
  | O => None
  | S fuel =>
      match List (page_filter currency cursor) with
      | Err e => Some (Err e)
      | Ok page =>
          let allLimits := allLimits ++ lr_Limits page in
          if negb (lr_HasMore page) || bool_decide (lr_NextCursor page = "")
          then Some (Ok allLimits)
          else all_pages fuel currency (lr_NextCursor page) allLimits
      end
  end.

Definition getApplicableLimits (fuel : nat) (input : CheckLimitsInput)
    : option (result TracerError (list Limit)) :=
  match all_pages fuel (ci_Currency input) "" [] with
  | None => None
  | Some (Err e) => Some (Err e)
  | Some (Ok allLimits) =>
      Some (Ok (filter (λ l, scopeMatchesLimit (lim_Scopes l) (Some (buildTransactionScope input)) = true)
                  allLimits))
  end.

End Pages.

(** *** The check *)

Fixpoint process_limits (db : Counters) (dbfail : uuid → bool) (limits : list Limit)
    (input : CheckLimitsInput) (serverNow : time)
    : Counters * result TracerError (list LimitUsageDetail * list uuid) :=
  match limits with
  | [] => (db, Ok ([], []))
  | limit :: rest =>
      let scopeKey := calculateScopeKeyFromScopes (lim_Scopes limit) (buildTransactionScope input) in
      match processLimitAtomic db (dbfail (lim_ID limit)) limit input scopeKey serverNow with
      | (db1, Err e) => (db1, Err e)
      | (db1, Ok (detail, exceeded)) =>
          match process_limits db1 dbfail rest input serverNow with
          | (db2, Err e) => (db2, Err e)
          | (db2, Ok (details, ids)) =>
              (db2, Ok (detail :: details, if exceeded then lim_ID limit :: ids else ids))
          end
      end
  end.

Definition NewCheckLimitsOutput (allowed : bool) (evaluatedAt : time) : CheckLimitsOutput := {|
  co_Allowed := allowed; co_ExceededLimitIDs := []; co_LimitUsageDetails := [];
  co_EvaluatedAt := evaluatedAt |}.

(** [checkLimitsInternal] after the limits are resolved: [limits] is the result of
    [getApplicableLimits].  The counters it returns are those of the transaction it
    runs in, before the caller commits or rolls back. *)
Definition checkLimitsInternal (db : Counters) (dbfail : uuid → bool) (input : option CheckLimitsInput)
    (limits : CheckLimitsInput → result TracerError (list Limit)) (serverNow : time)
    : Counters * result TracerError CheckLimitsOutput :=
  match input with
  | None => (db, Err ErrCheckLimitsNilInput)
  | Some input =>
      match CheckLimitsInput_validate input true with
      | Err e => (db, Err e)
      | Ok _ =>
      match limits input with
      | Err e => (db, Err e)
      | Ok [] => (db, Ok (NewCheckLimitsOutput true serverNow))
      | Ok limits =>
          match process_limits db dbfail limits input serverNow with
          | (db', Err e) => (db', Err e)
          | (db', Ok (details, ids)) =>
              (db', Ok {| co_Allowed := bool_decide (length ids = 0%nat);
                          co_ExceededLimitIDs := ids; co_LimitUsageDetails := details;
                          co_EvaluatedAt := serverNow |})
          end
      end end
  end.

End Checker.

(** ** What a check decides *)

Section CheckerSpec.
Local Open Scope Q_scope.
Context `{DecimalLaws, UuidNil, CurrencyLib}.

(** Whether the limit is in force at all at [now]. *)
Definition in_force (l : Limit) (now : time) : bool :=
  Limit_IsWithinTimeWindow l now && Limit_IsWithinCustomPeriod l now.

(** The counter of a limit for a transaction, if it has one. *)
Definition limit_counter (l : Limit) (input : CheckLimitsInput) (now : time) : option counter_key :=
  if bool_decide (lim_LimitType l = LimitTypePerTransaction) then None else
  match CalculatePeriodKey (lim_LimitType l) now with
  | Ok p => Some (lim_ID l, calculateScopeKeyFromScopes (lim_Scopes l) (buildTransactionScope input), p)
  | Err _ => None
  end.

Definition committed (db : Counters) (k : counter_key) : dec :=
  match db !! k with Some row => cr_current_usage row | None => dzero end.

(** The abstract decision: the amount fits the cap, and for a limit with a counter
    so does the amount on top of what is already counted. *)
Definition limit_admits (db : Counters) (l : Limit) (input : CheckLimitsInput) (now : time) : bool :=
  negb (in_force l now) ||
  (dle (ci_Amount input) (lim_MaxAmount l) &&
   match limit_counter l input now with
   | Some k => dle (committed db k + ci_Amount input)%dec (lim_MaxAmount l)
   | None => true
   end).

(** What an admitted transaction adds to a counter. *)
Definition counted (db : Counters) (l : Limit) (input : CheckLimitsInput) (now : time)
    (k : counter_key) : bool :=
  in_force l now && limit_admits db l input now &&
  bool_decide (limit_counter l input now = Some k).

Lemma dle_dgt a b : dgt a b = negb (dle a b).
Proof. unfold dgt, dle. by destruct (dcmp a b). Qed.

Lemma cte_other db k a m e now k' :
  k ≠ k' → (upsertAndIncrementCTEQuery db k a m e now).1 !! k' = db !! k'.
Proof.
  intros Hk. unfold upsertAndIncrementCTEQuery. destruct (db !! k) as [row|]; cbn [fst].
  - destruct (dle _ _); cbn [fst]; [by apply lookup_insert_ne|done].
  - by apply lookup_insert_ne.
Qed.

(** The statement succeeds exactly when the sum fits, provided the amount does. *)
Lemma cte_spec db k a m e now :
  dle a m = true →
  let '(db', (usage, ok)) := upsertAndIncrementCTEQuery db k a m e now in
  ok = dle (committed db k + a)%dec m ∧
  dval (committed db' k) == dval (committed db k) + (if ok then dval a else 0) ∧
  (ok = true → dval (committed db' k) <= dval m) ∧ (ok = false → db' = db).
Proof.
  intros Hle. unfold upsertAndIncrementCTEQuery, committed.
  destruct (db !! k) as [row|] eqn:E; simpl.
  - destruct (dle (cr_current_usage row + a)%dec m) eqn:Eo; simpl; rewrite ?lookup_insert_eq, ?E; simpl.
    + split_and!; [done| |by intros _; apply dle_spec|done]. by rewrite dval_add.
    + split_and!; [done|lra|done|done].
  - rewrite lookup_insert_eq. simpl. split_and!; [|rewrite dval_zero; lra|by intros _; apply dle_spec|done].
    symmetry. apply dle_spec. rewrite dval_add, dval_zero. apply dle_spec in Hle. lra.
Qed.

Lemma committed_ne (db db' : Counters) k : db !! k = db' !! k → committed db k = committed db' k.
Proof. unfold committed. by intros ->. Qed.

Lemma cte_reserved db k a m e now k' :
  cr_reserved_usage <$> (upsertAndIncrementCTEQuery db k a m e now).1 !! k' =
    cr_reserved_usage <$> db !! k' ∨
  (db !! k' = None ∧ cr_reserved_usage <$> (upsertAndIncrementCTEQuery db k a m e now).1 !! k' = Some 0%Z).
Proof.
  destruct (decide (k = k')) as [<-|Hk]; [|rewrite cte_other by done; by left].
  unfold upsertAndIncrementCTEQuery. destruct (db !! k) as [row|] eqn:E; simpl.
  - destruct (dle _ _); simpl; rewrite ?lookup_insert_eq, ?E; by left.
  - rewrite lookup_insert_eq. by right.
Qed.

(** The input the checker accepts has a positive amount. *)
Lemma valid_input_positive i b : CheckLimitsInput_validate i b = Ok tt → 0 < dval (ci_Amount i).
Proof.
  unfold CheckLimitsInput_validate. destruct (dle (ci_Amount i) dzero) eqn:E; [done|]. intros _.
  assert (dgt (ci_Amount i) dzero = true) as Hg by (rewrite dle_dgt, E; done).
  apply dgt_spec in Hg. rewrite dval_zero in Hg. done.
Qed.

(** One limit: the decision is [limit_admits], and exactly the counter of an
    admitted limit in force moves, by the amount. *)
Lemma processLimit_spec db l input now :
  0 < dval (ci_Amount input) → LimitType_IsValid (lim_LimitType l) = true →
  ∃ db' d, processLimitAtomic db false l input
             (calculateScopeKeyFromScopes (lim_Scopes l) (buildTransactionScope input)) now =
           (db', Ok (d, negb (limit_admits db l input now))) ∧
  (∀ k, dval (committed db' k) ==
        dval (committed db k) + (if counted db l input now k then dval (ci_Amount input) else 0)) ∧
  (∀ k, k.1.1 ≠ lim_ID l → db' !! k = db !! k) ∧
  (∀ k row', db' !! k = Some row' → db !! k = Some row' ∨
     dval (cr_current_usage row') <= dval (lim_MaxAmount l)).
Proof.
  intros Hpos Hty. unfold processLimitAtomic, skipIfOutsideTimeWindow, skipIfOutsideCustomPeriod.
  unfold limit_admits, counted, in_force.
  destruct (Limit_IsWithinTimeWindow l now) eqn:Ew; simpl;
    [|eexists _, _; split_and!; [done|intros; lra|done|auto]].
  destruct (Limit_IsWithinCustomPeriod l now) eqn:Ec; simpl;
    [|eexists _, _; split_and!; [done|intros; lra|done|auto]].
  unfold limit_admits, in_force, limit_counter. rewrite Ew, Ec. simpl.
  case_bool_decide as Hpt.
  { rewrite andb_true_r. unfold handlePerTransactionLimit. rewrite dle_dgt.
    eexists _, _; split_and!; [done| |done|auto]. intros k.
    rewrite (bool_decide_false (None = Some k)), andb_false_r by done. lra. }
  destruct (CalculatePeriodKey (lim_LimitType l) now) as [p|] eqn:Ep;
    [|by destruct (lim_LimitType l)].
  rewrite dle_dgt. destruct (dle (ci_Amount input) (lim_MaxAmount l)) eqn:Ele; simpl.
  2: { eexists _, _; split_and!; [done|intros; lra|done|auto]. }
  set (k0 := (lim_ID l, calculateScopeKeyFromScopes _ _, p)).
  unfold UpsertAndIncrementAtomic.
  assert (dis_zero (ci_Amount input) = false) as -> by (apply dis_zero_false; lra).
  assert (dis_negative (ci_Amount input) = false) as -> by (apply dis_negative_false; lra).
  rewrite dle_dgt, Ele. simpl.
  pose proof (cte_spec db k0 (ci_Amount input) (lim_MaxAmount l)
    (calculateCounterExpiresAt (lim_LimitType l) (CalculateResetAt (lim_LimitType l) now)
       (lim_CustomEndDate l)) now Ele) as Hs.
  pose proof (λ k', cte_other db k0 (ci_Amount input) (lim_MaxAmount l)
    (calculateCounterExpiresAt (lim_LimitType l) (CalculateResetAt (lim_LimitType l) now)
       (lim_CustomEndDate l)) now k') as Ho.
  destruct (upsertAndIncrementCTEQuery _ _ _ _ _ _) as [db' [usage ok]]. cbn [fst] in Ho.
  destruct Hs as (Hok & Hval & Hmax & Hdb).
  assert (∀ k, dval (committed db' k) == dval (committed db k) +
    (if ok && bool_decide (Some k0 = Some k) then dval (ci_Amount input) else 0)) as Hv.
  { intros k. destruct (decide (k0 = k)) as [<-|Hk].
    - rewrite bool_decide_true, andb_true_r by done. exact Hval.
    - rewrite bool_decide_false, andb_false_r by congruence.
      rewrite (committed_ne db' db k) by auto. lra. }
  assert (∀ k, k.1.1 ≠ lim_ID l → db' !! k = db !! k) as Hne.
  { intros k Hk. apply Ho. by intros <-. }
  assert (∀ k row', db' !! k = Some row' → db !! k = Some row' ∨
     dval (cr_current_usage row') <= dval (lim_MaxAmount l)) as Hc.
  { intros k row' Hr. destruct (decide (k0 = k)) as [<-|Hk]; [|left; by rewrite <- Ho].
    destruct ok; [right|left; by rewrite <- (Hdb eq_refl)].
    specialize (Hmax eq_refl). unfold committed in Hmax. by rewrite Hr in Hmax. }
  rewrite Hok in Hv. destruct ok; simpl; rewrite <- Hok in *; simpl in *;
    eexists _, _; split_and!; [done|exact Hv|done|done|done| |done|done].
  exact Hv.
Qed.

Lemma limit_counter_id l input now k : limit_counter l input now = Some k → k.1.1 = lim_ID l.
Proof.
  unfold limit_counter. case_bool_decide; [done|].
  destruct (CalculatePeriodKey _ _); [|done]. by intros [= <-].
Qed.

(** A decision only looks at the limit's own counters. *)
Lemma limit_admits_frame db db' l input now :
  (∀ k, k.1.1 = lim_ID l → db' !! k = db !! k) →
  limit_admits db' l input now = limit_admits db l input now.
Proof.
  intros Hk. unfold limit_admits. do 2 f_equal.
  destruct (limit_counter l input now) as [k|] eqn:E; [|done].
  apply limit_counter_id in E. by rewrite (committed_ne db' db k) by auto.
Qed.

(** All the limits of a check, when the database answers. *)
Lemma process_limits_spec limits : ∀ db input now,
  0 < dval (ci_Amount input) →
  Forall (λ l, LimitType_IsValid (lim_LimitType l) = true) limits →
  NoDup (lim_ID <$> limits) →
  ∃ db' details, process_limits db (λ _, false) limits input now =
    (db', Ok (details, lim_ID <$> filter (λ l, limit_admits db l input now = false) limits)) ∧
  (∀ k, dval (committed db' k) == dval (committed db k) +
        (if existsb (λ l, counted db l input now k) limits then dval (ci_Amount input) else 0)) ∧
  (∀ k row', db' !! k = Some row' → db !! k = Some row' ∨
     ∃ l, l ∈ limits ∧ lim_ID l = k.1.1 ∧ dval (cr_current_usage row') <= dval (lim_MaxAmount l)).
Proof.
  induction limits as [|l limits IH]; intros db input now Hpos Hty Hnd.
  { eexists _, _; split_and!; [done|intros; simpl; lra|auto]. }
  apply Forall_cons in Hty as [Hl Hty]. simpl in Hnd. apply NoDup_cons in Hnd as [Hnin Hnd].
  destruct (processLimit_spec db l input now Hpos Hl) as (db1 & d & E & Hv & Hne & Hc).
  destruct (IH db1 input now Hpos Hty Hnd) as (db2 & ds & E2 & Hv2 & Hc2).
  assert (∀ l', l' ∈ limits → limit_admits db1 l' input now = limit_admits db l' input now ∧
                              ∀ k, counted db1 l' input now k = counted db l' input now k) as Hfr.
  { intros l' Hl'. assert (limit_admits db1 l' input now = limit_admits db l' input now) as Ha.
    { apply limit_admits_frame. intros k Hk. apply Hne. rewrite Hk.
      intros Heq. apply Hnin. rewrite <- Heq. by apply list_elem_of_fmap_2. }
    split; [done|]. intros k. unfold counted. by rewrite Ha. }
  simpl. rewrite E, E2. eexists _, _. split_and!.
  - do 3 f_equal.
    assert (filter (λ l, limit_admits db1 l input now = false) limits =
            filter (λ l, limit_admits db l input now = false) limits) as ->.
    { clear -Hfr. induction limits as [|x xs IHx]; [done|]. rewrite !filter_cons.
      rewrite (proj1 (Hfr x ltac:(set_solver))), IHx; [done|]. intros; apply Hfr. set_solver. }
    rewrite filter_cons. by destruct (limit_admits db l input now).
  - intros k. rewrite (Hv2 k), (Hv k).
    assert (existsb (λ l', counted db1 l' input now k) limits =
            existsb (λ l', counted db l' input now k) limits) as ->.
    { clear -Hfr. induction limits as [|x xs IHx]; [done|]. simpl.
      rewrite (proj2 (Hfr x ltac:(set_solver))), IHx; [done|]. intros; apply Hfr. set_solver. }
    destruct (counted db l input now k) eqn:Ek; simpl;
      destruct (existsb (λ l', counted db l' input now k) limits) eqn:Ex; try lra. exfalso.
    apply existsb_exists in Ex as (l' & Hl' & Ex). apply Hnin.
    unfold counted in Ek, Ex. bool_facts.
    repeat match goal with E : limit_counter _ _ _ = Some k |- _ => apply limit_counter_id in E end.
    apply list_elem_of_In in Hl'. replace (lim_ID l) with (lim_ID l') by congruence.
    by apply list_elem_of_fmap_2.
  - intros k row' Hr. destruct (Hc2 k row' Hr) as [Hr1|(l' & Hl' & Hid & Hm)].
    + destruct (decide (k.1.1 = lim_ID l)) as [Hk|Hk].
      * destruct (Hc k row' Hr1) as [?|Hm]; [by left|right]. exists l. split_and!; [set_solver|done|done].
      * left. by rewrite <- Hne.
    + right. exists l'. split_and!; [set_solver|done|done].
Qed.

Lemma check_limits_outcome db input limits now :
  CheckLimitsInput_validate input true = Ok tt →
  Forall (λ l, LimitType_IsValid (lim_LimitType l) = true) limits →
  NoDup (lim_ID <$> limits) →
  ∃ db' out,
    checkLimitsInternal db (λ _, false) (Some input) (λ _, Ok limits) now = (db', Ok out) ∧
    co_Allowed out = forallb (λ l, limit_admits db l input now) limits ∧
    co_ExceededLimitIDs out = lim_ID <$> filter (λ l, limit_admits db l input now = false) limits ∧
    ∀ k, dval (committed db' k) == dval (committed db k) +
         (if existsb (λ l, counted db l input now k) limits then dval (ci_Amount input) else 0).
Proof.
  intros Hi Hty Hnd. pose proof (valid_input_positive _ _ Hi) as Hpos.
  unfold checkLimitsInternal. rewrite Hi. destruct limits as [|l0 ls].
  { eexists _, _; split_and!; [done..|intros; simpl; lra]. }
  destruct (process_limits_spec (l0 :: ls) db input now Hpos Hty Hnd) as (db' & ds & E & Hv & _).
  rewrite E. eexists _, _. split_and!; [done| |done|done]. simpl co_Allowed.
  rewrite length_fmap. generalize (l0 :: ls). clear. induction l as [|x l IH]; [done|].
  simpl. rewrite <- IH, filter_cons. by destruct (limit_admits db x input now).
Qed.

(** A statement that fails ends the check with an error: a check that ends without
    one met no failure. *)
Lemma processLimit_no_fault db b l input sk now db' r :
  processLimitAtomic db b l input sk now = (db', Ok r) →
  processLimitAtomic db false l input sk now = (db', Ok r).
Proof.
  destruct b; [|done]. unfold processLimitAtomic, GetUsageForLimits, UpsertAndIncrementAtomic.
  destruct (skipIfOutsideTimeWindow _ _ _); [done|]. destruct (skipIfOutsideCustomPeriod _ _ _); [done|].
  case_bool_decide; [done|]. destruct (CalculatePeriodKey _ _); [|done].
  destruct (dgt _ _); [done|]. destruct (dis_zero _); [done|]. by destruct (dis_negative _).
Qed.

Lemma process_limits_no_fault limits : ∀ db fail input now db' r,
  process_limits db fail limits input now = (db', Ok r) →
  process_limits db (λ _, false) limits input now = (db', Ok r).
Proof.
  induction limits as [|l limits IH]; intros db fail input now db' r; [done|]. cbn [process_limits].
  destruct (processLimitAtomic db (fail (lim_ID l)) l input _ now) as [db1 [[d ex]|e]] eqn:E1; [|done].
  rewrite (processLimit_no_fault _ _ _ _ _ _ _ _ E1).
  destruct (process_limits db1 fail limits input now) as [db2 [[ds ids]|e]] eqn:E2; [|done].
  by rewrite (IH _ _ _ _ _ _ E2).
Qed.

Lemma check_limits_no_fault db fail input limits now db' out :
  checkLimitsInternal db fail input limits now = (db', Ok out) →
  checkLimitsInternal db (λ _, false) input limits now = (db', Ok out).
Proof.
  unfold checkLimitsInternal. destruct input as [i|]; [|done].
  destruct (CheckLimitsInput_validate i true); [|done]. destruct (limits i) as [[|l ls]|]; [done| |done].
  destruct (process_limits db fail (l :: ls) i now) as [db1 [r|]] eqn:E; [|done].
  by rewrite (process_limits_no_fault _ _ _ _ _ _ _ E).
Qed.

(** C16: the limit checker is exact: with a database that answers, a valid
    transaction is allowed exactly when every applicable limit in force admits it
    (the amount fits the cap, and so does the amount on top of what is counted in the
    current period and scope), the limits reported as exceeded are exactly those that
    do not admit it, and each counter moves by exactly the amount if its limit is in
    force and admits the transaction, and not at all otherwise. *)
Theorem check_limits_exact db input limits now :
  CheckLimitsInput_validate input true = Ok tt →
  Forall (λ l, LimitType_IsValid (lim_LimitType l) = true) limits →
  NoDup (lim_ID <$> limits) →
  ∃ db' out,
    checkLimitsInternal db (λ _, false) (Some input) (λ _, Ok limits) now = (db', Ok out) ∧
    co_Allowed out = forallb (λ l, limit_admits db l input now) limits ∧
    co_ExceededLimitIDs out = lim_ID <$> filter (λ l, limit_admits db l input now = false) limits ∧
    ∀ k, dval (committed db' k) == dval (committed db k) +
         (if existsb (λ l, counted db l input now k) limits then dval (ci_Amount input) else 0).
Proof. apply check_limits_outcome. Qed.

(** No check ever pushes a counter over its cap, whatever fails: every row the
    check leaves that it did not find has a usage of at most the maximum of an active
    limit it was given (the guards are in the statement itself, so this holds for any
    state of the table, also for the limits checked before a failure). *)
Theorem check_never_over_cap limits : ∀ db fail input now (k : counter_key) row',
  0 < dval (ci_Amount input) →
  (process_limits db fail limits input now).1 !! k = Some row' →
  db !! k = Some row' ∨
  ∃ l, l ∈ limits ∧ lim_ID l = k.1.1 ∧ dval (cr_current_usage row') <= dval (lim_MaxAmount l).
Proof.
  induction limits as [|l limits IH]; intros db fail input now k row' Hpos; [by left|].
  simpl. set (sk := calculateScopeKeyFromScopes _ _).
  assert (∀ (k : counter_key) row', (processLimitAtomic db (fail (lim_ID l)) l input sk now).1 !! k = Some row' →
    db !! k = Some row' ∨ lim_ID l = k.1.1 ∧ dval (cr_current_usage row') <= dval (lim_MaxAmount l)) as Hone.
  { clear k row' IH. intros k row'. unfold processLimitAtomic.
    destruct (skipIfOutsideTimeWindow _ _ _); [by left|].
    destruct (skipIfOutsideCustomPeriod _ _ _); [by left|].
    case_bool_decide; [by left|]. destruct (CalculatePeriodKey _ _) as [p|]; [|by left].
    destruct (dgt _ _) eqn:Eg; [destruct (GetUsageForLimits _ _ _ _ _); by left|].
    unfold UpsertAndIncrementAtomic.
    destruct (dis_zero _); [by left|]. destruct (dis_negative _); [by left|].
    rewrite Eg. destruct (fail (lim_ID l)); [by left|].
    pose proof (cte_spec db (lim_ID l, sk, p) (ci_Amount input) (lim_MaxAmount l)
      (calculateCounterExpiresAt (lim_LimitType l) (CalculateResetAt (lim_LimitType l) now)
         (lim_CustomEndDate l)) now) as Hs.
    pose proof (cte_other db (lim_ID l, sk, p) (ci_Amount input) (lim_MaxAmount l)
      (calculateCounterExpiresAt (lim_LimitType l) (CalculateResetAt (lim_LimitType l) now)
         (lim_CustomEndDate l)) now k) as Ho.
    rewrite dle_dgt in Eg. apply negb_false_iff in Eg. specialize (Hs Eg).
    destruct (upsertAndIncrementCTEQuery _ _ _ _ _ _) as [db' [u ok]]. cbn [fst] in Ho.
    destruct Hs as (_ & _ & Hm & Hd). intros Hr.
    assert (db' !! k = Some row') as Hr' by (destruct ok; exact Hr). clear Hr.
    destruct (decide ((lim_ID l, sk, p) = k)) as [<-|Hk]; [|left; by rewrite (Ho Hk) in Hr'].
    destruct ok; [right|left; by rewrite (Hd eq_refl) in Hr']. split; [done|].
    specialize (Hm eq_refl). unfold committed in Hm. by rewrite Hr' in Hm. }
  destruct (processLimitAtomic _ _ _ _ _ _) as [db1 [[d ex]|e]]; cbn [fst] in *.
  - specialize (IH db1 fail input now k row' Hpos).
    destruct (process_limits db1 fail limits input now) as [db2 [[ds ids]|e]]; cbn [fst] in *;
      intros Hr; destruct (IH Hr) as [Hr1|(l' & ? & ? & ?)];
      try (right; exists l'; split_and!; [set_solver|done|done]);
      destruct (Hone _ _ Hr1) as [?|[? ?]]; try (by left);
      right; exists l; split_and!; [set_solver|done|done|set_solver|done|done].
  - intros Hr. destruct (Hone _ _ Hr) as [?|[? ?]]; [by left|].
    right. exists l. split_and!; [set_solver|done|done].
Qed.

End CheckerSpec.

(** ** Cleaning up *)

Lemma foldr_delete_lookup `{DecimalLib, UuidNil} (db : Counters) (l : list counter_key) k :
  foldr delete db l !! k = if decide (k ∈ l) then None else db !! k.
Proof.
  induction l as [|x l IH]; cbn [foldr]; [by rewrite decide_False by set_solver|].
  destruct (decide (x = k)) as [->|Hne].
  - rewrite lookup_delete_eq. by rewrite decide_True by set_solver.
  - rewrite lookup_delete_ne, IH by done. do 2 case_decide; set_solver.
Qed.

Section Cleanup.
Context `{DecimalLib, UuidNil}.
Variable order : list counter_key → list counter_key.
Hypothesis order_perm : ∀ l, order l ≡ₚ l.

(** The rows that stay and the rows that go. *)
Definition live (now : time) (db : Counters) : Counters :=
  filter (λ kr, expired now kr.2 = false) db.
Definition dead (now : time) (db : Counters) : Counters :=
  filter (λ kr, expired now kr.2 = true) db.

Lemma victims_dead (now : time) (db : Counters) n (k : counter_key) :
  k ∈ take n (order (map_to_list (dead now db)).*1) → is_Some (dead now db !! k).
Proof.
  intros Hk%elem_of_take. destruct Hk as (i & Hi & _). apply list_elem_of_lookup_2 in Hi.
  rewrite order_perm in Hi. apply list_elem_of_fmap in Hi as ([k' r] & -> & Hi).
  apply elem_of_map_to_list in Hi. eauto.
Qed.

(** One batch removes only expired rows, as many as it says. *)
Lemma delete_batch_spec (now : time) (batch : nat) (db : Counters) db' n :
  delete_batch order batch now db = (db', n) →
  n = min batch (size (dead now db)) ∧ live now db' = live now db ∧ db' ⊆ db ∧
  size (dead now db') = (size (dead now db) - n)%nat.
Proof.
  unfold delete_batch. fold (dead now db). intros [= <- <-]. set (found := (map_to_list (dead now db)).*1).
  assert (length (order found) = size (dead now db)) as Hlen.
  { rewrite order_perm. unfold found. rewrite length_fmap. apply length_map_to_list. }
  assert (NoDup (order found)) as Hnd.
  { rewrite order_perm. apply NoDup_fst_map_to_list. }
  split_and!; [by rewrite length_take, Hlen| | |].
  - apply map_eq. intros k. apply option_eq. intros r. unfold live.
    rewrite !map_lookup_filter_Some, foldr_delete_lookup. case_decide as Hk; [|done].
    apply victims_dead in Hk as [r' Hr']. apply map_lookup_filter_Some in Hr' as [Hr' He].
    split; [naive_solver|]. intros [Hr Hf]. simpl in *. congruence.
  - apply map_subseteq_spec. intros k r. rewrite foldr_delete_lookup. by case_decide.
  - assert (dead now (foldr delete db (take batch (order found))) =
            foldr delete (dead now db) (take batch (order found))) as ->.
    { apply map_eq. intros k. apply option_eq. intros r. unfold dead at 1.
      rewrite map_lookup_filter_Some, !foldr_delete_lookup. case_decide; [naive_solver|].
      unfold dead. by rewrite map_lookup_filter_Some. }
    assert (NoDup (take batch (order found))) as Hnd' by (eapply sublist_NoDup; [exact Hnd|apply sublist_take]).
    assert (∀ k, k ∈ take batch (order found) → is_Some (dead now db !! k)) as Hin
      by (intros; by eapply victims_dead).
    revert Hnd' Hin. generalize (take batch (order found)). generalize (dead now db). clear.
    intros m l. induction l as [|x l IH]; intros Hnd Hin; simpl; [lia|].
    apply NoDup_cons in Hnd as [Hx Hnd]. rewrite map_size_delete, foldr_delete_lookup.
    rewrite decide_False by done. destruct (Hin x ltac:(set_solver)) as [r ->].
    rewrite IH; [lia|done|]. intros; apply Hin; set_solver.
Qed.

(** How far a clean-up got: only expired rows are gone; without an error all of them are,
    and the total is their number; with an error the total is the number of removed rows,
    except that the rows of the last batch are missing from it when the batch took effect
    and its answer or its count was lost. *)
Definition cleaned_up (batch : nat) (now : time) (db : Counters) (total : nat) (db' : Counters) (total' : nat)
    (err : option CleanupError) : Prop :=
  db' ⊆ db ∧ live now db' = live now db ∧
  match err with
  | None => db' = live now db ∧ total' = (total + size (dead now db))%nat
  | Some (ErrCleanupCancelled | ErrCleanupConnection) => (total' + size (dead now db') = total + size (dead now db))%nat
  | Some (ErrCleanupDelete | ErrCleanupCount) =>
      (total' + size (dead now db') <= total + size (dead now db) <= total' + size (dead now db') + batch)%nat
  end.

Lemma nothing_expired (now : time) (db : Counters) : size (dead now db) = 0%nat → db = live now db.
Proof.
  intros Hz. symmetry. apply map_filter_id. intros k r Hk. simpl. destruct (expired now r) eqn:Er; [exfalso|done].
  assert (dead now db !! k = Some r) as Hc by (by apply map_lookup_filter_Some).
  apply map_size_empty_inv in Hz. by rewrite Hz, lookup_empty in Hc.
Qed.

Lemma cleanup_round (batch : nat) (now : time) : (0 < batch)%nat → ∀ fuel answers total (db : Counters),
  (size (dead now db) < fuel)%nat →
  ∃ db' total' err, DeleteExpiredCounters order batch now answers fuel total db = Some (db', total', err) ∧
    cleaned_up batch now db total db' total' err ∧ ((∀ i, answers i = BatchAnswered) → err = None).
Proof.
  intros Hb. induction fuel as [|fuel IH]; intros answers total db Hf; [lia|]. cbn [DeleteExpiredCounters].
  destruct (delete_batch order batch now db) as [db1 n] eqn:E.
  apply delete_batch_spec in E as (Hn & Hl & Hs & Hd).
  destruct (answers O) eqn:Ea;
    try (do 3 eexists; split; [done|]; split; [split_and!; try done; cbn; lia|intros Ha; by rewrite Ha in Ea]).
  case_bool_decide as Hn0.
  - do 3 eexists. split; [done|]. split; [|done]. split_and!; [done|done| |lia].
    rewrite <- Hl. apply nothing_expired. lia.
  - destruct (IH (λ i, answers (S i)) (total + n)%nat db1) as (db' & total' & err & -> & (Hs' & Hl' & He) & Ha); [lia|].
    do 3 eexists. split; [done|]. split; [|intros Hall; by apply Ha].
    split_and!; [by etrans|congruence|]. destruct err as [[]|]; [lia..|].
    rewrite <- Hl. split; [apply He|lia].
Qed.

(** C39: the clean-up loop ends: whatever order the database deletes in and however its
    rounds go (answered, cancelled before a batch, without a connection, with a failing
    statement or an unknown row count), with a positive batch size it returns after at
    most one round more than there are expired rows.  Only rows whose expiry is before
    [now] are removed.  If it reports no error, and it reports none when every round is
    answered, all of them are removed and their number is returned.  With an error the
    number of removed rows is returned, less at most the last batch when that one was
    executed and its answer or its count was lost. *)
Theorem cleanup_terminates (batch : nat) (now : time) (answers : nat → batch_answer) (fuel : nat) (db : Counters) :
  (0 < batch)%nat → (size (dead now db) < fuel)%nat →
  ∃ db' n err, DeleteExpiredCounters order batch now answers fuel 0 db = Some (db', n, err) ∧
    cleaned_up batch now db 0 db' n err ∧ ((∀ i, answers i = BatchAnswered) → err = None).
Proof. intros Hb Hf. by apply cleanup_round. Qed.

End Cleanup.

(** The counters the limit checker writes outlive their period: a row written at
    [t] for a DAILY, WEEKLY or MONTHLY limit is not expired at any instant [now] of
    the same period, nor in the 90 days that follow it, so cleaning up never resets
    the usage of a running period. *)
Theorem checked_counter_outlives_period `{DecimalLib} ty t now reset (e : dec) :
  is_periodic ty = true → CalculateResetAt ty t = Some reset →
  now <= reset + CounterRetentionDays * Day →
  expired now {| cr_current_usage := e; cr_reserved_usage := 0; cr_last_updated_at := t;
                 cr_expires_at := calculateCounterExpiresAt ty (CalculateResetAt ty t) None |} = false.
Proof.
  intros Hty Hr Hn. unfold expired, calculateCounterExpiresAt. rewrite Hr.
  destruct ty; try done; simpl; rewrite time_AddDate_days; unfold time_Before; apply Z.ltb_ge; lia.
Qed.

(** ** Listing every active limit *)

Section Listing.
Context `{DecimalLib, UuidNil, CurrencyLib}.

(** The repository serves the limits [pages] in order from a cursor: every page but
    the last names the next one by a cursor that is not empty. *)
Fixpoint serves (List : ListLimitsFilter → result TracerError ListLimitsResult)
    (currency cursor : string) (pages : list (list Limit)) : Prop :=
  match pages with
  | [] => False
  | [p] => ∃ r, List (page_filter currency cursor) = Ok r ∧ lr_Limits r = p ∧
                (lr_HasMore r = false ∨ lr_NextCursor r = "")
  | p :: rest => ∃ r, List (page_filter currency cursor) = Ok r ∧ lr_Limits r = p ∧
                 lr_HasMore r = true ∧ lr_NextCursor r ≠ "" ∧
                 serves List currency (lr_NextCursor r) rest
  end.

Lemma all_pages_serves List currency pages : ∀ cursor fuel acc,
  serves List currency cursor pages → (length pages <= fuel)%nat →
  all_pages List fuel currency cursor acc = Some (Ok (acc ++ concat pages)).
Proof.
  induction pages as [|p pages IH]; intros cursor fuel acc Hs Hf; [done|].
  destruct fuel as [|fuel]; [simpl in Hf; lia|]. simpl in Hs.
  destruct pages as [|p' pages].
  - destruct Hs as (r & E & <- & Hlast). simpl. rewrite E, app_nil_r.
    destruct Hlast as [->|Hc]; [done|]. rewrite (bool_decide_true (lr_NextCursor r = "")) by done.
    by rewrite orb_true_r.
  - destruct Hs as (r & E & <- & Hm & Hc & Hs). cbn [all_pages]. rewrite E, Hm.
    rewrite (bool_decide_false (lr_NextCursor r = "")) by done. simpl orb.
    rewrite IH; [by rewrite <- app_assoc|done|simpl in *; lia].
Qed.

(** The applicable limits are all of them: when the repository serves the active
    limits of the currency in pages, the loop ends after as many requests as there
    are pages and keeps exactly the limits whose scopes match the transaction, none
    lost or repeated at a page boundary. *)
Theorem applicable_limits_complete List input pages fuel :
  serves List (ci_Currency input) "" pages → (length pages <= fuel)%nat →
  getApplicableLimits List fuel input =
  Some (Ok (filter (λ l, scopeMatchesLimit (lim_Scopes l) (Some (buildTransactionScope input)) = true)
              (concat pages))).
Proof.
  intros Hs Hf. unfold getApplicableLimits. by rewrite (all_pages_serves _ _ pages).
Qed.

End Listing.

(** ** Concrete checks *)

Module CheckerSample.
Import TracerSample.
#[local] Existing Instances Fixed.lib Numbered.lib.

(** A payment of [amount] cents from account 7. *)
Definition pay (amount : Z) : CheckLimitsInput := {|
  ci_Amount := (fx amount 2 : @dec Fixed.lib); ci_Currency := "USD"; ci_AccountID := id 7;
  ci_SegmentID := None; ci_PortfolioID := None; ci_MerchantID := None;
  ci_TransactionType := Some TransactionTypePix; ci_SubType := None;
  ci_TransactionTimestamp := noon |}.

Definition key7 : counter_key := (id 1, "acct:7", "2026-03-02").

Definition used60 : CounterRow := {|
  cr_current_usage := fx 6000 2; cr_reserved_usage := 0; cr_last_updated_at := noon;
  cr_expires_at := calculateCounterExpiresAt LimitTypeDaily (CalculateResetAt LimitTypeDaily noon) None |}.

Definition one_page (r : list Limit) (f : ListLimitsFilter) : result TracerError ListLimitsResult :=
  if bool_decide (lf_Cursor f = "") then
    Ok {| lr_Limits := r; lr_NextCursor := "2"; lr_HasMore := true |}
  else Ok {| lr_Limits := r; lr_NextCursor := ""; lr_HasMore := false |}.
End CheckerSample.
Import TracerSample CheckerSample.
#[local] Existing Instances Fixed.lib Numbered.lib Fixed.laws.

Lemma check_limits_exact_witness :
  ∃ db' out, checkLimitsInternal (∅ : Counters) (λ _, false) (Some (pay 6000)) (λ _, Ok [daily100]) noon
             = (db', Ok out) ∧ co_Allowed out = true ∧
  (dval (committed db' key7) == 60)%Q.
Proof.
  destruct (check_limits_exact (∅ : Counters) (pay 6000) [daily100] noon) as (db' & out & E & Ha & _ & Hk).
  - vm_compute. reflexivity.
  - repeat constructor.
  - apply NoDup_singleton.
  - exists db', out. split; [exact E|split; [rewrite Ha; vm_compute; reflexivity|]].
    rewrite (Hk key7). vm_compute. reflexivity.
Defined.

Lemma check_never_over_cap_witness :
  ((∅ : Counters) !! key7 = Some used60 ∨
   ∃ l, l ∈ [daily100] ∧ lim_ID l = key7.1.1 ∧
        (dval (cr_current_usage used60) <= dval (lim_MaxAmount l))%Q).
Proof.
  assert ((0 < dval (ci_Amount (pay 6000)))%Q) as Hpos by (vm_compute; reflexivity).
  assert ((process_limits (∅ : Counters) (λ _, false) [daily100] (pay 6000) noon).1 !! key7
          = Some used60) as E by (vm_compute; reflexivity).
  exact (check_never_over_cap [daily100] ∅ (λ _, false) (pay 6000) noon key7 used60 Hpos E).
Defined.

Lemma cleanup_terminates_witness :
  let db := (process_limits (∅ : Counters) (λ _, false) [daily100] (pay 6000) noon).1 in
  let answers i := if bool_decide (i = 0%nat) then RowsUnknown else BatchAnswered in
  ∃ db' n err, DeleteExpiredCounters (λ l, l) 1 (noon + 365 * Day) answers 2 0 db = Some (db', n, err) ∧
    cleaned_up 1 (noon + 365 * Day) db 0 db' n err.
Proof.
  destruct (cleanup_terminates (λ l, l) ltac:(reflexivity) 1 (noon + 365 * Day)
    (λ i, if bool_decide (i = 0%nat) then RowsUnknown else BatchAnswered) 2
    (process_limits (∅ : Counters) (λ _, false) [daily100] (pay 6000) noon).1) as (db' & n & err & E & H & _).
  - lia.
  - vm_compute. lia.
  - exact (ex_intro _ db' (ex_intro _ n (ex_intro _ err (conj E H)))).
Defined.

Lemma checked_counter_outlives_period_witness :
  expired (noon + 11 * Hour) {| cr_current_usage := fx 100 0; cr_reserved_usage := 0;
    cr_last_updated_at := noon;
    cr_expires_at := calculateCounterExpiresAt LimitTypeDaily (CalculateResetAt LimitTypeDaily noon) None |}
  = false.
Proof.
  apply (checked_counter_outlives_period LimitTypeDaily noon (noon + 11 * Hour)
           (time_Date 2026 3 3 0) (fx 100 0)); [reflexivity|vm_compute; reflexivity|].
  vm_compute. discriminate.
Defined.

Lemma applicable_limits_complete_witness :
  getApplicableLimits (one_page [daily100]) 2 (pay 100) = Some (Ok [daily100; daily100]).
Proof.
  rewrite (applicable_limits_complete (one_page [daily100]) (pay 100) [[daily100]; [daily100]] 2).
  - vm_compute. reflexivity.
  - eexists. split_and!; [reflexivity|reflexivity|reflexivity|discriminate|].
    eexists. split_and!; [reflexivity|reflexivity|by left].
  - simpl. lia.
Defined.
