(* ===== verification/Reservations.v ===== *)
(** * Two-phase reservations

    The tracer can hold capacity for a ledger transaction before it commits:
    src/components/tracer/internal/services/reservation_service.go reserves the amount
    on every counter-backed limit, then confirms or releases it by reservation or by
    transaction; a worker expires what was never resolved.  This file models the
    reservation (pkg/model/reservation.go), the resolution of a transaction into
    reservation parameters (query/reservation_resolver.go), the table
    usage_reservations and its statements (postgres/usage_reservation_repository.go,
    reservation_reaper_repository.go), the service and the reaper (workers/
    reservation_reaper_worker.go), and what they do to the counters of [LimitChecker].

    Every operation runs in one database transaction, so it is a function from the
    database to the database that has no effect when it fails; the moments at which
    the database or the audit writer fails are arguments. *)

From stdpp Require Import base gmap strings list sorting.
From Stdlib Require Import ZArith QArith Lia Lqa Ascii.
From S2P Require Import Prelude Decimals GoStrings CacheKeys GoTime Limits LimitChecker.
Local Open Scope string_scope.
Local Open Scope list_scope.
Local Open Scope Z_scope.

(** [decimal.IntPart]: the integer part, when it fits an int64. *)
Class DecimalInt `{DecimalLib} := { dIntPart : dec → Z }.
Class DecimalIntLaws `{DecimalLaws} `{!DecimalInt} := {
  dIntPart_spec a : (0 <= dval a)%Q → (dval a < inject_Z (2 ^ 63))%Q →
    (inject_Z (dIntPart a) <= dval a)%Q ∧ (dval a < inject_Z (dIntPart a + 1))%Q }.

(** ** Reservations (pkg/model/reservation.go) *)

Inductive ReservationStatus :=
  | StatusReserved | StatusConfirmed | StatusReleased | StatusExpired
  | StatusOther (s : string).

#[export] Instance ReservationStatus_eq_dec : EqDecision ReservationStatus.
Proof. solve_decision. Defined.

Definition ReservationStatus_IsValid (s : ReservationStatus) : bool :=
  match s with
  | StatusReserved | StatusConfirmed | StatusReleased | StatusExpired => true
  | StatusOther _ => false
  end.

Definition ReservationStatus_IsTerminal (s : ReservationStatus) : bool :=
  match s with StatusConfirmed | StatusReleased | StatusExpired => true | _ => false end.

Section Model.
Context `{UuidNil}.

Record Reservation := {
  rv_ID : uuid;
  rv_LimitID : uuid;
  rv_ScopeKey : string;
  rv_PeriodKey : string;
  rv_Amount : Z;
  rv_Status : ReservationStatus;
  rv_TransactionID : uuid;
  rv_ReservationExpiresAt : time;
  rv_CreatedAt : time;
  rv_ConfirmedAt : option time;
  rv_ReleasedAt : option time }.

(** [id] is the result of [uuid.New()]. *)
Definition NewReservation (id limitID transactionID : uuid) (scopeKey periodKey : string)
    (amount : Z) (reservationExpiresAt createdAt : time) : result TracerError Reservation :=
  if bool_decide (limitID = uuid_Nil) then Err ErrReservationLimitIDRequired else
  if bool_decide (transactionID = uuid_Nil) then Err ErrReservationTransactionIDReq else
  let normalizedScopeKey := strings_TrimSpace scopeKey in
  if bool_decide (normalizedScopeKey = "") then Err ErrReservationScopeKeyRequired else
  let normalizedPeriodKey := strings_TrimSpace periodKey in
  if bool_decide (normalizedPeriodKey = "") then Err ErrReservationPeriodKeyRequired else
  if amount <? 0 then Err ErrReservationAmountInvalid else
  if time_IsZero reservationExpiresAt then Err ErrReservationExpiresAtRequired else
  Ok {| rv_ID := id; rv_LimitID := limitID; rv_ScopeKey := normalizedScopeKey;
        rv_PeriodKey := normalizedPeriodKey; rv_Amount := amount; rv_Status := StatusReserved;
        rv_TransactionID := transactionID; rv_ReservationExpiresAt := reservationExpiresAt;
        rv_CreatedAt := createdAt; rv_ConfirmedAt := None; rv_ReleasedAt := None |}.

Definition Reservation_Validate (r : Reservation) : result TracerError unit :=
  if bool_decide (rv_LimitID r = uuid_Nil) then Err ErrReservationLimitIDRequired else
  if bool_decide (rv_TransactionID r = uuid_Nil) then Err ErrReservationTransactionIDReq else
  if bool_decide (strings_TrimSpace (rv_ScopeKey r) = "") then Err ErrReservationScopeKeyRequired else
  if bool_decide (strings_TrimSpace (rv_PeriodKey r) = "") then Err ErrReservationPeriodKeyRequired else
  if rv_Amount r <? 0 then Err ErrReservationAmountInvalid else
  if negb (ReservationStatus_IsValid (rv_Status r)) then Err ErrReservationInvalidStatus else
  if time_IsZero (rv_ReservationExpiresAt r) then Err ErrReservationExpiresAtRequired else Ok tt.

(** The counter a reservation holds capacity on. *)
Definition rv_key (r : Reservation) : counter_key := (rv_LimitID r, rv_ScopeKey r, rv_PeriodKey r).

Definition rv_flip (r : Reservation) (s : ReservationStatus) (confirmedAt releasedAt : option time)
    : Reservation := {|
  rv_ID := rv_ID r; rv_LimitID := rv_LimitID r; rv_ScopeKey := rv_ScopeKey r;
  rv_PeriodKey := rv_PeriodKey r; rv_Amount := rv_Amount r; rv_Status := s;
  rv_TransactionID := rv_TransactionID r; rv_ReservationExpiresAt := rv_ReservationExpiresAt r;
  rv_CreatedAt := rv_CreatedAt r; rv_ConfirmedAt := confirmedAt; rv_ReleasedAt := releasedAt |}.

End Model.

(** The audit trail of the reservation life cycle. *)
Inductive AuditEventType :=
  | AuditEventReservationReserved | AuditEventReservationConfirmed
  | AuditEventReservationReleased | AuditEventReservationExpired.

#[export] Instance AuditEventType_eq_dec : EqDecision AuditEventType.
Proof. solve_decision. Defined.

Section Database.
Context `{DecimalLib, UuidNil}.

(** What is recorded of an event: the reservation it is about. *)
Record AuditRow := { au_event : AuditEventType; au_reservation : uuid }.

Record TracerDB := {
  t_counters : Counters;
  t_reservations : gmap uuid Reservation;
  t_audit : list AuditRow }.

(** ** Statements *)

(** [upsertAndReserveCTEQuery]; the amounts are integers, which the code passes as
    [decimal.NewFromInt]. *)
Definition upsertAndReserveCTEQuery (db : Counters) (k : counter_key) (amount maxAmount : Z)
    (expiresAt : option time) (now : time) : Counters * (Z * bool) :=
  match db !! k with
  | None =>
      (<[k := {| cr_current_usage := dzero; cr_reserved_usage := amount;
                 cr_last_updated_at := now; cr_expires_at := expiresAt |}]> db, (amount, true))
  | Some row =>
      if dle (cr_current_usage row + dnew (cr_reserved_usage row) + dnew amount)%dec (dnew maxAmount)
      then (<[k := {| cr_current_usage := cr_current_usage row;
                      cr_reserved_usage := cr_reserved_usage row + amount;
                      cr_last_updated_at := now; cr_expires_at := expiresAt |}]> db,
            (cr_reserved_usage row + amount, true))
      else (db, (cr_reserved_usage row, false))
  end.

Definition UpsertAndReserveAtomic (db : Counters) (dbfail : bool) (k : counter_key)
    (amount maxAmount : Z) (expiresAt : option time) (now : time)
    : Counters * result TracerError Z :=
  if amount =? 0 then (db, Ok 0) else
  if amount <? 0 then (db, Err ErrUsageCounterIncrementNonNegative) else
  if maxAmount <? amount then (db, Err ErrUsageCounterExceedsLimit) else
  if dbfail then (db, Err DbError) else
  let '(db', (reservedUsage, succeeded)) :=
    upsertAndReserveCTEQuery db k amount maxAmount expiresAt now in
  if negb succeeded then (db', Err ErrUsageCounterExceedsLimit) else (db', Ok reservedUsage).

Definition rv_tuple (r : Reservation) : uuid * counter_key := (rv_TransactionID r, rv_key r).

(** [INSERT ... ON CONFLICT (transaction_id, limit_id, scope_key, period_key) DO
    NOTHING]; a second row with the primary key is an error. *)
Definition insert_reservation (rows : gmap uuid Reservation) (r : Reservation)
    : result TracerError (gmap uuid Reservation) :=
  if existsb (λ r', bool_decide (rv_tuple r' = rv_tuple r)) (map_to_list rows).*2 then Ok rows else
  match rows !! rv_ID r with
  | Some _ => Err DbError
  | None => Ok (<[rv_ID r := r]> rows)
  end.

(** [ReserveWithTx]: the counter first, then the row.  [fail] says whether one of the
    statements for this reservation fails. *)
Definition ReserveWithTx (st : TracerDB) (fail : bool) (reservation : Reservation) (maxAmount : Z)
    (now : time) : result TracerError TracerDB :=
  do! Reservation_Validate reservation;;
  match UpsertAndReserveAtomic (t_counters st) fail (rv_key reservation) (rv_Amount reservation)
          maxAmount (Some (rv_ReservationExpiresAt reservation)) now with
  | (_, Err e) => Err e
  | (counters, Ok _) =>
      if fail then Err DbError else
      let! rows := insert_reservation (t_reservations st) reservation in
      Ok {| t_counters := counters; t_reservations := rows; t_audit := t_audit st |}
  end.

(** [execCounterMove]: the UPDATE of a counter.  The table has
    CHECK (reserved_usage >= 0); a violation is an error of the database. *)
Definition execCounterMove (db : Counters) (k : counter_key) (move : CounterRow → CounterRow)
    : result TracerError Counters :=
  match db !! k with
  | None => Err ErrUsageCounterNotFound
  | Some row =>
      if cr_reserved_usage (move row) <? 0 then Err DbError else Ok (<[k := move row]> db)
  end.

Definition confirm_move (amount : Z) (now : time) (row : CounterRow) : CounterRow := {|
  cr_current_usage := (cr_current_usage row + dnew amount)%dec;
  cr_reserved_usage := cr_reserved_usage row - amount;
  cr_last_updated_at := now; cr_expires_at := cr_expires_at row |}.

Definition release_move (amount : Z) (now : time) (row : CounterRow) : CounterRow := {|
  cr_current_usage := cr_current_usage row;
  cr_reserved_usage := cr_reserved_usage row - amount;
  cr_last_updated_at := now; cr_expires_at := cr_expires_at row |}.

(** The counter move and the flip of one RESERVED row, shared by the operations by
    reservation and by transaction ([applyConfirm], [applyRelease]). *)
Definition applyConfirm (st : TracerDB) (res : Reservation) (now : time)
    : result TracerError TracerDB :=
  let! counters := execCounterMove (t_counters st) (rv_key res) (confirm_move (rv_Amount res) now) in
  Ok {| t_counters := counters;
        t_reservations := <[rv_ID res := rv_flip res StatusConfirmed (Some now) (rv_ReleasedAt res)]>
                            (t_reservations st);
        t_audit := t_audit st |}.

Definition applyRelease (st : TracerDB) (res : Reservation) (status : ReservationStatus) (now : time)
    : result TracerError TracerDB :=
  let! counters := execCounterMove (t_counters st) (rv_key res) (release_move (rv_Amount res) now) in
  Ok {| t_counters := counters;
        t_reservations := <[rv_ID res := rv_flip res status (rv_ConfirmedAt res) (Some now)]>
                            (t_reservations st);
        t_audit := t_audit st |}.

(** [lockReservation]: SELECT ... FOR UPDATE by primary key. *)
Definition lockReservation (st : TracerDB) (reservationID : uuid) : result TracerError Reservation :=
  match t_reservations st !! reservationID with
  | None => Err ErrReservationNotFound
  | Some res => Ok res
  end.

Definition ConfirmWithTx (st : TracerDB) (fail : bool) (reservationID : uuid) (now : time)
    : result TracerError TracerDB :=
  if fail then Err DbError else
  let! res := lockReservation st reservationID in
  if negb (bool_decide (rv_Status res = StatusReserved)) then Err ErrReservationAlreadyTerminal else
  applyConfirm st res now.

Definition ReleaseWithTx (st : TracerDB) (fail : bool) (reservationID : uuid)
    (status : ReservationStatus) (now : time) : result TracerError TracerDB :=
  if negb (bool_decide (status = StatusReleased)) && negb (bool_decide (status = StatusExpired))
  then Err ErrReservationInvalidStatus else
  if fail then Err DbError else
  let! res := lockReservation st reservationID in
  if negb (bool_decide (rv_Status res = StatusReserved)) then Err ErrReservationAlreadyTerminal else
  applyRelease st res status now.

(** [lockReservedByTransaction], in the order the database returns the rows. *)
Definition lockReservedByTransaction (order : list Reservation → list Reservation) (st : TracerDB)
    (transactionID : uuid) : list Reservation :=
  order (filter (λ r, rv_TransactionID r = transactionID ∧ rv_Status r = StatusReserved)
           (map_to_list (t_reservations st)).*2).

Definition ConfirmByTransactionWithTx (order : list Reservation → list Reservation) (st : TracerDB)
    (fail : bool) (transactionID : uuid) (now : time)
    : result TracerError (TracerDB * list Reservation) :=
  if fail then Err DbError else
  let reservations := lockReservedByTransaction order st transactionID in
  let! st' := fold_res (λ st res, applyConfirm st res now) st reservations in
  Ok (st', reservations).

Definition ReleaseByTransactionWithTx (order : list Reservation → list Reservation) (st : TracerDB)
    (fail : bool) (transactionID : uuid) (status : ReservationStatus) (now : time)
    : result TracerError (TracerDB * list Reservation) :=
  if negb (bool_decide (status = StatusReleased)) && negb (bool_decide (status = StatusExpired))
  then Err ErrReservationInvalidStatus else
  if fail then Err DbError else
  let reservations := lockReservedByTransaction order st transactionID in
  let! st' := fold_res (λ st res, applyRelease st res status now) st reservations in
  Ok (st', reservations).

(** ** The service *)

(** What may fail around an operation: opening and committing the transaction, a
    statement, the audit write. *)
Record faults := { f_begin : bool; f_commit : bool; f_stmt : bool; f_audit : bool }.
Definition no_faults : faults :=
  {| f_begin := false; f_commit := false; f_stmt := false; f_audit := false |}.

(** [inTx]: commit on success, roll back on error. *)
Definition inTx {A} (flt : faults) (st : TracerDB) (fn : TracerDB → result TracerError (TracerDB * A))
    : TracerDB * result TracerError A :=
  if f_begin flt then (st, Err DbError) else
  match fn st with
  | Err e => (st, Err e)
  | Ok (st', a) => if f_commit flt then (st, Err DbError) else (st', Ok a)
  end.

Definition RecordReservationEventWithTx (st : TracerDB) (fail : bool) (e : AuditEventType) (id : uuid)
    : result TracerError TracerDB :=
  if fail then Err DbError else
  Ok {| t_counters := t_counters st; t_reservations := t_reservations st;
        t_audit := t_audit st ++ [{| au_event := e; au_reservation := id |}] |}.

Record ReservationSpec := {
  sp_LimitID : uuid; sp_ScopeKey : string; sp_PeriodKey : string; sp_Amount : Z; sp_MaxAmount : Z }.

Record ReserveResult := { rr_Denied : bool; rr_ReservationIDs : list uuid }.

Definition reservationTTL : Z := 5 * Minute.
Definition defaultLongLivedReservationTTL : Z := 720 * Hour.

(** [NewReservationServiceWithLongLivedTTL] falls back on the default. *)
Definition effectiveLongLivedTTL (longLivedTTL : Z) : Z :=
  if longLivedTTL <=? 0 then defaultLongLivedReservationTTL else longLivedTTL.

(** The body of the reserve transaction for one limit. *)
Definition reserve_spec (flt : faults) (transactionID id : uuid) (expiresAt now : time)
    (st : TracerDB) (spec : ReservationSpec) : result TracerError TracerDB :=
  let! reservation := NewReservation id (sp_LimitID spec) transactionID (sp_ScopeKey spec)
                        (sp_PeriodKey spec) (sp_Amount spec) expiresAt now in
  let! st1 := ReserveWithTx st (f_stmt flt) reservation (sp_MaxAmount spec) now in
  RecordReservationEventWithTx st1 (f_audit flt) AuditEventReservationReserved (rv_ID reservation).

(** The loop over the limits; the i-th reservation gets the i-th new identifier. *)
Fixpoint reserve_specs (flt : faults) (transactionID : uuid) (newID : nat → uuid) (i : nat)
    (expiresAt now : time) (st : TracerDB) (specs : list ReservationSpec)
    : result TracerError (TracerDB * list uuid) :=
  match specs with
  | [] => Ok (st, [])
  | spec :: rest =>
      let! st1 := reserve_spec flt transactionID (newID i) expiresAt now st spec in
      let! p := reserve_specs flt transactionID newID (S i) expiresAt now st1 rest in
      Ok (p.1, newID i :: p.2)
  end.

(** [Reserve]; [resolve] is [ResolveReservations] on the limits of the moment. *)
Definition Reserve {I} (st : TracerDB) (flt : faults)
    (resolve : I → result TracerError (list ReservationSpec * bool))
    (newID : nat → uuid) (transactionID : uuid) (input : option I)
    (longLived : bool) (longLivedTTL : Z) (now : time)
    : TracerDB * result TracerError ReserveResult :=
  if bool_decide (transactionID = uuid_Nil) then (st, Err ErrNilReservationTransationID) else
  match input with
  | None => (st, Err ErrNilReservationRequest)
  | Some input =>
  match resolve input with
  | Err e => (st, Err e)
  | Ok (_, true) => (st, Ok {| rr_Denied := true; rr_ReservationIDs := [] |})
  | Ok ([], false) => (st, Ok {| rr_Denied := false; rr_ReservationIDs := [] |})
  | Ok (specs, false) =>
      let ttl := if longLived then effectiveLongLivedTTL longLivedTTL else reservationTTL in
      let expiresAt := now + ttl in
      match inTx flt st (λ st, reserve_specs flt transactionID newID 0 expiresAt now st specs) with
      | (st', Ok ids) => (st', Ok {| rr_Denied := false; rr_ReservationIDs := ids |})
      | (st', Err ErrUsageCounterExceedsLimit) =>
          (st', Ok {| rr_Denied := true; rr_ReservationIDs := [] |})
      | (st', Err e) => (st', Err e)
      end
  end end.

Definition event_of (status : ReservationStatus) : AuditEventType :=
  match status with
  | StatusConfirmed => AuditEventReservationConfirmed
  | _ => AuditEventReservationReleased
  end.

(** [terminate], behind [Confirm] and [Release]: an already terminal reservation is a
    success that changes nothing. *)
Definition terminate (st : TracerDB) (flt : faults) (reservationID : uuid)
    (terminalStatus : ReservationStatus) (now : time) : TracerDB * result TracerError unit :=
  if bool_decide (reservationID = uuid_Nil) then (st, Err ErrReservationNotFound) else
  match inTx flt st (λ st,
    let! st1 := if bool_decide (terminalStatus = StatusConfirmed)
                then ConfirmWithTx st (f_stmt flt) reservationID now
                else ReleaseWithTx st (f_stmt flt) reservationID terminalStatus now in
    let! st2 := RecordReservationEventWithTx st1 (f_audit flt) (event_of terminalStatus)
                  reservationID in
    Ok (st2, tt))
  with
  | (st', Err ErrReservationAlreadyTerminal) => (st', Ok tt)
  | r => r
  end.

Definition Confirm (st : TracerDB) (flt : faults) (id : uuid) (now : time)
    : TracerDB * result TracerError unit := terminate st flt id StatusConfirmed now.
Definition Release (st : TracerDB) (flt : faults) (id : uuid) (now : time)
    : TracerDB * result TracerError unit := terminate st flt id StatusReleased now.

(** [terminateByTransaction]: the number of reservations flipped. *)
Definition terminateByTransaction (order : list Reservation → list Reservation) (st : TracerDB)
    (flt : faults) (transactionID : uuid) (terminalStatus : ReservationStatus) (now : time)
    : TracerDB * result TracerError nat :=
  if bool_decide (transactionID = uuid_Nil) then (st, Err ErrNilReservationTransationID) else
  inTx flt st (λ st,
    let! p := if bool_decide (terminalStatus = StatusConfirmed)
              then ConfirmByTransactionWithTx order st (f_stmt flt) transactionID now
              else ReleaseByTransactionWithTx order st (f_stmt flt) transactionID terminalStatus now in
    let! st2 := fold_res (λ st res, RecordReservationEventWithTx st (f_audit flt)
                                      (event_of terminalStatus) (rv_ID res)) p.1 p.2 in
    Ok (st2, length p.2)).

Definition ConfirmByTransaction order (st : TracerDB) (flt : faults) (id : uuid) (now : time)
    : TracerDB * result TracerError nat := terminateByTransaction order st flt id StatusConfirmed now.
Definition ReleaseByTransaction order (st : TracerDB) (flt : faults) (id : uuid) (now : time)
    : TracerDB * result TracerError nat := terminateByTransaction order st flt id StatusReleased now.

(** ** The reaper *)

(** The RESERVED rows past their lifetime, in the order the database returns them. *)
Definition FindExpiredReservations (order : list uuid → list uuid) (st : TracerDB) (now : time)
    : list uuid :=
  order (map_to_list (filter (λ p : uuid * Reservation, rv_Status p.2 = StatusReserved ∧
                                time_Before (rv_ReservationExpiresAt p.2) now = true)
                        (t_reservations st))).*1.

(** [ReleaseExpired]: its own transaction; already terminal is a success. *)
Definition ReleaseExpired (st : TracerDB) (flt : faults) (reservationID : uuid) (now : time)
    : TracerDB * result TracerError unit :=
  match inTx flt st (λ st,
    let! st1 := ReleaseWithTx st (f_stmt flt) reservationID StatusExpired now in Ok (st1, tt))
  with
  | (st', Err ErrReservationAlreadyTerminal) => (st', Ok tt)
  | r => r
  end.

(** The sweep of [RunOnce]: the first failure ends it. *)
Fixpoint release_all (st : TracerDB) (flt : uuid → faults) (ids : list uuid) (now : time) (released : nat)
    : TracerDB * nat * result TracerError unit :=
  match ids with
  | [] => (st, released, Ok tt)
  | id :: rest =>
      match ReleaseExpired st (flt id) id now with
      | (st', Err e) => (st', released, Err e)
      | (st', Ok _) => release_all st' flt rest now (S released)
      end
  end.

Definition RunOnce (order : list uuid → list uuid) (st : TracerDB) (flt : uuid → faults)
    (findfail auditfail : bool) (now : time) : TracerDB * nat * result TracerError unit :=
  if findfail then (st, 0%nat, Err DbError) else
  match FindExpiredReservations order st now with
  | [] => (st, 0%nat, Ok tt)
  | expired =>
      match release_all st flt expired now 0 with
      | (st', released, Err e) => (st', released, Err e)
      | (st', released, Ok _) => (st', released, if auditfail then Err DbError else Ok tt)
      end
  end.

End Database.

(** ** Resolving a transaction (query/reservation_resolver.go) *)

Section Resolver.
Context `{DecimalLib, !DecimalInt, UuidNil, CurrencyLib}.

Fixpoint resolve_limits (limits : list Limit) (input : CheckLimitsInput) (serverNow : time)
    (specs : list ReservationSpec) : result TracerError (list ReservationSpec * bool) :=
  match limits with
  | [] => Ok (specs, false)
  | limit :: rest =>
      match skipIfOutsideTimeWindow limit input serverNow with
      | Some _ => resolve_limits rest input serverNow specs
      | None =>
      match skipIfOutsideCustomPeriod limit input serverNow with
      | Some _ => resolve_limits rest input serverNow specs
      | None =>
      if bool_decide (lim_LimitType limit = LimitTypePerTransaction) then
        if dgt (ci_Amount input) (lim_MaxAmount limit) then Ok ([], true)
        else resolve_limits rest input serverNow specs
      else
        let! periodKey := CalculatePeriodKey (lim_LimitType limit) serverNow in
        if dgt (ci_Amount input) (lim_MaxAmount limit) then Ok ([], true) else
        resolve_limits rest input serverNow
          (specs ++ [{| sp_LimitID := lim_ID limit;
                        sp_ScopeKey := calculateScopeKeyFromScopes (lim_Scopes limit)
                                         (buildTransactionScope input);
                        sp_PeriodKey := periodKey;
                        sp_Amount := dIntPart (ci_Amount input);
                        sp_MaxAmount := dIntPart (lim_MaxAmount limit) |}])
      end end
  end.

(** [limits] is the result of [getApplicableLimits]. *)
Definition ResolveReservations (limits : CheckLimitsInput → result TracerError (list Limit))
    (serverNow : time) (input : CheckLimitsInput)
    : result TracerError (list ReservationSpec * bool) :=
  do! CheckLimitsInput_validate input false;;
  let! limits := limits input in
  resolve_limits limits input serverNow [].

End Resolver.

(** ** What is held on a counter *)

Section Held.
Context `{DecimalLib, UuidNil}.

(** What a row holds on counter [k]. *)
Definition row_holds (k : counter_key) (r : Reservation) : Z :=
  if bool_decide (rv_Status r = StatusReserved) && bool_decide (rv_key r = k)
  then rv_Amount r else 0.

Definition sum_Z (l : list Z) : Z := foldr Z.add 0 l.

(** The outstanding reservations on counter [k]. *)
Definition held (rows : gmap uuid Reservation) (k : counter_key) : Z :=
  sum_Z (row_holds k <$> (map_to_list rows).*2).

Definition reserved (db : Counters) (k : counter_key) : Z :=
  match db !! k with Some row => cr_reserved_usage row | None => 0 end.

Lemma sum_Z_perm l l' : l ≡ₚ l' → sum_Z l = sum_Z l'.
Proof. induction 1; simpl in *; lia. Qed.

Lemma held_insert rows id r k :
  rows !! id = None → held (<[id := r]> rows) k = row_holds k r + held rows k.
Proof.
  intros Hid. unfold held.
  rewrite (sum_Z_perm _ (row_holds k <$> ((id, r) :: map_to_list rows).*2)); [done|].
  by rewrite map_to_list_insert.
Qed.

Lemma held_delete rows id r k :
  rows !! id = Some r → held rows k = row_holds k r + held (delete id rows) k.
Proof.
  intros Hid. rewrite <- (insert_delete_id rows id r) at 1 by done.
  apply held_insert. apply lookup_delete_eq.
Qed.

Lemma held_replace rows id r0 r k :
  rows !! id = Some r0 →
  held (<[id := r]> rows) k = held rows k - row_holds k r0 + row_holds k r.
Proof.
  intros Hid. pose proof (held_delete rows id r0 k Hid) as Hd.
  rewrite <- (insert_delete_eq rows id r), held_insert by apply lookup_delete_eq. lia.
Qed.

Lemma held_nonneg rows k :
  (∀ id r, rows !! id = Some r → 0 <= rv_Amount r) → 0 <= held rows k.
Proof.
  intros Hn. unfold held.
  assert (Forall (λ r, 0 <= rv_Amount r) (map_to_list rows).*2) as Hf.
  { apply Forall_fmap, Forall_forall. intros [id r] Hr%elem_of_map_to_list. by apply (Hn id). }
  unfold sum_Z. induction Hf as [|r l Hr _ IH]; [done|].
  rewrite fmap_cons. cbn [foldr]. assert (0 <= row_holds k r) by (unfold row_holds; destruct (_ && _); lia). lia.
Qed.

Lemma row_holds_le rows id r k :
  (∀ id r, rows !! id = Some r → 0 <= rv_Amount r) →
  rows !! id = Some r → row_holds k r <= held rows k.
Proof.
  intros Hn Hr. rewrite (held_delete rows id r k Hr).
  enough (0 <= held (delete id rows) k) by lia.
  apply held_nonneg. intros id' r' Hr'. apply lookup_delete_Some in Hr' as [_ Hr']. by apply (Hn id').
Qed.

Lemma row_holds_own r : rv_Status r = StatusReserved → row_holds (rv_key r) r = rv_Amount r.
Proof. intros Hs. unfold row_holds. by rewrite !bool_decide_true. Qed.

Lemma row_holds_other k r : rv_key r ≠ k → row_holds k r = 0.
Proof. intros Hk. unfold row_holds. by rewrite (bool_decide_false (rv_key r = k)), andb_false_r. Qed.

Lemma row_holds_flip k r s a b : s ≠ StatusReserved → row_holds k (rv_flip r s a b) = 0.
Proof. intros Hs. unfold row_holds. by rewrite bool_decide_false. Qed.

Lemma reserved_insert_eq (db : Counters) k row : reserved (<[k := row]> db) k = cr_reserved_usage row.
Proof. unfold reserved. by rewrite lookup_insert_eq. Qed.

Lemma reserved_insert_ne (db : Counters) k k' row : k ≠ k' → reserved (<[k := row]> db) k' = reserved db k'.
Proof. intros Hk. unfold reserved. by rewrite lookup_insert_ne. Qed.

End Held.

(** ** The invariant of the life cycle *)

Section Invariant.
Context `{DecimalLaws, UuidNil}.

(** The cap of each limit, in whole units. *)
Variable cap : uuid → Z.

(** Rows are found under their identifier and hold non-negative amounts; a counter
    reserves at least what its outstanding rows hold; and what is committed plus what
    is reserved stays within the cap. *)
Record res_inv (st : TracerDB) : Prop := {
  inv_id : ∀ id r, t_reservations st !! id = Some r → rv_ID r = id;
  inv_amount : ∀ id r, t_reservations st !! id = Some r → 0 <= rv_Amount r;
  inv_held : ∀ k, held (t_reservations st) k <= reserved (t_counters st) k;
  inv_cap : ∀ (k : counter_key) row, t_counters st !! k = Some row →
    (dval (cr_current_usage row) + inject_Z (cr_reserved_usage row) <= inject_Z (cap k.1.1))%Q }.

(** The counters reserve exactly what is outstanding. *)
Definition res_exact (st : TracerDB) : Prop :=
  ∀ k, held (t_reservations st) k = reserved (t_counters st) k.

Lemma inject_Z_le a b : (inject_Z a <= inject_Z b)%Q ↔ a <= b.
Proof. by rewrite <- Zle_Qle. Qed.

(** The reserve statement: it grants when the sum of committed, reserved and new
    stays within the cap, and then reserves exactly the amount. *)
Lemma UpsertAndReserve_spec db fail k amount maxAmount e now db' u :
  UpsertAndReserveAtomic db fail k amount maxAmount e now = (db', Ok u) →
  0 <= amount ∧
  (∀ k', reserved db' k' = reserved db k' + (if decide (k = k') then amount else 0)) ∧
  (∀ k', k ≠ k' → db' !! k' = db !! k') ∧
  (amount = 0 ∧ db' = db ∨ ∃ row', db' !! k = Some row' ∧
     dval (cr_current_usage row') == dval (committed db k) ∧
     (dval (cr_current_usage row') + inject_Z (cr_reserved_usage row') <= inject_Z maxAmount)%Q).
Proof.
  unfold UpsertAndReserveAtomic. destruct (Z.eqb_spec amount 0) as [->|Hz].
  { intros [= <- <-]. split_and!; [lia|intros; case_decide; lia|done|by left]. }
  destruct (Z.ltb_spec amount 0); [done|]. destruct (Z.ltb_spec maxAmount amount); [done|].
  destruct fail; [done|]. unfold upsertAndReserveCTEQuery, committed.
  destruct (db !! k) as [row|] eqn:Ek.
  - destruct (dle _ _) eqn:Ed; [|done]. simpl. intros [= <- <-]. split_and!; [lia| | |].
    + intros k'. case_decide as Hk; [subst k'|].
      * rewrite reserved_insert_eq. unfold reserved. rewrite Ek. simpl. lia.
      * rewrite reserved_insert_ne by done. lia.
    + intros k' Hk. by rewrite lookup_insert_ne.
    + right. eexists. rewrite lookup_insert_eq. split; [done|]. simpl. split; [done|].
      apply dle_spec in Ed. rewrite !dval_add, !dval_new in Ed. rewrite inject_Z_plus. lra.
  - simpl. intros [= <- <-]. split_and!; [lia| | |].
    + intros k'. case_decide as Hk; [subst k'|].
      * rewrite reserved_insert_eq. unfold reserved. rewrite Ek. simpl. lia.
      * rewrite reserved_insert_ne by done. lia.
    + intros k' Hk. by rewrite lookup_insert_ne.
    + right. eexists. rewrite lookup_insert_eq. split; [done|]. simpl. split; [done|].
      rewrite dval_zero, Qplus_0_l. apply inject_Z_le. lia.
Qed.

Definition tuple_taken (rows : gmap uuid Reservation) (r : Reservation) : Prop :=
  ∃ id r', rows !! id = Some r' ∧ rv_tuple r' = rv_tuple r.

Lemma insert_reservation_spec rows r rows' :
  insert_reservation rows r = Ok rows' →
  (tuple_taken rows r ∧ rows' = rows) ∨
  (¬ tuple_taken rows r ∧ rows !! rv_ID r = None ∧ rows' = <[rv_ID r := r]> rows).
Proof.
  unfold insert_reservation, tuple_taken. destruct (existsb _ _) eqn:E.
  - intros [= <-]. left. split; [|done]. apply existsb_exists in E as (r' & Hr & E).
    apply list_elem_of_In, list_elem_of_fmap in Hr as ([id r''] & -> & Hr).
    apply elem_of_map_to_list in Hr. bool_facts. eauto.
  - destruct (rows !! rv_ID r) eqn:Er; [done|]. intros [= <-]. right. split; [|done].
    intros (id & r' & Hr & Ht). assert (existsb (λ r', bool_decide (rv_tuple r' = rv_tuple r))
      (map_to_list rows).*2 = true) as Hc; [|congruence].
    apply existsb_exists. exists r'. split; [|by apply bool_decide_eq_true].
    apply list_elem_of_In, list_elem_of_fmap. exists (id, r'). split; [done|].
    by apply elem_of_map_to_list.
Qed.

Lemma NewReservation_fields id lim tx sk pk a e now r :
  NewReservation id lim tx sk pk a e now = Ok r →
  rv_ID r = id ∧ rv_LimitID r = lim ∧ rv_TransactionID r = tx ∧ rv_Amount r = a ∧ 0 <= a ∧
  rv_Status r = StatusReserved ∧ rv_ReservationExpiresAt r = e ∧
  rv_ScopeKey r = strings_TrimSpace sk ∧ rv_PeriodKey r = strings_TrimSpace pk.
Proof.
  unfold NewReservation. repeat (case_bool_decide; [done|]).
  destruct (Z.ltb_spec a 0); [done|]. destruct (time_IsZero e); [done|].
  intros [= <-]. split_and!; done.
Qed.

(** Reserving one limit keeps the invariant, for a fresh or a retried transaction. *)
Lemma reserve_spec_inv flt tx id e now st spec st' :
  res_inv st → sp_MaxAmount spec = cap (sp_LimitID spec) →
  reserve_spec flt tx id e now st spec = Ok st' → res_inv st'.
Proof.
  intros [Hid Ham Hh Hc] Hcap. unfold reserve_spec, ReserveWithTx, RecordReservationEventWithTx.
  intros E. inv_ok.
  match goal with E : NewReservation _ _ _ _ _ _ _ _ = Ok ?y |- _ =>
    rename y into r; apply NewReservation_fields in E as (Eid & El & Et & Ea & Hpos & Es & _) end.
  destruct (UpsertAndReserveAtomic _ _ _ _ _ _ _) as [cs [u|e']] eqn:Eu; [|done].
  destruct (f_stmt flt); [done|]. inv_ok. destruct (f_audit flt); [done|]. inv_ok.
  apply UpsertAndReserve_spec in Eu as (_ & Hr & Ho & Hrow).
  match goal with E : insert_reservation _ _ = Ok _ |- _ => apply insert_reservation_spec in E as Hins end.
  assert (∀ (k : counter_key) row, cs !! k = Some row →
    (dval (cr_current_usage row) + inject_Z (cr_reserved_usage row) <= inject_Z (cap k.1.1))%Q) as Hcap'.
  { intros k row Hk. destruct Hrow as [[_ ->]|(row' & Hk' & _ & Hle)]; [by apply (Hc k)|].
    destruct (decide (rv_key r = k)) as [<-|Hne]; [|rewrite Ho in Hk by done; by apply (Hc k)].
    rewrite Hk' in Hk. injection Hk as <-. rewrite Hcap, <- El in Hle. exact Hle. }
  destruct Hins as [[_ ->]|(_ & Hnone & ->)].
  - split; simpl; [done|done| |done]. intros k. rewrite Hr. specialize (Hh k). case_decide; lia.
  - split; simpl; [| | |done].
    + intros id' r' Hr'. destruct (decide (rv_ID r = id')) as [<-|Hne].
      * rewrite lookup_insert_eq in Hr'. by injection Hr' as <-.
      * rewrite lookup_insert_ne in Hr' by done. by apply Hid.
    + intros id' r' Hr'. destruct (decide (rv_ID r = id')) as [<-|Hne].
      * rewrite lookup_insert_eq in Hr'. injection Hr' as <-. lia.
      * rewrite lookup_insert_ne in Hr' by done. by apply (Ham id').
    + intros k. rewrite held_insert, Hr by done. specialize (Hh k). case_decide as Hk.
      * subst k. rewrite row_holds_own by done. lia.
      * rewrite row_holds_other by done. lia.
Qed.

Lemma reserve_specs_inv flt tx newID e now specs : ∀ i st p,
  res_inv st → Forall (λ sp, sp_MaxAmount sp = cap (sp_LimitID sp)) specs →
  reserve_specs flt tx newID i e now st specs = Ok p → res_inv p.1.
Proof.
  induction specs as [|sp specs IH]; intros i st p Hi Hf; simpl; [by intros [= <-]|].
  apply Forall_cons in Hf as [Hsp Hf]. intros E. inv_ok. simpl.
  eapply IH; [|done|eassumption]. by eapply reserve_spec_inv.
Qed.

(** A move that takes the amount of a reservation off the reserved usage and does not
    raise the sum of both buckets. *)
Definition settles (amount : Z) (move : CounterRow → CounterRow) : Prop :=
  ∀ row, cr_reserved_usage (move row) = cr_reserved_usage row - amount ∧
         (dval (cr_current_usage (move row)) + inject_Z (cr_reserved_usage (move row)) <=
          dval (cr_current_usage row) + inject_Z (cr_reserved_usage row))%Q.

Lemma confirm_settles a now : settles a (confirm_move a now).
Proof.
  intros row. simpl. split; [done|].
  rewrite dval_add, dval_new. unfold Z.sub. rewrite inject_Z_plus, inject_Z_opp. lra.
Qed.

Lemma release_settles a now : 0 <= a → settles a (release_move a now).
Proof.
  intros Ha. intros row. simpl. split; [done|].
  rewrite <- inject_Z_le in Ha. unfold Z.sub. rewrite inject_Z_plus, inject_Z_opp.
  change (inject_Z 0) with 0%Q in Ha. lra.
Qed.

(** A reservation settled once: the invariant and exactness are kept. *)
Lemma settle_inv st res move cs s a b au :
  res_inv st → t_reservations st !! rv_ID res = Some res → rv_Status res = StatusReserved →
  s ≠ StatusReserved → settles (rv_Amount res) move →
  execCounterMove (t_counters st) (rv_key res) move = Ok cs →
  let st' := {| t_counters := cs;
                t_reservations := <[rv_ID res := rv_flip res s a b]> (t_reservations st);
                t_audit := au |} in
  res_inv st' ∧ (res_exact st → res_exact st').
Proof.
  intros [Hid Ham Hh Hc] Hr Hs Hne Hm. unfold execCounterMove.
  destruct (t_counters st !! rv_key res) as [row|] eqn:Ek; [|done].
  destruct (Z.ltb_spec (cr_reserved_usage (move row)) 0); [done|]. intros [= <-].
  destruct (Hm row) as [Hm1 Hm2].
  assert (∀ k, held (<[rv_ID res := rv_flip res s a b]> (t_reservations st)) k =
               held (t_reservations st) k - row_holds k res) as Hheld.
  { intros k. rewrite (held_replace _ _ res) by done. rewrite row_holds_flip by done. lia. }
  assert (∀ k, reserved (<[rv_key res := move row]> (t_counters st)) k =
               reserved (t_counters st) k - row_holds k res) as Hres.
  { intros k. destruct (decide (rv_key res = k)) as [<-|Hk].
    - rewrite reserved_insert_eq, row_holds_own by done. unfold reserved. rewrite Ek. lia.
    - rewrite reserved_insert_ne, row_holds_other by done. lia. }
  split; [split; simpl|].
  - intros id r. destruct (decide (rv_ID res = id)) as [<-|Hi].
    + rewrite lookup_insert_eq. by intros [= <-].
    + rewrite lookup_insert_ne by done. apply Hid.
  - intros id r. destruct (decide (rv_ID res = id)) as [<-|Hi].
    + rewrite lookup_insert_eq. intros [= <-]. simpl. by apply (Ham (rv_ID res)).
    + rewrite lookup_insert_ne by done. apply (Ham id).
  - intros k. rewrite Hheld, Hres. specialize (Hh k). lia.
  - intros k row'. destruct (decide (rv_key res = k)) as [<-|Hk].
    + rewrite lookup_insert_eq. intros [= <-]. specialize (Hc _ _ Ek). lra.
    + rewrite lookup_insert_ne by done. apply Hc.
  - intros He k. simpl. by rewrite Hheld, Hres, He.
Qed.

(** Under the invariant an outstanding reservation can always be settled, provided
    it holds something: its counter exists and the move does not go below zero. *)
Lemma settle_total st res move :
  res_inv st → t_reservations st !! rv_ID res = Some res → rv_Status res = StatusReserved →
  0 < rv_Amount res → settles (rv_Amount res) move →
  ∃ cs, execCounterMove (t_counters st) (rv_key res) move = Ok cs.
Proof.
  intros [Hid Ham Hh Hc] Hr Hs Hpos Hm. unfold execCounterMove.
  pose proof (row_holds_le _ _ _ (rv_key res) Ham Hr) as Hle. rewrite row_holds_own in Hle by done.
  specialize (Hh (rv_key res)). unfold reserved in Hh.
  destruct (t_counters st !! rv_key res) as [row|]; [|lia].
  destruct (Hm row) as [-> _]. destruct (Z.ltb_spec (cr_reserved_usage row - rv_Amount res) 0); [lia|eauto].
Qed.

Lemma applyConfirm_inv st res now st' :
  res_inv st → t_reservations st !! rv_ID res = Some res → rv_Status res = StatusReserved →
  applyConfirm st res now = Ok st' → res_inv st' ∧ (res_exact st → res_exact st').
Proof.
  intros Hi Hr Hs. unfold applyConfirm. intros E. inv_ok.
  by eapply settle_inv; [..|apply confirm_settles|eassumption].
Qed.

Lemma applyRelease_inv st res s now st' :
  res_inv st → t_reservations st !! rv_ID res = Some res → rv_Status res = StatusReserved →
  s ≠ StatusReserved →
  applyRelease st res s now = Ok st' → res_inv st' ∧ (res_exact st → res_exact st').
Proof.
  intros Hi Hr Hs Hne. unfold applyRelease. intros E. inv_ok.
  eapply settle_inv; [done..| |eassumption].
  apply release_settles. by apply (inv_amount st Hi (rv_ID res)).
Qed.

(** What changes between two states when the rest of the reservations is untouched. *)
Definition rows_kept (ids : list uuid) (st st' : TracerDB) : Prop :=
  ∀ id, id ∉ ids → t_reservations st' !! id = t_reservations st !! id.

Lemma fold_settle_inv (f : TracerDB → Reservation → result TracerError TracerDB) l : ∀ st st',
  (∀ st res st', res_inv st → t_reservations st !! rv_ID res = Some res →
     rv_Status res = StatusReserved → f st res = Ok st' →
     (res_inv st' ∧ (res_exact st → res_exact st')) ∧ rows_kept [rv_ID res] st st') →
  res_inv st → NoDup (rv_ID <$> l) →
  Forall (λ res, t_reservations st !! rv_ID res = Some res ∧ rv_Status res = StatusReserved) l →
  fold_res f st l = Ok st' →
  (res_inv st' ∧ (res_exact st → res_exact st')) ∧ rows_kept (rv_ID <$> l) st st'.
Proof.
  intros st st' Hf. revert st st'.
  induction l as [|res l IH]; intros st st' Hi Hnd Hl; cbn [fold_res].
  { intros [= <-]. split; [done|]. by intros id _. }
  apply Forall_cons in Hl as [[Hr Hs] Hl]. rewrite fmap_cons in Hnd.
  apply NoDup_cons in Hnd as [Hnin Hnd]. intros E. inv_ok.
  match goal with E : f st res = Ok ?x |- _ =>
    rename x into st1; destruct (Hf st res st1 Hi Hr Hs E) as [[Hi1 He1] Hk1] end.
  edestruct (IH st1 st') as [[Hi2 He2] Hk2]; [done|done| |eassumption|].
  - eapply Forall_impl; [apply Forall_and; split; [exact Hl|apply Forall_forall; exact (λ x Hx, Hx)]|].
    intros r [[Hr1 Hs1] Hin]. split; [|done]. rewrite Hk1; [done|].
    intros Hc%list_elem_of_singleton. apply Hnin. rewrite <- Hc. by apply list_elem_of_fmap_2.
  - split; [by auto|]. intros id Hid. rewrite fmap_cons in Hid.
    rewrite Hk2, Hk1; [done|set_solver|set_solver].
Qed.

(** *** Every operation keeps the invariant *)

Definition with_audit (st : TracerDB) (au : list AuditRow) : TracerDB :=
  {| t_counters := t_counters st; t_reservations := t_reservations st; t_audit := au |}.

Lemma audit_inv st au : res_inv st → res_inv (with_audit st au).
Proof. intros [? ? ? ?]. by split. Qed.

Lemma Record_inv st f e id st' :
  RecordReservationEventWithTx st f e id = Ok st' → ∃ au, st' = with_audit st au.
Proof. unfold RecordReservationEventWithTx. destruct f; [done|]. intros [= <-]. by eexists. Qed.

Lemma Record_fold_inv f e l : ∀ st st',
  fold_res (λ st res, RecordReservationEventWithTx st f e (rv_ID res)) st l = Ok st' →
  ∃ au, st' = with_audit st au.
Proof.
  induction l as [|r l IH]; intros st st'; cbn [fold_res].
  - intros [= <-]. exists (t_audit st). by destruct st.
  - intros E. inv_ok.
    match goal with E : RecordReservationEventWithTx _ _ _ _ = Ok _ |- _ =>
      apply Record_inv in E as [au ->] end.
    match goal with E : fold_res _ _ _ = Ok _ |- _ => apply IH in E as [au' ->] end. by eexists.
Qed.

(** Both invariants are kept from one state to the next. *)
Definition keeps (st st' : TracerDB) : Prop := res_inv st → res_inv st' ∧ (res_exact st → res_exact st').

Lemma keeps_refl st : keeps st st.
Proof. by intros ?. Qed.

Lemma keeps_audit st st' au : keeps st st' → keeps st (with_audit st' au).
Proof. intros Hk Hi. destruct (Hk Hi) as [Hi' He]. split; [by apply audit_inv|by auto]. Qed.

Lemma ConfirmWithTx_keeps st f id now st' : ConfirmWithTx st f id now = Ok st' → keeps st st'.
Proof.
  unfold ConfirmWithTx, lockReservation. intros E Hi. destruct f; [done|].
  destruct (t_reservations st !! id) as [res|] eqn:Er; [|done]. simpl in E.
  case_bool_decide as Hs; simpl in E; [|done]. pose proof (inv_id st Hi _ _ Er) as <-.
  by eapply applyConfirm_inv.
Qed.

Lemma ReleaseWithTx_keeps st f id s now st' : ReleaseWithTx st f id s now = Ok st' → keeps st st'.
Proof.
  unfold ReleaseWithTx, lockReservation. intros E Hi.
  destruct (negb _ && negb _) eqn:Hst; [done|]. destruct f; [done|].
  destruct (t_reservations st !! id) as [res|] eqn:Er; [|done]. simpl in E.
  case_bool_decide as Hs; simpl in E; [|done]. pose proof (inv_id st Hi _ _ Er) as <-.
  eapply applyRelease_inv; [done..| |done]. intros ->. by vm_compute in Hst.
Qed.

Lemma locked_rows order st tx :
  (∀ l, order l ≡ₚ l) → res_inv st →
  NoDup (rv_ID <$> lockReservedByTransaction order st tx) ∧
  Forall (λ res, t_reservations st !! rv_ID res = Some res ∧ rv_Status res = StatusReserved)
    (lockReservedByTransaction order st tx).
Proof.
  intros Ho [Hid _ _ _]. unfold lockReservedByTransaction. rewrite !Ho. split.
  - assert (rv_ID <$> (map_to_list (t_reservations st)).*2 = (map_to_list (t_reservations st)).*1) as Hf.
    { rewrite <- list_fmap_compose. apply list_fmap_ext. intros i [id r] Hi. simpl.
      apply Hid, elem_of_map_to_list. by apply list_elem_of_lookup_2 in Hi. }
    eapply sublist_NoDup; [|apply fmap_sublist, sublist_filter].
    rewrite Hf. apply NoDup_fst_map_to_list.
  - apply Forall_forall. intros r [[_ Hs] Hr]%list_elem_of_filter. split; [|done].
    apply list_elem_of_fmap in Hr as ([id r'] & -> & Hr). apply elem_of_map_to_list in Hr.
    simpl in *. by rewrite (Hid _ _ Hr).
Qed.

Lemma applyConfirm_kept st res now st' :
  applyConfirm st res now = Ok st' → rows_kept [rv_ID res] st st'.
Proof.
  unfold applyConfirm. intros E. inv_ok. intros id Hid. simpl.
  apply lookup_insert_ne. set_solver.
Qed.

Lemma applyRelease_kept st res s now st' :
  applyRelease st res s now = Ok st' → rows_kept [rv_ID res] st st'.
Proof.
  unfold applyRelease. intros E. inv_ok. intros id Hid. simpl.
  apply lookup_insert_ne. set_solver.
Qed.

Lemma ByTransaction_keeps order st f tx s now p :
  (∀ l, order l ≡ₚ l) →
  (if bool_decide (s = StatusConfirmed) then ConfirmByTransactionWithTx order st f tx now
   else ReleaseByTransactionWithTx order st f tx s now) = Ok p → keeps st p.1.
Proof.
  intros Ho E Hi. destruct (locked_rows order st tx Ho Hi) as [Hnd Hl].
  case_bool_decide as Hs.
  - unfold ConfirmByTransactionWithTx in E. destruct f; [done|]. inv_ok.
    eapply fold_settle_inv; [|exact Hi|exact Hnd|exact Hl|eassumption].
    intros st1 res st2 Hi1 Hr1 Hs1 E1. cbn beta in E1. split; [by eapply applyConfirm_inv|by eapply applyConfirm_kept].
  - unfold ReleaseByTransactionWithTx in E. destruct (negb _ && negb _) eqn:Hst; [done|].
    destruct f; [done|]. inv_ok.
    eapply fold_settle_inv; [|exact Hi|exact Hnd|exact Hl|eassumption].
    intros st1 res st2 Hi1 Hr1 Hs1 E1. cbn beta in E1. split; [|by eapply applyRelease_kept].
    eapply applyRelease_inv; [done..| |done]. intros ->. by vm_compute in Hst.
Qed.

(** A transaction either commits its body or leaves the database as it was. *)
Lemma inTx_cases {A} flt st (fn : TracerDB → result TracerError (TracerDB * A)) st' r :
  inTx flt st fn = (st', r) →
  (st' = st ∧ ∃ e, r = Err e) ∨ (∃ a, fn st = Ok (st', a) ∧ r = Ok a).
Proof.
  unfold inTx. destruct (f_begin flt); [intros [= <- <-]; eauto|].
  destruct (fn st) as [[st1 a]|e]; [|intros [= <- <-]; eauto].
  destruct (f_commit flt); intros [= <- <-]; eauto.
Qed.

Lemma terminate_keeps st flt id s now : keeps st (terminate st flt id s now).1.
Proof.
  unfold terminate. case_bool_decide; [apply keeps_refl|].
  match goal with |- context [inTx ?a ?b ?fn] => destruct (inTx a b fn) as [st' r] eqn:E end.
  apply inTx_cases in E as [[-> [e ->]]|(a & E & ->)].
  - destruct e; apply keeps_refl.
  - inv_ok. simpl.
    match goal with E : RecordReservationEventWithTx _ _ _ _ = Ok _ |- _ =>
      apply Record_inv in E as [au ->] end.
    apply keeps_audit. case_bool_decide; [by eapply ConfirmWithTx_keeps|by eapply ReleaseWithTx_keeps].
Qed.

Lemma terminateByTransaction_keeps order st flt tx s now :
  (∀ l, order l ≡ₚ l) → keeps st (terminateByTransaction order st flt tx s now).1.
Proof.
  intros Ho. unfold terminateByTransaction. case_bool_decide; [apply keeps_refl|].
  match goal with |- context [inTx ?a ?b ?fn] => destruct (inTx a b fn) as [st' r] eqn:E end.
  apply inTx_cases in E as [[-> _]|(a & E & _)]; [apply keeps_refl|]. inv_ok. simpl.
  match goal with E : fold_res _ _ _ = Ok _ |- _ => apply Record_fold_inv in E as [au ->] end.
  apply keeps_audit. by eapply ByTransaction_keeps.
Qed.

Lemma ReleaseExpired_keeps st flt id now : keeps st (ReleaseExpired st flt id now).1.
Proof.
  unfold ReleaseExpired.
  match goal with |- context [inTx ?a ?b ?fn] => destruct (inTx a b fn) as [st' r] eqn:E end.
  apply inTx_cases in E as [[-> [e ->]]|(a & E & ->)].
  - destruct e; apply keeps_refl.
  - inv_ok. by eapply ReleaseWithTx_keeps.
Qed.

Lemma keeps_trans st1 st2 st3 : keeps st1 st2 → keeps st2 st3 → keeps st1 st3.
Proof. intros H12 H23 Hi. destruct (H12 Hi) as [Hi2 He2]. destruct (H23 Hi2). auto. Qed.

Lemma release_all_keeps flt ids now : ∀ st n, keeps st (release_all st flt ids now n).1.1.
Proof.
  induction ids as [|id ids IH]; intros st n; cbn [release_all]; [apply keeps_refl|].
  pose proof (ReleaseExpired_keeps st (flt id) id now) as H1k.
  destruct (ReleaseExpired st (flt id) id now) as [st' [u|e]]; simpl in *; [|done].
  eapply keeps_trans; [done|apply IH].
Qed.

Lemma RunOnce_keeps order st flt ff af now : keeps st (RunOnce order st flt ff af now).1.1.
Proof.
  unfold RunOnce. destruct ff; [apply keeps_refl|].
  destruct (FindExpiredReservations order st now) as [|x l]; [apply keeps_refl|].
  pose proof (release_all_keeps flt (x :: l) now st 0) as Hk.
  by destruct (release_all st flt (x :: l) now 0) as [[st' n] [u|e]].
Qed.

(** *** Reserving *)

(** No reservation of the transaction is recorded for this limit yet. *)
Definition fresh_for (tx : uuid) (st : TracerDB) (spec : ReservationSpec) : Prop :=
  ∀ id r, t_reservations st !! id = Some r → rv_TransactionID r = tx →
  rv_LimitID r ≠ sp_LimitID spec.

Lemma reserve_spec_exact flt tx id e now st spec st' :
  fresh_for tx st spec → res_exact st → reserve_spec flt tx id e now st spec = Ok st' →
  res_exact st' ∧
  (∀ spec', sp_LimitID spec' ≠ sp_LimitID spec → fresh_for tx st spec' → fresh_for tx st' spec').
Proof.
  intros Hfresh Hex. unfold reserve_spec, ReserveWithTx, RecordReservationEventWithTx.
  intros E. inv_ok.
  match goal with E : NewReservation _ _ _ _ _ _ _ _ = Ok ?y |- _ =>
    rename y into r; apply NewReservation_fields in E as (Eid & El & Et & Ea & Hpos & Es & _) end.
  destruct (UpsertAndReserveAtomic _ _ _ _ _ _ _) as [cs [u|e']] eqn:Eu; [|done].
  destruct (f_stmt flt); [done|]. inv_ok. destruct (f_audit flt); [done|]. inv_ok.
  apply UpsertAndReserve_spec in Eu as (_ & Hr & _ & _).
  match goal with E : insert_reservation _ _ = Ok _ |- _ => apply insert_reservation_spec in E as Hins end.
  destruct Hins as [[(id' & r' & Hr' & Ht) ->]|(_ & Hnone & ->)].
  { exfalso. pose proof (f_equal fst Ht) as Ht1. pose proof (f_equal (λ p, p.2.1.1) Ht) as Ht2.
    simpl in Ht1, Ht2. apply (Hfresh id' r' Hr'); congruence. }
  split.
  - intros k. simpl. rewrite held_insert, Hr, Hex by done. case_decide as Hk.
    + subst k. rewrite row_holds_own by done. lia.
    + rewrite row_holds_other by done. lia.
  - intros spec' Hne Hf id' r' Hr' Ht'. simpl in Hr'.
    destruct (decide (rv_ID r = id')) as [<-|Hi].
    + rewrite lookup_insert_eq in Hr'. injection Hr' as <-. congruence.
    + rewrite lookup_insert_ne in Hr' by done. by apply (Hf id').
Qed.

Lemma reserve_specs_exact flt tx newID e now specs : ∀ i st p,
  Forall (fresh_for tx st) specs → NoDup (sp_LimitID <$> specs) → res_exact st →
  reserve_specs flt tx newID i e now st specs = Ok p → res_exact p.1.
Proof.
  induction specs as [|sp specs IH]; intros i st p Hf Hnd Hex; cbn [reserve_specs]; [by intros [= <-]|].
  apply Forall_cons in Hf as [Hsp Hf]. rewrite fmap_cons in Hnd.
  apply NoDup_cons in Hnd as [Hnin Hnd]. intros E. inv_ok. simpl.
  match goal with E : reserve_spec _ _ _ _ _ _ _ = Ok _ |- _ =>
    apply reserve_spec_exact in E as [Hex1 Hf1]; [|done|done] end.
  eapply IH; [|done|exact Hex1|eassumption].
  apply Forall_forall. intros sp' Hin. apply Hf1.
  - intros Heq. apply Hnin. rewrite <- Heq. by apply list_elem_of_fmap_2.
  - by eapply Forall_forall in Hf.
Qed.

(** The specs a resolver returns carry the caps of their limits. *)
Definition honest {I} (resolve : I → result TracerError (list ReservationSpec * bool)) : Prop :=
  ∀ i specs d, resolve i = Ok (specs, d) →
  Forall (λ sp, sp_MaxAmount sp = cap (sp_LimitID sp)) specs ∧ NoDup (sp_LimitID <$> specs).

Lemma Reserve_cases {I} st flt resolve newID tx (input : option I) ll ttl now st' r :
  Reserve st flt resolve newID tx input ll ttl now = (st', r) →
  st' = st ∨
  ∃ i specs e p, input = Some i ∧ resolve i = Ok (specs, false) ∧
    reserve_specs flt tx newID 0 e now st specs = Ok p ∧ st' = p.1 ∧
    r = Ok {| rr_Denied := false; rr_ReservationIDs := p.2 |}.
Proof.
  unfold Reserve. case_bool_decide; [intros [= <- <-]; by left|].
  destruct input as [i|]; [|intros [= <- <-]; by left].
  destruct (resolve i) as [[[|sp specs] [|]]|e] eqn:Er; try (intros [= <- <-]; by left).
  match goal with |- context [inTx ?a ?b ?fn] => destruct (inTx a b fn) as [st1 r1] eqn:E end.
  apply inTx_cases in E as [[-> [e ->]]|(a & E & ->)].
  - destruct e; intros [= <- <-]; by left.
  - intros [= <- <-]. right. eexists _, _, _, (_, _). split_and!; [done|done|exact E|done|done].
Qed.

Lemma Reserve_inv {I} st flt resolve newID tx (input : option I) ll ttl now :
  honest resolve → res_inv st → res_inv (Reserve st flt resolve newID tx input ll ttl now).1.
Proof.
  intros Hh Hi. destruct (Reserve _ _ _ _ _ _ _ _ _) as [st' r] eqn:E.
  apply Reserve_cases in E as [->|(i & specs & e & p & _ & Er & Es & -> & _)]; [done|].
  eapply reserve_specs_inv; [done| |exact Es]. by eapply Hh.
Qed.

Lemma Reserve_exact {I} st flt resolve newID tx (input : option I) ll ttl now :
  honest resolve → (∀ id r, t_reservations st !! id = Some r → rv_TransactionID r ≠ tx) →
  res_exact st → res_exact (Reserve st flt resolve newID tx input ll ttl now).1.
Proof.
  intros Hh Hf Hex. destruct (Reserve _ _ _ _ _ _ _ _ _) as [st' r] eqn:E.
  apply Reserve_cases in E as [->|(i & specs & e & p & _ & Er & Es & -> & _)]; [done|].
  eapply reserve_specs_exact; [| |done|exact Es]; [|by eapply Hh].
  apply Forall_forall. intros sp _ id r' Hr Ht. by destruct (Hf id r' Hr).
Qed.

(** ** The life cycle as a transition system

    Any number of clients reserve, confirm and release, by reservation or by
    transaction, and the reaper sweeps, in any order, each step with any failures; a
    step is one database transaction (the sweep is one per reservation). *)
Inductive res_step (fresh : bool) (st : TracerDB) : TracerDB → Prop :=
  | step_reserve (I : Type) flt resolve newID tx (input : option I) ll ttl now :
      honest resolve →
      (fresh = true → ∀ id r, t_reservations st !! id = Some r → rv_TransactionID r ≠ tx) →
      res_step fresh st (Reserve st flt resolve newID tx input ll ttl now).1
  | step_confirm flt id now : res_step fresh st (Confirm st flt id now).1
  | step_release flt id now : res_step fresh st (Release st flt id now).1
  | step_confirm_tx order flt tx now :
      (∀ l, order l ≡ₚ l) → res_step fresh st (ConfirmByTransaction order st flt tx now).1
  | step_release_tx order flt tx now :
      (∀ l, order l ≡ₚ l) → res_step fresh st (ReleaseByTransaction order st flt tx now).1
  | step_reap order flt ff af now :
      res_step fresh st (RunOnce order st flt ff af now).1.1.

Definition empty_db : TracerDB := {| t_counters := ∅; t_reservations := ∅; t_audit := [] |}.

Lemma empty_inv : res_inv empty_db ∧ res_exact empty_db.
Proof.
  assert (∀ k, held ∅ k = 0) as Hh by (intros; unfold held; by rewrite map_to_list_empty).
  assert (∀ k, reserved ∅ k = 0) as Hr by (intros; unfold reserved; by rewrite lookup_empty).
  split; [split|]; simpl.
  - intros id r Hl. by rewrite lookup_empty in Hl.
  - intros id r Hl. by rewrite lookup_empty in Hl.
  - intros k. rewrite Hh, Hr. lia.
  - intros k row Hl. by rewrite lookup_empty in Hl.
  - intros k. simpl. by rewrite Hh, Hr.
Qed.

Lemma step_keeps fresh st st' :
  res_step fresh st st' → res_inv st →
  res_inv st' ∧ (fresh = true → res_exact st → res_exact st').
Proof.
  intros Hs Hi. destruct Hs as [I flt resolve newID tx input ll ttl now Hh Hf|flt id now|flt id now|
    order flt tx now Ho|order flt tx now Ho|order flt ff af now].
  - split; [by apply Reserve_inv|]. intros Hfr. apply Reserve_exact; [done|by apply Hf].
  - destruct (terminate_keeps st flt id StatusConfirmed now Hi). split; auto.
  - destruct (terminate_keeps st flt id StatusReleased now Hi). split; auto.
  - destruct (terminateByTransaction_keeps order st flt tx StatusConfirmed now Ho Hi). split; auto.
  - destruct (terminateByTransaction_keeps order st flt tx StatusReleased now Ho Hi). split; auto.
  - destruct (RunOnce_keeps order st flt ff af now Hi). split; auto.
Qed.

Lemma reachable_inv fresh st :
  rtc (res_step fresh) empty_db st → res_inv st ∧ (fresh = true → res_exact st).
Proof.
  intros Hr. assert (∀ st1 st2, rtc (res_step fresh) st1 st2 →
    res_inv st1 ∧ (fresh = true → res_exact st1) → res_inv st2 ∧ (fresh = true → res_exact st2)) as Hg.
  { induction 1 as [|st1 st2 st3 Hs _ IH]; [done|]. intros [Hi He]. apply IH.
    destruct (step_keeps _ _ _ Hs Hi) as [Hi2 He2]. auto. }
  apply (Hg _ _ Hr). destruct empty_inv. auto.
Qed.

End Invariant.

(** ** What the life cycle guarantees *)

Section Guarantees.
Context `{DecimalLaws, UuidNil}.
Variable cap : uuid → Z.

(** C3: two-phase reservations never over-commit a limit.  However reserves,
    confirms, releases (by reservation or by transaction) and sweeps of the reaper
    interleave, whatever fails, and also when reserves are retried, in every database
    the service can reach: what a counter has committed plus what it reserves stays
    within the cap of its limit, its reserved usage is never negative, and it covers
    all the outstanding reservations, so every one of them can still be honoured. *)
Theorem reservations_never_overcommit st (k : counter_key) row :
  rtc (res_step cap false) empty_db st → t_counters st !! k = Some row →
  (dval (cr_current_usage row) + inject_Z (cr_reserved_usage row) <= inject_Z (cap k.1.1))%Q ∧
  0 <= held (t_reservations st) k <= cr_reserved_usage row.
Proof.
  intros [Hi _]%reachable_inv Hk. split; [by apply (inv_cap cap st Hi k)|].
  split; [apply held_nonneg; by apply (inv_amount cap)|].
  pose proof (inv_held cap st Hi k) as Hh. unfold reserved in Hh. by rewrite Hk in Hh.
Qed.

(** C20: reservations refine a ledger of holds: when no transaction reserves twice,
    the reserved usage of a counter is at every moment exactly the sum of the
    outstanding reservations on it, under any interleaving and any failures; so
    capacity is neither lost nor invented, and a counter with no outstanding
    reservation reserves nothing. *)
Theorem reservations_refine_holds st k :
  rtc (res_step cap true) empty_db st →
  reserved (t_counters st) k = held (t_reservations st) k ∧
  ((∀ id r, t_reservations st !! id = Some r → rv_key r = k → rv_Status r ≠ StatusReserved) →
   reserved (t_counters st) k = 0).
Proof.
  intros [Hi He]%reachable_inv. specialize (He eq_refl). split; [by rewrite He|].
  intros Hno. rewrite <- He. unfold held.
  assert (Forall (λ r, row_holds k r = 0) (map_to_list (t_reservations st)).*2) as Hf.
  { apply Forall_fmap, Forall_forall. intros [id r] Hr%elem_of_map_to_list. simpl.
    unfold row_holds. destruct (decide (rv_key r = k)) as [Hk|Hk].
    - by rewrite bool_decide_false by (by apply (Hno id)).
    - by rewrite (bool_decide_false (rv_key r = k)), andb_false_r. }
  unfold sum_Z. induction Hf as [|r l Hr _ IH]; [done|]. rewrite fmap_cons. cbn [foldr].
  rewrite IH. cbn beta in Hr. lia.
Qed.

(** A terminal row: confirming or releasing it again succeeds and changes nothing. *)
Lemma terminate_terminal st id r s now :
  id ≠ uuid_Nil → t_reservations st !! id = Some r → rv_Status r ≠ StatusReserved →
  s = StatusConfirmed ∨ s = StatusReleased →
  terminate st no_faults id s now = (st, Ok tt).
Proof.
  intros Hid Hr Hs Hst. unfold terminate. rewrite bool_decide_false by done.
  unfold inTx, ConfirmWithTx, ReleaseWithTx, lockReservation. simpl. rewrite Hr. simpl.
  rewrite (bool_decide_false (rv_Status r = StatusReserved)) by done.
  by destruct Hst as [-> | ->].
Qed.

(** A reservation is settled exactly once: confirming an outstanding reservation
    succeeds, moves exactly its amount from the reserved to the committed usage of its
    counter and touches no other counter; confirming or releasing it again succeeds
    and changes nothing at all. *)
Theorem confirm_settles_once st id r now now' :
  rtc (res_step cap false) empty_db st →
  id ≠ uuid_Nil → t_reservations st !! id = Some r → rv_Status r = StatusReserved →
  0 < rv_Amount r →
  ∃ st' row row',
    Confirm st no_faults id now = (st', Ok tt) ∧
    t_counters st !! rv_key r = Some row ∧ t_counters st' !! rv_key r = Some row' ∧
    (dval (cr_current_usage row') == dval (cr_current_usage row) + inject_Z (rv_Amount r))%Q ∧
    cr_reserved_usage row' = cr_reserved_usage row - rv_Amount r ∧
    (∀ k, k ≠ rv_key r → t_counters st' !! k = t_counters st !! k) ∧
    Confirm st' no_faults id now' = (st', Ok tt) ∧ Release st' no_faults id now' = (st', Ok tt).
Proof.
  intros [Hi _]%reachable_inv Hid Hr Hs Hpos.
  pose proof (inv_id cap st Hi _ _ Hr) as <-.
  destruct (settle_total cap st r (confirm_move (rv_Amount r) now) Hi Hr Hs Hpos)
    as [cs Hcs]; [apply confirm_settles|].
  assert (∃ st', Confirm st no_faults (rv_ID r) now = (st', Ok tt) ∧ t_counters st' = cs ∧
            t_reservations st' !! rv_ID r = Some (rv_flip r StatusConfirmed (Some now) (rv_ReleasedAt r)))
    as (st' & E & <- & Hr').
  { unfold Confirm, terminate. rewrite bool_decide_false by done.
    unfold inTx, ConfirmWithTx, lockReservation. cbn [f_begin f_stmt f_audit f_commit no_faults].
    rewrite (bool_decide_true (StatusConfirmed = StatusConfirmed)) by done.
    rewrite Hr. cbn [rbind]. rewrite (bool_decide_true (rv_Status r = StatusReserved)) by done.
    cbn [negb]. unfold applyConfirm. rewrite Hcs. cbn [rbind RecordReservationEventWithTx].
    eexists. split; [reflexivity|]. split; [done|]. apply lookup_insert_eq. }
  unfold execCounterMove in Hcs. destruct (t_counters st !! rv_key r) as [row|] eqn:Ek; [|done].
  destruct (_ <? 0); [done|]. injection Hcs as Hcs.
  exists st', row, (confirm_move (rv_Amount r) now row). split_and!; [done|done| | |done| | |].
  - by rewrite <- Hcs, lookup_insert_eq.
  - simpl. by rewrite dval_add, dval_new.
  - intros k Hk. rewrite <- Hcs. by apply lookup_insert_ne.
  - by eapply terminate_terminal; [..|left].
  - by eapply terminate_terminal; [..|right].
Qed.

(** ** The reaper *)

Lemma ReleaseExpired_ok st id r now :
  res_inv cap st → t_reservations st !! id = Some r → rv_Status r = StatusReserved →
  0 < rv_Amount r →
  ∃ st' r', ReleaseExpired st no_faults id now = (st', Ok tt) ∧
    t_reservations st' !! id = Some r' ∧ rv_Status r' = StatusExpired ∧ rows_kept [id] st st'.
Proof.
  intros Hi Hr Hs Hpos. pose proof (inv_id cap st Hi _ _ Hr) as <-.
  destruct (settle_total cap st r (release_move (rv_Amount r) now) Hi Hr Hs Hpos)
    as [cs Hcs]; [apply release_settles; lia|].
  unfold ReleaseExpired, inTx, ReleaseWithTx, lockReservation.
  cbn [f_begin f_stmt f_audit f_commit no_faults].
  rewrite (bool_decide_true (StatusExpired = StatusExpired)), andb_false_r by done.
  rewrite Hr. cbn [rbind]. rewrite (bool_decide_true (rv_Status r = StatusReserved)) by done.
  cbn [negb]. unfold applyRelease. rewrite Hcs. cbn [rbind].
  eexists _, _. split_and!; [reflexivity|apply lookup_insert_eq|done|].
  intros id' Hid'. simpl. apply lookup_insert_ne. set_solver.
Qed.

Lemma release_all_ok ids now : ∀ st n,
  res_inv cap st → NoDup ids →
  (∀ id, id ∈ ids → ∃ r, t_reservations st !! id = Some r ∧ rv_Status r = StatusReserved ∧ 0 < rv_Amount r) →
  ∃ st', release_all st (λ _, no_faults) ids now n = (st', (n + length ids)%nat, Ok tt) ∧
    (∀ id, id ∈ ids → ∃ r, t_reservations st' !! id = Some r ∧ rv_Status r = StatusExpired) ∧
    rows_kept ids st st'.
Proof.
  induction ids as [|id ids IH]; intros st n Hi Hnd Hall; cbn [release_all].
  { eexists. split_and!; [by rewrite Nat.add_0_r|set_solver|by intros ? _]. }
  apply NoDup_cons in Hnd as [Hnin Hnd].
  destruct (Hall id ltac:(set_solver)) as (r & Hr & Hs & Hpos).
  destruct (ReleaseExpired_ok st id r now Hi Hr Hs Hpos) as (st1 & r1 & E1 & Hr1 & Hs1 & Hk1).
  rewrite E1. pose proof (ReleaseExpired_keeps cap st no_faults id now Hi) as [Hi1 _].
  rewrite E1 in Hi1. simpl in Hi1.
  destruct (IH st1 (S n) Hi1 Hnd) as (st2 & E2 & Hex & Hk2).
  { intros id' Hid'. rewrite Hk1 by (intros ?%list_elem_of_singleton; congruence).
    apply Hall. set_solver. }
  exists st2. split_and!.
  - rewrite E2. do 2 f_equal. simpl. lia.
  - intros id' [->|Hid']%elem_of_cons; [|by apply Hex].
    exists r1. rewrite Hk2 by done. done.
  - intros id' Hid'. rewrite Hk2, Hk1; [done|set_solver|set_solver].
Qed.

(** Abandoned capacity comes back: in any reachable database whose outstanding
    reservations hold something, one sweep of the reaper, whatever the order in which
    the database lists the rows, succeeds and leaves no RESERVED reservation past its
    lifetime; the reservations still in their lifetime are untouched.  With
    [reservations_refine_holds], their counters no longer reserve for them. *)
Theorem reaper_expires_everything order st now :
  rtc (res_step cap false) empty_db st → (∀ l, order l ≡ₚ l) →
  (∀ id r, t_reservations st !! id = Some r → rv_Status r = StatusReserved → 0 < rv_Amount r) →
  ∃ st' n, RunOnce order st (λ _, no_faults) false false now = (st', n, Ok tt) ∧
    (∀ id r, t_reservations st' !! id = Some r → rv_Status r = StatusReserved →
             now <= rv_ReservationExpiresAt r) ∧
    (∀ id r, t_reservations st !! id = Some r → now <= rv_ReservationExpiresAt r →
             t_reservations st' !! id = Some r).
Proof.
  intros [Hi _]%reachable_inv Ho Hpos. unfold RunOnce, FindExpiredReservations.
  set (found := order _).
  assert (NoDup found) as Hnd by (unfold found; rewrite Ho; apply NoDup_fst_map_to_list).
  assert (∀ id, id ∈ found ↔ ∃ r, t_reservations st !! id = Some r ∧ rv_Status r = StatusReserved ∧
            rv_ReservationExpiresAt r < now) as Hin.
  { intros id. unfold found. rewrite Ho, list_elem_of_fmap. split.
    - intros ([id' r] & -> & Hr). apply elem_of_map_to_list, map_lookup_filter_Some in Hr as (Hr & Hs & Ht).
      simpl in *. apply Z.ltb_lt in Ht. eauto.
    - intros (r & Hr & Hs & Ht). exists (id, r). split; [done|].
      apply elem_of_map_to_list, map_lookup_filter_Some. split_and!; [done|done|]. by apply Z.ltb_lt. }
  destruct (release_all_ok found now st 0 Hi Hnd) as (st' & E & Hex & Hk).
  { intros id (r & Hr & Hs & _)%Hin. eauto. }
  assert (∃ n, match found with [] => (st, 0%nat, Ok tt)
    | _ => match release_all st (λ _, no_faults) found now 0 with
           | (st', released, Ok _) => (st', released, Ok tt)
           | (st', released, Err e) => (st', released, Err e) end end = (st', n, @Ok TracerError unit tt))
    as [n En].
  { destruct found as [|x l] eqn:Ef.
    - exists 0%nat. simpl in E. injection E as ->. done.
    - rewrite E. eauto. }
  exists st', n. split; [|split].
  - rewrite <- En. destruct found; [done|]. by rewrite E.
  - intros id r Hr Hs. destruct (decide (id ∈ found)) as [Hf|Hf].
    + destruct (Hex id Hf) as (r' & Hr' & Hs'). congruence.
    + rewrite Hk in Hr by done. destruct (Z.lt_ge_cases (rv_ReservationExpiresAt r) now); [|done].
      destruct Hf. apply Hin. eauto.
  - intros id r Hr Ht. rewrite Hk; [done|]. intros (r' & Hr' & _ & Ht')%Hin.
    rewrite Hr in Hr'. injection Hr' as <-. lia.
Qed.

End Guarantees.

(** ** The resolver meets the service's expectations *)

Section ResolverSpec.
Context `{DecimalLib, !DecimalInt, UuidNil, CurrencyLib}.

Lemma resolve_limits_spec limits input now : ∀ acc specs d,
  resolve_limits limits input now acc = Ok (specs, d) →
  (d = true ∧ specs = []) ∨
  (d = false ∧ ∃ new, specs = acc ++ new ∧ (sp_LimitID <$> new) `sublist_of` (lim_ID <$> limits) ∧
     Forall (λ sp, sp_Amount sp = dIntPart (ci_Amount input) ∧
                   ∃ l, l ∈ limits ∧ lim_ID l = sp_LimitID sp ∧
                        sp_MaxAmount sp = dIntPart (lim_MaxAmount l)) new).
Proof.
  induction limits as [|l limits IH]; intros acc specs d; cbn [resolve_limits].
  { intros [= <- <-]. right. split; [done|]. exists []. rewrite app_nil_r.
    split_and!; [done|apply sublist_nil|by constructor]. }
  assert (∀ acc', resolve_limits limits input now acc' = Ok (specs, d) →
    (d = true ∧ specs = []) ∨
    (d = false ∧ ∃ new, specs = acc' ++ new ∧ (sp_LimitID <$> new) `sublist_of` (lim_ID <$> (l :: limits)) ∧
      Forall (λ sp, sp_Amount sp = dIntPart (ci_Amount input) ∧
                    ∃ l', l' ∈ l :: limits ∧ lim_ID l' = sp_LimitID sp ∧
                          sp_MaxAmount sp = dIntPart (lim_MaxAmount l')) new ∧
      (sp_LimitID <$> new) `sublist_of` (lim_ID <$> limits))) as Hrest.
  { intros acc' E. destruct (IH _ _ _ E) as [?|(-> & new & -> & Hsub & Hf)]; [by left|].
    right. split; [done|]. exists new. split_and!; [done|by apply sublist_cons| |done].
    eapply Forall_impl; [exact Hf|]. intros sp (Ha & l' & Hl' & ? & ?). split; [done|].
    exists l'. split_and!; [set_solver|done|done]. }
  assert (∀ acc', resolve_limits limits input now acc' = Ok (specs, d) →
    (d = true ∧ specs = []) ∨
    (d = false ∧ ∃ new, specs = acc' ++ new ∧ (sp_LimitID <$> new) `sublist_of` (lim_ID <$> (l :: limits)) ∧
      Forall (λ sp, sp_Amount sp = dIntPart (ci_Amount input) ∧
                    ∃ l', l' ∈ l :: limits ∧ lim_ID l' = sp_LimitID sp ∧
                          sp_MaxAmount sp = dIntPart (lim_MaxAmount l')) new)) as Hskip.
  { intros acc' E. destruct (Hrest _ E) as [Hd|(Hd & new & Hn & Hs & Hf & _)]; [by left|].
    right. split; [exact Hd|]. exists new. split; [exact Hn|]. split; [exact Hs|exact Hf]. }
  destruct (skipIfOutsideTimeWindow l input now);
    [exact (Hskip acc)|].
  destruct (skipIfOutsideCustomPeriod l input now);
    [exact (Hskip acc)|].
  case_bool_decide.
  { destruct (dgt _ _); [intros [= <- <-]; by left|].
    exact (Hskip acc). }
  destruct (CalculatePeriodKey (lim_LimitType l) now) as [pk|]; [|done]. cbn [rbind].
  destruct (dgt _ _); [intros [= <- <-]; by left|].
  intros E. destruct (Hrest _ E) as [?|(-> & new & -> & _ & Hf & Hsub)]; [by left|].
  right. split; [done|]. eexists (_ :: new). rewrite <- app_assoc. split_and!; [done| |].
  - rewrite !fmap_cons. by apply sublist_skip.
  - constructor; [|done]. simpl. split; [done|]. exists l. split_and!; [set_solver|done|done].
Qed.

(** The resolver gives the service the caps of the limits it was given. *)
Lemma resolver_honest cap limits now :
  NoDup (lim_ID <$> limits) →
  Forall (λ l, dIntPart (lim_MaxAmount l) = cap (lim_ID l)) limits →
  honest cap (ResolveReservations (λ _, Ok limits) now).
Proof.
  intros Hnd Hcap i specs d. unfold ResolveReservations. intros E. inv_ok.
  match goal with E : resolve_limits _ _ _ _ = _ |- _ =>
    apply resolve_limits_spec in E as [[_ ->]|(_ & new & -> & Hsub & Hf)] end.
  { split; [constructor|apply NoDup_nil_2]. }
  simpl. split; [|by eapply sublist_NoDup].
  eapply Forall_impl; [exact Hf|]. intros sp (_ & l & Hl & <- & ->).
  by eapply Forall_forall in Hcap.
Qed.

End ResolverSpec.

(** ** Where the life cycle departs from its description *)

Section Divergences.
Context `{DecimalLaws, !DecimalInt, !DecimalIntLaws, UuidNil, CurrencyLib}.

(** A retried reserve reserves twice.  When the reservation of a transaction on a
    counter already exists, reserving again succeeds and adds the amount to the
    counter's reserved usage although no reservation is recorded for it: nothing ever
    gives that capacity back, and the identifier returned to the client is not found
    when it confirms.  (The comments say a retry collapses onto the existing row.) *)
Theorem retried_reserve_leaks flt tx id e now st spec st' :
  (∃ id0 r0, t_reservations st !! id0 = Some r0 ∧
     rv_tuple r0 = (tx, (sp_LimitID spec, strings_TrimSpace (sp_ScopeKey spec),
                         strings_TrimSpace (sp_PeriodKey spec)))) →
  id ≠ uuid_Nil → t_reservations st !! id = None →
  reserve_spec flt tx id e now st spec = Ok st' →
  t_reservations st' = t_reservations st ∧
  reserved (t_counters st') (sp_LimitID spec, strings_TrimSpace (sp_ScopeKey spec),
                             strings_TrimSpace (sp_PeriodKey spec)) =
  reserved (t_counters st) (sp_LimitID spec, strings_TrimSpace (sp_ScopeKey spec),
                            strings_TrimSpace (sp_PeriodKey spec)) + sp_Amount spec ∧
  Confirm st' no_faults id now = (st', Err ErrReservationNotFound).
Proof.
  intros (id0 & r0 & Hr0 & Ht0) Hid Hnone.
  unfold reserve_spec, ReserveWithTx, RecordReservationEventWithTx. intros E. inv_ok.
  match goal with E : NewReservation _ _ _ _ _ _ _ _ = Ok ?y |- _ =>
    rename y into r; apply NewReservation_fields in E as (Eid & El & Et & Ea & Hpos & Es & _ & Esk & Epk) end.
  destruct (UpsertAndReserveAtomic _ _ _ _ _ _ _) as [cs [u|e']] eqn:Eu; [|done].
  destruct (f_stmt flt); [done|]. inv_ok. destruct (f_audit flt); [done|]. inv_ok.
  apply UpsertAndReserve_spec in Eu as (_ & Hr & _ & _).
  match goal with E : insert_reservation _ _ = Ok _ |- _ =>
    apply insert_reservation_spec in E as [[_ ->]|(Hnt & _)] end.
  2: { destruct Hnt. exists id0, r0. split; [done|]. rewrite Ht0. unfold rv_tuple, rv_key.
       by rewrite El, Esk, Epk. }
  cbn [t_reservations t_counters]. split_and!; [done| |].
  - rewrite Hr. unfold rv_key. rewrite El, Esk, Epk, decide_True by done. lia.
  - unfold Confirm, terminate. rewrite bool_decide_false by done.
    unfold inTx, ConfirmWithTx, lockReservation. cbn. by rewrite Hnone.
Qed.

Lemma zero_spec_counters flt tx id e now st spec st' :
  sp_Amount spec = 0 → reserve_spec flt tx id e now st spec = Ok st' → t_counters st' = t_counters st.
Proof.
  intros Hz. unfold reserve_spec, ReserveWithTx, RecordReservationEventWithTx. intros E. inv_ok.
  match goal with E : NewReservation _ _ _ _ _ _ _ _ = Ok ?y |- _ =>
    apply NewReservation_fields in E as (_ & _ & _ & Ea & _) end.
  unfold UpsertAndReserveAtomic in *. rewrite Ea, Hz in *. simpl in *.
  destruct (f_stmt flt); [done|]. inv_ok. destruct (f_audit flt); [done|]. by inv_ok.
Qed.

(** Amounts below one unit are not counted.  The reservation path truncates the
    amount of the transaction to an integer, although counters and limits are decimal
    amounts of currency: reserving a positive amount below 1, such as 0.99, never
    touches a counter, whatever the limits and however often it is repeated. *)
Theorem fractional_reserve_is_free st flt limits newID tx input ll ttl now st' r :
  (dval (ci_Amount input) < 1)%Q →
  Reserve st flt (ResolveReservations (λ _, Ok limits) now) newID tx (Some input) ll ttl now = (st', r) →
  t_counters st' = t_counters st.
Proof.
  intros Hlt E. apply Reserve_cases in E as [->|(i & specs & e & p & [= <-] & Er & Es & -> & _)]; [done|].
  unfold ResolveReservations in Er. inv_ok.
  match goal with E : CheckLimitsInput_validate _ _ = Ok ?u |- _ =>
    destruct u; apply valid_input_positive in E as Hpos end.
  destruct (dIntPart_spec (ci_Amount input)) as [Hlo Hhi]; [lra|change (inject_Z (2 ^ 63)) with 9223372036854775808%Q; lra|].
  assert (dIntPart (ci_Amount input) = 0) as Hz.
  { assert (inject_Z (dIntPart (ci_Amount input)) < inject_Z 1)%Q as Hb1 by (change (inject_Z 1) with 1%Q; lra).
    assert (inject_Z 0 < inject_Z (dIntPart (ci_Amount input) + 1))%Q as Hb2 by (change (inject_Z 0) with 0%Q; lra).
    rewrite <- Zlt_Qlt in Hb1, Hb2. lia. }
  match goal with E : resolve_limits _ _ _ _ = _ |- _ =>
    apply resolve_limits_spec in E as [[? _]|(_ & new & -> & _ & Hf)] end; [done|].
  simpl in Es. assert (Forall (λ sp, sp_Amount sp = 0) new) as Hf0.
  { eapply Forall_impl; [exact Hf|]. intros sp [-> _]. done. }
  clear -Es Hf0. revert st p Es. generalize 0%nat. induction Hf0 as [|sp new Hz _ IH]; intros i st p;
    cbn [reserve_specs]; [by intros [= <-]|].
  intros E. inv_ok. simpl. rewrite (IH _ _ _ ltac:(eassumption)). by eapply zero_spec_counters.
Qed.

(** A limit that restricts only the transaction type or sub-type cannot be
    reserved: its scope key is empty, which a reservation does not accept, so every
    reserve of a transaction such a limit applies to fails with
    [ErrReservationScopeKeyRequired], while the synchronous check counts it. *)
Theorem type_scoped_limit_blocks_reserve st limit scope input newID tx ll ttl now :
  lim_Scopes limit = [scope] → scope_has_id scope = false → Scope_IsEmpty scope = false →
  Scope_Matches scope (buildTransactionScope input) = true →
  in_force limit now = true → is_periodic (lim_LimitType limit) = true →
  dle (ci_Amount input) (lim_MaxAmount limit) = true →
  CheckLimitsInput_validate input false = Ok tt →
  lim_ID limit ≠ uuid_Nil → tx ≠ uuid_Nil →
  Reserve st no_faults (ResolveReservations (λ _, Ok [limit]) now) newID tx (Some input) ll ttl now =
  (st, Err ErrReservationScopeKeyRequired).
Proof.
  intros Hsc Hid Hne Hm Hin Hty Hle Hv Hlid Htx.
  unfold in_force in Hin. apply andb_true_iff in Hin as [Hw Hc].
  assert (CalculateScopeKey (Some scope) = "") as Hk.
  { unfold CalculateScopeKey. rewrite Hne. unfold scope_has_id in Hid.
    by destruct (sc_AccountID scope), (sc_PortfolioID scope), (sc_SegmentID scope), (sc_MerchantID scope). }
  assert (∃ pk, CalculatePeriodKey (lim_LimitType limit) now = Ok pk) as [pk Hpk].
  { destruct (lim_LimitType limit); try done; simpl; eauto. }
  unfold Reserve. rewrite bool_decide_false by done.
  unfold ResolveReservations. rewrite Hv. cbn [rbind resolve_limits].
  unfold skipIfOutsideTimeWindow, skipIfOutsideCustomPeriod.
  rewrite Hw, Hc. cbn [negb].
  rewrite bool_decide_false by (by destruct (lim_LimitType limit)).
  rewrite Hpk. cbn [rbind]. rewrite dle_dgt, Hle.
  cbn [negb app]. unfold inTx. cbn [f_begin no_faults reserve_specs]. unfold reserve_spec.
  cbn [sp_LimitID sp_ScopeKey sp_PeriodKey]. unfold calculateScopeKeyFromScopes. rewrite Hsc.
  cbn [List.find]. rewrite Hm, Hk. unfold NewReservation. rewrite !bool_decide_false by done. reflexivity.
Qed.

(** One reservation without a counter stops the reaper: when the row the database
    lists first has no counter (a reserve below one unit creates such a row), the
    sweep fails before it releases anything, the database is unchanged, and so every
    later sweep fails in the same way; the expired reservations listed after it keep
    their capacity. *)
Theorem uncounted_row_stops_reaper order st flt id rest r now :
  FindExpiredReservations order st now = id :: rest →
  t_reservations st !! id = Some r → rv_Status r = StatusReserved →
  t_counters st !! rv_key r = None →
  flt id = no_faults →
  RunOnce order st flt false false now = (st, 0%nat, Err ErrUsageCounterNotFound).
Proof.
  intros Hf Hr Hs Hk Hflt. unfold RunOnce. rewrite Hf. cbn [release_all]. rewrite Hflt.
  unfold ReleaseExpired, inTx, ReleaseWithTx, lockReservation.
  cbn [f_begin f_stmt no_faults]. rewrite (bool_decide_true (StatusExpired = StatusExpired)), andb_false_r by done.
  rewrite Hr. cbn [rbind]. rewrite (bool_decide_true (rv_Status r = StatusReserved)) by done.
  cbn [negb]. unfold applyRelease, execCounterMove. by rewrite Hk.
Qed.

End Divergences.

(** ** Concrete runs *)

Module FixedInt.
#[export] Instance int : DecimalInt (H := Fixed.lib) :=
  {| dIntPart := λ a : @dec Fixed.lib, Z.quot (Fixed.coef a) (Fixed.zp10 (Fixed.scale a)) |}.
#[export] Instance int_laws : @DecimalIntLaws Fixed.lib Fixed.laws int.
Proof.
  split. intros [c s]. cbn [dIntPart int Fixed.coef Fixed.scale]. intros Hlo _.
  change (dval _) with (Qmake c (Fixed.p10 s)) in *.
  unfold Qle, Qlt, inject_Z in *. simpl in *. unfold Fixed.zp10.
  rewrite Z.quot_div_nonneg by lia.
  pose proof (Z.div_mod c (Z.pos (Fixed.p10 s)) ltac:(lia)).
  pose proof (Z.mod_pos_bound c (Z.pos (Fixed.p10 s)) ltac:(lia)). lia.
Defined.
End FixedInt.
Import TracerSample CheckerSample FixedInt.
#[local] Existing Instances Fixed.lib Numbered.lib Fixed.laws FixedInt.int FixedInt.int_laws.

Module ResSample.
Abbreviation DB := (@TracerDB Fixed.lib Numbered.lib TracerSample.ids).

(** Transaction [tx] reserves [amount] cents against the daily limit of 100.00. *)
Definition reserve (st : DB) (tx base : nat) (amount : Z) (now : time)
    : DB * result TracerError ReserveResult :=
  Reserve st no_faults (ResolveReservations (λ _, Ok [daily100]) now) (λ i, id (base + i))
    (id tx) (Some (pay amount)) false 0 now.

Definition cap100 (_ : @uuid Numbered.lib) : Z := 100.

Lemma cap100_honest now : honest cap100 (ResolveReservations (λ _, Ok [daily100]) now).
Proof. apply resolver_honest; [apply NoDup_singleton|repeat constructor]. Defined.

Lemma reserve_step fresh st tx base amount now :
  (fresh = true → ∀ id r, t_reservations st !! id = Some r → rv_TransactionID r ≠ tx) →
  res_step cap100 fresh st (reserve st tx base amount now).1.
Proof. intros Hf. apply step_reserve; [apply cap100_honest|exact Hf]. Defined.

(** 60.00 reserved by transaction 5 as reservation 11. *)
Definition held60 : DB := (reserve empty_db 5 11 6000 noon).1.

Lemma held60_reachable fresh : rtc (res_step cap100 fresh) empty_db held60.
Proof.
  eapply rtc_l; [|apply rtc_refl]. apply reserve_step. intros _ i r Hr.
  cbn [empty_db t_reservations] in Hr. by rewrite lookup_empty in Hr.
Defined.

(** Half a unit reserved by transaction 5 on an empty database. *)
Definition held_half : DB := (reserve empty_db 5 11 50 noon).1.
End ResSample.
Import ResSample.

Lemma reservations_never_overcommit_witness :
  ∃ row, t_counters held60 !! key7 = Some row ∧
  (dval (cr_current_usage row) + inject_Z (cr_reserved_usage row) <= 100)%Q ∧
  0 <= held (t_reservations held60) key7 <= cr_reserved_usage row.
Proof.
  destruct (t_counters held60 !! key7) as [row|] eqn:E; [|vm_compute in E; discriminate E].
  exists row. split; [reflexivity|].
  exact (reservations_never_overcommit cap100 held60 key7 row (held60_reachable false) E).
Defined.

Lemma reservations_refine_holds_witness :
  reserved (t_counters held60) key7 = held (t_reservations held60) key7 ∧
  held (t_reservations held60) key7 = 60.
Proof.
  split; [apply (reservations_refine_holds cap100 held60 key7 (held60_reachable true))|].
  vm_compute. reflexivity.
Defined.

Lemma confirm_settles_once_witness :
  ∃ st', Confirm held60 no_faults (id 11) noon = (st', Ok tt) ∧
         Confirm st' no_faults (id 11) noon = (st', Ok tt).
Proof.
  destruct (t_reservations held60 !! id 11) as [r|] eqn:E; [|vm_compute in E; discriminate E].
  assert (rv_Status r = StatusReserved ∧ 0 < rv_Amount r) as [Hs Ha].
  { vm_compute in E. injection E as <-. split; reflexivity. }
  destruct (confirm_settles_once cap100 held60 (id 11) r noon noon (held60_reachable false)
              ltac:(discriminate) E Hs Ha) as (st' & ? & ? & E1 & _ & _ & _ & _ & _ & E2 & _).
  exists st'. split; [exact E1|exact E2].
Defined.

Lemma reaper_expires_everything_witness :
  ∃ st' n, RunOnce (λ l, l) held60 (λ _, no_faults) false false (noon + Hour) = (st', n, Ok tt) ∧
  ∀ id r, t_reservations st' !! id = Some r → rv_Status r = StatusReserved →
          noon + Hour <= rv_ReservationExpiresAt r.
Proof.
  destruct (reaper_expires_everything cap100 (λ l, l) held60 (noon + Hour) (held60_reachable false)
              ltac:(reflexivity)) as (st' & n & E & Hr & _).
  - intros i r Hr _. apply elem_of_map_to_list in Hr.
    assert (forallb (λ p : @uuid Numbered.lib * Reservation, 0 <? rv_Amount p.2)
              (map_to_list (t_reservations held60)) = true) as Hl by (vm_compute; reflexivity).
    apply Z.ltb_lt. apply list_elem_of_In in Hr.
    exact (proj1 (forallb_forall _ _) Hl (i, r) Hr).
  - exists st', n. split; [exact E|exact Hr].
Defined.

Lemma retried_reserve_leaks_witness :
  let spec := {| sp_LimitID := id 1; sp_ScopeKey := "acct:7"; sp_PeriodKey := "2026-03-02";
                 sp_Amount := 30; sp_MaxAmount := 100 |} in
  ∃ st', reserve_spec no_faults (id 5) (id 12) (noon + Hour) noon held60 spec = Ok st' ∧
  reserved (t_counters st') key7 = 90 ∧ held (t_reservations st') key7 = 60 ∧
  Confirm st' no_faults (id 12) noon = (st', Err ErrReservationNotFound).
Proof.
  intros spec.
  assert (is_ok (reserve_spec no_faults (id 5) (id 12) (noon + Hour) noon held60 spec) = true) as Hok
    by (vm_compute; reflexivity).
  destruct (reserve_spec no_faults (id 5) (id 12) (noon + Hour) noon held60 spec) as [st'|e] eqn:E;
    [|discriminate Hok].
  exists st'. split; [reflexivity|].
  destruct (retried_reserve_leaks no_faults (id 5) (id 12) (noon + Hour) noon held60 spec st')
    as (Hr & Hc & Hn); [|discriminate|vm_compute; reflexivity|exact E|].
  - destruct (t_reservations held60 !! id 11) as [r0|] eqn:Er; [|vm_compute in Er; discriminate Er].
    exists (id 11), r0. split; [exact Er|]. vm_compute in Er. injection Er as <-. reflexivity.
  - split; [|split; [|exact Hn]].
    + refine (eq_trans Hc _). vm_compute. reflexivity.
    + rewrite Hr. vm_compute. reflexivity.
Defined.

Lemma fractional_reserve_is_free_witness :
  t_counters held_half = ∅ ∧ size (t_reservations held_half) = 1%nat.
Proof.
  split; [|vm_compute; reflexivity].
  apply (fractional_reserve_is_free empty_db no_faults [daily100] (λ i, id (11 + i)) (id 5) (pay 50)
           false 0 noon held_half (reserve empty_db 5 11 50 noon).2).
  - vm_compute. reflexivity.
  - vm_compute. reflexivity.
Defined.

Lemma type_scoped_limit_blocks_reserve_witness :
  let pix100 := with_Scopes daily100 [pix_scope] in
  Reserve empty_db no_faults (ResolveReservations (λ _, Ok [pix100]) noon) (λ i, id (11 + i)) (id 5)
    (Some (pay 100)) false 0 noon = (empty_db, Err ErrReservationScopeKeyRequired) ∧
  match (checkLimitsInternal (∅ : Counters) (λ _, false) (Some (pay 100)) (λ _, Ok [pix100]) noon).2 with
  | Ok out => co_Allowed out = true
  | Err _ => False
  end.
Proof.
  intros pix100. split; [|vm_compute; reflexivity].
  apply (type_scoped_limit_blocks_reserve empty_db pix100 pix_scope (pay 100) (λ i, id (11 + i)) (id 5)
           false 0 noon); try reflexivity; try discriminate; vm_compute; reflexivity.
Defined.

Lemma uncounted_row_stops_reaper_witness :
  RunOnce (λ l, l) held_half (λ _, no_faults) false false (noon + Hour) =
  (held_half, 0%nat, Err ErrUsageCounterNotFound).
Proof.
  destruct (t_reservations held_half !! id 11) as [r|] eqn:Er; [|vm_compute in Er; discriminate Er].
  assert (rv_Status r = StatusReserved ∧ t_counters held_half !! rv_key r = None) as [Hs Hk].
  { split; [vm_compute in Er; injection Er as <-; reflexivity|]. vm_compute. reflexivity. }
  apply (uncounted_row_stops_reaper (λ l, l) held_half (λ _, no_faults) (id 11) [] r (noon + Hour));
    [vm_compute; reflexivity|exact Er|exact Hs|exact Hk|reflexivity].
Defined.

(** The synchronous check does not see reservations: with 80.00 of a daily limit
    of 100.00 reserved, a synchronous check of another 80.00 is allowed, and confirming
    the reservation then brings the committed usage of the day to 160.00. *)
Theorem sync_check_ignores_reservations :
  let st1 := (reserve empty_db 5 11 8000 noon).1 in
  let chk := checkLimitsInternal (t_counters st1) (λ _, false) (Some (pay 8000)) (λ _, Ok [daily100]) noon in
  let st2 := {| t_counters := chk.1; t_reservations := t_reservations st1; t_audit := t_audit st1 |} in
  let st3 := (Confirm st2 no_faults (id 11) noon).1 in
  reserved (t_counters st1) key7 = 80 ∧
  match chk.2 with Ok out => co_Allowed out = true | Err _ => False end ∧
  (dval (committed (t_counters st3) key7) == 160)%Q ∧ (dval (lim_MaxAmount daily100) == 100)%Q.
Proof. vm_compute. repeat split; reflexivity. Qed.

(** Reserving makes a counter short-lived: the reserve statement overwrites the
    expiry of the counter with the lifetime of the reservation, five minutes, so the
    clean-up deletes the usage of a day that is still running.  Transaction 5 reserves
    and confirms the whole daily limit at noon; a second full reserve is denied, but
    after a clean-up at one o'clock it is granted. *)
Theorem cleanup_forgets_confirmed_usage :
  let st1 := (reserve empty_db 5 11 10000 noon).1 in
  let st2 := (Confirm st1 no_faults (id 11) noon).1 in
  let later := noon + Hour in
  (∃ row, t_counters st1 !! key7 = Some row ∧ cr_expires_at row = Some (noon + reservationTTL)) ∧
  (dval (committed (t_counters st2) key7) == dval (lim_MaxAmount daily100))%Q ∧
  (reserve st2 6 12 10000 later).2 = Ok {| rr_Denied := true; rr_ReservationIDs := [] |} ∧
  ∃ counters, DeleteExpiredCounters (λ l, l) DefaultDeleteBatchSize later (λ _, BatchAnswered) 2 0 (t_counters st2)
    = Some (counters, 1%nat, None) ∧
  let st3 := {| t_counters := counters; t_reservations := t_reservations st2; t_audit := t_audit st2 |} in
  (reserve st3 6 12 10000 later).2 = Ok {| rr_Denied := false; rr_ReservationIDs := [id 12] |}.
Proof.
  intros st1 st2 later. split; [|split; [|split]].
  - eexists. split; vm_compute; reflexivity.
  - vm_compute. reflexivity.
  - vm_compute. reflexivity.
  - eexists. split; [vm_compute; reflexivity|]. vm_compute. reflexivity.
Qed.
