(* ===== verification/Sanitize.v ===== *)
(** * Sanitising metadata of audit records

    src/components/tracer/pkg/sanitize/metadata.go.  A validation is recorded with
    the metadata the client sent; before that, the values of keys that look
    sensitive are masked at every depth.  Metadata comes from a JSON body, so a
    value is a tree of the kinds [encoding/json] produces; no map or list occurs
    twice in it, but all empty lists share one address, which the detection of
    cycles takes for a cycle.  A map is the list of its entries in the order the
    runtime iterates over them. *)

From stdpp Require Import base strings list.
From Stdlib Require Import Ascii.
From S2P Require Import Prelude GoStrings.
Local Open Scope string_scope.
Local Open Scope list_scope.

Unset Elimination Schemes.
Inductive any :=
  | AnyNil
  | AnyBool (b : bool)
  | AnyNumber (text : string)
  | AnyString (s : string)
  | AnySlice (l : list any)
  | AnyMap (m : list (string * any)).
Set Elimination Schemes.

Section AnyInd.
Context (P : any → Prop) (Hnil : P AnyNil) (Hbool : ∀ b, P (AnyBool b))
  (Hnum : ∀ t, P (AnyNumber t)) (Hstr : ∀ s, P (AnyString s))
  (Hslice : ∀ l, Forall P l → P (AnySlice l))
  (Hmap : ∀ m, Forall (λ kv, P kv.2) m → P (AnyMap m)).

Fixpoint any_ind (v : any) : P v :=
  match v with
  | AnyNil => Hnil | AnyBool b => Hbool b | AnyNumber t => Hnum t | AnyString s => Hstr s
  | AnySlice l => Hslice l
      ((fix go (l : list any) : Forall P l :=
          match l with
          | [] => Forall_nil_2 _
          | x :: l' => Forall_cons_2 _ x l' (any_ind x) (go l')
          end) l)
  | AnyMap m => Hmap m
      ((fix go (m : list (string * any)) : Forall (λ kv, P kv.2) m :=
          match m with
          | [] => Forall_nil_2 _
          | kv :: m' => Forall_cons_2 _ kv m' (any_ind kv.2) (go m')
          end) m)
  end.

End AnyInd.

(** ** Patterns of sensitive keys *)

(** What the patterns use of Go's regular expressions: characters regardless of
    case, an optional character, a word boundary. *)
Inductive atom := Lit (c : ascii) | OptAny | Bound.

Fixpoint parse_pattern (s : string) : list atom :=
  match s with
  | EmptyString => []
  | String "." (String "?" s') => OptAny :: parse_pattern s'
  | String "\" (String "b" s') => Bound :: parse_pattern s'
  | String c s' => Lit c :: parse_pattern s'
  end.

(** [regexp.Compile] on a pattern with the flag for case-insensitivity. *)
Definition regexp_Compile (s : string) : option (list atom) :=
  parse_pattern <$> strings_TrimPrefix "(?i)" s.

Definition is_word (a : option ascii) : bool :=
  match a with
  | Some c => let n := nat_of_ascii c in
      (48 <=? n)%nat && (n <=? 57)%nat || (65 <=? n)%nat && (n <=? 90)%nat ||
      (97 <=? n)%nat && (n <=? 122)%nat || (n =? 95)%nat
  | None => false
  end.

Definition next_char (s : string) : option ascii :=
  match s with String c _ => Some c | EmptyString => None end.

Fixpoint match_here (p : list atom) (prev : option ascii) (s : string) : bool :=
  match p with
  | [] => true
  | Lit c :: p' =>
      match s with
      | String a s' => bool_decide (to_lower_char a = to_lower_char c) && match_here p' (Some a) s'
      | EmptyString => false
      end
  | OptAny :: p' =>
      match_here p' prev s ||
      match s with
      | String a s' => negb (nat_of_ascii a =? 10)%nat && match_here p' (Some a) s'
      | EmptyString => false
      end
  | Bound :: p' => xorb (is_word prev) (is_word (next_char s)) && match_here p' prev s
  end.

(** [MatchString]: the pattern matches somewhere in the string. *)
Fixpoint match_from (p : list atom) (prev : option ascii) (s : string) : bool :=
  match_here p prev s ||
  match s with String a s' => match_from p (Some a) s' | EmptyString => false end.

Definition DefaultSensitivePatterns : list string :=
  ["(?i)password"; "(?i)passwd"; "(?i)secret"; "(?i)token"; "(?i)api.?key"; "(?i)auth";
   "(?i)bearer"; "(?i)credential"; "(?i)private.?key"; "(?i)access.?key";
   "(?i)ssn"; "(?i)social.?security"; "(?i)cpf"; "(?i)cnpj"; "(?i)passport";
   "(?i)driver.?license"; "(?i)national.?id";
   "(?i)email"; "(?i)e.?mail"; "(?i)phone"; "(?i)mobile"; "(?i)cell"; "(?i)fax";
   "(?i)address"; "(?i)street"; "(?i)zip.?code"; "(?i)postal";
   "(?i)card.?number"; "(?i)card.?num"; "(?i)cvv"; "(?i)cvc"; "(?i)account.?number";
   "(?i)account.?num"; "(?i)routing"; "(?i)iban"; "(?i)swift"; "(?i)bic"; "(?i)\bpin\b";
   "(?i)full.?name"; "(?i)first.?name"; "(?i)last.?name"; "(?i)middle.?name";
   "(?i)birth.?date"; "(?i)date.?of.?birth"; "(?i)dob"; "(?i)maiden"; "(?i)mother.?name";
   "(?i)health"; "(?i)medical"; "(?i)diagnosis"; "(?i)prescription";
   "(?i)ip.?address"; "(?i)device.?id"; "(?i)mac.?address"; "(?i)fingerprint"].

(** Patterns that do not compile are skipped. *)
Definition NewMetadataSanitizer (patterns : list string) : list (list atom) :=
  omap regexp_Compile patterns.

Definition isSensitiveKey (sanitizer : list (list atom)) (key : string) : bool :=
  existsb (λ p, match_from p None key) sanitizer.

(** ** Sanitising a tree *)

Definition MaskedValue : string := "[REDACTED]".
Definition CyclicReference : string := "[non-serializable: cyclic reference]".

Section Sanitizer.
Context (sanitizer : list (list atom)).

(** [sanitizeWithCycleDetection] and [sanitizeSliceWithCycleDetection]; of the set
    of visited addresses only that of the empty lists can be met again. *)
Fixpoint sanitize_value (v : any) (visited : bool) : any * bool :=
  match v with
  | AnySlice [] => if visited then (AnyString CyclicReference, visited) else (AnySlice [], true)
  | AnySlice l =>
      let '(l', visited') :=
        (fix go (l : list any) (visited : bool) : list any * bool :=
           match l with
           | [] => ([], visited)
           | x :: l0 =>
               let '(x', visited1) := sanitize_value x visited in
               let '(l', visited2) := go l0 visited1 in (x' :: l', visited2)
           end) l visited in
      (AnySlice l', visited')
  | AnyMap m =>
      let '(m', visited') :=
        (fix go (m : list (string * any)) (visited : bool) : list (string * any) * bool :=
           match m with
           | [] => ([], visited)
           | (key, value) :: m0 =>
               if isSensitiveKey sanitizer key then
                 let '(m', visited2) := go m0 visited in
                 ((key, AnyString MaskedValue) :: m', visited2)
               else
                 let '(value', visited1) := sanitize_value value visited in
                 let '(m', visited2) := go m0 visited1 in ((key, value') :: m', visited2)
           end) m visited in
      (AnyMap m', visited')
  | _ => (v, visited)
  end.

(** The two loops, as functions of their own. *)
Fixpoint sanitize_slice (l : list any) (visited : bool) : list any * bool :=
  match l with
  | [] => ([], visited)
  | x :: l0 =>
      let '(x', visited1) := sanitize_value x visited in
      let '(l', visited2) := sanitize_slice l0 visited1 in (x' :: l', visited2)
  end.

Fixpoint sanitize_map (m : list (string * any)) (visited : bool) : list (string * any) * bool :=
  match m with
  | [] => ([], visited)
  | (key, value) :: m0 =>
      if isSensitiveKey sanitizer key then
        let '(m', visited2) := sanitize_map m0 visited in
        ((key, AnyString MaskedValue) :: m', visited2)
      else
        let '(value', visited1) := sanitize_value value visited in
        let '(m', visited2) := sanitize_map m0 visited1 in ((key, value') :: m', visited2)
  end.

(** [Sanitize]; nil stays nil. *)
Definition Sanitize (metadata : option (list (string * any))) : option (list (string * any)) :=
  (λ m, (sanitize_map m false).1) <$> metadata.

End Sanitizer.

Definition Default : list (list atom) := NewMetadataSanitizer DefaultSensitivePatterns.
Definition SanitizeMetadata (metadata : option (list (string * any))) : option (list (string * any)) :=
  Sanitize Default metadata.

(** ** What sanitising guarantees *)

Section Guarantees.
Context (sanitizer : list (list atom)).

Definition masked (v : any) : bool :=
  match v with AnyString s => bool_decide (s = MaskedValue) | _ => false end.

(** Every value of a sensitive key, at any depth, is masked. *)
Fixpoint clean (v : any) : bool :=
  match v with
  | AnySlice l => forallb clean l
  | AnyMap m => forallb (λ kv, if isSensitiveKey sanitizer kv.1 then masked kv.2 else clean kv.2) m
  | _ => true
  end.

(** No key is sensitive at any depth. *)
Fixpoint public (v : any) : bool :=
  match v with
  | AnySlice l => forallb public l
  | AnyMap m => forallb (λ kv, negb (isSensitiveKey sanitizer kv.1) && public kv.2) m
  | _ => true
  end.

(** The number of empty lists. *)
Fixpoint empties (v : any) : nat :=
  match v with
  | AnySlice [] => 1
  | AnySlice l => foldr (λ x n, empties x + n)%nat 0%nat l
  | AnyMap m => foldr (λ kv n, empties kv.2 + n)%nat 0%nat m
  | _ => 0
  end.

Lemma sanitize_value_slice x l visited :
  sanitize_value sanitizer (AnySlice (x :: l)) visited =
  let '(l', visited') := sanitize_slice sanitizer (x :: l) visited in (AnySlice l', visited').
Proof. reflexivity. Qed.

Lemma sanitize_value_map m visited :
  sanitize_value sanitizer (AnyMap m) visited =
  let '(m', visited') := sanitize_map sanitizer m visited in (AnyMap m', visited').
Proof. reflexivity. Qed.

(** The outcome of one value, slice or map, for the three inductions below. *)
Definition value_ok (v : any) : Prop := ∀ visited,
  let r := sanitize_value sanitizer v visited in
  clean r.1 = true ∧
  sanitize_value sanitizer r.1 visited = r ∧
  (public v = true → (empties v + Nat.b2n visited ≤ 1)%nat →
   r = (v, visited || negb (empties v =? 0)%nat)).

Lemma slice_ok l : Forall value_ok l → ∀ visited,
  let r := sanitize_slice sanitizer l visited in
  forallb clean r.1 = true ∧ length r.1 = length l ∧
  sanitize_slice sanitizer r.1 visited = r ∧
  (forallb public l = true → (foldr (λ x n, empties x + n) 0 l + Nat.b2n visited ≤ 1)%nat →
   r = (l, visited || negb (foldr (λ x n, empties x + n) 0 l =? 0)%nat)).
Proof.
  induction 1 as [|x l Hx _ IH]; intros visited; simpl.
  { split_and!; try done. by rewrite orb_false_r. }
  destruct (Hx visited) as (Hc & Hi & Hp).
  destruct (sanitize_value sanitizer x visited) as [x' v1] eqn:E1. simpl in *.
  destruct (IH v1) as (Hcl & Hl & Hil & Hpl).
  destruct (sanitize_slice sanitizer l v1) as [l' v2] eqn:E2. simpl in *.
  split_and!; [by rewrite Hc, Hcl|by rewrite Hl|by rewrite Hi, Hil|].
  intros [Hpx Hpls]%andb_true_iff Hn.
  assert (empties x + Nat.b2n visited ≤ 1)%nat as Hn1 by lia.
  specialize (Hp Hpx Hn1). simplify_eq.
  assert (foldr (λ x n, empties x + n) 0 l + Nat.b2n (visited || negb (empties x =? 0)) ≤ 1)%nat as Hn2.
  { destruct visited, (empties x) as [|[|]]; simpl in *; lia. }
  specialize (Hpl Hpls Hn2). simplify_eq. f_equal.
  destruct visited, (empties x) as [|n]; simpl; done.
Qed.

Lemma map_ok m : Forall (λ kv, value_ok kv.2) m → ∀ visited,
  let r := sanitize_map sanitizer m visited in
  clean (AnyMap r.1) = true ∧ r.1.*1 = m.*1 ∧
  sanitize_map sanitizer r.1 visited = r ∧
  (public (AnyMap m) = true → (empties (AnyMap m) + Nat.b2n visited ≤ 1)%nat →
   r = (m, visited || negb (empties (AnyMap m) =? 0)%nat)).
Proof.
  induction 1 as [|[k x] m Hx _ IH]; intros visited; simpl.
  { split_and!; try done. by rewrite orb_false_r. }
  destruct (isSensitiveKey sanitizer k) eqn:Ek.
  { destruct (IH visited) as (Hcl & Hl & Hil & Hpl).
    destruct (sanitize_map sanitizer m visited) as [m' v2] eqn:E2. simpl in *.
    rewrite Ek. split_and!; [done|f_equal; exact Hl|by rewrite Hil|done]. }
  destruct (Hx visited) as (Hc & Hi & Hp). simpl in *.
  destruct (sanitize_value sanitizer x visited) as [x' v1] eqn:E1. simpl in *.
  destruct (IH v1) as (Hcl & Hl & Hil & Hpl).
  destruct (sanitize_map sanitizer m v1) as [m' v2] eqn:E2. simpl in *.
  rewrite Ek. split_and!; [by rewrite Hc, Hcl|f_equal; exact Hl|by rewrite Hi, Hil|].
  intros [Hpx Hpls]%andb_true_iff Hn. simpl in *.
  assert (empties x + Nat.b2n visited ≤ 1)%nat as Hn1 by lia.
  specialize (Hp Hpx Hn1). simplify_eq.
  assert (foldr (λ kv n, empties kv.2 + n) 0 m + Nat.b2n (visited || negb (empties x =? 0)) ≤ 1)%nat as Hn2.
  { destruct visited, (empties x) as [|[|]]; simpl in *; lia. }
  specialize (Hpl Hpls Hn2). simplify_eq. f_equal.
  destruct visited, (empties x) as [|n]; simpl; done.
Qed.

Lemma value_ok_all v : value_ok v.
Proof.
  induction v as [|b|t|s|l IH|m IH] using any_ind; intros visited;
    try (simpl; split_and!; [done..|intros; by rewrite orb_false_r]).
  - destruct l as [|x l]; [destruct visited; simpl; split_and!; try done; intros; simpl in *; lia|].
    destruct (slice_ok (x :: l) IH visited) as (Hc & Hl & Hi & Hp).
    rewrite sanitize_value_slice.
    destruct (sanitize_slice sanitizer (x :: l) visited) as [l' v'] eqn:E.
    cbn [fst snd] in *. destruct l' as [|x' l']; [done|].
    split_and!; [done|rewrite sanitize_value_slice, Hi; done|].
    intros Hpub Hn. specialize (Hp Hpub Hn). by simplify_eq.
  - destruct (map_ok m IH visited) as (Hc & _ & Hi & Hp).
    rewrite sanitize_value_map.
    destruct (sanitize_map sanitizer m visited) as [m' v'] eqn:E. cbn [fst snd] in *.
    split_and!; [done|rewrite sanitize_value_map, Hi; done|].
    intros Hpub Hn. specialize (Hp Hpub Hn). by simplify_eq.
Qed.

Lemma value_ok_map m : Forall (λ kv : string * any, value_ok kv.2) m.
Proof. apply Forall_true. intros [k v]. apply value_ok_all. Qed.

(** Sanitised metadata has the keys of the original, holds the mask under every
    sensitive key at any depth, and is not changed by sanitising it again; metadata
    without sensitive keys and with at most one empty list is kept as it is. *)
Theorem sanitize_masks_and_keeps (m : list (string * any)) :
  ∃ m', Sanitize sanitizer (Some m) = Some m' ∧
    m'.*1 = m.*1 ∧ clean (AnyMap m') = true ∧ Sanitize sanitizer (Some m') = Some m' ∧
    (public (AnyMap m) = true → (empties (AnyMap m) ≤ 1)%nat → m' = m).
Proof.
  destruct (map_ok m (value_ok_map m) false) as (Hc & Hk & Hi & Hp).
  eexists. split; [reflexivity|]. split_and!; [done|done|simpl; by rewrite Hi|].
  intros Hpub Hn. by rewrite Hp by (done || (simpl in *; lia)).
Qed.

End Guarantees.

(** A second empty list is recorded as a cyclic reference, although nothing is
    cyclic. *)
Theorem second_empty_list_is_lost :
  SanitizeMetadata (Some [("tags", AnySlice []); ("labels", AnySlice [])]) =
  Some [("tags", AnySlice []); ("labels", AnyString CyclicReference)].
Proof. vm_compute. reflexivity. Qed.

(** The default patterns on a few keys. *)
Example sensitive_keys :
  isSensitiveKey Default <$> ["Api-Key"; "user_email"; "shipping"; "pin"; "pin_code"; "channel"] =
  [true; true; false; true; false; false].
Proof. vm_compute. reflexivity. Qed.
