(* ===== verification/Rules.v ===== *)
(** * Validation rules of the tracer

    The domain model of rules (src/components/tracer/pkg/model: rule.go,
    rule_status.go, evaluation_result.go, decision_maker.go), the request a
    validation receives (validation.go, context.go) and the evaluation of rules
    against it (internal/services/query: rule_evaluator.go, complete_evaluator.go,
    evaluate_rules.go).  A rule is an expression with an action; every active rule
    whose scopes match the transaction is evaluated, and the actions of the rules
    that hold are combined with DENY before REVIEW before ALLOW.  Expressions are
    compiled and evaluated by a library. *)

From stdpp Require Import base gmap strings list.
From Stdlib Require Import ZArith QArith Lia Ascii.
From S2P Require Import Prelude Decimals GoStrings CacheKeys GoTime Limits LimitChecker Sanitize.
Local Open Scope string_scope.
Local Open Scope list_scope.
Local Open Scope Z_scope.

(** ** Decisions and statuses *)

Inductive Decision :=
  | DecisionAllow | DecisionDeny | DecisionReview
  | DecisionOther (s : string).

#[export] Instance Decision_eq_dec : EqDecision Decision.
Proof. solve_decision. Defined.

Definition Decision_IsValid (d : Decision) : bool :=
  match d with
  | DecisionAllow | DecisionDeny | DecisionReview => true
  | DecisionOther _ => false
  end.

Inductive RuleStatus :=
  | RuleStatusDraft | RuleStatusActive | RuleStatusInactive | RuleStatusDeleted
  | RuleStatusOther (s : string).

#[export] Instance RuleStatus_eq_dec : EqDecision RuleStatus.
Proof. solve_decision. Defined.

Definition RuleStatus_IsValid (s : RuleStatus) : bool :=
  match s with
  | RuleStatusDraft | RuleStatusActive | RuleStatusInactive | RuleStatusDeleted => true
  | RuleStatusOther _ => false
  end.

Definition RuleStatus_String (s : RuleStatus) : string :=
  match s with
  | RuleStatusDraft => "DRAFT" | RuleStatusActive => "ACTIVE"
  | RuleStatusInactive => "INACTIVE" | RuleStatusDeleted => "DELETED"
  | RuleStatusOther s => s
  end.

Definition validTransitions (s : RuleStatus) : list RuleStatus :=
  match s with
  | RuleStatusDraft => [RuleStatusActive; RuleStatusDeleted]
  | RuleStatusActive => [RuleStatusInactive]
  | RuleStatusInactive => [RuleStatusDraft; RuleStatusActive; RuleStatusDeleted]
  | RuleStatusDeleted => []
  | RuleStatusOther _ => []
  end.

Definition CanTransitionTo (s target : RuleStatus) : bool :=
  existsb (λ status, bool_decide (status = target)) (validTransitions s).

Definition NewInvalidTransitionError (from to : RuleStatus) : TracerError :=
  InvalidTransitionError (RuleStatus_String from) (RuleStatus_String to).

(** ** Requests (validation.go, context.go) *)

Abbreviation Metadata := (option (list (string * any))).

Definition DefaultClockSkewTolerance : Z := Minute.
Definition DefaultMaxTimestampAge : Z := 24 * Hour.
Definition MaxMetadataEntries : nat := 50.
Definition MaxMetadataKeyLength : nat := 64.

Section Request.
Context `{DecimalLib, UuidNil, CurrencyLib}.

Record AccountContext := {
  ac_ID : uuid; ac_Type : string; ac_Status : string; ac_Metadata : Metadata }.
Record SegmentContext := { sg_ID : uuid; sg_Name : string; sg_Metadata : Metadata }.
Record PortfolioContext := { pf_ID : uuid; pf_Name : string; pf_Metadata : Metadata }.
Record MerchantContext := {
  mc_ID : uuid; mc_Name : string; mc_Category : string; mc_Country : string;
  mc_Metadata : Metadata }.

(** A transaction type that was not sent is the empty string,
    [TransactionTypeOther ""]. *)
Record ValidationRequest := {
  vr_RequestID : uuid;
  vr_TransactionType : TransactionType;
  vr_SubType : option string;
  vr_Amount : dec;
  vr_Currency : string;
  vr_TransactionTimestamp : time;
  vr_Account : AccountContext;
  vr_Segment : option SegmentContext;
  vr_Portfolio : option PortfolioContext;
  vr_Merchant : option MerchantContext;
  vr_Metadata : Metadata }.

Definition validateAmountCurrencyTimestamp (r : ValidationRequest) (now : time)
    : result TracerError unit :=
  if dle (vr_Amount r) dzero then Err ErrValidationAmountNonPositive else
  if bool_decide (vr_Currency r = "") then Err ErrValidationCurrencyRequired else
  if negb (IsValidCurrency (vr_Currency r)) then Err ErrValidationInvalidCurrency else
  if time_IsZero (vr_TransactionTimestamp r) then Err ErrValidationTimestampRequired else
  if time_After (vr_TransactionTimestamp r) (now + DefaultClockSkewTolerance)
  then Err ErrValidationTimestampFuture else
  guard_err (negb (time_After (vr_TransactionTimestamp r) (now - DefaultMaxTimestampAge)))
    ErrValidationTimestampPast.

Definition validAccountTypes : list string := ["checking"; "savings"; "credit"].
Definition validAccountStatuses : list string := ["active"; "suspended"; "closed"].

Definition one_of (s : string) (l : list string) : bool :=
  existsb (λ x, bool_decide (s = x)) l.

Definition validateOptionalFields (r : ValidationRequest) : result TracerError unit :=
  if match vr_SubType r with Some s => (MaxSubTypeLength <? String.length s)%nat | None => false end
  then Err ErrValidationSubTypeTooLong else
  if match vr_Segment r with Some s => bool_decide (sg_ID s = uuid_Nil) | None => false end
  then Err ErrValidationSegmentIDRequired else
  if match vr_Portfolio r with Some s => bool_decide (pf_ID s = uuid_Nil) | None => false end
  then Err ErrValidationPortfolioIDRequired else
  if negb (bool_decide (ac_Type (vr_Account r) = "")) &&
     negb (one_of (ac_Type (vr_Account r)) validAccountTypes)
  then Err ErrValidationInvalidAccountType else
  guard_err (negb (bool_decide (ac_Status (vr_Account r) = "")) &&
             negb (one_of (ac_Status (vr_Account r)) validAccountStatuses))
    ErrValidationInvalidAccountStatus.

(** ^\d{4}$ *)
Definition mccPattern (s : string) : bool := (String.length s =? 4)%nat && all_chars is_digit s.
(** ^[A-Z]{2}$ *)
Definition countryCodePattern (s : string) : bool :=
  (String.length s =? 2)%nat &&
  all_chars (λ a, (65 <=? nat_of_ascii a)%nat && (nat_of_ascii a <=? 90)%nat) s.
(** ^[a-zA-Z0-9_]+$ *)
Definition metadataKeyPattern (s : string) : bool :=
  (1 <=? String.length s)%nat && all_chars (λ a, is_word (Some a)) s.

Definition validateMerchant (r : ValidationRequest) : result TracerError unit :=
  match vr_Merchant r with
  | None => Ok tt
  | Some m =>
      if bool_decide (mc_ID m = uuid_Nil) then Err ErrValidationMerchantIDRequired else
      if negb (bool_decide (mc_Category m = "")) && negb (mccPattern (mc_Category m))
      then Err ErrValidationInvalidMerchantCategory else
      guard_err (negb (bool_decide (mc_Country m = "")) && negb (countryCodePattern (mc_Country m)))
        ErrValidationInvalidMerchantCountry
  end.

Definition validateMetadata (r : ValidationRequest) : result TracerError unit :=
  match vr_Metadata r with
  | None => Ok tt
  | Some m =>
      if (MaxMetadataEntries <? length m)%nat then Err ErrMetadataEntriesExceeded else
      for_each (λ kv,
        if (MaxMetadataKeyLength <? String.length kv.1)%nat then Err ErrMetadataKeyLengthExceeded else
        guard_err (negb (metadataKeyPattern kv.1)) ErrMetadataKeyInvalidChars) m
  end.

Definition ValidationRequest_Validate (r : ValidationRequest) (now : time)
    : result TracerError unit :=
  if bool_decide (vr_RequestID r = uuid_Nil) then Err ErrValidationRequestIDRequired else
  if negb (TransactionType_IsValid (vr_TransactionType r))
  then Err ErrValidationInvalidTransactionType else
  do! validateAmountCurrencyTimestamp r now;;
  if bool_decide (ac_ID (vr_Account r) = uuid_Nil) then Err ErrValidationAccountRequired else
  do! validateOptionalFields r;;
  do! validateMerchant r;;
  validateMetadata r.

Definition ValidateForReserve (r : ValidationRequest) (now : time) : result TracerError unit :=
  if bool_decide (vr_RequestID r = uuid_Nil) then Err ErrValidationRequestIDRequired else
  do! validateAmountCurrencyTimestamp r now;;
  if negb (bool_decide (vr_TransactionType r = TransactionTypeOther "")) &&
     negb (TransactionType_IsValid (vr_TransactionType r))
  then Err ErrValidationInvalidTransactionType else
  do! validateOptionalFields r;;
  do! validateMerchant r;;
  validateMetadata r.

Definition with_SubType (r : ValidationRequest) (s : option string) : ValidationRequest := {|
  vr_RequestID := vr_RequestID r; vr_TransactionType := vr_TransactionType r; vr_SubType := s;
  vr_Amount := vr_Amount r; vr_Currency := vr_Currency r;
  vr_TransactionTimestamp := vr_TransactionTimestamp r; vr_Account := vr_Account r;
  vr_Segment := vr_Segment r; vr_Portfolio := vr_Portfolio r; vr_Merchant := vr_Merchant r;
  vr_Metadata := vr_Metadata r |}.

(** [normalizeAndValidateWith]: the request after the call, unchanged on an error.
    The copies of maps are values here. *)
Definition normalizeAndValidateWith (r : ValidationRequest) (now : time)
    (validate : ValidationRequest → time → result TracerError unit)
    : ValidationRequest * result TracerError unit :=
  let temp := with_SubType r (normalizeSubTypeRaw (vr_SubType r)) in
  match validate temp now with
  | Err e => (r, Err e)
  | Ok _ => (temp, Ok tt)
  end.

Definition NormalizeAndValidate (r : ValidationRequest) (now : time) :=
  normalizeAndValidateWith r now ValidationRequest_Validate.
Definition NormalizeAndValidateForReserve (r : ValidationRequest) (now : time) :=
  normalizeAndValidateWith r now ValidateForReserve.

Definition transactionTypePtr (r : ValidationRequest) : option TransactionType :=
  if bool_decide (vr_TransactionType r = TransactionTypeOther "") then None
  else Some (vr_TransactionType r).

Definition ToCheckLimitsInput (r : ValidationRequest) : CheckLimitsInput := {|
  ci_Amount := vr_Amount r; ci_Currency := vr_Currency r;
  ci_AccountID := ac_ID (vr_Account r);
  ci_SegmentID := sg_ID <$> vr_Segment r;
  ci_PortfolioID := pf_ID <$> vr_Portfolio r;
  ci_MerchantID := mc_ID <$> vr_Merchant r;
  ci_TransactionType := transactionTypePtr r; ci_SubType := vr_SubType r;
  ci_TransactionTimestamp := vr_TransactionTimestamp r |}.

Definition ToTransactionScope (r : ValidationRequest) : Scope := {|
  sc_SegmentID := sg_ID <$> vr_Segment r;
  sc_PortfolioID := pf_ID <$> vr_Portfolio r;
  sc_AccountID := Some (ac_ID (vr_Account r));
  sc_MerchantID := mc_ID <$> vr_Merchant r;
  sc_TransactionType := transactionTypePtr r;
  sc_SubType := vr_SubType r |}.

End Request.

(** ** Rules (rule.go) *)

(** The expression library behind internal/adapters/cel: compiled programs, and
    their evaluation against a request. *)
Class CelLib `{DecimalLib, UuidNil} := {
  program : Type;
  cel_Compile : string → result TracerError program;
  cel_Evaluate : program → ValidationRequest → result TracerError bool }.

Definition MaxRuleNameLength : nat := 255.
Definition MaxRuleExpressionLength : nat := 5000.

Section RuleModel.
Context `{CelLib}.

Record Rule := {
  rl_ID : uuid;
  rl_Name : string;
  rl_Description : option string;
  rl_Expression : string;
  rl_Action : Decision;
  rl_Scopes : list Scope;
  rl_Status : RuleStatus;
  rl_CreatedAt : time;
  rl_UpdatedAt : time;
  rl_ActivatedAt : option time;
  rl_DeactivatedAt : option time;
  rl_DeletedAt : option time;
  rl_CompiledProgram : option program }.

Definition check_text (s : string) (max : nat) (required toolong : TracerError)
    : result TracerError unit :=
  if bool_decide (s = "") then Err required else
  guard_err (max <? String.length s)%nat toolong.

Definition check_rule_description (d : option string) : result TracerError unit :=
  match d with
  | Some d => guard_err (MaxDescriptionLength <? String.length d)%nat ErrRuleDescriptionTooLong
  | None => Ok tt
  end.

Definition check_rule_scopes (scopes : list Scope) : result TracerError unit :=
  for_each (λ scope, guard_err (Scope_IsEmpty scope) ErrRuleInvalidScope) scopes.

(** [NewRule]; the identifier is generated. *)
Definition NewRule (id : uuid) (name expression : string) (action : Decision) (scopes : list Scope)
    (description : option string) (createdAt : time) : result TracerError Rule :=
  let name := strings_TrimSpace name in
  let expression := strings_TrimSpace expression in
  let description := strings_TrimSpace <$> description in
  do! check_text name MaxRuleNameLength ErrRuleNameRequired ErrRuleNameTooLong;;
  do! check_text expression MaxRuleExpressionLength ErrRuleExpressionRequired ErrRuleExpressionTooLong;;
  if negb (Decision_IsValid action) then Err ErrRuleInvalidAction else
  do! check_rule_description description;;
  do! check_rule_scopes scopes;;
  Ok {| rl_ID := id; rl_Name := name; rl_Description := description; rl_Expression := expression;
        rl_Action := action; rl_Scopes := cloneAndNormalizeScope <$> scopes;
        rl_Status := RuleStatusDraft; rl_CreatedAt := createdAt; rl_UpdatedAt := createdAt;
        rl_ActivatedAt := None; rl_DeactivatedAt := None; rl_DeletedAt := None;
        rl_CompiledProgram := None |}.

Definition opt_check {A} (p : option A) (f : A → result TracerError unit) : result TracerError unit :=
  match p with Some x => f x | None => Ok tt end.

(** [Update] validates everything before it changes anything, so a rejected update
    has no result but the error. *)
Definition Rule_Update (r : Rule) (name expression description : option string)
    (scopes : option (list Scope)) (now : time) : result TracerError Rule :=
  let name := strings_TrimSpace <$> name in
  let expression := strings_TrimSpace <$> expression in
  let description := strings_TrimSpace <$> description in
  do! opt_check name (λ s, check_text s MaxRuleNameLength ErrRuleNameRequired ErrRuleNameTooLong);;
  do! opt_check expression (λ s,
        check_text s MaxRuleExpressionLength ErrRuleExpressionRequired ErrRuleExpressionTooLong);;
  do! check_rule_description description;;
  do! opt_check scopes check_rule_scopes;;
  Ok {| rl_ID := rl_ID r; rl_Name := default (rl_Name r) name;
        rl_Description := match description with Some d => Some d | None => rl_Description r end;
        rl_Expression := default (rl_Expression r) expression; rl_Action := rl_Action r;
        rl_Scopes := match scopes with
                     | Some l => cloneAndNormalizeScope <$> l | None => rl_Scopes r end;
        rl_Status := rl_Status r; rl_CreatedAt := rl_CreatedAt r;
        rl_UpdatedAt :=
          if negb (is_nil name) || negb (is_nil expression) || negb (is_nil description) ||
             negb (is_nil scopes) then now else rl_UpdatedAt r;
        rl_ActivatedAt := rl_ActivatedAt r; rl_DeactivatedAt := rl_DeactivatedAt r;
        rl_DeletedAt := rl_DeletedAt r; rl_CompiledProgram := rl_CompiledProgram r |}.

Definition with_RuleStatus (r : Rule) (s : RuleStatus) (now : time)
    (activated deactivated deleted : option time) : Rule := {|
  rl_ID := rl_ID r; rl_Name := rl_Name r; rl_Description := rl_Description r;
  rl_Expression := rl_Expression r; rl_Action := rl_Action r; rl_Scopes := rl_Scopes r;
  rl_Status := s; rl_CreatedAt := rl_CreatedAt r; rl_UpdatedAt := now;
  rl_ActivatedAt := activated; rl_DeactivatedAt := deactivated; rl_DeletedAt := deleted;
  rl_CompiledProgram := rl_CompiledProgram r |}.

Definition Rule_SetStatus (r : Rule) (status : RuleStatus) (now : time) : result TracerError Rule :=
  if negb (RuleStatus_IsValid status) then Err ErrRuleInvalidStatus else
  if bool_decide (rl_Status r = status) then Ok r else
  if negb (CanTransitionTo (rl_Status r) status)
  then Err (NewInvalidTransitionError (rl_Status r) status) else
  Ok match status with
     | RuleStatusActive => with_RuleStatus r status now (Some now) None None
     | RuleStatusInactive => with_RuleStatus r status now (rl_ActivatedAt r) (Some now) None
     | RuleStatusDeleted =>
         with_RuleStatus r status now (rl_ActivatedAt r) (rl_DeactivatedAt r) (Some now)
     | RuleStatusDraft => with_RuleStatus r status now None None None
     | RuleStatusOther _ =>
         with_RuleStatus r status now (rl_ActivatedAt r) (rl_DeactivatedAt r) (rl_DeletedAt r)
     end.

Definition Rule_SetAction (r : Rule) (action : Decision) (now : time) : result TracerError Rule :=
  if negb (Decision_IsValid action) then Err ErrRuleInvalidAction else
  if bool_decide (rl_Action r = action) then Ok r else
  Ok {| rl_ID := rl_ID r; rl_Name := rl_Name r; rl_Description := rl_Description r;
        rl_Expression := rl_Expression r; rl_Action := action; rl_Scopes := rl_Scopes r;
        rl_Status := rl_Status r; rl_CreatedAt := rl_CreatedAt r; rl_UpdatedAt := now;
        rl_ActivatedAt := rl_ActivatedAt r; rl_DeactivatedAt := rl_DeactivatedAt r;
        rl_DeletedAt := rl_DeletedAt r; rl_CompiledProgram := rl_CompiledProgram r |}.

(** ** Decisions from matches (evaluation_result.go, decision_maker.go) *)

Record EvaluationResult := {
  er_Decision : Decision;
  er_MatchedRuleIDs : list uuid;
  er_EvaluatedRuleIDs : list uuid;
  er_Reason : string;
  er_TotalRulesLoaded : nat;
  er_Truncated : bool }.

Definition NewEvaluationResult (decision : Decision) (matched evaluated : list uuid) (reason : string)
    : result TracerError EvaluationResult :=
  if negb (Decision_IsValid decision) then Err ErrInvalidDecision else
  if bool_decide (reason = "") then Err ErrReasonRequired else
  Ok {| er_Decision := decision; er_MatchedRuleIDs := matched; er_EvaluatedRuleIDs := evaluated;
        er_Reason := reason; er_TotalRulesLoaded := 0; er_Truncated := false |}.

Definition NewNoMatchResult (defaultDecision : Decision) (evaluated : list uuid)
    : result TracerError EvaluationResult :=
  if negb (Decision_IsValid defaultDecision) then Err ErrInvalidDefaultDecision else
  Ok {| er_Decision := defaultDecision; er_MatchedRuleIDs := []; er_EvaluatedRuleIDs := evaluated;
        er_Reason := "No matching rules found"; er_TotalRulesLoaded := 0; er_Truncated := false |}.

Definition WithTruncationInfo (r : EvaluationResult) (totalLoaded : nat) (truncated : bool)
    : EvaluationResult := {|
  er_Decision := er_Decision r; er_MatchedRuleIDs := er_MatchedRuleIDs r;
  er_EvaluatedRuleIDs := er_EvaluatedRuleIDs r; er_Reason := er_Reason r;
  er_TotalRulesLoaded := totalLoaded; er_Truncated := truncated |}.

Definition MakeDecision (deny allow review evaluated : list uuid) (defaultDecision : Decision)
    : result TracerError EvaluationResult :=
  let allMatched := deny ++ review ++ allow in
  if (0 <? length deny)%nat
  then NewEvaluationResult DecisionDeny allMatched evaluated "Rule matched with DENY action"
  else if (0 <? length review)%nat
  then NewEvaluationResult DecisionReview allMatched evaluated "Rule matched with REVIEW action"
  else if (0 <? length allow)%nat
  then NewEvaluationResult DecisionAllow allMatched evaluated "Rule matched with ALLOW action"
  else NewNoMatchResult defaultDecision evaluated.

(** ** Evaluation (rule_evaluator.go, complete_evaluator.go, evaluate_rules.go) *)

(** [RuleEvaluator.Evaluate]: a rule out of scope does not hold and is not
    evaluated; a reference to a missing key means the rule does not hold. *)
Definition Evaluate (rule : Rule) (req : ValidationRequest) : result TracerError bool :=
  if negb (RuleScopesMatch (rl_Scopes rule) (Some (ToTransactionScope req))) then Ok false else
  let! program := match rl_CompiledProgram rule with
                 | Some program => Ok program
                 | None => cel_Compile (rl_Expression rule)
                 end in
  match cel_Evaluate program req with
  | Ok matched => Ok matched
  | Err ErrExpressionMissingKey => Ok false
  | Err e => Err e
  end.

Record EvaluationCollector := {
  ec_DenyRuleIDs : list uuid;
  ec_AllowRuleIDs : list uuid;
  ec_ReviewRuleIDs : list uuid;
  ec_EvaluatedRuleIDs : list uuid }.

Definition collect (c : EvaluationCollector) (rule : Rule) (matched : bool) : EvaluationCollector :=
  let add (d : Decision) (ids : list uuid) :=
    if matched && bool_decide (rl_Action rule = d) then ids ++ [rl_ID rule] else ids in
  {| ec_DenyRuleIDs := add DecisionDeny (ec_DenyRuleIDs c);
     ec_AllowRuleIDs := add DecisionAllow (ec_AllowRuleIDs c);
     ec_ReviewRuleIDs := add DecisionReview (ec_ReviewRuleIDs c);
     ec_EvaluatedRuleIDs := ec_EvaluatedRuleIDs c ++ [rl_ID rule] |}.

(** The loop of [EvaluateAll]; [done rule] says that the context is cancelled when
    the loop reaches the rule. *)
Fixpoint evaluate_from (done : Rule → bool) (req : ValidationRequest) (c : EvaluationCollector)
    (rules : list (option Rule)) : result TracerError EvaluationCollector :=
  match rules with
  | [] => Ok c
  | None :: rest => evaluate_from done req c rest
  | Some rule :: rest =>
      if done rule then Err ErrContextCancelled else
      let! matched := Evaluate rule req in
      evaluate_from done req (collect c rule matched) rest
  end.

Definition EvaluateAll (done : Rule → bool) (req : ValidationRequest) (rules : list (option Rule)) :=
  evaluate_from done req {| ec_DenyRuleIDs := []; ec_AllowRuleIDs := []; ec_ReviewRuleIDs := [];
                            ec_EvaluatedRuleIDs := [] |} rules.

Record EvaluationConfig := { cfg_DefaultDecisionWhenNoMatch : Decision; cfg_MaxRulesPerRequest : Z }.

(** [EvaluateRulesQuery.Execute]; [getActiveRules] loads the rules for a scope. *)
Definition EvaluateRules (config : EvaluationConfig) (done : Rule → bool)
    (getActiveRules : Scope → result TracerError (list (option Rule))) (req : ValidationRequest)
    : result TracerError EvaluationResult :=
  let! rules := getActiveRules (ToTransactionScope req) in
  let max := cfg_MaxRulesPerRequest config in
  let truncated := (0 <? max) && (max <? Z.of_nat (length rules)) in
  let considered := if truncated then take (Z.to_nat max) rules else rules in
  let! collector := EvaluateAll done req considered in
  let! result_ := MakeDecision (ec_DenyRuleIDs collector) (ec_AllowRuleIDs collector)
                  (ec_ReviewRuleIDs collector) (ec_EvaluatedRuleIDs collector)
                  (cfg_DefaultDecisionWhenNoMatch config) in
  Ok (WithTruncationInfo result_ (length rules) truncated).

End RuleModel.

(** ** The life of a rule *)

Section RuleLifecycle.
Context `{CelLib}.

(** The dates of a rule as its status requires them. *)
Definition dates_ok (r : Rule) : Prop :=
  match rl_Status r with
  | RuleStatusDraft => rl_ActivatedAt r = None ∧ rl_DeactivatedAt r = None ∧ rl_DeletedAt r = None
  | RuleStatusActive => is_Some (rl_ActivatedAt r) ∧ rl_DeactivatedAt r = None ∧ rl_DeletedAt r = None
  | RuleStatusInactive =>
      is_Some (rl_ActivatedAt r) ∧ is_Some (rl_DeactivatedAt r) ∧ rl_DeletedAt r = None
  | RuleStatusDeleted => is_Some (rl_DeletedAt r)
  | RuleStatusOther _ => False
  end.

Definition text_ok (s : string) (max : nat) : Prop :=
  s ≠ "" ∧ (String.length s ≤ max)%nat ∧ strings_TrimSpace s = s.

Record rule_wf (r : Rule) : Prop := {
  rwf_name : text_ok (rl_Name r) MaxRuleNameLength;
  rwf_expression : text_ok (rl_Expression r) MaxRuleExpressionLength;
  rwf_description : ∀ d, rl_Description r = Some d → (String.length d ≤ MaxDescriptionLength)%nat;
  rwf_action : Decision_IsValid (rl_Action r) = true;
  rwf_scopes : Forall (λ s, Scope_IsEmpty s = false ∧ normalizeScopeSubType s = s) (rl_Scopes r);
  rwf_dates : dates_ok r }.

Lemma guard_err_false b e : guard_err b e = Ok tt → b = false.
Proof. by destruct b. Qed.

Lemma check_text_ok s max e1 e2 :
  check_text (strings_TrimSpace s) max e1 e2 = Ok tt → text_ok (strings_TrimSpace s) max.
Proof.
  unfold check_text. case_bool_decide; [done|]. intros E%guard_err_false%Nat.ltb_ge.
  split_and!; [done|done|apply TrimSpace_idem].
Qed.

Lemma check_rule_description_ok d v :
  check_rule_description d = Ok tt → d = Some v → (String.length v ≤ MaxDescriptionLength)%nat.
Proof. intros E ->. by apply guard_err_false, Nat.ltb_ge in E. Qed.

Lemma check_rule_scopes_ok scopes :
  check_rule_scopes scopes = Ok tt →
  Forall (λ s, Scope_IsEmpty s = false ∧ normalizeScopeSubType s = s) (cloneAndNormalizeScope <$> scopes).
Proof.
  intros E%for_each_Ok. apply Forall_fmap. eapply Forall_impl; [exact E|].
  intros s Hs%guard_err_false. simpl. split; [|apply normalizeScopeSubType_idem].
  unfold Scope_IsEmpty in *. cbn. unfold normalizeSubTypeRaw. by destruct (sc_SubType s).
Qed.

Lemma NewRule_wf id name expression action scopes description now r :
  NewRule id name expression action scopes description now = Ok r →
  rule_wf r ∧ rl_Status r = RuleStatusDraft.
Proof.
  unfold NewRule. intros E. apply rbind_Ok in E as ([] & E1 & E).
  apply rbind_Ok in E as ([] & E2 & E).
  destruct (Decision_IsValid action) eqn:Ea; [|done]. cbn [negb] in E.
  apply rbind_Ok in E as ([] & E3 & E). apply rbind_Ok in E as ([] & E4 & E). injection E as <-.
  split; [|done]. split; cbn -[strings_TrimSpace]; try done; eauto using check_text_ok.
  - intros d Hd. exact (check_rule_description_ok _ _ E3 Hd).
  - by apply check_rule_scopes_ok.
Qed.

Lemma opt_text_ok (p : option string) (s0 : string) max e1 e2 :
  text_ok s0 max →
  opt_check (strings_TrimSpace <$> p) (λ s, check_text s max e1 e2) = Ok tt →
  text_ok (default s0 (strings_TrimSpace <$> p)) max.
Proof. destruct p; cbn -[strings_TrimSpace]; [intros _; apply check_text_ok|done]. Qed.

Lemma Rule_Update_wf r name expression description scopes now r' :
  rule_wf r → Rule_Update r name expression description scopes now = Ok r' →
  rule_wf r' ∧ rl_Status r' = rl_Status r.
Proof.
  intros [Hn He Hd Ha Hs Hda]. unfold Rule_Update. intros E.
  apply rbind_Ok in E as ([] & E1 & E). apply rbind_Ok in E as ([] & E2 & E).
  apply rbind_Ok in E as ([] & E3 & E). apply rbind_Ok in E as ([] & E4 & E). injection E as <-.
  split; [|done]. split; cbn -[strings_TrimSpace]; try done; eauto using opt_text_ok.
  - intros d. destruct description; [|apply Hd].
    intros Ed. exact (check_rule_description_ok _ _ E3 Ed).
  - destruct scopes; [by apply check_rule_scopes_ok|done].
Qed.

Lemma Rule_SetAction_wf r action now r' :
  rule_wf r → Rule_SetAction r action now = Ok r' → rule_wf r' ∧ rl_Status r' = rl_Status r.
Proof.
  intros Hr. unfold Rule_SetAction. destruct (Decision_IsValid action) eqn:Ea; [|done].
  case_bool_decide; [by intros [= <-]|]. intros [= <-]. destruct Hr. split; [by split|done].
Qed.

Lemma CanTransitionTo_spec s t : CanTransitionTo s t = true ↔ t ∈ validTransitions s.
Proof.
  unfold CanTransitionTo. rewrite existsb_exists. split.
  - intros (x & Hx & E). apply bool_decide_eq_true in E as <-. by apply list_elem_of_In.
  - intros Ht. exists t. split; [by apply list_elem_of_In|by apply bool_decide_eq_true].
Qed.

Lemma Rule_SetStatus_wf r s now r' :
  rule_wf r → Rule_SetStatus r s now = Ok r' →
  rule_wf r' ∧ rl_Status r' = s ∧ (r' = r ∨ s ∈ validTransitions (rl_Status r)).
Proof.
  intros Hr. unfold Rule_SetStatus. destruct (RuleStatus_IsValid s) eqn:Ev; [|done].
  case_bool_decide as Es; [intros [= <-]; auto|].
  destruct (CanTransitionTo (rl_Status r) s) eqn:Ec; [|done]. intros [= <-].
  apply CanTransitionTo_spec in Ec. destruct Hr as [? ? ? ? ? Hd].
  unfold dates_ok in Hd.
  destruct s; try done; (split; [split; try done; cbn|by split; [|right]]);
    destruct (rl_Status r); cbn in Ec; try set_solver; naive_solver.
Qed.

(** Rules as the program makes them. *)
Inductive rule_reachable : Rule → Prop :=
  | rule_new id name expression action scopes description now r :
      NewRule id name expression action scopes description now = Ok r → rule_reachable r
  | rule_update r name expression description scopes now r' :
      rule_reachable r → Rule_Update r name expression description scopes now = Ok r' → rule_reachable r'
  | rule_action r action now r' :
      rule_reachable r → Rule_SetAction r action now = Ok r' → rule_reachable r'
  | rule_status r s now r' :
      rule_reachable r → Rule_SetStatus r s now = Ok r' → rule_reachable r'.

(** Every rule made by [NewRule] and changed by [Update], [SetAction] and
    [SetStatus] has a trimmed name and expression within their lengths, a valid action,
    normalised scopes none of which is empty, and exactly the dates its status calls
    for: a draft none, an active rule its activation, an inactive one both, a deleted
    one its deletion.  A deleted rule admits no other status. *)
Theorem rule_lifecycle_wf (r : Rule) (Hr : rule_reachable r) :
  rule_wf r ∧
  (∀ s now r', Rule_SetStatus r s now = Ok r' → r' = r ∨ s ∈ validTransitions (rl_Status r)) ∧
  (rl_Status r = RuleStatusDeleted → ∀ s now r', Rule_SetStatus r s now = Ok r' → r' = r).
Proof.
  assert (rule_wf r) as Hwf.
  { induction Hr as [id nm ex ac sc de t r E|r nm ex de sc t r' _ IH E|r ac t r' _ IH E|r s t r' _ IH E].
    - by destruct (NewRule_wf _ _ _ _ _ _ _ _ E).
    - by destruct (Rule_Update_wf _ _ _ _ _ _ _ IH E).
    - by destruct (Rule_SetAction_wf _ _ _ _ IH E).
    - by destruct (Rule_SetStatus_wf _ _ _ _ IH E). }
  split; [done|]. split.
  - intros s now r' E. by destruct (Rule_SetStatus_wf _ _ _ _ Hwf E) as (_ & _ & ?).
  - intros Hd s now r' E. destruct (Rule_SetStatus_wf _ _ _ _ Hwf E) as (_ & _ & [?|Hs]); [done|].
    rewrite Hd in Hs. by apply not_elem_of_nil in Hs.
Qed.

End RuleLifecycle.

(** ** What an evaluation decides *)

Section Decisions.
Context `{CelLib}.

(** The rule applies to the request: its scopes match and its expression is true. *)
Definition holds (req : ValidationRequest) (r : Rule) : bool :=
  match Evaluate r req with Ok b => b | Err _ => false end.

Definition says (req : ValidationRequest) (d : Decision) (r : Rule) : bool :=
  holds req r && bool_decide (rl_Action r = d).

Definition some_says (req : ValidationRequest) (rules : list Rule) (d : Decision) : Prop :=
  ∃ r, r ∈ rules ∧ holds req r = true ∧ rl_Action r = d.

(** The strictest action of the rules that hold, or the default. *)
Definition decided (req : ValidationRequest) (rules : list Rule) (default d : Decision) : Prop :=
  some_says req rules DecisionDeny ∧ d = DecisionDeny ∨
  ¬ some_says req rules DecisionDeny ∧ some_says req rules DecisionReview ∧ d = DecisionReview ∨
  ¬ some_says req rules DecisionDeny ∧ ¬ some_says req rules DecisionReview ∧
    some_says req rules DecisionAllow ∧ d = DecisionAllow ∨
  ¬ some_says req rules DecisionDeny ∧ ¬ some_says req rules DecisionReview ∧
    ¬ some_says req rules DecisionAllow ∧ d = default.

Definition ids_saying (req : ValidationRequest) (d : Decision) (rules : list Rule) : list uuid :=
  rl_ID <$> filter (λ r, says req d r = true) rules.

Lemma ids_saying_nil req d rules : ids_saying req d rules = [] ↔ ¬ some_says req rules d.
Proof.
  unfold ids_saying. split.
  - intros E%fmap_nil_inv (r & Hr & Hh & Ha).
    assert (r ∈ filter (λ r, says req d r = true) rules) as Hin.
    { apply list_elem_of_filter. unfold says. rewrite Hh, bool_decide_true by done. done. }
    rewrite E in Hin. by apply not_elem_of_nil in Hin.
  - intros Hn. destruct (filter (λ r, says req d r = true) rules) as [|r l] eqn:E; [done|]. destruct Hn.
    assert (r ∈ filter (λ r, says req d r = true) rules) as Hin by (rewrite E; left).
    apply list_elem_of_filter in Hin as [[? ?%bool_decide_eq_true]%andb_true_iff ?]. by exists r.
Qed.

Lemma ids_saying_cons req d r rules :
  ids_saying req d (r :: rules) = (if says req d r then [rl_ID r] else []) ++ ids_saying req d rules.
Proof. unfold ids_saying. rewrite filter_cons. destruct (says req d r) eqn:E; by rewrite ?E. Qed.

Lemma elem_of_ids_saying req d rules id :
  id ∈ ids_saying req d rules ↔ ∃ r, r ∈ rules ∧ rl_ID r = id ∧ holds req r = true ∧ rl_Action r = d.
Proof.
  unfold ids_saying. rewrite list_elem_of_fmap. split.
  - intros (r & -> & [[? ?%bool_decide_eq_true]%andb_true_iff ?]%list_elem_of_filter). by exists r.
  - intros (r & Hr & <- & Hh & Ha). exists r. split; [done|]. apply list_elem_of_filter.
    unfold says. by rewrite Hh, bool_decide_true.
Qed.

(** The rules of a list that may contain nil pointers. *)
Definition present (rules : list (option Rule)) : list Rule := omap (λ r, r) rules.

Lemma evaluate_from_Ok done req rules : ∀ c,
  (∀ r, r ∈ present rules → done r = false ∧ ∃ b, Evaluate r req = Ok b) →
  evaluate_from done req c rules = Ok {|
    ec_DenyRuleIDs := ec_DenyRuleIDs c ++ ids_saying req DecisionDeny (present rules);
    ec_AllowRuleIDs := ec_AllowRuleIDs c ++ ids_saying req DecisionAllow (present rules);
    ec_ReviewRuleIDs := ec_ReviewRuleIDs c ++ ids_saying req DecisionReview (present rules);
    ec_EvaluatedRuleIDs := ec_EvaluatedRuleIDs c ++ (rl_ID <$> present rules) |}.
Proof.
  induction rules as [|[r|] rules IH]; intros c Hall; cbn [evaluate_from].
  - cbn. rewrite !app_nil_r. by destruct c.
  - destruct (Hall r) as [Hd [b Hb]]; [left|]. rewrite Hd, Hb. cbn [rbind].
    rewrite IH by (intros r' Hr'; apply Hall; by right).
    assert (holds req r = b) as Hh by (unfold holds; by rewrite Hb).
    change (present (Some r :: rules)) with (r :: present rules). rewrite !ids_saying_cons.
    unfold collect, says. rewrite Hh.
    cbn [ec_DenyRuleIDs ec_AllowRuleIDs ec_ReviewRuleIDs ec_EvaluatedRuleIDs fmap list_fmap].
    do 2 f_equal; rewrite <- ?app_assoc; try done;
      destruct (b && _); rewrite <- ?app_assoc; done.
  - apply IH. intros r' Hr'. by apply Hall.
Qed.

Lemma evaluate_from_Err done req rules : ∀ c,
  (∃ r, r ∈ present rules ∧ (done r = true ∨ ∃ e, Evaluate r req = Err e)) →
  ∃ e, evaluate_from done req c rules = Err e.
Proof.
  induction rules as [|[r|] rules IH]; intros c (r' & Hr' & Hbad).
  - by apply not_elem_of_nil in Hr'.
  - cbn. destruct (done r) eqn:Ed; [eauto|]. destruct (Evaluate r req) as [b|e] eqn:E; [|eauto].
    apply IH. apply elem_of_cons in Hr' as [->|Hr']; [|by exists r'].
    destruct Hbad as [Hb|[e Hb]]; congruence.
  - apply IH. by exists r'.
Qed.

Lemma MakeDecision_spec req rules evaluated default :
  Decision_IsValid default = true →
  ∃ res, MakeDecision (ids_saying req DecisionDeny rules) (ids_saying req DecisionAllow rules)
           (ids_saying req DecisionReview rules) evaluated default = Ok res ∧
    decided req rules default (er_Decision res) ∧ er_EvaluatedRuleIDs res = evaluated ∧
    (∀ id, id ∈ er_MatchedRuleIDs res ↔ ∃ r, r ∈ rules ∧ rl_ID r = id ∧ holds req r = true ∧
                                           Decision_IsValid (rl_Action r) = true).
Proof.
  intros Hv. unfold MakeDecision.
  assert (∀ id, id ∈ ids_saying req DecisionDeny rules ++ ids_saying req DecisionReview rules ++
                     ids_saying req DecisionAllow rules ↔
    ∃ r, r ∈ rules ∧ rl_ID r = id ∧ holds req r = true ∧ Decision_IsValid (rl_Action r) = true) as Hm.
  { intros id. rewrite !elem_of_app, !elem_of_ids_saying. split.
    - intros [(r & ? & ? & ? & Ha)|[(r & ? & ? & ? & Ha)|(r & ? & ? & ? & Ha)]]; exists r; by rewrite Ha.
    - intros (r & ? & ? & ? & Ha). destruct (rl_Action r) eqn:Ea; try done; naive_solver. }
  pose proof (ids_saying_nil req DecisionDeny rules) as Nd.
  pose proof (ids_saying_nil req DecisionReview rules) as Nr.
  pose proof (ids_saying_nil req DecisionAllow rules) as Na.
  assert (∀ d, ids_saying req d rules ≠ [] → some_says req rules d) as Hsome.
  { intros d Hne. destruct (ids_saying req d rules) as [|i l] eqn:E; [done|].
    assert (i ∈ ids_saying req d rules) as Hi by (rewrite E; left).
    apply elem_of_ids_saying in Hi as (r & ? & _ & ? & ?). by exists r. }
  unfold decided.
  destruct (ids_saying req DecisionDeny rules) as [|i l] eqn:Ed; cbn [length Nat.ltb Nat.leb].
  2:{ eexists. split; [reflexivity|]. split_and!; [left; split; [apply Hsome; by rewrite Ed|done]|done|exact Hm]. }
  destruct (ids_saying req DecisionReview rules) as [|i l] eqn:Er; cbn [length Nat.ltb Nat.leb].
  2:{ eexists. split; [reflexivity|].
      split_and!; [right; left; split; [by apply Nd|split; [apply Hsome; by rewrite Er|done]]|done|exact Hm]. }
  destruct (ids_saying req DecisionAllow rules) as [|i l] eqn:Ea; cbn [length Nat.ltb Nat.leb].
  2:{ eexists. split; [reflexivity|].
      split_and!; [right; right; left; split_and!; [by apply Nd|by apply Nr|apply Hsome; by rewrite Ea|done]
                  |done|exact Hm]. }
  unfold NewNoMatchResult. rewrite Hv. eexists. split; [reflexivity|].
  split_and!; [right; right; right; split_and!; [by apply Nd|by apply Nr|by apply Na|done]|done|exact Hm].
Qed.

Definition considered (config : EvaluationConfig) (rules : list (option Rule)) : list Rule :=
  present (if (0 <? cfg_MaxRulesPerRequest config) &&
              (cfg_MaxRulesPerRequest config <? Z.of_nat (length rules))
           then take (Z.to_nat (cfg_MaxRulesPerRequest config)) rules else rules).

Lemma evaluate_rules_fails config done load req rules :
  load (ToTransactionScope req) = Ok rules →
  (∃ r, r ∈ considered config rules ∧ (done r = true ∨ ∃ e, Evaluate r req = Err e)) →
  ∃ e, EvaluateRules config done load req = Err e.
Proof.
  intros Hload Hb. unfold EvaluateRules. rewrite Hload. cbn [rbind]. unfold EvaluateAll.
  edestruct (evaluate_from_Err done req) as [e Ee]; [exact Hb|]. rewrite Ee. by exists e.
Qed.

(** What is considered, and what a successful evaluation returns. *)
Definition outcome_of (config : EvaluationConfig) (req : ValidationRequest) (rules : list (option Rule))
    (res : EvaluationResult) : Prop :=
  decided req (considered config rules) (cfg_DefaultDecisionWhenNoMatch config) (er_Decision res) ∧
  er_EvaluatedRuleIDs res = rl_ID <$> considered config rules ∧
  (∀ id, id ∈ er_MatchedRuleIDs res ↔ ∃ r, r ∈ considered config rules ∧ rl_ID r = id ∧
           holds req r = true ∧ Decision_IsValid (rl_Action r) = true) ∧
  er_TotalRulesLoaded res = length rules.

Lemma evaluate_rules_outcome config done load req rules :
  load (ToTransactionScope req) = Ok rules →
  Decision_IsValid (cfg_DefaultDecisionWhenNoMatch config) = true →
  ((∃ r, r ∈ considered config rules ∧ (done r = true ∨ ∃ e, Evaluate r req = Err e)) ∧
   ∃ e, EvaluateRules config done load req = Err e) ∨
  (∃ res, EvaluateRules config done load req = Ok res ∧ outcome_of config req rules res).
Proof.
  intros Hload Hdef. unfold outcome_of, considered. set (cons := if _ && _ then _ else _).
  assert (Exists (λ r, done r = true ∨ is_ok (Evaluate r req) = false) (present cons) ∨
          Forall (λ r, done r = false ∧ is_ok (Evaluate r req) = true) (present cons)) as [Hex|Hall].
  { destruct (Exists_dec (λ r, done r = true ∨ is_ok (Evaluate r req) = false) (present cons)) as [?|Hn];
      [by left|right]. apply Forall_forall. intros r Hr.
    destruct (done r) eqn:Ed, (is_ok (Evaluate r req)) eqn:Eo; try done; destruct Hn;
      apply Exists_exists; exists r; rewrite Ed, Eo; auto. }
  - left. apply Exists_exists in Hex as (r & Hr & Hbad).
    assert (∃ r, r ∈ present cons ∧ (done r = true ∨ ∃ e, Evaluate r req = Err e)) as Hb.
    { exists r. split; [done|]. destruct Hbad as [|Hbad]; [by left|right].
      destruct (Evaluate r req); [done|eauto]. }
    split; [exact Hb|]. by eapply evaluate_rules_fails.
  - right. unfold EvaluateRules, EvaluateAll. rewrite Hload. cbn [rbind]. fold cons. rewrite evaluate_from_Ok.
    2:{ intros r Hr. rewrite Forall_forall in Hall. destruct (Hall r Hr) as [? Ho].
        split; [done|]. destruct (Evaluate r req); [eauto|done]. }
    cbn [rbind ec_DenyRuleIDs ec_AllowRuleIDs ec_ReviewRuleIDs ec_EvaluatedRuleIDs app].
    destruct (MakeDecision_spec req (present cons) (rl_ID <$> present cons)
                (cfg_DefaultDecisionWhenNoMatch config) Hdef) as (res & -> & ? & ? & ?).
    cbn [rbind]. eexists. split; [reflexivity|]. by split_and!.
Qed.

(** C22: An evaluation considers the loaded rules up to the configured number.  If the
    evaluation of one of them fails, there is no decision but an error.  Otherwise the
    result holds the strictest action of the rules that hold, or the default when none
    does, and names exactly the rules that hold and the rules considered. *)
Theorem evaluate_rules_exact config done load req rules
    (Hload : load (ToTransactionScope req) = Ok rules)
    (Hdef : Decision_IsValid (cfg_DefaultDecisionWhenNoMatch config) = true) :
  ((∃ r, r ∈ considered config rules ∧ (done r = true ∨ ∃ e, Evaluate r req = Err e)) ∧
   ∃ e, EvaluateRules config done load req = Err e) ∨
  (∃ res, EvaluateRules config done load req = Ok res ∧
     decided req (considered config rules) (cfg_DefaultDecisionWhenNoMatch config) (er_Decision res) ∧
     er_EvaluatedRuleIDs res = rl_ID <$> considered config rules ∧
     (∀ id, id ∈ er_MatchedRuleIDs res ↔ ∃ r, r ∈ considered config rules ∧ rl_ID r = id ∧
              holds req r = true ∧ Decision_IsValid (rl_Action r) = true) ∧
     er_TotalRulesLoaded res = length rules).
Proof. exact (evaluate_rules_outcome config done load req rules Hload Hdef). Qed.

Lemma some_says_perm req rules rules' d :
  rules ≡ₚ rules' → some_says req rules d → some_says req rules' d.
Proof. intros Hp (r & Hr & ?). exists r. by rewrite <- Hp. Qed.

Lemma decided_perm req rules rules' default d d' :
  rules ≡ₚ rules' → decided req rules default d → decided req rules' default d' → d = d'.
Proof.
  intros Hp. unfold decided.
  assert (∀ x, some_says req rules x ↔ some_says req rules' x) as Hs.
  { intros x. split; apply some_says_perm; [done|by symmetry]. }
  rewrite !Hs. intuition congruence.
Qed.

(** The decision does not depend on the order in which the rules are loaded, as
    long as all of them are considered: two successful evaluations of the same rules
    in any order agree. *)
Theorem decision_order_independent config done done' load load' req rules rules' res res'
    (Hmax : cfg_MaxRulesPerRequest config ≤ 0 ∨ Z.of_nat (length rules) ≤ cfg_MaxRulesPerRequest config)
    (Hload : load (ToTransactionScope req) = Ok rules)
    (Hload' : load' (ToTransactionScope req) = Ok rules')
    (Hdef : Decision_IsValid (cfg_DefaultDecisionWhenNoMatch config) = true)
    (Hp : rules ≡ₚ rules')
    (E : EvaluateRules config done load req = Ok res)
    (E' : EvaluateRules config done' load' req = Ok res') :
  er_Decision res = er_Decision res'.
Proof.
  destruct (evaluate_rules_outcome config done load req rules Hload Hdef) as [[_ [e Ee]]|(r1 & E1 & D1 & _)];
    [congruence|].
  destruct (evaluate_rules_outcome config done' load' req rules' Hload' Hdef) as [[_ [e Ee]]|(r2 & E2 & D2 & _)];
    [congruence|].
  rewrite E in E1. rewrite E' in E2. injection E1 as ->. injection E2 as ->.
  refine (decided_perm req _ _ _ _ _ _ D1 D2).
  unfold considered. rewrite <- (Permutation_length Hp).
  replace ((0 <? cfg_MaxRulesPerRequest config) &&
           (cfg_MaxRulesPerRequest config <? Z.of_nat (length rules))) with false.
  - unfold present. by rewrite Hp.
  - symmetry. destruct (Z.ltb_spec 0 (cfg_MaxRulesPerRequest config)); [|done]. cbn.
    apply Z.ltb_ge. lia.
Qed.

End Decisions.

(** ** From a request to the limits *)

Section RequestChecks.
Context `{DecimalLib, UuidNil, CurrencyLib}.

Lemma validate_core r now :
  validateAmountCurrencyTimestamp r now = Ok tt →
  dle (vr_Amount r) dzero = false ∧ IsValidCurrency (vr_Currency r) = true ∧
  time_IsZero (vr_TransactionTimestamp r) = false.
Proof.
  unfold validateAmountCurrencyTimestamp. destruct (dle _ _); [done|].
  case_bool_decide; [done|]. destruct (IsValidCurrency _); [|done].
  by destruct (time_IsZero _).
Qed.

Lemma validate_optional r :
  validateOptionalFields r = Ok tt →
  is_ptr_nil_uuid (sg_ID <$> vr_Segment r) = false ∧
  is_ptr_nil_uuid (pf_ID <$> vr_Portfolio r) = false ∧
  match vr_SubType r with Some s => (MaxSubTypeLength <? String.length s)%nat | None => false end = false.
Proof.
  unfold validateOptionalFields. destruct (match vr_SubType r with Some s => (MaxSubTypeLength <? String.length s)%nat | None => false end); [done|].
  destruct (vr_Segment r), (vr_Portfolio r);
    cbn [fmap option_fmap option_map is_ptr_nil_uuid]; repeat case_bool_decide; done.
Qed.

Lemma validate_merchant r :
  validateMerchant r = Ok tt → is_ptr_nil_uuid (mc_ID <$> vr_Merchant r) = false.
Proof. unfold validateMerchant. destruct (vr_Merchant r); cbn; by repeat case_bool_decide. Qed.

Lemma request_input_ok r now requireAccount :
  validateAmountCurrencyTimestamp r now = Ok tt → validateOptionalFields r = Ok tt →
  validateMerchant r = Ok tt →
  (requireAccount = true → ac_ID (vr_Account r) ≠ uuid_Nil) →
  (vr_TransactionType r = TransactionTypeOther "" ∨ TransactionType_IsValid (vr_TransactionType r) = true) →
  CheckLimitsInput_validate (ToCheckLimitsInput r) requireAccount = Ok tt.
Proof.
  intros (Ha & Hc & Ht)%validate_core (Hs & Hp & Hst)%validate_optional Hm%validate_merchant Hacc Hty.
  unfold CheckLimitsInput_validate, ToCheckLimitsInput.
  cbn [ci_Amount ci_Currency ci_AccountID ci_SegmentID ci_PortfolioID ci_MerchantID
       ci_TransactionType ci_SubType ci_TransactionTimestamp].
  rewrite Ha, Hc, Hs, Hp, Hm, Ht, Hst. cbn [negb].
  replace (requireAccount && _) with false.
  2:{ destruct requireAccount; [|done]. symmetry. apply bool_decide_eq_false. auto. }
  unfold transactionTypePtr. case_bool_decide; [done|].
  by destruct Hty as [?| ->].
Qed.

(** A request that validation accepts is an input the limit checker accepts, on
    the synchronous path and on the reserve path with its relaxed rules, and rules and
    limits are matched against the same scope. *)
Theorem accepted_request_reaches_limits r now :
  (∀ r', NormalizeAndValidate r now = (r', Ok tt) →
     CheckLimitsInput_validate (ToCheckLimitsInput r') true = Ok tt) ∧
  (∀ r', NormalizeAndValidateForReserve r now = (r', Ok tt) →
     CheckLimitsInput_validate (ToCheckLimitsInput r') false = Ok tt) ∧
  buildTransactionScope (ToCheckLimitsInput r) = ToTransactionScope r.
Proof.
  split_and!; [..|done]; intros r'; unfold NormalizeAndValidate, NormalizeAndValidateForReserve,
    normalizeAndValidateWith; set (t := with_SubType r _).
  - destruct (ValidationRequest_Validate t now) as [[]|] eqn:E; [|done]. intros [= <-].
    unfold ValidationRequest_Validate in E. case_bool_decide; [done|].
    destruct (TransactionType_IsValid (vr_TransactionType t)) eqn:Ety; [|done]. cbn [negb] in E.
    apply rbind_Ok in E as ([] & E1 & E). case_bool_decide as Hacc; [done|].
    apply rbind_Ok in E as ([] & E2 & E). apply rbind_Ok in E as ([] & E3 & _).
    apply (request_input_ok t now true); auto.
  - destruct (ValidateForReserve t now) as [[]|] eqn:E; [|done]. intros [= <-].
    unfold ValidateForReserve in E. case_bool_decide; [done|].
    apply rbind_Ok in E as ([] & E1 & E).
    destruct (negb _ && negb _) eqn:Ety; [done|].
    apply rbind_Ok in E as ([] & E2 & E). apply rbind_Ok in E as ([] & E3 & _).
    apply (request_input_ok t now false); try done.
    apply andb_false_iff in Ety as [Ety|Ety]; apply negb_false_iff in Ety; [left|by right].
    by apply bool_decide_eq_true in Ety.
Qed.

End RequestChecks.

(** ** Samples *)

Module RuleSample.
Import TracerSample.
#[local] Existing Instances Fixed.lib Numbered.lib.

(** A few expressions, each its own program. *)
#[export] Instance cel : @CelLib Fixed.lib Numbered.lib _ := {|
  program := string;
  cel_Compile s := if bool_decide (s = "(") then Err ErrExpressionInvalid else Ok s;
  cel_Evaluate p req :=
    if bool_decide (p = "amount > 100") then Ok (dgt (vr_Amount req) (fx 100 0)) else
    if bool_decide (p = "metadata.channel") then Err ErrExpressionMissingKey else
    if bool_decide (p = "1 / 0") then Err ErrExpressionRuntime else
    Ok (bool_decide (p = "true")) |}.

Definition request (amount : Z) : ValidationRequest := {|
  vr_RequestID := id 90; vr_TransactionType := TransactionTypePix; vr_SubType := Some " Instant ";
  vr_Amount := fx amount 0; vr_Currency := "BRL"; vr_TransactionTimestamp := noon;
  vr_Account := {| ac_ID := id 7; ac_Type := "checking"; ac_Status := "active"; ac_Metadata := None |};
  vr_Segment := None; vr_Portfolio := None; vr_Merchant := None; vr_Metadata := None |}.

Definition rule_of (r : result TracerError Rule) (n : nat) : Rule :=
  match r with
  | Ok r => r
  | Err _ => {| rl_ID := id n; rl_Name := ""; rl_Description := None; rl_Expression := "";
                rl_Action := DecisionAllow; rl_Scopes := []; rl_Status := RuleStatusDraft;
                rl_CreatedAt := noon; rl_UpdatedAt := noon; rl_ActivatedAt := None;
                rl_DeactivatedAt := None; rl_DeletedAt := None; rl_CompiledProgram := None |}
  end.

Definition rule (n : nat) (expression : string) (action : Decision) (scopes : list Scope) : Rule :=
  rule_of (NewRule (id n) " Rule " expression action scopes None noon) n.

Definition big : Rule := rule 1 "amount > 100" DecisionDeny [acct_scope 7].
Definition always : Rule := rule 2 "true" DecisionAllow [].

Definition config (max : Z) : EvaluationConfig :=
  {| cfg_DefaultDecisionWhenNoMatch := DecisionReview; cfg_MaxRulesPerRequest := max |}.

Definition load_rules (rules : list Rule) (_ : Scope) : result TracerError (list (option Rule)) :=
  Ok (Some <$> rules).

Definition decide_on (max : Z) (rules : list Rule) (amount : Z) : result TracerError Decision :=
  let! res := EvaluateRules (config max) (λ _, false) (load_rules rules) (request amount) in
  Ok (er_Decision res).

Example some_decisions :
  (decide_on 0 [big; always] 50, decide_on 0 [big; always] 500, decide_on 0 [] 50,
   decide_on 0 [always; rule 3 "1 / 0" DecisionDeny []] 50,
   decide_on 0 [always; rule 3 "metadata.channel" DecisionDeny []] 50) =
  (Ok DecisionAllow, Ok DecisionDeny, Ok DecisionReview, Err ErrExpressionRuntime, Ok DecisionAllow).
Proof. vm_compute. reflexivity. Qed.

(** With more rules than the configured number, the order in which they are loaded
    decides, and the cache loads them in the order of a Go map: the same two rules
    deny a transaction or allow it. *)
Theorem truncated_decision_depends_on_order :
  decide_on 1 [big; always] 500 = Ok DecisionDeny ∧ decide_on 1 [always; big] 500 = Ok DecisionAllow.
Proof. vm_compute. split; reflexivity. Qed.

Lemma rule_lifecycle_wf_witness :
  ∃ r r', NewRule (id 1) " Rule " "amount > 100" DecisionDeny [acct_scope 7] None noon = Ok r ∧
    Rule_SetStatus r RuleStatusActive noon = Ok r' ∧ rule_wf r'.
Proof.
  assert (is_ok (let! r := NewRule (id 1) " Rule " "amount > 100" DecisionDeny [acct_scope 7] None noon in
                 Rule_SetStatus r RuleStatusActive noon) = true) as Hok by (vm_compute; reflexivity).
  destruct (NewRule (id 1) " Rule " "amount > 100" DecisionDeny [acct_scope 7] None noon)
    as [r|] eqn:E; [|discriminate Hok]. cbn [rbind] in Hok.
  destruct (Rule_SetStatus r RuleStatusActive noon) as [r'|] eqn:E'; [|discriminate Hok].
  exists r, r'. split; [reflexivity|]. split; [exact E'|].
  exact (proj1 (rule_lifecycle_wf r' (rule_status r _ _ r' (rule_new _ _ _ _ _ _ _ r E) E'))).
Defined.

Lemma evaluate_rules_exact_witness :
  ∃ res, EvaluateRules (config 0) (λ _, false) (load_rules [big; always]) (request 500) = Ok res ∧
         er_Decision res = DecisionDeny ∧ er_MatchedRuleIDs res = [id 1; id 2].
Proof.
  destruct (evaluate_rules_exact (config 0) (λ _, false) (load_rules [big; always]) (request 500)
              (Some <$> [big; always]) ltac:(reflexivity) ltac:(reflexivity))
    as [[_ [e E]]|(res & E & _)].
  - vm_compute in E. discriminate E.
  - exists res. split; [exact E|]. vm_compute in E. injection E as <-. split; reflexivity.
Defined.

Lemma decision_order_independent_witness :
  ∃ res res', EvaluateRules (config 2) (λ _, false) (load_rules [big; always]) (request 500) = Ok res ∧
    EvaluateRules (config 2) (λ _, false) (load_rules [always; big]) (request 500) = Ok res' ∧
    er_Decision res = er_Decision res'.
Proof.
  destruct (EvaluateRules (config 2) (λ _, false) (load_rules [big; always]) (request 500)) as [r1|] eqn:E1;
    [|vm_compute in E1; discriminate E1].
  destruct (EvaluateRules (config 2) (λ _, false) (load_rules [always; big]) (request 500)) as [r2|] eqn:E2;
    [|vm_compute in E2; discriminate E2].
  exists r1, r2. split; [reflexivity|]. split; [reflexivity|].
  apply (decision_order_independent (config 2) (λ _, false) (λ _, false) (load_rules [big; always])
           (load_rules [always; big]) (request 500) (Some <$> [big; always]) (Some <$> [always; big]));
    [right; vm_compute; discriminate|reflexivity..| |exact E1|exact E2].
  apply Permutation_swap.
Defined.

Lemma accepted_request_reaches_limits_witness :
  CheckLimitsInput_validate (ToCheckLimitsInput (with_SubType (request 500) (Some "instant"))) true = Ok tt.
Proof.
  refine (proj1 (accepted_request_reaches_limits (request 500) noon) _ _).
  vm_compute. reflexivity.
Defined.

End RuleSample.
