(* ===== verification/RuleSync.v ===== *)
(** * Rule commands, the rule cache and its synchronisation

    Rules live in a table; the validation path reads them from a cache in memory
    (src/components/tracer/internal/services/cache).  The commands that change rules
    (internal/services/command: create, update, activate, deactivate, draft and
    delete) write the row and an audit event in one transaction, and activation and
    deactivation also change the cache of their own process.  A worker
    (internal/services/workers/rule_sync_worker.go) polls the table for rows changed
    since its last poll, less an overlap, and applies the difference, so that changes
    made by other processes reach the cache too.  The statements are those of
    internal/adapters/postgres/rule_repository.go and rule_sync_repository.go.

    A row of the table is a [Rule] without compiled program; the uniqueness of
    names is that of migration 000013.  Instants are stored as they are; a database
    that rounds them to microseconds is outside the model. *)

From stdpp Require Import base gmap strings list.
From Stdlib Require Import ZArith QArith Lia Ascii.
From S2P Require Import Prelude Decimals GoStrings CacheKeys GoTime Limits LimitChecker Sanitize.
From S2P Require Import Reservations Rules.
Local Open Scope string_scope.
Local Open Scope list_scope.
Local Open Scope Z_scope.

(** ** The table and its statements *)

(** [NormalizeName] (create_rule.go): runs of white space become one space. *)
Definition is_regexp_space (a : ascii) : bool :=
  let n := nat_of_ascii a in
  (n =? 9)%nat || (n =? 10)%nat || (n =? 12)%nat || (n =? 13)%nat || (n =? 32)%nat.

Fixpoint collapse_spaces (in_run : bool) (s : string) : string :=
  match s with
  | EmptyString => EmptyString
  | String a s' =>
      if is_regexp_space a
      then if in_run then collapse_spaces true s' else String " " (collapse_spaces true s')
      else String a (collapse_spaces false s')
  end.

Definition NormalizeName (name : string) : string :=
  collapse_spaces false (strings_ToLower (strings_TrimSpace name)).

Inductive RuleEventType :=
  | AuditEventRuleCreated | AuditEventRuleUpdated | AuditEventRuleActivated
  | AuditEventRuleDeactivated | AuditEventRuleDrafted | AuditEventRuleDeleted.

Section Table.
Context `{CelLib}.

(** [RuleToMap] (audit_helpers.go): what an audit event keeps of a rule. *)
Record RuleSnapshot := {
  sn_id : uuid; sn_name : string; sn_description : option string; sn_expression : string;
  sn_action : Decision; sn_scopes : list Scope; sn_status : RuleStatus;
  sn_createdAt : time; sn_updatedAt : time }.

Definition RuleToMap (r : Rule) : RuleSnapshot := {|
  sn_id := rl_ID r; sn_name := rl_Name r; sn_description := rl_Description r;
  sn_expression := rl_Expression r; sn_action := rl_Action r; sn_scopes := rl_Scopes r;
  sn_status := rl_Status r; sn_createdAt := rl_CreatedAt r; sn_updatedAt := rl_UpdatedAt r |}.

Record RuleAudit := {
  ra_event : RuleEventType; ra_rule : uuid;
  ra_before : option RuleSnapshot; ra_after : option RuleSnapshot }.

Record RuleDB := { rd_rules : gmap uuid Rule; rd_audit : list RuleAudit }.

(** [context_id] of FromEntity (rule_postgresql_model.go): the smallest segment of
    the scopes. *)
Definition contextID (scopes : list Scope) : option string :=
  fold_left (λ smallest s,
    match sc_SegmentID s, smallest with
    | None, _ => smallest
    | Some u, None => Some (uuid_String u)
    | Some u, Some m => if String.ltb (uuid_String u) m then Some (uuid_String u) else smallest
    end) scopes None.

(** idx_rules_name_per_context_active: another rule, not deleted, with the same
    context and name. *)
Definition name_taken (rules : gmap uuid Rule) (r : Rule) : bool :=
  existsb (λ p, negb (bool_decide (p.1 = rl_ID r)) &&
                negb (bool_decide (rl_Status p.2 = RuleStatusDeleted)) &&
                bool_decide (contextID (rl_Scopes p.2) = contextID (rl_Scopes r)) &&
                bool_decide (rl_Name p.2 = rl_Name r)) (map_to_list rules).

Definition as_row (r : Rule) (created : time) (activated deactivated deleted : option time) : Rule := {|
  rl_ID := rl_ID r; rl_Name := rl_Name r; rl_Description := rl_Description r;
  rl_Expression := rl_Expression r; rl_Action := rl_Action r; rl_Scopes := rl_Scopes r;
  rl_Status := rl_Status r; rl_CreatedAt := created; rl_UpdatedAt := rl_UpdatedAt r;
  rl_ActivatedAt := activated; rl_DeactivatedAt := deactivated; rl_DeletedAt := deleted;
  rl_CompiledProgram := None |}.

Definition with_rules (st : RuleDB) (rules : gmap uuid Rule) : RuleDB :=
  {| rd_rules := rules; rd_audit := rd_audit st |}.

(** [createInternal]: the INSERT leaves the three dates null. *)
Definition CreateWithTx (st : RuleDB) (fail : bool) (r : Rule) : result TracerError RuleDB :=
  if fail then Err DbError else
  if name_taken (rd_rules st) r then Err ErrRuleNameAlreadyExistsInCtx else
  match rd_rules st !! rl_ID r with
  | Some _ => Err DbError
  | None => Ok (with_rules st (<[rl_ID r := as_row r (rl_CreatedAt r) None None None]> (rd_rules st)))
  end.

(** [GetByID] sees the rows that are not soft-deleted. *)
Definition Rule_GetByID (st : RuleDB) (fail : bool) (id : uuid) : result TracerError Rule :=
  if fail then Err DbError else
  match rd_rules st !! id with
  | Some r => match rl_DeletedAt r with None => Ok r | Some _ => Err ErrRuleNotFound end
  | None => Err ErrRuleNotFound
  end.

(** [updateInternal]: the columns of its SET list; the dates of activation and
    deactivation are not among them. *)
Definition UpdateWithTx (st : RuleDB) (fail : bool) (r : Rule) : result TracerError RuleDB :=
  if fail then Err DbError else
  match rd_rules st !! rl_ID r with
  | Some row =>
      match rl_DeletedAt row with
      | Some _ => Err ErrRuleNotFound
      | None =>
          if negb (bool_decide (rl_Status r = RuleStatusDeleted)) && name_taken (rd_rules st) r
          then Err ErrRuleNameAlreadyExistsInCtx else
          Ok (with_rules st (<[rl_ID r := as_row r (rl_CreatedAt row) (rl_ActivatedAt row)
                                            (rl_DeactivatedAt row) None]> (rd_rules st)))
      end
  | None => Err ErrRuleNotFound
  end.

(** [deleteInternal] *)
Definition DeleteWithTx (st : RuleDB) (fail : bool) (id : uuid) (now : time) : result TracerError RuleDB :=
  if fail then Err DbError else
  match rd_rules st !! id with
  | Some row =>
      match rl_DeletedAt row with
      | Some _ => Err ErrRuleNotFound
      | None => Ok (with_rules st (<[id := with_RuleStatus row RuleStatusDeleted now
                     (rl_ActivatedAt row) (rl_DeactivatedAt row) (Some now)]> (rd_rules st)))
      end
  | None => Err ErrRuleNotFound
  end.

Definition RecordRuleEventWithTx (st : RuleDB) (fail : bool) (event : RuleEventType) (id : uuid)
    (before after : option RuleSnapshot) : result TracerError RuleDB :=
  if fail then Err DbError else
  Ok {| rd_rules := rd_rules st;
        rd_audit := rd_audit st ++ [{| ra_event := event; ra_rule := id;
                                       ra_before := before; ra_after := after |}] |}.

(** [executeInTx] (tx_helper.go) *)
Definition executeInTx (flt : faults) (st : RuleDB) (fn : RuleDB → result TracerError RuleDB)
    : RuleDB * result TracerError unit :=
  if f_begin flt then (st, Err DbError) else
  match fn st with
  | Err e => (st, Err e)
  | Ok st' => if f_commit flt then (st, Err DbError) else (st', Ok tt)
  end.

(** The rows the worker reads (rule_sync_repository.go); the order of rows with
    equal keys is left to [order]. *)
Definition GetRulesUpdatedSince (order : list Rule → list Rule) (st : RuleDB) (since : time) : list Rule :=
  order (filter (λ r, since ≤ rl_UpdatedAt r) (map_to_list (rd_rules st)).*2).

Definition GetAllActiveRules (order : list Rule → list Rule) (st : RuleDB) : list Rule :=
  order (filter (λ r, rl_Status r = RuleStatusActive ∧ rl_DeletedAt r = None) (map_to_list (rd_rules st)).*2).

End Table.

(** ** The cache (rule_cache.go, adapter.go, warmup.go) *)

Section Cache.
Context `{CelLib}.

Record CachedRule := { ce_Rule : Rule; ce_Program : option program }.

(** Everything is kept per tenant; the empty identifier is the single tenant. *)
Record RuleCache := {
  rc_rules : gmap string (gmap uuid CachedRule);
  rc_ready : gmap string bool;
  rc_lastSyncTime : gmap string time }.

Definition NewRuleCache : RuleCache := {| rc_rules := ∅; rc_ready := ∅; rc_lastSyncTime := ∅ |}.

(** The rules of a tenant; a missing entry of a Go map reads as nil. *)
Definition bucket (c : RuleCache) (tenant : string) : gmap uuid CachedRule :=
  default ∅ (rc_rules c !! tenant).

Definition IsReady (c : RuleCache) (tenant : string) : bool := default false (rc_ready c !! tenant).
Definition LastSyncTime (c : RuleCache) (tenant : string) : time := default 0 (rc_lastSyncTime c !! tenant).
Definition Size (c : RuleCache) (tenant : string) : nat := size (bucket c tenant).

(** [GetActiveRules]: copies of the entries whose rule matches, in the order of the
    iteration over the map; nil matches everything. *)
Definition Cache_GetActiveRules (order : list CachedRule → list CachedRule) (c : RuleCache)
    (tenant : string) (txScope : option Scope) : list CachedRule :=
  filter (λ e, is_nil txScope || RuleScopesMatch (rl_Scopes (ce_Rule e)) txScope = true)
    (order (map_to_list (bucket c tenant)).*2).

Definition put_rules (rules : list CachedRule) (m : gmap uuid CachedRule) : gmap uuid CachedRule :=
  fold_left (λ m e, <[rl_ID (ce_Rule e) := e]> m) rules m.

Definition store_rules (c : RuleCache) (tenant : string) (m : gmap uuid CachedRule) (now : time)
    : RuleCache := {|
  rc_rules := <[tenant := m]> (rc_rules c); rc_ready := rc_ready c;
  rc_lastSyncTime := <[tenant := now]> (rc_lastSyncTime c) |}.

Definition SetRules (c : RuleCache) (tenant : string) (rules : list CachedRule) (now : time) : RuleCache :=
  store_rules c tenant (put_rules rules ∅) now.

Definition ApplyChanges (c : RuleCache) (tenant : string) (upserts : list CachedRule)
    (removeIDs : list uuid) (now : time) : RuleCache :=
  store_rules c tenant
    (fold_left (λ m id, delete id m) removeIDs (put_rules upserts (bucket c tenant))) now.

Definition UpsertRule (c : RuleCache) (tenant : string) (rule : Rule) (program : option program)
    (now : time) : RuleCache :=
  ApplyChanges c tenant [{| ce_Rule := rule; ce_Program := program |}] [] now.

Definition RemoveRule (c : RuleCache) (tenant : string) (id : uuid) (now : time) : RuleCache :=
  ApplyChanges c tenant [] [id] now.

Definition MarkReady (c : RuleCache) (tenant : string) : RuleCache := {|
  rc_rules := rc_rules c; rc_ready := <[tenant := true]> (rc_ready c);
  rc_lastSyncTime := rc_lastSyncTime c |}.

(** [None] stands for math.MaxInt64: the cache was never synchronised. *)
Definition Staleness (c : RuleCache) (tenant : string) (now : time) : option Z :=
  let ts := LastSyncTime c tenant in if time_IsZero ts then None else Some (now - ts).

Definition EvictTenant (c : RuleCache) (tenant : string) : RuleCache := {|
  rc_rules := delete tenant (rc_rules c); rc_ready := delete tenant (rc_ready c);
  rc_lastSyncTime := delete tenant (rc_lastSyncTime c) |}.

Definition with_program (r : Rule) (p : option program) : Rule := {|
  rl_ID := rl_ID r; rl_Name := rl_Name r; rl_Description := rl_Description r;
  rl_Expression := rl_Expression r; rl_Action := rl_Action r; rl_Scopes := rl_Scopes r;
  rl_Status := rl_Status r; rl_CreatedAt := rl_CreatedAt r; rl_UpdatedAt := rl_UpdatedAt r;
  rl_ActivatedAt := rl_ActivatedAt r; rl_DeactivatedAt := rl_DeactivatedAt r;
  rl_DeletedAt := rl_DeletedAt r; rl_CompiledProgram := p |}.

(** [CacheAdapter.GetActiveRules] *)
Definition Adapter_GetActiveRules (order : list CachedRule → list CachedRule) (c : RuleCache)
    (tenant : string) (txScope : Scope) : result TracerError (list (option Rule)) :=
  if negb (IsReady c tenant) then Err ErrRuleCacheNotReady else
  Ok ((λ e, Some (with_program (ce_Rule e) (ce_Program e))) <$>
      Cache_GetActiveRules order c tenant (Some txScope)).

(** The loop of [WarmUp]: the first rule that does not compile ends it. *)
Fixpoint compile_all (rules : list Rule) : result TracerError (list CachedRule) :=
  match rules with
  | [] => Ok []
  | r :: rest =>
      let! p := cel_Compile (rl_Expression r) in
      let! l := compile_all rest in
      Ok ({| ce_Rule := r; ce_Program := Some p |} :: l)
  end.

Definition WarmUp (c : RuleCache) (tenant : string) (rules : result TracerError (list Rule)) (now : time)
    : RuleCache * result TracerError nat :=
  match (let! l := rules in compile_all l) with
  | Err e => (c, Err e)
  | Ok l => (MarkReady (SetRules c tenant l now) tenant, Ok (length l))
  end.

End Cache.

(** ** Commands (internal/services/command) *)

Section Commands.
Context `{CelLib}.

Record CreateRuleInput := {
  cri_Name : string; cri_Description : string; cri_Expression : string;
  cri_Action : Decision; cri_Scopes : list Scope }.

Record UpdateRuleInput := {
  uri_Name : option string; uri_Description : option string; uri_Expression : option string;
  uri_Action : option Decision; uri_Scopes : option (list Scope) }.

(** What a command sees fail: reading the rule, and the transaction. *)
Record cmd_faults := { cf_read : bool; cf_tx : faults }.

(** [CreateRuleCommand.Execute] *)
Definition CreateRule (st : RuleDB) (flt : cmd_faults) (id : uuid) (input : option CreateRuleInput)
    (now : time) : RuleDB * result TracerError Rule :=
  match input with
  | None => (st, Err ErrRuleNilInput)
  | Some input =>
      match (do! cel_Compile (cri_Expression input);;
             NewRule id (NormalizeName (cri_Name input)) (cri_Expression input) (cri_Action input)
               (cri_Scopes input)
               (if bool_decide (cri_Description input = "") then None else Some (cri_Description input))
               now) with
      | Err e => (st, Err e)
      | Ok rule =>
          match executeInTx (cf_tx flt) st (λ db,
                  let! db' := CreateWithTx db (f_stmt (cf_tx flt)) rule in
                  RecordRuleEventWithTx db' (f_audit (cf_tx flt)) AuditEventRuleCreated (rl_ID rule)
                    None (Some (RuleToMap rule))) with
          | (st', Err e) => (st', Err e)
          | (st', Ok _) => (st', Ok rule)
          end
      end
  end.

(** The transaction the other commands share: the row and its audit event. *)
Definition persist_rule (st : RuleDB) (flt : cmd_faults) (event : RuleEventType) (before rule : Rule)
    : RuleDB * result TracerError unit :=
  executeInTx (cf_tx flt) st (λ db,
    let! db' := UpdateWithTx db (f_stmt (cf_tx flt)) rule in
    RecordRuleEventWithTx db' (f_audit (cf_tx flt)) event (rl_ID rule)
      (Some (RuleToMap before)) (Some (RuleToMap rule))).

(** [UpdateRuleCommand.Execute] up to the transaction: the rule to write. *)
Definition prepare_update (rule : Rule) (input : UpdateRuleInput) (now : time) : result TracerError Rule :=
  do! match uri_Expression input with
      | None => Ok tt
      | Some e =>
          if negb (bool_decide (rl_Status rule = RuleStatusDraft)) then Err ErrExpressionNotModifiable else
          do! cel_Compile e;; Ok tt
      end;;
  let! rule' := match uri_Action input with
                | None => Ok rule
                | Some a => Rule_SetAction rule a now
                end in
  Rule_Update rule' (NormalizeName <$> uri_Name input) (uri_Expression input) (uri_Description input)
    (uri_Scopes input) now.

Definition UpdateRule (st : RuleDB) (flt : cmd_faults) (id : uuid) (input : option UpdateRuleInput)
    (now : time) : RuleDB * result TracerError Rule :=
  match input with
  | None => (st, Err ErrRuleNilInput)
  | Some input =>
      match (let! rule := Rule_GetByID st (cf_read flt) id in
             let! rule' := prepare_update rule input now in Ok (rule, rule')) with
      | Err e => (st, Err e)
      | Ok (rule, rule') =>
          match persist_rule st flt AuditEventRuleUpdated rule rule' with
          | (st', Err e) => (st', Err e)
          | (st', Ok _) => (st', Ok rule')
          end
      end
  end.

(** [ActivateRuleService.Execute] up to the transaction; [None] when the rule is
    active already. *)
Definition prepare_activate (rule : Rule) (now : time) : result TracerError (option (Rule * program)) :=
  if bool_decide (rl_Expression rule = "") then Err ErrRuleExpressionRequired else
  if bool_decide (rl_Status rule = RuleStatusActive) then Ok None else
  let! p := cel_Compile (rl_Expression rule) in
  let! rule' := Rule_SetStatus rule RuleStatusActive now in
  Ok (Some (rule', p)).

(** The cache is that of the process that runs the command. *)
Definition ActivateRule (st : RuleDB) (c : RuleCache) (tenant : string) (flt : cmd_faults) (id : uuid)
    (now : time) : RuleDB * RuleCache * result TracerError Rule :=
  match (let! rule := Rule_GetByID st (cf_read flt) id in
         let! p := prepare_activate rule now in Ok (rule, p)) with
  | Err e => (st, c, Err e)
  | Ok (rule, None) => (st, c, Ok rule)
  | Ok (rule, Some (rule', p)) =>
      match persist_rule st flt AuditEventRuleActivated rule rule' with
      | (st', Err e) => (st', c, Err e)
      | (st', Ok _) => (st', MarkReady (UpsertRule c tenant rule' (Some p) now) tenant, Ok rule')
      end
  end.

(** The change of status of [DeactivateRuleService] and [DraftRuleService]; [None]
    when the rule has the status already. *)
Definition prepare_status (rule : Rule) (status : RuleStatus) (now : time)
    : result TracerError (option Rule) :=
  if bool_decide (rl_Status rule = status) then Ok None else
  let! rule' := Rule_SetStatus rule status now in Ok (Some rule').

Definition change_status (st : RuleDB) (flt : cmd_faults) (id : uuid) (status : RuleStatus)
    (event : RuleEventType) (now : time) : RuleDB * result TracerError (Rule * bool) :=
  match (let! rule := Rule_GetByID st (cf_read flt) id in
         let! r := prepare_status rule status now in Ok (rule, r)) with
  | Err e => (st, Err e)
  | Ok (rule, None) => (st, Ok (rule, false))
  | Ok (rule, Some rule') =>
      match persist_rule st flt event rule rule' with
      | (st', Err e) => (st', Err e)
      | (st', Ok _) => (st', Ok (rule', true))
      end
  end.

Definition DeactivateRule (st : RuleDB) (c : RuleCache) (tenant : string) (flt : cmd_faults) (id : uuid)
    (now : time) : RuleDB * RuleCache * result TracerError Rule :=
  match change_status st flt id RuleStatusInactive AuditEventRuleDeactivated now with
  | (st', Err e) => (st', c, Err e)
  | (st', Ok (rule, changed)) =>
      (st', if changed then RemoveRule c tenant (rl_ID rule) now else c, Ok rule)
  end.

Definition DraftRule (st : RuleDB) (flt : cmd_faults) (id : uuid) (now : time)
    : RuleDB * result TracerError Rule :=
  match change_status st flt id RuleStatusDraft AuditEventRuleDrafted now with
  | (st', Err e) => (st', Err e)
  | (st', Ok (rule, _)) => (st', Ok rule)
  end.

(** [DeleteRuleService.Execute] *)
Definition DeleteRule (st : RuleDB) (flt : cmd_faults) (id : uuid) (now : time)
    : RuleDB * result TracerError unit :=
  match Rule_GetByID st (cf_read flt) id with
  | Err e => (st, Err e)
  | Ok rule =>
      if bool_decide (rl_Status rule = RuleStatusDeleted) then (st, Ok tt) else
      if negb (CanTransitionTo (rl_Status rule) RuleStatusDeleted)
      then (st, Err (NewInvalidTransitionError (rl_Status rule) RuleStatusDeleted)) else
      executeInTx (cf_tx flt) st (λ db,
        let! db' := DeleteWithTx db (f_stmt (cf_tx flt)) id now in
        RecordRuleEventWithTx db' (f_audit (cf_tx flt)) AuditEventRuleDeleted id
          (Some (RuleToMap rule)) None)
  end.

End Commands.

(** ** The worker (rule_sync_change_set.go, rule_sync_worker.go) *)

Section Worker.
Context `{CelLib}.

Record ChangeSet := { cs_New : list Rule; cs_Updated : list Rule; cs_Deleted : list uuid }.

Definition ChangeSet_IsEmpty (cs : ChangeSet) : bool :=
  bool_decide (length (cs_New cs) = 0%nat) && bool_decide (length (cs_Updated cs) = 0%nat) &&
  bool_decide (length (cs_Deleted cs) = 0%nat).

Definition classify (cached : gmap uuid CachedRule) (cs : ChangeSet) (rule : Rule) : ChangeSet :=
  match cached !! rl_ID rule with
  | Some existing =>
      if negb (bool_decide (rl_Status rule = RuleStatusActive)) then
        {| cs_New := cs_New cs; cs_Updated := cs_Updated cs;
           cs_Deleted := cs_Deleted cs ++ [rl_ID rule] |}
      else if time_After (rl_UpdatedAt rule) (rl_UpdatedAt (ce_Rule existing)) then
        {| cs_New := cs_New cs; cs_Updated := cs_Updated cs ++ [rule]; cs_Deleted := cs_Deleted cs |}
      else cs
  | None =>
      if negb (bool_decide (rl_Status rule = RuleStatusActive)) then cs else
        {| cs_New := cs_New cs ++ [rule]; cs_Updated := cs_Updated cs; cs_Deleted := cs_Deleted cs |}
  end.

Definition ClassifyChanges (cached : gmap uuid CachedRule) (fetched : list Rule) : ChangeSet :=
  fold_left (classify cached) fetched {| cs_New := []; cs_Updated := []; cs_Deleted := [] |}.

(** An expression that does not compile is cached without program. *)
Definition compile_entry (r : Rule) : CachedRule := {|
  ce_Rule := r;
  ce_Program := match cel_Compile (rl_Expression r) with Ok p => Some p | Err _ => None end |}.

Record WorkerConfig := { wc_PollInterval : Z; wc_StalenessThreshold : Z; wc_OverlapBuffer : Z }.
Definition DefaultRuleSyncWorkerConfig : WorkerConfig :=
  {| wc_PollInterval := 10 * Second; wc_StalenessThreshold := 50 * Second;
     wc_OverlapBuffer := 2 * Second |}.

Definition updateLastSync (lastSync : time) (fetched : list Rule) (now : time) : time :=
  if bool_decide (length fetched = 0%nat) then now else
  let maxTime := fold_left (λ m r, if time_After (rl_UpdatedAt r) m then rl_UpdatedAt r else m)
                   fetched lastSync in
  if maxTime =? lastSync then now else maxTime.

(** Where the next poll starts. *)
Definition poll_since (config : WorkerConfig) (lastSync : time) : time := lastSync - wc_OverlapBuffer config.

(** [runSyncCycle] after the query: [fetched] is what [queryDelta] returned, an error
    of the database or of the circuit breaker included.  Returns the cache and the
    new [lastSync]. *)
Definition finish_cycle (c : RuleCache) (tenant : string) (lastSync : time)
    (fetched : result TracerError (list Rule)) (now : time) : RuleCache * time :=
  match fetched with
  | Err _ => (c, lastSync)
  | Ok [] => (MarkReady (ApplyChanges c tenant [] [] now) tenant, now)
  | Ok fetched =>
      let changes := ClassifyChanges (bucket c tenant) fetched in
      if ChangeSet_IsEmpty changes then
        (MarkReady (ApplyChanges c tenant [] [] now) tenant, updateLastSync lastSync fetched now)
      else
        (MarkReady (ApplyChanges c tenant (compile_entry <$> (cs_New changes ++ cs_Updated changes))
                      (cs_Deleted changes) now) tenant,
         updateLastSync lastSync fetched now)
  end.

(** The whole cycle, against a database that answers at once. *)
Definition runSyncCycle (config : WorkerConfig) (order : list Rule → list Rule) (st : RuleDB)
    (poolfail queryfail : bool) (c : RuleCache) (tenant : string) (lastSync : time) (now : time)
    : RuleCache * time :=
  if poolfail then (c, lastSync) else
  finish_cycle c tenant lastSync
    (if queryfail then Err DbError else Ok (GetRulesUpdatedSince order st (poll_since config lastSync))) now.

End Worker.

(** ** Commands as one function (rule_service.go) *)

Section Service.
Context `{CelLib}.

Inductive command :=
  | CmdCreate (id : uuid) (input : option CreateRuleInput)
  | CmdUpdate (id : uuid) (input : option UpdateRuleInput)
  | CmdActivate (id : uuid) | CmdDeactivate (id : uuid) | CmdDraft (id : uuid) | CmdDelete (id : uuid).

Definition target (cmd : command) : uuid :=
  match cmd with
  | CmdCreate id _ | CmdUpdate id _ | CmdActivate id | CmdDeactivate id | CmdDraft id | CmdDelete id => id
  end.

Definition unit_of {A} (r : result TracerError A) : result TracerError unit :=
  match r with Ok _ => Ok tt | Err e => Err e end.

Definition run_command (st : RuleDB) (c : RuleCache) (tenant : string) (flt : cmd_faults)
    (cmd : command) (now : time) : RuleDB * RuleCache * result TracerError unit :=
  match cmd with
  | CmdCreate id input => let '(st', r) := CreateRule st flt id input now in (st', c, unit_of r)
  | CmdUpdate id input => let '(st', r) := UpdateRule st flt id input now in (st', c, unit_of r)
  | CmdActivate id => let '(st', c', r) := ActivateRule st c tenant flt id now in (st', c', unit_of r)
  | CmdDeactivate id => let '(st', c', r) := DeactivateRule st c tenant flt id now in (st', c', unit_of r)
  | CmdDraft id => let '(st', r) := DraftRule st flt id now in (st', c, unit_of r)
  | CmdDelete id => let '(st', r) := DeleteRule st flt id now in (st', c, unit_of r)
  end.

End Service.

(** ** What a command does *)

Section Effects.
Context `{CelLib} (tenant : string).

(** A row as the commands write it. *)
Record row_wf (id : uuid) (r : Rule) : Prop := {
  row_id : rl_ID r = id;
  row_plain : rl_CompiledProgram r = None;
  row_live : rl_Status r = RuleStatusActive → rl_DeletedAt r = None;
  row_dead : rl_Status r = RuleStatusDeleted → rl_DeletedAt r ≠ None }.

Definition db_wf (st : RuleDB) : Prop := ∀ id r, rd_rules st !! id = Some r → row_wf id r.

(** The entry holds what the row holds, and its compiled expression. *)
Definition entry_for (e : CachedRule) (row : Rule) : Prop :=
  RuleToMap (ce_Rule e) = RuleToMap row ∧ ce_Program e = ce_Program (compile_entry row).

(** How the cache of the process follows the new row. *)
Definition cache_follows (c c' : RuleCache) (id : uuid) (row' : Rule) : Prop :=
  c' = c ∨
  (∃ e, bucket c' tenant = <[id := e]> (bucket c tenant) ∧ entry_for e row' ∧
        rl_Status row' = RuleStatusActive) ∨
  (bucket c' tenant = delete id (bucket c tenant) ∧ rl_Status row' ≠ RuleStatusActive).

(** The outcomes of a command: nothing happened; the row was written back as it was;
    the row was written with the time of the command. *)
Inductive effect (st : RuleDB) (c : RuleCache) (id : uuid) (now : time)
    : RuleDB → RuleCache → result TracerError unit → Prop :=
  | effect_none res : effect st c id now st c res
  | effect_same ev :
      ra_rule ev = id →
      effect st c id now {| rd_rules := rd_rules st; rd_audit := rd_audit st ++ [ev] |} c (Ok tt)
  | effect_row row' ev c' :
      row_wf id row' → rl_UpdatedAt row' = now → ra_rule ev = id →
      ra_after ev = (if bool_decide (rl_Status row' = RuleStatusDeleted) then None
                     else Some (RuleToMap row')) →
      cache_follows c c' id row' →
      effect st c id now
        {| rd_rules := <[id := row']> (rd_rules st); rd_audit := rd_audit st ++ [ev] |} c' (Ok tt).

Lemma bucket_store c m now : bucket (store_rules c tenant m now) tenant = m.
Proof. unfold bucket, store_rules. cbn. by rewrite lookup_insert_eq. Qed.

Lemma bucket_MarkReady c t : bucket (MarkReady c t) tenant = bucket c tenant.
Proof. done. Qed.

(** The transaction of a command: it leaves the database as it was, or writes the
    row and the event. *)
Lemma tx_outcome flt st (write : RuleDB → result TracerError RuleDB) ev before after id st' res :
  executeInTx flt st (λ db, let! db' := write db in
                            RecordRuleEventWithTx db' (f_audit flt) ev id before after) = (st', res) →
  (st' = st ∧ ∃ e, res = Err e) ∨
  (∃ db', write st = Ok db' ∧ res = Ok tt ∧
     st' = {| rd_rules := rd_rules db';
              rd_audit := rd_audit db' ++ [{| ra_event := ev; ra_rule := id;
                                              ra_before := before; ra_after := after |}] |}).
Proof.
  unfold executeInTx. destruct (f_begin flt); [intros [= <- <-]; eauto|].
  destruct (write st) as [db'|e]; cbn [rbind]; [|intros [= <- <-]; eauto].
  unfold RecordRuleEventWithTx. destruct (f_audit flt); [intros [= <- <-]; eauto|].
  destruct (f_commit flt); intros [= <- <-]; eauto.
Qed.

Lemma UpdateWithTx_Ok st fail r st' :
  UpdateWithTx st fail r = Ok st' →
  ∃ row, rd_rules st !! rl_ID r = Some row ∧ rl_DeletedAt row = None ∧
    st' = with_rules st (<[rl_ID r := as_row r (rl_CreatedAt row) (rl_ActivatedAt row)
                                        (rl_DeactivatedAt row) None]> (rd_rules st)).
Proof.
  unfold UpdateWithTx. destruct fail; [done|]. destruct (rd_rules st !! rl_ID r) as [row|]; [|done].
  destruct (rl_DeletedAt row) eqn:Ed; [done|]. destruct (negb _ && _); [done|].
  intros [= <-]. by exists row.
Qed.

(** What [persist_rule] does with a rule made from the row by a change that keeps
    identifier, creation and deletion: used by four of the commands. *)
Lemma persist_outcome st flt ev row rule id now st' res :
  rd_rules st !! id = Some row → rl_ID rule = id → rl_CreatedAt rule = rl_CreatedAt row →
  rl_UpdatedAt rule = now → rl_Status rule ≠ RuleStatusDeleted →
  persist_rule st flt ev row rule = (st', res) →
  (st' = st ∧ ∃ e, res = Err e) ∨
  (res = Ok tt ∧ ∃ row' e,
     st' = {| rd_rules := <[id := row']> (rd_rules st); rd_audit := rd_audit st ++ [e] |} ∧
     row_wf id row' ∧ rl_UpdatedAt row' = now ∧ RuleToMap row' = RuleToMap rule ∧
     rl_Status row' = rl_Status rule ∧ rl_Expression row' = rl_Expression rule ∧
     ra_rule e = id ∧
     ra_after e = (if bool_decide (rl_Status row' = RuleStatusDeleted) then None
                   else Some (RuleToMap row'))).
Proof.
  intros Hrow Hid Hc Hu Hs E. apply tx_outcome in E as [?|(db' & Ew & -> & ->)]; [by left|right].
  apply UpdateWithTx_Ok in Ew as (row1 & Hrow1 & Hd & ->).
  rewrite Hid, Hrow in Hrow1. injection Hrow1 as <-.
  split; [done|]. eexists _, _. split; [cbn; by rewrite Hid|]. split_and!; cbn; try done.
  - unfold RuleToMap. cbn. by rewrite Hc.
  - rewrite bool_decide_false by done. unfold RuleToMap. cbn. by rewrite Hc.
Qed.

Lemma Rule_GetByID_Ok st fail id r :
  Rule_GetByID st fail id = Ok r → rd_rules st !! id = Some r ∧ rl_DeletedAt r = None.
Proof.
  unfold Rule_GetByID. destruct fail; [done|]. destruct (rd_rules st !! id) as [r'|]; [|done].
  destruct (rl_DeletedAt r') eqn:E; [done|]. by intros [= <-].
Qed.

(** A change of status, other than the deletion, to another status. *)
Lemma SetStatus_fields r s now r' :
  Rule_SetStatus r s now = Ok r' → rl_Status r ≠ s →
  rl_ID r' = rl_ID r ∧ rl_CreatedAt r' = rl_CreatedAt r ∧ rl_UpdatedAt r' = now ∧
  rl_Status r' = s ∧ rl_Expression r' = rl_Expression r.
Proof.
  unfold Rule_SetStatus. destruct (RuleStatus_IsValid s) eqn:Ev; [|done].
  case_bool_decide; [done|]. destruct (CanTransitionTo _ _); [|done]. intros [= <-] _. by destruct s.
Qed.

Lemma prepare_update_fields r input now r' :
  prepare_update r input now = Ok r' →
  r' = r ∨ (rl_ID r' = rl_ID r ∧ rl_CreatedAt r' = rl_CreatedAt r ∧ rl_UpdatedAt r' = now ∧
            rl_Status r' = rl_Status r).
Proof.
  unfold prepare_update. intros E. apply rbind_Ok in E as ([] & _ & E).
  apply rbind_Ok in E as (r1 & E1 & E).
  assert (r1 = r ∨ (rl_ID r1 = rl_ID r ∧ rl_CreatedAt r1 = rl_CreatedAt r ∧ rl_UpdatedAt r1 = now ∧
                    rl_Status r1 = rl_Status r)) as Hr1.
  { destruct (uri_Action input); [|left; by injection E1]. unfold Rule_SetAction in E1.
    destruct (negb _); [done|]. case_bool_decide; injection E1 as <-; [by left|by right]. }
  unfold Rule_Update in E. apply rbind_Ok in E as ([] & _ & E). apply rbind_Ok in E as ([] & _ & E).
  apply rbind_Ok in E as ([] & _ & E). apply rbind_Ok in E as ([] & _ & E). injection E as <-.
  destruct (uri_Name input), (uri_Expression input), (uri_Description input), (uri_Scopes input);
    cbn -[strings_TrimSpace NormalizeName];
    try (right; split_and!; try done; destruct Hr1 as [->|(? & ? & ? & ?)]; done).
  destruct Hr1 as [->|(? & ? & ? & ?)]; [left; by destruct r|right; by split_and!].
Qed.

Lemma NewRule_fields id name expression action scopes description now r :
  NewRule id name expression action scopes description now = Ok r →
  rl_ID r = id ∧ rl_UpdatedAt r = now ∧ rl_Status r = RuleStatusDraft.
Proof.
  unfold NewRule. intros E. apply rbind_Ok in E as ([] & _ & E). apply rbind_Ok in E as ([] & _ & E).
  destruct (negb _); [done|]. apply rbind_Ok in E as ([] & _ & E). apply rbind_Ok in E as ([] & _ & E).
  by injection E as <-.
Qed.

Lemma CreateRule_effect st c flt id input now st' res :
  CreateRule st flt id input now = (st', res) → effect st c id now st' c (unit_of res).
Proof.
  unfold CreateRule. destruct input as [input|]; [|intros [= <- <-]; constructor].
  destruct (rbind _ _) as [rule|e] eqn:E; [|intros [= <- <-]; constructor].
  apply rbind_Ok in E as (p & _ & (Hid & Hu & Hs)%NewRule_fields).
  destruct (executeInTx _ _ _) as [st1 r1] eqn:Et.
  apply tx_outcome in Et as [[-> [e ->]]|(db' & Ew & -> & ->)]; [intros [= <- <-]; constructor|].
  unfold CreateWithTx in Ew. destruct (f_stmt _); [done|]. destruct (name_taken _ _); [done|].
  destruct (rd_rules st !! rl_ID rule); [done|]. injection Ew as <-. intros [= <- <-]. cbn.
  rewrite Hid. eapply effect_row; cbn; try done; [split; cbn; congruence| |by left].
  rewrite bool_decide_false by congruence. reflexivity.
Qed.

Lemma UpdateRule_effect st c flt id input now st' res :
  db_wf st → UpdateRule st flt id input now = (st', res) → effect st c id now st' c (unit_of res).
Proof.
  intros Hwf. unfold UpdateRule. destruct input as [input|]; [|intros [= <- <-]; constructor].
  destruct (rbind _ _) as [[rule rule']|e] eqn:E; [|intros [= <- <-]; constructor].
  apply rbind_Ok in E as (r & [Hr Hd]%Rule_GetByID_Ok & E).
  apply rbind_Ok in E as (r' & E & [= <- <-]).
  destruct (Hwf _ _ Hr) as [Hid Hp Hl Hdead].
  destruct (persist_rule _ _ _ _ _) as [st1 r1] eqn:Et.
  apply prepare_update_fields in E as [->|(E1 & E2 & E3 & E4)].
  - apply tx_outcome in Et as [[-> [e ->]]|(db' & Ew & -> & ->)]; [intros [= <- <-]; constructor|].
    apply UpdateWithTx_Ok in Ew as (row & Hrow & Hd' & ->). rewrite Hid, Hr in Hrow.
    injection Hrow as <-. intros [= <- <-]. cbn [rd_rules rd_audit with_rules unit_of].
    rewrite insert_id; [by constructor|]. rewrite Hid, Hr. f_equal. destruct r. cbn in *. by subst.
  - eapply (persist_outcome _ _ _ _ _ id now) in Et as [[-> [e ->]]|(-> & row' & e & -> & ? & ? & ? & ? & ? & ? & ?)];
      [intros [= <- <-]; constructor|intros [= <- <-]; eapply effect_row; try done; by left|..];
      try congruence. rewrite E4. intros Hx. by apply Hdead in Hx.
Qed.

Lemma ActivateRule_effect st c flt id now st' c' res :
  db_wf st → ActivateRule st c tenant flt id now = (st', c', res) → effect st c id now st' c' (unit_of res).
Proof.
  intros Hwf. unfold ActivateRule.
  destruct (rbind _ _) as [[rule [[rule' p]|]]|e] eqn:E; [|intros [= <- <- <-]; constructor..].
  apply rbind_Ok in E as (r & [Hr Hd]%Rule_GetByID_Ok & E).
  apply rbind_Ok in E as (o & E & [= <- ->]). destruct (Hwf _ _ Hr) as [Hid Hp Hl Hdead].
  unfold prepare_activate in E. case_bool_decide; [done|]. case_bool_decide as Hs; [done|].
  apply rbind_Ok in E as (p' & Ep & E). apply rbind_Ok in E as (r' & E & [= <- <-]).
  apply SetStatus_fields in E as (E1 & E2 & E3 & E4 & E5); [|done].
  destruct (persist_rule _ _ _ _ _) as [st1 r1] eqn:Et.
  eapply (persist_outcome _ _ _ _ _ id now) in Et as [[-> [e ->]]|(-> & row' & e & -> & ? & ? & Hm & Hst & Hex & ? & ?)];
    [intros [= <- <- <-]; apply effect_none| |done|congruence..].
  intros [= <- <- <-]. eapply effect_row; try done. right. left.
  eexists. split; [unfold UpsertRule, ApplyChanges; rewrite bucket_MarkReady, bucket_store; cbn;
                   by rewrite E1, Hid|].
  split; [|congruence]. split; [done|]. cbn. by rewrite Hex, E5, Ep.
Qed.

Lemma change_status_effect st c flt id status event now st' res :
  db_wf st → status ≠ RuleStatusDeleted → status ≠ RuleStatusActive →
  change_status st flt id status event now = (st', res) →
  match res with
  | Ok (r, true) => rl_ID r = id ∧ ∀ c', bucket c' tenant = delete id (bucket c tenant) →
                      effect st c id now st' c' (Ok tt) ∧ effect st c id now st' c (Ok tt)
  | _ => st' = st
  end.
Proof.
  intros Hwf Hnd Hna. unfold change_status.
  destruct (rbind _ _) as [[rule [rule'|]]|e] eqn:E; [|by intros [= <- <-]..].
  apply rbind_Ok in E as (r & [Hr Hd]%Rule_GetByID_Ok & E).
  apply rbind_Ok in E as (o & E & [= <- ->]). destruct (Hwf _ _ Hr) as [Hid Hp Hl Hdead].
  unfold prepare_status in E. case_bool_decide as Hs; [done|].
  apply rbind_Ok in E as (r' & E & [= <-]).
  apply SetStatus_fields in E as (E1 & E2 & E3 & E4 & E5); [|done].
  destruct (persist_rule _ _ _ _ _) as [st1 r1] eqn:Et.
  eapply (persist_outcome _ _ _ _ _ id now) in Et as [[-> [e ->]]|(-> & row' & e & -> & ? & ? & Hm & Hst & Hex & ? & ?)];
    [by intros [= <- <-]| |done|congruence..].
  intros [= <- <-]. split; [congruence|]. intros c' Hc'. split; eapply effect_row; try done; [|by left].
  right. right. split; [done|congruence].
Qed.

(** Every command has one of the three outcomes. *)
Lemma run_command_effect st c flt cmd now st' c' res :
  db_wf st → run_command st c tenant flt cmd now = (st', c', res) →
  effect st c (target cmd) now st' c' res.
Proof.
  intros Hwf. destruct cmd as [id input|id input|id|id|id|id]; cbn [run_command target].
  - destruct (CreateRule _ _ _ _ _) eqn:E. intros [= <- <- <-]. by eapply CreateRule_effect.
  - destruct (UpdateRule _ _ _ _ _) eqn:E. intros [= <- <- <-]. by eapply UpdateRule_effect.
  - destruct (ActivateRule _ _ _ _ _ _) as [[]] eqn:E. intros [= <- <- <-]. by eapply ActivateRule_effect.
  - unfold DeactivateRule. destruct (change_status _ _ _ _ _ _) as [st1 r] eqn:E.
    apply (change_status_effect st c) in E; [|done..].
    destruct r as [[r []]|e]; intros [= <- <- <-]; [|subst st1; constructor..].
    destruct E as [Hid E]. apply E. unfold RemoveRule, ApplyChanges. rewrite bucket_store. cbn. by rewrite Hid.
  - unfold DraftRule. destruct (change_status _ _ _ _ _ _) as [st1 r] eqn:E.
    apply (change_status_effect st c) in E; [|done..].
    destruct r as [[r []]|e]; intros [= <- <- <-]; [|subst st1; constructor..].
    destruct E as [Hid E]. eapply (E (RemoveRule c tenant id now)).
    unfold RemoveRule, ApplyChanges. by rewrite bucket_store.
  - unfold DeleteRule. destruct (Rule_GetByID st (cf_read flt) id) as [rule|e] eqn:Eg;
      [|intros [= <- <- <-]; constructor].
    apply Rule_GetByID_Ok in Eg as [Hr Hd]. destruct (Hwf _ _ Hr) as [Hid Hp Hl Hdead].
    case_bool_decide; [intros [= <- <- <-]; constructor|].
    destruct (negb _); [intros [= <- <- <-]; constructor|].
    destruct (executeInTx _ _ _) as [st1 r1] eqn:Et.
    apply tx_outcome in Et as [[-> [e ->]]|(db' & Ew & -> & ->)]; [intros [= <- <- <-]; constructor|].
    unfold DeleteWithTx in Ew. destruct (f_stmt _); [done|]. rewrite Hr, Hd in Ew. injection Ew as <-.
    intros [= <- <- <-]. cbn. eapply effect_row; cbn; try done. by left.
Qed.

End Effects.

(** A rule command that fails changes neither the table, nor the audit trail, nor
    the cache; one that succeeds changes at most the row of its rule, and a changed row
    carries the time of the command and comes with exactly one audit event, of that
    rule and with its new content. *)
Theorem rule_commands_audited `{CelLib} tenant st c flt cmd now st' c' res
    (Hwf : db_wf st) (E : run_command st c tenant flt cmd now = (st', c', res)) :
  (res ≠ Ok tt → st' = st ∧ c' = c) ∧
  (∀ id, id ≠ target cmd → rd_rules st' !! id = rd_rules st !! id) ∧
  (rd_rules st' ≠ rd_rules st → ∃ row ev,
     rd_rules st' !! target cmd = Some row ∧ rl_UpdatedAt row = now ∧
     rd_audit st' = rd_audit st ++ [ev] ∧ ra_rule ev = target cmd ∧
     ra_after ev = (if bool_decide (rl_Status row = RuleStatusDeleted) then None
                    else Some (RuleToMap row))).
Proof.
  destruct (run_command_effect tenant _ _ _ _ _ _ _ _ Hwf E)
    as [r|ev Hev|row' ev c1 Hr Hu Hev Ha Hc].
  - by split_and!.
  - by split_and!.
  - split_and!; cbn; [done|intros id Hid; by rewrite lookup_insert_ne|].
    intros _. exists row', ev. by rewrite lookup_insert_eq.
Qed.

(** ** Applying a poll *)

Section Apply.
Context `{CelLib} (tenant : string).

Definition to_insert (cached : gmap uuid CachedRule) (r : Rule) : Prop :=
  rl_Status r = RuleStatusActive ∧ cached !! rl_ID r = None.
Definition to_update (cached : gmap uuid CachedRule) (r : Rule) : Prop :=
  rl_Status r = RuleStatusActive ∧
  match cached !! rl_ID r with Some e => rl_UpdatedAt (ce_Rule e) < rl_UpdatedAt r | None => False end.
Definition to_remove (cached : gmap uuid CachedRule) (r : Rule) : Prop :=
  rl_Status r ≠ RuleStatusActive ∧ is_Some (cached !! rl_ID r).

#[local] Instance to_insert_dec cached r : base.Decision (to_insert cached r).
Proof. unfold to_insert. destruct (cached !! rl_ID r); solve_decision. Defined.
#[local] Instance to_update_dec cached r : base.Decision (to_update cached r).
Proof. unfold to_update. destruct (cached !! rl_ID r); solve_decision. Defined.
#[local] Instance to_remove_dec cached r : base.Decision (to_remove cached r).
Proof. unfold to_remove. solve_decision. Defined.

Lemma classify_changes_spec cached rows :
  ClassifyChanges cached rows =
  {| cs_New := filter (to_insert cached) rows; cs_Updated := filter (to_update cached) rows;
     cs_Deleted := rl_ID <$> filter (to_remove cached) rows |}.
Proof.
  unfold ClassifyChanges.
  assert (∀ cs, fold_left (classify cached) rows cs =
    {| cs_New := cs_New cs ++ filter (to_insert cached) rows;
       cs_Updated := cs_Updated cs ++ filter (to_update cached) rows;
       cs_Deleted := cs_Deleted cs ++ (rl_ID <$> filter (to_remove cached) rows) |}) as Hg.
  2:{ by rewrite Hg. }
  induction rows as [|r rows IH]; intros cs; cbn [fold_left].
  { rewrite !app_nil_r. by destruct cs. }
  rewrite IH, !filter_cons. unfold classify, time_After.
  destruct (cached !! rl_ID r) as [e|] eqn:El; case_bool_decide as Hs; cbn [negb].
  - rewrite (decide_False (P := to_insert cached r)) by (intros [_ ?]; congruence).
    rewrite (decide_False (P := to_remove cached r)) by (intros [? _]; done).
    destruct (Z.ltb_spec (rl_UpdatedAt (ce_Rule e)) (rl_UpdatedAt r)).
    + rewrite decide_True by (split; [done|by rewrite El]). cbn. by rewrite <- app_assoc.
    + rewrite decide_False; [done|]. intros [_ Hlt]. rewrite El in Hlt. lia.
  - rewrite (decide_False (P := to_insert cached r)) by (intros [? _]; done).
    rewrite (decide_False (P := to_update cached r)) by (intros [? _]; done).
    rewrite decide_True by (split; [done|by rewrite El]). cbn. by rewrite <- app_assoc.
  - rewrite (decide_True (P := to_insert cached r)) by done.
    rewrite (decide_False (P := to_update cached r)) by (intros [_ Hx]; by rewrite El in Hx).
    rewrite decide_False by (intros [? _]; done). cbn. by rewrite <- app_assoc.
  - rewrite (decide_False (P := to_insert cached r)) by (intros [? _]; done).
    rewrite (decide_False (P := to_update cached r)) by (intros [? _]; done).
    rewrite decide_False; [done|]. intros [_ Hx]. rewrite El in Hx. by destruct Hx.
Qed.

Lemma put_rules_notin l : ∀ m id, id ∉ (λ e, rl_ID (ce_Rule e)) <$> l → put_rules l m !! id = m !! id.
Proof.
  induction l as [|e l IH]; intros m id Hid; [done|].
  rewrite fmap_cons, not_elem_of_cons in Hid. destruct Hid as [Hne Hid].
  change (put_rules (e :: l) m) with (put_rules l (<[rl_ID (ce_Rule e) := e]> m)).
  rewrite (IH _ _ Hid). by apply lookup_insert_ne.
Qed.

Lemma put_rules_in l : ∀ m e, NoDup ((λ e, rl_ID (ce_Rule e)) <$> l) → e ∈ l →
  put_rules l m !! rl_ID (ce_Rule e) = Some e.
Proof.
  induction l as [|e0 l IH]; intros m e Hnd He; [by apply not_elem_of_nil in He|].
  rewrite fmap_cons, NoDup_cons in Hnd. destruct Hnd as [Hn Hnd].
  change (put_rules (e0 :: l) m) with (put_rules l (<[rl_ID (ce_Rule e0) := e0]> m)).
  apply elem_of_cons in He as [->|He]; [|by apply IH].
  rewrite (put_rules_notin l _ _ Hn). by apply lookup_insert_eq.
Qed.

Lemma delete_all_lookup (ids : list uuid) : ∀ (m : gmap uuid CachedRule) id,
  fold_left (λ m id, delete id m) ids m !! id = if decide (id ∈ ids) then None else m !! id.
Proof.
  induction ids as [|i ids IH]; intros m id; cbn [fold_left].
  { by rewrite decide_False by apply not_elem_of_nil. }
  rewrite IH. destruct (decide (id = i)) as [->|Hne].
  - rewrite lookup_delete_eq, (decide_True (P := i ∈ i :: ids)) by left. by case_decide.
  - rewrite lookup_delete_ne by done. apply decide_ext. set_solver.
Qed.

(** The bucket after a successful cycle, in one formula. *)
Definition applied (m : gmap uuid CachedRule) (rows : list Rule) : gmap uuid CachedRule :=
  fold_left (λ m id, delete id m) (rl_ID <$> filter (to_remove m) rows)
    (put_rules (compile_entry <$> (filter (to_insert m) rows ++ filter (to_update m) rows)) m).

Lemma finish_cycle_bucket c lastSync rows now :
  bucket (finish_cycle c tenant lastSync (Ok rows) now).1 tenant = applied (bucket c tenant) rows.
Proof.
  unfold finish_cycle. destruct rows as [|r rows].
  { cbn [fst]. unfold ApplyChanges. by rewrite bucket_MarkReady, bucket_store. }
  rewrite classify_changes_spec. unfold ChangeSet_IsEmpty, applied. cbn [cs_New cs_Updated cs_Deleted].
  destruct (_ && _ && _) eqn:E; cbn [fst]; unfold ApplyChanges; rewrite bucket_MarkReady, bucket_store; [|done].
  apply andb_true_iff in E as [[E1 E2]%andb_true_iff E3].
  apply bool_decide_eq_true, nil_length_inv in E1, E2, E3. by rewrite E1, E2, E3.
Qed.

(** One identifier after a cycle: the row read for it decides. *)
Lemma applied_lookup m rows r :
  NoDup (rl_ID <$> rows) → r ∈ rows →
  applied m rows !! rl_ID r =
  if bool_decide (rl_Status r = RuleStatusActive) then
    match m !! rl_ID r with
    | Some e => if rl_UpdatedAt (ce_Rule e) <? rl_UpdatedAt r then Some (compile_entry r) else Some e
    | None => Some (compile_entry r)
    end
  else None.
Proof.
  intros Hnd Hr. unfold applied. rewrite delete_all_lookup.
  assert (∀ r', r' ∈ rows → rl_ID r' = rl_ID r → r' = r) as Huniq.
  { intros r' Hr' Heq. apply list_elem_of_lookup in Hr as [i Hi]. apply list_elem_of_lookup in Hr' as [j Hj].
    assert (i = j) as ->.
    { apply (NoDup_lookup (rl_ID <$> rows) i j (rl_ID r) Hnd); rewrite list_lookup_fmap;
        rewrite ?Hi, ?Hj; cbn; congruence. }
    congruence. }
  assert (∀ P (HP : ∀ x, base.Decision (P x)), rl_ID r ∈ rl_ID <$> filter P rows ↔ P r) as Hf.
  { intros P HP. rewrite list_elem_of_fmap. split.
    - intros (r' & Heq & [HPr Hin]%list_elem_of_filter). by rewrite <- (Huniq r' Hin).
    - intros HPr. exists r. split; [done|]. by apply list_elem_of_filter. }
  assert (NoDup ((λ e, rl_ID (ce_Rule e)) <$>
           (compile_entry <$> (filter (to_insert m) rows ++ filter (to_update m) rows)))) as Hnd2.
  { rewrite <- list_fmap_compose. change ((λ e, rl_ID (ce_Rule e)) ∘ compile_entry) with rl_ID.
    rewrite fmap_app. apply NoDup_app. split_and!.
    - eapply sublist_NoDup; [exact Hnd|]. apply fmap_sublist, sublist_filter.
    - intros id (a & -> & [[_ Ha] _]%list_elem_of_filter)%list_elem_of_fmap
             (b & Heq & [[_ Hb] _]%list_elem_of_filter)%list_elem_of_fmap.
      rewrite <- Heq, Ha in Hb. done.
    - eapply sublist_NoDup; [exact Hnd|]. apply fmap_sublist, sublist_filter. }
  case_decide as Hrem; rewrite Hf in Hrem.
  { destruct Hrem as [Hs _]. by rewrite bool_decide_false. }
  assert (to_insert m r ∨ to_update m r → put_rules (compile_entry <$>
    (filter (to_insert m) rows ++ filter (to_update m) rows)) m !! rl_ID r = Some (compile_entry r)) as Hput.
  { intros Hiu. apply (put_rules_in _ m (compile_entry r)); [exact Hnd2|].
    apply list_elem_of_fmap_2, elem_of_app. rewrite !list_elem_of_filter. tauto. }
  assert (¬ to_insert m r → ¬ to_update m r → put_rules (compile_entry <$>
    (filter (to_insert m) rows ++ filter (to_update m) rows)) m !! rl_ID r = m !! rl_ID r) as Hkeep.
  { intros Hni Hnu. apply put_rules_notin. rewrite <- list_fmap_compose.
    change ((λ e, rl_ID (ce_Rule e)) ∘ compile_entry) with rl_ID.
    rewrite fmap_app, elem_of_app, !Hf. tauto. }
  unfold to_insert, to_update, to_remove in *. case_bool_decide as Hs.
  - destruct (m !! rl_ID r) as [e|] eqn:El; [|by apply Hput; left].
    destruct (Z.ltb_spec (rl_UpdatedAt (ce_Rule e)) (rl_UpdatedAt r)); [by apply Hput; right|].
    apply Hkeep; [naive_solver|intros [_ ?]; lia].
  - destruct (m !! rl_ID r) as [e|] eqn:El; [destruct Hrem; split; [done|by exists e]|].
    apply Hkeep; naive_solver.
Qed.

Lemma applied_other m rows id : id ∉ rl_ID <$> rows → applied m rows !! id = m !! id.
Proof.
  intros Hid. unfold applied. rewrite delete_all_lookup, decide_False.
  - apply put_rules_notin. rewrite <- list_fmap_compose.
    change ((λ e, rl_ID (ce_Rule e)) ∘ compile_entry) with rl_ID.
    rewrite fmap_app, elem_of_app. intros [Hin|Hin]; apply Hid;
      apply list_elem_of_fmap in Hin as (r & -> & [_ Hr]%list_elem_of_filter); by apply list_elem_of_fmap_2.
  - intros (r & -> & [_ Hr]%list_elem_of_filter)%list_elem_of_fmap. apply Hid. by apply list_elem_of_fmap_2.
Qed.

End Apply.

(** ** Commands and polls interleaved *)

Section System.
Context `{CelLib} (tenant : string) (config : WorkerConfig) (lag : Z).

(** A query whose rows have been read at [fl_at] but not applied yet. *)
Inductive flight :=
  | Polling (rows : list Rule) (at_ : time)
  | Warming (rows : list Rule) (at_ : time).

Record system := {
  sy_db : RuleDB;
  sy_cache : RuleCache;
  sy_lastSync : time;
  sy_flight : option flight;
  sy_clock : time }.

Definition at_rest (db : RuleDB) (c : RuleCache) (lastSync clock : time) : system :=
  {| sy_db := db; sy_cache := c; sy_lastSync := lastSync; sy_flight := None; sy_clock := clock |}.

(** The steps of a process with its worker and of the other processes.  A command
    becomes visible within [lag] of the time it writes, and commands on one rule do
    not overlap: the row it finds is older.  A poll ends soon enough after its query
    for the overlap to cover what was committed meanwhile. *)
Inductive sync_step (s : system) : system → Prop :=
  | step_tick clock :
      sy_clock s ≤ clock →
      sync_step s {| sy_db := sy_db s; sy_cache := sy_cache s; sy_lastSync := sy_lastSync s;
                     sy_flight := sy_flight s; sy_clock := clock |}
  | step_command flt cmd now (here : bool) st' c' res :
      sy_clock s - lag ≤ now ≤ sy_clock s → 0 ≤ now →
      (∀ row, rd_rules (sy_db s) !! target cmd = Some row → rl_UpdatedAt row < now) →
      run_command (sy_db s) (sy_cache s) tenant flt cmd now = (st', c', res) →
      sync_step s {| sy_db := st'; sy_cache := if here then c' else sy_cache s;
                     sy_lastSync := sy_lastSync s; sy_flight := sy_flight s; sy_clock := sy_clock s |}
  | step_poll order :
      sy_flight s = None → (∀ l, order l ≡ₚ l) →
      sync_step s {| sy_db := sy_db s; sy_cache := sy_cache s; sy_lastSync := sy_lastSync s;
                     sy_flight := Some (Polling (GetRulesUpdatedSince order (sy_db s)
                                         (poll_since config (sy_lastSync s))) (sy_clock s));
                     sy_clock := sy_clock s |}
  | step_poll_fails : (* the pool, the query or the circuit breaker *)
      sync_step s (at_rest (sy_db s) (sy_cache s) (sy_lastSync s) (sy_clock s))
  | step_apply rows at_ :
      sy_flight s = Some (Polling rows at_) → sy_clock s - at_ + lag ≤ wc_OverlapBuffer config →
      sync_step s (at_rest (sy_db s) (finish_cycle (sy_cache s) tenant (sy_lastSync s) (Ok rows) (sy_clock s)).1
                     (finish_cycle (sy_cache s) tenant (sy_lastSync s) (Ok rows) (sy_clock s)).2 (sy_clock s))
  | step_warm order :
      sy_flight s = None → (∀ l, order l ≡ₚ l) →
      sync_step s {| sy_db := sy_db s; sy_cache := sy_cache s; sy_lastSync := sy_lastSync s;
                     sy_flight := Some (Warming (GetAllActiveRules order (sy_db s)) (sy_clock s));
                     sy_clock := sy_clock s |}
  | step_warmed rows at_ c' n :
      sy_flight s = Some (Warming rows at_) → sy_clock s - at_ + lag ≤ wc_OverlapBuffer config →
      WarmUp (sy_cache s) tenant (Ok rows) (sy_clock s) = (c', Ok n) →
      sync_step s (at_rest (sy_db s) c' (LastSyncTime c' tenant) (sy_clock s)).

(** A process starts with an empty cache on whatever table it finds. *)
Definition starts (s : system) : Prop :=
  db_wf (sy_db s) ∧ (∀ id row, rd_rules (sy_db s) !! id = Some row → 0 ≤ rl_UpdatedAt row ≤ sy_clock s) ∧
  bucket (sy_cache s) tenant = ∅ ∧ sy_lastSync s = 0 ∧ 0 ≤ sy_clock s ∧ sy_flight s = None.

Inductive runs : system → Prop :=
  | runs_start s : starts s → runs s
  | runs_step s s' : runs s → sync_step s s' → runs s'.

(** The cache serves for a rule what the table holds. *)
Definition fresh_entry (m : gmap uuid CachedRule) (id : uuid) (row : Rule) : Prop :=
  if bool_decide (rl_Status row = RuleStatusActive)
  then ∃ e, m !! id = Some e ∧ entry_for e row
  else m !! id = None.

(** What was read for a rule: its row as it is, or an older version of a row that
    changed since the query. *)
Definition read_ok (db : RuleDB) (at_ : time) (r : Rule) : Prop :=
  ∃ row, rd_rules db !! rl_ID r = Some row ∧
    (r = row ∨ rl_UpdatedAt r < rl_UpdatedAt row ∧ at_ - lag ≤ rl_UpdatedAt row).

Definition rows_ok (db : RuleDB) (at_ : time) (wanted : Rule → Prop) (rows : list Rule) : Prop :=
  NoDup (rl_ID <$> rows) ∧ Forall (read_ok db at_) rows ∧
  Forall (λ r, 0 ≤ rl_UpdatedAt r ≤ at_) rows ∧
  (∀ id row, rd_rules db !! id = Some row → wanted row → row ∈ rows ∨ at_ - lag ≤ rl_UpdatedAt row).

Definition live_row (r : Rule) : Prop := rl_Status r = RuleStatusActive ∧ rl_DeletedAt r = None.

Record sync_inv (s : system) : Prop := {
  inv_db : db_wf (sy_db s);
  inv_times : ∀ id row, rd_rules (sy_db s) !! id = Some row → 0 ≤ rl_UpdatedAt row ≤ sy_clock s;
  inv_cache : ∀ id e, bucket (sy_cache s) tenant !! id = Some e →
    ∃ row, rd_rules (sy_db s) !! id = Some row ∧ rl_UpdatedAt (ce_Rule e) ≤ rl_UpdatedAt row ∧
      (rl_UpdatedAt (ce_Rule e) = rl_UpdatedAt row → entry_for e row);
  inv_last : sy_lastSync s ≤ sy_clock s;
  inv_stale : ∀ id row, rd_rules (sy_db s) !! id = Some row →
    fresh_entry (bucket (sy_cache s) tenant) id row ∨
    poll_since config (sy_lastSync s) ≤ rl_UpdatedAt row;
  inv_flight : match sy_flight s with
    | None => True
    | Some (Polling rows at_) => at_ ≤ sy_clock s ∧
        rows_ok (sy_db s) at_ (λ r, poll_since config (sy_lastSync s) ≤ rl_UpdatedAt r) rows
    | Some (Warming rows at_) => at_ ≤ sy_clock s ∧ rows_ok (sy_db s) at_ live_row rows ∧
        Forall live_row rows
    end }.

(** *** The rows of a query *)

Lemma table_ids (db : RuleDB) : db_wf db →
  rl_ID <$> (map_to_list (rd_rules db)).*2 = (map_to_list (rd_rules db)).*1.
Proof.
  intros Hwf. rewrite <- list_fmap_compose. apply list_fmap_ext. intros i [id r] Hi. cbn.
  apply list_elem_of_lookup_2, elem_of_map_to_list in Hi. by destruct (Hwf _ _ Hi).
Qed.

Lemma query_rows_ok db at_ (P : Rule → Prop) `{∀ r, base.Decision (P r)} order :
  db_wf db → (∀ id row, rd_rules db !! id = Some row → 0 ≤ rl_UpdatedAt row ≤ at_) →
  (∀ l, order l ≡ₚ l) →
  rows_ok db at_ P (order (filter P (map_to_list (rd_rules db)).*2)) ∧
  Forall P (order (filter P (map_to_list (rd_rules db)).*2)).
Proof.
  intros Hwf Ht Hp.
  assert (∀ r, r ∈ order (filter P (map_to_list (rd_rules db)).*2) →
               P r ∧ rd_rules db !! rl_ID r = Some r) as Hin.
  { intros r Hr. rewrite Hp in Hr. apply list_elem_of_filter in Hr as [HP Hr].
    apply list_elem_of_fmap in Hr as ([id r'] & -> & Hr). apply elem_of_map_to_list in Hr. cbn in *.
    split; [done|]. by rewrite (row_id _ _ (Hwf _ _ Hr)). }
  split; [|apply Forall_forall; intros r Hr; by apply Hin].
  split_and!; [|apply Forall_forall; intros r Hr; apply Hin in Hr as [HP Hr]..|].
  - rewrite Hp. eapply sublist_NoDup; [|apply fmap_sublist, sublist_filter].
    rewrite table_ids by done. apply NoDup_fst_map_to_list.
  - exists r. auto.
  - eauto.
  - intros id row Hr HP. left. rewrite Hp. apply list_elem_of_filter. split; [done|].
    apply list_elem_of_fmap. exists (id, row). split; [done|]. by apply elem_of_map_to_list.
Qed.

(** *** A command *)

Lemma rows_ok_command db at_ wanted rows id row' now :
  at_ - lag ≤ now → rl_UpdatedAt row' = now →
  (∀ row, rd_rules db !! id = Some row → rl_UpdatedAt row < now) →
  rows_ok db at_ wanted rows →
  ∀ au, rows_ok {| rd_rules := <[id := row']> (rd_rules db); rd_audit := au |} at_ wanted rows.
Proof.
  intros Hn Hu Hold (Hnd & Hr & Ht & Hw) au. split_and!; [done| |done|].
  - eapply Forall_impl; [exact Hr|]. intros r (row & Hrow & Hrr). unfold read_ok. cbn.
    destruct (decide (rl_ID r = id)) as [<-|Hne].
    + exists row'. rewrite lookup_insert_eq. split; [done|]. right.
      specialize (Hold _ Hrow). destruct Hrr as [->|[? ?]]; lia.
    + exists row. by rewrite lookup_insert_ne.
  - intros id' row Hrow Hwr. cbn in Hrow. destruct (decide (id' = id)) as [->|Hne].
    + rewrite lookup_insert_eq in Hrow. injection Hrow as <-. right. lia.
    + rewrite lookup_insert_ne in Hrow by done. eauto.
Qed.

Lemma entry_for_updated e row : entry_for e row → rl_UpdatedAt (ce_Rule e) = rl_UpdatedAt row.
Proof. intros [Hm _]. exact (f_equal sn_updatedAt Hm). Qed.

Lemma fresh_entry_ext m m' id row : m !! id = m' !! id → fresh_entry m id row → fresh_entry m' id row.
Proof. unfold fresh_entry. intros ->. done. Qed.

Lemma command_inv s flt cmd now (here : bool) st' c' res :
  0 ≤ lag ≤ wc_OverlapBuffer config → sync_inv s →
  sy_clock s - lag ≤ now ≤ sy_clock s → 0 ≤ now →
  (∀ row, rd_rules (sy_db s) !! target cmd = Some row → rl_UpdatedAt row < now) →
  run_command (sy_db s) (sy_cache s) tenant flt cmd now = (st', c', res) →
  sync_inv {| sy_db := st'; sy_cache := if here then c' else sy_cache s;
                sy_lastSync := sy_lastSync s; sy_flight := sy_flight s; sy_clock := sy_clock s |}.
Proof.
  intros Hlag [Hdb Ht Hc Hl Hst Hf] Hnow Hpos Hold E.
  destruct (run_command_effect tenant _ _ _ _ _ _ _ _ Hdb E) as [r|ev Hev|row' ev c1 Hr Hu Hev Ha Hfol].
  - destruct here; by split.
  - destruct here; (split; cbn; try done).
    all: destruct (sy_flight s) as [[]|]; done.
  - set (m := bucket (sy_cache s) tenant) in *.
    set (m' := bucket (if here then c1 else sy_cache s) tenant).
    assert (∀ id, id ≠ target cmd → m' !! id = m !! id) as Hother.
    { intros id Hid. subst m'. destruct here; [|done].
      destruct Hfol as [->|[(e & -> & _)|[-> _]]]; [done|by rewrite lookup_insert_ne|by rewrite lookup_delete_ne]. }
    split; cbn; fold m'.
    + intros id row Hrow. cbn in Hrow. destruct (decide (id = target cmd)) as [->|Hne].
      * rewrite lookup_insert_eq in Hrow. by injection Hrow as <-.
      * rewrite lookup_insert_ne in Hrow by done. eauto.
    + intros id row Hrow. destruct (decide (id = target cmd)) as [->|Hne].
      * rewrite lookup_insert_eq in Hrow. injection Hrow as <-. lia.
      * rewrite lookup_insert_ne in Hrow by done. eauto.
    + intros id e He. destruct (decide (id = target cmd)) as [->|Hne].
      2:{ rewrite Hother in He by done. rewrite lookup_insert_ne by done. eauto. }
      exists row'. rewrite lookup_insert_eq. split; [done|].
      assert (m !! target cmd = Some e → rl_UpdatedAt (ce_Rule e) < now) as Hkept.
      { intros Hme. destruct (Hc _ _ Hme) as (row & Hrow & Hle & _). specialize (Hold _ Hrow). lia. }
      subst m'. destruct here; [|apply Hkept in He; split; lia].
      destruct Hfol as [->|[(e' & Heq & Hef & _)|[Heq _]]].
      * apply Hkept in He. split; lia.
      * rewrite Heq, lookup_insert_eq in He. injection He as <-.
        pose proof (entry_for_updated _ _ Hef). split; [lia|done].
      * by rewrite Heq, lookup_delete_eq in He.
    + done.
    + intros id row Hrow. destruct (decide (id = target cmd)) as [->|Hne].
      * rewrite lookup_insert_eq in Hrow. injection Hrow as <-. right. unfold poll_since. lia.
      * rewrite lookup_insert_ne in Hrow by done. destruct (Hst _ _ Hrow) as [Hfr|?]; [left|by right].
        eapply fresh_entry_ext; [|exact Hfr]. by rewrite Hother.
    + destruct (sy_flight s) as [[rows at_|rows at_]|]; [destruct Hf as [? Hf]|destruct Hf as (? & Hf & ?)|done].
      * split; [done|]. apply (rows_ok_command _ _ _ _ _ _ now); [lia|done..].
      * split_and!; [done| |done]. apply (rows_ok_command _ _ _ _ _ _ now); [lia|done..].
Qed.

(** *** The end of a poll and of a warm-up *)

Lemma updateLastSync_le lastSync rows now :
  lastSync ≤ now → Forall (λ r, rl_UpdatedAt r ≤ now) rows → updateLastSync lastSync rows now ≤ now.
Proof.
  intros Hl Hr. unfold updateLastSync. case_bool_decide as Hne; [done|].
  set (mx := fold_left (λ m r, if time_After (rl_UpdatedAt r) m then rl_UpdatedAt r else m) rows lastSync).
  assert (mx ≤ now) as Hm.
  { subst mx. clear Hne. revert lastSync Hl. induction Hr as [|r rows Hle _ IH]; intros l Hl; [done|].
    cbn [fold_left]. apply IH. destruct (time_After (rl_UpdatedAt r) l); lia. }
  destruct (mx =? lastSync); lia.
Qed.

Lemma finish_cycle_last c lastSync rows now :
  lastSync ≤ now → Forall (λ r, rl_UpdatedAt r ≤ now) rows →
  (finish_cycle c tenant lastSync (Ok rows) now).2 ≤ now.
Proof.
  intros Hl Hr. unfold finish_cycle. destruct rows as [|r rows]; [done|].
  destruct (ChangeSet_IsEmpty _); by apply updateLastSync_le.
Qed.

(** The part of the invariant that relates a bucket to the table. *)
Definition bucket_ok (db : RuleDB) (m : gmap uuid CachedRule) : Prop := ∀ id e, m !! id = Some e →
  ∃ row, rd_rules db !! id = Some row ∧ rl_UpdatedAt (ce_Rule e) ≤ rl_UpdatedAt row ∧
    (rl_UpdatedAt (ce_Rule e) = rl_UpdatedAt row → entry_for e row).

Lemma entry_for_refl row : entry_for (compile_entry row) row.
Proof. done. Qed.

Lemma compiled_ok db at_ r : read_ok db at_ r →
  ∃ row, rd_rules db !! rl_ID r = Some row ∧ rl_UpdatedAt (ce_Rule (compile_entry r)) ≤ rl_UpdatedAt row ∧
    (rl_UpdatedAt (ce_Rule (compile_entry r)) = rl_UpdatedAt row → entry_for (compile_entry r) row).
Proof.
  intros (row & Hrow & [->|[? ?]]); exists row; cbn; (split; [done|]);
    [split; [lia|intros; apply entry_for_refl]|split; lia].
Qed.

Lemma applied_bucket_ok db at_ wanted m rows :
  bucket_ok db m → rows_ok db at_ wanted rows → bucket_ok db (applied m rows).
Proof.
  intros Hm (Hnd & Hr & _ & _) id e He. destruct (decide (id ∈ rl_ID <$> rows)) as [Hin|Hout].
  - apply list_elem_of_fmap in Hin as (r & -> & Hin). rewrite (applied_lookup m rows r Hnd Hin) in He.
    rewrite Forall_forall in Hr. specialize (Hr r Hin).
    case_bool_decide; [|done].
    destruct (m !! rl_ID r) as [e0|] eqn:E0; [destruct (_ <? _)|]; injection He as <-;
      eauto using compiled_ok.
  - rewrite applied_other in He by done. eauto.
Qed.

(** A row that was read, or that was served already and not read, is served. *)
Lemma applied_fresh db m rows row :
  db_wf db → bucket_ok db m → NoDup (rl_ID <$> rows) → rd_rules db !! rl_ID row = Some row → row ∈ rows →
  fresh_entry (applied m rows) (rl_ID row) row.
Proof.
  intros Hwf Hm Hnd Hrow Hin. unfold fresh_entry. rewrite (applied_lookup m rows row Hnd Hin).
  case_bool_decide; [|done].
  destruct (m !! rl_ID row) as [e|] eqn:E; [|eauto using entry_for_refl].
  destruct (Z.ltb_spec (rl_UpdatedAt (ce_Rule e)) (rl_UpdatedAt row)); [eauto using entry_for_refl|].
  destruct (Hm _ _ E) as (row1 & Hrow1 & Hle & Heq). rewrite Hrow in Hrow1. injection Hrow1 as <-.
  exists e. split; [done|]. apply Heq. lia.
Qed.

Lemma applied_stale db at_ wanted m rows id row :
  db_wf db → bucket_ok db m → rows_ok db at_ wanted rows → rd_rules db !! id = Some row →
  (fresh_entry m id row ∨ wanted row) →
  fresh_entry (applied m rows) id row ∨ at_ - lag ≤ rl_UpdatedAt row.
Proof.
  intros Hwf Hm (Hnd & Hr & _ & Hw) Hrow Hcase.
  pose proof (row_id _ _ (Hwf _ _ Hrow)) as <-.
  destruct (decide (rl_ID row ∈ rl_ID <$> rows)) as [Hin|Hout].
  - apply list_elem_of_fmap in Hin as (r & Hid & Hin). rewrite Forall_forall in Hr.
    destruct (Hr r Hin) as (row1 & Hrow1 & Hcmp). rewrite <- Hid, Hrow in Hrow1. injection Hrow1 as <-.
    destruct Hcmp as [->|[_ ?]]; [left|by right]. by eapply applied_fresh.
  - destruct Hcase as [Hfr|Hwant].
    + left. eapply fresh_entry_ext; [|exact Hfr]. by rewrite applied_other.
    + destruct (Hw _ _ Hrow Hwant) as [Hin|?]; [|by right]. destruct Hout. by apply list_elem_of_fmap_2.
Qed.

Lemma apply_inv s rows at_ :
  sync_inv s → sy_flight s = Some (Polling rows at_) →
  sy_clock s - at_ + lag ≤ wc_OverlapBuffer config →
  sync_inv
    (at_rest (sy_db s) (finish_cycle (sy_cache s) tenant (sy_lastSync s) (Ok rows) (sy_clock s)).1
       (finish_cycle (sy_cache s) tenant (sy_lastSync s) (Ok rows) (sy_clock s)).2 (sy_clock s)).
Proof.
  intros [Hdb Ht Hc Hl Hst Hf] Hfl Htime. rewrite Hfl in Hf. destruct Hf as [Hat Hrows].
  assert ((finish_cycle (sy_cache s) tenant (sy_lastSync s) (Ok rows) (sy_clock s)).2 ≤ sy_clock s) as Hlast.
  { apply finish_cycle_last; [done|]. destruct Hrows as (_ & _ & Hb & _).
    eapply Forall_impl; [exact Hb|]. cbn. lia. }
  split; cbn [sy_db sy_cache sy_lastSync sy_flight sy_clock at_rest]; try done.
  - rewrite finish_cycle_bucket. by eapply applied_bucket_ok.
  - intros id row Hrow. rewrite finish_cycle_bucket.
    destruct (applied_stale _ _ _ (bucket (sy_cache s) tenant) _ _ _ Hdb Hc Hrows Hrow (Hst _ _ Hrow))
      as [?|Hu]; [by left|right]. unfold poll_since. lia.
Qed.

Lemma compile_all_Ok rules l : compile_all rules = Ok l → l = compile_entry <$> rules.
Proof.
  revert l. induction rules as [|r rules IH]; intros l; cbn [compile_all]; [by intros [= <-]|].
  intros E. apply rbind_Ok in E as (p & Ep & E). apply rbind_Ok in E as (l' & El & [= <-]).
  cbn. f_equal; [|by apply IH]. unfold compile_entry. by rewrite Ep.
Qed.

Lemma warm_inv s rows at_ c' n :
  sync_inv s → sy_flight s = Some (Warming rows at_) →
  sy_clock s - at_ + lag ≤ wc_OverlapBuffer config →
  WarmUp (sy_cache s) tenant (Ok rows) (sy_clock s) = (c', Ok n) →
  sync_inv (at_rest (sy_db s) c' (LastSyncTime c' tenant) (sy_clock s)).
Proof.
  intros [Hdb Ht Hc Hl Hst Hf] Hfl Htime E. rewrite Hfl in Hf. destruct Hf as (Hat & Hrows & Hlive).
  unfold WarmUp in E. cbn [rbind] in E. destruct (compile_all rows) as [l|] eqn:El; [|done].
  apply compile_all_Ok in El as ->. injection E as <- <-.
  assert (bucket (MarkReady (SetRules (sy_cache s) tenant (compile_entry <$> rows) (sy_clock s)) tenant) tenant
          = put_rules (compile_entry <$> rows) ∅) as Hbk by (unfold SetRules; by rewrite bucket_MarkReady, bucket_store).
  assert (LastSyncTime (MarkReady (SetRules (sy_cache s) tenant (compile_entry <$> rows) (sy_clock s)) tenant) tenant
          = sy_clock s) as Hls by (unfold LastSyncTime; cbn; by rewrite lookup_insert_eq).
  destruct Hrows as (Hnd & Hr & Hb & Hw). rewrite Forall_forall in Hr, Hlive.
  assert (NoDup ((λ e, rl_ID (ce_Rule e)) <$> (compile_entry <$> rows))) as Hnd'
    by (by rewrite <- list_fmap_compose).
  assert (∀ r, r ∈ rows → put_rules (compile_entry <$> rows) ∅ !! rl_ID r = Some (compile_entry r)) as Hin.
  { intros r Hr'. apply (put_rules_in _ ∅ (compile_entry r) Hnd'). by apply list_elem_of_fmap_2. }
  assert (∀ id, id ∉ rl_ID <$> rows → put_rules (compile_entry <$> rows) ∅ !! id = None) as Hout.
  { intros id Hid. rewrite put_rules_notin; [apply lookup_empty|by rewrite <- list_fmap_compose]. }
  split; cbn [sy_db sy_cache sy_lastSync sy_flight sy_clock at_rest]; try done.
  - rewrite Hbk. intros id e He. destruct (decide (id ∈ rl_ID <$> rows)) as [Hi|Hi]; [|by rewrite Hout in He].
    apply list_elem_of_fmap in Hi as (r & -> & Hi). rewrite (Hin r Hi) in He. injection He as <-.
    eauto using compiled_ok.
  - rewrite Hls. lia.
  - rewrite Hbk, Hls. intros id row Hrow. pose proof (row_id _ _ (Hdb _ _ Hrow)) as <-.
    destruct (decide (rl_ID row ∈ rl_ID <$> rows)) as [Hid|Hid].
    + apply list_elem_of_fmap in Hid as (r & Hid & Hr'). destruct (Hr r Hr') as (row1 & Hrow1 & Hcmp).
      rewrite <- Hid, Hrow in Hrow1. injection Hrow1 as <-. unfold poll_since.
      destruct Hcmp as [->|[_ ?]]; [left|right; lia].
      unfold fresh_entry. destruct (Hlive row Hr') as [-> _]. rewrite bool_decide_true by done.
      rewrite (Hin row Hr'). eauto using entry_for_refl.
    + unfold fresh_entry. rewrite (Hout _ Hid). case_bool_decide as Hs; [right|by left].
      destruct (Hw _ _ Hrow) as [Hi|?]; [split; [done|by apply (row_live _ _ (Hdb _ _ Hrow))]|..].
      * destruct Hid. by apply list_elem_of_fmap_2.
      * unfold poll_since. lia.
Qed.

Lemma sync_inv_runs s :
  0 ≤ lag ≤ wc_OverlapBuffer config → runs s → sync_inv s.
Proof.
  intros Hlag. induction 1 as [s (Hdb & Ht & Hb & Hl & Hclk & Hf)|s s' _ IH Hstep].
  - split; [done|done|by rewrite Hb|by rewrite Hl|..].
    + intros id row Hrow. right. specialize (Ht _ _ Hrow). unfold poll_since. rewrite Hl. lia.
    + by rewrite Hf.
  - destruct Hstep as [clock Hc|flt cmd now here st' c' res Hn Hp Ho E|order Hf Hp| |rows at_ Hf Ht
                      |order Hf Hp|rows at_ c' n Hf Ht E].
    + destruct IH as [? Ht ? ? ? Hf]. split; cbn; try done; [|lia|].
      * intros id row Hr. specialize (Ht _ _ Hr). lia.
      * destruct (sy_flight s) as [[]|]; [|..]; naive_solver lia.
    + by eapply command_inv.
    + destruct IH as [? Ht ? ? ? _]. split; cbn; try done. split; [done|].
      apply (query_rows_ok (sy_db s) (sy_clock s) (λ r, poll_since config (sy_lastSync s) ≤ rl_UpdatedAt r)); done.
    + destruct IH. by split.
    + by eapply apply_inv.
    + destruct IH as [? Ht ? ? ? _]. split; cbn; try done. split; [done|].
      apply (query_rows_ok (sy_db s) (sy_clock s) live_row); done.
    + by eapply warm_inv.
Qed.

End System.

(** ** What the synchronisation guarantees *)

Section Guarantees.
Context `{CelLib} (tenant : string) (config : WorkerConfig) (lag : Z).

Lemma runSyncCycle_fresh s order id row :
  0 ≤ lag ≤ wc_OverlapBuffer config → runs tenant config lag s → (∀ l, order l ≡ₚ l) →
  rd_rules (sy_db s) !! id = Some row →
  fresh_entry (bucket (runSyncCycle config order (sy_db s) false false (sy_cache s) tenant
                         (sy_lastSync s) (sy_clock s)).1 tenant) id row.
Proof.
  intros Hlag Hruns Hp Hrow. destruct (sync_inv_runs _ _ _ _ Hlag Hruns) as [Hdb Ht Hc Hl Hst _].
  unfold runSyncCycle. rewrite finish_cycle_bucket.
  set (rows := GetRulesUpdatedSince _ _ _).
  destruct (query_rows_ok lag (sy_db s) (sy_clock s)
    (λ r, poll_since config (sy_lastSync s) ≤ rl_UpdatedAt r) order Hdb Ht Hp) as [(Hnd & _ & _ & _) _].
  assert (∀ r, r ∈ rows ↔ poll_since config (sy_lastSync s) ≤ rl_UpdatedAt r ∧
                          rd_rules (sy_db s) !! rl_ID r = Some r) as Hin.
  { intros r. subst rows. unfold GetRulesUpdatedSince. rewrite Hp, list_elem_of_filter, list_elem_of_fmap.
    split.
    - intros [Hu ([i r'] & -> & Hr%elem_of_map_to_list)]. cbn in *.
      by rewrite (row_id _ _ (Hdb _ _ Hr)).
    - intros [Hu Hr]. split; [done|]. exists (rl_ID r, r). by rewrite elem_of_map_to_list. }
  pose proof (row_id _ _ (Hdb _ _ Hrow)) as <-.
  destruct (decide (poll_since config (sy_lastSync s) ≤ rl_UpdatedAt row)) as [Hu|Hu].
  - eapply applied_fresh; [done|exact Hc|exact Hnd|done|]. by apply Hin.
  - destruct (Hst _ _ Hrow) as [Hfr|?]; [|done]. eapply fresh_entry_ext; [|exact Hfr].
    symmetry. apply applied_other. intros (r & Heq & Hr)%list_elem_of_fmap.
    apply Hin in Hr as [Hu' Hr]. rewrite <- Heq, Hrow in Hr. by injection Hr as ->.
Qed.

(** C17: Whatever commands, polls, failed polls and warm-ups a process and its peers
    interleave, if commands on one rule do not overlap and the delay of a change together
    with the duration of a poll or warm-up stays within the overlap of the polls: every rule the cache does not serve as the table has it is one the next poll reads, and
    no cached rule is newer than its row.  A poll with nothing between its query and its
    application leaves the cache serving exactly the active rules of the table; after a
    poll that a change of a peer overtakes, that change is left to the next poll. *)
Theorem rule_sync_never_misses s order
    (Hlag : 0 ≤ lag ≤ wc_OverlapBuffer config) (Hruns : runs tenant config lag s)
    (Hp : ∀ l, order l ≡ₚ l) :
  (∀ id row, rd_rules (sy_db s) !! id = Some row →
     fresh_entry (bucket (sy_cache s) tenant) id row ∨
     row ∈ GetRulesUpdatedSince order (sy_db s) (poll_since config (sy_lastSync s))) ∧
  (∀ id e, bucket (sy_cache s) tenant !! id = Some e →
     ∃ row, rd_rules (sy_db s) !! id = Some row ∧ rl_UpdatedAt (ce_Rule e) ≤ rl_UpdatedAt row) ∧
  (∀ id row, rd_rules (sy_db s) !! id = Some row →
     fresh_entry (bucket (runSyncCycle config order (sy_db s) false false (sy_cache s) tenant
                            (sy_lastSync s) (sy_clock s)).1 tenant) id row).
Proof.
  destruct (sync_inv_runs _ _ _ _ Hlag Hruns) as [Hdb Ht Hc Hl Hst _].
  split_and!.
  - intros id row Hrow. destruct (Hst _ _ Hrow) as [?|Hu]; [by left|right].
    unfold GetRulesUpdatedSince. rewrite Hp, list_elem_of_filter, list_elem_of_fmap.
    split; [done|]. exists (id, row). by rewrite elem_of_map_to_list.
  - intros id e He. destruct (Hc _ _ He) as (row & ? & ? & _). eauto.
  - intros id row Hrow. by apply runSyncCycle_fresh.
Qed.

(** *** Deciding from the cache *)

(** The active rules of the table, uncompiled, as a reference for the cache. *)
Definition table_rules (st : RuleDB) (_ : Scope) : result TracerError (list (option Rule)) :=
  Ok (Some <$> GetAllActiveRules (λ l, l) st).

Lemma entry_evaluates_like_row e row req :
  entry_for e row → rl_CompiledProgram row = None →
  Evaluate (with_program (ce_Rule e) (ce_Program e)) req = Evaluate row req ∧
  rl_Action (ce_Rule e) = rl_Action row ∧ rl_Scopes (ce_Rule e) = rl_Scopes row.
Proof.
  intros [Hm Hp] Hn. pose proof (f_equal sn_scopes Hm) as Hs. pose proof (f_equal sn_expression Hm) as Hx.
  pose proof (f_equal sn_action Hm) as Ha. cbn in Hs, Hx, Ha. split; [|done].
  unfold Evaluate. cbn. rewrite Hs, Hx, Hp, Hn. cbn. by destruct (cel_Compile _).
Qed.

Lemma out_of_scope_ok r req :
  RuleScopesMatch (rl_Scopes r) (Some (ToTransactionScope req)) = false → Evaluate r req = Ok false.
Proof. intros E. unfold Evaluate. by rewrite E. Qed.

Lemma present_Some (l : list Rule) : present (Some <$> l) = l.
Proof. unfold present. induction l as [|r l IH]; [done|]. cbn. by f_equal. Qed.

(** The bucket serves exactly the active rows. *)
Definition serves_table (st : RuleDB) (m : gmap uuid CachedRule) : Prop :=
  (∀ id row, rd_rules st !! id = Some row → fresh_entry m id row) ∧
  (∀ id e, m !! id = Some e → is_Some (rd_rules st !! id)).

Section Serving.
Context (st : RuleDB) (c : RuleCache) (corder : list CachedRule → list CachedRule) (req : ValidationRequest).
Context (Hdb : db_wf st) (Hserves : serves_table st (bucket c tenant)) (Hco : ∀ l, corder l ≡ₚ l).

Definition served : list Rule :=
  (λ e, with_program (ce_Rule e) (ce_Program e)) <$>
  Cache_GetActiveRules corder c tenant (Some (ToTransactionScope req)).

Lemma elem_of_served r :
  r ∈ served ↔ ∃ id e, bucket c tenant !! id = Some e ∧ r = with_program (ce_Rule e) (ce_Program e) ∧
                 RuleScopesMatch (rl_Scopes (ce_Rule e)) (Some (ToTransactionScope req)) = true.
Proof.
  unfold served, Cache_GetActiveRules. rewrite list_elem_of_fmap. split.
  - intros (e & -> & [Hsc He]%list_elem_of_filter). rewrite Hco in He.
    apply list_elem_of_fmap in He as ([id e'] & -> & He%elem_of_map_to_list). exists id, e'. by split_and!.
  - intros (id & e & He & -> & Hsc). exists e. split; [done|]. apply list_elem_of_filter. split; [done|].
    rewrite Hco. apply list_elem_of_fmap. exists (id, e). by rewrite elem_of_map_to_list.
Qed.

Lemma elem_of_active row :
  row ∈ GetAllActiveRules (λ l, l) st ↔
  ∃ id, rd_rules st !! id = Some row ∧ rl_Status row = RuleStatusActive.
Proof.
  unfold GetAllActiveRules. rewrite list_elem_of_filter, list_elem_of_fmap. split.
  - intros [[Hs _] ([id r] & -> & Hr%elem_of_map_to_list)]. by exists id.
  - intros (id & Hr & Hs). split; [split; [done|by apply (row_live _ _ (Hdb _ _ Hr))]|].
    exists (id, row). by rewrite elem_of_map_to_list.
Qed.

(** Every served rule is an active row, and every active row in scope is served. *)
Lemma served_row r : r ∈ served →
  ∃ row, row ∈ GetAllActiveRules (λ l, l) st ∧ Evaluate r req = Evaluate row req ∧ rl_Action r = rl_Action row.
Proof.
  intros (id & e & He & -> & Hsc)%elem_of_served. destruct (proj2 Hserves _ _ He) as [row Hrow].
  pose proof (proj1 Hserves _ _ Hrow) as Hfr. unfold fresh_entry in Hfr. case_bool_decide; [|congruence].
  destruct Hfr as (e' & He' & Hef). rewrite He in He'. injection He' as <-.
  destruct (entry_evaluates_like_row e row req Hef (row_plain _ _ (Hdb _ _ Hrow))) as (? & ? & ?).
  exists row. rewrite elem_of_active. naive_solver.
Qed.

Lemma row_served row : row ∈ GetAllActiveRules (λ l, l) st → Evaluate row req ≠ Ok false →
  ∃ r, r ∈ served ∧ Evaluate r req = Evaluate row req ∧ rl_Action r = rl_Action row.
Proof.
  intros (id & Hrow & Hs)%elem_of_active Hne. pose proof (proj1 Hserves _ _ Hrow) as Hfr.
  unfold fresh_entry in Hfr. rewrite bool_decide_true in Hfr by done. destruct Hfr as (e & He & Hef).
  destruct (entry_evaluates_like_row e row req Hef (row_plain _ _ (Hdb _ _ Hrow))) as (Hev & Ha & Hsc).
  exists (with_program (ce_Rule e) (ce_Program e)). split; [|done]. apply elem_of_served. exists id, e.
  split_and!; [done|done|]. rewrite Hsc.
  destruct (RuleScopesMatch _ _) eqn:E; [done|]. by apply out_of_scope_ok in E.
Qed.

Lemma served_says d : some_says req served d ↔ some_says req (GetAllActiveRules (λ l, l) st) d.
Proof.
  unfold some_says, holds. split.
  - intros (r & (row & Hin & Hev & Hac)%served_row & Hh & Ha). exists row. rewrite <- Hev, <- Hac. by split_and!.
  - intros (row & Hin & Hh & Ha). destruct (row_served row Hin) as (r & Hr & Hev & Hac).
    + intros E. by rewrite E in Hh.
    + exists r. rewrite Hev, Hac. by split_and!.
Qed.

Lemma served_fails :
  (∃ r, r ∈ served ∧ ∃ e, Evaluate r req = Err e) ↔
  (∃ r, r ∈ GetAllActiveRules (λ l, l) st ∧ ∃ e, Evaluate r req = Err e).
Proof.
  split.
  - intros (r & (row & Hin & Hev & _)%served_row & e & E). exists row. split; [done|]. exists e. congruence.
  - intros (row & Hin & e & E). destruct (row_served row Hin) as (r & Hr & Hev & _); [congruence|].
    exists r. split; [done|]. exists e. congruence.
Qed.

End Serving.

Lemma considered_all ec (l : list Rule) :
  cfg_MaxRulesPerRequest ec ≤ 0 ∨ Z.of_nat (length l) ≤ cfg_MaxRulesPerRequest ec →
  considered ec (Some <$> l) = l.
Proof.
  intros Hm. unfold considered. rewrite length_fmap.
  destruct (_ && _) eqn:E; [|apply present_Some]. bool_facts. lia.
Qed.

Lemma bucket_size st m : serves_table st m → (size m ≤ size (rd_rules st))%nat.
Proof.
  intros [_ Hm]. rewrite <- !size_dom. apply subseteq_size. intros id.
  rewrite !elem_of_dom. intros [e He]. by eapply Hm.
Qed.

Lemma cycle_serves s order :
  0 ≤ lag ≤ wc_OverlapBuffer config → runs tenant config lag s → (∀ l, order l ≡ₚ l) →
  serves_table (sy_db s) (bucket (runSyncCycle config order (sy_db s) false false (sy_cache s) tenant
                                    (sy_lastSync s) (sy_clock s)).1 tenant).
Proof.
  intros Hlag Hruns Hp. split; [intros id row Hrow; by apply runSyncCycle_fresh|].
  destruct (sync_inv_runs _ _ _ _ Hlag Hruns) as [Hdb Ht Hc Hl Hst _].
  unfold runSyncCycle. rewrite finish_cycle_bucket. intros id e He.
  eapply applied_bucket_ok in He as (row & Hrow & _); [by exists row|exact Hc|].
  by apply (query_rows_ok lag (sy_db s) (sy_clock s)
              (λ r, poll_since config (sy_lastSync s) ≤ rl_UpdatedAt r) order).
Qed.

Lemma cycle_ready s order :
  IsReady (runSyncCycle config order (sy_db s) false false (sy_cache s) tenant
             (sy_lastSync s) (sy_clock s)).1 tenant = true.
Proof.
  unfold runSyncCycle, finish_cycle, IsReady. destruct (GetRulesUpdatedSince _ _ _) as [|r l];
    [|destruct (ChangeSet_IsEmpty _)]; cbn; by rewrite lookup_insert_eq.
Qed.

(** C21: After a poll with nothing between its query and its application, the validation
    path decides from the cache as it would from the active rules of the table: it fails
    where they fail, and otherwise reaches the same decision, whatever order the cache
    iterates in.  The rules of the table are no more than the engine considers for a
    request (MaxRulesPerRequest, or that is not set; [truncated_decision_depends_on_order]
    shows what happens otherwise), the default decision is valid, and commands and
    polls are as for the synchronisation itself ([runs]). *)
Theorem synced_cache_decides_like_table s order corder ec req
    (Hlag : 0 ≤ lag ≤ wc_OverlapBuffer config) (Hruns : runs tenant config lag s)
    (Hp : ∀ l, order l ≡ₚ l) (Hco : ∀ l, corder l ≡ₚ l)
    (Hmax : cfg_MaxRulesPerRequest ec ≤ 0 ∨
            Z.of_nat (size (rd_rules (sy_db s))) ≤ cfg_MaxRulesPerRequest ec)
    (Hdef : Decision_IsValid (cfg_DefaultDecisionWhenNoMatch ec) = true) :
  match EvaluateRules ec (λ _, false) (Adapter_GetActiveRules corder
          (runSyncCycle config order (sy_db s) false false (sy_cache s) tenant
             (sy_lastSync s) (sy_clock s)).1 tenant) req,
        EvaluateRules ec (λ _, false) (table_rules (sy_db s)) req with
  | Ok r, Ok r' => er_Decision r = er_Decision r'
  | Err _, Err _ => True
  | _, _ => False
  end.
Proof.
  pose proof (cycle_serves s order Hlag Hruns Hp) as Hs. pose proof (cycle_ready s order) as Hready.
  set (c := (runSyncCycle _ _ _ _ _ _ _ _ _).1) in *.
  destruct (sync_inv_runs _ _ _ _ Hlag Hruns) as [Hdb _ _ _ _ _].
  set (load := Adapter_GetActiveRules corder c tenant).
  assert (load (ToTransactionScope req) = Ok (Some <$> served c corder req)) as Hload.
  { subst load. unfold Adapter_GetActiveRules, served. rewrite Hready. cbn [negb].
    by rewrite <- list_fmap_compose. }
  assert (length (served c corder req) ≤ size (rd_rules (sy_db s)))%nat as Hlen.
  { etransitivity; [|by apply bucket_size]. unfold served, Cache_GetActiveRules. rewrite length_fmap.
    etransitivity; [apply length_filter|]. rewrite Hco, length_fmap. by rewrite length_map_to_list. }
  assert (length (GetAllActiveRules (λ l, l) (sy_db s)) ≤ size (rd_rules (sy_db s)))%nat as Hlen'.
  { unfold GetAllActiveRules. etransitivity; [apply length_filter|].
    by rewrite length_fmap, length_map_to_list. }
  pose proof (considered_all ec (served c corder req) ltac:(lia)) as Hc1.
  pose proof (considered_all ec (GetAllActiveRules (λ l, l) (sy_db s)) ltac:(lia)) as Hc2.
  destruct (evaluate_rules_outcome ec (λ _, false) load req _ Hload Hdef)
    as [[(r & Hr & [?|Hbad]) [e ->]]|(res & Er & Hd & Hm & _)]; [done|..];
  destruct (evaluate_rules_outcome ec (λ _, false) (table_rules (sy_db s)) req _ eq_refl Hdef)
    as [[(r' & Hr' & [?|Hbad']) [e' ->]]|(res' & Er' & Hd' & Hm' & _)]; try done.
  - destruct (evaluate_rules_fails ec (λ _, false) (table_rules (sy_db s)) req _ eq_refl) as [e' E'];
      [|congruence]. rewrite Hc1 in Hr. rewrite Hc2.
    destruct (proj1 (served_fails _ _ corder req Hdb Hs Hco)) as (r' & Hr' & Hb'); eauto.
  - destruct (evaluate_rules_fails ec (λ _, false) load req _ Hload) as [e E'];
      [|congruence]. rewrite Hc2 in Hr'. rewrite Hc1.
    destruct (proj2 (served_fails _ _ corder req Hdb Hs Hco)) as (r & Hr & Hb); eauto.
  - rewrite Er, Er'. rewrite Hc1 in Hd. rewrite Hc2 in Hd'. unfold decided in Hd, Hd'.
    rewrite !(served_says _ _ corder _ Hdb Hs Hco) in Hd. intuition congruence.
Qed.

End Guarantees.

(** ** Divergences *)

Section Divergences.
Context `{CelLib} (tenant : string).

(** A successful activation of a rule that was not active. *)
Lemma ActivateRule_changed st c flt id now st' c' r row :
  db_wf st → rd_rules st !! id = Some row → rl_Status row ≠ RuleStatusActive →
  ActivateRule st c tenant flt id now = (st', c', Ok r) →
  ∃ p, Rule_SetStatus row RuleStatusActive now = Ok r ∧ rl_ID r = id ∧
    c' = MarkReady (UpsertRule c tenant r (Some p) now) tenant ∧
    rd_rules st' = <[id := as_row r (rl_CreatedAt row) (rl_ActivatedAt row) (rl_DeactivatedAt row) None]>
                     (rd_rules st).
Proof.
  intros Hwf Hrow Hs E. unfold ActivateRule in E.
  destruct (rbind _ _) as [[rule o]|e] eqn:Ep; [|done].
  apply rbind_Ok in Ep as (r0 & [Hr0 _]%Rule_GetByID_Ok & Ep). rewrite Hrow in Hr0. injection Hr0 as <-.
  apply rbind_Ok in Ep as (o' & Eo & [= <- ->]). unfold prepare_activate in Eo.
  case_bool_decide; [done|]. rewrite bool_decide_false in Eo by done.
  apply rbind_Ok in Eo as (p & _ & Eo). apply rbind_Ok in Eo as (r' & Es & [= <-]).
  pose proof Es as (E1 & _)%SetStatus_fields; [|done]. rewrite (row_id _ _ (Hwf _ _ Hrow)) in E1.
  destruct (persist_rule _ _ _ _ _) as [st1 r1] eqn:Et.
  apply tx_outcome in Et as [[-> [? ->]]|(db' & Ew & -> & ->)]; [done|]. injection E as <- <- <-.
  apply UpdateWithTx_Ok in Ew as (row1 & Hrow1 & _ & ->). rewrite E1, Hrow in Hrow1. injection Hrow1 as <-.
  exists p. cbn. by rewrite E1.
Qed.

(** Activating a rule opens the readiness gate of a cache that was never filled: the
    other active rules of the table are not enforced until the first poll. *)
Theorem activation_opens_partial_cache st c flt id now st' c' r row other orow
    (Hcold : bucket c tenant = ∅) (Hwf : db_wf st)
    (Hrow : rd_rules st !! id = Some row) (Hdraft : rl_Status row ≠ RuleStatusActive)
    (Hother : rd_rules st !! other = Some orow) (Hactive : rl_Status orow = RuleStatusActive)
    (E : ActivateRule st c tenant flt id now = (st', c', Ok r)) :
  IsReady c' tenant = true ∧ bucket c' tenant !! other = None ∧ rd_rules st' !! other = Some orow.
Proof.
  destruct (ActivateRule_changed _ _ _ _ _ _ _ _ _ Hwf Hrow Hdraft E) as (p & _ & Hid & -> & ->).
  assert (id ≠ other) as Hne by congruence.
  split_and!; [unfold IsReady; cbn; by rewrite lookup_insert_eq| |by rewrite lookup_insert_ne].
  unfold UpsertRule, ApplyChanges. rewrite bucket_MarkReady, bucket_store, Hcold. cbn.
  rewrite Hid. by rewrite lookup_insert_ne.
Qed.

(** The time of activation the command returns is not stored: the UPDATE does not set
    the column. *)
Theorem activation_date_not_stored st c flt id now st' c' r row
    (Hwf : db_wf st) (Hrow : rd_rules st !! id = Some row) (Hnew : rl_ActivatedAt row = None)
    (Hdraft : rl_Status row ≠ RuleStatusActive)
    (E : ActivateRule st c tenant flt id now = (st', c', Ok r)) :
  rl_ActivatedAt r = Some now ∧
  ∃ row', rd_rules st' !! id = Some row' ∧ rl_Status row' = RuleStatusActive ∧ rl_ActivatedAt row' = None.
Proof.
  destruct (ActivateRule_changed _ _ _ _ _ _ _ _ _ Hwf Hrow Hdraft E) as (p & Es & _ & _ & ->).
  unfold Rule_SetStatus in Es. cbn [RuleStatus_IsValid negb] in Es. rewrite bool_decide_false in Es by done.
  destruct (CanTransitionTo _ _); [|done]. injection Es as <-.
  split; [done|]. eexists. rewrite lookup_insert_eq. by split_and!.
Qed.

(** Commands read the rule before their transaction and write every column: an update
    that read an active rule makes it active again after a deactivation that committed
    in between. *)
Theorem stale_update_reactivates st c flt flt' id input rule rule' now now' st1 c1 r1 st2
    (Hwf : db_wf st)
    (Hread : Rule_GetByID st false id = Ok rule) (Hactive : rl_Status rule = RuleStatusActive)
    (Hprep : prepare_update rule input now = Ok rule')
    (Hdeact : DeactivateRule st c tenant flt id now' = (st1, c1, Ok r1))
    (Hwrite : persist_rule st1 flt' AuditEventRuleUpdated rule rule' = (st2, Ok tt)) :
  (∃ row, rd_rules st1 !! id = Some row ∧ rl_Status row = RuleStatusInactive) ∧
  (∃ row, rd_rules st2 !! id = Some row ∧ rl_Status row = RuleStatusActive).
Proof.
  apply Rule_GetByID_Ok in Hread as [Hrow Hd]. pose proof (row_id _ _ (Hwf _ _ Hrow)) as Hid.
  split.
  - unfold DeactivateRule, change_status in Hdeact.
    destruct (rbind _ _) as [[r o]|e] eqn:Ep; [|done].
    apply rbind_Ok in Ep as (r0 & [Hr0 _]%Rule_GetByID_Ok & Ep). rewrite Hrow in Hr0. injection Hr0 as <-.
    apply rbind_Ok in Ep as (o' & Eo & [= <- ->]). unfold prepare_status in Eo.
    rewrite bool_decide_false in Eo by congruence.
    apply rbind_Ok in Eo as (r' & Es & [= <-]). apply SetStatus_fields in Es as (E1 & _ & _ & E4 & _); [|congruence].
    destruct (persist_rule _ _ _ _ _) as [st' res] eqn:Et.
    apply tx_outcome in Et as [[-> [? ->]]|(db' & Ew & -> & ->)]; [done|]. injection Hdeact as <- <- <-.
    apply UpdateWithTx_Ok in Ew as (row1 & _ & _ & ->). cbn. rewrite E1, Hid, lookup_insert_eq. eauto.
  - assert (rl_ID rule' = id ∧ rl_Status rule' = RuleStatusActive) as [E1 E2].
    { apply prepare_update_fields in Hprep as [->|(? & _ & _ & ?)]; split; congruence. }
    apply tx_outcome in Hwrite as [[_ [? ?]]|(db' & Ew & _ & ->)]; [done|].
    apply UpdateWithTx_Ok in Ew as (row1 & _ & _ & ->). cbn. rewrite E1, lookup_insert_eq. eauto.
Qed.

End Divergences.

(** ** Samples *)

Module SyncSample.
Import TracerSample RuleSample.
#[local] Existing Instances Fixed.lib Numbered.lib.

Definition ok : cmd_faults := {| cf_read := false; cf_tx := no_faults |}.
Definition empty_table : RuleDB := {| rd_rules := ∅; rd_audit := [] |}.
Definition cfg : WorkerConfig := DefaultRuleSyncWorkerConfig.

Definition big_input : CreateRuleInput := {|
  cri_Name := "Big  amounts"; cri_Description := ""; cri_Expression := "amount > 100";
  cri_Action := DecisionDeny; cri_Scopes := [acct_scope 7] |}.

Definition after (st : RuleDB) (c : RuleCache) (cmd : command) (now : time) : RuleDB * RuleCache :=
  (run_command st c "" ok cmd now).1.

Lemma after_eq st c cmd now :
  run_command st c "" ok cmd now =
  ((after st c cmd now).1, (after st c cmd now).2, (run_command st c "" ok cmd now).2).
Proof. unfold after. by destruct (run_command st c "" ok cmd now) as [[] ?]. Qed.

(** Another process creates a rule at noon and activates it a second later. *)
Definition created : RuleDB := (after empty_table NewRuleCache (CmdCreate (id 1) (Some big_input)) noon).1.
Definition activated : RuleDB := (after created NewRuleCache (CmdActivate (id 1)) (noon + Second)).1.

Definition sys (db : RuleDB) (clock : time) : system := at_rest db NewRuleCache 0 clock.

Definition updated_at (db : RuleDB) (i : nat) : option time := rl_UpdatedAt <$> rd_rules db !! id i.

Lemma nothing_there i r : rd_rules empty_table !! i = Some r → False.
Proof. intros Hr. unfold empty_table, rd_rules in Hr. by rewrite lookup_empty in Hr. Qed.

Lemma empty_wf : db_wf empty_table.
Proof. intros i r Hr. exfalso. exact (nothing_there i r Hr). Qed.

Lemma activated_runs : runs "" cfg Second (sys activated (noon + Second)).
Proof.
  apply (runs_step _ _ _ (sys created (noon + Second)));
    [apply (runs_step _ _ _ (sys created noon));
       [apply (runs_step _ _ _ (sys empty_table noon)); [apply runs_start|]|]|].
  - split_and!; [apply empty_wf| |reflexivity|reflexivity|vm_compute; discriminate|reflexivity].
    intros i r Hr. exfalso. exact (nothing_there i r Hr).
  - apply (step_command "" cfg Second (sys empty_table noon) ok (CmdCreate (id 1) (Some big_input)) noon
             false _ _ _) with (4 := after_eq _ _ _ _);
      [cbn [sys at_rest sy_clock]; unfold Second; lia|vm_compute; discriminate|].
    intros r Hr. exfalso. exact (nothing_there _ r Hr).
  - apply (step_tick "" cfg Second (sys created noon)). cbn [sys at_rest sy_clock]. unfold Second. lia.
  - apply (step_command "" cfg Second (sys created (noon + Second)) ok (CmdActivate (id 1)) (noon + Second)
             false _ _ _) with (4 := after_eq _ _ _ _);
      [cbn [sys at_rest sy_clock]; unfold Second; lia|vm_compute; discriminate|].
    intros r Hr. assert (updated_at created 1 = Some noon) as E by (vm_compute; reflexivity).
    unfold updated_at in E. cbn [target] in Hr. cbn [sys at_rest sy_db] in Hr. rewrite Hr in E.
    injection E as ->. unfold Second. lia.
Qed.

Lemma rule_sync_never_misses_witness :
  ∃ row, rd_rules activated !! id 1 = Some row ∧
    fresh_entry (bucket (runSyncCycle cfg (λ l, l) activated false false NewRuleCache "" 0
                           (noon + Second)).1 "") (id 1) row.
Proof.
  assert (updated_at activated 1 = Some (noon + Second)) as E by (vm_compute; reflexivity).
  unfold updated_at in E. destruct (rd_rules activated !! id 1) as [row|] eqn:Er; [|discriminate E].
  exists row. split; [reflexivity|].
  destruct (rule_sync_never_misses "" cfg Second (sys activated (noon + Second)) (λ l, l)
              ltac:(split; vm_compute; discriminate) activated_runs ltac:(reflexivity)) as (_ & _ & Hf).
  exact (Hf (id 1) row Er).
Defined.

Lemma synced_cache_decides_like_table_witness :
  ∃ r r', EvaluateRules (config 0) (λ _, false) (Adapter_GetActiveRules (λ l, l)
            (runSyncCycle cfg (λ l, l) activated false false NewRuleCache "" 0 (noon + Second)).1 "")
            (request 500) = Ok r ∧
          EvaluateRules (config 0) (λ _, false) (table_rules activated) (request 500) = Ok r' ∧
          er_Decision r = er_Decision r' ∧ er_Decision r' = DecisionDeny.
Proof.
  pose proof (synced_cache_decides_like_table "" cfg Second (sys activated (noon + Second)) (λ l, l) (λ l, l)
    (config 0) (request 500) ltac:(split; vm_compute; discriminate) activated_runs ltac:(reflexivity)
    ltac:(reflexivity) ltac:(left; vm_compute; discriminate) ltac:(reflexivity)) as Hd.
  cbn [sys at_rest sy_db sy_cache sy_lastSync sy_clock] in Hd.
  assert ((let! r := EvaluateRules (config 0) (λ _, false) (table_rules activated) (request 500) in
           Ok (er_Decision r)) = Ok DecisionDeny) as Ht by (vm_compute; reflexivity).
  destruct (EvaluateRules _ _ (table_rules activated) _) as [r'|] eqn:E'; [|discriminate Ht].
  destruct (EvaluateRules _ _ (Adapter_GetActiveRules _ _ _) _) as [r|] eqn:E; [|destruct Hd].
  exists r, r'. split; [reflexivity|]. split; [reflexivity|]. split; [exact Hd|]. by injection Ht.
Defined.

Lemma rule_commands_audited_witness :
  ∃ ev, rd_audit created = [ev] ∧ ra_rule ev = id 1.
Proof.
  destruct (rule_commands_audited "" empty_table NewRuleCache ok (CmdCreate (id 1) (Some big_input)) noon
              _ _ _ empty_wf (after_eq _ _ _ _)) as (_ & _ & Hc).
  destruct Hc as (row & ev & _ & _ & Ha & Hr & _).
  - intros E. assert (updated_at created 1 = Some noon) as E' by (vm_compute; reflexivity).
    unfold updated_at, created in E'. rewrite E in E'. discriminate E'.
  - exists ev. split; [exact Ha|exact Hr].
Defined.

(** A poll that takes longer than the overlap loses a change: the query at noon sees
    nothing, a rule is activated at once, and the poll ends three seconds later; the
    next poll starts after the change. *)
Theorem slow_cycle_misses_change :
  GetRulesUpdatedSince (λ l, l) empty_table (poll_since cfg 0) = [] ∧
  (let '(c, lastSync) := finish_cycle NewRuleCache "" 0 (Ok []) (noon + 4 * Second) in
   rl_UpdatedAt <$> GetRulesUpdatedSince (λ l, l) activated (poll_since cfg lastSync) = [] ∧
   updated_at activated 1 = Some (noon + Second) ∧ Size c "" = 0%nat).
Proof.
  split; [vm_compute; reflexivity|].
  destruct (finish_cycle NewRuleCache "" 0 (Ok []) (noon + 4 * Second)) as [c l] eqn:E.
  assert (l = noon + 4 * Second ∧ Size c "" = 0%nat) as [-> Hs].
  { split; [apply (f_equal snd) in E; cbn [snd] in E; rewrite <- E|
            apply (f_equal fst) in E; cbn [fst] in E; rewrite <- E]; vm_compute; reflexivity. }
  split; [vm_compute; reflexivity|]. split; [vm_compute; reflexivity|exact Hs].
Qed.

End SyncSample.
