(* ===== verification/PgArray.v ===== *)
(** * Text form of PostgreSQL arrays

    The tracer stores lists of identifiers in columns of type UUID[] and reads and
    writes their text form itself: src/components/tracer/internal/adapters/postgres/
    types.go holds [StringArray] with its scanner and its printer, and
    transaction_validation_postgresql_model.go the simpler form for identifiers.  This
    file models both and shows when what is written is read back. *)

From stdpp Require Import base list strings sets.
From Stdlib Require Import ZArith Lia Ascii.
From S2P Require Import Prelude GoStrings CacheKeys.
Local Open Scope string_scope.
Local Open Scope list_scope.

Definition quote : ascii := ascii_of_nat 34.
Definition backslash : ascii := ascii_of_nat 92.
Definition comma : ascii := ","%char.

Inductive ArrayError := ErrIncompatibleType | ErrInvalidArrayFormat | ErrUnclosedQuote | ErrInvalidUUID.

(** ** Elements *)

(** [strings.ReplaceAll] of one byte. *)
Fixpoint replace_char (c : ascii) (by_ s : string) : string :=
  match s with
  | EmptyString => ""
  | String a s' => (if bool_decide (a = c) then by_ else String a "") +:+ replace_char c by_ s'
  end.

Definition special (a : ascii) : bool :=
  bool_decide (a ∈ ["{"%char; "}"%char; comma; quote; backslash; " "%char;
                    ascii_of_nat 9; ascii_of_nat 10; ascii_of_nat 13]).

Definition quoteArrayElement (s : string) : string :=
  if bool_decide (s = "") || negb (all_chars (λ a, negb (special a)) s) then
    String quote (replace_char quote (String backslash (String quote ""))
                    (replace_char backslash (String backslash (String backslash "")) s)
                  +:+ String quote "")
  else s.

(** The sentinel for SQL NULL. *)
Definition NullString : string := String "000" ("NULL" +:+ String "000" "").

(** [s[1 : len(s)-1]] *)
Fixpoint but_last (s : string) : string :=
  match s with
  | EmptyString | String _ EmptyString => ""
  | String a s' => String a (but_last s')
  end.
Definition inner (s : string) : string := match s with EmptyString => "" | String _ s' => but_last s' end.

Fixpoint last_char (s : string) : option ascii :=
  match s with
  | EmptyString => None
  | String a EmptyString => Some a
  | String _ s' => last_char s'
  end.

(** At least two bytes, the first and the last being [a] and [b]. *)
Definition enclosed (a b : ascii) (s : string) : bool :=
  (2 <=? String.length s)%nat && bool_decide (String.get 0 s = Some a) && bool_decide (last_char s = Some b).

(** The single-pass replacer of [unquoteElement]. *)
Fixpoint unescape (s : string) : string :=
  match s with
  | EmptyString => ""
  | String a s' =>
      match s' with
      | String b s'' =>
          if bool_decide (a = backslash) && bool_decide (b = quote ∨ b = backslash)
          then String b (unescape s'') else String a (unescape s')
      | EmptyString => String a ""
      end
  end.

Definition unquoteElement (s : string) : string :=
  if bool_decide (s = "NULL") then NullString else
  if enclosed quote quote s then unescape (inner s) else s.

(** ** Lists *)

(** The loop of [parseArrayElements]; [current] is the builder. *)
Fixpoint parse_elements (content current : string) (elems : list string) (inQuotes escaped : bool)
    : result ArrayError (list string) :=
  match content with
  | EmptyString =>
      if inQuotes then Err ErrUnclosedQuote else
      Ok (elems ++ [unquoteElement (if escaped then current +:+ String backslash "" else current)])
  | String c rest =>
      if escaped then parse_elements rest (current +:+ String c "") elems inQuotes false else
      if bool_decide (c = backslash) then parse_elements rest current elems inQuotes true else
      if bool_decide (c = quote) then parse_elements rest current elems (negb inQuotes) false else
      if bool_decide (c = comma) && negb inQuotes
      then parse_elements rest "" (elems ++ [unquoteElement current]) false false
      else parse_elements rest (current +:+ String c "") elems inQuotes false
  end.

Definition parseArrayElements (content : string) : result ArrayError (list string) :=
  if bool_decide (content = "") then Ok [] else parse_elements content "" [] false false.

(** [StringArray.Scan] of a column that is NULL or text; the nil slice is [None]. *)
Definition StringArray_Scan (src : option string) : result ArrayError (option (list string)) :=
  match src with
  | None => Ok None
  | Some source =>
      if bool_decide (source = "{}") then Ok (Some []) else
      if negb (enclosed "{"%char "}"%char source) then Err ErrInvalidArrayFormat else
      let content := inner source in
      if bool_decide (content = "") then Ok (Some []) else
      let! elements := parseArrayElements content in Ok (Some elements)
  end.

(** [StringArray.Value] *)
Definition StringArray_Value (a : option (list string)) : option string :=
  match a with
  | None => None
  | Some [] => Some "{}"
  | Some l => Some (String "{" (strings_Join "," (quoteArrayElement <$> l) +:+ "}"))
  end.

(** ** Arrays of identifiers *)

Section Uuids.
Context `{UuidParse}.

Definition formatStringArrayToPostgres (strs : list string) : string :=
  match strs with
  | [] => "{}"
  | _ => String "{" (strings_Join "," strs +:+ "}")
  end.

Definition formatUUIDArrayString (uuids : list uuid) : string :=
  formatStringArrayToPostgres (uuid_String <$> uuids).

Definition formatUUIDArrayFromStringArray (strs : option (list string)) : string :=
  formatStringArrayToPostgres (default [] strs).

(** Empty parts are left out. *)
Definition splitUUIDArray (s : string) : list string :=
  filter (λ p, p ≠ "") (strings_Split comma s).

Fixpoint parse_uuids (parts : list string) : result ArrayError (list uuid) :=
  match parts with
  | [] => Ok []
  | part :: parts' =>
      match uuid_Parse part with
      | None => Err ErrInvalidUUID
      | Some id => let! ids := parse_uuids parts' in Ok (id :: ids)
      end
  end.

Definition parseUUIDArrayString (arrayStr : string) : result ArrayError (list uuid) :=
  if bool_decide (arrayStr = "" ∨ arrayStr = "{}") then Ok [] else
  let trimmed := if enclosed "{"%char "}"%char arrayStr then inner arrayStr else arrayStr in
  if bool_decide (trimmed = "") then Ok [] else parse_uuids (splitUUIDArray trimmed).

Definition uuidSliceToStringArray (uuids : list uuid) : option (list string) := Some (uuid_String <$> uuids).

(** What is read back of the identifiers written with [uuidSliceToStringArray]:
    [scanValidation] scans the column and hands its text to [ToEntity]. *)
Definition read_uuid_column (column : option string) : result ArrayError (list uuid) :=
  let! strs := StringArray_Scan column in parseUUIDArrayString (formatUUIDArrayFromStringArray strs).

End Uuids.

(** ** Reading back what was written *)

Lemma last_char_snoc s a : last_char (s +:+ String a "") = Some a.
Proof.
  induction s as [|b s IH]; [done|]. rewrite string_app_cons. cbn [last_char].
  destruct (s +:+ String a "") eqn:E; [by destruct s|exact IH].
Qed.

Lemma but_last_snoc s a : but_last (s +:+ String a "") = s.
Proof.
  induction s as [|b s IH]; [done|]. rewrite string_app_cons. cbn [but_last].
  destruct (s +:+ String a "") eqn:E; [by destruct s|]. by rewrite IH.
Qed.

Lemma length_snoc s a : String.length (s +:+ String a "") = S (String.length s).
Proof. induction s as [|b s IH]; [done|]. rewrite string_app_cons. cbn [String.length]. by rewrite IH. Qed.

Lemma enclosed_braces a b s : enclosed a b (String a (s +:+ String b "")) = true.
Proof.
  unfold enclosed. cbn [String.get String.length]. rewrite length_snoc.
  assert (last_char (String a (s +:+ String b "")) = Some b) as ->.
  { rewrite <- string_app_cons. apply last_char_snoc. }
  rewrite !bool_decide_true by done. done.
Qed.

Lemma inner_braces a b s : inner (String a (s +:+ String b "")) = s.
Proof. apply but_last_snoc. Qed.

Lemma replace_char_app c by_ s t :
  replace_char c by_ (s +:+ t) = replace_char c by_ s +:+ replace_char c by_ t.
Proof.
  induction s as [|a s IH]; [done|]. rewrite string_app_cons. cbn [replace_char].
  by rewrite IH, string_app_assoc.
Qed.

(** What the escaping of [quoteArrayElement] does byte by byte. *)
Definition escape_char (a : ascii) : string :=
  if bool_decide (a = quote ∨ a = backslash) then String backslash (String a "") else String a "".

Definition escape (s : string) : string :=
  replace_char quote (String backslash (String quote ""))
    (replace_char backslash (String backslash (String backslash "")) s).

Lemma escape_cons a s : escape (String a s) = escape_char a +:+ escape s.
Proof.
  unfold escape. cbn [replace_char]. rewrite replace_char_app. f_equal.
  unfold escape_char. destruct (decide (a = backslash)) as [->|Hb].
  - rewrite !bool_decide_true by auto. done.
  - rewrite (bool_decide_false (a = backslash)) by done. cbn [replace_char].
    destruct (decide (a = quote)) as [->|Hq].
    + rewrite !bool_decide_true by auto. done.
    + rewrite !bool_decide_false by naive_solver. done.
Qed.

Lemma parse_escape s rest : ∀ current elems,
  parse_elements (escape s +:+ rest) current elems true false =
  parse_elements rest (current +:+ s) elems true false.
Proof.
  induction s as [|a s IH]; intros current elems; [by rewrite string_app_nil_r|].
  rewrite escape_cons, string_app_assoc.
  replace (current +:+ String a s) with ((current +:+ String a "") +:+ s)
    by (rewrite string_app_assoc; done).
  rewrite <- IH. unfold escape_char. case_bool_decide as Ha; cbn [String.app]; rewrite !string_app_cons.
  - cbn [parse_elements]. rewrite bool_decide_true by done. done.
  - cbn [parse_elements]. rewrite !bool_decide_false by naive_solver.
    rewrite andb_false_r. done.
Qed.

Lemma parse_plain s rest : ∀ current elems, all_chars (λ a, negb (special a)) s = true →
  parse_elements (s +:+ rest) current elems false false =
  parse_elements rest (current +:+ s) elems false false.
Proof.
  induction s as [|a s IH]; intros current elems Hs; [by rewrite string_app_nil_r|].
  cbn [all_chars] in Hs. apply andb_true_iff in Hs as [Ha Hs].
  rewrite string_app_cons. cbn [parse_elements].
  unfold special in Ha. rewrite negb_true_iff, bool_decide_eq_false in Ha.
  rewrite !bool_decide_false by (intros ->; apply Ha; set_solver). cbn [andb].
  rewrite IH by done. f_equal. by rewrite string_app_assoc.
Qed.

(** An element, quoted or not, is read as it was. *)
Lemma parse_quoted s rest current elems :
  parse_elements (quoteArrayElement s +:+ rest) current elems false false =
  parse_elements rest (current +:+ s) elems false false.
Proof.
  unfold quoteArrayElement. destruct (bool_decide (s = "") || _) eqn:E.
  - fold (escape s). rewrite string_app_cons. cbn [parse_elements].
    rewrite (bool_decide_false (quote = backslash)) by done.
    rewrite (bool_decide_true (quote = quote)) by done. cbn [negb].
    rewrite string_app_assoc, parse_escape, string_app_cons. cbn [parse_elements].
    rewrite (bool_decide_false (quote = backslash)) by done.
    rewrite (bool_decide_true (quote = quote)) by done. done.
  - apply orb_false_iff in E as [_ E]. apply negb_false_iff in E. by apply parse_plain.
Qed.

Lemma parse_joined l : ∀ s elems,
  parse_elements (strings_Join "," (quoteArrayElement <$> s :: l)) "" elems false false =
  Ok (elems ++ (unquoteElement <$> s :: l)).
Proof.
  induction l as [|s' l IH]; intros s elems.
  - cbn [fmap list_fmap strings_Join]. rewrite <- (string_app_nil_r (quoteArrayElement s)), parse_quoted. done.
  - change (strings_Join "," (quoteArrayElement <$> s :: s' :: l)) with
      (quoteArrayElement s +:+ ("," +:+ strings_Join "," (quoteArrayElement <$> s' :: l))).
    rewrite parse_quoted. change (("," +:+ ?x)) with (String comma x). cbn [parse_elements].
    rewrite !bool_decide_false by done. rewrite bool_decide_true by done. cbn [negb andb].
    rewrite IH. cbn [fmap list_fmap]. by rewrite <- app_assoc.
Qed.

(** Elements that come back as they are: neither the word NULL nor text that itself
    begins and ends with a quote. *)
Definition array_safe (s : string) : Prop := s ≠ "NULL" ∧ enclosed quote quote s = false.

Lemma unquote_safe s : array_safe s → unquoteElement s = s.
Proof. intros [Hn Hq]. unfold unquoteElement. by rewrite bool_decide_false, Hq. Qed.

Lemma join_nonempty s l : strings_Join "," (quoteArrayElement <$> s :: l) ≠ "".
Proof.
  assert (quoteArrayElement s ≠ "") as Hs.
  { unfold quoteArrayElement. case_bool_decide; [done|]. by case_match. }
  destruct l; cbn [fmap list_fmap strings_Join]; [done|].
  destruct (quoteArrayElement s); [done|]. by rewrite string_app_cons.
Qed.

Lemma scan_value l : Forall array_safe l → StringArray_Scan (StringArray_Value (Some l)) = Ok (Some l).
Proof.
  intros Ha. destruct l as [|s l]; [done|].
  unfold StringArray_Value, StringArray_Scan.
  set (c := strings_Join "," (quoteArrayElement <$> s :: l)).
  assert (c ≠ "") as Hc by apply join_nonempty.
  change ("}") with (String "}" ""). rewrite bool_decide_false.
  2:{ intros E. injection E as E. by destruct c; [|destruct c]. }
  rewrite enclosed_braces, inner_braces. cbn [negb].
  unfold parseArrayElements. rewrite !bool_decide_false by done.
  unfold c. rewrite parse_joined. cbn [rbind app]. do 2 f_equal.
  clear c Hc. induction Ha as [|x xs Hx _ IH]; [done|]. cbn [fmap list_fmap].
  rewrite (unquote_safe x Hx). by rewrite IH.
Qed.

(** What [StringArray.Value] writes [StringArray.Scan] reads back, NULL and the
    empty array included, whatever bytes the elements hold, commas, braces, quotes,
    backslashes and spaces included; only the word NULL and elements that themselves
    begin and end with a quote are excluded. *)
Theorem string_array_round_trip (a : option (list string))
    (Ha : ∀ l, a = Some l → Forall array_safe l) :
  StringArray_Scan (StringArray_Value a) = Ok a.
Proof. destruct a as [l|]; [apply scan_value; by apply Ha|done]. Qed.

(** ** Identifiers *)

Definition uuid_char (a : ascii) : bool :=
  let n := nat_of_ascii a in
  is_digit a || bool_decide (a = "-"%char) || ((97 <=? n)%nat && (n <=? 102)%nat).

(** github.com/google/uuid prints an identifier in lower-case hexadecimal and dashes. *)
Class UuidHex `{UuidLib} := { uuid_String_hex u : all_chars uuid_char (uuid_String u) = true }.

Lemma uuid_char_not_special a : uuid_char a = true → special a = false.
Proof.
  intros Ha. apply bool_decide_eq_false. intros Hin.
  repeat (apply elem_of_cons in Hin as [->|Hin]; [by vm_compute in Ha|]). by apply elem_of_nil in Hin.
Qed.

Lemma all_chars_mono p q s : (∀ a, p a = true → q a = true) → all_chars p s = true → all_chars q s = true.
Proof.
  intros Hpq. induction s as [|a s IH]; [done|]. cbn [all_chars].
  intros [Ha Hs]%andb_true_iff. rewrite (Hpq _ Ha). by apply IH.
Qed.

Section UuidArrays.
Context `{UuidParseLaws} `{!UuidHex}.

Lemma uuid_plain u : all_chars (λ a, negb (special a)) (uuid_String u) = true.
Proof. eapply all_chars_mono; [|apply uuid_String_hex]. intros a Ha. by rewrite uuid_char_not_special. Qed.

Lemma uuid_nonempty u : uuid_String u ≠ "".
Proof. intros E. pose proof (uuid_String_length u) as Hl. by rewrite E in Hl. Qed.

Lemma uuid_no_comma u : contains_char comma (uuid_String u) = false.
Proof. by apply (digits_no_char uuid_char); [|apply uuid_String_hex]. Qed.

Lemma uuid_array_safe u : array_safe (uuid_String u).
Proof.
  split; [intros E; pose proof (uuid_String_length u) as Hl; by rewrite E in Hl|].
  unfold enclosed. pose proof (uuid_plain u) as Hp.
  destruct (uuid_String u) as [|a s] eqn:E; [done|]. cbn [String.get].
  cbn [all_chars] in Hp. apply andb_true_iff in Hp as [Ha _].
  rewrite (bool_decide_false (Some a = Some quote)); [by rewrite andb_false_r|].
  intros [= ->]. done.
Qed.

Lemma split_uuids ids : ∀ id, splitUUIDArray (strings_Join "," (uuid_String <$> id :: ids)) = uuid_String <$> id :: ids.
Proof.
  unfold splitUUIDArray. induction ids as [|id' ids IH]; intros id.
  - cbn [fmap list_fmap strings_Join]. rewrite strings_Split_none by apply uuid_no_comma.
    by rewrite filter_cons_True by apply uuid_nonempty.
  - change (strings_Join "," (uuid_String <$> id :: id' :: ids)) with
      (uuid_String id +:+ String comma (strings_Join "," (uuid_String <$> id' :: ids))).
    rewrite strings_Split_app by apply uuid_no_comma.
    rewrite filter_cons_True by apply uuid_nonempty. by rewrite IH.
Qed.

Lemma parse_uuids_all ids : parse_uuids (uuid_String <$> ids) = Ok ids.
Proof.
  induction ids as [|id ids IH]; [done|]. cbn [fmap list_fmap parse_uuids].
  rewrite uuid_Parse_String, IH. done.
Qed.

(** [parseUUIDArrayString] after [formatUUIDArrayString] *)
Lemma uuid_array_format_parse ids : parseUUIDArrayString (formatUUIDArrayString ids) = Ok ids.
Proof.
  destruct ids as [|id ids]; [done|]. unfold formatUUIDArrayString, formatStringArrayToPostgres.
  set (c := strings_Join "," (uuid_String <$> id :: ids)).
  change (parseUUIDArrayString (String "{" (c +:+ String "}" "")) = Ok (id :: ids)).
  assert (c ≠ "") as Hc.
  { unfold c. pose proof (uuid_nonempty id) as Hn. destruct ids; cbn [fmap list_fmap strings_Join]; [done|].
    destruct (uuid_String id); [done|]. by rewrite string_app_cons. }
  unfold parseUUIDArrayString.
  rewrite bool_decide_false.
  2:{ intros [E|E]; [done|]. injection E as E. by destruct c; [|destruct c]. }
  rewrite enclosed_braces, inner_braces, bool_decide_false by done.
  unfold c. rewrite (split_uuids ids id). apply (parse_uuids_all (id :: ids)).
Qed.

(** The identifiers a validation record is written with are the identifiers it
    is read with, through the column, the scanner and [ToEntity]. *)
Theorem uuid_column_round_trip (ids : list uuid) :
  read_uuid_column (StringArray_Value (uuidSliceToStringArray ids)) = Ok ids.
Proof.
  unfold read_uuid_column, uuidSliceToStringArray. rewrite scan_value.
  - cbn [rbind]. unfold formatUUIDArrayFromStringArray. cbn [default].
    exact (uuid_array_format_parse ids).
  - induction ids as [|id ids IH]; [constructor|].
    cbn [fmap list_fmap]. constructor; [apply uuid_array_safe|exact IH].
Qed.

End UuidArrays.

(** ** What is not read back *)

(** The elements excluded from the round trip are read back changed: the word NULL is
    written without quotes and means SQL NULL, and the scanner, which has already
    removed the quotes that delimit an element, removes a second pair that belongs to
    it.  Quoting NULL does not help: the scanner forgets the quotes before it looks
    for NULL, although the comment of [NullString] says a quoted NULL is text. *)
Theorem array_elements_changed :
  StringArray_Scan (StringArray_Value (Some ["NULL"])) = Ok (Some [NullString]) ∧
  StringArray_Scan (Some (String "{" (String quote ("NULL" +:+ String quote "}")))) = Ok (Some [NullString]) ∧
  StringArray_Scan (StringArray_Value (Some [String quote ("a" +:+ String quote "")])) = Ok (Some ["a"]).
Proof. vm_compute. repeat split; reflexivity. Qed.

Module ArraySample.
#[local] Existing Instances FourIds.lib FourIds.parse.
#[export] Instance hex : UuidHex (H := FourIds.lib).
Proof. split. intros [[] []]; reflexivity. Defined.

Lemma string_array_round_trip_witness :
  StringArray_Scan (StringArray_Value (Some ["a, b"; "{}"; ""; "\"])) = Ok (Some ["a, b"; "{}"; ""; "\"]).
Proof.
  apply (string_array_round_trip (Some ["a, b"; "{}"; ""; "\"])). intros l [= <-].
  repeat (constructor; [split; [discriminate|reflexivity]|]). constructor.
Defined.

Example uuid_column_round_trip_sample :
  let ids : list (@uuid FourIds.lib) := [(true, false); (false, true)] in
  read_uuid_column (StringArray_Value (uuidSliceToStringArray ids)) = Ok ids.
Proof. exact (uuid_column_round_trip _). Qed.

End ArraySample.
