(* ===== verification/Validations.v ===== *)
(** * Validation of transactions

    src/components/tracer/internal/services/validation_service.go answers a validation
    request: it looks the request up by its identifier, evaluates the rules, checks the
    limits in a database transaction, and stores the outcome with an audit event.  This
    file models the service, the record it stores (pkg/model/transaction_validation.go),
    the table transaction_validations (adapters/postgres/
    transaction_validation_repository.go and its model) and the audit event, on top of
    the rules of [Rules] and the limit checker of [LimitChecker].

    The limit checker is an interface here, as in the code; [limit_source] implements it
    with [checkLimitsInternal].  The moments at which the database fails, the clock
    readings and the new identifier are arguments.  A request is processed in two
    steps, the lookup and the rest, between which other requests may be processed. *)

From stdpp Require Import base gmap strings list.
From Stdlib Require Import ZArith QArith Lia Lqa Ascii.
From S2P Require Import Prelude Decimals GoStrings CacheKeys GoTime Limits LimitChecker.
From S2P Require Import Sanitize Rules.
Local Open Scope string_scope.
Local Open Scope list_scope.
Local Open Scope Z_scope.

(** ** Responses and records *)

Section Records.
Context `{DecimalLib, UuidNil}.

(** [ProcessingTimeMs] is kept in nanoseconds. *)
Record ValidationResponse := {
  vp_ValidationID : uuid;
  vp_RequestID : uuid;
  vp_Result : EvaluationResult;
  vp_LimitUsageDetails : list LimitUsageDetail;
  vp_ProcessingTime : Z;
  vp_EvaluatedAt : time }.

Definition empty_result (decision : Decision) : EvaluationResult := {|
  er_Decision := decision; er_MatchedRuleIDs := []; er_EvaluatedRuleIDs := []; er_Reason := "";
  er_TotalRulesLoaded := 0; er_Truncated := false |}.

Definition NewValidationResponse (validationID requestID : uuid) (decision : Decision)
    (evaluatedAt : time) : ValidationResponse := {|
  vp_ValidationID := validationID; vp_RequestID := requestID; vp_Result := empty_result decision;
  vp_LimitUsageDetails := []; vp_ProcessingTime := 0; vp_EvaluatedAt := evaluatedAt |}.

Record TransactionValidation := {
  tv_ID : uuid;
  tv_RequestID : uuid;
  tv_TransactionType : TransactionType;
  tv_SubType : option string;
  tv_Amount : dec;
  tv_Currency : string;
  tv_TransactionTimestamp : time;
  tv_Account : AccountContext;
  tv_Segment : option SegmentContext;
  tv_Portfolio : option PortfolioContext;
  tv_Merchant : option MerchantContext;
  tv_Metadata : Metadata;
  tv_Result : EvaluationResult;
  tv_LimitUsageDetails : list LimitUsageDetail;
  tv_ProcessingTime : Z;
  tv_CreatedAt : time }.

(** The fields that are not arguments have their zero values. *)
Definition NewTransactionValidation (id : uuid) (decision : Decision) (createdAt : time)
    : result TracerError TransactionValidation :=
  if bool_decide (id = uuid_Nil) then Err ErrTransactionValidationIDRequired else
  if negb (Decision_IsValid decision) then Err ErrInvalidDecision else
  if time_IsZero createdAt then Err ErrTransactionValidationCreatedAtRequired else
  Ok {| tv_ID := id; tv_RequestID := uuid_Nil; tv_TransactionType := TransactionTypeOther "";
        tv_SubType := None; tv_Amount := dzero; tv_Currency := ""; tv_TransactionTimestamp := 0;
        tv_Account := {| ac_ID := uuid_Nil; ac_Type := ""; ac_Status := ""; ac_Metadata := None |};
        tv_Segment := None; tv_Portfolio := None; tv_Merchant := None; tv_Metadata := None;
        tv_Result := empty_result decision; tv_LimitUsageDetails := []; tv_ProcessingTime := 0;
        tv_CreatedAt := createdAt |}.

Definition ToValidationResponse (tv : TransactionValidation) : ValidationResponse := {|
  vp_ValidationID := tv_ID tv; vp_RequestID := tv_RequestID tv;
  vp_Result := {| er_Decision := er_Decision (tv_Result tv);
                  er_MatchedRuleIDs := er_MatchedRuleIDs (tv_Result tv);
                  er_EvaluatedRuleIDs := er_EvaluatedRuleIDs (tv_Result tv);
                  er_Reason := er_Reason (tv_Result tv);
                  er_TotalRulesLoaded := 0; er_Truncated := false |};
  vp_LimitUsageDetails := tv_LimitUsageDetails tv; vp_ProcessingTime := tv_ProcessingTime tv;
  vp_EvaluatedAt := tv_CreatedAt tv |}.

(** [validateTransactionValidation] *)
Definition validateTransactionValidation (tv : TransactionValidation) : result TracerError unit :=
  let invalid b := guard_err b ErrTransactionValidationInvalid in
  let! _ := invalid (bool_decide (tv_ID tv = uuid_Nil)) in
  let! _ := invalid (negb (Decision_IsValid (er_Decision (tv_Result tv)))) in
  let! _ := invalid (bool_decide (tv_RequestID tv = uuid_Nil)) in
  let! _ := invalid (negb (TransactionType_IsValid (tv_TransactionType tv))) in
  let! _ := invalid (dle (tv_Amount tv) dzero) in
  let! _ := invalid (bool_decide (tv_Currency tv = "")) in
  let! _ := invalid (time_IsZero (tv_TransactionTimestamp tv)) in
  invalid (bool_decide (ac_ID (tv_Account tv) = uuid_Nil)).

(** [buildTransactionValidation]: the metadata of the request is sanitized, the
    metadata of its account, segment, portfolio and merchant is not. *)
Definition buildTransactionValidation (req : ValidationRequest) (resp : ValidationResponse)
    (createdAt : time) : result TracerError TransactionValidation :=
  let! tv := NewTransactionValidation (vp_ValidationID resp) (er_Decision (vp_Result resp)) createdAt in
  let tv := {|
    tv_ID := tv_ID tv; tv_RequestID := vr_RequestID req;
    tv_TransactionType := vr_TransactionType req; tv_SubType := vr_SubType req;
    tv_Amount := vr_Amount req; tv_Currency := vr_Currency req;
    tv_TransactionTimestamp := vr_TransactionTimestamp req; tv_Account := vr_Account req;
    tv_Segment := vr_Segment req; tv_Portfolio := vr_Portfolio req; tv_Merchant := vr_Merchant req;
    tv_Metadata := SanitizeMetadata (vr_Metadata req); tv_Result := vp_Result resp;
    tv_LimitUsageDetails := vp_LimitUsageDetails resp; tv_ProcessingTime := vp_ProcessingTime resp;
    tv_CreatedAt := tv_CreatedAt tv |} in
  let! _ := validateTransactionValidation tv in Ok tv.

(** ** The table *)

(** A JSON object without entries is left out or read back as nil. *)
Definition stored_metadata (m : Metadata) : Metadata :=
  match m with Some [] => None | _ => m end.

(** The fields of a detail that are not written to JSON come back empty. *)
Definition stored_detail (d : LimitUsageDetail) : LimitUsageDetail := {|
  ud_LimitID := ud_LimitID d; ud_LimitAmount := ud_LimitAmount d; ud_Scope := ud_Scope d;
  ud_Period := ud_Period d; ud_CurrentUsage := ud_CurrentUsage d;
  ud_AttemptedAmount := ud_AttemptedAmount d; ud_Exceeded := ud_Exceeded d; ud_Skipped := ud_Skipped d;
  ud_SkipReason := ud_SkipReason d; ud_Scopes := []; ud_InternalPeriodKey := "" |}.

(** [FromEntity], then [ToEntity]: what the columns keep of a record. *)
Definition stored (tv : TransactionValidation) : TransactionValidation := {|
  tv_ID := tv_ID tv; tv_RequestID := tv_RequestID tv; tv_TransactionType := tv_TransactionType tv;
  tv_SubType := tv_SubType tv; tv_Amount := tv_Amount tv; tv_Currency := tv_Currency tv;
  tv_TransactionTimestamp := tv_TransactionTimestamp tv;
  tv_Account := {| ac_ID := ac_ID (tv_Account tv); ac_Type := ac_Type (tv_Account tv);
                   ac_Status := ac_Status (tv_Account tv);
                   ac_Metadata := stored_metadata (ac_Metadata (tv_Account tv)) |};
  tv_Segment := (λ s, {| sg_ID := sg_ID s; sg_Name := sg_Name s;
                         sg_Metadata := stored_metadata (sg_Metadata s) |}) <$> tv_Segment tv;
  tv_Portfolio := (λ s, {| pf_ID := pf_ID s; pf_Name := pf_Name s;
                           pf_Metadata := stored_metadata (pf_Metadata s) |}) <$> tv_Portfolio tv;
  tv_Merchant := (λ s, {| mc_ID := mc_ID s; mc_Name := mc_Name s; mc_Category := mc_Category s;
                          mc_Country := mc_Country s;
                          mc_Metadata := stored_metadata (mc_Metadata s) |}) <$> tv_Merchant tv;
  tv_Metadata := stored_metadata (tv_Metadata tv);
  tv_Result := {| er_Decision := er_Decision (tv_Result tv);
                  er_MatchedRuleIDs := er_MatchedRuleIDs (tv_Result tv);
                  er_EvaluatedRuleIDs := er_EvaluatedRuleIDs (tv_Result tv);
                  er_Reason := er_Reason (tv_Result tv);
                  er_TotalRulesLoaded := 0; er_Truncated := false |};
  tv_LimitUsageDetails := stored_detail <$> tv_LimitUsageDetails tv;
  tv_ProcessingTime := tv_ProcessingTime tv; tv_CreatedAt := tv_CreatedAt tv |}.

(** The context of an audit event: the request as it came ([buildRequestSnapshot]) and
    the outcome ([WithValidationContext]). *)
Record RequestSnapshot := {
  rs_requestId : string;
  rs_transactionType : TransactionType;
  rs_subType : option string;
  rs_amount : dec;
  rs_currency : string;
  rs_timestamp : time;
  rs_account : string * string * string * Metadata * option string * option string;
  rs_metadata : Metadata;
  rs_segment : option (string * string * Metadata);
  rs_portfolio : option (string * string * Metadata);
  rs_merchant : option (uuid * string * string * string * Metadata) }.

Definition buildRequestSnapshot (req : ValidationRequest) : RequestSnapshot := {|
  rs_requestId := uuid_String (vr_RequestID req); rs_transactionType := vr_TransactionType req;
  rs_subType := vr_SubType req; rs_amount := vr_Amount req; rs_currency := vr_Currency req;
  rs_timestamp := vr_TransactionTimestamp req;
  rs_account := (uuid_String (ac_ID (vr_Account req)), ac_Type (vr_Account req),
                 ac_Status (vr_Account req), ac_Metadata (vr_Account req),
                 (λ s, uuid_String (sg_ID s)) <$> vr_Segment req,
                 (λ s, uuid_String (pf_ID s)) <$> vr_Portfolio req);
  rs_metadata := vr_Metadata req;
  rs_segment := (λ s, (uuid_String (sg_ID s), sg_Name s, sg_Metadata s)) <$> vr_Segment req;
  rs_portfolio := (λ s, (uuid_String (pf_ID s), pf_Name s, pf_Metadata s)) <$> vr_Portfolio req;
  rs_merchant := (λ s, (mc_ID s, mc_Name s, mc_Category s, mc_Country s, mc_Metadata s))
                   <$> vr_Merchant req |}.

Inductive AuditResult := AuditResultAllow | AuditResultDeny | AuditResultReview | AuditResultFailed.

Definition DecisionToAuditResult (d : Decision) : AuditResult :=
  match d with
  | DecisionAllow => AuditResultAllow
  | DecisionDeny => AuditResultDeny
  | DecisionReview => AuditResultReview
  | DecisionOther _ => AuditResultFailed
  end.

Record ValidationAudit := {
  va_ResourceID : uuid;
  va_AuditResult : AuditResult;
  va_Request : RequestSnapshot;
  va_Evaluation : EvaluationResult;
  va_LimitUsageDetails : list LimitUsageDetail;
  va_ProcessingTime : Z }.

(** Counters, records and the audit events of validations. *)
Record ValidationDB := {
  vd_counters : gmap counter_key CounterRow;
  vd_validations : list TransactionValidation;
  vd_audit : list ValidationAudit }.

(** [insertInternal]: the identifier and the request identifier are unique. *)
Definition InsertValidation (st : ValidationDB) (fail : bool) (tv : TransactionValidation)
    : result TracerError ValidationDB :=
  if fail then Err DbError else
  if existsb (λ row, bool_decide (tv_ID row = tv_ID tv ∨ tv_RequestID row = tv_RequestID tv))
       (vd_validations st)
  then Err ErrDuplicateValidation else
  Ok {| vd_counters := vd_counters st; vd_validations := vd_validations st ++ [stored tv];
        vd_audit := vd_audit st |}.

Definition FindByRequestID (st : ValidationDB) (fail : bool) (requestID : uuid)
    : result TracerError (option TransactionValidation) :=
  if bool_decide (requestID = uuid_Nil) then Ok None else
  if fail then Err DbError else
  Ok (find (λ row, bool_decide (tv_RequestID row = requestID)) (vd_validations st)).

(** [RecordValidationEvent]: a second event for the same validation is not stored. *)
Definition RecordValidationEvent (st : ValidationDB) (fail : bool) (req : ValidationRequest)
    (resp : ValidationResponse) : result TracerError ValidationDB :=
  if fail then Err DbError else
  if existsb (λ ev, bool_decide (va_ResourceID ev = vp_ValidationID resp)) (vd_audit st) then Ok st else
  Ok {| vd_counters := vd_counters st; vd_validations := vd_validations st;
        vd_audit := vd_audit st ++
          [{| va_ResourceID := vp_ValidationID resp;
              va_AuditResult := DecisionToAuditResult (er_Decision (vp_Result resp));
              va_Request := buildRequestSnapshot req; va_Evaluation := vp_Result resp;
              va_LimitUsageDetails := vp_LimitUsageDetails resp;
              va_ProcessingTime := vp_ProcessingTime resp |}] |}.

End Records.

(** ** The limit checker as the service sees it *)

(** The interface [LimitChecker] of the service. *)
Class LimitCheckerOps `{DecimalLib, UuidNil} := {
  CheckLimits : gmap counter_key CounterRow → CheckLimitsInput → time →
                gmap counter_key CounterRow * result TracerError CheckLimitsOutput }.

(** What it promises: an allowed input is counted with its amount, once, on each of
    the counters [charges] says, and on no other. *)
Class LimitCheckerLaws `{DecimalLaws, UuidNil, !LimitCheckerOps} := {
  charges : CheckLimitsInput → time → counter_key → bool;
  CheckLimits_counts db input now db' out :
    CheckLimits db input now = (db', Ok out) → co_Allowed out = true →
    ∀ k, (dval (committed db' k) == dval (committed db k) +
          (if charges input now k then dval (ci_Amount input) else 0))%Q }.

(** ** The service *)

Section Service.
Context `{DecimalLib, UuidNil}.

Record ValidateResult := { vl_Response : ValidationResponse; vl_IsDuplicate : bool }.

(** Where the database fails: the lookup, the begin, the insert, the audit insert, the
    commit and the lookup after a lost race. *)
Record val_faults := {
  vf_find : bool; vf_begin : bool; vf_insert : bool; vf_audit : bool; vf_commit : bool;
  vf_refind : bool }.
Definition no_val_faults : val_faults := {|
  vf_find := false; vf_begin := false; vf_insert := false; vf_audit := false; vf_commit := false;
  vf_refind := false |}.

(** The readings of the clock: when the processing starts, when the limits are checked
    and when the record is built; and the time the processing took. *)
Record val_clock := { vc_start : time; vc_check : time; vc_persist : time; vc_elapsed : Z }.

Definition handleConcurrentDuplicate (st : ValidationDB) (flt : val_faults) (err : TracerError)
    (req : ValidationRequest) : option ValidateResult :=
  if negb (bool_decide (err = ErrDuplicateValidation)) then None else
  match FindByRequestID st (vf_refind flt) (vr_RequestID req) with
  | Ok (Some existing) => Some {| vl_Response := ToValidationResponse existing; vl_IsDuplicate := true |}
  | _ => None
  end.

(** Best effort: of the errors only a duplicate is reported. *)
Definition persistTransactionValidation (st : ValidationDB) (flt : val_faults) (clk : val_clock)
    (req : ValidationRequest) (resp : ValidationResponse) : ValidationDB * result TracerError unit :=
  match buildTransactionValidation req resp (vc_persist clk) with
  | Err _ => (st, Ok tt)
  | Ok tv =>
      match InsertValidation st (vf_insert flt) tv with
      | Ok st' => (st', Ok tt)
      | Err ErrDuplicateValidation => (st, Err ErrDuplicateValidation)
      | Err _ => (st, Ok tt)
      end
  end.

Definition persistAuditEvent (st : ValidationDB) (flt : val_faults) (req : ValidationRequest)
    (resp : ValidationResponse) : ValidationDB :=
  match RecordValidationEvent st (vf_audit flt) req resp with Ok st' => st' | Err _ => st end.

(** [rollbackAndPersist], after the rollback: [st] is the committed state. *)
Definition rollbackAndPersist (st : ValidationDB) (flt : val_faults) (clk : val_clock)
    (req : ValidationRequest) (resp : ValidationResponse) : ValidationDB * option ValidateResult :=
  let '(st1, res) := persistTransactionValidation st flt clk req resp in
  let dup := match res with
             | Err e => handleConcurrentDuplicate st1 flt e req
             | Ok _ => None
             end in
  match dup with
  | Some d => (st1, Some d)
  | None => (persistAuditEvent st1 flt req resp, None)
  end.

Definition finalizeNonAllow (st : ValidationDB) (flt : val_faults) (clk : val_clock)
    (req : ValidationRequest) (resp : ValidationResponse) : ValidationDB * ValidateResult :=
  match rollbackAndPersist st flt clk req resp with
  | (st', Some dup) => (st', dup)
  | (st', None) => (st', {| vl_Response := resp; vl_IsDuplicate := false |})
  end.

Definition finalizeDenyByRule (st : ValidationDB) (flt : val_faults) (clk : val_clock)
    (req : ValidationRequest) (resp : ValidationResponse) : ValidationDB * ValidateResult :=
  let '(st1, res) := persistTransactionValidation st flt clk req resp in
  let dup := match res with
             | Err e => handleConcurrentDuplicate st1 flt e req
             | Ok _ => None
             end in
  match dup with
  | Some d => (st1, d)
  | None => (persistAuditEvent st1 flt req resp, {| vl_Response := resp; vl_IsDuplicate := false |})
  end.

Definition persistTransactionValidationWithTx (tx : ValidationDB) (flt : val_faults) (clk : val_clock)
    (req : ValidationRequest) (resp : ValidationResponse) : result TracerError ValidationDB :=
  let! tv := buildTransactionValidation req resp (vc_persist clk) in
  InsertValidation tx (vf_insert flt) tv.

(** [commitAllowPath]: [st] is the committed state, [tx] the state the transaction
    sees.  Returns the committed state after it.  A commit that fails has no effect; one
    that takes effect and whose acknowledgement is lost is not modelled. *)
Definition commitAllowPath (st tx : ValidationDB) (flt : val_faults) (clk : val_clock)
    (req : ValidationRequest) (resp : ValidationResponse)
    : ValidationDB * result TracerError (option ValidateResult) :=
  match persistTransactionValidationWithTx tx flt clk req resp with
  | Err e =>
      match handleConcurrentDuplicate st flt e req with
      | Some dup => (st, Ok (Some dup))
      | None => (st, Err e)
      end
  | Ok tx1 =>
      match RecordValidationEvent tx1 (vf_audit flt) req resp with
      | Err e => (st, Err e)
      | Ok tx2 => if vf_commit flt then (st, Err DbError) else (tx2, Ok None)
      end
  end.

Definition with_result (resp : ValidationResponse) (r : EvaluationResult) (elapsed : Z)
    : ValidationResponse := {|
  vp_ValidationID := vp_ValidationID resp; vp_RequestID := vp_RequestID resp; vp_Result := r;
  vp_LimitUsageDetails := vp_LimitUsageDetails resp; vp_ProcessingTime := elapsed;
  vp_EvaluatedAt := vp_EvaluatedAt resp |}.

Definition with_limits (resp : ValidationResponse) (out : CheckLimitsOutput) : ValidationResponse := {|
  vp_ValidationID := vp_ValidationID resp; vp_RequestID := vp_RequestID resp;
  vp_Result := vp_Result resp; vp_LimitUsageDetails := co_LimitUsageDetails out;
  vp_ProcessingTime := vp_ProcessingTime resp; vp_EvaluatedAt := co_EvaluatedAt out |}.

Definition deny_by_limit (r : EvaluationResult) : EvaluationResult := {|
  er_Decision := DecisionDeny; er_MatchedRuleIDs := er_MatchedRuleIDs r;
  er_EvaluatedRuleIDs := er_EvaluatedRuleIDs r; er_Reason := "limit_exceeded";
  er_TotalRulesLoaded := er_TotalRulesLoaded r; er_Truncated := er_Truncated r |}.

(** [Validate] after the lookup.  [rules] is the rule evaluator; the counters the limit
    checker returns are those of the open transaction. *)
Definition validate_new `{!LimitCheckerOps} (rules : ValidationRequest → result TracerError EvaluationResult)
    (st : ValidationDB) (flt : val_faults) (clk : val_clock) (validationID : uuid)
    (req : ValidationRequest) : ValidationDB * result TracerError ValidateResult :=
  let response := NewValidationResponse validationID (vr_RequestID req) DecisionAllow (vc_start clk) in
  match rules req with
  | Err e => (st, Err e)
  | Ok evalResult =>
  let response := with_result response evalResult (vc_elapsed clk) in
  if bool_decide (er_Decision evalResult = DecisionDeny) then
    let '(st', out) := finalizeDenyByRule st flt clk req response in (st', Ok out)
  else if vf_begin flt then (st, Err DbError) else
  match CheckLimits (vd_counters st) (ToCheckLimitsInput req) (vc_check clk) with
  | (_, Err e) => (st, Err e)
  | (counters, Ok limitOutput) =>
  let tx := {| vd_counters := counters; vd_validations := vd_validations st; vd_audit := vd_audit st |} in
  let response := with_limits response limitOutput in
  if negb (co_Allowed limitOutput) then
    let '(st', out) := finalizeNonAllow st flt clk req
                         (with_result response (deny_by_limit (vp_Result response)) (vc_elapsed clk)) in
    (st', Ok out)
  else if bool_decide (er_Decision evalResult = DecisionReview) then
    let '(st', out) := finalizeNonAllow st flt clk req response in (st', Ok out)
  else
    match commitAllowPath st tx flt clk req response with
    | (st', Err e) => (st', Err e)
    | (st', Ok (Some dup)) => (st', Ok dup)
    | (st', Ok None) => (st', Ok {| vl_Response := response; vl_IsDuplicate := false |})
    end
  end end.

(** [Validate] *)
Definition Validate `{!LimitCheckerOps} (rules : ValidationRequest → result TracerError EvaluationResult)
    (st : ValidationDB) (cancelled : bool) (flt : val_faults) (clk : val_clock) (validationID : uuid)
    (req : option ValidationRequest) : ValidationDB * result TracerError ValidateResult :=
  if cancelled then (st, Err ErrContextCancelled) else
  match req with
  | None => (st, Err ErrNilValidationRequest)
  | Some req =>
      match FindByRequestID st (vf_find flt) (vr_RequestID req) with
      | Err e => (st, Err e)
      | Ok (Some existing) =>
          (st, Ok {| vl_Response := ToValidationResponse existing; vl_IsDuplicate := true |})
      | Ok None => validate_new rules st flt clk validationID req
      end
  end.

End Service.

(** ** What a validation does to the database *)

Section Effects.
Context `{DecimalLib, UuidNil}.

(** The record of the response is built and inserted. *)
Definition inserted (st : ValidationDB) (clk : val_clock) (req : ValidationRequest)
    (resp : ValidationResponse) (st' : ValidationDB) : Prop :=
  ∃ tv, buildTransactionValidation req resp (vc_persist clk) = Ok tv ∧
        InsertValidation st false tv = Ok st'.

Definition answer (resp : ValidationResponse) : result TracerError ValidateResult :=
  Ok {| vl_Response := resp; vl_IsDuplicate := false |}.
Definition replay (tv : TransactionValidation) : result TracerError ValidateResult :=
  Ok {| vl_Response := ToValidationResponse tv; vl_IsDuplicate := true |}.

Inductive validated `{!LimitCheckerOps} (st : ValidationDB) (clk : val_clock) (id : uuid)
    (req : ValidationRequest) : ValidationDB → result TracerError ValidateResult → Prop :=
  | validated_error e : validated st clk id req st (Err e)
  | validated_duplicate tv :
      tv ∈ vd_validations st → tv_RequestID tv = vr_RequestID req → validated st clk id req st (replay tv)
  | validated_allow counters out resp tx st' :
      CheckLimits (vd_counters st) (ToCheckLimitsInput req) (vc_check clk) = (counters, Ok out) →
      co_Allowed out = true → er_Decision (vp_Result resp) = DecisionAllow → vp_ValidationID resp = id →
      inserted {| vd_counters := counters; vd_validations := vd_validations st;
                  vd_audit := vd_audit st |} clk req resp tx →
      RecordValidationEvent tx false req resp = Ok st' →
      validated st clk id req st' (answer resp)
  | validated_other resp st1 st' :
      er_Decision (vp_Result resp) = DecisionDeny ∨ er_Decision (vp_Result resp) = DecisionReview →
      vp_ValidationID resp = id → st1 = st ∨ inserted st clk req resp st1 →
      st' = st1 ∨ RecordValidationEvent st1 false req resp = Ok st' →
      validated st clk id req st' (answer resp).

Lemma insert_no_fault st b tv st' : InsertValidation st b tv = Ok st' → InsertValidation st false tv = Ok st'.
Proof. by destruct b. Qed.

Lemma audit_no_fault st b req resp st' :
  RecordValidationEvent st b req resp = Ok st' → RecordValidationEvent st false req resp = Ok st'.
Proof. by destruct b. Qed.

Lemma persist_cases st flt clk req resp st1 res :
  persistTransactionValidation st flt clk req resp = (st1, res) →
  (res = Ok tt ∧ (st1 = st ∨ inserted st clk req resp st1)) ∨ (res = Err ErrDuplicateValidation ∧ st1 = st).
Proof.
  unfold persistTransactionValidation.
  destruct (buildTransactionValidation _ _ _) as [tv|] eqn:Eb; [|intros [= <- <-]; auto].
  destruct (InsertValidation _ _ _) as [st2|e] eqn:Ei.
  - intros [= <- <-]. left. split; [done|right]. exists tv. split; [done|]. by eapply insert_no_fault.
  - destruct e; intros [= <- <-]; auto.
Qed.

Lemma find_by_request st b id tv :
  FindByRequestID st b id = Ok (Some tv) → tv ∈ vd_validations st ∧ tv_RequestID tv = id.
Proof.
  unfold FindByRequestID. case_bool_decide; [done|]. destruct b; [done|]. intros [= E].
  apply find_some in E as [Hin E]. apply bool_decide_eq_true in E. split; [by apply list_elem_of_In|done].
Qed.

Lemma duplicate_cases st flt e req d : handleConcurrentDuplicate st flt e req = Some d →
  ∃ tv, tv ∈ vd_validations st ∧ tv_RequestID tv = vr_RequestID req ∧
        d = {| vl_Response := ToValidationResponse tv; vl_IsDuplicate := true |}.
Proof.
  unfold handleConcurrentDuplicate. case_bool_decide; [cbn [negb]|done].
  destruct (FindByRequestID _ _ _) as [[tv|]|] eqn:E; try done. intros [= <-].
  apply find_by_request in E as [? ?]. by exists tv.
Qed.

Lemma audit_cases st flt req resp :
  persistAuditEvent st flt req resp = st ∨
  RecordValidationEvent st false req resp = Ok (persistAuditEvent st flt req resp).
Proof.
  unfold persistAuditEvent. destruct (RecordValidationEvent _ _ _ _) eqn:E; [right|by left].
  by eapply audit_no_fault.
Qed.

Lemma finalizeNonAllow_same st flt clk req resp :
  finalizeNonAllow st flt clk req resp = finalizeDenyByRule st flt clk req resp.
Proof.
  unfold finalizeNonAllow, rollbackAndPersist, finalizeDenyByRule.
  destruct (persistTransactionValidation _ _ _ _ _) as [st1 [u|e]]; [done|].
  by destruct (handleConcurrentDuplicate _ _ _ _).
Qed.

Lemma finalize_validated `{!LimitCheckerOps} st flt clk id req resp st' out :
  er_Decision (vp_Result resp) = DecisionDeny ∨ er_Decision (vp_Result resp) = DecisionReview →
  vp_ValidationID resp = id → finalizeDenyByRule st flt clk req resp = (st', out) →
  validated st clk id req st' (Ok out).
Proof.
  intros Hd Hid. unfold finalizeDenyByRule.
  destruct (persistTransactionValidation _ _ _ _ _) as [st1 res] eqn:Ep.
  apply persist_cases in Ep as [[-> Hst1]|[-> ->]].
  - intros [= <- <-]. destruct (audit_cases st1 flt req resp) as [->|Ha];
      eapply validated_other; eauto.
  - destruct (handleConcurrentDuplicate _ _ _ _) as [d|] eqn:Ed; intros [= <- <-].
    + apply duplicate_cases in Ed as (tv & ? & ? & ->). by apply validated_duplicate.
    + destruct (audit_cases st flt req resp) as [->|Ha]; eapply validated_other; eauto.
Qed.

Lemma build_fields req resp now tv : buildTransactionValidation req resp now = Ok tv →
  tv_ID tv = vp_ValidationID resp ∧ tv_RequestID tv = vr_RequestID req ∧ tv_Amount tv = vr_Amount req ∧
  tv_Result tv = vp_Result resp ∧ tv_LimitUsageDetails tv = vp_LimitUsageDetails resp ∧
  tv_ProcessingTime tv = vp_ProcessingTime resp ∧ tv_CreatedAt tv = now ∧
  Decision_IsValid (er_Decision (vp_Result resp)) = true ∧ vr_RequestID req ≠ uuid_Nil.
Proof.
  unfold buildTransactionValidation, NewTransactionValidation.
  case_bool_decide; [done|]. destruct (Decision_IsValid _) eqn:Ed; [cbn [negb]|done].
  destruct (time_IsZero _); [done|]. cbn [rbind]. intros (u & Ev & [= <-])%rbind_Ok.
  cbn. split_and!; try done. unfold validateTransactionValidation in Ev. cbn in Ev.
  intros Hr. rewrite Hr in Ev. rewrite (bool_decide_true (uuid_Nil = uuid_Nil)) in Ev by done.
  unfold guard_err in Ev. repeat (case_match; cbn in Ev; try done).
Qed.

Lemma validate_new_validated `{!LimitCheckerOps} rules st flt clk id req st' res :
  validate_new rules st flt clk id req = (st', res) → validated st clk id req st' res.
Proof.
  unfold validate_new. destruct (rules req) as [er|e]; [|intros [= <- <-]; constructor].
  case_bool_decide as Hdeny.
  { destruct (finalizeDenyByRule _ _ _ _ _) as [st1 out] eqn:Ef. intros [= <- <-].
    refine (finalize_validated _ _ _ _ _ _ _ _ _ _ Ef); [by left|done]. }
  destruct (vf_begin flt); [intros [= <- <-]; constructor|].
  destruct (CheckLimits _ _ _) as [counters [lo|e]] eqn:Ec; [|intros [= <- <-]; constructor].
  destruct (co_Allowed lo) eqn:Ea; cbn [negb].
  2:{ rewrite finalizeNonAllow_same. destruct (finalizeDenyByRule _ _ _ _ _) as [st1 out] eqn:Ef.
      intros [= <- <-]. refine (finalize_validated _ _ _ _ _ _ _ _ _ _ Ef); [by left|done]. }
  case_bool_decide as Hrev.
  { rewrite finalizeNonAllow_same. destruct (finalizeDenyByRule _ _ _ _ _) as [st1 out] eqn:Ef.
    intros [= <- <-]. refine (finalize_validated _ _ _ _ _ _ _ _ _ _ Ef); [by right|done]. }
  unfold commitAllowPath, persistTransactionValidationWithTx. set (resp := with_limits _ _).
  destruct (buildTransactionValidation _ _ _) as [tv|e] eqn:Eb; cbn [rbind].
  2:{ destruct (handleConcurrentDuplicate _ _ _ _) as [d|] eqn:Ed; intros [= <- <-]; [|constructor].
      apply duplicate_cases in Ed as (tv & ? & ? & ->). by apply validated_duplicate. }
  destruct (InsertValidation _ _ _) as [tx|e] eqn:Ei.
  2:{ destruct (handleConcurrentDuplicate _ _ _ _) as [d|] eqn:Ed; intros [= <- <-]; [|constructor].
      apply duplicate_cases in Ed as (tv' & ? & ? & ->). by apply validated_duplicate. }
  destruct (RecordValidationEvent _ _ _ _) as [tx2|e] eqn:Er; [|intros [= <- <-]; constructor].
  destruct (vf_commit flt); intros [= <- <-]; [constructor|].
  eapply validated_allow; [exact Ec|exact Ea| |reflexivity| |by eapply audit_no_fault].
  - apply build_fields in Eb as (_ & _ & _ & _ & _ & _ & _ & Hv & _). subst resp. cbn in *.
    destruct (er_Decision er); done.
  - exists tv. split; [done|]. by eapply insert_no_fault.
Qed.

End Effects.

(** ** Every accepted request is counted once *)

Section Accounting.
Context `{DecimalLaws, UuidNil}.

(** An accepted request: its identifier, its amount and the counters it counts on. *)
Record charge := { cg_request : uuid; cg_amount : dec; cg_on : counter_key → bool }.

Definition charge_of `{!LimitCheckerOps} `{!LimitCheckerLaws} (req : ValidationRequest) (clk : val_clock)
    (res : result TracerError ValidateResult) : list charge :=
  match res with
  | Ok out =>
      if negb (vl_IsDuplicate out) && bool_decide (er_Decision (vp_Result (vl_Response out)) = DecisionAllow)
      then [{| cg_request := vr_RequestID req; cg_amount := vr_Amount req;
               cg_on := charges (ToCheckLimitsInput req) (vc_check clk) |}]
      else []
  | Err _ => []
  end.

Definition total (l : list charge) (k : counter_key) : Q :=
  foldr (λ c acc, ((if cg_on c k then dval (cg_amount c) else 0) + acc)%Q) 0%Q l.

(** The database, the requests whose lookup found nothing and that are still being
    processed, and, as history, the accepted requests. *)
Record service := {
  sv_db : ValidationDB; sv_flight : list ValidationRequest; sv_charges : list charge }.

Inductive service_step (s : service) : service → Prop :=
  | service_lookup req :
      FindByRequestID (sv_db s) false (vr_RequestID req) = Ok None →
      service_step s {| sv_db := sv_db s; sv_flight := req :: sv_flight s; sv_charges := sv_charges s |}
  | service_finish (L : LimitCheckerOps) (HL : LimitCheckerLaws) rules flt clk id req before after st' res :
      sv_flight s = before ++ req :: after →
      validate_new rules (sv_db s) flt clk id req = (st', res) →
      service_step s {| sv_db := st'; sv_flight := before ++ after;
                        sv_charges := sv_charges s ++ charge_of req clk res |}.

Inductive service_runs (counters : gmap counter_key CounterRow) : service → Prop :=
  | service_start audit :
      service_runs counters
        {| sv_db := {| vd_counters := counters; vd_validations := []; vd_audit := audit |};
           sv_flight := []; sv_charges := [] |}
  | service_then s s' : service_runs counters s → service_step s s' → service_runs counters s'.

(** A stored record of an accepted request. *)
Definition accepted (tv : TransactionValidation) : Prop := er_Decision (tv_Result tv) = DecisionAllow.

Record accounted (counters : gmap counter_key CounterRow) (s : service) : Prop := {
  acc_unique : NoDup (tv_RequestID <$> vd_validations (sv_db s));
  acc_charges : (λ c, (cg_request c, cg_amount c)) <$> sv_charges s =
    (λ tv, (tv_RequestID tv, tv_Amount tv)) <$> filter accepted (vd_validations (sv_db s));
  acc_counters k : (dval (committed (vd_counters (sv_db s)) k) ==
    dval (committed counters k) + total (sv_charges s) k)%Q }.

Lemma total_app l1 l2 k : (total (l1 ++ l2) k == total l1 k + total l2 k)%Q.
Proof. induction l1 as [|c l1 IH]; cbn [app total foldr]; [unfold total; cbn; lra|]. fold (total (l1 ++ l2) k).
  fold (total l1 k). rewrite IH. lra. Qed.

Lemma insert_validations st tv st' : InsertValidation st false tv = Ok st' →
  vd_counters st' = vd_counters st ∧ vd_validations st' = vd_validations st ++ [stored tv] ∧
  vd_audit st' = vd_audit st ∧ Forall (λ row, tv_RequestID row ≠ tv_RequestID tv) (vd_validations st).
Proof.
  unfold InsertValidation. destruct (existsb _ _) eqn:Ee; [done|]. intros [= <-]. split_and!; try done.
  apply Forall_forall. intros row Hrow Heq.
  assert (existsb (λ row, bool_decide (tv_ID row = tv_ID tv ∨ tv_RequestID row = tv_RequestID tv))
            (vd_validations st) = true) as C; [|by rewrite Ee in C].
  apply existsb_exists. exists row. split; [by apply list_elem_of_In|].
  apply bool_decide_eq_true. by right.
Qed.

Lemma audit_validations st b req resp st' : RecordValidationEvent st b req resp = Ok st' →
  vd_counters st' = vd_counters st ∧ vd_validations st' = vd_validations st.
Proof. unfold RecordValidationEvent. destruct b; [done|]. destruct (existsb _ _); by intros [= <-]. Qed.

Lemma nodup_snoc (l : list TransactionValidation) tv :
  NoDup (tv_RequestID <$> l) → Forall (λ row, tv_RequestID row ≠ tv_RequestID tv) l →
  NoDup (tv_RequestID <$> (l ++ [stored tv])).
Proof.
  intros Hnd Hf. rewrite fmap_app. apply NoDup_app. split_and!; [done| |apply NoDup_singleton].
  intros x Hx Hx'. apply list_elem_of_singleton in Hx'. subst x.
  apply list_elem_of_fmap in Hx as (row & Heq & Hrow). rewrite Forall_forall in Hf.
  by apply (Hf row Hrow).
Qed.

Lemma accounted_step counters s s' : accounted counters s → service_step s s' → accounted counters s'.
Proof.
  intros [Hu Hc Hk] [req Hfind|L HL rules flt clk id req before after st' res Hfl Ev]; [by split|].
  apply validate_new_validated in Ev.
  destruct Ev as [e|tv Hin Hreq|cnt out resp tx st' Ec Ea Hd Hid (tv & Eb & Ei) Er|resp st1 st' Hd Hid H1' H2'].
  - split; cbn [sv_db sv_charges charge_of]; rewrite ?app_nil_r; done.
  - split; cbn [sv_db sv_charges charge_of replay vl_IsDuplicate negb andb]; rewrite ?app_nil_r; done.
  - apply insert_validations in Ei as (Ecn & Ev & _ & Hf). cbn in Ecn, Ev, Hf.
    apply audit_validations in Er as [Ecn' Ev'].
    apply build_fields in Eb as (_ & Hr & Ham & Hres & _).
    split; cbn [sv_db sv_charges charge_of answer vl_IsDuplicate vl_Response negb andb].
    + rewrite Ev', Ev. by apply nodup_snoc.
    + rewrite Ev', Ev, bool_decide_true by done. rewrite fmap_app, filter_app, fmap_app, Hc.
      f_equal. rewrite filter_cons_True; [|unfold accepted; cbn; by rewrite Hres].
      cbn. by rewrite Hr, Ham.
    + intros k. rewrite Ecn', Ecn, bool_decide_true by done. rewrite total_app.
      rewrite (CheckLimits_counts _ _ _ _ _ Ec Ea k), (Hk k). cbn [total foldr cg_on cg_amount].
      change (ci_Amount (ToCheckLimitsInput req)) with (vr_Amount req). lra.
  - assert (er_Decision (vp_Result resp) ≠ DecisionAllow) as Hna by (destruct Hd; congruence).
    assert (vd_counters st' = vd_counters st1 ∧ vd_validations st' = vd_validations st1) as [Ecn Ev].
    { destruct H2' as [->|Ha]; [done|]. by eapply audit_validations. }
    split; cbn [sv_db sv_charges charge_of answer vl_IsDuplicate vl_Response negb andb];
      rewrite ?(bool_decide_false _ Hna), ?app_nil_r, ?Ecn, ?Ev;
      (destruct H1' as [->|(tv & Eb & Ei)]; [done|]);
      apply insert_validations in Ei as (Ecn1 & Ev1 & _ & Hf); rewrite ?Ecn1, ?Ev1;
      apply build_fields in Eb as (_ & Hr & _ & Hres & _); [by apply nodup_snoc| |done].
    rewrite filter_app, filter_cons_False, filter_nil, app_nil_r; [done|].
    unfold accepted. cbn. by rewrite Hres.
Qed.

(** C5: However requests are repeated, interleaved and interrupted by failures, every
    counter holds what it held at the start plus the amounts of the accepted requests
    that count on it, the accepted requests are exactly those with a stored record that
    allows them, and no request identifier has two records: an accepted request is
    counted exactly once, any other request not at all. *)
Theorem validations_count_once counters s (Hruns : service_runs counters s) :
  NoDup (tv_RequestID <$> vd_validations (sv_db s)) ∧
  (λ c, (cg_request c, cg_amount c)) <$> sv_charges s =
    (λ tv, (tv_RequestID tv, tv_Amount tv)) <$> filter accepted (vd_validations (sv_db s)) ∧
  ∀ k, (dval (committed (vd_counters (sv_db s)) k) ==
        dval (committed counters k) + total (sv_charges s) k)%Q.
Proof.
  assert (accounted counters s) as [? ? ?]; [|done].
  induction Hruns as [audit|s s' _ IH Hs]; [|by eapply accounted_step].
  split; [constructor|done|]. intros k. cbn. lra.
Qed.

End Accounting.

(** ** The limit checker of the tracer keeps the promise *)

Section Implementation.
Context `{DecimalLaws, UuidNil, CurrencyLib}.

(** The limits that apply to an input, with valid types and distinct identifiers, and
    the limits whose statements fail. *)
Record limit_source := {
  ls_limits : CheckLimitsInput → result TracerError (list Limit);
  ls_fail : uuid → bool;
  ls_ok input limits : ls_limits input = Ok limits →
    Forall (λ l, LimitType_IsValid (lim_LimitType l) = true) limits ∧ NoDup (lim_ID <$> limits) }.

Definition checker (src : limit_source) : LimitCheckerOps := {|
  CheckLimits db input now := checkLimitsInternal db (ls_fail src) (Some input) (ls_limits src) now |}.

Definition source_charges (src : limit_source) (input : CheckLimitsInput) (now : time)
    (k : counter_key) : bool :=
  match ls_limits src input with
  | Ok limits => existsb (λ l, in_force l now && bool_decide (limit_counter l input now = Some k)) limits
  | Err _ => false
  end.

Lemma existsb_admitted db input now k limits :
  forallb (λ l, limit_admits db l input now) limits = true →
  existsb (λ l, counted db l input now k) limits =
  existsb (λ l, in_force l now && bool_decide (limit_counter l input now = Some k)) limits.
Proof.
  induction limits as [|l limits IH]; [done|]. cbn [forallb existsb]. intros [Ha Hl]%andb_true_iff.
  rewrite (IH Hl). unfold counted. by rewrite Ha, andb_true_r.
Qed.

(** A check that returns validated its input and read its limits. *)
Lemma checked_input src db input now db' out :
  CheckLimits (LimitCheckerOps := checker src) db input now = (db', Ok out) →
  CheckLimitsInput_validate input true = Ok tt ∧ ∃ limits, ls_limits src input = Ok limits.
Proof.
  cbn. unfold checkLimitsInternal.
  destruct (CheckLimitsInput_validate input true) as [[]|]; [|done].
  destruct (ls_limits src input) as [l|]; [|done]. eauto.
Qed.

Lemma checker_exact src db input now db' out limits :
  CheckLimits (LimitCheckerOps := checker src) db input now = (db', Ok out) →
  ls_limits src input = Ok limits →
  co_Allowed out = forallb (λ l, limit_admits db l input now) limits ∧
  ∀ k, (dval (committed db' k) == dval (committed db k) +
        (if existsb (λ l, counted db l input now k) limits then dval (ci_Amount input) else 0))%Q.
Proof.
  intros E Hl. destruct (checked_input _ _ _ _ _ _ E) as [Hv _]. destruct (ls_ok _ _ _ Hl) as [Hty Hnd].
  destruct (check_limits_outcome db input limits now Hv Hty Hnd) as (db2 & out2 & E2 & Ha & _ & Hk).
  assert ((db', Ok out : result TracerError _) = (db2, Ok out2)) as [= -> ->]; [|done].
  rewrite <- E2. cbn [CheckLimits checker] in E. apply check_limits_no_fault in E. rewrite <- E.
  unfold checkLimitsInternal. by rewrite Hl.
Qed.

#[export] Instance checker_laws src : LimitCheckerLaws (H3 := checker src).
Proof.
  refine {| charges := source_charges src |}. intros db input now db' out E Ha k.
  destruct (checked_input _ _ _ _ _ _ E) as [_ [limits Hl]].
  destruct (checker_exact _ _ _ _ _ _ _ E Hl) as [Hall Hk]. rewrite (Hk k).
  unfold source_charges. rewrite Hl, <- (existsb_admitted db) by congruence. done.
Defined.

End Implementation.

(** ** The decision *)

Section Decision.
Context `{DecimalLaws, UuidNil, CurrencyLib}.

(** What a validated request guarantees of its record. *)
Record request_ok (req : ValidationRequest) : Prop := {
  ro_id : vr_RequestID req ≠ uuid_Nil;
  ro_type : TransactionType_IsValid (vr_TransactionType req) = true;
  ro_amount : dle (vr_Amount req) dzero = false;
  ro_currency : vr_Currency req ≠ "";
  ro_timestamp : time_IsZero (vr_TransactionTimestamp req) = false;
  ro_account : ac_ID (vr_Account req) ≠ uuid_Nil;
  ro_input : CheckLimitsInput_validate (ToCheckLimitsInput req) true = Ok tt }.

Lemma validated_request_ok r now req : NormalizeAndValidate r now = (req, Ok tt) → request_ok req.
Proof.
  unfold NormalizeAndValidate, normalizeAndValidateWith. set (t := with_SubType r _).
  destruct (ValidationRequest_Validate t now) as [[]|] eqn:E; [|done]. intros [= <-].
  unfold ValidationRequest_Validate in E. case_bool_decide; [done|].
  destruct (TransactionType_IsValid (vr_TransactionType t)) eqn:Ety; [|done]. cbn [negb] in E.
  apply rbind_Ok in E as ([] & E1 & E). case_bool_decide as Hacc; [done|].
  apply rbind_Ok in E as ([] & E2 & E). apply rbind_Ok in E as ([] & E3 & _).
  destruct (validate_core _ _ E1) as (Ha & Hc & Ht).
  split; try done; [|by apply (request_input_ok t now true); auto].
  intros Hcur. unfold validateAmountCurrencyTimestamp in E1. rewrite Ha, bool_decide_true in E1 by done. done.
Qed.

Lemma build_ok req resp now : request_ok req → Decision_IsValid (er_Decision (vp_Result resp)) = true →
  vp_ValidationID resp ≠ uuid_Nil → time_IsZero now = false →
  ∃ tv, buildTransactionValidation req resp now = Ok tv.
Proof.
  intros [Hi Hty Ha Hc Ht Hacc _] Hd Hid Hnow.
  unfold buildTransactionValidation, NewTransactionValidation.
  rewrite bool_decide_false, Hd, Hnow by done. cbn [negb rbind].
  unfold validateTransactionValidation.
  cbn [tv_ID tv_Result tv_RequestID tv_TransactionType tv_Amount tv_Currency tv_TransactionTimestamp tv_Account].
  rewrite !bool_decide_false, Hd, Hty, Ha, Ht by done. cbn. eauto.
Qed.

(** Neither the request nor the identifier has a record or an event. *)
Record fresh_for (st : ValidationDB) (id : uuid) (req : ValidationRequest) : Prop := {
  fr_request : Forall (λ tv, tv_ID tv ≠ id ∧ tv_RequestID tv ≠ vr_RequestID req) (vd_validations st);
  fr_audit : Forall (λ ev, va_ResourceID ev ≠ id) (vd_audit st) }.

Lemma existsb_none {A} (f : A → bool) l : Forall (λ x, f x = false) l → existsb f l = false.
Proof. induction 1 as [|x l Hx _ IH]; [done|]. cbn [existsb]. by rewrite Hx. Qed.

Lemma insert_ok st id req tv : fresh_for st id req → tv_ID tv = id → tv_RequestID tv = vr_RequestID req →
  InsertValidation st false tv = Ok {| vd_counters := vd_counters st;
    vd_validations := vd_validations st ++ [stored tv]; vd_audit := vd_audit st |}.
Proof.
  intros [Hf _] Hid Hreq. unfold InsertValidation. rewrite existsb_none; [done|].
  eapply Forall_impl; [exact Hf|]. intros row [Hn1 Hn2]. apply bool_decide_eq_false.
  intros [?|?]; congruence.
Qed.

Lemma audit_ok (st : ValidationDB) req resp : Forall (λ ev, va_ResourceID ev ≠ vp_ValidationID resp) (vd_audit st) →
  ∃ ev, va_ResourceID ev = vp_ValidationID resp ∧
    va_AuditResult ev = DecisionToAuditResult (er_Decision (vp_Result resp)) ∧
    RecordValidationEvent st false req resp = Ok {| vd_counters := vd_counters st;
      vd_validations := vd_validations st; vd_audit := vd_audit st ++ [ev] |}.
Proof.
  intros Hf. unfold RecordValidationEvent. rewrite existsb_none.
  - eexists. split_and!; [| |reflexivity]; done.
  - eapply Forall_impl; [exact Hf|]. intros ev Hev. by apply bool_decide_eq_false.
Qed.

(** The outcome is stored: one record and one audit event of the response. *)
Definition recorded (st : ValidationDB) (id : uuid) (req : ValidationRequest) (d : Decision)
    (st' : ValidationDB) : Prop :=
  ∃ tv ev, vd_validations st' = vd_validations st ++ [tv] ∧ vd_audit st' = vd_audit st ++ [ev] ∧
    tv_ID tv = id ∧ tv_RequestID tv = vr_RequestID req ∧ er_Decision (tv_Result tv) = d ∧
    va_ResourceID ev = id ∧ va_AuditResult ev = DecisionToAuditResult d.

Lemma finalize_records st clk id req resp :
  request_ok req → fresh_for st id req → id ≠ uuid_Nil → time_IsZero (vc_persist clk) = false →
  vp_ValidationID resp = id → Decision_IsValid (er_Decision (vp_Result resp)) = true →
  ∃ st', finalizeDenyByRule st no_val_faults clk req resp =
           (st', {| vl_Response := resp; vl_IsDuplicate := false |}) ∧
    recorded st id req (er_Decision (vp_Result resp)) st' ∧ vd_counters st' = vd_counters st.
Proof.
  intros Hreq Hf Hid Hclk Hrid Hd.
  destruct (build_ok req resp (vc_persist clk) Hreq Hd ltac:(congruence) Hclk) as [tv Eb].
  destruct (build_fields _ _ _ _ Eb) as (Hti & Htr & _ & Hres & _).
  unfold finalizeDenyByRule, persistTransactionValidation, persistAuditEvent. rewrite Eb.
  cbn [vf_insert vf_audit no_val_faults]. rewrite (insert_ok st id req tv Hf) by congruence.
  set (st1 := {| vd_counters := _ |}).
  destruct (audit_ok st1 req resp) as (ev & He & Hr & ->).
  { rewrite Hrid. apply Hf. }
  eexists. split; [reflexivity|]. split; [|done]. exists (stored tv), ev.
  cbn. split_and!; try done; congruence.
Qed.

Lemma lookup_none st id req : request_ok req → fresh_for st id req →
  FindByRequestID st false (vr_RequestID req) = Ok None.
Proof.
  intros Hreq [Hf _]. unfold FindByRequestID. rewrite bool_decide_false by apply Hreq. f_equal.
  induction Hf as [|tv l [_ Htv] _ IH]; [done|]. cbn [find]. by rewrite bool_decide_false.
Qed.

(** The decision: a rule that denies, a limit that does not admit the transaction, and
    otherwise what the rules decide. *)
Definition verdict (rules : Decision) (admitted : bool) : Decision :=
  match rules with DecisionDeny => DecisionDeny | d => if admitted then d else DecisionDeny end.

(** C25: With a database that answers, a request that passed validation and was not
    seen before gets the decision of the rules, or a denial if a limit in force does
    not admit it; exactly one record and one audit event with that decision are stored,
    and the amount is added to the counters of the limits in force exactly when the
    decision is to allow. *)
Theorem validation_decides rules src st clk id r now req er limits
    (Hreq : NormalizeAndValidate r now = (req, Ok tt))
    (Hr : rules req = Ok er) (Hd : Decision_IsValid (er_Decision er) = true)
    (Hl : ls_limits src (ToCheckLimitsInput req) = Ok limits) (Hnf : ls_fail src = λ _, false)
    (Hfresh : fresh_for st id req) (Hid : id ≠ uuid_Nil) (Hclk : time_IsZero (vc_persist clk) = false) :
  let input := ToCheckLimitsInput req in
  let admitted := forallb (λ l, limit_admits (vd_counters st) l input (vc_check clk)) limits in
  let d := verdict (er_Decision er) admitted in
  ∃ st' resp,
    Validate (H2 := checker src) rules st false no_val_faults clk id (Some req)
      = (st', answer resp) ∧
    er_Decision (vp_Result resp) = d ∧ recorded st id req d st' ∧
    ∀ k, (dval (committed (vd_counters st') k) == dval (committed (vd_counters st) k) +
          (if bool_decide (d = DecisionAllow) && source_charges src input (vc_check clk) k
           then dval (vr_Amount req) else 0))%Q.
Proof.
  intros input admitted d. pose proof (validated_request_ok _ _ _ Hreq) as Hok.
  unfold Validate. cbn [vf_find no_val_faults]. rewrite (lookup_none _ _ _ Hok Hfresh).
  unfold validate_new. rewrite Hr. set (resp0 := with_result _ er _).
  case_bool_decide as Hdeny.
  { destruct (finalize_records st clk id req resp0 Hok Hfresh Hid Hclk eq_refl Hd) as (st' & -> & Hrec & Hc).
    exists st', resp0. assert (d = DecisionDeny) as -> by (subst d; unfold verdict; by rewrite Hdeny).
    cbn in Hrec. rewrite Hdeny in Hrec. split_and!; try done. intros k. rewrite Hc, bool_decide_false by done. cbn [andb]. lra. }
  cbn [vf_begin no_val_faults].
  destruct (ls_ok _ _ _ Hl) as [Hty Hnd].
  destruct (check_limits_outcome (vd_counters st) input limits (vc_check clk) (ro_input _ Hok) Hty Hnd)
    as (cnt & out & Ec & Ha & _ & Hk).
  assert (CheckLimits (LimitCheckerOps := checker src) (vd_counters st) (ToCheckLimitsInput req)
            (vc_check clk) = (cnt, Ok out)) as ->.
  { rewrite <- Ec. subst input. cbn [CheckLimits checker]. unfold checkLimitsInternal. by rewrite Hl, Hnf. }
  fold admitted in Ha. rewrite Ha. destruct admitted eqn:Ead; cbn [negb].
  2:{ rewrite finalizeNonAllow_same.
      set (resp := with_result _ (deny_by_limit _) _).
      destruct (finalize_records st clk id req resp Hok Hfresh Hid Hclk eq_refl eq_refl)
        as (st' & -> & Hrec & Hc).
      exists st', resp. assert (d = DecisionDeny) as -> by (subst d; by destruct (er_Decision er)).
      split_and!; try done. intros k. rewrite Hc, bool_decide_false by done. cbn [andb]. lra. }
  set (resp := with_limits _ _).
  assert (d = er_Decision er) as -> by (subst d; by destruct (er_Decision er)).
  case_bool_decide as Hrev.
  { rewrite finalizeNonAllow_same.
    destruct (finalize_records st clk id req resp Hok Hfresh Hid Hclk eq_refl Hd) as (st' & -> & Hrec & Hc).
    exists st', resp. split_and!; try done. intros k. rewrite Hc, bool_decide_false by congruence.
    cbn [andb]. lra. }
  assert (er_Decision er = DecisionAllow) as Hal by (destruct (er_Decision er); done).
  destruct (build_ok req resp (vc_persist clk) Hok Hd Hid Hclk) as [tv Eb].
  destruct (build_fields _ _ _ _ Eb) as (Hti & Htr & _ & Hres & _).
  unfold commitAllowPath, persistTransactionValidationWithTx. rewrite Eb. cbn [rbind vf_insert no_val_faults].
  set (tx := {| vd_counters := cnt |}).
  assert (fresh_for tx id req) as Hftx by (split; apply Hfresh).
  rewrite (insert_ok tx id req tv Hftx Hti Htr). set (tx1 := {| vd_counters := vd_counters tx |}).
  destruct (audit_ok tx1 req resp ltac:(apply Hfresh)) as (ev & He & Hres' & Er).
  cbn [vf_audit vf_commit no_val_faults]. rewrite Er. eexists _, resp. split; [reflexivity|]. split; [done|]. split.
  - exists (stored tv), ev. cbn. split_and!; try done. cbn. by rewrite Hres.
  - intros k. cbn [vd_counters]. rewrite bool_decide_true by done. etransitivity; [exact (Hk k)|]. cbn [andb].
    unfold source_charges. subst input. rewrite Hl, <- (existsb_admitted (vd_counters st)) by done. done.
Qed.

End Decision.

(** ** All or nothing, and replays *)

Section Replays.
Context `{DecimalLib, UuidNil}.

Lemma Validate_validated `{!LimitCheckerOps} rules st cancelled flt clk id req st' res :
  Validate rules st cancelled flt clk id (Some req) = (st', res) → validated st clk id req st' res.
Proof.
  unfold Validate. destruct cancelled; [intros [= <- <-]; constructor|].
  destruct (FindByRequestID _ _ _) as [[tv|]|] eqn:E; [|apply validate_new_validated|].
  - intros [= <- <-]. apply find_by_request in E as [? ?]. by apply validated_duplicate.
  - intros [= <- <-]. constructor.
Qed.

Lemma audit_present st req resp st' : RecordValidationEvent st false req resp = Ok st' →
  ∃ ev, ev ∈ vd_audit st' ∧ va_ResourceID ev = vp_ValidationID resp.
Proof.
  unfold RecordValidationEvent. destruct (existsb _ _) eqn:E.
  - intros [= <-]. apply existsb_exists in E as (ev & Hev & E). apply bool_decide_eq_true in E.
    exists ev. split; [by apply list_elem_of_In|done].
  - intros [= <-]. eexists. cbn. split; [apply elem_of_app; right; by apply list_elem_of_singleton|done].
Qed.

(** Whatever fails, a validation that ends with an error leaves the database as it
    was; a duplicate leaves it too and answers with the stored record of its request; an
    allowed transaction commits the counters of the limit check together with its record
    and its audit event; and any other answer leaves the counters as they were. *)
Theorem validation_all_or_nothing `{!LimitCheckerOps} rules st cancelled flt clk id req st' res
    (E : Validate rules st cancelled flt clk id (Some req) = (st', res)) :
  match res with
  | Err _ => st' = st
  | Ok out =>
      if vl_IsDuplicate out then
        st' = st ∧ ∃ tv, tv ∈ vd_validations st ∧ tv_RequestID tv = vr_RequestID req ∧
                         vl_Response out = ToValidationResponse tv
      else if bool_decide (er_Decision (vp_Result (vl_Response out)) = DecisionAllow) then
        (∃ lo, CheckLimits (vd_counters st) (ToCheckLimitsInput req) (vc_check clk) =
                 (vd_counters st', Ok lo) ∧ co_Allowed lo = true) ∧
        (∃ tv, buildTransactionValidation req (vl_Response out) (vc_persist clk) = Ok tv ∧
               vd_validations st' = vd_validations st ++ [stored tv]) ∧
        (∃ ev, ev ∈ vd_audit st' ∧ va_ResourceID ev = id)
      else vd_counters st' = vd_counters st
  end.
Proof.
  apply Validate_validated in E.
  destruct E as [e|tv Hin Hreq|cnt out resp tx st' Ec Ea Hd Hid (tv & Eb & Ei) Er|resp st1 st' Hd Hid Hi Ha];
    cbn [replay answer vl_IsDuplicate vl_Response]; [done|by eauto| |].
  - rewrite bool_decide_true by done.
    destruct (audit_present _ _ _ _ Er) as (ev & Hev & Hid'). apply audit_validations in Er as [E1 E2].
    apply insert_validations in Ei as (E3 & E4 & _). cbn in E3, E4. rewrite E1, E2, E3, E4.
    split_and!; [by exists out|by exists tv|]. exists ev. by rewrite Hid', Hid.
  - rewrite bool_decide_false by (destruct Hd; congruence).
    assert (vd_counters st' = vd_counters st1) as ->.
    { destruct Ha as [->|Ha]; [done|]. by apply audit_validations in Ha as [-> _]. }
    destruct Hi as [->|(tv & _ & Ei)]; [done|]. by apply insert_validations in Ei as (-> & _).
Qed.

(** What a replay returns of a response: the counts of loaded rules and the internal
    fields of the details are not stored, and the time is that of the record. *)
Definition replayed (resp : ValidationResponse) (createdAt : time) : ValidationResponse := {|
  vp_ValidationID := vp_ValidationID resp; vp_RequestID := vp_RequestID resp;
  vp_Result := {| er_Decision := er_Decision (vp_Result resp);
                  er_MatchedRuleIDs := er_MatchedRuleIDs (vp_Result resp);
                  er_EvaluatedRuleIDs := er_EvaluatedRuleIDs (vp_Result resp);
                  er_Reason := er_Reason (vp_Result resp);
                  er_TotalRulesLoaded := 0; er_Truncated := false |};
  vp_LimitUsageDetails := stored_detail <$> vp_LimitUsageDetails resp;
  vp_ProcessingTime := vp_ProcessingTime resp; vp_EvaluatedAt := createdAt |}.

Lemma inserted_replay st clk req resp st1 : inserted st clk req resp st1 →
  ∃ tv, vd_validations st1 = vd_validations st ++ [tv] ∧ tv_RequestID tv = vr_RequestID req ∧
    vr_RequestID req ≠ uuid_Nil ∧
    (vp_RequestID resp = vr_RequestID req → ToValidationResponse tv = replayed resp (vc_persist clk)).
Proof.
  intros (tv & Eb & Ei). apply build_fields in Eb as (Hi & Hr & _ & Hres & Hdet & Hpt & Hct & _ & Hn).
  apply insert_validations in Ei as (_ & Ev & _). exists (stored tv). split_and!; [done|done|done|].
  intros Hrq. unfold ToValidationResponse, replayed, stored.
  cbn [tv_ID tv_RequestID tv_Result tv_LimitUsageDetails tv_ProcessingTime tv_CreatedAt
       er_Decision er_MatchedRuleIDs er_EvaluatedRuleIDs er_Reason].
  by rewrite Hi, Hr, Hres, Hdet, Hpt, Hct, Hrq.
Qed.

Lemma find_unique (l : list TransactionValidation) tv :
  NoDup (tv_RequestID <$> l) → tv ∈ l →
  find (λ row, bool_decide (tv_RequestID row = tv_RequestID tv)) l = Some tv.
Proof.
  induction l as [|x l IH]; intros Hnd Hin; [by apply elem_of_nil in Hin|]. cbn [find].
  cbn in Hnd. apply NoDup_cons in Hnd as [Hx Hnd].
  apply elem_of_cons in Hin as [->|Hin]; [by rewrite bool_decide_true|].
  rewrite bool_decide_false; [by apply IH|]. intros Heq. apply Hx. rewrite Heq.
  by apply list_elem_of_fmap_2.
Qed.

Lemma response_request `{!LimitCheckerOps} rules st cancelled flt clk id req st' resp :
  Validate rules st cancelled flt clk id (Some req) = (st', answer resp) →
  vp_RequestID resp = vr_RequestID req.
Proof.
  unfold Validate, validate_new, answer. destruct cancelled; [done|].
  destruct (FindByRequestID _ _ _) as [[tv|]|]; [done| |done].
  destruct (rules req) as [er|]; [|done].
  assert (∀ st' (r : ValidationResponse), finalizeDenyByRule st flt clk req r =
            (st', {| vl_Response := resp; vl_IsDuplicate := false |}) → r = resp) as Hf.
  { intros st2 r. unfold finalizeDenyByRule.
    destruct (persistTransactionValidation _ _ _ _ _) as [st3 [[]|e]]; [by intros [= _ ->]|].
    destruct (handleConcurrentDuplicate _ _ _ _) as [d|] eqn:Ed; [|by intros [= _ ->]].
    apply duplicate_cases in Ed as (tv & _ & _ & ->). done. }
  case_bool_decide; [destruct (finalizeDenyByRule _ _ _ _ _) eqn:E; intros [= _ ->]; by rewrite <- (Hf _ _ E)|].
  destruct (vf_begin flt); [done|]. destruct (CheckLimits _ _ _) as [cnt [lo|]]; [|done].
  destruct (negb _).
  { rewrite !finalizeNonAllow_same. destruct (finalizeDenyByRule _ _ _ _ _) eqn:E.
    intros [= _ ->]; by rewrite <- (Hf _ _ E). }
  case_bool_decide.
  { rewrite !finalizeNonAllow_same. destruct (finalizeDenyByRule _ _ _ _ _) eqn:E.
    intros [= _ ->]; by rewrite <- (Hf _ _ E). }
  unfold commitAllowPath. destruct (persistTransactionValidationWithTx _ _ _ _ _).
  - destruct (RecordValidationEvent _ _ _ _); [|done]. destruct (vf_commit _); [done|]. by intros [= _ <-].
  - destruct (handleConcurrentDuplicate _ _ _ _) as [d|] eqn:Ed; [|done].
    apply duplicate_cases in Ed as (tv & _ & _ & ->). done.
Qed.

(** Once the record of an answer is stored, every later request with the same
    identifier, whatever its content and whatever the rules and limits by then, gets
    that answer again, marked as a duplicate, and changes nothing. *)
Theorem stored_answer_is_final `{L : !LimitCheckerOps} `{L' : !LimitCheckerOps}
    rules st flt clk id req st' resp rules' later flt' clk' id' req'
    (E : Validate (H2 := L) rules st false flt clk id (Some req) = (st', answer resp))
    (Hst : vd_validations st' ≠ vd_validations st)
    (Hlater : vd_validations st' `prefix_of` vd_validations later)
    (Hu : NoDup (tv_RequestID <$> vd_validations later))
    (Hsame : vr_RequestID req' = vr_RequestID req) (Hfind : vf_find flt' = false) :
  Validate (H2 := L') rules' later false flt' clk' id' (Some req') =
    (later, Ok {| vl_Response := replayed resp (vc_persist clk); vl_IsDuplicate := true |}).
Proof.
  pose proof (response_request _ _ _ _ _ _ _ _ _ E) as Hrq. apply Validate_validated in E.
  assert (∃ tv, tv ∈ vd_validations st' ∧ tv_RequestID tv = vr_RequestID req ∧ vr_RequestID req ≠ uuid_Nil ∧
                ToValidationResponse tv = replayed resp (vc_persist clk)) as (tv & Hin & Htr & Hn & Ht).
  { remember (answer resp) as res eqn:Eres. unfold answer in Eres.
    destruct E as [e|tv Hin Hreq|cnt out resp' tx st' Ec Ea Hd Hid Hi Er|resp' st1 st' Hd Hid Hi Ha];
      [done|done| |]; injection Eres as ->.
    - apply audit_validations in Er as [_ ->]. apply inserted_replay in Hi as (tv & -> & ? & ? & Ht).
      exists tv. split_and!; [|done|done|by apply Ht]. apply elem_of_app. right. by apply list_elem_of_singleton.
    - assert (vd_validations st' = vd_validations st1) as Hv.
      { destruct Ha as [->|Ha]; [done|]. by apply audit_validations in Ha as [_ ->]. }
      destruct Hi as [->|Hi]; [by rewrite Hv in Hst|]. rewrite Hv.
      apply inserted_replay in Hi as (tv & -> & ? & ? & Ht).
      exists tv. split_and!; [|done|done|by apply Ht]. apply elem_of_app. right. by apply list_elem_of_singleton. }
  unfold Validate, FindByRequestID. rewrite Hsame, bool_decide_false, Hfind by done. rewrite <- Htr.
  rewrite (find_unique _ tv Hu); [by rewrite Ht|]. destruct Hlater as [l ->]. apply elem_of_app. by left.
Qed.

End Replays.

(** ** Samples *)

Module ValidationSample.
Import TracerSample CheckerSample RuleSample.
#[local] Existing Instances Fixed.lib Numbered.lib Fixed.laws.

Definition no_records : ValidationDB := {| vd_counters := ∅; vd_validations := []; vd_audit := [] |}.
Definition clk : val_clock :=
  {| vc_start := noon; vc_check := noon + 1; vc_persist := noon + 2; vc_elapsed := 5 |}.

(** The rules of [RuleSample] and one daily limit of 100.00 on account 7. *)
Definition rules (max : Z) (l : list Rule) (req : ValidationRequest) : result TracerError EvaluationResult :=
  EvaluateRules (config max) (λ _, false) (load_rules l) req.

Definition src : limit_source.
Proof.
  refine {| ls_limits := λ _, Ok [daily100]; ls_fail := λ _, false |}.
  intros _ limits [= <-]. split; [repeat constructor|apply NoDup_singleton].
Defined.

Definition run (st : ValidationDB) (max : Z) (l : list Rule) (id_ : nat) (req : ValidationRequest) :=
  Validate (H2 := checker src) (rules max l) st false no_val_faults clk (id id_) (Some req).

Definition decision_of (r : result TracerError ValidateResult) : option (Decision * bool) :=
  match r with
  | Ok out => Some (er_Decision (vp_Result (vl_Response out)), vl_IsDuplicate out)
  | Err _ => None
  end.

(** Sixty are allowed and counted; the same request again is a duplicate. *)
Definition paid : ValidationDB := (run no_records 0 [always] 500 (request 60)).1.

Example sixty_allowed :
  decision_of (run no_records 0 [always] 500 (request 60)).2 = Some (DecisionAllow, false) ∧
  decision_of (run paid 0 [always] 501 (request 60)).2 = Some (DecisionAllow, true) ∧
  decision_of (run no_records 0 [always] 500 (request 110)).2 = Some (DecisionDeny, false) ∧
  (dval (committed (vd_counters paid) key7) == 60)%Q.
Proof. vm_compute. repeat split; reflexivity. Qed.

Definition with_metadata (m : Metadata) (r : ValidationRequest) : ValidationRequest := {|
  vr_RequestID := vr_RequestID r; vr_TransactionType := vr_TransactionType r; vr_SubType := vr_SubType r;
  vr_Amount := vr_Amount r; vr_Currency := vr_Currency r;
  vr_TransactionTimestamp := vr_TransactionTimestamp r; vr_Account := vr_Account r;
  vr_Segment := vr_Segment r; vr_Portfolio := vr_Portfolio r; vr_Merchant := vr_Merchant r;
  vr_Metadata := m |}.

(** The record masks the password of the metadata, the audit event of the same
    validation keeps it. *)
Theorem audit_event_keeps_secrets :
  let secret := Some [("password", AnyString "hunter2")] in
  let st := (run no_records 0 [always] 500 (with_metadata secret (request 60))).1 in
  tv_Metadata <$> vd_validations st = [Some [("password", AnyString MaskedValue)]] ∧
  (λ ev, rs_metadata (va_Request ev)) <$> vd_audit st = [secret].
Proof. vm_compute. split; reflexivity. Qed.

(** An evaluation over a truncated list of rules says so; its replay says that nothing
    was truncated and that no rules were loaded. *)
Theorem replay_forgets_truncation :
  let count r := match r with
                 | Ok out => Some (er_TotalRulesLoaded (vp_Result (vl_Response out)),
                                   er_Truncated (vp_Result (vl_Response out)), vl_IsDuplicate out)
                 | Err _ => None
                 end in
  let first := run no_records 1 [always; big] 500 (request 60) in
  count first.2 = Some (2%nat, true, false) ∧
  count (run first.1 1 [always; big] 501 (request 60)).2 = Some (0%nat, false, true).
Proof. vm_compute. split; reflexivity. Qed.

(** Two copies of a request pass the lookup before either is recorded. *)
Definition start : service := {| sv_db := no_records; sv_flight := []; sv_charges := [] |}.
Definition finish (st : ValidationDB) (id_ : nat) :=
  validate_new (H2 := checker src) (rules 0 [always]) st no_val_faults clk (id id_) (request 60).
Definition first_done : ValidationDB := (finish no_records 500).1.
Definition charge60 : list charge :=
  charge_of (H3 := checker src) (request 60) clk (finish no_records 500).2.
Definition both_done : service := {|
  sv_db := (finish first_done 501).1; sv_flight := [];
  sv_charges := charge60 ++ charge_of (H3 := checker src) (request 60) clk (finish first_done 501).2 |}.

Lemma both_runs : service_runs ∅ both_done.
Proof.
  apply (service_then _ {| sv_db := first_done; sv_flight := [request 60]; sv_charges := charge60 |});
    [apply (service_then _ {| sv_db := no_records; sv_flight := [request 60; request 60]; sv_charges := [] |});
       [apply (service_then _ {| sv_db := no_records; sv_flight := [request 60]; sv_charges := [] |});
          [apply (service_then _ start); [apply service_start|]|]|]|].
  - apply (service_lookup start). reflexivity.
  - apply (service_lookup {| sv_db := no_records; sv_flight := [request 60]; sv_charges := [] |}). reflexivity.
  - apply (service_finish {| sv_db := no_records; sv_flight := [request 60; request 60]; sv_charges := [] |}
             (checker src) _ (rules 0 [always]) no_val_faults clk (id 500) (request 60) [] [request 60]);
      [reflexivity|exact (surjective_pairing (finish no_records 500))].
  - apply (service_finish {| sv_db := first_done; sv_flight := [request 60]; sv_charges := charge60 |}
             (checker src) _ (rules 0 [always]) no_val_faults clk (id 501) (request 60) [] []);
      [reflexivity|exact (surjective_pairing (finish first_done 501))].
Qed.

Lemma validations_count_once_witness :
  length (sv_charges both_done) = 1%nat ∧ length (vd_validations (sv_db both_done)) = 1%nat ∧
  (dval (committed (vd_counters (sv_db both_done)) key7) == 0 + total (sv_charges both_done) key7)%Q.
Proof.
  destruct (validations_count_once ∅ both_done both_runs) as (_ & _ & Hk).
  split; [vm_compute; reflexivity|]. split; [vm_compute; reflexivity|]. exact (Hk key7).
Defined.

Lemma validation_decides_witness :
  ∃ st' resp, run no_records 0 [always] 500 (NormalizeAndValidate (request 60) noon).1 = (st', answer resp) ∧
    er_Decision (vp_Result resp) = DecisionAllow ∧ (dval (committed (vd_counters st') key7) == 60)%Q.
Proof.
  set (req := (NormalizeAndValidate (request 60) noon).1).
  assert (NormalizeAndValidate (request 60) noon = (req, Ok tt)) as Hreq.
  { assert ((NormalizeAndValidate (request 60) noon).2 = Ok tt) as E by (vm_compute; reflexivity).
    subst req. destruct (NormalizeAndValidate (request 60) noon) as [q r]. cbn in *. by rewrite E. }
  assert ((er_Decision <$> match rules 0 [always] req with Ok er => Some er | Err _ => None end)
          = Some DecisionAllow) as Hd by (vm_compute; reflexivity).
  destruct (rules 0 [always] req) as [er|] eqn:Er; [|discriminate Hd]. injection Hd as Hd.
  destruct (validation_decides (rules 0 [always]) src no_records clk (id 500) (request 60) noon req er
              [daily100] Hreq Er) as (st' & resp & E & Hdec & _ & Hk).
  - rewrite Hd. reflexivity.
  - reflexivity.
  - reflexivity.
  - split; constructor.
  - discriminate.
  - reflexivity.
  - exists st', resp. split; [exact E|]. rewrite Hd in Hdec, Hk.
    split; [rewrite Hdec; vm_compute; reflexivity|]. rewrite (Hk key7). vm_compute. reflexivity.
Defined.

Lemma validation_all_or_nothing_witness :
  ∃ ev, ev ∈ vd_audit paid ∧ va_ResourceID ev = id 500.
Proof.
  assert (decision_of (run no_records 0 [always] 500 (request 60)).2 = Some (DecisionAllow, false)) as Hd
    by (vm_compute; reflexivity).
  destruct (run no_records 0 [always] 500 (request 60)) as [st' [out|]] eqn:E; [|discriminate Hd].
  injection Hd as Hd Hdup.
  pose proof (validation_all_or_nothing (H2 := checker src) _ _ _ _ _ _ _ _ _ E) as Hall. cbn beta iota in Hall.
  rewrite Hdup, Hd in Hall. destruct Hall as (_ & _ & Hev). unfold paid. rewrite E. exact Hev.
Defined.

Lemma stored_answer_is_final_witness :
  ∃ resp, (run paid 0 [big] 501 (request 500)) = (paid, Ok {| vl_Response := resp; vl_IsDuplicate := true |}) ∧
    er_Decision (vp_Result resp) = DecisionAllow.
Proof.
  assert (decision_of (run no_records 0 [always] 500 (request 60)).2 = Some (DecisionAllow, false)) as Hd
    by (vm_compute; reflexivity).
  destruct (run no_records 0 [always] 500 (request 60)) as [st' [out|]] eqn:E; [|discriminate Hd].
  injection Hd as Hd Hdup. destruct out as [resp dup]. cbn in Hd, Hdup. subst dup.
  exists (replayed resp (vc_persist clk)). assert (st' = paid) as -> by (unfold paid; by rewrite E).
  split; [|exact Hd].
  assert (length (vd_validations paid) = 1%nat) as Hlen by (vm_compute; reflexivity).
  eapply (stored_answer_is_final (L := checker src) (L' := checker src) (rules 0 [always]) no_records
            no_val_faults clk (id 500) (request 60) paid resp (rules 0 [big]) paid no_val_faults clk (id 501)
            (request 500) E).
  - intros C. rewrite C in Hlen. discriminate Hlen.
  - exists []. by rewrite app_nil_r.
  - destruct (vd_validations paid) as [|x [|]]; [discriminate Hlen| |discriminate Hlen]. apply NoDup_singleton.
  - reflexivity.
  - reflexivity.
Defined.

End ValidationSample.
