(* ===== verification/OperationRecords.v ===== *)
(** * Operation records

    After the balance script has run, src/components/ledger/internal/adapters/http/in/
    transaction_create.go turns the balances before and after it, the entries of the
    transaction and their validated amounts into the operations that are stored and
    returned ([BuildOperations]).  This file models the builder: the standard record, the
    pairs of records of a two-phase transaction with route validation, the clipping of
    the recorded amount to what really moved, the snapshots of the overdraft and the
    accounting codes of the routes (pkg/mmodel/transaction-route.go).

    The identifiers of the records come from a library; [newID] gives the n-th one, or an
    error.  Record fields that Go keeps behind pointers are values, since the builder
    always sets them. *)

From Stdlib Require Import ZArith QArith Qabs Lia Lqa Ascii.
From stdpp Require Import base gmap strings list.
From S2P Require Import Prelude Decimals GoStrings Transaction BalanceOps Overdraft MBalance SendValidation.
Local Open Scope string_scope.
Local Open Scope list_scope.
Local Open Scope Z_scope.

Definition OVERDRAFT : OpType := OpOther "OVERDRAFT".
Definition BLOCK : string := "BLOCK".
Definition UNBLOCK : string := "UNBLOCK".

Section Records.
Context {D : DecimalLib} {DT : DecimalText} {C : LibCommons}.
Local Open Scope dec_scope.

Record OpBalance := mkOpBalance {
  ob_Available : dec; ob_OnHold : dec; ob_Version : Z; ob_OverdraftUsed : dec }.
Record OperationSnapshot := mkSnapshot { sn_Before : string; sn_After : string }.

Record Operation := mkOperation {
  op_ID : string; op_TransactionID : string; op_Description : string; op_Type : OpType;
  op_AssetCode : string; op_ChartOfAccounts : string; op_Amount : option dec;
  op_Balance : OpBalance; op_BalanceAfter : OpBalance; op_BalanceID : string;
  op_AccountID : string; op_AccountAlias : string; op_BalanceKey : string;
  op_OrganizationID : string; op_LedgerID : string; op_CreatedAt : Time;
  op_Route : string; op_RouteID : option string; op_Metadata : gmap string AnyValue;
  op_BalanceAffected : bool; op_Direction : Direction; op_Snapshot : OperationSnapshot;
  op_RouteCode : option string; op_RouteDescription : option string }.

(** ** Amounts and snapshots *)

Definition dabs (d : dec) : dec := if dlt d dzero then dzero - d else d.

Definition effectiveOperationAmount (amt : Amount)
    (beforeAvailable afterAvailable beforeOnHold afterOnHold : dec) : dec :=
  let availableDelta := dabs (beforeAvailable - afterAvailable) in
  let onHoldDelta := dabs (beforeOnHold - afterOnHold) in
  let movement := if dgt onHoldDelta availableDelta then onHoldDelta else availableDelta in
  if dgt movement (amt_Value amt) then amt_Value amt else movement.

Definition buildOperationSnapshot (before after : option MBalance) : OperationSnapshot :=
  mkSnapshot (match before with Some b => dstring (mb_OverdraftUsed b) | None => "0" end)
             (match after with Some b => dstring (mb_OverdraftUsed b) | None => "0" end).

(** [zeroAnnotationBalances] *)
Definition annotation_balance (isAnnotation : bool) (b : OpBalance) : OpBalance :=
  if isAnnotation then mkOpBalance (dnew 0) (dnew 0) 0 (ob_OverdraftUsed b) else b.

(** ** One record *)

Definition op_description (ft : FromTo) (input : Transaction) : string :=
  if IsNilOrEmpty (ft_Description ft) then tx_Description input else ft_Description ft.

(** The fields all records share; the overdraft fields, the snapshot and the codes are
    set later. *)
Definition base_record (id : string) (blc : MBalance) (ft : FromTo) (tranID : string) (input : Transaction)
    (date : Time) (isAnnotation : bool) (ty : OpType) (dir : Direction) (amount : dec)
    (before after : OpBalance) : Operation :=
  mkOperation id tranID (op_description ft input) ty (send_Asset (tx_Send input)) (ft_ChartOfAccounts ft)
    (Some amount) (annotation_balance isAnnotation before) (annotation_balance isAnnotation after)
    (mb_ID blc) (mb_AccountID blc) (SplitAlias (mb_Alias blc)) (mb_Key blc)
    (mb_OrganizationID blc) (mb_LedgerID blc) date (ft_Route ft) (ft_RouteID ft) (ft_Metadata ft)
    (negb isAnnotation) dir (mkSnapshot "" "") None None.

Definition buildStandardOp (id : string) (blc : MBalance) (ft : FromTo) (amt : Amount) (bat : Balance)
    (tranID : string) (input : Transaction) (date : Time) (isAnnotation : bool) : Operation :=
  let opType := if bool_decide (mb_Key blc = OverdraftBalanceKey) then OVERDRAFT else
                if negb (bool_decide (tx_OperationTypeOverride input = ""))
                then OpOther (tx_OperationTypeOverride input) else amt_Operation amt in
  base_record id blc ft tranID input date isAnnotation opType (amt_Direction amt) (amt_Value amt)
    (mkOpBalance (mb_Available blc) (mb_OnHold blc) (mb_Version blc) dzero)
    (mkOpBalance (bal_Available bat) (bal_OnHold bat) (bal_Version bat) dzero).

Definition buildDoubleEntryPendingOps (id1 id2 : string) (blc : MBalance) (ft : FromTo) (amt : Amount)
    (bat : Balance) (tranID : string) (input : Transaction) (date : Time) (isAnnotation : bool)
    : list Operation :=
  let debitVersion := int64_wrap (mb_Version blc + 1) in
  let '(debitAvailable, debitAmount, onholdOnHold, onholdVersion) :=
    if (0 <? bal_Version bat)%Z then
      let moved := dabs (mb_Available blc - bal_Available bat) in
      (bal_Available bat, if dgt moved (amt_Value amt) then amt_Value amt else moved,
       bal_OnHold bat, bal_Version bat)
    else (mb_Available blc - amt_Value amt, amt_Value amt, mb_OnHold blc + amt_Value amt,
          int64_wrap (debitVersion + 1)) in
  [base_record id1 blc ft tranID input date isAnnotation DEBIT DirectionDebit debitAmount
     (mkOpBalance (mb_Available blc) (mb_OnHold blc) (mb_Version blc) dzero)
     (mkOpBalance debitAvailable (mb_OnHold blc) debitVersion dzero);
   base_record id2 blc ft tranID input date isAnnotation ONHOLD DirectionCredit (amt_Value amt)
     (mkOpBalance debitAvailable (mb_OnHold blc) debitVersion dzero)
     (mkOpBalance debitAvailable onholdOnHold onholdVersion dzero)].

Definition buildDoubleEntryCanceledOps (id1 id2 : string) (blc : MBalance) (ft : FromTo) (amt : Amount)
    (tranID : string) (input : Transaction) (date : Time) (isAnnotation : bool) : list Operation :=
  let releaseOnHold := mb_OnHold blc - amt_Value amt in
  let releaseVersion := int64_wrap (mb_Version blc + 1) in
  let creditAvailable := mb_Available blc + amt_Value amt in
  let creditVersion := int64_wrap (releaseVersion + 1) in
  [base_record id1 blc ft tranID input date isAnnotation RELEASE DirectionDebit (amt_Value amt)
     (mkOpBalance (mb_Available blc) (mb_OnHold blc) (mb_Version blc) dzero)
     (mkOpBalance (mb_Available blc) releaseOnHold releaseVersion dzero);
   base_record id2 blc ft tranID input date isAnnotation CREDIT DirectionCredit (amt_Value amt)
     (mkOpBalance (mb_Available blc) releaseOnHold releaseVersion dzero)
     (mkOpBalance creditAvailable releaseOnHold creditVersion dzero)].

Definition with_used (b : OpBalance) (used : dec) : OpBalance :=
  mkOpBalance (ob_Available b) (ob_OnHold b) (ob_Version b) used.

Definition with_overdraft (op : Operation) (snap : OperationSnapshot) (before after : dec) : Operation :=
  mkOperation (op_ID op) (op_TransactionID op) (op_Description op) (op_Type op) (op_AssetCode op)
    (op_ChartOfAccounts op) (op_Amount op) (with_used (op_Balance op) before)
    (with_used (op_BalanceAfter op) after) (op_BalanceID op) (op_AccountID op) (op_AccountAlias op)
    (op_BalanceKey op) (op_OrganizationID op) (op_LedgerID op) (op_CreatedAt op) (op_Route op)
    (op_RouteID op) (op_Metadata op) (op_BalanceAffected op) (op_Direction op) snap
    (op_RouteCode op) (op_RouteDescription op).

(** The overdraft fields of a standard record, and of the records of a pair. *)
Definition stamp_standard (isAnnotation : bool) (blc : MBalance) (after : option MBalance) (op : Operation)
    : Operation :=
  if isAnnotation then with_overdraft op (buildOperationSnapshot None None) dzero dzero else
  with_overdraft op (buildOperationSnapshot (Some blc) after) (mb_OverdraftUsed blc)
    (match after with Some a => mb_OverdraftUsed a | None => dzero end).

Definition stamp_pair (isAnnotation : bool) (blc : MBalance) (after : option MBalance) (op : Operation)
    : Operation :=
  if isAnnotation then with_overdraft op (buildOperationSnapshot None None) dzero dzero else
  with_overdraft op (buildOperationSnapshot (Some blc) after) (mb_OverdraftUsed blc)
    (match after with Some a => mb_OverdraftUsed a | None => mb_OverdraftUsed blc end).

(** ** All records *)

(** The loop: the records so far, the balances they used, the pairs already built and
    the number of identifiers drawn. *)
Record build_state := mkBuild {
  bd_ops : list Operation; bd_pre : list MBalance; bd_done : gset string; bd_ids : nat }.

Record build_input := mkBuildInput {
  bi_after : gmap string MBalance; bi_tranID : string; bi_input : Transaction; bi_validate : Responses;
  bi_date : Time; bi_isAnnotation : bool; bi_routes : bool; bi_newID : nat → result string string }.

Definition after_key (b : MBalance) : string := mb_Alias b +:+ "#" +:+ mb_Key b.

Definition index_after (balancesAfter : list MBalance) : gmap string MBalance :=
  fold_left (λ m b, <[after_key b := b]> m) balancesAfter ∅.

Definition set_amt (v : dec) (amt : Amount) : Amount :=
  mkAmount (amt_Asset amt) v (amt_Operation amt) (amt_TransactionType amt) (amt_Direction amt)
    (amt_RouteValidationEnabled amt) (amt_OverdraftAmount amt).

Definition set_bat (a : MBalance) (bat : Balance) : Balance :=
  mkBalance (bal_ID bat) (bal_OrganizationID bat) (bal_LedgerID bat) (bal_AccountID bat) (bal_Alias bat)
    (bal_Key bat) (bal_AssetCode bat) (mb_Available a) (mb_OnHold a) (mb_Version a) (bal_AccountType bat)
    (bal_AllowSending bat) (bal_AllowReceiving bat) (bal_Direction bat) (bal_OverdraftUsed bat)
    (bal_AllowOverdraft bat) (bal_OverdraftLimitEnabled bat) (bal_OverdraftLimit bat)
    (bal_BalanceScope bat) (bal_CreatedAt bat) (bal_UpdatedAt bat) (bal_DeletedAt bat) (bal_Metadata bat).

(** The amount to record and the balance after, the script's where there is one. *)
Definition resolve_after (bi : build_input) (blc : MBalance) (amt : Amount) (bat : Balance)
    : Amount * Balance * option MBalance :=
  match bi_after bi !! after_key blc with
  | Some a => (set_amt (effectiveOperationAmount amt (mb_Available blc) (mb_Available a)
                          (mb_OnHold blc) (mb_OnHold a)) amt, set_bat a bat, Some a)
  | None => (amt, bat, None)
  end.

(** [tryBuildDoubleEntryOps] decides whether the entry is a pair; the dedup key joins
    the alias and the index of the entry. *)
Definition is_pair (bi : build_input) (ft : FromTo) (amt : Amount) : bool :=
  bi_routes bi && ft_IsFrom ft && IsDoubleEntrySource amt.

Definition pair_key (blc : MBalance) (i : nat) : string := mb_Alias blc +:+ "#" +:+ strconv_Itoa i.

(** The body of the inner loop. *)
Definition build_step (bi : build_input) (st : build_state) (x : MBalance * (nat * FromTo))
    : result string build_state :=
  let '(blc, (i, ft)) := x in
  if negb (bool_decide (mb_Alias blc = ft_AccountAlias ft)) then Ok st else
  let! txBal := ToTransactionBalance blc in
  let '(amt, bat) := ValidateFromToOperation ft (bi_validate bi) txBal in
  let '(amt, bat, after) := resolve_after bi blc amt bat in
  let pre := bd_pre st ++ [blc] in
  if is_pair bi ft amt then
    if bool_decide (pair_key blc i ∈ bd_done st) then Ok (mkBuild (bd_ops st) pre (bd_done st) (bd_ids st)) else
    let! id1 := bi_newID bi (bd_ids st) in
    let! id2 := bi_newID bi (S (bd_ids st)) in
    let ops := if bool_decide (amt_TransactionType amt = PENDING)
               then buildDoubleEntryPendingOps id1 id2 blc ft amt bat (bi_tranID bi) (bi_input bi)
                      (bi_date bi) (bi_isAnnotation bi)
               else buildDoubleEntryCanceledOps id1 id2 blc ft amt (bi_tranID bi) (bi_input bi)
                      (bi_date bi) (bi_isAnnotation bi) in
    Ok (mkBuild (bd_ops st ++ (stamp_pair (bi_isAnnotation bi) blc after <$> ops)) pre
          ({[pair_key blc i]} ∪ bd_done st) (S (S (bd_ids st))))
  else
    let! id := bi_newID bi (bd_ids st) in
    let op := buildStandardOp id blc ft amt bat (bi_tranID bi) (bi_input bi) (bi_date bi) (bi_isAnnotation bi) in
    Ok (mkBuild (bd_ops st ++ [stamp_standard (bi_isAnnotation bi) blc after op]) pre
          (bd_done st) (S (bd_ids st))).

Definition loop_pairs (balances : list MBalance) (fromTo : list FromTo) : list (MBalance * (nat * FromTo)) :=
  b ← balances; (λ x, (b, x)) <$> imap (λ i ft, (i, ft)) fromTo.

(** [propagateSnapshotToCompanions]: the last record of an account that is not on the
    overdraft balance lends its overdraft fields to the companion records. *)
Definition primaryByAlias (ops : list Operation) : gmap string Operation :=
  fold_left (λ m op, if bool_decide (op_BalanceKey op = OverdraftBalanceKey) then m
                     else <[op_AccountAlias op := op]> m) ops ∅.

Definition propagateSnapshotToCompanions (ops : list Operation) : list Operation :=
  let primaries := primaryByAlias ops in
  (λ op, if negb (bool_decide (op_BalanceKey op = OverdraftBalanceKey)) then op else
         match primaries !! op_AccountAlias op with
         | None => op
         | Some p => with_overdraft op (op_Snapshot p) (ob_OverdraftUsed (op_Balance p))
                       (ob_OverdraftUsed (op_BalanceAfter p))
         end) <$> ops.

End Records.

(** ** Accounting codes of routes *)

Section Routes.
Context {D : DecimalLib} {DT : DecimalText} {C : LibCommons}.

Record AccountingRubric := mkRubric { rb_Code : string; rb_Description : string }.
Record AccountingEntry := mkEntry { ae_Debit : option AccountingRubric; ae_Credit : option AccountingRubric }.
Record AccountingEntries := mkEntries {
  ae_Direct : option AccountingEntry; ae_Hold : option AccountingEntry; ae_Commit : option AccountingEntry;
  ae_Cancel : option AccountingEntry; ae_Revert : option AccountingEntry;
  ae_Overdraft : option AccountingEntry; ae_Block : option AccountingEntry;
  ae_Unblock : option AccountingEntry }.

(** The dynamic types of [ValidIf]: the elements of an untyped array may be anything. *)
Inductive ValidIf :=
  | ValidIfString (s : string) | ValidIfStrings (l : list string) | ValidIfAnys (l : list (option string)) | ValidIfOther.
Record AccountCache := mkAccountCache { acc_RuleType : string; acc_ValidIf : option ValidIf }.
Record OperationRouteCache := mkRouteCache {
  orc_Account : option AccountCache; orc_OperationType : string; orc_Code : string; orc_Description : string;
  orc_AccountingEntries : option AccountingEntries }.
Record ActionRouteCache := mkActionCache {
  arc_Source : gmap string OperationRouteCache; arc_Destination : gmap string OperationRouteCache;
  arc_Bidirectional : gmap string OperationRouteCache }.
Definition TransactionRouteCache : Type := Action → option ActionRouteCache.

Definition FindRoute (a : ActionRouteCache) (routeID : string) : option OperationRouteCache :=
  match arc_Source a !! routeID with
  | Some rc => Some rc
  | None => match arc_Destination a !! routeID with
            | Some rc => Some rc
            | None => arc_Bidirectional a !! routeID
            end
  end.

Definition entry_of (entries : AccountingEntries) (action : Action) : option AccountingEntry :=
  match action with
  | ActionDirect => ae_Direct entries | ActionHold => ae_Hold entries
  | ActionCommit => ae_Commit entries | ActionCancel => ae_Cancel entries
  | ActionRevert => ae_Revert entries | ActionOverdraft => ae_Overdraft entries
  | ActionBlock => ae_Block entries | ActionUnblock => ae_Unblock entries
  end.

Definition resolveAccountingRubric (entries : option AccountingEntries) (action : Action) (dir : Direction)
    : option AccountingRubric :=
  match entries with
  | None => None
  | Some es =>
      match entry_of es action with
      | None => None
      | Some e => match dir with
                  | DirectionDebit => ae_Debit e
                  | DirectionCredit => ae_Credit e
                  | _ => None
                  end
      end
  end.

Definition blockEntryConfigured (cache : TransactionRouteCache) (action : Action) (routeID : string)
    (has : AccountingEntries → bool) : bool :=
  match cache action with
  | None => false
  | Some ac => match FindRoute ac routeID with
               | Some rc => match orc_AccountingEntries rc with Some es => has es | None => false end
               | None => false
               end
  end.

(** The action under which the code of a record is looked up. *)
Definition resolvedAction (cache : TransactionRouteCache) (action : Action) (override routeID : string)
    (balanceKey : string) : Action :=
  let a :=
    if bool_decide (override = BLOCK) then
      if blockEntryConfigured cache action routeID (λ es, bool_decide (is_Some (ae_Block es)))
      then ActionBlock else action
    else if bool_decide (override = UNBLOCK) then
      if blockEntryConfigured cache action routeID (λ es, bool_decide (is_Some (ae_Unblock es)))
      then ActionUnblock else action
    else action in
  if bool_decide (balanceKey = OverdraftBalanceKey) then ActionOverdraft else a.

Definition with_codes (op : Operation) (code description : option string) : Operation :=
  mkOperation (op_ID op) (op_TransactionID op) (op_Description op) (op_Type op) (op_AssetCode op)
    (op_ChartOfAccounts op) (op_Amount op) (op_Balance op) (op_BalanceAfter op) (op_BalanceID op)
    (op_AccountID op) (op_AccountAlias op) (op_BalanceKey op) (op_OrganizationID op) (op_LedgerID op)
    (op_CreatedAt op) (op_Route op) (op_RouteID op) (op_Metadata op) (op_BalanceAffected op)
    (op_Direction op) (op_Snapshot op) code description.

Definition resolve_one (cache : TransactionRouteCache) (action : Action) (override : string)
    (op : Operation) : Operation :=
  match op_RouteID op with
  | None => op
  | Some routeID =>
      if bool_decide (routeID = "") then op else
      let a := resolvedAction cache action override routeID (op_BalanceKey op) in
      match cache a with
      | None => op
      | Some ac =>
          match FindRoute ac routeID with
          | None => op
          | Some rc =>
              match resolveAccountingRubric (orc_AccountingEntries rc) a (op_Direction op) with
              | Some rubric =>
                  if bool_decide (rb_Code rubric = "") then op else
                  with_codes op (Some (rb_Code rubric))
                    (if bool_decide (rb_Description rubric = "") then op_RouteDescription op
                     else Some (rb_Description rubric))
              | None => op
              end
          end
      end
  end.

Definition resolveRouteCodesFromCache (ops : list Operation) (cache : option TransactionRouteCache)
    (action : Action) (override : string) : list Operation :=
  match cache with
  | None => ops
  | Some c => resolve_one c action override <$> ops
  end.

(** [BuildOperations] *)
Definition BuildOperations (balances balancesAfter : list MBalance) (fromTo : list FromTo)
    (input : Transaction) (tranID : string) (validate : Responses) (date : Time)
    (isAnnotation routeValidationEnabled : bool) (cache : option TransactionRouteCache) (action : Action)
    (newID : nat → result string string) : result string (list Operation * list MBalance) :=
  let bi := mkBuildInput (index_after balancesAfter) tranID input validate date isAnnotation
              routeValidationEnabled newID in
  let! st := fold_res (build_step bi) (mkBuild [] [] ∅ 0) (loop_pairs balances fromTo) in
  Ok (resolveRouteCodesFromCache (propagateSnapshotToCompanions (bd_ops st)) cache action
        (tx_OperationTypeOverride input), bd_pre st).

End Routes.

(** ** Recorded amounts *)

Section Amounts.
Context {D : DecimalLib} {DL : DecimalLaws}.
Local Open Scope Q_scope.

Lemma dabs_val (d : dec) : dval (dabs d) == Qabs (dval d).
Proof.
  unfold dabs. destruct (dlt d dzero) eqn:E.
  - apply dlt_spec in E. rewrite dval_zero in E. rewrite dval_sub, dval_zero, Qabs_neg; lra.
  - apply dlt_false in E. rewrite dval_zero in E. rewrite Qabs_pos; lra.
Qed.

(** The largest of the two movements, bounded by the requested amount. *)
Lemma effective_bounds amt ba aa bh ah :
  let m := dval (effectiveOperationAmount amt ba aa bh ah) in
  let da := Qabs (dval ba - dval aa) in
  let dh := Qabs (dval bh - dval ah) in
  m <= dval (amt_Value amt) ∧ ((m == dval (amt_Value amt) ∧ (dval (amt_Value amt) <= da ∨ dval (amt_Value amt) <= dh)) ∨ (m == da ∧ dh <= da) ∨ (m == dh ∧ da <= dh)) ∧
  (da <= dval (amt_Value amt) → dh <= dval (amt_Value amt) → da <= m ∧ dh <= m).
Proof.
  cbn zeta. unfold effectiveOperationAmount.
  pose proof (dabs_val (ba - aa)) as Ha. pose proof (dabs_val (bh - ah)) as Hh.
  assert (dval (ba - aa)%dec == dval ba - dval aa) as Ea by apply dval_sub.
  assert (dval (bh - ah)%dec == dval bh - dval ah) as Eh by apply dval_sub.
  rewrite Ea in Ha. rewrite Eh in Hh.
  destruct (dgt (dabs (bh - ah)) (dabs (ba - aa))) eqn:E1;
    [apply dgt_spec in E1|apply dgt_false in E1];
    (destruct (dgt _ (amt_Value amt)) eqn:E2; [apply dgt_spec in E2|apply dgt_false in E2]);
    split_and!; try lra; intuition lra.
Qed.

(** A change moves available and on-hold by the amount or not at all, and at least one
    of them. *)
Definition moves (v a a' h h' : Q) : Prop :=
  (a' == a ∨ a' == a - v ∨ a' == a + v) ∧ (h' == h ∨ h' == h - v ∨ h' == h + v) ∧
  (¬ a' == a ∨ ¬ h' == h ∨ v == 0).

Lemma operate_moves amt b : bal_Version (OperateBalances amt b) ≠ bal_Version b →
  moves (dval (amt_Value amt)) (dval (bal_Available b)) (dval (bal_Available (OperateBalances amt b)))
    (dval (bal_OnHold b)) (dval (bal_OnHold (OperateBalances amt b))).
Proof.
  unfold OperateBalances.
  set (c := if bool_decide _ then _ else _).
  assert (c.2 = true → moves (dval (amt_Value amt)) (dval (bal_Available b)) (dval c.1.1)
            (dval (bal_OnHold b)) (dval c.1.2)) as Hc.
  { subst c. unfold applyDebitDirectionBalance, applyBalanceChange, applyPendingBalance,
      applyCanceledBalance, applyApprovedBalance, applyCreatedBalance, unmatched, moves.
    case_bool_decide; repeat case_match; cbn [fst snd]; try discriminate; intros _;
      rewrite ?dval_add, ?dval_sub; destruct (Qeq_dec (dval (amt_Value amt)) 0);
      split_and!; try (intuition lra). }
  destruct c as [[av oh] []]; [intros _; by apply Hc|done].
Qed.

Lemma moves_movement v a a' h h' : 0 <= v → moves v a a' h h' →
  Qabs (a - a') <= v ∧ Qabs (h - h') <= v ∧ (v <= Qabs (a - a') ∨ v <= Qabs (h - h')).
Proof.
  intros Hv (Ha & Hh & Hm).
  assert (∀ x x', x' == x ∨ x' == x - v ∨ x' == x + v →
            Qabs (x - x') <= v ∧ (¬ x' == x → v <= Qabs (x - x'))) as H.
  { intros x x' [E|[E|E]]; (split; [apply Qabs_Qle_condition; lra|intros Hn]); [done|..].
    - rewrite Qabs_pos; lra.
    - rewrite Qabs_neg; lra. }
  destruct (H _ _ Ha) as [H1 H2], (H _ _ Hh) as [H3 H4]. split_and!; try done.
  destruct Hm as [?|[?|E]]; [left; auto|right; auto|left]. rewrite E. apply Qabs_nonneg.
Qed.

(** The amount an operation is recorded with is the amount that was requested
    whenever the balance moved as [OperateBalances] computes, in any phase of a
    transaction; when the overdraft took over part of a debit or of a credit, the
    amounts recorded on the balance and on its companion add up to the request. *)
Theorem recorded_amounts_balance (amt : Amount) (b : Balance) (aa ah : dec)
    (Hv : 0 <= dval (amt_Value amt)) :
  let recorded := dval (effectiveOperationAmount amt (bal_Available b) aa (bal_OnHold b) ah) in
  (aa = bal_Available (OperateBalances amt b) → ah = bal_OnHold (OperateBalances amt b) →
   bal_Version (OperateBalances amt b) ≠ bal_Version b → recorded == dval (amt_Value amt)) ∧
  (∀ deficit, DetectOverdraftSplit amt b = (true, deficit) → 0 <= dval (bal_Available b) →
     dval aa == 0 → dval ah == dval (bal_OnHold b) → recorded + dval deficit == dval (amt_Value amt)) ∧
  (∀ repay cleared, DetectRefundSplit amt b = (true, repay, cleared) →
     dval aa == dval (bal_Available b) + (dval (amt_Value amt) - dval repay) →
     dval ah == dval (bal_OnHold b) → recorded + dval repay == dval (amt_Value amt)).
Proof.
  cbn zeta. destruct (effective_bounds amt (bal_Available b) aa (bal_OnHold b) ah) as (Hle & Hm & Hge).
  split_and!.
  - intros -> -> Hmt. apply operate_moves in Hmt.
    destruct (moves_movement _ _ _ _ _ Hv Hmt) as (H1 & H2 & H3). destruct (Hge H1 H2). lra.
  - intros deficit (_ & _ & _ & Hlt & ->)%DetectOverdraftSplit_true Ha Haa Hah. rewrite dval_sub.
    assert (Qabs (dval (bal_Available b) - dval aa) == dval (bal_Available b)) as E1
      by (rewrite Qabs_pos; lra).
    assert (Qabs (dval (bal_OnHold b) - dval ah) == 0) as E2 by (rewrite Hah, Qabs_pos; lra).
    rewrite E1, E2 in Hge, Hm. destruct Hge; [lra|lra|]. intuition lra.
  - intros repay cleared (_ & _ & Hu & -> & _)%DetectRefundSplit_true Haa Hah.
    set (r := dval (dmin _ _)) in *.
    assert (r <= dval (amt_Value amt) ∧ 0 <= r) as [Hr1 Hr0].
    { subst r. destruct (dmin_cases (amt_Value amt) (bal_OverdraftUsed b)) as [[? ->]|[? ->]]; lra. }
    assert (Qabs (dval (bal_Available b) - dval aa) == dval (amt_Value amt) - r) as E1
      by (rewrite Haa, Qabs_neg; lra).
    assert (Qabs (dval (bal_OnHold b) - dval ah) == 0) as E2 by (rewrite Hah, Qabs_pos; lra).
    rewrite E1, E2 in Hge, Hm. destruct Hge; [lra|lra|]. intuition lra.
Qed.

End Amounts.

(** ** The records mirror the balances *)

Section Mirror.
Context {D : DecimalLib} {DT : DecimalText} {C : LibCommons}.

(** A record without what is filled in after the loop. *)
Definition core (op : Operation) : Operation :=
  with_codes (with_overdraft op (mkSnapshot "" "") dzero dzero) None None.

Lemma core_overdraft op s b a : core (with_overdraft op s b a) = core op.
Proof. done. Qed.
Lemma core_codes op c d : core (with_codes op c d) = core op.
Proof. done. Qed.
Lemma core_stamp_standard an blc after op : core (stamp_standard an blc after op) = core op.
Proof. unfold stamp_standard. by destruct an. Qed.
Lemma core_stamp_pair an blc after op : core (stamp_pair an blc after op) = core op.
Proof. unfold stamp_pair. by destruct an. Qed.

Lemma core_map (f : Operation → Operation) (ops : list Operation) : (∀ op, core (f op) = core op) →
  core <$> (f <$> ops) = core <$> ops.
Proof. intros Hf. rewrite <- list_fmap_compose. apply list_fmap_ext. intros i op _. apply Hf. Qed.

Lemma core_propagate ops : core <$> propagateSnapshotToCompanions ops = core <$> ops.
Proof.
  apply core_map. intros op. case_bool_decide; [cbn [negb]|done].
  by destruct (primaryByAlias ops !! op_AccountAlias op).
Qed.

Lemma core_resolve ops cache action override :
  core <$> resolveRouteCodesFromCache ops cache action override = core <$> ops.
Proof.
  unfold resolveRouteCodesFromCache. destruct cache; [|done]. apply core_map. intros op.
  unfold resolve_one. repeat case_match; done.
Qed.

(** Available, on hold and version. *)
Definition state_of (b : OpBalance) : dec * dec * Z := (ob_Available b, ob_OnHold b, ob_Version b).
Definition row_state (b : MBalance) : dec * dec * Z := (mb_Available b, mb_OnHold b, mb_Version b).

(** The record names the balance it is about. *)
Definition names (blc : MBalance) (ft : FromTo) (bi : build_input) (op : Operation) : Prop :=
  op_BalanceID op = mb_ID blc ∧ op_AccountID op = mb_AccountID blc ∧ op_BalanceKey op = mb_Key blc ∧
  op_AccountAlias op = SplitAlias (mb_Alias blc) ∧ op_TransactionID op = bi_tranID bi ∧
  op_RouteID op = ft_RouteID ft ∧ op_BalanceAffected op = true.

(** The amount of the records: what moved, where the script's balance is known. *)
Definition recorded (bi : build_input) (blc : MBalance) (amt : Amount) : dec :=
  match bi_after bi !! after_key blc with
  | Some a => effectiveOperationAmount amt (mb_Available blc) (mb_Available a) (mb_OnHold blc) (mb_OnHold a)
  | None => amt_Value amt
  end.

Lemma resolve_after_spec bi blc amt bat amt' bat' after :
  resolve_after bi blc amt bat = (amt', bat', after) →
  after = bi_after bi !! after_key blc ∧ amt' = set_amt (recorded bi blc amt) amt ∧
  bat' = match after with Some a => set_bat a bat | None => bat end.
Proof.
  unfold resolve_after, recorded. destruct (bi_after bi !! after_key blc); intros [= <- <- <-]; [done|].
  by destruct amt.
Qed.

(** Where a balance ends: as the script left it, or as computed when that is not known. *)
Definition ended (bi : build_input) (blc : MBalance) (bat : Balance) : dec * dec * Z :=
  match bi_after bi !! after_key blc with
  | Some a => row_state a
  | None => (bal_Available bat, bal_OnHold bat, bal_Version bat)
  end.

(** A balance with an entry, and the place of the entry in the request. *)
Abbreviation entry_match := (MBalance * (nat * FromTo))%type (only parsing).
Definition same_alias (x : entry_match) : Prop := mb_Alias x.1 = ft_AccountAlias x.2.2.

Definition computes (bi : build_input) (x : entry_match) (amt : Amount) (bat : Balance) : Prop :=
  ∃ txBal, ToTransactionBalance x.1 = Ok txBal ∧
    ValidateFromToOperation x.2.2 (bi_validate bi) txBal = (amt, bat).

(** A source whose funds are held or released under route validation has a pair of
    records, once for its alias and its place. *)
Definition paired (bi : build_input) (x : entry_match) (amt : Amount) : Prop :=
  bi_routes bi = true ∧ ft_IsFrom x.2.2 = true ∧ IsDoubleEntrySource amt = true.
Definition repeated (bi : build_input) (earlier : list entry_match) (x : entry_match) : Prop :=
  ∃ y amt bat, y ∈ earlier ∧ computes bi y amt bat ∧ paired bi y amt ∧
    mb_Alias y.1 = mb_Alias x.1 ∧ y.2.1 = x.2.1.

(** What is recorded for a balance and an entry with the same alias. *)
Inductive mirrors (bi : build_input) (earlier : list entry_match) (x : entry_match) : list Operation → Prop :=
  | mirrors_standard amt bat op :
      computes bi x amt bat → ¬ paired bi x amt → names x.1 x.2.2 bi op →
      state_of (op_Balance op) = row_state x.1 → op_Direction op = amt_Direction amt →
      op_Amount op = Some (recorded bi x.1 amt) → state_of (op_BalanceAfter op) = ended bi x.1 bat →
      mirrors bi earlier x [op]
  | mirrors_hold amt bat op1 op2 (v := recorded bi x.1 amt) (e := ended bi x.1 bat)
      (moved := dabs (mb_Available x.1 - e.1.1)%dec) :
      computes bi x amt bat → paired bi x amt → ¬ repeated bi earlier x → amt_TransactionType amt = PENDING →
      names x.1 x.2.2 bi op1 → names x.1 x.2.2 bi op2 → op_Type op1 = DEBIT → op_Type op2 = ONHOLD →
      state_of (op_Balance op1) = row_state x.1 → op_Balance op2 = op_BalanceAfter op1 →
      op_Amount op1 = Some (if (0 <? e.2) && negb (dgt moved v) then moved else v) →
      op_Amount op2 = Some v →
      ob_OnHold (op_BalanceAfter op1) = mb_OnHold x.1 →
      ob_Version (op_BalanceAfter op1) = int64_wrap (mb_Version x.1 + 1) →
      state_of (op_BalanceAfter op2) =
        (if 0 <? e.2 then e else ((mb_Available x.1 - v)%dec, (mb_OnHold x.1 + v)%dec,
                                  int64_wrap (int64_wrap (mb_Version x.1 + 1) + 1))) →
      ob_Available (op_BalanceAfter op1) = ob_Available (op_BalanceAfter op2) →
      mirrors bi earlier x [op1; op2]
  | mirrors_release amt bat op1 op2 (v := recorded bi x.1 amt) :
      computes bi x amt bat → paired bi x amt → ¬ repeated bi earlier x → amt_TransactionType amt ≠ PENDING →
      names x.1 x.2.2 bi op1 → names x.1 x.2.2 bi op2 → op_Type op1 = RELEASE → op_Type op2 = CREDIT →
      state_of (op_Balance op1) = row_state x.1 → op_Balance op2 = op_BalanceAfter op1 →
      op_Amount op1 = Some v → op_Amount op2 = Some v →
      state_of (op_BalanceAfter op1) =
        (mb_Available x.1, (mb_OnHold x.1 - v)%dec, int64_wrap (mb_Version x.1 + 1)) →
      state_of (op_BalanceAfter op2) =
        ((mb_Available x.1 + v)%dec, (mb_OnHold x.1 - v)%dec, int64_wrap (int64_wrap (mb_Version x.1 + 1) + 1)) →
      mirrors bi earlier x [op1; op2]
  | mirrors_repeated amt bat :
      computes bi x amt bat → paired bi x amt → repeated bi earlier x → mirrors bi earlier x [].

Lemma pair_mirrors bi earlier blc i ft id1 id2 amt0 bat0 amt bat after :
  computes bi (blc, (i, ft)) amt0 bat0 → paired bi (blc, (i, ft)) amt0 → ¬ repeated bi earlier (blc, (i, ft)) →
  resolve_after bi blc amt0 bat0 = (amt, bat, after) →
  mirrors bi earlier (blc, (i, ft))
    (core <$> if bool_decide (amt_TransactionType amt = PENDING)
              then buildDoubleEntryPendingOps id1 id2 blc ft amt bat (bi_tranID bi) (bi_input bi)
                     (bi_date bi) false
              else buildDoubleEntryCanceledOps id1 id2 blc ft amt (bi_tranID bi) (bi_input bi)
                     (bi_date bi) false).
Proof.
  intros Hc Hp Hr (-> & -> & ->)%resolve_after_spec.
  unfold buildDoubleEntryPendingOps, buildDoubleEntryCanceledOps. case_bool_decide as Ht.
  - set (after := bi_after bi !! after_key blc) in *.
    set (b := match after with Some a => set_bat a bat0 | None => bat0 end).
    assert (ended bi blc bat0 = (bal_Available b, bal_OnHold b, bal_Version b)) as He
      by (unfold ended, b; fold after; by destruct after).
    destruct (0 <? bal_Version b) eqn:Ez; cbn;
      apply (mirrors_hold _ _ _ amt0 bat0); try done; try (by split_and!); cbn [fst snd]; rewrite He; cbn;
      rewrite Ez; try done; cbn [andb]; by destruct (dgt _ _).
  - cbn. by apply (mirrors_release _ _ _ amt0 bat0); try done; split_and!.
Qed.

Lemma suffix_after_sep_inj c a a' s s' : contains_char c s = false → contains_char c s' = false →
  a +:+ String c s = a' +:+ String c s' → a = a' ∧ s = s'.
Proof.
  intros Hs Hs'. revert a'. induction a as [|x a IH]; intros [|x' a']; cbn.
  - by intros [= ->].
  - intros [= -> ->]. rewrite contains_char_app in Hs. cbn in Hs.
    rewrite bool_decide_eq_true_2, orb_true_r in Hs; done.
  - intros [= -> <-]. rewrite contains_char_app in Hs'. cbn in Hs'.
    rewrite bool_decide_eq_true_2, orb_true_r in Hs'; done.
  - intros [= -> [-> ->]%IH]. done.
Qed.

(** The keys of the pairs built so far are those of the paired matches. *)
Lemma pair_key_inj b b' i i' : pair_key b i = pair_key b' i' → mb_Alias b = mb_Alias b' ∧ i = i'.
Proof.
  unfold pair_key. intros E. apply suffix_after_sep_inj in E as [? ?%Itoa_inj]; [done|by apply Itoa_no_char..].
Qed.

Definition done_for (bi : build_input) (earlier : list entry_match) (st : build_state) : Prop :=
  ∀ b i, pair_key b i ∈ bd_done st ↔ ∃ y amt bat, y ∈ earlier ∧ computes bi y amt bat ∧ paired bi y amt ∧
    mb_Alias y.1 = mb_Alias b ∧ y.2.1 = i.

Lemma done_for_skip bi earlier x st ops pre ids : done_for bi earlier st →
  (∀ amt bat, computes bi x amt bat → paired bi x amt → pair_key x.1 x.2.1 ∈ bd_done st) →
  done_for bi (earlier ++ [x]) (mkBuild ops pre (bd_done st) ids).
Proof.
  intros Hd Hx b i. cbn. split.
  - intros (y & amt & bat & ? & ?)%Hd. exists y, amt, bat. split; [set_solver|done].
  - intros (y & amt & bat & [Hy| ->%list_elem_of_singleton]%elem_of_app & Hc & Hp & Ha & Hi); [apply Hd; eauto 8|].
    specialize (Hx _ _ Hc Hp). apply Hd in Hx as (y & amt' & bat' & ? & ? & ? & ? & ?).
    apply Hd. exists y, amt', bat'. split_and!; [done..|congruence|congruence].
Qed.

Lemma done_for_add bi earlier x st ops pre ids amt bat : done_for bi earlier st →
  computes bi x amt bat → paired bi x amt →
  done_for bi (earlier ++ [x]) (mkBuild ops pre ({[pair_key x.1 x.2.1]} ∪ bd_done st) ids).
Proof.
  intros Hd Hc Hp b i. cbn. rewrite elem_of_union, elem_of_singleton. split.
  - intros [[? ?]%pair_key_inj|(y & amt' & bat' & ? & ?)%Hd].
    + exists x, amt, bat. split_and!; [set_solver|done..].
    + exists y, amt', bat'. split; [set_solver|done].
  - intros (y & amt' & bat' & [Hy| ->%list_elem_of_singleton]%elem_of_app & ? & ? & Ha & <-);
      [right; apply Hd; eauto 8|left]. unfold pair_key. by rewrite Ha.
Qed.

Lemma build_step_mirrors bi earlier st x st' :
  bi_isAnnotation bi = false → done_for bi earlier st → build_step bi st x = Ok st' →
  (¬ same_alias x ∧ st' = st) ∨
  (same_alias x ∧ bd_pre st' = bd_pre st ++ [x.1] ∧ done_for bi (earlier ++ [x]) st' ∧
   ∃ chunk, core <$> bd_ops st' = (core <$> bd_ops st) ++ chunk ∧ mirrors bi earlier x chunk).
Proof.
  intros Han Hd. destruct x as [blc [i ft]]. unfold build_step, same_alias. cbn [fst snd].
  case_bool_decide as Hal; [cbn [negb]|intros [= <-]; by left]. intros E. right. split; [done|].
  apply rbind_Ok in E as (txBal & Et & E).
  destruct (ValidateFromToOperation _ _ _) as [amt0 bat0] eqn:Ev.
  assert (computes bi (blc, (i, ft)) amt0 bat0) as Hc by (by exists txBal).
  assert (∀ amt bat, computes bi (blc, (i, ft)) amt bat → amt = amt0) as Hu
    by (intros amt bat (? & ? & ?); cbn in *; simplify_eq; congruence).
  destruct (resolve_after bi blc amt0 bat0) as [[amt bat] after] eqn:Ea.
  assert (is_pair bi ft amt = true ↔ paired bi (blc, (i, ft)) amt0) as Hpair.
  { unfold is_pair, paired. apply resolve_after_spec in Ea as (_ & -> & _). rewrite !andb_true_iff. cbn. tauto. }
  destruct (is_pair bi ft amt) eqn:Ep.
  - assert (paired bi (blc, (i, ft)) amt0) as Hp by tauto. case_bool_decide as Hdone.
    + injection E as <-. split_and!; [done|by apply done_for_skip|]. exists []. rewrite app_nil_r.
      split; [done|]. by apply (mirrors_repeated _ _ _ amt0 bat0), Hd.
    + apply rbind_Ok in E as (id1 & _ & E). apply rbind_Ok in E as (id2 & _ & E). injection E as <-.
      split_and!; [done|by eapply done_for_add|]. cbn [bd_ops]. rewrite Han.
      eexists. split; [by rewrite fmap_app|].
      rewrite core_map by (intros; apply core_stamp_pair). eapply pair_mirrors; try done.
      intros Hr. by apply Hdone, Hd.
  - assert (¬ paired bi (blc, (i, ft)) amt0) as Hp by (intros ?%Hpair; done).
    apply rbind_Ok in E as (id & _ & E). injection E as <-.
    split_and!; [done|apply done_for_skip; [done|intros ? ? ->%Hu ?; done]|]. cbn [bd_ops]. rewrite Han.
    eexists. split; [rewrite fmap_app; f_equal; cbn; by rewrite core_stamp_standard|].
    apply resolve_after_spec in Ea as (-> & -> & ->).
    eapply (mirrors_standard _ _ _ amt0 bat0); [done|done|by split_and!|done|done|done|].
    unfold ended. cbn [fst]. by destruct (bi_after bi !! after_key blc).
Qed.

(** The matches of the loop and the records of each, one after the other. *)
Inductive mirrors_all (bi : build_input) : list entry_match → list entry_match → list (list Operation) → Prop :=
  | mirrors_nil earlier : mirrors_all bi earlier [] []
  | mirrors_cons earlier x xs chunk chunks :
      mirrors bi earlier x chunk → mirrors_all bi (earlier ++ [x]) xs chunks →
      mirrors_all bi earlier (x :: xs) (chunk :: chunks).

Lemma build_loop_mirrors bi l : ∀ earlier st st', bi_isAnnotation bi = false → done_for bi earlier st →
  fold_res (build_step bi) st l = Ok st' →
  bd_pre st' = bd_pre st ++ (filter same_alias l).*1 ∧
  ∃ chunks, core <$> bd_ops st' = (core <$> bd_ops st) ++ concat chunks ∧
    mirrors_all bi earlier (filter same_alias l) chunks.
Proof.
  induction l as [|x l IH]; intros earlier st st' Han Hd.
  { intros [= <-]. rewrite app_nil_r. split; [done|]. exists []. rewrite app_nil_r. split; [done|constructor]. }
  cbn [fold_res]. intros (st1 & E1 & E)%rbind_Ok.
  destruct (build_step_mirrors _ _ _ _ _ Han Hd E1) as [[Hn ->]|(Hs & Hp1 & Hd1 & chunk & Hc1 & Hm)].
  - rewrite filter_cons_False by done. by apply (IH earlier).
  - destruct (IH _ _ _ Han Hd1 E) as (Hp & chunks & Hc & Hf).
    rewrite filter_cons_True by done. split; [rewrite Hp, Hp1, <- app_assoc; done|].
    exists (chunk :: chunks). rewrite Hc, Hc1. cbn [concat]. rewrite app_assoc. split; [done|by constructor].
Qed.


End Mirror.

(** ** Sample inputs *)

Module RecordsSample.
Definition row (alias : string) (available onHold version used : Z) : @MBalance Fixed.lib :=
  mkMBalance "b1" "org" "ledger" "acc1" alias "default" "USD" (fx available 0) (fx onHold 0) version
    "deposit" true true DirectionCredit (fx used 0)
    (Some (mkBalanceSettings "transactional" true false None)) 0 0 None ∅.
Definition leg (isFrom : bool) (alias : string) : @FromTo Fixed.lib :=
  mkFromTo alias "default" None None "" None "" "" ∅ isFrom "" (Some "route-1").
Definition alice := "0#@alice#default".
Definition bob := "0#@bob#default".
Definition amount (value : Z) (op : OpType) (status : TxStatus) (dir : Direction) (routes : bool)
    : @Amount Fixed.lib := mkAmount "USD" (fx value 0) op status dir routes (fx 0 0).
Definition input : @Transaction Fixed.lib :=
  mkTransaction "" "rent" "" false ∅ "" None None
    (mkSend "USD" (fx 250 0) (mkSource "" [leg true alice]) (mkDistribute "" [leg false bob])) None "".
Definition responses (from to : list (string * @Amount Fixed.lib)) : @Responses Fixed.lib :=
  mkResponses (fx 250 0) "USD" (list_to_map from) (list_to_map to) [] [] [] false "" None ∅ ∅.
Definition ids (n : nat) : result string string := Ok (strconv_Itoa n).

(** A debit of 250 from 100 with an overdraft. *)
Definition debit := amount 250 DEBIT CREATED DirectionDebit false.
Definition credit := amount 250 CREDIT CREATED DirectionCredit false.
Definition direct :=
  BuildOperations (C := Commons.lib) (DT := FixedText.text) [row alice 100 0 7 0; row bob 10 0 3 0] [row alice 0 0 8 150; row bob 260 0 4 0]
    [leg true alice; leg false bob] input "t1" (responses [(alice, debit)] [(bob, credit)]) 0 false false None
    ActionDirect ids.

(** Cancelling a hold of 250 of which 150 were overdraft: the script returns 100 to the
    available funds and repays the rest. *)
Definition cancel :=
  BuildOperations (C := Commons.lib) (DT := FixedText.text) [row alice 0 250 8 150] [row alice 100 0 10 0]
    [leg true alice] input "t1"
    (responses [(alice, amount 250 RELEASE CANCELED DirectionDebit true)] []) 0 false true None
    ActionCancel ids.
Definition last_state (r : result string (list (@Operation Fixed.lib) * list (@MBalance Fixed.lib)))
    : option (dec * dec * Z) :=
  match r with
  | Ok (ops, _) => (λ op, state_of (op_BalanceAfter op)) <$> last ops
  | Err _ => None
  end.
End RecordsSample.

(** The record of the credit of a cancelled hold is computed from the request, not from
    the balance the script left: it shows 250 available where the balance has 100. *)
Theorem cancelled_pair_ignores_script :
  RecordsSample.last_state RecordsSample.cancel = Some (fx 250 0, fx 0 0, 10) ∧
  row_state (RecordsSample.row RecordsSample.alice 100 0 10 0) = (fx 100 0, fx 0 0, 10).
Proof. split; vm_compute; reflexivity. Qed.


Lemma recorded_amounts_balance_witness :
  match ToTransactionBalance (RecordsSample.row RecordsSample.alice 100 0 7 0) with
  | Ok b => (dval (effectiveOperationAmount RecordsSample.debit (bal_Available b) (fx 0 0) (bal_OnHold b) (fx 0 0))
             + dval (fx 150 0) == 250)%Q
  | Err _ => False
  end.
Proof.
  cbn [RecordsSample.row ToTransactionBalance mb_Settings bs_OverdraftLimit].
  set (b := mkBalance _ _ _ _ _ _ _ _ _ _ _ _ _ _ _ _ _ _ _ _ _ _ _).
  destruct (recorded_amounts_balance RecordsSample.debit b (fx 0 0) (fx 0 0)) as (_ & Hsplit & _);
    [vm_compute; discriminate|].
  transitivity (dval (amt_Value RecordsSample.debit)); [|vm_compute; reflexivity].
  apply (Hsplit (fx 150 0)); vm_compute; try reflexivity; discriminate.
Defined.
