(* ===== verification/WritePath.v ===== *)
(** * Persisting transactions

    The consumer side of src/components/ledger/internal/services/command:
    [CreateBalanceTransactionOperationsAsync] and [CreateOrUpdateTransaction]
    (create_balance_transaction_operations_async.go), which store one transaction with
    its operations and metadata, [UpdateTransactionStatus] and [UpdateTransaction]
    (update_transaction.go), the lifecycle events (send_transaction_events.go) and the
    statements of the repositories they use (adapters/postgres/transaction,
    adapters/postgres/operation, adapters/mongodb/transaction).

    Messages are delivered at least once and every call to a database may fail, before
    or after it took effect; [flt] says how each call of a delivery ends.  The payload
    of a message is taken decoded.  Metadata is absent when it has no keys.  What runs in
    goroutines after the answer (the events, the clean-up of the backup entry) is done at
    the end of the call.  The balance table of the legacy branch belongs to the balance
    synchronisation; here the branch only succeeds or fails. *)

From Stdlib Require Import ZArith Lia.
From stdpp Require Import base gmap strings list.
From S2P Require Import Prelude Decimals GoStrings Transaction BalanceOps Overdraft MBalance SendValidation.
From S2P Require Import OperationRecords.
Local Open Scope string_scope.
Local Open Scope list_scope.
Local Open Scope Z_scope.

Abbreviation Metadata := (gmap string AnyValue) (only parsing).

Definition EntityTransaction : string := "Transaction".
Definition EntityOperation : string := "Operation".

(** The constants of pkg/constant behind the statuses. *)
Definition status_text (s : TxStatus) : string :=
  match s with
  | CREATED => "CREATED" | APPROVED => "APPROVED" | PENDING => "PENDING" | CANCELED => "CANCELED"
  | NOTED => "NOTED" | StatusOther t => t
  end.

Section Entities.
Context {D : DecimalLib} {C : LibCommons}.

(** ** The entity and its row *)

Record Status := mkStatus { sta_Code : TxStatus; sta_Description : option string }.

Definition Status_IsEmpty (s : Status) : bool :=
  bool_decide (status_text (sta_Code s) = "") && bool_decide (sta_Description s = None).

Record TransactionEntity := mkEntity {
  tr_ID : string; tr_ParentTransactionID : option string; tr_Description : string;
  tr_Status : Status; tr_Amount : option dec; tr_AssetCode : string;
  tr_ChartOfAccountsGroupName : string; tr_Source : list string; tr_Destination : list string;
  tr_LedgerID : string; tr_OrganizationID : string; tr_Body : Transaction; tr_Route : string;
  tr_RouteID : option string; tr_FeesSkipped : bool; tr_TracerSkipped : bool; tr_CreatedAt : Time;
  tr_UpdatedAt : Time; tr_DeletedAt : option Time; tr_Metadata : Metadata;
  tr_Operations : list Operation }.

Record TransactionPostgreSQLModel := mkTransactionRow {
  rw_ID : string; rw_ParentTransactionID : option string; rw_Description : string;
  rw_Status : TxStatus; rw_StatusDescription : option string; rw_Amount : option dec;
  rw_AssetCode : string; rw_ChartOfAccountsGroupName : string; rw_LedgerID : string;
  rw_OrganizationID : string; rw_Body : option Transaction; rw_CreatedAt : Time; rw_UpdatedAt : Time;
  rw_DeletedAt : option Time; rw_Route : option string; rw_RouteID : option string;
  rw_FeesSkipped : bool; rw_TracerSkipped : bool }.

(** [newID] is drawn for an entity without an identifier. *)
Definition FromEntity (newID : string) (t : TransactionEntity) : TransactionPostgreSQLModel :=
  mkTransactionRow (if bool_decide (tr_ID t = "") then newID else tr_ID t) (tr_ParentTransactionID t)
    (tr_Description t) (sta_Code (tr_Status t)) (sta_Description (tr_Status t)) (tr_Amount t)
    (tr_AssetCode t) (tr_ChartOfAccountsGroupName t) (tr_LedgerID t) (tr_OrganizationID t)
    (if Transaction_IsEmpty (tr_Body t) then None else Some (tr_Body t))
    (tr_CreatedAt t) (tr_UpdatedAt t) (tr_DeletedAt t)
    (if IsNilOrEmpty (tr_Route t) then None else Some (tr_Route t)) (tr_RouteID t)
    (tr_FeesSkipped t) (tr_TracerSkipped t).

(** The struct's zero values. *)
Definition zeroTransaction : Transaction :=
  mkTransaction "" "" "" false ∅ "" None None
    (mkSend "" dzero (mkSource "" []) (mkDistribute "" [])) None "".

Definition ToEntity (r : TransactionPostgreSQLModel) : TransactionEntity :=
  mkEntity (rw_ID r) (rw_ParentTransactionID r) (rw_Description r)
    (mkStatus (rw_Status r) (rw_StatusDescription r)) (rw_Amount r) (rw_AssetCode r)
    (rw_ChartOfAccountsGroupName r) [] [] (rw_LedgerID r) (rw_OrganizationID r)
    (match rw_Body r with
     | Some b => if Transaction_IsEmpty b then zeroTransaction else b
     | None => zeroTransaction
     end) (default "" (rw_Route r)) (rw_RouteID r) (rw_FeesSkipped r) (rw_TracerSkipped r)
    (rw_CreatedAt r) (rw_UpdatedAt r) (rw_DeletedAt r) ∅ [].

(** ** Field updates *)

Definition set_status (s : Status) (t : TransactionEntity) : TransactionEntity :=
  mkEntity (tr_ID t) (tr_ParentTransactionID t) (tr_Description t) s (tr_Amount t) (tr_AssetCode t)
    (tr_ChartOfAccountsGroupName t) (tr_Source t) (tr_Destination t) (tr_LedgerID t)
    (tr_OrganizationID t) (tr_Body t) (tr_Route t) (tr_RouteID t) (tr_FeesSkipped t)
    (tr_TracerSkipped t) (tr_CreatedAt t) (tr_UpdatedAt t) (tr_DeletedAt t) (tr_Metadata t)
    (tr_Operations t).

Definition set_body (b : Transaction) (t : TransactionEntity) : TransactionEntity :=
  mkEntity (tr_ID t) (tr_ParentTransactionID t) (tr_Description t) (tr_Status t) (tr_Amount t)
    (tr_AssetCode t) (tr_ChartOfAccountsGroupName t) (tr_Source t) (tr_Destination t) (tr_LedgerID t)
    (tr_OrganizationID t) b (tr_Route t) (tr_RouteID t) (tr_FeesSkipped t)
    (tr_TracerSkipped t) (tr_CreatedAt t) (tr_UpdatedAt t) (tr_DeletedAt t) (tr_Metadata t)
    (tr_Operations t).

Definition approved : Status := mkStatus APPROVED (Some (status_text APPROVED)).

(** The columns an [Update] sets: the body is emptied when the entity has none, the
    description and the status are set when the entity has them. *)
Definition row_update (now : Time) (t : TransactionEntity) (r : TransactionPostgreSQLModel)
    : TransactionPostgreSQLModel :=
  mkTransactionRow (rw_ID r) (rw_ParentTransactionID r)
    (if bool_decide (tr_Description t = "") then rw_Description r else tr_Description t)
    (if Status_IsEmpty (tr_Status t) then rw_Status r else sta_Code (tr_Status t))
    (if Status_IsEmpty (tr_Status t) then rw_StatusDescription r else sta_Description (tr_Status t))
    (rw_Amount r) (rw_AssetCode r) (rw_ChartOfAccountsGroupName r) (rw_LedgerID r) (rw_OrganizationID r)
    (if Transaction_IsEmpty (tr_Body t) then None else rw_Body r) (rw_CreatedAt r) now (rw_DeletedAt r)
    (rw_Route r) (rw_RouteID r) (rw_FeesSkipped r) (rw_TracerSkipped r).

Definition addressed (organizationID ledgerID : string) (r : TransactionPostgreSQLModel) : bool :=
  bool_decide (rw_OrganizationID r = organizationID) && bool_decide (rw_LedgerID r = ledgerID)
  && bool_decide (rw_DeletedAt r = None).

(** ** Lifecycle events *)

Inductive Phase := PhaseCreated | PhaseUpdated | PhaseNoop.
Inductive Lifecycle := Posted | Reverted | Committed | Canceled | FeesApplied.

(** [emitFeesAppliedEvent] *)
Definition fees_applied (t : TransactionEntity) : bool :=
  match tr_Metadata t !! "feeApplied", tr_Metadata t !! "packageAppliedID" with
  | Some (AnyString applied), Some (AnyString package) =>
      bool_decide (applied = "true") && negb (bool_decide (package = ""))
  | _, _ => false
  end.

(** [emitTransactionLifecycleEvent] *)
Definition lifecycle_events (phase : Phase) (t : TransactionEntity) : list Lifecycle :=
  match phase with
  | PhaseCreated =>
      if negb (bool_decide (sta_Code (tr_Status t) = APPROVED)) then [] else
      match tr_ParentTransactionID t with
      | Some p => if bool_decide (p = "") then Posted :: (if fees_applied t then [FeesApplied] else [])
                  else [Reverted]
      | None => Posted :: (if fees_applied t then [FeesApplied] else [])
      end
  | PhaseUpdated =>
      match sta_Code (tr_Status t) with
      | APPROVED => [Committed]
      | CANCELED => [Canceled]
      | _ => []
      end
  | PhaseNoop => []
  end.

(** ** Payload *)

Record TransactionProcessingPayload := mkPayload {
  pl_Validate : option Responses; pl_Transaction : option TransactionEntity;
  pl_Input : Transaction; pl_Version : string }.

Definition pending_of (p : TransactionProcessingPayload) : bool :=
  match pl_Validate p with Some v => resp_Pending v | None => false end.

Definition ExpectedBackupStatusForCleanup (status : TxStatus) (validate : option Responses) : TxStatus :=
  match validate with
  | Some v => if bool_decide (status = APPROVED) && negb (resp_Pending v) then CREATED else status
  | None => status
  end.

(** ** Stores *)

(** Of a backup entry the clean-up reads the status. *)
Record store := mkStore {
  db_transactions : gmap string TransactionPostgreSQLModel;
  db_operations : gmap string Operation;
  db_metadata : gmap (string * string) Metadata;
  st_backup : gmap string TxStatus;
  st_behind : gmap string TransactionEntity;
  st_events : list (string * Lifecycle) }.

Definition set_transactions m (st : store) : store :=
  mkStore m (db_operations st) (db_metadata st) (st_backup st) (st_behind st) (st_events st).
Definition set_operations m (st : store) : store :=
  mkStore (db_transactions st) m (db_metadata st) (st_backup st) (st_behind st) (st_events st).
Definition set_metadata m (st : store) : store :=
  mkStore (db_transactions st) (db_operations st) m (st_backup st) (st_behind st) (st_events st).
Definition set_backup m (st : store) : store :=
  mkStore (db_transactions st) (db_operations st) (db_metadata st) m (st_behind st) (st_events st).
Definition set_behind m (st : store) : store :=
  mkStore (db_transactions st) (db_operations st) (db_metadata st) (st_backup st) m (st_events st).
Definition add_events l (st : store) : store :=
  mkStore (db_transactions st) (db_operations st) (db_metadata st) (st_backup st) (st_behind st)
    (st_events st ++ l).

End Entities.

(** ** Calls that may fail *)

Inductive call :=
  | CallUpdateBalances | CallCreateTransaction | CallUpdateTransaction
  | CallTransactionMetadata | CallOperation (id : string) | CallOperationMetadata (id : string)
  | CallReadBackup | CallRemoveBackup | CallDeleteBehind | CallBeginTx | CallInsertTransactions (chunk : nat)
  | CallInsertOperations (chunk : nat) | CallCommit | CallUpdateChunk (chunk : nat)
  | CallUpdateOne (id : string) | CallMetadataBulk.

(** A call answers, is refused without effect, or takes effect and its answer is lost. *)
Inductive answer := Answered | Refused | AnswerLost.
Definition faults : Type := call → answer.
Definition no_faults : faults := λ _, Answered.

Inductive WriteError := DbError | EntityNotFound | UniqueViolation | InvalidDirection | NilTransaction
  | UpdateFailures | FallbackFailures.

(** RABBITMQ_TRANSACTION_ASYNC and RABBITMQ_TRANSACTION_EVENTS_ENABLED. *)
Record environment := mkEnv { env_async : bool; env_events : bool }.

Section Individual.
Context {D : DecimalLib} {C : LibCommons}.

(** The outcome of a statement that would turn [st] into [st'] and answer [r]. *)
Definition perform {A} (a : answer) (st st' : store) (r : result WriteError A) : store * result WriteError A :=
  match a with
  | Answered => (st', r)
  | Refused => (st, Err DbError)
  | AnswerLost => (st', Err DbError)
  end.

(** [TransactionPostgreSQLRepository.Create]: the identifier is the primary key. *)
Definition Transaction_Create (a : answer) (t : TransactionEntity) (st : store)
    : store * result WriteError unit :=
  match db_transactions st !! tr_ID t with
  | Some _ => perform a st st (Err UniqueViolation)
  | None => perform a st (set_transactions (<[tr_ID t := FromEntity "" t]> (db_transactions st)) st) (Ok tt)
  end.

(** [TransactionPostgreSQLRepository.Update] *)
Definition Transaction_Update (a : answer) (now : Time) (organizationID ledgerID id : string)
    (t : TransactionEntity) (st : store) : store * result WriteError unit :=
  match db_transactions st !! id with
  | Some r =>
      if addressed organizationID ledgerID r
      then perform a st (set_transactions (<[id := row_update now t r]> (db_transactions st)) st) (Ok tt)
      else perform a st st (Err EntityNotFound)
  | None => perform a st st (Err EntityNotFound)
  end.

Definition UpdateTransactionStatus (a : answer) (now : Time) (t : TransactionEntity) (st : store)
    : store * result WriteError unit :=
  Transaction_Update a now (tr_OrganizationID t) (tr_LedgerID t) (tr_ID t) t st.

(** [OperationPostgreSQLRepository.Create] *)
Definition Operation_Create (a : answer) (op : Operation) (st : store) : store * result WriteError unit :=
  match db_operations st !! op_ID op with
  | Some _ => perform a st st (Err UniqueViolation)
  | None => perform a st (set_operations (<[op_ID op := op]> (db_operations st)) st) (Ok tt)
  end.

(** [MetadataMongoDBRepository.Create] upserts with $setOnInsert. *)
Definition put_metadata (collection id : string) (m : Metadata) (st : store) : store :=
  match db_metadata st !! (collection, id) with
  | Some _ => st
  | None => set_metadata (<[(collection, id) := m]> (db_metadata st)) st
  end.

Definition CreateMetadataAsync (a : answer) (m : Metadata) (id collection : string) (st : store)
    : store * result WriteError unit :=
  if bool_decide (m = ∅) then (st, Ok tt) else perform a st (put_metadata collection id m st) (Ok tt).

Definition is_final (s : TxStatus) : bool := bool_decide (s = APPROVED ∨ s = CANCELED).

(** The transaction as it is stored. *)
Definition prepared_entity (p : TransactionProcessingPayload) (t : TransactionEntity) : TransactionEntity :=
  match sta_Code (tr_Status t) with
  | CREATED => set_status approved (set_body zeroTransaction t)
  | PENDING => set_body (pl_Input p) t
  | _ => set_body zeroTransaction t
  end.

Definition CreateOrUpdateTransaction (flt : faults) (now : Time) (p : TransactionProcessingPayload)
    (t : TransactionEntity) (st : store) : store * result WriteError (TransactionEntity * Phase) :=
  let tran := prepared_entity p t in
  match Transaction_Create (flt CallCreateTransaction) tran st with
  | (st1, Ok _) => (st1, Ok (tran, PhaseCreated))
  | (st1, Err UniqueViolation) =>
      if pending_of p && is_final (sta_Code (tr_Status tran)) then
        match UpdateTransactionStatus (flt CallUpdateTransaction) now tran st1 with
        | (st2, Ok _) => (st2, Ok (tran, PhaseUpdated))
        | (st2, Err e) => (st2, Err e)
        end
      else (st1, Ok (tran, PhaseNoop))
  | (st1, Err e) => (st1, Err e)
  end.

Definition validateOperationDirection (op : Operation) : bool :=
  match op_Direction op with
  | DirectionOther s =>
      bool_decide (strings_ToLower s = "debit") || bool_decide (strings_ToLower s = "credit")
  | _ => true
  end.

(** The loop over the operations: an operation that exists already is skipped. *)
Fixpoint create_operations (flt : faults) (ops : list Operation) (st : store)
    : store * result WriteError unit :=
  match ops with
  | [] => (st, Ok tt)
  | op :: rest =>
      if negb (validateOperationDirection op) then (st, Err InvalidDirection) else
      match Operation_Create (flt (CallOperation (op_ID op))) op st with
      | (st1, Err UniqueViolation) => create_operations flt rest st1
      | (st1, Err e) => (st1, Err e)
      | (st1, Ok _) =>
          match CreateMetadataAsync (flt (CallOperationMetadata (op_ID op))) (op_Metadata op) (op_ID op)
                  EntityOperation st1 with
          | (st2, Err e) => (st2, Err e)
          | (st2, Ok _) => create_operations flt rest st2
          end
      end
  end.

Definition RemoveTransactionFromRedisQueue (flt : faults) (id : string) (st : store) : store :=
  (perform (A := unit) (flt CallRemoveBackup) st (set_backup (delete id (st_backup st)) st) (Ok tt)).1.

Definition RemoveTransactionFromRedisQueueIfStatus (flt : faults) (id : string) (expected : TxStatus)
    (st : store) : store :=
  match flt CallReadBackup with
  | Answered =>
      match st_backup st !! id with
      | None => st
      | Some current =>
          if strings_EqualFold (status_text current) (status_text expected)
          then RemoveTransactionFromRedisQueue flt id st else st
      end
  | _ => st
  end.

Definition DeleteWriteBehindTransaction (flt : faults) (id : string) (st : store) : store :=
  (perform (A := unit) (flt CallDeleteBehind) st (set_behind (delete id (st_behind st)) st) (Ok tt)).1.

Definition SendTransactionEvents (env : environment) (phase : Phase) (t : TransactionEntity) (st : store)
    : store :=
  if env_events env then add_events ((λ e, (tr_ID t, e)) <$> lifecycle_events phase t) st else st.

(** What follows the writes. *)
Definition finish_write (env : environment) (flt : faults) (p : TransactionProcessingPayload)
    (expected : TxStatus) (t : TransactionEntity) (phase : Phase) (st : store) : store :=
  let st := SendTransactionEvents env phase t st in
  let st := if env_async env then
              let s := if bool_decide (status_text expected = "")
                       then ExpectedBackupStatusForCleanup (sta_Code (tr_Status t)) (pl_Validate p)
                       else expected in
              RemoveTransactionFromRedisQueueIfStatus flt (tr_ID t) s st
            else RemoveTransactionFromRedisQueue flt (tr_ID t) st in
  DeleteWriteBehindTransaction flt (tr_ID t) st.

Definition legacy_payload (p : TransactionProcessingPayload) (t : TransactionEntity) : bool :=
  bool_decide (pl_Version p = "") && negb (bool_decide (sta_Code (tr_Status t) = NOTED)).

Definition CreateBalanceTransactionOperationsAsync (env : environment) (flt : faults) (now : Time)
    (p : TransactionProcessingPayload) (st : store) : store * result WriteError unit :=
  match pl_Transaction p with
  | None => (st, Err NilTransaction)
  | Some t =>
      let expected := ExpectedBackupStatusForCleanup (sta_Code (tr_Status t)) (pl_Validate p) in
      if legacy_payload p t && negb (match flt CallUpdateBalances with Answered => true | _ => false end)
      then (st, Err DbError) else
      match CreateOrUpdateTransaction flt now p t st with
      | (st1, Err e) => (st1, Err e)
      | (st1, Ok (tran, phase)) =>
          match CreateMetadataAsync (flt CallTransactionMetadata) (tr_Metadata tran) (tr_ID tran)
                  EntityTransaction st1 with
          | (st2, Err e) => (st2, Err e)
          | (st2, Ok _) =>
              match create_operations flt (tr_Operations tran) st2 with
              | (st3, Err e) => (st3, Err e)
              | (st3, Ok _) => (finish_write env flt p expected tran phase st3, Ok tt)
              end
          end
      end
  end.

(** [UpdateTransaction]: the description of a stored transaction is changed. *)
Definition UpdateTransaction (a : answer) (now : Time) (organizationID ledgerID id description : string)
    (st : store) : store * result WriteError unit :=
  Transaction_Update a now organizationID ledgerID id
    (mkEntity "" None description (mkStatus (StatusOther "") None) None "" "" [] [] "" "" zeroTransaction
       "" None false false 0 0 None ∅ []) st.

(** Deliveries of messages, each with its own failures. *)
Record delivery := mkDelivery { dl_payload : TransactionProcessingPayload; dl_faults : faults; dl_now : Time }.

Definition deliver (env : environment) (st : store) (d : delivery) : store * result WriteError unit :=
  CreateBalanceTransactionOperationsAsync env (dl_faults d) (dl_now d) (dl_payload d) st.

Definition deliver_all (env : environment) (st : store) (log : list delivery) : store :=
  fold_left (λ st d, (deliver env st d).1) log st.

End Individual.

(** ** Effects of one delivery *)

Section Effects.
Context {D : DecimalLib} {C : LibCommons}.
Implicit Types (t : TransactionEntity) (p : TransactionProcessingPayload) (r : TransactionPostgreSQLModel)
  (st : store) (flt : faults) (op : Operation).

(** The columns no later write changes, of a row and of the row a transaction asks for. *)
Definition row_facts r : TransactionPostgreSQLModel :=
  mkTransactionRow (rw_ID r) (rw_ParentTransactionID r) (rw_Description r) APPROVED None (rw_Amount r)
    (rw_AssetCode r) (rw_ChartOfAccountsGroupName r) (rw_LedgerID r) (rw_OrganizationID r) None
    (rw_CreatedAt r) 0 (rw_DeletedAt r) (rw_Route r) (rw_RouteID r) (rw_FeesSkipped r) (rw_TracerSkipped r).
Definition entity_facts t : TransactionPostgreSQLModel :=
  mkTransactionRow (tr_ID t) (tr_ParentTransactionID t) (tr_Description t) APPROVED None (tr_Amount t)
    (tr_AssetCode t) (tr_ChartOfAccountsGroupName t) (tr_LedgerID t) (tr_OrganizationID t) None
    (tr_CreatedAt t) 0 (tr_DeletedAt t) (if IsNilOrEmpty (tr_Route t) then None else Some (tr_Route t))
    (tr_RouteID t) (tr_FeesSkipped t) (tr_TracerSkipped t).

(** The columns a message settles: the status with its description, a created
    transaction being approved at once, and the body, which is kept while the transaction
    is pending. *)
Definition stored_status t : TxStatus :=
  match sta_Code (tr_Status t) with CREATED => APPROVED | s => s end.
Definition stored_description t : option string :=
  match sta_Code (tr_Status t) with CREATED => Some "APPROVED" | _ => sta_Description (tr_Status t) end.
Definition stored_body p t : option Transaction :=
  if bool_decide (sta_Code (tr_Status t) = PENDING) && negb (Transaction_IsEmpty (pl_Input p))
  then Some (pl_Input p) else None.

Definition settled_columns r : TxStatus * option string * option Transaction :=
  (rw_Status r, rw_StatusDescription r, rw_Body r).
Definition stored_columns p t : TxStatus * option string * option Transaction :=
  (stored_status t, stored_description t, stored_body p t).

(** A message that settles a pending transaction. *)
Definition is_transition p t : bool := pending_of p && is_final (stored_status t).

Lemma FromEntity_facts t : row_facts (FromEntity "" t) = entity_facts t.
Proof.
  unfold row_facts, FromEntity, entity_facts. cbn. f_equal. by case_bool_decide.
Qed.

Lemma prepared_facts p t : entity_facts (prepared_entity p t) = entity_facts t.
Proof. unfold prepared_entity. by destruct (sta_Code (tr_Status t)). Qed.
Lemma prepared_id p t : tr_ID (prepared_entity p t) = tr_ID t.
Proof. unfold prepared_entity. by destruct (sta_Code (tr_Status t)). Qed.
Lemma prepared_metadata p t : tr_Metadata (prepared_entity p t) = tr_Metadata t.
Proof. unfold prepared_entity. by destruct (sta_Code (tr_Status t)). Qed.
Lemma prepared_operations p t : tr_Operations (prepared_entity p t) = tr_Operations t.
Proof. unfold prepared_entity. by destruct (sta_Code (tr_Status t)). Qed.

Lemma prepared_status p t : sta_Code (tr_Status (prepared_entity p t)) = stored_status t.
Proof. unfold prepared_entity, stored_status. by destruct (sta_Code (tr_Status t)) eqn:E; cbn; rewrite ?E. Qed.

Lemma zeroTransaction_empty `{!DecimalLaws} : Transaction_IsEmpty zeroTransaction = true.
Proof. unfold Transaction_IsEmpty. cbn. by apply dis_zero_spec, dval_zero. Qed.

Lemma prepared_columns `{!DecimalLaws} p t : settled_columns (FromEntity "" (prepared_entity p t)) = stored_columns p t.
Proof.
  unfold settled_columns, stored_columns, prepared_entity, stored_status, stored_description, stored_body.
  destruct (sta_Code (tr_Status t)) eqn:E; cbn; rewrite ?E, ?zeroTransaction_empty; try done.
  rewrite bool_decide_eq_true_2 by done. by destruct (Transaction_IsEmpty (pl_Input p)).
Qed.

Lemma is_final_spec s : is_final s = true ↔ s = APPROVED ∨ s = CANCELED.
Proof. apply bool_decide_eq_true. Qed.

Lemma row_update_facts now t r : entity_facts t = row_facts r → row_facts (row_update now t r) = row_facts r.
Proof.
  intros E. assert (tr_Description t = rw_Description r) as Hd by exact (f_equal rw_Description E).
  unfold row_facts, row_update. cbn. f_equal. case_bool_decide; [done|exact Hd].
Qed.

Lemma row_update_columns `{!DecimalLaws} now p t r :
  is_transition p t = true → settled_columns (row_update now (prepared_entity p t) r) = stored_columns p t.
Proof.
  intros [_ Hf]%andb_true_iff. apply is_final_spec in Hf.
  unfold settled_columns, stored_columns, prepared_entity, stored_status, stored_description, stored_body in *.
  destruct (sta_Code (tr_Status t)) eqn:E; cbn; unfold Status_IsEmpty; rewrite ?E;
    cbn; rewrite ?zeroTransaction_empty; try done; naive_solver.
Qed.

Lemma row_update_status now p t r :
  is_transition p t = true → rw_Status (row_update now (prepared_entity p t) r) = stored_status t.
Proof.
  intros [_ Hf]%andb_true_iff. apply is_final_spec in Hf. cbn. unfold Status_IsEmpty. rewrite prepared_status.
  by destruct Hf as [-> | ->].
Qed.

(** What a delivery does to the row of its transaction. *)
Definition tx_effect (now : Time) p t (o : option TransactionPostgreSQLModel)
    : option TransactionPostgreSQLModel :=
  match o with
  | None => Some (FromEntity "" (prepared_entity p t))
  | Some r =>
      if is_transition p t && addressed (tr_OrganizationID t) (tr_LedgerID t) r
      then Some (row_update now (prepared_entity p t) r) else Some r
  end.

Lemma prepared_scope p t : tr_OrganizationID (prepared_entity p t) = tr_OrganizationID t ∧
  tr_LedgerID (prepared_entity p t) = tr_LedgerID t.
Proof. unfold prepared_entity. by destruct (sta_Code (tr_Status t)). Qed.

(** The stores a step on the transaction table leaves alone. *)
Definition same_rest st st' : Prop :=
  db_operations st' = db_operations st ∧ db_metadata st' = db_metadata st.

Lemma create_or_update_effect flt now p t st st' res :
  CreateOrUpdateTransaction flt now p t st = (st', res) →
  same_rest st st' ∧
  (db_transactions st' = db_transactions st ∨
   db_transactions st' = partial_alter (tx_effect now p t) (tr_ID t) (db_transactions st)) ∧
  (∀ x, res = Ok x → x.1 = prepared_entity p t ∧
     db_transactions st' = partial_alter (tx_effect now p t) (tr_ID t) (db_transactions st) ∧
     (is_transition p t = true → ∀ r, db_transactions st !! tr_ID t = Some r →
        addressed (tr_OrganizationID t) (tr_LedgerID t) r = true)).
Proof.
  unfold CreateOrUpdateTransaction, Transaction_Create, UpdateTransactionStatus, Transaction_Update.
  destruct (prepared_scope p t) as [Ho Hl]. rewrite prepared_id, Ho, Hl.
  rewrite prepared_status. fold (is_transition p t).
  destruct (db_transactions st !! tr_ID t) as [r|] eqn:E.
  - assert (partial_alter (tx_effect now p t) (tr_ID t) (db_transactions st) =
              if is_transition p t && addressed (tr_OrganizationID t) (tr_LedgerID t) r
              then <[tr_ID t := row_update now (prepared_entity p t) r]> (db_transactions st)
              else db_transactions st) as HP.
    { apply map_eq. intros i. destruct (decide (i = tr_ID t)) as [->|Hi].
      - rewrite lookup_partial_alter_eq, E. cbn.
        destruct (is_transition p t && addressed _ _ r); [by rewrite lookup_insert_eq|done].
      - rewrite lookup_partial_alter_ne by done.
        destruct (is_transition p t && addressed _ _ r); [by rewrite lookup_insert_ne|done]. }
    rewrite HP. destruct (flt CallCreateTransaction); cbn;
      [|intros [= <- <-]; split_and!; auto; [by split|intros ? [=]]..].
    destruct (is_transition p t) eqn:Ht; cbn.
    2:{ intros [= <- <-]. split_and!; try done; [by left|]. intros x [= <-]. done. }
    rewrite E. destruct (addressed _ _ r) eqn:Ha; cbn;
      (destruct (flt CallUpdateTransaction); cbn; intros [= <- <-]; split_and!; try done; auto;
       intros x; try discriminate; intros [= <-]; split_and!; try done; intros _ r' [= <-]; done).
  - assert (partial_alter (tx_effect now p t) (tr_ID t) (db_transactions st) =
              <[tr_ID t := FromEntity "" (prepared_entity p t)]> (db_transactions st)) as HP.
    { apply map_eq. intros i. destruct (decide (i = tr_ID t)) as [->|Hi].
      - by rewrite lookup_partial_alter_eq, E, lookup_insert_eq.
      - by rewrite lookup_partial_alter_ne, lookup_insert_ne. }
    rewrite HP. destruct (flt CallCreateTransaction); cbn; intros [= <- <-]; split_and!; try done; auto;
      intros x; try discriminate. intros [= <-]. done.
Qed.

Lemma put_metadata_grows collection id m st :
  db_transactions (put_metadata collection id m st) = db_transactions st ∧
  db_operations (put_metadata collection id m st) = db_operations st ∧
  db_metadata st ⊆ db_metadata (put_metadata collection id m st) ∧
  is_Some (db_metadata (put_metadata collection id m st) !! (collection, id)) ∧
  (∀ k x, db_metadata (put_metadata collection id m st) !! k = Some x →
     db_metadata st !! k = Some x ∨ (k = (collection, id) ∧ x = m)).
Proof.
  unfold put_metadata. destruct (db_metadata st !! (collection, id)) eqn:E; [by split_and!; eauto|].
  split_and!; try done; cbn; [by apply insert_subseteq|rewrite lookup_insert_eq; eauto|].
  intros k x [[<- <-]|[_ ?]]%lookup_insert_Some; auto.
Qed.

Lemma create_metadata_effect a m id collection st st' res :
  CreateMetadataAsync a m id collection st = (st', res) →
  db_transactions st' = db_transactions st ∧ db_operations st' = db_operations st ∧
  db_metadata st ⊆ db_metadata st' ∧
  (∀ k x, db_metadata st' !! k = Some x → db_metadata st !! k = Some x ∨ (k = (collection, id) ∧ x = m ∧ x ≠ ∅)) ∧
  (is_ok res = true ∨ a ≠ Refused → m ≠ ∅ → is_Some (db_metadata st' !! (collection, id))).
Proof.
  unfold CreateMetadataAsync. case_bool_decide; [by intros [= <- <-]; split_and!; auto|].
  destruct (put_metadata_grows collection id m st) as (? & ? & ? & ? & Hk).
  assert (∀ k x, db_metadata (put_metadata collection id m st) !! k = Some x →
            db_metadata st !! k = Some x ∨ (k = (collection, id) ∧ x = m ∧ x ≠ ∅))
    by (intros k x [?|[-> ->]]%Hk; auto).
  destruct a; cbn; intros [= <- <-]; split_and!; auto. by intros [?|[]].
Qed.

(** A metadata document of a transaction or of one of its operations. *)
Definition operation_metadata (ops : list Operation) (k : string * string) (m : Metadata) : Prop :=
  ∃ op, op ∈ ops ∧ k = (EntityOperation, op_ID op) ∧ m = op_Metadata op ∧ m ≠ ∅.
Definition message_metadata t (k : string * string) (m : Metadata) : Prop :=
  (k = (EntityTransaction, tr_ID t) ∧ m = tr_Metadata t ∧ m ≠ ∅) ∨ operation_metadata (tr_Operations t) k m.

(** The calls that store an operation and its metadata do not come apart. *)
Definition op_clean flt op : Prop :=
  flt (CallOperation (op_ID op)) ≠ AnswerLost ∧ flt (CallOperationMetadata (op_ID op)) ≠ Refused.
Definition metadata_kept flt (ops : list Operation) st st' : Prop :=
  ∀ op, op ∈ ops → op_clean flt op → (∀ op', op' ∈ ops → op_ID op' = op_ID op → op' = op) →
    db_operations st !! op_ID op = None → is_Some (db_operations st' !! op_ID op) → op_Metadata op ≠ ∅ →
    is_Some (db_metadata st' !! (EntityOperation, op_ID op)).

(** What the loop over the operations may do to the stores, and does when it succeeds. *)
Definition ops_effect flt (ops : list Operation) st st' (ok : bool) : Prop :=
  db_transactions st' = db_transactions st ∧ db_operations st ⊆ db_operations st' ∧
  db_metadata st ⊆ db_metadata st' ∧
  (∀ i o, db_operations st' !! i = Some o → db_operations st !! i = Some o ∨ (o ∈ ops ∧ op_ID o = i)) ∧
  (∀ k m, db_metadata st' !! k = Some m → db_metadata st !! k = Some m ∨ operation_metadata ops k m) ∧
  metadata_kept flt ops st st' ∧
  (ok = true → ∀ op, op ∈ ops → is_Some (db_operations st' !! op_ID op)).

Lemma ops_effect_refl flt ops st : ops_effect flt ops st st false.
Proof. split_and!; auto; [|done]. intros op _ _ _ -> [? [=]]. Qed.

(** An operation that is there, or has just been stored with its metadata, and the rest. *)
Lemma ops_effect_cons flt op ops st st1 st' ok :
  db_transactions st1 = db_transactions st → db_operations st ⊆ db_operations st1 →
  db_metadata st ⊆ db_metadata st1 →
  (∀ i o, db_operations st1 !! i = Some o → db_operations st !! i = Some o ∨ (o = op ∧ op_ID o = i)) →
  (∀ k m, db_metadata st1 !! k = Some m → db_metadata st !! k = Some m ∨ operation_metadata [op] k m) →
  (op_clean flt op → db_operations st !! op_ID op = None → is_Some (db_operations st1 !! op_ID op) →
     op_Metadata op ≠ ∅ → is_Some (db_metadata st1 !! (EntityOperation, op_ID op))) →
  (ok = true → is_Some (db_operations st1 !! op_ID op)) →
  ops_effect flt ops st1 st' ok ∧ (is_Some (db_operations st1 !! op_ID op) ∨ st' = st1) →
  ops_effect flt (op :: ops) st st' ok.
Proof.
  intros H1 H2 H3 H4 H5 H6 H7 [(G1 & G2 & G3 & G4 & G5 & G6 & G7) Hs].
  split_and!; [congruence|by etrans|by etrans| | | |].
  - intros i o [Ho|[Ho ?]]%G4; [|right; split; [set_solver|done]].
    destruct (H4 _ _ Ho) as [?|[-> ?]]; [by left|right; split; [set_solver|done]].
  - intros k m [Hk|(o & ? & ?)]%G5; [|right; exists o; split; [set_solver|done]].
    destruct (H5 _ _ Hk) as [?|(o & ->%list_elem_of_singleton & ?)]; [by left|].
    right. exists op. split; [set_solver|done].
  - intros o Ho Hcl Hu Hn Hin Hm.
    destruct (db_operations st1 !! op_ID o) as [x|] eqn:Ex.
    + destruct (H4 _ _ Ex) as [?|[-> Hid]]; [congruence|].
      assert (op = o) as <- by (apply Hu; [set_solver|done]).
      destruct (H6 Hcl Hn) as [m Hl]; [by eauto|done|]. exists m. by eapply lookup_weaken.
    + destruct Hs as [Hs| ->]; [|rewrite Ex in Hin; by destruct Hin]. apply elem_of_cons in Ho as [-> |Ho].
      { rewrite Ex in Hs. by destruct Hs. }
      apply G6; try done. intros o' Ho'. apply Hu. set_solver.
  - intros Hok o [-> |?]%elem_of_cons; [|auto]. destruct (H7 Hok) as [x Hx].
    exists x. by eapply lookup_weaken.
Qed.

Lemma create_operations_effect flt ops : ∀ st st' res, create_operations flt ops st = (st', res) →
  ops_effect flt ops st st' (is_ok res).
Proof.
  induction ops as [|op ops IH]; intros st st' res; cbn [create_operations].
  { intros [= <- <-]. split_and!; auto; intros ? []%not_elem_of_nil || (intros _ ? []%not_elem_of_nil). }
  destruct (negb (validateOperationDirection op)); [intros [= <- <-]; apply ops_effect_refl|].
  unfold Operation_Create. destruct (db_operations st !! op_ID op) as [o|] eqn:Eo.
  - destruct (flt (CallOperation (op_ID op))) eqn:Ef; cbn; try (intros [= <- <-]; apply ops_effect_refl).
    intros E. apply (ops_effect_cons flt op ops st st); auto. congruence.
  - assert (db_operations st ⊆ <[op_ID op := op]> (db_operations st)) as Hins by by apply insert_subseteq.
    assert (∀ i o, <[op_ID op := op]> (db_operations st) !! i = Some o →
              db_operations st !! i = Some o ∨ (o = op ∧ op_ID o = i)) as Hnew.
    { intros i o [[<- <-]|[_ ?]]%lookup_insert_Some; auto. }
    destruct (flt (CallOperation (op_ID op))) eqn:Ef; cbn; [|intros [= <- <-]; apply ops_effect_refl|].
    + destruct (CreateMetadataAsync _ _ _ _ _) as [st2 res2] eqn:Em.
      apply create_metadata_effect in Em as (M1 & M2 & M3 & M4 & M5); cbn in *.
      intros E. apply (ops_effect_cons flt op ops st st2); rewrite ?M1, ?M2; auto.
      * intros k m [?|(-> & -> & ?)]%M4; [by left|right]. exists op. split; [set_solver|done].
      * intros [_ Hr] _ _. apply M5. by right.
      * rewrite lookup_insert_eq. eauto.
      * rewrite lookup_insert_eq. destruct res2 as [[]|e]; [split; [by apply IH|eauto]|].
        injection E as <- <-. split; [apply ops_effect_refl|eauto].
    + intros [= <- <-]. apply (ops_effect_cons flt op ops st (set_operations (<[op_ID op := op]> (db_operations st)) st));
        cbn; auto; [|done|split; [apply ops_effect_refl|auto]].
      intros [Hl _]. congruence.
Qed.

Lemma finish_write_tables env flt p expected t phase st :
  db_transactions (finish_write env flt p expected t phase st) = db_transactions st ∧
  db_operations (finish_write env flt p expected t phase st) = db_operations st ∧
  db_metadata (finish_write env flt p expected t phase st) = db_metadata st.
Proof.
  unfold finish_write, DeleteWriteBehindTransaction, RemoveTransactionFromRedisQueueIfStatus,
    RemoveTransactionFromRedisQueue, SendTransactionEvents, perform.
  repeat case_match; done.
Qed.

End Effects.

(** ** Deliveries at least once *)

Section Deliveries.
Context {D : DecimalLib} {DL : DecimalLaws} {C : LibCommons} (env : environment).
Implicit Types (t : TransactionEntity) (p : TransactionProcessingPayload) (d : delivery) (st : store).

Definition carries d t : Prop := pl_Transaction (dl_payload d) = Some t.
Definition accepted st d : Prop := is_ok (deliver env st d).2 = true.

Lemma deliver_nothing d st : pl_Transaction (dl_payload d) = None → (deliver env st d).1 = st.
Proof. unfold deliver, CreateBalanceTransactionOperationsAsync. by intros ->. Qed.

Lemma deliver_effect d t st : carries d t →
  let st' := (deliver env st d).1 in
  let p := dl_payload d in
  (db_transactions st' = db_transactions st ∨
   db_transactions st' = partial_alter (tx_effect (dl_now d) p t) (tr_ID t) (db_transactions st)) ∧
  db_operations st ⊆ db_operations st' ∧ db_metadata st ⊆ db_metadata st' ∧
  (∀ i o, db_operations st' !! i = Some o → db_operations st !! i = Some o ∨ (o ∈ tr_Operations t ∧ op_ID o = i)) ∧
  (∀ k m, db_metadata st' !! k = Some m → db_metadata st !! k = Some m ∨ message_metadata t k m) ∧
  metadata_kept (dl_faults d) (tr_Operations t) st st' ∧
  (accepted st d →
     db_transactions st' = partial_alter (tx_effect (dl_now d) p t) (tr_ID t) (db_transactions st) ∧
     (is_transition p t = true → ∀ r, db_transactions st !! tr_ID t = Some r →
        addressed (tr_OrganizationID t) (tr_LedgerID t) r = true) ∧
     (∀ op, op ∈ tr_Operations t → is_Some (db_operations st' !! op_ID op)) ∧
     (tr_Metadata t ≠ ∅ → is_Some (db_metadata st' !! (EntityTransaction, tr_ID t)))).
Proof.
  assert (∀ st1 st2, db_operations st2 = db_operations st1 →
            metadata_kept (dl_faults d) (tr_Operations t) st1 st2) as Hsame
    by (intros st1 st2 E op _ _ _ Hn [? Hs] _; rewrite E, Hn in Hs; discriminate).
  unfold carries. intros Hd. cbn zeta. unfold accepted, deliver, CreateBalanceTransactionOperationsAsync. rewrite Hd.
  destruct (legacy_payload _ _ && _); [by cbn; split_and!; auto|].
  destruct (CreateOrUpdateTransaction _ _ _ _ _) as [st1 res] eqn:E1.
  apply create_or_update_effect in E1 as ([R1 R2] & T1 & T2).
  destruct res as [[tran phase]|e]; [|by cbn; rewrite R1, R2; split_and!; auto].
  destruct (T2 _ eq_refl) as (Htran & T3 & T4). cbn in Htran. subst tran.
  rewrite prepared_metadata, prepared_id, prepared_operations.
  destruct (CreateMetadataAsync _ _ _ _ _) as [st2 res2] eqn:E2.
  apply create_metadata_effect in E2 as (M1 & M2 & M3 & M4 & M5). rewrite R2 in M3, M4. rewrite R1 in M2.
  assert (∀ k m, db_metadata st2 !! k = Some m → db_metadata st !! k = Some m ∨ message_metadata t k m) as M6
    by (intros k m [?|?]%M4; [by left|by right; left]).
  destruct res2 as [[]|e]; [|by cbn; rewrite M1, M2; split_and!; auto].
  destruct (create_operations _ _ _) as [st3 res3] eqn:E3.
  apply create_operations_effect in E3 as (O1 & O2 & O3 & O4 & O5 & O6 & O7).
  unfold metadata_kept in O6 |- *. rewrite M2 in O2, O4, O6. rewrite M1 in O1.
  assert (∀ k m, db_metadata st3 !! k = Some m → db_metadata st !! k = Some m ∨ message_metadata t k m) as O8
    by (intros k m [?%M6|?]%O5; [done|by right; right]).
  destruct res3 as [[]|e]; cbn [fst snd is_ok].
  - destruct (finish_write_tables env (dl_faults d) (dl_payload d)
      (ExpectedBackupStatusForCleanup (sta_Code (tr_Status t)) (pl_Validate (dl_payload d)))
      (prepared_entity (dl_payload d) t) phase st3) as (-> & -> & ->).
    rewrite O1. split_and!; auto; [by etrans|]. intros _. split_and!; auto.
    intros Hm. destruct (M5 (or_introl eq_refl) Hm) as [m Hlm]. exists m. by eapply lookup_weaken.
  - rewrite O1. split_and!; auto; [by etrans|done].
Qed.

(** Messages about the same transaction agree with each other: in the columns no write
    changes, in what they make of the other ones if both settle a pending transaction or
    neither does, and in the metadata they carry.  An operation identifier stands for one
    operation. *)
Record consistent_log (log : list delivery) : Prop := {
  cl_facts d d' t t' : d ∈ log → d' ∈ log → carries d t → carries d' t' → tr_ID t = tr_ID t' →
    entity_facts t = entity_facts t';
  cl_columns d d' t t' : d ∈ log → d' ∈ log → carries d t → carries d' t' → tr_ID t = tr_ID t' →
    is_transition (dl_payload d) t = is_transition (dl_payload d') t' →
    stored_columns (dl_payload d) t = stored_columns (dl_payload d') t';
  cl_metadata d d' t t' : d ∈ log → d' ∈ log → carries d t → carries d' t' → tr_ID t = tr_ID t' →
    tr_Metadata t ≠ ∅ → tr_Metadata t' ≠ ∅ → tr_Metadata t = tr_Metadata t';
  cl_operations d d' t t' op op' : d ∈ log → d' ∈ log → carries d t → carries d' t' →
    op ∈ tr_Operations t → op' ∈ tr_Operations t' → op_ID op = op_ID op' → op = op' }.

(** None of their rows and documents is there yet. *)
Definition fresh_for (log : list delivery) st : Prop :=
  ∀ d t, d ∈ log → carries d t → db_transactions st !! tr_ID t = None ∧
    db_metadata st !! (EntityTransaction, tr_ID t) = None ∧
    (∀ op, op ∈ tr_Operations t → db_operations st !! op_ID op = None ∧
       db_metadata st !! (EntityOperation, op_ID op) = None).

Section Log.
Context (log : list delivery) (Hc : consistent_log log) (st0 : store) (Hf : fresh_for log st0).

(** Every row and every document comes from a message. *)
Definition from_messages st : Prop :=
  (∀ i r, db_transactions st !! i = Some r → db_transactions st0 !! i = Some r ∨
     ∃ d t, d ∈ log ∧ carries d t ∧ tr_ID t = i ∧ row_facts r = entity_facts t ∧
            settled_columns r = stored_columns (dl_payload d) t) ∧
  (∀ i o, db_operations st !! i = Some o → db_operations st0 !! i = Some o ∨
     ∃ d t, d ∈ log ∧ carries d t ∧ o ∈ tr_Operations t ∧ op_ID o = i) ∧
  (∀ k m, db_metadata st !! k = Some m → db_metadata st0 !! k = Some m ∨
     ∃ d t, d ∈ log ∧ carries d t ∧ message_metadata t k m).

(** An operation that is stored has its metadata, if none of the deliveries came apart
    between the two. *)
Definition operations_documented st : Prop :=
  ∀ d t op, d ∈ log → carries d t → op ∈ tr_Operations t → (∀ d', d' ∈ log → op_clean (dl_faults d') op) →
    is_Some (db_operations st !! op_ID op) → op_Metadata op ≠ ∅ →
    db_metadata st !! (EntityOperation, op_ID op) = Some (op_Metadata op).

Lemma tx_effect_from d t o r' : d ∈ log → carries d t →
  (∀ r, o = Some r → row_facts r = entity_facts t) → tx_effect (dl_now d) (dl_payload d) t o = Some r' →
  row_facts r' = entity_facts t ∧ (o = Some r' ∨ settled_columns r' = stored_columns (dl_payload d) t).
Proof.
  intros Hin Hd Ho. unfold tx_effect. destruct o as [r|].
  2:{ intros [= <-]. split; [by rewrite FromEntity_facts, prepared_facts|right; apply prepared_columns]. }
  specialize (Ho _ eq_refl). destruct (is_transition _ _) eqn:Ht; cbn [andb]; [|intros [= <-]; by auto].
  destruct (addressed _ _ r); intros [= <-]; [|by auto]. split.
  - by rewrite row_update_facts, Ho by (by rewrite prepared_facts, Ho).
  - right. by apply row_update_columns.
Qed.

Lemma step_from_messages d st : d ∈ log → from_messages st → from_messages (deliver env st d).1.
Proof using Hc Hf DL.
  intros Hin (HT & HO & HM). destruct (pl_Transaction (dl_payload d)) as [t|] eqn:Hd;
    [|by rewrite deliver_nothing].
  destruct (deliver_effect d t st Hd) as (Et & _ & _ & Eo & Em & _). split_and!.
  - destruct Et as [-> | ->]; [done|]. intros i r'. destruct (decide (i = tr_ID t)) as [->|Hi];
      [|rewrite lookup_partial_alter_ne by done; auto].
    rewrite lookup_partial_alter_eq. intros E. right.
    assert (∀ r, db_transactions st !! tr_ID t = Some r →
              ∃ d' t', d' ∈ log ∧ carries d' t' ∧ tr_ID t' = tr_ID t ∧ row_facts r = entity_facts t' ∧
                settled_columns r = stored_columns (dl_payload d') t') as Hr.
    { intros r [E0|?]%HT; [|done]. destruct (Hf d t Hin Hd) as [Hn _]. congruence. }
    assert (∀ r, db_transactions st !! tr_ID t = Some r → row_facts r = entity_facts t) as Hagree.
    { intros r (d' & t' & ? & ? & ? & -> & _)%Hr. by eapply (cl_facts _ Hc d' d). }
    destruct (tx_effect_from d t _ r' Hin Hd Hagree E) as [Hfacts Hst].
    destruct Hst as [(d' & t' & ? & ? & ? & ? & ?)%Hr|?]; [by exists d', t'|by exists d, t].
  - intros i o [?|[? ?]]%Eo; [by auto|]. right. by exists d, t.
  - intros k m [?|?]%Em; [by auto|]. right. by exists d, t.
Qed.

Lemma transaction_document d t st m : d ∈ log → carries d t → from_messages st → tr_Metadata t ≠ ∅ →
  db_metadata st !! (EntityTransaction, tr_ID t) = Some m → m = tr_Metadata t.
Proof using Hc Hf DL.
  intros Hin Hd (_ & _ & HM) Hne Hl. destruct (HM _ _ Hl) as [E0|(d' & t' & ? & ? & [(Hk & -> & ?)|Hop])].
  - destruct (Hf d t Hin Hd) as (_ & Hn & _). congruence.
  - injection Hk as Hk. by eapply (cl_metadata _ Hc d' d).
  - destruct Hop as (op & _ & Hk & _). discriminate Hk.
Qed.

Lemma operation_document d t op st m : d ∈ log → carries d t → op ∈ tr_Operations t → from_messages st →
  db_metadata st !! (EntityOperation, op_ID op) = Some m → m = op_Metadata op.
Proof using Hc Hf DL.
  intros Hin Hd Hop (_ & _ & HM) Hl. destruct (HM _ _ Hl) as [E0|(d' & t' & ? & ? & [(Hk & _)|Hop'])].
  - destruct (Hf d t Hin Hd) as (_ & _ & Hn). destruct (Hn op Hop) as [_ ?]. congruence.
  - discriminate Hk.
  - destruct Hop' as (op' & ? & Hk & -> & _). injection Hk as Hk. f_equal. by eapply (cl_operations _ Hc d' d).
Qed.

Lemma step_documented d st : d ∈ log → from_messages st → operations_documented st →
  operations_documented (deliver env st d).1.
Proof using Hc Hf DL.
  intros Hin Hst HD d1 t1 op Hin1 Hd1 Hop Hcl Hs Hne.
  destruct (pl_Transaction (dl_payload d)) as [t|] eqn:Hd;
    [|rewrite deliver_nothing in Hs |- * by done; by eapply HD].
  destruct (deliver_effect d t st Hd) as (_ & _ & Em & Eo & _ & Ek & _).
  destruct (db_operations st !! op_ID op) as [o|] eqn:Eop.
  { eapply lookup_weaken; [|exact Em]. apply (HD d1 t1); try done. }
  destruct Hs as [o Ho]. destruct (Eo _ _ Ho) as [?|[Hot Hid]]; [congruence|].
  assert (o = op) as -> by (by eapply (cl_operations _ Hc d d1)).
  assert (is_Some (db_metadata (deliver env st d).1 !! (EntityOperation, op_ID op))) as [m Hm].
  { apply Ek; try done; [by apply Hcl|]. intros o' ? ?. by eapply (cl_operations _ Hc d d). }
  rewrite Hm. f_equal. apply (operation_document d1 t1 op (deliver env st d).1); try done. by apply step_from_messages.
Qed.

Lemma deliver_all_from l st : l ⊆ log → from_messages st → operations_documented st →
  from_messages (deliver_all env st l) ∧ operations_documented (deliver_all env st l).
Proof using Hc Hf DL.
  revert st. induction l as [|d l IH]; intros st Hl Hst HD; [done|]. cbn.
  apply IH; [set_solver|apply step_from_messages|apply step_documented]; try done; set_solver.
Qed.

(** What an accepted message leaves behind. *)
Definition recorded_in st d t : Prop :=
  (∃ r, db_transactions st !! tr_ID t = Some r ∧ row_facts r = entity_facts t ∧
     (is_transition (dl_payload d) t = true ∨
      (∀ d' t', d' ∈ log → carries d' t' → tr_ID t' = tr_ID t → is_transition (dl_payload d') t' = false) →
      settled_columns r = stored_columns (dl_payload d) t)) ∧
  (∀ op, op ∈ tr_Operations t → db_operations st !! op_ID op = Some op) ∧
  (tr_Metadata t ≠ ∅ → db_metadata st !! (EntityTransaction, tr_ID t) = Some (tr_Metadata t)).

Lemma accepted_recorded d t st : d ∈ log → carries d t → from_messages st → accepted st d →
  recorded_in (deliver env st d).1 d t.
Proof using Hc Hf DL.
  intros Hin Hd Hst Hacc. pose proof (step_from_messages d st Hin Hst) as Hst'.
  destruct (deliver_effect d t st Hd) as (_ & _ & _ & _ & _ & _ & Eok).
  destruct (Eok Hacc) as (Et & Eadr & Eops & Emeta). destruct (Hf d t Hin Hd) as (Hn & _ & Hno).
  split_and!; [|intros op Hop|].
  - rewrite Et, lookup_partial_alter_eq.
    destruct (db_transactions st !! tr_ID t) as [r|] eqn:Er.
    + destruct (proj1 Hst _ _ Er) as [E0|(d' & t' & ? & ? & Hid & Hr & Hs)]; [congruence|].
      assert (row_facts r = entity_facts t) as Hrt by (rewrite Hr; by eapply (cl_facts _ Hc d' d)).
      cbn [tx_effect]. destruct (is_transition (dl_payload d) t) eqn:Ht; cbn [andb].
      * rewrite (Eadr eq_refl r eq_refl). eexists. split; [done|].
        rewrite row_update_facts by (by rewrite prepared_facts). split; [done|].
        intros _. by apply row_update_columns.
      * eexists. split; [done|]. split; [done|]. intros [?|Hno']; [done|]. rewrite Hs.
        eapply (cl_columns _ Hc d' d); try done. by rewrite Ht, (Hno' d' t').
    + eexists. split; [done|]. split; [by rewrite FromEntity_facts, prepared_facts|].
      intros _. apply prepared_columns.
  - destruct (Eops op Hop) as [o Ho]. rewrite Ho. f_equal.
    destruct (proj1 (proj2 Hst') _ _ Ho) as [E0|(d' & t' & ? & ? & ? & ?)].
    + destruct (Hno op Hop) as [? _]. congruence.
    + by eapply (cl_operations _ Hc d' d).
  - intros Hne. destruct (Emeta Hne) as [m Hm]. rewrite Hm. f_equal. by eapply (transaction_document d t).
Qed.

Lemma recorded_persists d t d' st : d ∈ log → d' ∈ log → carries d t → recorded_in st d t →
  recorded_in (deliver env st d').1 d t.
Proof using Hc Hf DL.
  intros Hin Hin' Hd ((r & Er & Hr & Hs) & Ho & Hm).
  destruct (pl_Transaction (dl_payload d')) as [t'|] eqn:Hd'; [|rewrite deliver_nothing by done; by split_and!; eauto].
  destruct (deliver_effect d' t' st Hd') as (Et & Eo & Em & _).
  split_and!.
  - destruct Et as [-> | ->]; [by eauto|]. destruct (decide (tr_ID t = tr_ID t')) as [Hid|Hid];
      [|rewrite lookup_partial_alter_ne by done; by eauto].
    rewrite <- Hid, lookup_partial_alter_eq, Er. cbn [tx_effect].
    destruct (is_transition (dl_payload d') t') eqn:Ht'; cbn [andb]; [|by eauto].
    destruct (addressed _ _ r); [|by eauto]. eexists. split; [done|]. split.
    + rewrite row_update_facts; [done|]. rewrite prepared_facts, Hr. by eapply (cl_facts _ Hc d' d).
    + rewrite row_update_columns by done. intros [Ht|Hno]; [|by rewrite (Hno d' t') in Ht'].
      eapply (cl_columns _ Hc d' d); try done. by rewrite Ht, Ht'.
  - intros op Hop. eapply lookup_weaken; [by apply Ho|done].
  - intros Hne. eapply lookup_weaken; [by apply Hm|done].
Qed.

Lemma recorded_persists_all d t l : d ∈ log → l ⊆ log → carries d t →
  ∀ st, recorded_in st d t → recorded_in (deliver_all env st l) d t.
Proof using Hc Hf DL.
  intros Hin Hl Hd. induction l as [|d' l IH]; intros st Hr; [done|].
  cbn. apply IH; [set_solver|]. apply recorded_persists; try done. set_solver.
Qed.

End Log.

(** C10: Messages may be delivered any number of times, in any order, and every call may
    fail before or after its effect; messages about one transaction agree with each
    other, and nothing of them is stored at the start.  Once one delivery of a message
    has succeeded, the transaction, its metadata document and all its operations stay
    stored, with the contents the message has.  The status, its description and the body
    are those of the message that settles the transaction if there is one, whether it is
    processed before or after the message that creates it: the body is the input of the
    message while the transaction is pending, and empty otherwise.  No row and no document
    is stored that no message carries.  An operation that is stored has its own metadata
    document, unless some delivery failed between the two. *)
Theorem deliveries_converge log st0 (Hc : consistent_log log) (Hf : fresh_for log st0) :
  from_messages log st0 (deliver_all env st0 log) ∧
  operations_documented log (deliver_all env st0 log) ∧
  ∀ l1 d l2 t, log = l1 ++ d :: l2 → carries d t → accepted (deliver_all env st0 l1) d →
    recorded_in log (deliver_all env st0 log) d t.
Proof.
  assert (from_messages log st0 st0) as H0 by (split_and!; auto).
  assert (operations_documented log st0) as H1.
  { intros d t op Hin Hd Hop _ Hs. destruct (Hf d t Hin Hd) as (_ & _ & Hn).
    destruct (Hn op Hop) as [E _]. rewrite E in Hs. by destruct Hs. }
  destruct (deliver_all_from log Hc st0 Hf log st0) as [Hfrom Hdoc]; [done..|].
  split_and!; [done..|]. intros l1 d l2 t Hlog Hd Hacc.
  assert (d ∈ log) as Hin by (rewrite Hlog; set_solver).
  assert (deliver_all env st0 log = deliver_all env (deliver env (deliver_all env st0 l1) d).1 l2) as ->.
  { rewrite Hlog. unfold deliver_all. by rewrite fold_left_app. }
  apply (recorded_persists_all log Hc st0 Hf); [done|rewrite Hlog; set_solver|done|].
  apply (accepted_recorded log Hc st0 Hf); try done.
  apply (deliver_all_from log Hc st0 Hf); [rewrite Hlog; set_solver|done..].
Qed.

(** Without failures a message about live rows is accepted, so one such delivery is
    enough. *)
Lemma deliver_no_faults p t now st : pl_Transaction p = Some t →
  (∀ op, op ∈ tr_Operations t → validateOperationDirection op = true) →
  (∀ r, db_transactions st !! tr_ID t = Some r → addressed (tr_OrganizationID t) (tr_LedgerID t) r = true) →
  accepted st (mkDelivery p no_faults now).
Proof.
  intros Hp Hv Ha. unfold accepted, deliver, CreateBalanceTransactionOperationsAsync. cbn [dl_payload dl_faults dl_now].
  rewrite Hp. cbn [no_faults negb]. rewrite andb_false_r.
  assert (∃ st1 x, CreateOrUpdateTransaction no_faults now p t st = (st1, Ok x)) as (st1 & x & E1).
  { unfold CreateOrUpdateTransaction, Transaction_Create, UpdateTransactionStatus, Transaction_Update.
    destruct (prepared_scope p t) as [-> ->]. rewrite prepared_id.
    destruct (db_transactions st !! tr_ID t) as [r|] eqn:E; cbn; [|by eauto].
    destruct (_ && _); [|by eauto]. rewrite E, Ha by done. cbn. eauto. }
  rewrite E1. apply create_or_update_effect in E1 as (_ & _ & H). destruct (H _ eq_refl) as (Hx & _).
  destruct x as [tran phase]. cbn in Hx. subst tran. unfold CreateMetadataAsync.
  rewrite prepared_operations.
  assert (∀ st2, ∃ st3, create_operations no_faults (tr_Operations t) st2 = (st3, Ok tt)) as Hops.
  { clear -Hv. induction (tr_Operations t) as [|op ops IH]; intros st2; [by eauto|].
    cbn [create_operations]. rewrite Hv by set_solver. cbn [negb].
    assert (∀ op, op ∈ ops → validateOperationDirection op = true) as Hv' by (intros; apply Hv; set_solver).
    unfold Operation_Create, CreateMetadataAsync. destruct (db_operations st2 !! op_ID op); cbn; [by apply IH|].
    case_bool_decide; cbn; by apply IH. }
  case_bool_decide; cbn; [destruct (Hops st1) as [? ->]|
    destruct (Hops (put_metadata EntityTransaction (tr_ID (prepared_entity p t)) (tr_Metadata (prepared_entity p t)) st1)) as [? ->]];
    done.
Qed.

End Deliveries.

(** ** The backup entry *)

(** A late consumer of the message that created a pending transaction never removes
    the backup entry that a commit or a cancellation wrote meanwhile: in asynchronous
    operation an entry is removed only if it still has the status of the message. *)
Theorem stale_cleanup_keeps_backup {D : DecimalLib} {C : LibCommons} events flt p expected t phase
    (st : store) id :
  let st' := finish_write (mkEnv true events) flt p expected t phase st in
  (id ≠ tr_ID t → st_backup st' !! id = st_backup st !! id) ∧
  (∀ s, status_text expected ≠ "" → st_backup st !! tr_ID t = Some s →
     strings_EqualFold (status_text s) (status_text expected) = false →
     st_backup st' !! tr_ID t = Some s).
Proof.
  cbn zeta. unfold finish_write. cbn [env_async].
  assert (∀ st, st_backup (SendTransactionEvents (mkEnv true events) phase t st) = st_backup st) as HE
    by (intros []; unfold SendTransactionEvents; cbn; by destruct events).
  assert (∀ st, st_backup (DeleteWriteBehindTransaction flt (tr_ID t) st) = st_backup st) as HD
    by (intros; unfold DeleteWriteBehindTransaction, perform; by destruct (flt CallDeleteBehind)).
  split.
  - intros Hid. rewrite HD. unfold RemoveTransactionFromRedisQueueIfStatus, RemoveTransactionFromRedisQueue, perform.
    repeat case_match; cbn; rewrite ?lookup_delete_ne by done; by rewrite HE.
  - intros s Hne Hs Hfold. rewrite bool_decide_eq_false_2 by done. rewrite HD.
    unfold RemoveTransactionFromRedisQueueIfStatus. rewrite HE, Hs, Hfold.
    destruct (flt CallReadBackup); by rewrite HE.
Qed.

(** ** Sample inputs *)

Module WriteSample.
Import RecordsSample.
Definition input : @Transaction Fixed.lib := RecordsSample.input.
Definition op (id : string) (m : list (string * AnyValue)) : @Operation Fixed.lib :=
  mkOperation id "t1" "" DEBIT "USD" "" (Some (fx 250 0))
    (mkOpBalance (fx 0 0) (fx 0 0) 0 (fx 0 0)) (mkOpBalance (fx 0 0) (fx 0 0) 0 (fx 0 0)) "b1" "acc1" "@alice"
    "default" "org" "ledger" 0 "" None (list_to_map m) true DirectionDebit (mkSnapshot "0" "0") None None.
Definition tran (status : TxStatus) (ops : list (@Operation Fixed.lib)) : @TransactionEntity Fixed.lib :=
  mkEntity "t1" None "rent" (mkStatus status (Some (status_text status))) (Some (fx 250 0)) "USD" "" [] []
    "ledger" "org" zeroTransaction "" None false false 0 0 None {["tag" := AnyString "y"]} ops.
Definition responses (pending : bool) : @Responses Fixed.lib :=
  mkResponses (fx 250 0) "USD" ∅ ∅ [] [] [] pending "" None ∅ ∅.
Definition payload (status : TxStatus) (ops : list (@Operation Fixed.lib)) : @TransactionProcessingPayload Fixed.lib :=
  mkPayload (Some (responses true)) (Some (tran status ops)) input "v2".
Definition empty : @store Fixed.lib := mkStore ∅ ∅ ∅ ∅ ∅ [].
Definition env := mkEnv true true.
Definition fails (c : call → bool) : faults := λ x, if c x then Refused else Answered.
Definition hold := payload PENDING [op "o1" []].
Definition commit := payload APPROVED [op "o2" [("note", AnyString "x")]].

(** The commit overtakes the creation, and its first delivery is interrupted. *)
Definition log : list (@delivery Fixed.lib) :=
  [mkDelivery commit (fails (λ c, match c with CallOperation _ => true | _ => false end)) 1;
   mkDelivery commit no_faults 2; mkDelivery hold no_faults 3].

Definition lost_metadata : faults := fails (λ c, match c with CallOperationMetadata _ => true | _ => false end).
Definition redelivered : @store Fixed.lib :=
  deliver_all (C := Commons.lib) env empty [mkDelivery commit lost_metadata 1; mkDelivery commit no_faults 2].
Definition row_of (st : @store Fixed.lib) := db_transactions st !! "t1".
End WriteSample.

(** An operation whose metadata could not be written the first time is taken for done by
    the next delivery, which skips its metadata too. *)
Theorem operation_metadata_lost :
  is_ok (deliver (C := Commons.lib) WriteSample.env WriteSample.redelivered
           (mkDelivery WriteSample.commit no_faults 3)).2 = true ∧
  is_Some (db_operations WriteSample.redelivered !! "o2") ∧
  db_metadata WriteSample.redelivered !! (EntityOperation, "o2") = None.
Proof. split_and!; [vm_compute; reflexivity|eexists; vm_compute; reflexivity|vm_compute; reflexivity]. Qed.

(** Changing the description of a pending transaction empties its body, from which a
    commit or a cancellation would be computed. *)
Theorem description_patch_erases_body :
  let st := deliver_all (C := Commons.lib) WriteSample.env WriteSample.empty [mkDelivery WriteSample.hold no_faults 1] in
  let st' := (UpdateTransaction Answered 2 "org" "ledger" "t1" "new" st).1 in
  ((λ r, bool_decide (is_Some (rw_Body r))) <$> WriteSample.row_of st) = Some true ∧
  (rw_Status <$> WriteSample.row_of st') = Some PENDING ∧
  ((λ r, bool_decide (is_Some (rw_Body r))) <$> WriteSample.row_of st') = Some false.
Proof. split_and!; vm_compute; reflexivity. Qed.

Lemma log_consistent : consistent_log (C := Commons.lib) WriteSample.log.
Proof.
  assert (∀ d t, d ∈ WriteSample.log → carries d t →
    (dl_payload d = WriteSample.commit ∧ t = WriteSample.tran APPROVED [WriteSample.op "o2" [("note", AnyString "x")]]) ∨
    (dl_payload d = WriteSample.hold ∧ t = WriteSample.tran PENDING [WriteSample.op "o1" []])) as H.
  { intros d t Hd Ht. unfold WriteSample.log in Hd. rewrite !elem_of_cons in Hd. unfold carries in Ht.
    destruct Hd as [-> |[-> |[-> |[]%not_elem_of_nil]]]; injection Ht as <-; auto. }
  constructor.
  - intros d d' t t' Hd Hd' Ht Ht' _. destruct (H d t Hd Ht) as [[_ ->]|[_ ->]],
      (H d' t' Hd' Ht') as [[_ ->]|[_ ->]]; reflexivity.
  - intros d d' t t' Hd Hd' Ht Ht' _. destruct (H d t Hd Ht) as [[-> ->]|[-> ->]],
      (H d' t' Hd' Ht') as [[-> ->]|[-> ->]]; try reflexivity; vm_compute; discriminate.
  - intros d d' t t' Hd Hd' Ht Ht' _ _ _. destruct (H d t Hd Ht) as [[_ ->]|[_ ->]],
      (H d' t' Hd' Ht') as [[_ ->]|[_ ->]]; reflexivity.
  - intros d d' t t' op op' Hd Hd' Ht Ht'. destruct (H d t Hd Ht) as [[_ ->]|[_ ->]],
      (H d' t' Hd' Ht') as [[_ ->]|[_ ->]]; cbn [tr_Operations WriteSample.tran];
      rewrite !list_elem_of_singleton; intros -> -> E; try reflexivity; discriminate E.
Qed.

Lemma deliveries_converge_witness :
  recorded_in (C := Commons.lib) WriteSample.log (deliver_all (C := Commons.lib) WriteSample.env WriteSample.empty WriteSample.log)
    (mkDelivery WriteSample.commit no_faults 2) (WriteSample.tran APPROVED [WriteSample.op "o2" [("note", AnyString "x")]]) ∧
  db_metadata (deliver_all (C := Commons.lib) WriteSample.env WriteSample.empty WriteSample.log)
    !! (EntityOperation, "o2") = Some (op_Metadata (WriteSample.op "o2" [("note", AnyString "x")])).
Proof.
  assert (fresh_for WriteSample.log WriteSample.empty) as Hf
    by (intros d t _ _; split_and!; [reflexivity..|intros op _; split; reflexivity]).
  destruct (deliveries_converge (C := Commons.lib) WriteSample.env WriteSample.log WriteSample.empty log_consistent Hf)
    as (_ & Hd & H).
  split.
  - apply (H [mkDelivery WriteSample.commit
                (WriteSample.fails (λ c, match c with CallOperation _ => true | _ => false end)) 1]
             (mkDelivery WriteSample.commit no_faults 2) [mkDelivery WriteSample.hold no_faults 3]); [reflexivity..|].
    vm_compute. reflexivity.
  - apply (Hd (mkDelivery WriteSample.commit no_faults 2)
             (WriteSample.tran APPROVED [WriteSample.op "o2" [("note", AnyString "x")]])
             (WriteSample.op "o2" [("note", AnyString "x")])); [set_solver|reflexivity|set_solver| | |discriminate].
    + intros d' Hd'. unfold WriteSample.log in Hd'. rewrite !elem_of_cons in Hd'.
      destruct Hd' as [-> |[-> |[-> |[]%not_elem_of_nil]]]; split; discriminate.
    + eexists. vm_compute. reflexivity.
Defined.

Lemma stale_cleanup_keeps_backup_witness :
  st_backup (finish_write (mkEnv true true) no_faults WriteSample.hold PENDING
               (WriteSample.tran PENDING []) PhaseNoop (set_backup {["t1" := APPROVED]} WriteSample.empty)) !! "t1"
  = Some APPROVED.
Proof.
  destruct (stale_cleanup_keeps_backup (C := Commons.lib) true no_faults WriteSample.hold PENDING
    (WriteSample.tran PENDING []) PhaseNoop (set_backup {["t1" := APPROVED]} WriteSample.empty) "t1") as [_ H].
  apply H; [discriminate|reflexivity|vm_compute; reflexivity].
Defined.
