(* ===== verification/BulkWrite.v ===== *)
(** * Persisting transactions in bulk

    src/components/ledger/internal/services/command/create_bulk_transaction_operations_async.go
    and create_metadata_bulk.go: many messages are stored with a few statements.  New
    transactions and all operations are inserted in one database transaction with ON
    CONFLICT DO NOTHING, in chunks of 1000 rows; transitions of pending transactions are
    updates, one by one below ten and in statements of 500 rows from ten on; metadata is
    written per collection; if a statement fails the messages are processed one by one.

    [sort.Slice] promises nothing about equal identifiers; the executable definition
    keeps their order. *)

From Stdlib Require Import ZArith Lia.
From stdpp Require Import base gmap strings list sorting.
From S2P Require Import Prelude Decimals GoStrings Transaction BalanceOps Overdraft MBalance SendValidation.
From S2P Require Import OperationRecords WritePath.
Local Open Scope string_scope.
Local Open Scope list_scope.

(** ** Chunks *)

Fixpoint chunk_loop {A} (fuel size : nat) (l : list A) : list (list A) :=
  match fuel, l with
  | S n, _ :: _ => take size l :: chunk_loop n size (drop size l)
  | _, _ => []
  end.
Definition chunks_of {A} (size : nat) (l : list A) : list (list A) := chunk_loop (length l) size l.

Lemma concat_chunk_loop {A} size n (l : list A) : (0 < size)%nat → (length l ≤ n)%nat →
  concat (chunk_loop n size l) = l.
Proof.
  intros Hs. revert l. induction n as [|n IH]; intros l Hl.
  { by destruct l; [|cbn in Hl; lia]. }
  destruct l as [|x l]; [done|]. cbn [chunk_loop concat].
  rewrite IH; [apply take_drop|]. rewrite length_drop. cbn [length] in *. lia.
Qed.
Lemma concat_chunks_of {A} size (l : list A) : (0 < size)%nat → concat (chunks_of size l) = l.
Proof. intros. by apply concat_chunk_loop. Qed.

(** ** Bulk statements *)

Section Bulk.
Context {D : DecimalLib} {C : LibCommons}.

(** INSERT … ON CONFLICT (id) DO NOTHING RETURNING id. *)
Definition insert_absent {A R} (key : A → string) (row : A → R) (acc : gmap string R * list string) (x : A)
    : gmap string R * list string :=
  match acc.1 !! key x with
  | Some _ => acc
  | None => (<[key x := row x]> acc.1, acc.2 ++ [key x])
  end.

(** The loop over the chunks inside the database transaction. *)
Fixpoint insert_chunks {A R} (key : A → string) (row : A → R) (fails : nat → bool) (n : nat)
    (chunks : list (list A)) (acc : gmap string R * list string) : result WriteError (gmap string R * list string) :=
  match chunks with
  | [] => Ok acc
  | chunk :: rest =>
      if fails n then Err DbError
      else insert_chunks key row fails (S n) rest (fold_left (insert_absent key row) chunk acc)
  end.

Definition fails_on (flt : faults) (c : call) : bool :=
  match flt c with Answered => false | _ => true end.

Definition id_le {A} (key : A → string) (x y : A) : Prop := String.leb (key x) (key y) = true.
#[export] Instance id_le_dec {A} (key : A → string) : RelDecision (id_le key).
Proof. intros x y. unfold id_le. apply _. Defined.

Definition sortTransactionsByID : list TransactionEntity → list TransactionEntity := merge_sort (id_le tr_ID).
Definition sortOperationsByID : list Operation → list Operation := merge_sort (id_le op_ID).

(** [CreateBulkTx] of the two repositories. *)
Definition Transaction_CreateBulkTx (flt : faults) (ts : list TransactionEntity)
    (m : gmap string TransactionPostgreSQLModel) : result WriteError (gmap string TransactionPostgreSQLModel * list string) :=
  insert_chunks tr_ID (FromEntity "") (λ n, fails_on flt (CallInsertTransactions n)) 0
    (chunks_of 1000 (sortTransactionsByID ts)) (m, []).

Definition Operation_CreateBulkTx (flt : faults) (ops : list Operation) (m : gmap string Operation)
    : result WriteError (gmap string Operation * list string) :=
  insert_chunks op_ID id (λ n, fails_on flt (CallInsertOperations n)) 0
    (chunks_of 1000 (sortOperationsByID ops)) (m, []).

(** The batched UPDATE: the status only, and only if it changes. *)
Definition row_set_status (now : Time) (t : TransactionEntity) (r : TransactionPostgreSQLModel)
    : TransactionPostgreSQLModel :=
  mkTransactionRow (rw_ID r) (rw_ParentTransactionID r) (rw_Description r) (sta_Code (tr_Status t))
    (sta_Description (tr_Status t)) (rw_Amount r) (rw_AssetCode r) (rw_ChartOfAccountsGroupName r)
    (rw_LedgerID r) (rw_OrganizationID r) (rw_Body r) (rw_CreatedAt r) now (rw_DeletedAt r) (rw_Route r)
    (rw_RouteID r) (rw_FeesSkipped r) (rw_TracerSkipped r).

Definition bulk_row_matches (t : TransactionEntity) (r : TransactionPostgreSQLModel) : bool :=
  addressed (tr_OrganizationID t) (tr_LedgerID t) r && negb (bool_decide (rw_Status r = sta_Code (tr_Status t))).

Definition bulk_update_one (now : Time) (acc : gmap string TransactionPostgreSQLModel * nat)
    (t : TransactionEntity) : gmap string TransactionPostgreSQLModel * nat :=
  match acc.1 !! tr_ID t with
  | Some r => if bulk_row_matches t r then (<[tr_ID t := row_set_status now t r]> acc.1, S acc.2) else acc
  | None => acc
  end.

(** [updateBulkInternal]: every chunk is a statement of its own. *)
Fixpoint update_chunks (flt : faults) (now : Time) (n : nat) (chunks : list (list TransactionEntity))
    (updated : nat) (st : store) : store * result WriteError nat :=
  match chunks with
  | [] => (st, Ok updated)
  | chunk :: rest =>
      let '(m, k) := fold_left (bulk_update_one now) chunk (db_transactions st, 0%nat) in
      match perform (flt (CallUpdateChunk n)) st (set_transactions m st) (Ok tt) with
      | (st1, Ok _) => update_chunks flt now (S n) rest (updated + k) st1
      | (st1, Err e) => (st1, Err e)
      end
  end.

Definition Transaction_UpdateBulk (flt : faults) (now : Time) (ts : list TransactionEntity) (st : store)
    : store * result WriteError nat :=
  update_chunks flt now 0 (chunks_of 500 (sortTransactionsByID ts)) 0 st.

(** ** The bulk command *)

Record BulkResult := mkBulkResult {
  br_TransactionsAttempted : nat; br_TransactionsInserted : nat; br_TransactionsIgnored : nat;
  br_TransactionsUpdateAttempted : nat; br_TransactionsUpdated : nat;
  br_OperationsAttempted : nat; br_OperationsInserted : nat; br_OperationsIgnored : nat;
  br_FallbackUsed : bool; br_FallbackCount : nat; br_InsertedTransactionIDs : gset string }.

Definition zeroBulkResult : BulkResult := mkBulkResult 0 0 0 0 0 0 0 0 false 0 ∅.

Definition set_tx_attempted n r := mkBulkResult n (br_TransactionsInserted r) (br_TransactionsIgnored r)
  (br_TransactionsUpdateAttempted r) (br_TransactionsUpdated r) (br_OperationsAttempted r)
  (br_OperationsInserted r) (br_OperationsIgnored r) (br_FallbackUsed r) (br_FallbackCount r)
  (br_InsertedTransactionIDs r).
Definition set_tx_inserted (ids : list string) r :=
  mkBulkResult (br_TransactionsAttempted r) (length ids) (br_TransactionsAttempted r - length ids)
  (br_TransactionsUpdateAttempted r) (br_TransactionsUpdated r) (br_OperationsAttempted r)
  (br_OperationsInserted r) (br_OperationsIgnored r) (br_FallbackUsed r) (br_FallbackCount r)
  (list_to_set ids ∪ br_InsertedTransactionIDs r).
Definition set_op_attempted n r := mkBulkResult (br_TransactionsAttempted r) (br_TransactionsInserted r)
  (br_TransactionsIgnored r) (br_TransactionsUpdateAttempted r) (br_TransactionsUpdated r) n
  (br_OperationsInserted r) (br_OperationsIgnored r) (br_FallbackUsed r) (br_FallbackCount r)
  (br_InsertedTransactionIDs r).
Definition set_op_inserted (n : nat) r := mkBulkResult (br_TransactionsAttempted r) (br_TransactionsInserted r)
  (br_TransactionsIgnored r) (br_TransactionsUpdateAttempted r) (br_TransactionsUpdated r)
  (br_OperationsAttempted r) n (br_OperationsAttempted r - n) (br_FallbackUsed r) (br_FallbackCount r)
  (br_InsertedTransactionIDs r).
Definition set_updates (attempted updated : nat) r := mkBulkResult (br_TransactionsAttempted r)
  (br_TransactionsInserted r) (br_TransactionsIgnored r) attempted updated (br_OperationsAttempted r)
  (br_OperationsInserted r) (br_OperationsIgnored r) (br_FallbackUsed r) (br_FallbackCount r)
  (br_InsertedTransactionIDs r).
Definition set_fallback (n : nat) r := mkBulkResult (br_TransactionsAttempted r) (br_TransactionsInserted r)
  (br_TransactionsIgnored r) (br_TransactionsUpdateAttempted r) (br_TransactionsUpdated r)
  (br_OperationsAttempted r) (br_OperationsInserted r) (br_OperationsIgnored r) true n
  (br_InsertedTransactionIDs r).

Definition isStatusTransition (p : TransactionProcessingPayload) (t : TransactionEntity) : bool :=
  match pl_Validate p with
  | None => false
  | Some v => resp_Pending v && is_final (sta_Code (tr_Status t))
  end.

Definition prepareTransactionForInsert (t : TransactionEntity) : TransactionEntity :=
  match sta_Code (tr_Status t) with
  | CREATED => set_status approved (set_body zeroTransaction t)
  | PENDING => t
  | _ => set_body zeroTransaction t
  end.

Record bulk_entities := mkBulkEntities {
  be_insert : list TransactionEntity; be_operations : list Operation; be_update : list TransactionEntity }.

Definition classify_one (e : bulk_entities) (p : TransactionProcessingPayload) : bulk_entities :=
  match pl_Transaction p with
  | None => e
  | Some t =>
      if isStatusTransition p t
      then mkBulkEntities (be_insert e) (be_operations e ++ tr_Operations t)
             (be_update e ++ [set_body zeroTransaction t])
      else mkBulkEntities (be_insert e ++ [prepareTransactionForInsert t]) (be_operations e ++ tr_Operations t)
             (be_update e)
  end.

Definition classifyAndExtractEntities (payloads : list TransactionProcessingPayload) : bulk_entities :=
  let e := fold_left classify_one payloads (mkBulkEntities [] [] []) in
  mkBulkEntities (sortTransactionsByID (be_insert e)) (sortOperationsByID (be_operations e))
    (sortTransactionsByID (be_update e)).

(** The steps below thread the store and the result. *)
Definition bulk_outcome : Type := store * BulkResult * result WriteError unit.

(** The two inserts of the database transaction; the result keeps what was written to it
    before a failure. *)
Definition bulkInsertTransactionsTx (flt : faults) (ts : list TransactionEntity)
    (m : gmap string TransactionPostgreSQLModel) (res : BulkResult)
    : BulkResult * result WriteError (gmap string TransactionPostgreSQLModel) :=
  let res := set_tx_attempted (length ts) res in
  match Transaction_CreateBulkTx flt ts m with
  | Err e => (res, Err e)
  | Ok (m', ids) => (set_tx_inserted ids res, Ok m')
  end.

Definition bulkInsertOperationsTx (flt : faults) (ops : list Operation) (m : gmap string Operation)
    (res : BulkResult) : BulkResult * result WriteError (gmap string Operation) :=
  if negb (forallb validateOperationDirection ops) then (res, Err InvalidDirection) else
  let res := set_op_attempted (length ops) res in
  match Operation_CreateBulkTx flt ops m with
  | Err e => (res, Err e)
  | Ok (m', ids) => (set_op_inserted (length ids) res, Ok m')
  end.

Definition atomicBulkInsert (flt : faults) (ts : list TransactionEntity) (ops : list Operation)
    (st : store) (res : BulkResult) : bulk_outcome :=
  if fails_on flt CallBeginTx then (st, res, Err DbError) else
  let '(res1, inserted) :=
    if (0 <? length ts)%nat then bulkInsertTransactionsTx flt ts (db_transactions st) res
    else (res, Ok (db_transactions st)) in
  match inserted with
  | Err e => (st, res1, Err e)
  | Ok m =>
      let '(res2, written) :=
        if (0 <? length ops)%nat then bulkInsertOperationsTx flt ops (db_operations st) res1
        else (res1, Ok (db_operations st)) in
      match written with
      | Err e => (st, res2, Err e)
      | Ok mo =>
          let '(st', r) := perform (flt CallCommit) st (set_operations mo (set_transactions m st)) (Ok tt) in
          (st', res2, r)
      end
  end.

(** [individualUpdateTransactionStatus]: the number of updates and of failures. *)
Fixpoint update_each (flt : faults) (now : Time) (ts : list TransactionEntity) (updated failed : nat)
    (st : store) : store * nat * nat :=
  match ts with
  | [] => (st, updated, failed)
  | t :: rest =>
      match UpdateTransactionStatus (flt (CallUpdateOne (tr_ID t))) now t st with
      | (st1, Ok _) => update_each flt now rest (S updated) failed st1
      | (st1, Err _) => update_each flt now rest updated (S failed) st1
      end
  end.

Definition bulkUpdateThreshold : nat := 10.

Definition performBulkStatusUpdate (flt : faults) (now : Time) (ts : list TransactionEntity) (st : store)
    (res : BulkResult) : bulk_outcome :=
  if (bulkUpdateThreshold <=? length ts)%nat then
    match Transaction_UpdateBulk flt now ts st with
    | (st1, Err e) => (st1, set_updates (length ts) (br_TransactionsUpdated res) res, Err e)
    | (st1, Ok n) => (st1, set_updates (length ts) n res, Ok tt)
    end
  else
    let '(st1, updated, failed) := update_each flt now ts 0 0 st in
    (st1, set_updates (length ts) updated res, if (0 <? failed)%nat then Err UpdateFailures else Ok tt).

Definition performBulkInsertAndUpdate (flt : faults) (now : Time) (e : bulk_entities) (st : store)
    (res : BulkResult) : bulk_outcome :=
  let '(st1, res1, r) :=
    match be_insert e, be_operations e with
    | [], [] => (st, res, Ok tt)
    | ts, ops => atomicBulkInsert flt ts ops st res
    end in
  match r with
  | Err err => (st1, res1, Err err)
  | Ok _ =>
      match be_update e with
      | [] => (st1, res1, Ok tt)
      | ts => performBulkStatusUpdate flt now ts st1 res1
      end
  end.

(** ** Metadata and events *)

Record MetadataEntry := mkMetadataEntry { me_EntityID : string; me_Collection : string; me_Data : Metadata }.

Definition collectMetadataFromPayloads (payloads : list TransactionProcessingPayload) (inserted : gset string)
    : list MetadataEntry :=
  p ← payloads;
  match pl_Transaction p with
  | None => []
  | Some t =>
      (if bool_decide (inserted = ∅ ∨ tr_ID t ∈ inserted) && negb (bool_decide (tr_Metadata t = ∅))
       then [mkMetadataEntry (tr_ID t) EntityTransaction (tr_Metadata t)] else []) ++
      (op ← tr_Operations t;
       if bool_decide (op_Metadata op = ∅) then [] else
       [mkMetadataEntry (op_ID op) EntityOperation (op_Metadata op)])
  end.

(** How the bulk write of a collection ends: an infrastructure error is not retried, an
    error of a document is retried one by one. *)
Inductive bulk_write := BulkWritten | BulkInfrastructureError | BulkDocumentError.

Definition put_entry (st : store) (e : MetadataEntry) : store :=
  put_metadata (me_Collection e) (me_EntityID e) (me_Data e) st.

(** One entry by [Create]; its failure is logged and counted. *)
Definition createSingleMetadata (flt : faults) (st : store) (e : MetadataEntry) : store :=
  (CreateMetadataAsync (flt (CallOperationMetadata (me_EntityID e))) (me_Data e) (me_EntityID e)
     (me_Collection e) st).1.

Definition createMetadataForCollection (flt : faults) (outcome : bulk_write) (entries : list MetadataEntry)
    (st : store) : store :=
  match entries with
  | [] => st
  | [e] => createSingleMetadata flt st e
  | _ =>
      match outcome with
      | BulkWritten => fold_left put_entry entries st
      | BulkInfrastructureError => st
      | BulkDocumentError => fold_left (createSingleMetadata flt) entries st
      end
  end.

Definition in_collection (c : string) (e : MetadataEntry) : Prop := me_Collection e = c.
#[export] Instance in_collection_dec c : ∀ e, base.Decision (in_collection c e).
Proof. intros e. unfold in_collection. apply _. Defined.

(** [createMetadataBulk]; one invalid identifier stops it, and its error is only logged. *)
Definition createMetadataBulk (flt : faults) (outcome : string → bulk_write) (valid_uuid : string → bool)
    (entries : list MetadataEntry) (st : store) : store :=
  if negb (forallb (λ e, valid_uuid (me_EntityID e)) entries) then st else
  fold_left (λ st chunk,
      createMetadataForCollection flt (outcome EntityOperation) (filter (in_collection EntityOperation) chunk)
        (createMetadataForCollection flt (outcome EntityTransaction)
           (filter (in_collection EntityTransaction) chunk) st))
    (chunks_of (10 * 1000) entries) st.

Definition extractOrgLedgerIDs (valid_uuid : string → bool) (t : TransactionEntity) : bool :=
  valid_uuid (tr_OrganizationID t) && valid_uuid (tr_LedgerID t).

(** The body of the loop of [processMetadataAndEvents]. *)
Definition process_events (env : environment) (flt : faults) (valid_uuid : string → bool)
    (inserted : gset string) (st : store) (p : TransactionProcessingPayload) : store :=
  match pl_Transaction p with
  | None => st
  | Some t =>
      let st1 :=
        if extractOrgLedgerIDs valid_uuid t then
          let expected := ExpectedBackupStatusForCleanup (sta_Code (tr_Status t)) (pl_Validate p) in
          DeleteWriteBehindTransaction flt (tr_ID t)
            (if env_async env then RemoveTransactionFromRedisQueueIfStatus flt (tr_ID t) expected st
             else RemoveTransactionFromRedisQueue flt (tr_ID t) st)
        else st in
      if bool_decide (inserted ≠ ∅) && negb (bool_decide (tr_ID t ∈ inserted)) then st1 else
      SendTransactionEvents env (if bool_decide (inserted ≠ ∅) then PhaseCreated else PhaseUpdated) t st1
  end.

Definition processMetadataAndEvents (env : environment) (flt : faults) (outcome : string → bulk_write)
    (valid_uuid : string → bool) (payloads : list TransactionProcessingPayload) (inserted : gset string)
    (st : store) : store :=
  fold_left (process_events env flt valid_uuid inserted) payloads
    (createMetadataBulk flt outcome valid_uuid (collectMetadataFromPayloads payloads inserted) st).

(** [fallbackToIndividualProcessing]: successes and whether an error remains. *)
Fixpoint fallback_loop (env : environment) (flts : nat → faults) (now : Time) (valid_uuid : string → bool)
    (i : nat) (payloads : list TransactionProcessingPayload) (successes : nat) (failed : bool) (st : store)
    : store * nat * bool :=
  match payloads with
  | [] => (st, successes, failed)
  | p :: rest =>
      match pl_Transaction p with
      | None => fallback_loop env flts now valid_uuid (S i) rest successes failed st
      | Some t =>
          if negb (extractOrgLedgerIDs valid_uuid t)
          then fallback_loop env flts now valid_uuid (S i) rest successes true st
          else
            match CreateBalanceTransactionOperationsAsync env (flts i) now p st with
            | (st1, Ok _) | (st1, Err UniqueViolation) =>
                fallback_loop env flts now valid_uuid (S i) rest (S successes) failed st1
            | (st1, Err _) => fallback_loop env flts now valid_uuid (S i) rest successes true st1
            end
      end
  end.

Definition fallbackToIndividualProcessing (env : environment) (flts : nat → faults) (now : Time)
    (valid_uuid : string → bool) (payloads : list TransactionProcessingPayload) (st : store)
    (res : BulkResult) : bulk_outcome :=
  let '(st1, successes, failed) := fallback_loop env flts now valid_uuid 0 payloads 0 false st in
  (st1, set_fallback successes res,
   if negb (bool_decide (successes = length payloads)) && failed then Err FallbackFailures else Ok tt).

(** The failures of legacy balance updates are only logged. *)
Definition CreateBulkTransactionOperationsAsync (env : environment) (flt : faults) (flts : nat → faults)
    (outcome : string → bulk_write) (valid_uuid : string → bool) (now : Time)
    (payloads : list TransactionProcessingPayload) (st : store) : bulk_outcome :=
  match payloads with
  | [] => (st, zeroBulkResult, Ok tt)
  | _ =>
      match performBulkInsertAndUpdate flt now (classifyAndExtractEntities payloads) st zeroBulkResult with
      | (st1, res, Err _) => fallbackToIndividualProcessing env flts now valid_uuid payloads st1 res
      | (st1, res, Ok _) =>
          (processMetadataAndEvents env flt outcome valid_uuid payloads (br_InsertedTransactionIDs res) st1,
           res, Ok tt)
      end
  end.

End Bulk.

(** ** Folds over a table, one row at a time *)

Lemma fold_partial_alter_lookup {A R} (key : A → string) (g : A → option R → option R) l :
  ∀ (m : gmap string R) i,
  fold_left (λ m x, partial_alter (g x) (key x) m) l m !! i =
  fold_left (λ o x, g x o) (filter (λ x, key x = i) l) (m !! i).
Proof.
  induction l as [|x l IH]; intros m i; [done|]. cbn [fold_left]. rewrite IH, filter_cons.
  case_decide as H; [subst; cbn; by rewrite lookup_partial_alter_eq|by rewrite lookup_partial_alter_ne].
Qed.

Definition insert_effect {A R} (row : A → R) (x : A) (o : option R) : option R :=
  match o with Some r => Some r | None => Some (row x) end.

Lemma insert_absent_effect {A R} (key : A → string) (row : A → R) acc x :
  (insert_absent key row acc x).1 = partial_alter (insert_effect row x) (key x) acc.1.
Proof.
  unfold insert_absent. apply map_eq. intros i. destruct (decide (i = key x)) as [->|Hi].
  - rewrite lookup_partial_alter_eq. destruct (acc.1 !! key x) eqn:E; [done|]. cbn. by rewrite lookup_insert_eq.
  - rewrite lookup_partial_alter_ne by done. destruct (acc.1 !! key x); [done|]. cbn. by rewrite lookup_insert_ne.
Qed.

Lemma insert_fold_effect {A R} (key : A → string) (row : A → R) l : ∀ acc,
  (fold_left (insert_absent key row) l acc).1 =
  fold_left (λ m x, partial_alter (insert_effect row x) (key x) m) l acc.1.
Proof. induction l as [|x l IH]; intros acc; [done|]. cbn [fold_left]. by rewrite IH, insert_absent_effect. Qed.

Lemma insert_chunks_ok {A R} (key : A → string) (row : A → R) fails chunks :
  (∀ n, fails n = false) → ∀ n acc,
  insert_chunks key row fails n chunks acc = Ok (fold_left (insert_absent key row) (concat chunks) acc).
Proof.
  intros Hf. induction chunks as [|c chunks IH]; intros n acc; [done|]. cbn [insert_chunks concat].
  by rewrite Hf, IH, fold_left_app.
Qed.

(** Rows after inserting a list: the old ones and the new ones. *)
Lemma insert_fold_spec {A R} (key : A → string) (row : A → R) l (m : gmap string R) :
  let m' := fold_left (λ m x, partial_alter (insert_effect row x) (key x) m) l m in
  m ⊆ m' ∧ (∀ i r, m' !! i = Some r → m !! i = Some r ∨ ∃ x, x ∈ l ∧ key x = i ∧ r = row x) ∧
  (∀ x, x ∈ l → is_Some (m' !! key x)).
Proof.
  cbn zeta. revert m. induction l as [|x l IH]; intros m; cbn [fold_left].
  { split_and!; [done|by auto|]. intros x []%not_elem_of_nil. }
  destruct (IH (partial_alter (insert_effect row x) (key x) m)) as (I1 & I2 & I3).
  assert (m ⊆ partial_alter (insert_effect row x) (key x) m) as Hm.
  { apply map_subseteq_spec. intros i r Hr. destruct (decide (i = key x)) as [->|];
      [by rewrite lookup_partial_alter_eq, Hr|by rewrite lookup_partial_alter_ne]. }
  assert (is_Some (partial_alter (insert_effect row x) (key x) m !! key x)) as Hk.
  { rewrite lookup_partial_alter_eq. destruct (m !! key x); cbn; eauto. }
  split_and!; [by etrans| |].
  - intros i r [Hr|(y & ? & ? & ?)]%I2; [|right; exists y; split; [set_solver|done]].
    destruct (decide (i = key x)) as [->|]; [|rewrite lookup_partial_alter_ne in Hr by done; by left].
    rewrite lookup_partial_alter_eq in Hr. destruct (m !! key x); cbn in Hr; injection Hr as <-; [by left|].
    right. exists x. split; [set_solver|done].
  - intros y [-> |Hy]%elem_of_cons; [|by auto]. destruct Hk as [r Hr]. exists r. by eapply lookup_weaken.
Qed.

Lemma same_rows {A R} (key : A → string) (row : A → R) (P Q : A → Prop) (m m1 m2 : gmap string R) :
  (∀ x, P x ↔ Q x) → (∀ x y, P x → P y → key x = key y → row x = row y) →
  (m ⊆ m1 ∧ (∀ i r, m1 !! i = Some r → m !! i = Some r ∨ ∃ x, P x ∧ key x = i ∧ r = row x) ∧
     (∀ x, P x → is_Some (m1 !! key x))) →
  (m ⊆ m2 ∧ (∀ i r, m2 !! i = Some r → m !! i = Some r ∨ ∃ x, Q x ∧ key x = i ∧ r = row x) ∧
     (∀ x, Q x → is_Some (m2 !! key x))) → m1 = m2.
Proof.
  intros HPQ Hrow (A1 & A2 & A3) (B1 & B2 & B3). apply map_eq. intros i.
  destruct (m !! i) as [r|] eqn:Em.
  { by rewrite (lookup_weaken _ _ _ _ Em A1), (lookup_weaken _ _ _ _ Em B1). }
  destruct (m1 !! i) as [r1|] eqn:E1, (m2 !! i) as [r2|] eqn:E2; [| | |done].
  - destruct (A2 _ _ E1) as [?|(x & Hx & <- & ->)], (B2 _ _ E2) as [?|(y & Hy & Hk & ->)]; try congruence.
    f_equal. apply Hrow; [done|by apply HPQ|done].
  - destruct (A2 _ _ E1) as [?|(x & Hx & <- & ->)]; [congruence|].
    destruct (B3 x) as [? ?]; [by apply HPQ|congruence].
  - destruct (B2 _ _ E2) as [?|(x & Hx & <- & ->)]; [congruence|].
    destruct (A3 x) as [? ?]; [by apply HPQ|congruence].
Qed.

(** ** One by one and in bulk *)

Section Equivalence.
Context {D : DecimalLib} {C : LibCommons}.
Implicit Types (st : store) (x y : TransactionProcessingPayload * TransactionEntity).

Definition trans x : bool := is_transition x.1 x.2.
Definition prep x : TransactionEntity := prepared_entity x.1 x.2.
Definition inserted_body x : option Transaction := rw_Body (FromEntity "" (prep x)).

(** A batch of messages: about the same transaction they agree with each other and with
    the table; a transition is about a transaction that is stored or in the batch. *)
Record batch_ok st (es : list (TransactionProcessingPayload * TransactionEntity)) : Prop := {
  bo_carries x : x ∈ es → pl_Transaction x.1 = Some x.2;
  bo_live x : x ∈ es → tr_DeletedAt x.2 = None;
  bo_facts x y : x ∈ es → y ∈ es → tr_ID x.2 = tr_ID y.2 → entity_facts x.2 = entity_facts y.2;
  bo_rows x r : x ∈ es → db_transactions st !! tr_ID x.2 = Some r → row_facts r = entity_facts x.2;
  bo_status x y : x ∈ es → y ∈ es → tr_ID x.2 = tr_ID y.2 → trans x = trans y →
    stored_status x.2 = stored_status y.2;
  bo_body x y : x ∈ es → y ∈ es → tr_ID x.2 = tr_ID y.2 → trans x = false → trans y = false →
    inserted_body x = inserted_body y;
  bo_input x : x ∈ es → sta_Code (tr_Status x.2) = PENDING → tr_Body x.2 = pl_Input x.1;
  bo_created x : x ∈ es → sta_Code (tr_Status x.2) = CREATED → pending_of x.1 = false;
  bo_known x : x ∈ es → trans x = true → is_Some (db_transactions st !! tr_ID x.2) ∨
    ∃ y, y ∈ es ∧ trans y = false ∧ tr_ID y.2 = tr_ID x.2;
  bo_operations x y op op' : x ∈ es → y ∈ es → op ∈ tr_Operations x.2 → op' ∈ tr_Operations y.2 →
    op_ID op = op_ID op' → op = op';
  bo_directions x op : x ∈ es → op ∈ tr_Operations x.2 → validateOperationDirection op = true }.

(** What a client sees of a row: all but the bookkeeping, and the body while it is
    pending. *)
Definition row_view (r : TransactionPostgreSQLModel) :=
  (row_facts r, rw_Status r, if bool_decide (rw_Status r = PENDING) then rw_Body r else None).

Lemma addressed_facts t r : row_facts r = entity_facts t → tr_DeletedAt t = None →
  addressed (tr_OrganizationID t) (tr_LedgerID t) r = true.
Proof.
  intros E Hd. pose proof (f_equal rw_OrganizationID E) as H1. pose proof (f_equal rw_LedgerID E) as H2.
  pose proof (f_equal rw_DeletedAt E) as H3. cbn in H1, H2, H3. unfold addressed.
  rewrite H1, H2, H3, Hd. by rewrite !bool_decide_eq_true_2.
Qed.

Lemma tx_effect_facts now p t o r' : (∀ r, o = Some r → row_facts r = entity_facts t) →
  tx_effect now p t o = Some r' → row_facts r' = entity_facts t.
Proof.
  intros Ho. unfold tx_effect. destruct o as [r|];
    [|intros [= <-]; by rewrite FromEntity_facts, prepared_facts].
  specialize (Ho _ eq_refl). destruct (_ && _); intros [= <-]; [|done].
  by rewrite row_update_facts by (by rewrite prepared_facts, Ho).
Qed.

(** The row of one transaction after a list of messages about it. *)
Definition final_row (tr : bool) (F : TransactionPostgreSQLModel) (ST SP : TxStatus)
    (B : option Transaction) (o : option TransactionPostgreSQLModel) (r : TransactionPostgreSQLModel) : Prop :=
  row_facts r = F ∧
  rw_Status r = (if tr then ST else match o with Some r0 => rw_Status r0 | None => SP end) ∧
  (tr = false → rw_Body r = match o with Some r0 => rw_Body r0 | None => B end).

Section Row.
Context (F : TransactionPostgreSQLModel) (ST SP : TxStatus) (B : option Transaction).

Lemma individual_row_some now L : 
  (∀ x, x ∈ L → entity_facts x.2 = F ∧ tr_DeletedAt x.2 = None ∧
     stored_status x.2 = (if trans x then ST else SP)) → ∀ r, row_facts r = F →
  ∃ r', fold_left (λ o x, tx_effect now x.1 x.2 o) L (Some r) = Some r' ∧
        final_row (existsb trans L) F ST SP B (Some r) r'.
Proof.
  induction L as [|x L IH]; intros HL r Hr; [by exists r|]. cbn [fold_left existsb].
  destruct (HL x) as (Hx & Hd & Hs); [set_solver|].
  unfold tx_effect at 2. fold (trans x). rewrite addressed_facts by congruence.
  destruct (trans x) eqn:Et; cbn [andb orb].
  - destruct (IH ltac:(intros; apply HL; set_solver) (row_update now (prepared_entity x.1 x.2) r)) as (r' & E & HF & HS & _).
    { rewrite row_update_facts; [done|]. rewrite prepared_facts. congruence. }
    exists r'. split; [done|]. split_and!; [done| |done]. rewrite HS.
    destruct (existsb trans L); [done|]. rewrite row_update_status by done. done.
  - apply IH; [|done]. intros; apply HL; set_solver.
Qed.

Lemma individual_row now L o :
  (∀ x, x ∈ L → entity_facts x.2 = F ∧ tr_DeletedAt x.2 = None ∧
     stored_status x.2 = (if trans x then ST else SP) ∧ (trans x = false → inserted_body x = B)) →
  (∀ r, o = Some r → row_facts r = F) → (L ≠ [] ∨ is_Some o) →
  ∃ r', fold_left (λ o x, tx_effect now x.1 x.2 o) L o = Some r' ∧ final_row (existsb trans L) F ST SP B o r'.
Proof.
  intros HL Ho Hne. destruct o as [r|].
  { apply individual_row_some; [|by apply Ho]. intros x Hx. by destruct (HL x Hx) as (? & ? & ? & ?). }
  destruct L as [|x L]; [by destruct Hne as [?|[? ?]]|]. cbn [fold_left existsb].
  destruct (HL x) as (Hx & Hd & Hs & Hb); [set_solver|]. unfold tx_effect at 2.
  destruct (individual_row_some now L) with (r := FromEntity "" (prepared_entity x.1 x.2)) as (r' & E & HF & HS & HB).
  { intros y Hy. destruct (HL y) as (? & ? & ? & ?); [set_solver|done]. }
  { by rewrite FromEntity_facts, prepared_facts. }
  exists r'. split; [done|]. split_and!; [done| |].
  - rewrite HS. cbn [FromEntity rw_Status]. rewrite prepared_status, Hs.
    destruct (existsb trans L); [by rewrite orb_true_r|]. by destruct (trans x).
  - intros [E1 E2]%orb_false_iff. rewrite (HB E2). exact (Hb E1).
Qed.

Definition update_effect (f : TransactionEntity → TransactionPostgreSQLModel → TransactionPostgreSQLModel)
    (t : TransactionEntity) (o : option TransactionPostgreSQLModel) : option TransactionPostgreSQLModel :=
  f t <$> o.

(** An update that keeps the facts and sets the status. *)
Definition sets_status (f : TransactionEntity → TransactionPostgreSQLModel → TransactionPostgreSQLModel) : Prop :=
  ∀ t r, entity_facts t = F → tr_DeletedAt t = None → sta_Code (tr_Status t) = ST → row_facts r = F →
    row_facts (f t r) = F ∧ rw_Status (f t r) = ST.

Lemma bulk_row f LI LT o : sets_status f →
  (∀ t, t ∈ LI → entity_facts t = F ∧ sta_Code (tr_Status t) = SP ∧ rw_Body (FromEntity "" t) = B) →
  (∀ t, t ∈ LT → entity_facts t = F ∧ tr_DeletedAt t = None ∧ sta_Code (tr_Status t) = ST) →
  (∀ r, o = Some r → row_facts r = F) → (LI ≠ [] ∨ is_Some o) →
  ∃ r', fold_left (λ o t, update_effect f t o) LT (fold_left (λ o t, insert_effect (FromEntity "") t o) LI o) = Some r' ∧
        final_row (negb (bool_decide (LT = []))) F ST SP B o r'.
Proof.
  intros Hf HI HT Ho Hne.
  assert (∀ LI r, fold_left (λ o t, insert_effect (FromEntity "") t o) LI (Some r) = Some r) as Hkeep.
  { clear. induction LI as [|t LI IH]; intros r; [done|]. apply IH. }
  assert (∃ r, fold_left (λ o t, insert_effect (FromEntity "") t o) LI o = Some r ∧ row_facts r = F ∧
            rw_Status r = (match o with Some r0 => rw_Status r0 | None => SP end) ∧
            rw_Body r = match o with Some r0 => rw_Body r0 | None => B end) as (r & -> & HrF & HrS & HrB).
  { destruct o as [r|]; [exists r; by rewrite Hkeep, Ho|]. destruct LI as [|t LI]; [by destruct Hne as [?|[? ?]]|].
    cbn [fold_left insert_effect]. rewrite Hkeep. destruct (HI t) as (? & ? & ?); [set_solver|]. eexists.
    by rewrite FromEntity_facts. }
  assert (∀ LT r, (∀ t, t ∈ LT → entity_facts t = F ∧ tr_DeletedAt t = None ∧ sta_Code (tr_Status t) = ST) →
            row_facts r = F → ∃ r', fold_left (λ o t, update_effect f t o) LT (Some r) = Some r' ∧ row_facts r' = F ∧
            rw_Status r' = (if bool_decide (LT = []) then rw_Status r else ST) ∧
            (LT = [] → r' = r)) as Hupd.
  { clear -Hf. induction LT as [|t LT IH]; intros r HT HrF; [by exists r|]. cbn [fold_left update_effect fmap option_fmap option_map].
    destruct (HT t) as (H1 & H2 & H3); [set_solver|]. destruct (Hf t r H1 H2 H3 HrF) as [Hfr Hst].
    destruct (IH (f t r) ltac:(intros; apply HT; set_solver) Hfr) as (r' & -> & ? & HS & _).
    exists r'. split_and!; [done|done| |done]. rewrite HS. by case_bool_decide. }
  destruct (Hupd LT r HT HrF) as (r' & -> & HF & HS & Hnil). exists r'. split; [done|]. split_and!; [done| |].
  - rewrite HS. case_bool_decide; [done|done].
  - case_bool_decide as E; [|done]. intros _. by rewrite (Hnil E).
Qed.
End Row.

Lemma final_row_view tr F ST SP B o r r' : is_final ST = true →
  final_row tr F ST SP B o r → final_row tr F ST SP B o r' → row_view r = row_view r'.
Proof.
  intros Hf (F1 & S1 & B1) (F2 & S2 & B2). unfold row_view. rewrite F1, F2, S1, S2. f_equal.
  destruct tr; [|by rewrite B1, B2].
  apply is_final_spec in Hf as [-> | ->]; done.
Qed.

(** *** One by one *)

Lemma individual_tables env now st0 es : batch_ok st0 es → ∀ l st, l ⊆ es →
  (∀ x r, x ∈ es → db_transactions st !! tr_ID x.2 = Some r → row_facts r = entity_facts x.2) →
  let st' := deliver_all env st ((λ x, mkDelivery x.1 no_faults now) <$> l) in
  db_transactions st' = fold_left (λ m x, partial_alter (tx_effect now x.1 x.2) (tr_ID x.2) m) l (db_transactions st) ∧
  db_operations st ⊆ db_operations st' ∧
  (∀ i o, db_operations st' !! i = Some o → db_operations st !! i = Some o ∨
     ∃ op, op ∈ (l ≫= λ x, tr_Operations x.2) ∧ op_ID op = i ∧ o = op) ∧
  (∀ op, op ∈ (l ≫= λ x, tr_Operations x.2) → is_Some (db_operations st' !! op_ID op)).
Proof.
  intros H. induction l as [|x l IH]; intros st Hl Hrows; cbn zeta.
  { cbn. split_and!; [done|done|by auto|]. intros op []%not_elem_of_nil. }
  assert (x ∈ es) as Hx by set_solver. pose proof (bo_carries _ _ H x Hx) as Hc.
  cbn [fmap list_fmap deliver_all fold_left mbind list_bind].
  assert (accepted env st (mkDelivery x.1 no_faults now)) as Hacc.
  { apply (deliver_no_faults env x.1 x.2 now st Hc); [intros; by eapply bo_directions|].
    intros r Hr. apply addressed_facts; [by apply Hrows|by eapply bo_live]. }
  destruct (deliver_effect env (mkDelivery x.1 no_faults now) x.2 st Hc) as (_ & Eo & _ & En & _ & _ & Eok).
  destruct (Eok Hacc) as (Et & _ & Eall & _). cbn [dl_now dl_payload] in *.
  destruct (IH (deliver env st (mkDelivery x.1 no_faults now)).1) as (I1 & I2 & I3 & I4); [set_solver| |].
  { intros y r Hy. rewrite Et. destruct (decide (tr_ID y.2 = tr_ID x.2)) as [E|E].
    - rewrite E, lookup_partial_alter_eq. intros Hr. rewrite (bo_facts _ _ H y x) by done.
      eapply tx_effect_facts; [|exact Hr]. intros r0 Hr0. by apply Hrows.
    - rewrite lookup_partial_alter_ne by done. by apply Hrows. }
  unfold deliver_all in *. rewrite I1, Et. split_and!; [done|by etrans| |].
  - intros i o [Ho|(op & ? & ? & ?)]%I3; [|right; exists op; split; [set_solver|done]].
    destruct (En _ _ Ho) as [?|[? ?]]; [by left|]. right. exists o. split; [set_solver|done].
  - intros op [Hop|Hop]%elem_of_app; [|by apply I4]. destruct (Eall op Hop) as [o Ho].
    exists o. by eapply lookup_weaken.
Qed.

(** *** In bulk *)

Lemma prepare_prepared x : (sta_Code (tr_Status x.2) = PENDING → tr_Body x.2 = pl_Input x.1) →
  prepareTransactionForInsert x.2 = prep x.
Proof.
  unfold prepareTransactionForInsert, prep, prepared_entity. destruct (sta_Code (tr_Status x.2)); try done.
  intros E. rewrite <- E by done. by destruct (x.2).
Qed.

Lemma transition_same x : (sta_Code (tr_Status x.2) = CREATED → pending_of x.1 = false) →
  isStatusTransition x.1 x.2 = trans x.
Proof.
  unfold isStatusTransition, trans, is_transition, stored_status, prepared_entity, pending_of.
  destruct (pl_Validate x.1) as [v|]; [|done]. destruct (sta_Code (tr_Status x.2)) eqn:E; cbn; rewrite ?E; try done.
  intros ->; done.
Qed.

Lemma transition_prepared x : trans x = true → isStatusTransition x.1 x.2 = true →
  set_body zeroTransaction x.2 = prep x.
Proof.
  intros _. unfold isStatusTransition, prep, prepared_entity. destruct (pl_Validate x.1); [|done].
  intros [_ [E|E]%is_final_spec]%andb_true_iff; by rewrite E.
Qed.

Lemma classify_batch st es : batch_ok st es → ∀ l e, l ⊆ es →
  fold_left classify_one l.*1 e =
  mkBulkEntities (be_insert e ++ (prep <$> filter (λ x, trans x = false) l))
    (be_operations e ++ (l ≫= λ x, tr_Operations x.2)) (be_update e ++ (prep <$> filter (λ x, trans x = true) l)).
Proof.
  intros H. induction l as [|x l IH]; intros e Hl.
  { cbn. rewrite !app_nil_r. by destruct e. }
  assert (x ∈ es) as Hx by set_solver. cbn [fmap list_fmap fold_left mbind list_bind]. rewrite IH by set_solver.
  unfold classify_one. rewrite (bo_carries _ _ H x Hx).
  pose proof (transition_same x (bo_created _ _ H x Hx)) as Et. rewrite Et.
  destruct (trans x) eqn:Hx2; cbn [be_insert be_operations be_update].
  - rewrite filter_cons_False by congruence. rewrite filter_cons_True by done.
    rewrite (transition_prepared x Hx2 Et). cbn [fmap list_fmap]. by rewrite <- !app_assoc.
  - rewrite filter_cons_True by done. rewrite filter_cons_False by congruence.
    rewrite (prepare_prepared x (bo_input _ _ H x Hx)). cbn [fmap list_fmap]. by rewrite <- !app_assoc.
Qed.

Lemma elem_of_sorted {A} (key : A → string) l z : z ∈ merge_sort (id_le key) l ↔ z ∈ l.
Proof. by rewrite merge_sort_Permutation. Qed.

(** The update of a row below and from the threshold. *)
Definition update_one_row (now : Time) (t : TransactionEntity) (r : TransactionPostgreSQLModel) :=
  if addressed (tr_OrganizationID t) (tr_LedgerID t) r then row_update now t r else r.
Definition update_bulk_row (now : Time) (t : TransactionEntity) (r : TransactionPostgreSQLModel) :=
  if bulk_row_matches t r then row_set_status now t r else r.

Lemma update_one_sets now F ST : is_final ST = true → sets_status F ST (update_one_row now).
Proof.
  intros Hf t r Ht Hd Hs Hr. unfold update_one_row. rewrite addressed_facts by congruence.
  rewrite row_update_facts by congruence. split; [done|]. cbn. unfold Status_IsEmpty. rewrite Hs.
  by apply is_final_spec in Hf as [-> | ->].
Qed.
Lemma update_bulk_sets now F ST : sets_status F ST (update_bulk_row now).
Proof.
  intros t r Ht Hd Hs Hr. unfold update_bulk_row, bulk_row_matches. rewrite addressed_facts by congruence.
  cbn [andb]. case_bool_decide; cbn; [split; congruence|done].
Qed.

Lemma update_fold_one now l : ∀ st u, (∀ t, t ∈ l → ∃ r, db_transactions st !! tr_ID t = Some r ∧
    addressed (tr_OrganizationID t) (tr_LedgerID t) r = true) →
  update_each no_faults now l u 0 st =
  (set_transactions (fold_left (λ m t, partial_alter (update_effect (update_one_row now) t) (tr_ID t) m) l (db_transactions st)) st,
   (u + length l)%nat, 0%nat).
Proof.
  induction l as [|t l IH]; intros st u Hl; cbn [update_each fold_left length].
  { rewrite Nat.add_0_r. by destruct st. }
  destruct (Hl t) as (r & Er & Ea); [set_solver|].
  unfold UpdateTransactionStatus, Transaction_Update. rewrite Er, Ea. cbn [no_faults perform].
  assert (<[tr_ID t := row_update now t r]> (db_transactions st) =
          partial_alter (update_effect (update_one_row now) t) (tr_ID t) (db_transactions st)) as ->.
  { apply map_eq. intros i. destruct (decide (i = tr_ID t)) as [->|];
      [|by rewrite lookup_insert_ne, lookup_partial_alter_ne].
    rewrite lookup_insert_eq, lookup_partial_alter_eq, Er. cbn. unfold update_one_row. by rewrite Ea. }
  rewrite IH; [cbn [db_transactions set_transactions length]; f_equal; f_equal; lia|].
  intros t' Ht'. destruct (Hl t') as (r' & Er' & Ea'); [set_solver|]. cbn [db_transactions set_transactions].
  destruct (decide (tr_ID t' = tr_ID t)) as [E|E].
  - rewrite E, lookup_partial_alter_eq, Er. cbn. eexists. split; [done|].
    assert (r' = r) as -> by congruence. unfold update_one_row. by rewrite Ea.
  - rewrite lookup_partial_alter_ne by done. eauto.
Qed.

Lemma update_fold_bulk now chunks : ∀ n k st, ∃ k',
  update_chunks no_faults now n chunks k st =
  (set_transactions (fold_left (λ m t, partial_alter (update_effect (update_bulk_row now) t) (tr_ID t) m)
     (concat chunks) (db_transactions st)) st, Ok k').
Proof.
  assert (∀ l acc, (fold_left (bulk_update_one now) l acc).1 =
            fold_left (λ m t, partial_alter (update_effect (update_bulk_row now) t) (tr_ID t) m) l acc.1) as Hone.
  { induction l as [|t l IH]; intros acc; [done|]. cbn [fold_left]. rewrite IH. f_equal.
    unfold bulk_update_one. apply map_eq. intros i. destruct (decide (i = tr_ID t)) as [->|Hi].
    - rewrite lookup_partial_alter_eq. destruct (acc.1 !! tr_ID t) as [r|] eqn:E; cbn; [|done].
      unfold update_bulk_row. destruct (bulk_row_matches t r); cbn; [by rewrite lookup_insert_eq|done].
    - rewrite lookup_partial_alter_ne by done. destruct (acc.1 !! tr_ID t) as [r|]; [|done].
      destruct (bulk_row_matches t r); cbn; [by rewrite lookup_insert_ne|done]. }
  induction chunks as [|c chunks IH]; intros n k st; cbn [update_chunks concat].
  { exists k. by destruct st. }
  pose proof (Hone c (db_transactions st, 0%nat)) as Hc.
  destruct (fold_left (bulk_update_one now) c (db_transactions st, 0%nat)) as [m k1]. cbn in Hc. subst m.
  cbn [no_faults perform]. destruct (IH (S n) (k + k1)%nat
    (set_transactions (fold_left (λ m t, partial_alter (update_effect (update_bulk_row now) t) (tr_ID t) m) c (db_transactions st)) st))
    as [k' ->]. exists k'. cbn [db_transactions set_transactions]. by rewrite fold_left_app.
Qed.

Abbreviation inserted_rows key row l m :=
  (fold_left (λ tbl el, partial_alter (insert_effect row el) (key el) tbl) l m) (only parsing).
Abbreviation updated_rows f l m :=
  (fold_left (λ tbl t, partial_alter (update_effect f t) (tr_ID t) tbl) l m) (only parsing).

Lemma insert_transactions_no_faults ts m res : ∃ res',
  (if (0 <? length ts)%nat then bulkInsertTransactionsTx no_faults ts m res else (res, Ok m)) =
  (res', Ok (inserted_rows tr_ID (FromEntity "") (sortTransactionsByID ts) m)) ∧
  br_FallbackUsed res' = br_FallbackUsed res.
Proof.
  pose proof (insert_fold_effect tr_ID (FromEntity "") (sortTransactionsByID ts) (m, [])) as ET. cbn [fst] in ET.
  rewrite <- ET. destruct ts as [|t ts]; [by exists res|]. cbn [length Nat.ltb Nat.leb].
  unfold bulkInsertTransactionsTx, Transaction_CreateBulkTx.
  rewrite insert_chunks_ok, concat_chunks_of by (done || lia).
  destruct (fold_left _ _ _) as [m' ids]. eexists. split; reflexivity.
Qed.

Lemma insert_operations_no_faults ops m res : forallb validateOperationDirection ops = true → ∃ res',
  (if (0 <? length ops)%nat then bulkInsertOperationsTx no_faults ops m res else (res, Ok m)) =
  (res', Ok (inserted_rows op_ID id (sortOperationsByID ops) m)) ∧
  br_FallbackUsed res' = br_FallbackUsed res.
Proof.
  intros Hv. pose proof (insert_fold_effect op_ID id (sortOperationsByID ops) (m, [])) as ET. cbn [fst] in ET.
  rewrite <- ET. destruct ops as [|op ops]; [by exists res|].
  replace (0 <? length (op :: ops))%nat with true by done. unfold bulkInsertOperationsTx, Operation_CreateBulkTx.
  rewrite Hv. rewrite insert_chunks_ok, concat_chunks_of by (done || lia).
  destruct (fold_left _ _ _) as [m' ids]. eexists. split; reflexivity.
Qed.

Lemma atomic_insert_no_faults ts ops st res : forallb validateOperationDirection ops = true → ∃ res',
  atomicBulkInsert no_faults ts ops st res =
  (set_operations (inserted_rows op_ID id (sortOperationsByID ops) (db_operations st))
     (set_transactions (inserted_rows tr_ID (FromEntity "") (sortTransactionsByID ts) (db_transactions st)) st),
   res', Ok tt) ∧ br_FallbackUsed res' = br_FallbackUsed res.
Proof.
  intros Hv. unfold atomicBulkInsert. replace (fails_on no_faults CallBeginTx) with false by done.
  destruct (insert_transactions_no_faults ts (db_transactions st) res) as (res1 & -> & H1).
  destruct (insert_operations_no_faults ops (db_operations st) res1 Hv) as (res2 & -> & H2).
  exists res2. split; [reflexivity|congruence].
Qed.

Lemma bulk_tables now st es res : batch_ok st es → ∃ st' res' f LI LT LO,
  performBulkInsertAndUpdate no_faults now (classifyAndExtractEntities es.*1) st res = (st', res', Ok tt) ∧
  br_FallbackUsed res' = br_FallbackUsed res ∧ (∀ F ST, is_final ST = true → sets_status F ST f) ∧
  (∀ t, t ∈ LI ↔ ∃ x, x ∈ es ∧ trans x = false ∧ t = prep x) ∧
  (∀ t, t ∈ LT ↔ ∃ x, x ∈ es ∧ trans x = true ∧ t = prep x) ∧
  (∀ op, op ∈ LO ↔ op ∈ (es ≫= λ x, tr_Operations x.2)) ∧
  db_transactions st' = updated_rows f LT (inserted_rows tr_ID (FromEntity "") LI (db_transactions st)) ∧
  db_operations st' = inserted_rows op_ID id LO (db_operations st).
Proof.
  intros H. unfold classifyAndExtractEntities. rewrite (classify_batch st es H es) by done.
  cbn [be_insert be_operations be_update app].
  set (I := prep <$> filter (λ x, trans x = false) es). set (T := prep <$> filter (λ x, trans x = true) es).
  set (O := es ≫= λ x, tr_Operations x.2).
  assert (∀ t, t ∈ I ↔ ∃ x, x ∈ es ∧ trans x = false ∧ t = prep x) as HI.
  { intros t. unfold I. rewrite list_elem_of_fmap. setoid_rewrite list_elem_of_filter. naive_solver. }
  assert (∀ t, t ∈ T ↔ ∃ x, x ∈ es ∧ trans x = true ∧ t = prep x) as HT.
  { intros t. unfold T. rewrite list_elem_of_fmap. setoid_rewrite list_elem_of_filter. naive_solver. }
  assert (∀ t (l : list TransactionEntity), t ∈ sortTransactionsByID l ↔ t ∈ l) as HS
    by (intros; apply elem_of_sorted).
  assert (∀ op (l : list Operation), op ∈ sortOperationsByID l ↔ op ∈ l) as HSO by (intros; apply elem_of_sorted).
  assert (forallb validateOperationDirection (sortOperationsByID O) = true) as Hv.
  { apply forallb_forall. intros op Hop%list_elem_of_In. rewrite HSO in Hop. unfold O in Hop.
    apply list_elem_of_bind in Hop as (x & Hop & Hx). by eapply bo_directions. }
  unfold performBulkInsertAndUpdate. cbn [be_insert be_operations be_update].
  destruct (atomic_insert_no_faults (sortTransactionsByID I) (sortOperationsByID O) st res Hv) as (res1 & E1 & Hr1).
  set (LI := sortTransactionsByID (sortTransactionsByID I)) in *.
  set (LO := sortOperationsByID (sortOperationsByID O)) in *.
  set (st1 := set_operations _ _) in E1.
  assert (∃ res1, match sortTransactionsByID I, sortOperationsByID O with
                  | [], [] => (st, res, Ok tt)
                  | ts, ops => atomicBulkInsert no_faults ts ops st res
                  end = (st1, res1, Ok tt) ∧ br_FallbackUsed res1 = br_FallbackUsed res) as (res2 & -> & Hr2).
  { destruct (sortTransactionsByID I) eqn:EI; [|by eauto]. destruct (sortOperationsByID O) eqn:EO; [|by eauto].
    exists res. split; [|done]. unfold st1, LI, LO. by destruct st. }
  assert (∀ t, t ∈ LI ↔ ∃ x, x ∈ es ∧ trans x = false ∧ t = prep x) as HLI by (intros t; unfold LI; by rewrite !HS).
  assert (∀ op, op ∈ LO ↔ op ∈ O) as HLO by (intros op; unfold LO; by rewrite !HSO).
  assert (db_transactions st1 = inserted_rows tr_ID (FromEntity "") LI (db_transactions st)) as Est1 by done.
  destruct (insert_fold_spec tr_ID (FromEntity "") LI (db_transactions st)) as (S1 & S2 & S3).
  assert (∀ t, t ∈ sortTransactionsByID T → ∃ r, db_transactions st1 !! tr_ID t = Some r ∧
            addressed (tr_OrganizationID t) (tr_LedgerID t) r = true) as Hknown.
  { intros t Ht. rewrite HS in Ht. apply HT in Ht as (x & Hx & Htr & ->). unfold prep. rewrite prepared_id. destruct (prepared_scope x.1 x.2) as [-> ->].
    assert (∀ r, db_transactions st1 !! tr_ID x.2 = Some r → row_facts r = entity_facts x.2) as Hfx.
    { rewrite Est1. intros r [Hr|(t & (y & Hy & _ & ->)%HLI & Hid & ->)]%S2; [by eapply bo_rows|].
      unfold prep in *. rewrite prepared_id in Hid. rewrite FromEntity_facts, prepared_facts. by eapply bo_facts. }
    assert (is_Some (db_transactions st1 !! tr_ID x.2)) as [r Hr].
    { rewrite Est1. destruct (bo_known _ _ H x Hx Htr) as [[r Hr]|(y & Hy & Hyt & Hid)].
      - exists r. by eapply lookup_weaken.
      - rewrite <- Hid, <- (prepared_id y.1). apply S3, HLI. by exists y. }
    exists r. split; [done|]. apply addressed_facts; [by apply Hfx|by eapply bo_live]. }
  destruct (sortTransactionsByID T) as [|t0 T0] eqn:ET.
  { exists st1, res2, (update_one_row now), LI, [], LO. split_and!; try done.
    - intros. by apply update_one_sets.
    - intros t. by rewrite <- HT, <- (HS t T), ET. }
  assert (∀ t, t ∈ t0 :: T0 ↔ ∃ x, x ∈ es ∧ trans x = true ∧ t = prep x) as HLT
    by (intros t; by rewrite <- HT, <- (HS t T), ET).
  unfold performBulkStatusUpdate. destruct (bulkUpdateThreshold <=? length (t0 :: T0))%nat.
  - unfold Transaction_UpdateBulk.
    destruct (update_fold_bulk now (chunks_of 500 (sortTransactionsByID (t0 :: T0))) 0 0 st1) as [k ->].
    rewrite concat_chunks_of by lia.
    eexists _, _, (update_bulk_row now), LI, (sortTransactionsByID (t0 :: T0)), LO. split_and!; try done.
    + intros. by apply update_bulk_sets.
    + intros t. by rewrite HS.
  - rewrite (update_fold_one now (t0 :: T0) st1 0 Hknown). cbn [Nat.ltb Nat.leb].
    eexists _, _, (update_one_row now), LI, (t0 :: T0), LO. split_and!; try done. intros. by apply update_one_sets.
Qed.

Lemma prepared_deleted p t : tr_DeletedAt (prepared_entity p t) = tr_DeletedAt t.
Proof. unfold prepared_entity. by destruct (sta_Code (tr_Status t)). Qed.

(** The row of one transaction is seen the same way. *)
Lemma batch_row_view now st es f LI LT i : batch_ok st es →
  (∀ F ST, is_final ST = true → sets_status F ST f) →
  (∀ t, t ∈ LI ↔ ∃ x, x ∈ es ∧ trans x = false ∧ t = prep x) →
  (∀ t, t ∈ LT ↔ ∃ x, x ∈ es ∧ trans x = true ∧ t = prep x) →
  row_view <$> fold_left (λ o t, update_effect f t o) (filter (λ t, tr_ID t = i) LT)
     (fold_left (λ o t, insert_effect (FromEntity "") t o) (filter (λ t, tr_ID t = i) LI) (db_transactions st !! i)) =
  row_view <$> fold_left (λ o x, tx_effect now x.1 x.2 o) (filter (λ x, tr_ID x.2 = i) es) (db_transactions st !! i).
Proof.
  intros H Hf HLI HLT. set (L := filter (λ x, tr_ID x.2 = i) es).
  assert (∀ x, x ∈ L ↔ tr_ID x.2 = i ∧ x ∈ es) as HL
    by (intros x; unfold L; by rewrite list_elem_of_filter).
  clearbody L.
  assert (∀ t, t ∈ filter (λ t, tr_ID t = i) LI ↔ ∃ x, x ∈ L ∧ trans x = false ∧ t = prep x) as HI.
  { intros t. rewrite list_elem_of_filter, HLI. setoid_rewrite HL. split.
    - intros (Hid & x & ? & ? & ->). unfold prep in Hid. rewrite prepared_id in Hid. eauto 10.
    - intros (x & [? ?] & ? & ->). unfold prep. rewrite prepared_id. eauto 10. }
  assert (∀ t, t ∈ filter (λ t, tr_ID t = i) LT ↔ ∃ x, x ∈ L ∧ trans x = true ∧ t = prep x) as HT.
  { intros t. rewrite list_elem_of_filter, HLT. setoid_rewrite HL. split.
    - intros (Hid & x & ? & ? & ->). unfold prep in Hid. rewrite prepared_id in Hid. eauto 10.
    - intros (x & [? ?] & ? & ->). unfold prep. rewrite prepared_id. eauto 10. }
  generalize dependent (filter (λ t, tr_ID t = i) LI). generalize dependent (filter (λ t, tr_ID t = i) LT).
  intros MT HMT MI HMI.
  destruct L as [|x0 L0] eqn:EL.
  { assert (MT = []) as -> by (apply elem_of_nil_inv; intros t (x & []%not_elem_of_nil & _)%HMT).
    assert (MI = []) as -> by (apply elem_of_nil_inv; intros t (x & []%not_elem_of_nil & _)%HMI). done. }
  assert (L ≠ []) as Hne by (rewrite EL; done). assert (x0 ∈ L) as Hx0 by (rewrite EL; set_solver).
  rewrite <- EL in *. clear EL L0.
  assert (∃ ST, is_final ST = true ∧ ∀ x, x ∈ L → trans x = true → stored_status x.2 = ST) as (ST & Hfin & HST).
  { destruct (decide (Exists (λ x, trans x = true) L)) as [(x & Hx & Hxt)%Exists_exists|Hno].
    - exists (stored_status x.2). split; [by apply andb_true_iff in Hxt as [_ ?]|].
      intros y Hy Hyt. apply HL in Hx as [? ?], Hy as [? ?]. apply (bo_status _ _ H); congruence.
    - exists APPROVED. split; [done|]. intros y Hy Hyt. destruct Hno. apply Exists_exists. eauto. }
  assert (∃ SP B, ∀ x, x ∈ L → trans x = false → stored_status x.2 = SP ∧ inserted_body x = B) as (SP & B & HSP).
  { destruct (decide (Exists (λ x, trans x = false) L)) as [(x & Hx & Hxt)%Exists_exists|Hno].
    - exists (stored_status x.2), (inserted_body x). intros y Hy Hyt. apply HL in Hx as [? ?], Hy as [? ?].
      split; [apply (bo_status _ _ H); congruence|apply (bo_body _ _ H); congruence].
    - exists APPROVED, None. intros y Hy Hyt. destruct Hno. apply Exists_exists. eauto. }
  set (F := entity_facts x0.2).
  assert (∀ x, x ∈ L → entity_facts x.2 = F ∧ tr_DeletedAt x.2 = None) as HF.
  { intros x Hx. apply HL in Hx as [? ?], Hx0 as [? ?]. split; [apply (bo_facts _ _ H); congruence|by eapply bo_live]. }
  assert (∀ r, db_transactions st !! i = Some r → row_facts r = F) as Hrows.
  { intros r Hr. apply HL in Hx0 as [Hid ?]. apply (bo_rows _ _ H x0); [done|by rewrite Hid]. }
  destruct (individual_row F ST SP B now L (db_transactions st !! i)) as (r1 & -> & H1); [|done|by left|].
  { intros x Hx. destruct (HF x Hx) as [? ?]. split_and!; [done|done| |intros; by apply HSP].
    destruct (trans x) eqn:?; [by apply HST|by apply HSP]. }
  destruct (bulk_row F ST SP B f MI MT (db_transactions st !! i)) as (r2 & -> & H2); [by apply Hf| | |done| |].
  { intros t (x & Hx & Hxt & ->)%HMI. unfold prep. rewrite prepared_facts, prepared_status. split; [by apply HF|by apply HSP]. }
  { intros t (x & Hx & Hxt & ->)%HMT. unfold prep. rewrite prepared_facts. destruct (HF x Hx) as [? ?].
    split_and!; [done|by rewrite prepared_deleted|rewrite prepared_status; by apply HST]. }
  { destruct (trans x0) eqn:Ex0; [|left; intros ->; by eapply not_elem_of_nil, HMI; exists x0].
    apply HL in Hx0 as [Hid Hin]. destruct (bo_known _ _ H x0 Hin Ex0) as [?|(y & ? & ? & ?)].
    - right. by rewrite <- Hid.
    - left. intros ->. eapply not_elem_of_nil, HMI. exists y. rewrite HL. split_and!; [congruence|done..]. }
  cbn. f_equal. eapply final_row_view; [exact Hfin|exact H2|].
  assert (negb (bool_decide (MT = [])) = existsb trans L) as ->; [|done].
  apply eq_true_iff_eq. rewrite negb_true_iff, bool_decide_eq_false, existsb_exists. split.
  - intros HM. destruct MT as [|t MT]; [done|]. destruct (proj1 (HMT t)) as (x & Hx & Hxt & _); [set_solver|].
    exists x. split; [by apply list_elem_of_In|done].
  - intros (x & Hx%list_elem_of_In & Hxt) ->. eapply not_elem_of_nil, HMT. by exists x.
Qed.


Lemma process_tables env flt outcome vu payloads ids st :
  db_transactions (processMetadataAndEvents env flt outcome vu payloads ids st) = db_transactions st ∧
  db_operations (processMetadataAndEvents env flt outcome vu payloads ids st) = db_operations st.
Proof.
  set (keeps := λ st', db_transactions st' = db_transactions st ∧ db_operations st' = db_operations st).
  assert (∀ st' e, keeps st' → keeps (put_entry st' e)) as K1.
  { intros st' e [H1 H2]. unfold put_entry. destruct (put_metadata_grows (me_Collection e) (me_EntityID e) (me_Data e) st')
      as (? & ? & _). split; congruence. }
  assert (∀ st' e, keeps st' → keeps (createSingleMetadata flt st' e)) as K2.
  { intros st' e [H1 H2]. unfold createSingleMetadata. destruct (CreateMetadataAsync _ _ _ _ _) eqn:E.
    apply create_metadata_effect in E as (? & ? & _). split; cbn; congruence. }
  assert (∀ {A} (f : store → A → store) l st', (∀ st' a, keeps st' → keeps (f st' a)) → keeps st' →
            keeps (fold_left f l st')) as KF.
  { intros A f l. induction l as [|a l IH]; intros st' Hf Hk; [done|]. cbn. apply IH; auto. }
  assert (∀ o l st', keeps st' → keeps (createMetadataForCollection flt o l st')) as K3.
  { intros o l st' Hk. unfold createMetadataForCollection. destruct l as [|e [|e' l]]; [done|by apply K2|].
    destruct o; [by apply KF|done|by apply KF]. }
  unfold processMetadataAndEvents. apply KF.
  - intros st' p Hk. unfold process_events, DeleteWriteBehindTransaction, RemoveTransactionFromRedisQueueIfStatus,
      RemoveTransactionFromRedisQueue, SendTransactionEvents, perform. repeat case_match; done.
  - unfold createMetadataBulk. case_match; [done|]. apply KF; [|done]. intros; by apply K3, K3.
Qed.

(** C11: When no call fails, storing a batch of messages in bulk leaves the same
    transactions, with the same statuses and, while pending, the same bodies, and the same
    operations as processing the messages one by one, whatever their order, with repeated
    messages and with a transition next to the creation it belongs to, below and above the
    threshold of the batched update, and there is no fallback.  The batch is one of
    [batch_ok]: messages about one transaction agree with each other and with a live row,
    a pending one has its input as its body, a created one is not of a pending request, the
    operations have valid directions, and every transition is about a transaction that is stored or created in the batch
    ([bulk_update_drops_unknown] shows what happens to another one). *)
Theorem bulk_matches_individual env flts outcome vu now now' st es (H : batch_ok st es) :
  let bulk := CreateBulkTransactionOperationsAsync env no_faults flts outcome vu now es.*1 st in
  let one := deliver_all env st ((λ x, mkDelivery x.1 no_faults now') <$> es) in
  bulk.2 = Ok tt ∧ br_FallbackUsed bulk.1.2 = false ∧
  row_view <$> db_transactions bulk.1.1 = row_view <$> db_transactions one ∧
  db_operations bulk.1.1 = db_operations one.
Proof.
  cbn zeta. destruct (individual_tables env now' st es H es st) as (I1 & I2 & I3 & I4); [done|by apply (bo_rows _ _ H)|].
  destruct (bulk_tables now st es zeroBulkResult H) as (st' & res' & f & LI & LT & LO & E & Hfb & Hsets & HLI & HLT & HLO & ET & EO).
  set (bulk := CreateBulkTransactionOperationsAsync _ _ _ _ _ _ _ _).
  assert (bulk.2 = Ok tt ∧ br_FallbackUsed bulk.1.2 = false ∧ db_transactions bulk.1.1 = db_transactions st' ∧
          db_operations bulk.1.1 = db_operations st') as (Hb1 & Hb2 & Hb3 & Hb4).
  { unfold bulk, CreateBulkTransactionOperationsAsync. destruct es as [|x es].
    { cbn in E. by simplify_eq. }
    cbn [fmap list_fmap] in *. rewrite E. cbn [fst snd].
    destruct (process_tables env no_faults outcome vu (x.1 :: es.*1) (br_InsertedTransactionIDs res') st') as [-> ->]. done. }
  split_and!; [done|done| |].
  - rewrite Hb3, ET, I1. apply map_eq. intros i. rewrite !lookup_fmap, !fold_partial_alter_lookup.
    by apply batch_row_view.
  - rewrite Hb4, EO. eapply (same_rows op_ID id (λ op, op ∈ LO) (λ op, op ∈ es ≫= λ x, tr_Operations x.2)); [exact HLO| | |].
    + intros op op' (x & ? & ?)%HLO%list_elem_of_bind (y & ? & ?)%HLO%list_elem_of_bind Hid.
      by eapply (bo_operations _ _ H x y).
    + apply (insert_fold_spec op_ID id LO).
    + by split_and!.
Qed.

End Equivalence.

(** ** Sample inputs *)

Module BulkSample.
Import WriteSample.
Definition tran_of (id : string) (status : TxStatus) (ops : list (@Operation Fixed.lib)) : @TransactionEntity Fixed.lib :=
  mkEntity id None "rent" (mkStatus status (Some (status_text status))) (Some (fx 250 0)) "USD" "" [] []
    "ledger" "org" (if bool_decide (status = PENDING) then input else zeroTransaction) "" None false false
    0 0 None ∅ ops.
Definition message (id : string) (pending : bool) (status : TxStatus) (ops : list (@Operation Fixed.lib))
    : @TransactionProcessingPayload Fixed.lib * @TransactionEntity Fixed.lib :=
  (mkPayload (Some (responses pending)) (Some (tran_of id status ops)) input "v2", tran_of id status ops).
Definition any_uuid (_ : string) : bool := true.
Definition written (_ : string) : bulk_write := BulkWritten.
Definition bulk (es : list (@TransactionProcessingPayload Fixed.lib * @TransactionEntity Fixed.lib)) st :=
  CreateBulkTransactionOperationsAsync (C := Commons.lib) env no_faults (λ _, no_faults) written any_uuid 5 es.*1 st.
Definition singly (es : list (@TransactionProcessingPayload Fixed.lib * @TransactionEntity Fixed.lib)) st :=
  deliver_all (C := Commons.lib) env st ((λ x, mkDelivery x.1 no_faults 5) <$> es).

(** A commit in the same batch as the creation it settles. *)
Definition both := [message "t1" true APPROVED [op "o2" []]; message "t1" true PENDING [op "o1" []]].

(** A payment and the commit of a transaction stored before. *)
Definition held := singly [message "t1" true PENDING [op "o1" []]] empty.
Definition mixed := [message "t0" false APPROVED []; message "t1" true APPROVED [op "o2" []]].

(** Ten commits whose creations have not arrived. *)
Definition ids := ["a"; "b"; "c"; "d"; "e"; "f"; "g"; "h"; "i"; "j"].
Definition early := (λ id, message id true APPROVED []) <$> ids.

Definition payment := [message "t0" false APPROVED []].
Definition events_of (st : @store Fixed.lib) := st_events st.
End BulkSample.

(** A batch with a new transaction skips the events of the transitions in it. *)
Theorem mixed_batch_skips_commit_event :
  st_events (BulkSample.bulk BulkSample.mixed BulkSample.held).1.1 = [("t0", Posted)] ∧
  st_events (BulkSample.singly BulkSample.mixed BulkSample.held) = [("t0", Posted); ("t1", Committed)].
Proof. split; vm_compute; reflexivity. Qed.

(** A batch delivered twice announces a payment as committed. *)
Theorem redelivered_batch_announces_commit :
  let once := (BulkSample.bulk BulkSample.payment WriteSample.empty).1.1 in
  st_events (BulkSample.bulk BulkSample.payment once).1.1 = [("t0", Posted); ("t0", Committed)] ∧
  st_events (BulkSample.singly BulkSample.payment (BulkSample.singly BulkSample.payment WriteSample.empty)) =
    [("t0", Posted)].
Proof. split; vm_compute; reflexivity. Qed.

(** The batched update answers success for transitions of transactions that are not
    stored yet, and nothing is stored; one by one they are inserted. *)
Theorem bulk_update_drops_unknown :
  is_ok (BulkSample.bulk BulkSample.early WriteSample.empty).2 = true ∧
  br_FallbackUsed (BulkSample.bulk BulkSample.early WriteSample.empty).1.2 = false ∧
  size (db_transactions (BulkSample.bulk BulkSample.early WriteSample.empty).1.1) = 0%nat ∧
  size (db_transactions (BulkSample.singly BulkSample.early WriteSample.empty)) = 10%nat.
Proof. split_and!; vm_compute; reflexivity. Qed.

Lemma both_ok : batch_ok (C := Commons.lib) WriteSample.empty BulkSample.both.
Proof.
  assert (∀ x, x ∈ BulkSample.both → x = BulkSample.message "t1" true APPROVED [WriteSample.op "o2" []] ∨
            x = BulkSample.message "t1" true PENDING [WriteSample.op "o1" []]) as H.
  { intros x. unfold BulkSample.both. rewrite !elem_of_cons. intros [-> |[-> |[]%not_elem_of_nil]]; auto. }
  constructor.
  - intros x [-> | ->]%H; reflexivity.
  - intros x [-> | ->]%H; reflexivity.
  - intros x y [-> | ->]%H [-> | ->]%H _; reflexivity.
  - intros x r _ E. discriminate E.
  - intros x y [-> | ->]%H [-> | ->]%H _; vm_compute; congruence.
  - intros x y [-> | ->]%H [-> | ->]%H _ E1 E2; try reflexivity; discriminate.
  - intros x [-> | ->]%H E; [discriminate E|reflexivity].
  - intros x [-> | ->]%H E; discriminate E.
  - intros x Hx _. right. exists (BulkSample.message "t1" true PENDING [WriteSample.op "o1" []]).
    split; [unfold BulkSample.both; set_solver|split; [reflexivity|]].
    by apply H in Hx as [-> | ->].
  - intros x y op op' [-> | ->]%H [-> | ->]%H; cbn [snd BulkSample.message BulkSample.tran_of tr_Operations];
      rewrite !list_elem_of_singleton; intros -> -> E; try reflexivity; discriminate E.
  - intros x op [-> | ->]%H; cbn [snd BulkSample.message BulkSample.tran_of tr_Operations];
      rewrite !list_elem_of_singleton; intros ->; reflexivity.
Qed.

Lemma bulk_matches_individual_witness :
  row_view <$> db_transactions (BulkSample.bulk BulkSample.both WriteSample.empty).1.1 =
  row_view <$> db_transactions (BulkSample.singly BulkSample.both WriteSample.empty).
Proof.
  destruct (bulk_matches_individual (C := Commons.lib) WriteSample.env (λ _, no_faults) BulkSample.written
    BulkSample.any_uuid 5 5 WriteSample.empty BulkSample.both both_ok) as (_ & _ & H & _).
  exact H.
Defined.
