(* ===== verification/StateTransitions.v ===== *)
(** * Commit and cancellation of pending transactions

    src/components/ledger/internal/adapters/http/in/transaction_state_handlers.go:
    [commitOrCancelTransaction] takes a lock of 300 seconds on the transaction, computes
    the operations from the stored body, settles the balances, and stores the outcome.
    The first part of this file models the handler as a function from the answers of the
    calls it makes to its effects and its result; the second part runs several requests
    against the same transaction, with their effects interleaved in time.

    Times are in nanoseconds.  The lock has no owner in the code; the model keeps the
    request that took it next to its expiry, for the statements only. *)

From Stdlib Require Import ZArith Lia.
From stdpp Require Import base gmap strings list.
From S2P Require Import Prelude Decimals GoStrings Transaction BalanceOps Overdraft MBalance SendValidation.
From S2P Require Import CacheKeys BalancePlan Enrichment GoTime OperationRecords WritePath.
Local Open Scope string_scope.
Local Open Scope list_scope.
Local Open Scope Z_scope.

(** ** The handler *)

(** What the handler does outside, in order; a failed deletion of the lock is logged only. *)
Inductive effect :=
  | DeleteLock | DeleteLockFailed | SeedBackup | RemoveBackup | Settle | ConfirmReservations | ReleaseReservations
  | WriteBackup | UpdateBackupOperations | UpdateStatus | Write | WriteFailed | SendAudit | UpdateWriteBehind.

#[export] Instance effect_eq_dec : EqDecision effect.
Proof. solve_decision. Defined.

Inductive HandlerError :=
  | LockUnavailable (e : string) | Locked | NotPending | InvalidSend (e : GoError) | CallFailed (e : string) | BackupFailed | BrokerUnavailable.

(** [deleteLockOnError], and an error after which it is called. *)
Definition deleteLockOnError (deleted : bool) : list effect := [if deleted then DeleteLock else DeleteLockFailed].
Definition or_release {E A} (deleted : bool) (f : E → HandlerError) (r : result E A) : eff effect HandlerError A :=
  or_undo (deleteLockOnError deleted) f r.

Section Handler.
Context {D : DecimalLib} {DT : DecimalText} {U : UuidLib} {C : LibCommons}.

Definition op_type_text (o : OpType) : string :=
  match o with
  | DEBIT => "DEBIT" | CREDIT => "CREDIT" | ONHOLD => "ON_HOLD" | RELEASE => "RELEASE" | OpOther s => s
  end.

(** The fields of an operation the reversal of an overdraft reads. *)
Definition operation_row (op : Operation) : OperationRow :=
  mkOperationRow (op_AccountAlias op) (op_BalanceKey op) (op_type_text (op_Type op)) (op_Direction op)
    (op_Amount op) (sn_Before (op_Snapshot op)) (sn_After (op_Snapshot op)).

(** The answers of the calls of one request. *)
Record answers := mkAnswers {
  an_lock : result string bool;                  (* [SetNX] *)
  an_unlock : bool;                              (* whether [Del] deletes the lock *)
  an_settings : result string (bool * bool);     (* route validation, tracer skip allowed *)
  an_balances : list string → result string (list MBalance);
  an_companions : gset string → result string (list MBalance);
  an_rules : list BalanceOperation → Responses → Action → result string (option TransactionRouteCache);
  an_seed : bool;
  an_process : list BalanceOperation → Responses → process_answer;
  an_newID : nat → result string string;
  an_now : Time;
  an_async : bool;
  an_write : bool }.

Definition with_entries (input : Transaction) (from to : list FromTo) : Transaction :=
  mkTransaction (tx_ChartOfAccountsGroupName input) (tx_Description input) (tx_Code input)
    (tx_Pending input) (tx_Metadata input) (tx_Route input) (tx_RouteID input) (tx_TransactionDate input)
    (mkSend (send_Asset (tx_Send input)) (send_Value (tx_Send input))
       (mkSource (src_Remaining (send_Source (tx_Send input))) from)
       (mkDistribute (dst_Remaining (send_Distribute (tx_Send input))) to))
    (tx_Skip input) (tx_OperationTypeOverride input).

Definition settled_entity (now : Time) (status : TxStatus) (input : Transaction) (validate : Responses)
    (ops : list Operation) (t : TransactionEntity) : TransactionEntity :=
  mkEntity (tr_ID t) (tr_ParentTransactionID t) (tr_Description t)
    (mkStatus status (Some (status_text status))) (tr_Amount t) (tr_AssetCode t)
    (tr_ChartOfAccountsGroupName t) (getAliasWithoutKey (filterCompanionAliases (resp_Sources validate)))
    (getAliasWithoutKey (filterCompanionAliases (resp_Destinations validate))) (tr_LedgerID t)
    (tr_OrganizationID t) input (tr_Route t) (tr_RouteID t) (tr_FeesSkipped t) (tr_TracerSkipped t)
    (tr_CreatedAt t) now (tr_DeletedAt t) (tr_Metadata t) ops.

(** The operations to settle, before anything is changed: the operations, the amounts and
    the entries of the records. *)
Record transition_plan := mkPlan {
  tp_ops : list BalanceOperation; tp_validate : Responses; tp_routes : bool; tp_cache : option TransactionRouteCache;
  tp_input : Transaction; tp_fromTo : list FromTo; tp_companions : list FromTo; tp_skip : bool }.

Definition plan_transition (organizationID ledgerID : uuid) (an : answers) (t : TransactionEntity)
    (status : TxStatus) : eff effect HandlerError transition_plan :=
  let input := tr_Body t in
  let from := MutateConcatAliases (ApplyDefaultBalanceKeys (src_From (send_Source (tx_Send input)))) in
  let to := MutateConcatAliases (ApplyDefaultBalanceKeys (dst_To (send_Distribute (tx_Send input)))) in
  let canceled := bool_decide (status = CANCELED) in
  let fromTo := from ++ (if canceled then [] else to) in
  if negb (bool_decide (sta_Code (tr_Status t) = PENDING)) then (deleteLockOnError (an_unlock an), Err NotPending) else
  let~ (validate, from, to) := or_release (an_unlock an) InvalidSend (ValidateSendSourceAndDistribute (with_entries input from to) status) in
  let~ (routes, skipAllowed) := or_release (an_unlock an) CallFailed (an_settings an) in
  let validate := if routes : bool then PropagateRouteValidation validate status else validate in
  let skip := match tx_Skip input with Some s => skip_Tracer s && skipAllowed | None => false end in
  let action := if canceled then ActionCancel else ActionCommit in
  let~ balances := or_release (an_unlock an) CallFailed (an_balances an (resp_Aliases validate)) in
  let ops := annotateCanceledOverdraftAmounts (buildBalanceOperations organizationID ledgerID validate balances)
               (Some (operation_row <$> tr_Operations t)) in
  let~ en := if canceled
             then or_release (an_unlock an) CallFailed (enrichOverdraftOperations organizationID ledgerID ops (Some validate) (an_companions an))
             else ([], Ok (mkEnriched ops (Some validate) [])) in
  let validate := default validate (en_validate en) in
  let~ cache := or_release (an_unlock an) CallFailed (an_rules an (en_ops en) validate action) in
  ([], Ok (mkPlan (en_ops en) validate routes cache
             (with_entries input (SanitizeAccountAliases from) (SanitizeAccountAliases to)) fromTo (en_fromTos en) skip)).

(** [commitOrCancelTransaction], once it has the lock. *)
Definition transition_locked (organizationID ledgerID : uuid) (an : answers) (t : TransactionEntity)
    (status : TxStatus) : eff effect HandlerError TransactionEntity :=
  let canceled := bool_decide (status = CANCELED) in
  let action := if canceled then ActionCancel else ActionCommit in
  let~ plan := plan_transition organizationID ledgerID an t status in
  if negb (an_seed an) then (deleteLockOnError (an_unlock an), Err BackupFailed) else
  let~ _ := emits [SeedBackup] in
  match an_process an (tp_ops plan) (tp_validate plan) with
  | ProcessRefused e => ([RemoveBackup] ++ deleteLockOnError (an_unlock an), Err (CallFailed e))
  | ProcessLost e => ([Settle; RemoveBackup] ++ deleteLockOnError (an_unlock an), Err (CallFailed e))
  | Processed before after =>
      let~ _ := emits [Settle] in
      let~ _ := (if tp_skip plan then [] else
                 match status with APPROVED => [ConfirmReservations] | CANCELED => [ReleaseReservations] | _ => [] end,
                 Ok tt) in
      let from := MutateSplitAliases (src_From (send_Source (tx_Send (tp_input plan)))) in
      let to := MutateSplitAliases (dst_To (send_Distribute (tx_Send (tp_input plan)))) in
      let input := with_entries (tp_input plan) from to in
      let fromTo := tp_fromTo plan ++ from ++ (if canceled then [] else to) ++ tp_companions plan in
      let~ (ops, preBalances) :=
        or_release (an_unlock an) CallFailed (BuildOperations before after fromTo input (tr_ID t) (tp_validate plan) (an_now an) false
                                 (tp_routes plan) (tp_cache plan) action (an_newID an)) in
      let t' := settled_entity (an_now an) status input (tp_validate plan) ops t in
      let~ _ := ([WriteBackup; UpdateBackupOperations] ++ (if an_async an then [UpdateStatus] else []), Ok tt) in
      if an_write an
      then ([Write; SendAudit] ++ (if an_async an then [UpdateWriteBehind] else []), Ok t')
      else ([WriteFailed], Err BrokerUnavailable)
  end.

(** The whole handler: it takes the lock first. *)
Definition commitOrCancelTransaction (organizationID ledgerID : uuid) (an : answers) (t : TransactionEntity)
    (status : TxStatus) : eff effect HandlerError TransactionEntity :=
  match an_lock an with
  | Err e => ([], Err (LockUnavailable e))
  | Ok false => ([], Err Locked)
  | Ok true => transition_locked organizationID ledgerID an t status
  end.

End Handler.

(** ** Outcomes *)

(** Effects that do not matter to the lock and to the balances. *)
Definition plain (e : effect) : Prop := e ∉ [DeleteLock; Settle; Write; WriteFailed].

(** What the request learns of the balances, if it asks for them to be settled. *)
Definition balances_reply {D : DecimalLib} {U : UuidLib} {C : LibCommons} {DT : DecimalText} (org led : uuid) (an : answers)
    (t : TransactionEntity) (status : TxStatus) : option process_answer :=
  match (plan_transition org led an t status).2 with
  | Ok plan => if an_seed an then Some (an_process an (tp_ops plan) (tp_validate plan)) else None
  | Err _ => None
  end.

(** The five ways a request that has the lock can end, by the reply it got; [deleted] says whether
    the lock can be deleted. *)
Inductive outcome {D : DecimalLib} {A} (deleted : bool) : option process_answer → list effect → result HandlerError A → Prop :=
  | refused reply l e : match reply with None | Some (ProcessRefused _) => True | _ => False end → Forall plain l →
      outcome deleted reply (l ++ deleteLockOnError deleted) (Err e)
  | lost a b e e' : Forall plain a → Forall plain b →
      outcome deleted (Some (ProcessLost e')) (a ++ Settle :: b ++ deleteLockOnError deleted) (Err e)
  | released before after a b e : Forall plain a → Forall plain b →
      outcome deleted (Some (Processed before after)) (a ++ Settle :: b ++ deleteLockOnError deleted) (Err e)
  | kept before after a b : Forall plain a → Forall plain b →
      outcome deleted (Some (Processed before after)) (a ++ Settle :: b ++ [WriteFailed]) (Err BrokerUnavailable)
  | completed before after a b c x : Forall plain a → Forall plain b → Forall plain c →
      outcome deleted (Some (Processed before after)) (a ++ Settle :: b ++ Write :: c) (Ok x).

Lemma plain_forall l : forallb (λ e, bool_decide (plain e)) l = true → Forall plain l.
Proof.
  rewrite forallb_forall. intros H. apply Forall_forall. intros e He%list_elem_of_In.
  apply H in He. by apply bool_decide_eq_true in He.
Qed.

Ltac plain_effects := apply plain_forall; vm_compute; reflexivity.

Section Outcomes.
Context {D : DecimalLib} {DT : DecimalText} {U : UuidLib} {C : LibCommons}.

(** Planning only reads: it ends with a plan and no effect, or with an error and the
    lock deleted. *)
Lemma plan_outcome org led an t status :
  (∃ e, plan_transition org led an t status = (deleteLockOnError (an_unlock an), Err e)) ∨
  (∃ plan, plan_transition org led an t status = ([], Ok plan) ∧ sta_Code (tr_Status t) = PENDING).
Proof.
  unfold plan_transition. case_bool_decide as Hp; cbn [negb]; [|left; eauto].
  unfold eff_bind, or_release, or_undo.
  repeat (case_match; simplify_eq; try (left; by eauto); try (right; by eauto)).
Qed.

Lemma not_pending_untouched org led an t status : sta_Code (tr_Status t) ≠ PENDING →
  (transition_locked org led an t status).1 = deleteLockOnError (an_unlock an).
Proof.
  intros Hp. unfold transition_locked.
  destruct (plan_outcome org led an t status) as [[e ->]|(plan & _ & ?)]; done.
Qed.

Lemma settle_pending org led an t status :
  Settle ∈ (transition_locked org led an t status).1 → sta_Code (tr_Status t) = PENDING.
Proof.
  destruct (decide (sta_Code (tr_Status t) = PENDING)) as [|Hp]; [done|].
  rewrite (not_pending_untouched org led an t status Hp). unfold deleteLockOnError. destruct (an_unlock an); set_solver.
Qed.

Lemma handler_outcome org led an t status :
  outcome (an_unlock an) (balances_reply org led an t status) (transition_locked org led an t status).1 (transition_locked org led an t status).2.
Proof.
  unfold transition_locked, balances_reply.
  destruct (plan_outcome org led an t status) as [[e ->]|(plan & -> & _)]; cbn [eff_bind snd].
  { by apply (refused _ _ []). }
  destruct (an_seed an); cbn [negb]; [|by apply (refused _ _ [])]. cbn [emits eff_bind app].
  destruct (an_process an (tp_ops plan) (tp_validate plan)) as [before after|e|e];
    [|apply (refused _ _ [SeedBackup; RemoveBackup]); [done|plain_effects]|apply (lost _ [SeedBackup] [RemoveBackup]); plain_effects].
  cbn [emits eff_bind app].
  set (res := if tp_skip plan then _ else _).
  assert (Forall plain res) as Hres by (subst res; destruct (tp_skip plan), status; plain_effects).
  unfold or_release, or_undo. destruct (BuildOperations _ _ _ _ _ _ _ _ _ _ _ _) as [[ops pre]|e]; cbn [eff_bind fst snd app].
  - set (mid := [WriteBackup; UpdateBackupOperations] ++ if an_async an then [UpdateStatus] else []).
    assert (Forall plain (res ++ mid)) as Hmid
      by (apply Forall_app; split; [done|]; subst mid; destruct (an_async an); plain_effects).
    destruct (an_write an); cbn [eff_bind fst snd].
    + set (post := [SendAudit] ++ if an_async an then [UpdateWriteBehind] else []).
      assert (Forall plain post) as Hpost by (subst post; destruct (an_async an); plain_effects).
      match goal with |- outcome _ _ _ (Ok ?x) => pose proof (completed (an_unlock an) before after [SeedBackup] (res ++ mid) post x) as H end.
      cbn [app] in H. rewrite <- app_assoc in H. apply H; [plain_effects|done|done].
    + pose proof (kept (A := TransactionEntity) (an_unlock an) before after [SeedBackup] (res ++ mid)) as H. cbn [app] in H.
      rewrite <- app_assoc in H. apply H; [plain_effects|done].
  - apply (released _ _ _ [SeedBackup] res); [plain_effects|done].
Qed.

(** C30: Whatever fails, the deletion of the lock and the reply of the balances included, a request
    to commit or cancel ends in one of six ways, and the reply it got says in which group: an error
    and nothing done because it did not get the lock; an error with the balances untouched, when it
    did not ask for them or they were refused; an error although they are settled, when their reply
    was lost; and when they answered, an error because the records cannot be built, an error because
    the outcome cannot be stored, which keeps the lock, or success, with the outcome stored after
    the balances were settled once.  In the other cases the lock is deleted, or kept if its deletion
    fails.  Nothing is settled unless the request got the lock and the transaction was pending, and
    a successful request returns the transaction with the requested status. *)
Theorem transition_outcomes org led an t status :
  let '(effects, r) := commitOrCancelTransaction org led an t status in
  (outcome (an_unlock an) (balances_reply org led an t status) effects r ∨
   (effects = [] ∧ is_ok r = false ∧ an_lock an ≠ Ok true)) ∧
  (Settle ∈ effects → an_lock an = Ok true ∧ sta_Code (tr_Status t) = PENDING) ∧
  (∀ t', r = Ok t' → sta_Code (tr_Status t') = status ∧ tr_ID t' = tr_ID t ∧ tr_Amount t' = tr_Amount t).
Proof.
  unfold commitOrCancelTransaction. destruct (an_lock an) as [[]|e] eqn:El; [|split_and!; [by right|set_solver|done]..].
  pose proof (handler_outcome org led an t status) as Ho. pose proof (settle_pending org led an t status) as Hp.
  destruct (transition_locked org led an t status) as [effects r] eqn:E. split_and!; [by left|by split; auto|].
  intros t' ->. unfold transition_locked, eff_bind, or_release, or_undo, emits in E.
  repeat (case_match; simplify_eq; try discriminate); done.
Qed.

End Outcomes.

(** ** Concurrent requests *)

Definition LockTTL : Z := 300 * Second.

(** A request has read the transaction and its status, or has taken the lock and has the
    given effects still to do. *)
Inductive request :=
  | Loaded (start : Z) (seen target : TxStatus)
  | Running (start taken : Z) (target : TxStatus) (script : list effect).

Record shared := mkShared {
  sh_now : Z; sh_lock : option (nat * Z); sh_settled : list TxStatus;
  sh_published : option (TxStatus * Z); sh_requests : gmap nat request }.

Definition initial (now : Z) : shared := mkShared now None [] None ∅.

Definition set_requests (m : gmap nat request) (s : shared) : shared :=
  mkShared (sh_now s) (sh_lock s) (sh_settled s) (sh_published s) m.

(** [SetNX] succeeds when there is no key or the key has expired. *)
Definition lock_free (s : shared) : bool :=
  match sh_lock s with None => true | Some (_, expiry) => expiry <=? sh_now s end.

(** The effect of a request on what the requests share. *)
Definition exec (target : TxStatus) (e : effect) (s : shared) : shared :=
  match e with
  | DeleteLock => mkShared (sh_now s) None (sh_settled s) (sh_published s) (sh_requests s)
  | Settle => mkShared (sh_now s) (sh_lock s) (sh_settled s ++ [target]) (sh_published s) (sh_requests s)
  | Write => mkShared (sh_now s) (sh_lock s) (sh_settled s) (Some (target, sh_now s)) (sh_requests s)
  | _ => s
  end.

Definition request_start (r : request) : Z :=
  match r with Loaded start _ _ => start | Running start _ _ _ => start end.
Definition unfinished (r : request) : Prop :=
  match r with Loaded _ _ _ => True | Running _ _ _ script => script ≠ [] end.

Section Requests.
Context (MaxRequest Lag : Z) (script_ok : TxStatus → TxStatus → list effect → Prop).

(** A status may be read as pending until [Lag] after the outcome was stored; between the
    settlement and that moment the row may already have been updated. *)
Definition visible (s : shared) (seen : TxStatus) : Prop :=
  match sh_published s with
  | None => seen = PENDING ∨ seen ∈ sh_settled s
  | Some (x, w) => seen = x ∨ (seen = PENDING ∧ sh_now s < w + Lag)
  end.

Inductive step : shared → shared → Prop :=
  | step_tick s now : sh_now s ≤ now →
      (∀ id r, sh_requests s !! id = Some r → unfinished r → now ≤ request_start r + MaxRequest) →
      step s (mkShared now (sh_lock s) (sh_settled s) (sh_published s) (sh_requests s))
  | step_load s id seen target : sh_requests s !! id = None → visible s seen → is_final target = true →
      step s (set_requests (<[id := Loaded (sh_now s) seen target]> (sh_requests s)) s)
  | step_lock s id start seen target script : sh_requests s !! id = Some (Loaded start seen target) →
      lock_free s = true → script_ok seen target script →
      step s (mkShared (sh_now s) (Some (id, sh_now s + LockTTL)) (sh_settled s) (sh_published s)
                (<[id := Running start (sh_now s) target script]> (sh_requests s)))
  | step_locked s id start seen target : sh_requests s !! id = Some (Loaded start seen target) →
      lock_free s = false → step s (set_requests (delete id (sh_requests s)) s)
  | step_effect s id start taken target e script :
      sh_requests s !! id = Some (Running start taken target (e :: script)) →
      step s (set_requests (<[id := Running start taken target script]> (sh_requests s)) (exec target e s))
  | step_done s id start taken target : sh_requests s !! id = Some (Running start taken target []) →
      step s (set_requests (delete id (sh_requests s)) s).

Inductive reachable (now : Z) : shared → Prop :=
  | reach_initial : reachable now (initial now)
  | reach_step s s' : reachable now s → step s s' → reachable now s'.

End Requests.

(** The effects of a request that did not fail after settling the balances. *)
Definition clean_script {D : DecimalLib} {DT : DecimalText} {U : UuidLib} {C : LibCommons}
    (seen target : TxStatus) (script : list effect) : Prop :=
  (∃ org led an t, sta_Code (tr_Status t) = seen ∧ script = (transition_locked org led an t target).1) ∧
  (Settle ∈ script → Write ∈ script).

(** What is left of such a request. *)
Inductive remaining : list effect → Prop :=
  | rem_plain l : Forall plain l → remaining l
  | rem_release l : Forall plain l → remaining (l ++ [DeleteLock])
  | rem_settle a b c : Forall plain a → Forall plain b → Forall plain c → remaining (a ++ Settle :: b ++ Write :: c)
  | rem_write b c : Forall plain b → Forall plain c → remaining (b ++ Write :: c).

Definition critical (l : list effect) : Prop := DeleteLock ∈ l ∨ Settle ∈ l ∨ Write ∈ l.

Lemma plain_not_critical l : Forall plain l → ¬ critical l.
Proof.
  rewrite Forall_forall. intros H [Hi|[Hi|Hi]]; apply H in Hi; apply Hi; set_solver.
Qed.
Lemma plain_notin l e : Forall plain l → ¬ plain e → ¬ (e ∈ l).
Proof. rewrite Forall_forall. intros H He Hi. by apply He, H. Qed.

#[export] Hint Resolve plain_not_critical : core.

Lemma not_plain e : e = DeleteLock ∨ e = Settle ∨ e = Write ∨ e = WriteFailed → ¬ plain e.
Proof. unfold plain. intros He Hn. apply Hn. set_solver. Qed.

(** Popping an effect of a remaining script. *)
Lemma remaining_pop e l : remaining (e :: l) →
  (plain e ∧ remaining l ∧ (critical l → critical (e :: l)) ∧ (Settle ∈ l ↔ Settle ∈ e :: l) ∧ (Write ∈ l ↔ Write ∈ e :: l)) ∨
  (e = DeleteLock ∧ l = []) ∨
  (e = Settle ∧ remaining l ∧ (Settle ∉ l) ∧ Write ∈ l) ∨
  (e = Write ∧ Forall plain l ∧ Settle ∉ l).
Proof.
  assert (plain e → remaining l →
    (plain e ∧ remaining l ∧ (critical l → critical (e :: l)) ∧ (Settle ∈ l ↔ Settle ∈ e :: l) ∧ (Write ∈ l ↔ Write ∈ e :: l))) as Hplain.
  { intros He Hr. assert (e ≠ Settle ∧ e ≠ Write) as [H1 H2].
    { split; intros ->; eapply not_plain; [|done| |done]; auto. }
    split_and!; [done|done|unfold critical; set_solver|set_solver|set_solver]. }
  inversion 1 as [l' H0 E|l' H0 E|a b c Ha Hb Hc E|b c Hb Hc E].
  - subst. apply Forall_cons in H0 as [? ?]. left. apply Hplain; [done|by constructor].
  - destruct l' as [|x l']; cbn in E; simplify_eq; [right; by left|].
    apply Forall_cons in H0 as [? ?]. left. apply Hplain; [done|by constructor].
  - destruct a as [|x a]; cbn in E; simplify_eq.
    + right. right. left. split_and!; [done|by constructor| |set_solver].
      intros [Hi|[Hi|Hi]%elem_of_cons]%elem_of_app; [|done|]; (eapply plain_notin; [| |exact Hi]);
        eauto using not_plain.
    + apply Forall_cons in Ha as [? ?]. left. apply Hplain; [done|by constructor].
  - destruct b as [|x b]; cbn in E; simplify_eq.
    + right. right. right. split_and!; [done|done|]. apply plain_notin; eauto using not_plain.
    + apply Forall_cons in Hb as [? ?]. left. apply Hplain; [done|by constructor].
Qed.

Lemma unwritten a b c : Forall plain a → Forall plain b → Write ∉ c → Write ∉ a ++ Settle :: b ++ c.
Proof.
  intros Ha Hb Hc. rewrite !elem_of_app, elem_of_cons, elem_of_app.
  intros [Hi|[Hi|[Hi|Hi]]]; [by eapply plain_notin; [exact Ha| |exact Hi]; eauto using not_plain|done
    |by eapply plain_notin; [exact Hb| |exact Hi]; eauto using not_plain|done].
Qed.

Lemma clean_remaining {D : DecimalLib} {DT : DecimalText} {U : UuidLib} {C : LibCommons} seen target script :
  clean_script seen target script →
  remaining script ∧ (Settle ∈ script → seen = PENDING) ∧ (Write ∈ script → Settle ∈ script).
Proof.
  intros ((org & led & an & t & Hs & ->) & Hsw).
  pose proof (handler_outcome org led an t target) as Ho.
  pose proof (settle_pending org led an t target) as Hp.
  destruct (transition_locked org led an t target) as [l r].
  cbn in *. rewrite Hs in Hp. inversion Ho; subst.
  - split_and!.
    + unfold deleteLockOnError. destruct (an_unlock an); [by constructor|]. apply rem_plain, Forall_app. split; [done|plain_effects].
    + done.
    + intros [Hi|Hi]%elem_of_app; [|by destruct (an_unlock an); set_solver].
      exfalso. eapply plain_notin; [| |exact Hi]; eauto using not_plain.
  - exfalso. by eapply (unwritten a b (deleteLockOnError (an_unlock an))); [| | |apply Hsw]; [| |destruct (an_unlock an)|]; try done; set_solver.
  - exfalso. by eapply (unwritten a b (deleteLockOnError (an_unlock an))); [| | |apply Hsw]; [| |destruct (an_unlock an)|]; try done; set_solver.
  - exfalso. by eapply (unwritten a b [WriteFailed]); [| | |apply Hsw]; try done; set_solver.
  - split_and!; [by constructor|done|set_solver].
Qed.

(** ** At most one settlement *)

Section Exclusion.
Context (MaxRequest Lag : Z) (script_ok : TxStatus → TxStatus → list effect → Prop).
Context (Hmax : 0 ≤ MaxRequest) (Hlag : 0 ≤ Lag) (Htime : 2 * MaxRequest + Lag < LockTTL).
Context (Hok : ∀ seen target script, script_ok seen target script →
  remaining script ∧ (Settle ∈ script → seen = PENDING) ∧ (Write ∈ script → Settle ∈ script)).

Definition running (s : shared) (id : nat) (start taken : Z) (target : TxStatus) (script : list effect) : Prop :=
  sh_requests s !! id = Some (Running start taken target script).

(** A request with something critical to do holds the lock and is in time. *)
Definition holds_lock (s : shared) : Prop := ∀ id start taken target script,
  running s id start taken target script →
  remaining script ∧ start ≤ taken ≤ sh_now s ∧ is_final target = true ∧
  (script ≠ [] → sh_now s ≤ start + MaxRequest) ∧
  (critical script → sh_lock s = Some (id, taken + LockTTL)).

(** A request that read the transaction as pending did so before the outcome spread. *)
Definition reads_in_time (s : shared) : Prop := ∀ id start seen target,
  sh_requests s !! id = Some (Loaded start seen target) →
  start ≤ sh_now s ≤ start + MaxRequest ∧ is_final target = true ∧
  (seen = PENDING → ∀ x w, sh_published s = Some (x, w) → start ≤ w + Lag).

(** Before the outcome is stored, a settlement belongs to the request about to store it;
    afterwards no request is about to settle, and the lock is kept long enough. *)
Definition settlement (s : shared) : Prop :=
  match sh_published s with
  | None =>
      (∀ id start taken target script, running s id start taken target script →
         Write ∈ script → (Settle ∉ script) → sh_settled s = [target]) ∧
      (sh_settled s = [] ∨ ∃ id start taken target script,
         running s id start taken target script ∧ Write ∈ script ∧ (Settle ∉ script) ∧ sh_settled s = [target])
  | Some (x, w) =>
      sh_settled s = [x] ∧ is_final x = true ∧ w ≤ sh_now s ∧
      (∀ id start taken target script, running s id start taken target script →
         (Settle ∉ script) ∧ (Write ∉ script)) ∧
      ∃ e, w + LockTTL - MaxRequest ≤ e ∧
        (e ≤ sh_now s ∨ ∃ id, sh_lock s = Some (id, e) ∧
           ∀ start taken target script, running s id start taken target script → ¬ critical script)
  end.

Definition inv (s : shared) : Prop := holds_lock s ∧ reads_in_time s ∧ settlement s.

Lemma inv_initial now : inv (initial now).
Proof. split_and!; [intros ??????|intros ?????|split; [intros ??????|by left]]; done. Qed.

Lemma critical_unique s id start taken target script id' start' taken' target' script' :
  holds_lock s → running s id start taken target script → critical script →
  running s id' start' taken' target' script' → critical script' → id' = id.
Proof.
  intros HL Hr Hc Hr' Hc'. destruct (HL _ _ _ _ _ Hr) as (_ & _ & _ & _ & E), (HL _ _ _ _ _ Hr') as (_ & _ & _ & _ & E').
  rewrite E in E' by done. by specialize (E' Hc') as [= -> _].
Qed.

Lemma free_not_critical s id start taken target script : holds_lock s → lock_free s = true →
  running s id start taken target script → ¬ critical script.
Proof using Hmax Hlag Htime.
  intros HL Hf Hr Hc. destruct (HL _ _ _ _ _ Hr) as (_ & Ht & _ & Hd & E). unfold lock_free in Hf.
  rewrite (E Hc) in Hf. apply Z.leb_le in Hf. assert (script ≠ []) as Hn.
  { intros ->. destruct Hc as [H|[H|H]]; by apply not_elem_of_nil in H. }
  specialize (Hd Hn). lia.
Qed.

Lemma inv_tick s now : inv s → sh_now s ≤ now →
  (∀ id r, sh_requests s !! id = Some r → unfinished r → now ≤ request_start r + MaxRequest) →
  inv (mkShared now (sh_lock s) (sh_settled s) (sh_published s) (sh_requests s)).
Proof.
  intros (HL & HR & HS) Hn Hd. split_and!.
  - intros id start taken target script Hr. destruct (HL _ _ _ _ _ Hr) as (? & ? & ? & ? & ?).
    split_and!; [done|cbn; lia|cbn; lia|done| |done]. intros Hne. by apply (Hd _ _ Hr).
  - intros id start seen target Hr. destruct (HR _ _ _ _ Hr) as (? & ? & ?).
    split_and!; [cbn; lia|by apply (Hd _ _ Hr)|done|done].
  - unfold settlement in *. cbn in *. destruct (sh_published s) as [[x w]|]; [|exact HS].
    destruct HS as (? & ? & ? & ? & e & ? & [?|(id & ? & Hc)]); split_and!; try done; try lia;
      exists e; split; try done; [left; lia|right; by exists id].
Qed.

Lemma inv_load s id seen target : inv s → sh_requests s !! id = None → visible Lag s seen → is_final target = true →
  inv (set_requests (<[id := Loaded (sh_now s) seen target]> (sh_requests s)) s).
Proof using Hmax.
  intros (HL & HR & HS) Hid Hv Hf.
  assert (∀ id' start taken target' script,
    running (set_requests (<[id := Loaded (sh_now s) seen target]> (sh_requests s)) s) id' start taken target' script ↔
    running s id' start taken target' script) as Hrun.
  { intros. unfold running. cbn. rewrite lookup_insert_Some. split; [by intros [[_ [=]]|[_ ?]]|].
    intros Hr. right. split; [|done]. intros ->. congruence. }
  split_and!.
  - intros ????? Hr%Hrun. exact (HL _ _ _ _ _ Hr).
  - intros id' start seen' target'. cbn. rewrite lookup_insert_Some. intros [[-> [= <- <- <-]]|[_ Hr]]; [|exact (HR _ _ _ _ Hr)].
    split_and!; [lia|lia|done|]. intros -> x w E. unfold visible in Hv. rewrite E in Hv.
    unfold settlement in HS. rewrite E in HS. destruct HS as (_ & Hx & _).
    destruct Hv as [<-|[_ ?]]; [discriminate Hx|lia].
  - unfold settlement in *. cbn. destruct (sh_published s) as [[x w]|].
    + destruct HS as (? & ? & ? & H1 & e & ? & H2). split_and!; try done.
      * intros ????? Hr%Hrun. by eapply H1.
      * exists e. split; [done|]. destruct H2 as [?|(id' & ? & Hc)]; [by left|right]. exists id'. split; [done|].
        intros ???? Hr%Hrun. by eapply Hc.
    + destruct HS as [H1 H2]. split; [intros ????? Hr%Hrun; by eapply H1|].
      destruct H2 as [?|(id' & start & taken & target' & script & Hr & ?)]; [by left|right].
      exists id', start, taken, target', script. split; [by apply Hrun|done].
Qed.

Lemma inv_lock s id start seen target script : inv s → sh_requests s !! id = Some (Loaded start seen target) →
  lock_free s = true → script_ok seen target script →
  inv (mkShared (sh_now s) (Some (id, sh_now s + LockTTL)) (sh_settled s) (sh_published s)
         (<[id := Running start (sh_now s) target script]> (sh_requests s))).
Proof using Hmax Hlag Htime Hok.
  intros (HL & HR & HS) Hid Hf Hs. destruct (Hok _ _ _ Hs) as (Hrem & Hpend & Hwrite).
  destruct (HR _ _ _ _ Hid) as (Hst & Hfin & Hread).
  set (s' := mkShared _ _ _ _ _).
  assert (∀ id' st tk tg sc, running s' id' st tk tg sc ↔
    (id' = id ∧ st = start ∧ tk = sh_now s ∧ tg = target ∧ sc = script) ∨ running s id' st tk tg sc) as Hrun.
  { intros. unfold running. cbn. rewrite lookup_insert_Some. split.
    - intros [[<- [= <- <- <- <-]]|[_ ?]]; [by left|by right].
    - intros [(-> & -> & -> & -> & ->)|Hr]; [by left|right]. split; [|done]. intros ->. congruence. }
  split_and!.
  - intros id' st tk tg sc [(-> & -> & -> & -> & ->)|Hr]%Hrun; cbn.
    + split_and!; [done|lia|lia|done|lia|done].
    + destruct (HL _ _ _ _ _ Hr) as (? & ? & ? & ? & ?). split_and!; [done|lia|lia|done|done|].
      intros Hc. by destruct (free_not_critical _ _ _ _ _ _ HL Hf Hr).
  - intros id' st sn tg. cbn. rewrite lookup_insert_Some. intros [[_ [=]]|[_ Hr]]. exact (HR _ _ _ _ Hr).
  - unfold settlement in *. cbn. destruct (sh_published s) as [[x w]|] eqn:Ep.
    + destruct HS as (? & ? & ? & H1 & e & He & H2).
      assert (e ≤ sh_now s) as Hen.
      { destruct H2 as [?|(id' & E & _)]; [done|]. unfold lock_free in Hf. rewrite E in Hf. by apply Z.leb_le in Hf. }
      split_and!; try done; [|exists e; by auto].
      intros ????? [(-> & -> & -> & -> & ->)|Hr]%Hrun; [|by eapply H1].
      assert (Settle ∉ script) as Hns.
      { intros Hin. specialize (Hread (Hpend Hin) _ _ eq_refl). lia. }
      split; [done|]. intros Hw. by apply Hns, Hwrite.
    + destruct HS as [H1 H2]. split.
      * intros ????? [(-> & -> & -> & -> & ->)|Hr]%Hrun Hw Hn; [|by eapply H1]. by destruct Hn; apply Hwrite.
      * destruct H2 as [?|(id' & st & tk & tg & sc & Hr & Hw & _)]; [by left|].
        destruct (free_not_critical _ _ _ _ _ _ HL Hf Hr). right. by right.
Qed.

Lemma inv_drop s id r : inv s → sh_requests s !! id = Some r → (¬ unfinished r ∨ ∃ a b c, r = Loaded a b c) →
  inv (set_requests (delete id (sh_requests s)) s).
Proof.
  intros (HL & HR & HS) Hid Hu.
  assert (∀ id' st tk tg sc, running (set_requests (delete id (sh_requests s)) s) id' st tk tg sc → running s id' st tk tg sc) as Hrun.
  { intros ?????. unfold running. cbn. by intros [_ ?]%lookup_delete_Some. }
  split_and!.
  - intros ????? Hr%Hrun. exact (HL _ _ _ _ _ Hr).
  - intros ????. cbn. intros [_ Hr]%lookup_delete_Some. exact (HR _ _ _ _ Hr).
  - unfold settlement in *. cbn. destruct (sh_published s) as [[x w]|].
    + destruct HS as (? & ? & ? & H1 & e & ? & H2). split_and!; try done.
      * intros ????? Hr%Hrun. by eapply H1.
      * exists e. split; [done|]. destruct H2 as [?|(id' & ? & Hc)]; [by left|right]. exists id'. split; [done|].
        intros ???? Hr%Hrun. by eapply Hc.
    + destruct HS as [H1 H2]. split; [intros ????? Hr%Hrun; by eapply H1|].
      destruct H2 as [?|(id' & st & tk & tg & sc & Hr & Hw & ?)]; [by left|right].
      exists id', st, tk, tg, sc. split; [|done]. unfold running. cbn. rewrite lookup_delete_Some. split; [|done].
      intros ->. unfold running in Hr. rewrite Hid in Hr. injection Hr as ->.
      destruct Hu as [Hu|(? & ? & ? & [=])]. apply Hu. cbn. intros ->. by apply not_elem_of_nil in Hw.
Qed.

(** Requests after one of them did an effect. *)
Lemma running_effect s id start taken target e script id' st tk tg sc :
  running s id start taken target (e :: script) →
  running (set_requests (<[id := Running start taken target script]> (sh_requests s)) (exec target e s)) id' st tk tg sc ↔
  (id' = id ∧ st = start ∧ tk = taken ∧ tg = target ∧ sc = script) ∨ (id' ≠ id ∧ running s id' st tk tg sc).
Proof.
  intros Hr. unfold running. cbn. rewrite lookup_insert_Some. split.
  - intros [[<- [= <- <- <- <-]]|[? ?]]; [by left|right; by split].
  - intros [(-> & -> & -> & -> & ->)|[? ?]]; [by left|right; by split].
Qed.

Lemma inv_plain s id start taken target e script : inv s → running s id start taken target (e :: script) →
  plain e → remaining script → (critical script → critical (e :: script)) →
  (Settle ∈ script ↔ Settle ∈ e :: script) → (Write ∈ script ↔ Write ∈ e :: script) →
  inv (set_requests (<[id := Running start taken target script]> (sh_requests s)) (exec target e s)).
Proof.
  intros (HL & HR & HS) Hid He Hrem Hcrit HSe HWe.
  assert (exec target e s = s) as Ex.
  { destruct e; try done; exfalso; (eapply not_plain; [|exact He]); auto. }
  pose proof (running_effect s id start taken target e script) as Hrun. rewrite Ex in *.
  set (s' := set_requests _ _) in *. split_and!.
  - intros id' st tk tg sc [(-> & -> & -> & -> & ->)|[_ Hr]]%Hrun; [| |done]; cbn.
    + destruct (HL _ _ _ _ _ Hid) as (? & ? & ? & Hd & Hc). split_and!; [done|lia|lia|done| |auto].
      intros _. by apply Hd.
    + exact (HL _ _ _ _ _ Hr).
  - intros id' st sn tg. cbn. rewrite lookup_insert_Some. intros [[_ [=]]|[_ Hr]]. exact (HR _ _ _ _ Hr).
  - unfold settlement in *. cbn. destruct (sh_published s) as [[x w]|].
    + destruct HS as (? & ? & ? & H1 & ee & ? & H2). split_and!; try done.
      * intros id' st tk tg sc [(-> & -> & -> & -> & ->)|[_ Hr]]%Hrun; [|by eapply H1|done].
        rewrite HSe, HWe. by eapply H1.
      * exists ee. split; [done|]. destruct H2 as [?|(id' & ? & Hc)]; [by left|right]. exists id'. split; [done|].
        intros st tk tg sc [(-> & -> & -> & -> & ->)|[_ Hr]]%Hrun; [|by eapply Hc|done].
        intros Hcs. by eapply (Hc _ _ _ _ Hid), Hcrit.
    + destruct HS as [H1 H2]. split.
      * intros id' st tk tg sc [(-> & -> & -> & -> & ->)|[_ Hr]]%Hrun; [|by eapply H1|done].
        rewrite HSe, HWe. by eapply H1.
      * destruct H2 as [?|(id' & st & tk & tg & sc & Hr & Hw & Hn & ?)]; [by left|right].
        destruct (decide (id' = id)) as [->|Hne].
        -- unfold running in Hr, Hid. rewrite Hid in Hr. injection Hr as <- <- <- <-.
           exists id, start, taken, target, script. split; [apply Hrun; [done|by left]|]. by rewrite HSe, HWe.
        -- exists id', st, tk, tg, sc. split; [apply Hrun; [done|by right]|done].
Qed.

Lemma inv_delete s id start taken target : inv s → running s id start taken target [DeleteLock] →
  inv (set_requests (<[id := Running start taken target []]> (sh_requests s)) (exec target DeleteLock s)).
Proof.
  intros (HL & HR & HS) Hid. pose proof (running_effect s id start taken target DeleteLock []) as Hrun.
  assert (critical [DeleteLock]) as Hcd by (left; set_solver).
  assert (¬ critical []) as Hcn by (by apply plain_not_critical).
  assert (∀ id' st tk tg sc, id' ≠ id → running s id' st tk tg sc → ¬ critical sc) as Hother.
  { intros id' st tk tg sc Hne Hr Hc. apply Hne. exact (critical_unique _ _ _ _ _ _ _ _ _ _ _ HL Hid Hcd Hr Hc). }
  set (s' := set_requests _ _) in *. split_and!.
  - intros id' st tk tg sc [(-> & -> & -> & -> & ->)|[Hne Hr]]%Hrun; [| |done]; cbn.
    + destruct (HL _ _ _ _ _ Hid) as (? & ? & ? & Hd & Hc). split_and!; [by constructor|lia|lia|done|done|done].
    + destruct (HL _ _ _ _ _ Hr) as (? & ? & ? & ? & _). split_and!; [done|lia|lia|done|done|].
      intros Hc. by destruct (Hother _ _ _ _ _ Hne Hr).
  - intros id' st sn tg. cbn. rewrite lookup_insert_Some. intros [[_ [=]]|[_ Hr]]. exact (HR _ _ _ _ Hr).
  - unfold settlement in *. cbn. destruct (sh_published s) as [[x w]|].
    + destruct HS as (? & ? & ? & H1 & ee & ? & H2). split_and!; try done.
      * intros id' st tk tg sc [(-> & -> & -> & -> & ->)|[_ Hr]]%Hrun; [|by eapply H1|done].
        split; apply not_elem_of_nil.
      * exists ee. split; [done|]. left. destruct H2 as [?|(id' & E & Hc)]; [done|]. exfalso.
        destruct (HL _ _ _ _ _ Hid) as (_ & _ & _ & _ & El). rewrite E in El. specialize (El Hcd) as [= -> _].
        by apply (Hc _ _ _ _ Hid).
    + destruct HS as [H1 H2]. split.
      * intros id' st tk tg sc [(-> & -> & -> & -> & ->)|[_ Hr]]%Hrun; [|by eapply H1|done].
        by intros []%not_elem_of_nil.
      * destruct H2 as [?|(id' & st & tk & tg & sc & Hr & Hw & Hn & ?)]; [by left|right].
        destruct (decide (id' = id)) as [->|Hne].
        -- unfold running in Hr, Hid. rewrite Hid in Hr. injection Hr as <- <- <- <-. set_solver.
        -- exists id', st, tk, tg, sc. split; [apply Hrun; [done|by right]|done].
Qed.

Lemma inv_settle s id start taken target script : inv s → running s id start taken target (Settle :: script) →
  remaining script → (Settle ∉ script) → Write ∈ script →
  inv (set_requests (<[id := Running start taken target script]> (sh_requests s)) (exec target Settle s)).
Proof.
  intros (HL & HR & HS) Hid Hrem Hns Hw. pose proof (running_effect s id start taken target Settle script) as Hrun.
  assert (critical (Settle :: script)) as Hcd by (right; left; set_solver).
  assert (∀ id' st tk tg sc, id' ≠ id → running s id' st tk tg sc → ¬ critical sc) as Hother.
  { intros id' st tk tg sc Hne Hr Hc. apply Hne. exact (critical_unique _ _ _ _ _ _ _ _ _ _ _ HL Hid Hcd Hr Hc). }
  unfold settlement in HS. destruct (sh_published s) as [[x w]|] eqn:Ep.
  { destruct HS as (_ & _ & _ & H1 & _). destruct (H1 _ _ _ _ _ Hid) as [H _]. set_solver. }
  assert (sh_settled s = []) as E0.
  { destruct HS as [_ [?|(id' & st & tk & tg & sc & Hr & Hw' & Hn & _)]]; [done|]. exfalso.
    destruct (decide (id' = id)) as [->|Hne]; [|by apply (Hother _ _ _ _ _ Hne Hr); right; right].
    unfold running in Hr, Hid. rewrite Hid in Hr. injection Hr as <- <- <- <-. set_solver. }
  set (s' := set_requests _ _) in *. split_and!.
  - intros id' st tk tg sc [(-> & -> & -> & -> & ->)|[Hne Hr]]%Hrun; [| |done]; cbn.
    + destruct (HL _ _ _ _ _ Hid) as (? & ? & ? & Hd & Hc). split_and!; [done|lia|lia|done|by intros _; apply Hd|auto].
    + exact (HL _ _ _ _ _ Hr).
  - intros id' st sn tg. cbn. rewrite lookup_insert_Some. intros [[_ [=]]|[_ Hr]]. rewrite Ep. destruct (HR _ _ _ _ Hr) as (? & ? & ?).
    split_and!; try lia; try done.
  - unfold settlement. cbn. rewrite Ep, E0. cbn. split.
    + intros id' st tk tg sc [(-> & -> & -> & -> & ->)|[Hne Hr]]%Hrun Hw' Hn; [done| |done].
      exfalso. apply (Hother _ _ _ _ _ Hne Hr). by right; right.
    + right. exists id, start, taken, target, script. split_and!; [|done..]. apply Hrun; [done|by left].
Qed.

Lemma inv_write s id start taken target script : inv s → running s id start taken target (Write :: script) →
  Forall plain script → (Settle ∉ script) →
  inv (set_requests (<[id := Running start taken target script]> (sh_requests s)) (exec target Write s)).
Proof using Hmax Hlag Htime Hok.
  intros (HL & HR & HS) Hid Hpl Hns. pose proof (running_effect s id start taken target Write script) as Hrun.
  assert (critical (Write :: script)) as Hcd by (right; right; set_solver).
  assert (∀ id' st tk tg sc, id' ≠ id → running s id' st tk tg sc → ¬ critical sc) as Hother.
  { intros id' st tk tg sc Hne Hr Hc. apply Hne. exact (critical_unique _ _ _ _ _ _ _ _ _ _ _ HL Hid Hcd Hr Hc). }
  unfold settlement in HS. destruct (sh_published s) as [[x w]|] eqn:Ep.
  { destruct HS as (_ & _ & _ & H1 & _). destruct (H1 _ _ _ _ _ Hid) as [_ H]. set_solver. }
  assert (sh_settled s = [target]) as E0 by (apply (proj1 HS _ _ _ _ _ Hid); set_solver).
  destruct (HL _ _ _ _ _ Hid) as (_ & Ht & Hfin & Hd & Hlk). specialize (Hd ltac:(done)). specialize (Hlk Hcd).
  set (s' := set_requests _ _) in *. split_and!.
  - intros id' st tk tg sc [(-> & -> & -> & -> & ->)|[Hne Hr]]%Hrun; [| |done]; cbn.
    + split_and!; [by constructor|lia|lia|done|done|]. by intros Hc%plain_not_critical.
    + exact (HL _ _ _ _ _ Hr).
  - intros id' st sn tg. cbn. rewrite lookup_insert_Some. intros [[_ [=]]|[_ Hr]].
    destruct (HR _ _ _ _ Hr) as (? & ? & ?). split_and!; [lia|lia|done|]. intros _ x w [= _ <-]. lia.
  - unfold settlement. cbn. split_and!; [done|done|lia| |].
    + intros id' st tk tg sc [(-> & -> & -> & -> & ->)|[Hne Hr]]%Hrun; [| |done].
      * split; [done|]. apply plain_notin; eauto using not_plain.
      * split; intros Hin; apply (Hother _ _ _ _ _ Hne Hr); [by right; left|by right; right].
    + exists (taken + LockTTL). split; [lia|]. right. exists id. split; [done|].
      intros st tk tg sc [(_ & _ & _ & _ & ->)|[? ?]]%Hrun; [by apply plain_not_critical|done|done].
Qed.

Lemma inv_step s s' : inv s → step MaxRequest Lag script_ok s s' → inv s'.
Proof using Hmax Hlag Htime Hok.
  intros Hi Hst. revert Hi. destruct Hst; intros Hi.
  - by apply inv_tick.
  - by apply inv_load.
  - by eapply inv_lock.
  - eapply inv_drop; [done|done|]. right. eauto.
  - destruct (proj1 Hi _ _ _ _ _ H) as (Hrem & _).
    destruct (remaining_pop _ _ Hrem) as [(? & ? & ? & ? & ?)|[[-> ->]|[(-> & ? & ? & ?)|(-> & ? & ?)]]].
    + by eapply inv_plain.
    + by eapply inv_delete.
    + by eapply inv_settle.
    + by eapply inv_write.
  - eapply inv_drop; [done|done|]. left. cbn. tauto.
Qed.

Lemma reachable_settles_once now s : reachable MaxRequest Lag script_ok now s →
  (length (sh_settled s) ≤ 1)%nat ∧ (∀ x w, sh_published s = Some (x, w) → sh_settled s = [x]).
Proof using Hmax Hlag Htime Hok.
  intros Hr. assert (inv s) as (_ & _ & HS) by (induction Hr; [apply inv_initial|by eapply inv_step]).
  unfold settlement in HS. destruct (sh_published s) as [[x w]|].
  - destruct HS as (-> & _). split; [done|]. by intros ?? [= -> _].
  - split; [|done]. destruct HS as [_ [-> |(? & ? & ? & ? & ? & _ & _ & _ & ->)]]; cbn; lia.
Qed.

End Exclusion.

(** C7: However many requests to commit and to cancel a pending transaction run at the
    same time, its balances are settled at most once, and the stored outcome is the one
    that was settled: if requests take at most [MaxRequest], the stored outcome is read
    everywhere after [Lag], twice the one and the other stay below the 300 seconds of the
    lock, and no request fails after it has settled. *)
Theorem transition_settles_once {D : DecimalLib} {DT : DecimalText} {U : UuidLib} {C : LibCommons}
    (MaxRequest Lag now : Z) (Hmax : 0 ≤ MaxRequest) (Hlag : 0 ≤ Lag) (Htime : 2 * MaxRequest + Lag < LockTTL)
    s (Hr : reachable MaxRequest Lag clean_script now s) :
  (length (sh_settled s) ≤ 1)%nat ∧ (∀ x w, sh_published s = Some (x, w) → sh_settled s = [x]).
Proof. by eapply reachable_settles_once; [..|intros ???; apply clean_remaining|exact Hr]. Qed.

(** ** Sample requests *)

(** The next [n] effects of a request. *)
Fixpoint run_effects (n : nat) (id : nat) (s : shared) : shared :=
  match n with
  | O => s
  | S n =>
      match sh_requests s !! id with
      | Some (Running start taken target (e :: script)) =>
          run_effects n id (set_requests (<[id := Running start taken target script]> (sh_requests s)) (exec target e s))
      | _ => s
      end
  end.

Lemma reach_effects MaxRequest Lag script_ok now n id s :
  reachable MaxRequest Lag script_ok now s → reachable MaxRequest Lag script_ok now (run_effects n id s).
Proof.
  revert s. induction n as [|n IH]; intros s Hr; cbn; [done|].
  destruct (sh_requests s !! id) as [[|start taken target [|e script]]|] eqn:E; try done.
  apply IH. eapply reach_step; [exact Hr|by eapply step_effect].
Qed.

Definition load (id : nat) (seen target : TxStatus) (s : shared) : shared :=
  set_requests (<[id := Loaded (sh_now s) seen target]> (sh_requests s)) s.
Definition acquire (id : nat) (target : TxStatus) (start : Z) (script : list effect) (s : shared) : shared :=
  mkShared (sh_now s) (Some (id, sh_now s + LockTTL)) (sh_settled s) (sh_published s)
    (<[id := Running start (sh_now s) target script]> (sh_requests s)).

Lemma reach_request MaxRequest Lag (script_ok : TxStatus → TxStatus → list effect → Prop) now n id seen target script s :
  reachable MaxRequest Lag script_ok now s → sh_requests s !! id = None → visible Lag s seen →
  is_final target = true → lock_free s = true → script_ok seen target script →
  reachable MaxRequest Lag script_ok now (run_effects n id (acquire id target (sh_now s) script (load id seen target s))).
Proof.
  intros Hr Hid Hv Hf Hl Hs. apply reach_effects. eapply reach_step.
  - eapply reach_step; [exact Hr|by apply (step_load _ _ _ s id seen target)].
  - eapply step_lock; [by apply lookup_insert_eq|done|done].
Qed.

Module TransitionSample.
Definition input : @Transaction Fixed.lib :=
  sample_tx 250 [plain_entry true "@alice" 250] [plain_entry false "@bob" 250].
Definition tran (status : TxStatus) : @TransactionEntity Fixed.lib :=
  mkEntity "t1" None "rent" (mkStatus status (Some (status_text status))) (Some (fx 250 0)) "BRL" "" [] []
    "2" "1" input "" None false false 0 0 None ∅ [].
Definition row (alias : string) (available onHold version : Z) : @MBalance Fixed.lib :=
  mkMBalance "b1" "1" "2" "acc1" alias "default" "BRL" (fx available 0) (fx onHold 0) version
    "deposit" true true DirectionCredit (fx 0 0) None 0 0 None ∅.
Definition ids (ok : bool) (n : nat) : result string string := if ok then Ok (strconv_Itoa n) else Err "no entropy".
(** The balances of the two accounts before and after; the identifiers and the database may fail. *)
Definition answer (heard ids_ok write_ok : bool) : answers (D := Fixed.lib) :=
  mkAnswers (D := Fixed.lib) (Ok true) true (Ok (false, false))
    (λ _, Ok [row "@alice" 0 250 7; row "@bob" 10 0 3]) (λ _, Ok [])
    (λ _ _ _, Ok None) true
    (λ ops _, if heard then Processed [row "0#@alice#default" 0 250 7; row "0#@bob#default" 10 0 3]
                              [row "0#@alice#default" 0 0 8; row "0#@bob#default" 260 0 4]
              else ProcessLost "timeout")
    (ids ids_ok) 0 false write_ok.
Definition handle (heard ids_ok write_ok : bool) (status target : TxStatus) :=
  transition_locked (DT := FixedText.text) (U := Numbered.lib) (C := Commons.lib) (1%nat : @uuid Numbered.lib)
    (2%nat : @uuid Numbered.lib) (answer heard ids_ok write_ok) (tran status) target.
Definition script (heard ids_ok write_ok : bool) (target : TxStatus) : list effect := (handle heard ids_ok write_ok PENDING target).1.
(** Any request, failures after the settlement included. *)
Definition any_script (seen target : TxStatus) (script : list effect) : Prop :=
  ∃ heard ids_ok write_ok, script = (handle heard ids_ok write_ok seen target).1.
Definition MaxRequest := 10 * Second.
Definition Lag := 5 * Second.
(** A commit settles; a later request for cancellation reads the outcome. *)
Definition committed : shared :=
  run_effects 20 1 (acquire 1 APPROVED 0 (script true true true APPROVED) (load 1 PENDING APPROVED (initial 0))).
(** The records of a commit cannot be built; the transaction is cancelled right after. *)
Definition unrecorded : shared :=
  run_effects 20 1 (acquire 1 APPROVED 0 (script true false true APPROVED) (load 1 PENDING APPROVED (initial 0))).
Definition settled_twice : shared :=
  run_effects 20 2 (acquire 2 CANCELED 0 (script true true true CANCELED) (load 2 PENDING CANCELED unrecorded)).
(** The reply of the balances is lost; the transaction is cancelled right after. *)
Definition unheard : shared :=
  run_effects 20 1 (acquire 1 APPROVED 0 (script false true true APPROVED) (load 1 PENDING APPROVED (initial 0))).
Definition settled_again : shared :=
  run_effects 20 2 (acquire 2 CANCELED 0 (script true true true CANCELED) (load 2 PENDING CANCELED unheard)).
(** A commit cannot be stored; the transaction is cancelled when the lock has expired. *)
Definition unwritten : shared :=
  run_effects 20 1 (acquire 1 APPROVED 0 (script true true false APPROVED) (load 1 PENDING APPROVED (initial 0))).
Definition later : shared := mkShared LockTTL (sh_lock unwritten) (sh_settled unwritten) (sh_published unwritten) (sh_requests unwritten).
Definition settled_late : shared :=
  run_effects 20 2 (acquire 2 CANCELED LockTTL (script true true true CANCELED) (load 2 PENDING CANCELED later)).
End TransitionSample.

(** When the records of a commit cannot be built, the lock is deleted although the balances
    are settled: a cancellation right after settles them again. *)
Theorem failed_records_settle_twice :
  reachable TransitionSample.MaxRequest TransitionSample.Lag TransitionSample.any_script 0 TransitionSample.settled_twice ∧
  sh_settled TransitionSample.settled_twice = [APPROVED; CANCELED].
Proof.
  split; [|vm_compute; reflexivity].
  unfold TransitionSample.settled_twice. change 0 with (sh_now TransitionSample.unrecorded) at 2.
  apply reach_request; [|vm_compute; reflexivity|left; reflexivity|reflexivity|vm_compute; reflexivity|by exists true, true, true].
  apply (reach_request _ _ _ _ _ _ _ _ _ (initial 0)); [constructor|done|by left|done|done|by exists true, false, true].
Qed.

(** When the reply of the balances is lost, the handler takes the settlement for a failure and
    deletes the lock: a cancellation right after settles the balances again. *)
Theorem lost_reply_settles_twice :
  reachable TransitionSample.MaxRequest TransitionSample.Lag TransitionSample.any_script 0 TransitionSample.settled_again ∧
  sh_settled TransitionSample.settled_again = [APPROVED; CANCELED].
Proof.
  split; [|vm_compute; reflexivity].
  unfold TransitionSample.settled_again. change 0 with (sh_now TransitionSample.unheard) at 2.
  apply reach_request; [|vm_compute; reflexivity|left; reflexivity|reflexivity|vm_compute; reflexivity|by exists true, true, true].
  apply (reach_request _ _ _ _ _ _ _ _ _ (initial 0)); [constructor|done|by left|done|done|by exists false, true, true].
Qed.

(** When the outcome of a commit cannot be stored, the lock is kept, but only for its 300
    seconds: a cancellation after them settles the balances again. *)
Theorem failed_write_settles_twice :
  reachable TransitionSample.MaxRequest TransitionSample.Lag TransitionSample.any_script 0 TransitionSample.settled_late ∧
  sh_settled TransitionSample.settled_late = [APPROVED; CANCELED].
Proof.
  split; [|vm_compute; reflexivity].
  unfold TransitionSample.settled_late. change LockTTL with (sh_now TransitionSample.later).
  apply reach_request; [|vm_compute; reflexivity|left; reflexivity|reflexivity|vm_compute; reflexivity|by exists true, true, true].
  eapply reach_step; [|apply (step_tick _ _ _ TransitionSample.unwritten); [vm_compute; discriminate|]].
  - apply (reach_request _ _ _ _ _ _ _ _ _ (initial 0)); [constructor|done|by left|done|done|by exists true, true, false].
  - intros id r Hr Hu. exfalso.
    assert (sh_requests TransitionSample.unwritten = {[1%nat := Running 0 0 APPROVED []]}) as E by (vm_compute; reflexivity).
    rewrite E in Hr. apply lookup_singleton_Some in Hr as [_ <-]. by apply Hu.
Qed.

Lemma committed_reachable :
  reachable TransitionSample.MaxRequest TransitionSample.Lag
    (clean_script (DT := FixedText.text) (U := Numbered.lib) (C := Commons.lib)) 0 TransitionSample.committed.
Proof.
  apply (reach_request _ _ _ _ _ _ _ _ _ (initial 0)); [constructor|done|by left|done|done|].
  split_and!; [|apply (bool_decide_eq_true_1 _); vm_compute; reflexivity..].
  exists (1%nat : @uuid Numbered.lib), (2%nat : @uuid Numbered.lib), (TransitionSample.answer true true true), (TransitionSample.tran PENDING). done.
Qed.

Lemma transition_settles_once_witness :
  sh_settled TransitionSample.committed = [APPROVED] ∧ is_Some (sh_published TransitionSample.committed).
Proof.
  assert (is_Some (sh_published TransitionSample.committed)) as [[x w] E] by (eexists; vm_compute; reflexivity).
  assert (x = APPROVED) as -> by (vm_compute in E; congruence).
  split; [|by eexists].
  refine (proj2 (transition_settles_once TransitionSample.MaxRequest TransitionSample.Lag 0 _ _ _ _ committed_reachable) _ w E);
    vm_compute; [discriminate|discriminate|reflexivity].
Defined.
