(* ===== verification/AccountingRoutes.v ===== *)
(** * Accounting routes of a transaction

    src/components/ledger/internal/services/query/validate_accounting_routes.go: when the
    ledger validates routes, every leg of a transaction names an operation route, and the
    routes named must be those that the transaction route configures for the action.
    src/pkg/mmodel/transaction-route.go turns the stored route into the lookup tables the
    check works on ([ToCache]).

    Go visits maps in any order.  Where that decides which of several offending entries an
    error mentions, the error carries no entry here. *)

From Stdlib Require Import ZArith Lia.
From stdpp Require Import base gmap strings list sets fin_sets.
From S2P Require Import Prelude Decimals GoStrings Transaction BalanceOps MBalance SendValidation CacheKeys.
From S2P Require Import BalancePlan GoTime OperationRecords.
Local Open Scope string_scope.
Local Open Scope list_scope.
Local Open Scope Z_scope.

(** ** Routes *)

Inductive RouteError :=
  | ErrNoRoutesForAction | ErrAccountingRouteNotFound | ErrAccountingRouteCountMismatch | ErrMissingCounterpart
  | ErrInvalidTransactionRouteID | ErrTransactionRouteNotInformed | ErrDirectionRouteMismatch
  | ErrInvalidOperationRouteType | ErrCorruptedAccountRule | ErrAccountingAliasValidationFailed
  | ErrAccountingAccountTypeValidationFailed | ErrOverdraftRouteNotConfigured | ErrDatabaseItemNotFound
  | RouteCallFailed (e : string).

#[export] Instance RouteError_eq_dec : EqDecision RouteError.
Proof. solve_decision. Defined.

Definition OperationRouteTypeSource := "source".
Definition OperationRouteTypeDestination := "destination".
Definition OperationRouteTypeBidirectional := "bidirectional".
Definition AccountRuleTypeAlias := "alias".
Definition AccountRuleTypeAccountType := "account_type".

(** The actions for which there are entries. *)
Definition AllActions : list Action :=
  [ActionDirect; ActionHold; ActionCommit; ActionCancel; ActionRevert; ActionOverdraft; ActionBlock; ActionUnblock].
Definition AccountingEntries_Actions (entries : option AccountingEntries) : list Action :=
  match entries with
  | None => []
  | Some es => filter (λ a, is_Some (entry_of es a)) AllActions
  end.

Section RouteData.
Context {U : UuidLib}.

Record AccountRule := mkAccountRule { rule_RuleType : string; rule_ValidIf : option ValidIf }.
Record OperationRoute := mkOperationRoute {
  opr_ID : uuid; opr_OrganizationID : uuid; opr_LedgerID : uuid; opr_Title : string; opr_Description : string;
  opr_Code : string; opr_OperationType : string; opr_AccountingEntries : option AccountingEntries;
  opr_Account : option AccountRule; opr_CreatedAt : Time; opr_UpdatedAt : Time; opr_DeletedAt : option Time }.
Record TransactionRoute := mkTransactionRoute {
  tro_ID : uuid; tro_OrganizationID : uuid; tro_LedgerID : uuid; tro_Title : string; tro_Description : string;
  tro_OperationRoutes : list OperationRoute; tro_CreatedAt : Time; tro_UpdatedAt : Time; tro_DeletedAt : option Time }.

Definition route_data (r : OperationRoute) : OperationRouteCache :=
  mkRouteCache ((λ a, mkAccountCache (rule_RuleType a) (rule_ValidIf a)) <$> opr_Account r) (opr_OperationType r)
    (opr_Code r) (opr_Description r) (opr_AccountingEntries r).

Definition emptyActionCache : ActionRouteCache := mkActionCache ∅ ∅ ∅.

(** One turn of the inner loop: the route under one action. *)
Definition add_route (r : OperationRoute) (cache : TransactionRouteCache) (action : Action) : TransactionRouteCache :=
  let id := uuid_String (opr_ID r) in
  let ac := default emptyActionCache (cache action) in
  let put ac' := λ a, if bool_decide (a = action) then Some ac' else cache a in
  if bool_decide (opr_OperationType r = OperationRouteTypeSource)
  then put (mkActionCache (<[id := route_data r]> (arc_Source ac)) (arc_Destination ac) (arc_Bidirectional ac))
  else if bool_decide (opr_OperationType r = OperationRouteTypeDestination)
  then put (mkActionCache (arc_Source ac) (<[id := route_data r]> (arc_Destination ac)) (arc_Bidirectional ac))
  else if bool_decide (opr_OperationType r = OperationRouteTypeBidirectional)
  then put (mkActionCache (arc_Source ac) (arc_Destination ac) (<[id := route_data r]> (arc_Bidirectional ac)))
  else cache.

(** [TransactionRoute.ToCache] *)
Definition routes_cache (routes : list OperationRoute) : TransactionRouteCache :=
  foldl (λ cache r, foldl (add_route r) cache (AccountingEntries_Actions (opr_AccountingEntries r))) (λ _, None) routes.
Definition TransactionRoute_ToCache (tr : TransactionRoute) : TransactionRouteCache :=
  routes_cache (tro_OperationRoutes tr).

End RouteData.

(** ** The check *)

Section Check.
Context {D : DecimalLib} {U : UuidLib} {P : UuidParse} {C : LibCommons}.

(** [strings.ToLower] and [strings.ToUpper] on the texts the types stand for. *)
Definition Direction_lower (d : Direction) : Direction :=
  match d with
  | DirectionOther s =>
      if bool_decide (strings_ToLower s = "debit") then DirectionDebit
      else if bool_decide (strings_ToLower s = "credit") then DirectionCredit else d
  | _ => d
  end.
Definition OpType_upper (o : OpType) : OpType :=
  match o with
  | OpOther s =>
      if bool_decide (strings_ToUpper s = "ON_HOLD") then ONHOLD
      else if bool_decide (strings_ToUpper s = "RELEASE") then RELEASE else o
  | _ => o
  end.
Definition TxStatus_upper (st : TxStatus) : TxStatus :=
  match st with
  | StatusOther s => if bool_decide (strings_ToUpper s = "CANCELED") then CANCELED else st
  | _ => st
  end.

Record actionRoutesResult := mkActionRoutes {
  ar_source : gmap string OperationRouteCache; ar_destination : gmap string OperationRouteCache;
  ar_bidirectional : gmap string OperationRouteCache; ar_isSourceOnly : bool }.

Definition resolveActionRoutes (cache : TransactionRouteCache) (action : Action) : result RouteError actionRoutesResult :=
  match cache action with
  | None => Err ErrNoRoutesForAction
  | Some ac =>
      let destination :=
        if bool_decide (action = ActionHold)
        then match cache ActionCommit with Some commit => arc_Destination commit | None => arc_Destination ac end
        else arc_Destination ac in
      Ok (mkActionRoutes (arc_Source ac) destination (arc_Bidirectional ac) (bool_decide (action = ActionCancel)))
  end.

Definition resolveTransactionRouteID (validate : Responses) : result RouteError uuid :=
  let parse s := match uuid_Parse s with Some id => Ok id | None => Err ErrInvalidTransactionRouteID end in
  let fallback := if IsNilOrEmpty (resp_TransactionRoute validate) then Err ErrTransactionRouteNotInformed
                  else parse (resp_TransactionRoute validate) in
  match resp_TransactionRouteID validate with
  | Some s => if IsNilOrEmpty s then fallback else parse s
  | None => fallback
  end.

Definition validateOperationRouteIDs (validate : Responses) (isSourceOnly : bool) : result RouteError unit :=
  if bool_decide (map_Exists (λ _ routeID, routeID = "") (resp_OperationRoutesFrom validate))
  then Err ErrAccountingRouteNotFound
  else if isSourceOnly then Ok tt
  else if bool_decide (map_Exists (λ _ routeID, routeID = "") (resp_OperationRoutesTo validate))
  then Err ErrAccountingRouteNotFound else Ok tt.

Definition uniqueValues (m : gmap string string) : nat :=
  if (size m =? 0)%nat then 0%nat else if (size m =? 1)%nat then 1%nat else size (map_img m : gset string).

(** One turn of the first loop of [validateCounterparts]: whether a route has a debit and a
    credit. *)
Definition note_direction (routeMap : gmap string string) (dirs : gmap string (bool * bool)) (op : BalanceOperation)
    : gmap string (bool * bool) :=
  match routeMap !! bo_Alias op with
  | None => dirs
  | Some routeID =>
      let flags := default (false, false) (dirs !! routeID) in
      <[routeID := match Direction_lower (amt_Direction (bo_Amount op)) with
                   | DirectionDebit => (true, flags.2)
                   | DirectionCredit => (flags.1, true)
                   | _ => flags
                   end]> dirs
  end.

Definition validateCounterparts (operations : list BalanceOperation) (routeMap : gmap string string) : result RouteError unit :=
  let routeDirections := foldl (note_direction routeMap) ∅ operations in
  if bool_decide (map_Exists (λ _ flags, negb flags.1 || negb flags.2 = true) routeDirections)
  then Err ErrMissingCounterpart else Ok tt.

Definition validateRouteCountAndCounterparts (validate : Responses) (routes : actionRoutesResult)
    (operations : list BalanceOperation) : result RouteError unit :=
  let from := resp_OperationRoutesFrom validate in
  let to := resp_OperationRoutesTo validate in
  let uniqueFromCount := uniqueValues from in
  let uniqueToCount := uniqueValues to in
  let sourceCount := size (ar_source routes) in
  let destinationCount := size (ar_destination routes) in
  let bidirectionalCount := size (ar_bidirectional routes) in
  let bidirectionalFromRoutes : gset string := filter (λ r, is_Some (ar_bidirectional routes !! r)) (map_img from) in
  let shared : gset string := filter (.∈ bidirectionalFromRoutes) (map_img to) in
  let totalCacheRoutes := Z.of_nat sourceCount + Z.of_nat destinationCount + Z.of_nat bidirectionalCount in
  let totalUsedRoutes := Z.of_nat uniqueFromCount + Z.of_nat uniqueToCount - Z.of_nat (size shared) in
  if negb (totalUsedRoutes =? totalCacheRoutes) || (uniqueFromCount <? sourceCount)%nat || (uniqueToCount <? destinationCount)%nat
  then Err ErrAccountingRouteCountMismatch
  else
    let mergedRouteMap := filter (λ kv, kv.2 ∈ shared) to ∪ filter (λ kv, kv.2 ∈ shared) from in
    if (0 <? size mergedRouteMap)%nat then validateCounterparts operations mergedRouteMap else Ok tt.

Definition validateDirectionRouteMatch (operation : BalanceOperation) (rc : OperationRouteCache) : result RouteError unit :=
  if bool_decide (mb_Key (bo_Balance operation) = OverdraftBalanceKey) then Ok tt else
  let amount := bo_Amount operation in
  match OpType_upper (amt_Operation amount) with
  | ONHOLD | RELEASE => Ok tt
  | _ =>
      if bool_decide (TxStatus_upper (amt_TransactionType amount) = CANCELED) && amt_RouteValidationEnabled amount then Ok tt else
      let direction := Direction_lower (amt_Direction amount) in
      let opType := strings_ToLower (orc_OperationType rc) in
      if bool_decide (opType = OperationRouteTypeSource)
      then if bool_decide (direction = DirectionDebit) then Ok tt else Err ErrDirectionRouteMismatch
      else if bool_decide (opType = OperationRouteTypeDestination)
      then if bool_decide (direction = DirectionCredit) then Ok tt else Err ErrDirectionRouteMismatch
      else if bool_decide (opType = OperationRouteTypeBidirectional) then Ok tt
      else Err ErrInvalidOperationRouteType
  end.

Definition extractStringSlice (value : option ValidIf) : option (list string) :=
  match value with
  | Some (ValidIfStrings l) => Some l
  | Some (ValidIfAnys l) => mapM id l
  | _ => None
  end.

Definition validateSingleOperationRule (op : BalanceOperation) (account : AccountCache) : result RouteError unit :=
  if bool_decide (acc_RuleType account = AccountRuleTypeAlias) then
    match acc_ValidIf account with
    | Some (ValidIfString expected) =>
        if bool_decide (SplitAlias (bo_Alias op) = expected) then Ok tt else Err ErrAccountingAliasValidationFailed
    | _ => Err ErrCorruptedAccountRule
    end
  else if bool_decide (acc_RuleType account = AccountRuleTypeAccountType) then
    match extractStringSlice (acc_ValidIf account) with
    | None => Err ErrCorruptedAccountRule
    | Some allowed => if bool_decide (mb_AccountType (bo_Balance op) ∈ allowed) then Ok tt
                      else Err ErrAccountingAccountTypeValidationFailed
    end
  else Err ErrCorruptedAccountRule.

(** The side and the route of an operation; operations of neither side are skipped. *)
Definition operation_route (validate : Responses) (operation : BalanceOperation) : option (bool * string) :=
  let alias := bo_Alias operation in
  if bool_decide (is_Some (resp_From validate !! alias))
  then Some (true, default "" (resp_OperationRoutesFrom validate !! alias))
  else if bool_decide (is_Some (resp_To validate !! alias))
  then Some (false, default "" (resp_OperationRoutesTo validate !! alias))
  else None.

Definition find_rule (routes : actionRoutesResult) (isSource : bool) (routeID : string) : option OperationRouteCache :=
  match (if isSource then ar_source routes else ar_destination routes) !! routeID with
  | Some rc => Some rc
  | None => ar_bidirectional routes !! routeID
  end.

Definition validateOperation (routes : actionRoutesResult) (validate : Responses) (operation : BalanceOperation)
    : result RouteError unit :=
  match operation_route validate operation with
  | None => Ok tt
  | Some (isSource, routeID) =>
      match find_rule routes isSource routeID with
      | None => Err ErrAccountingRouteNotFound
      | Some rule =>
          do! validateDirectionRouteMatch operation rule;;
          match orc_Account rule with
          | None => Ok tt
          | Some account => validateSingleOperationRule operation account
          end
      end
  end.

Definition validateAccountRules (routes : actionRoutesResult) (validate : Responses) (operations : list BalanceOperation)
    : result RouteError unit :=
  for_each (validateOperation routes validate) operations.

Definition overdraftRubricConfigured (cache : TransactionRouteCache) (routeID : string) (direction : Direction) : bool :=
  match cache ActionOverdraft with
  | None => false
  | Some ac =>
      match FindRoute ac routeID with
      | None => false
      | Some rc =>
          match orc_AccountingEntries rc with
          | None => false
          | Some es =>
              match ae_Overdraft es with
              | None => false
              | Some entry =>
                  let rubric := match Direction_lower direction with
                                | DirectionDebit => ae_Debit entry
                                | DirectionCredit => ae_Credit entry
                                | _ => None
                                end in
                  match rubric with Some r => negb (bool_decide (rb_Code r = "")) | None => false end
              end
          end
      end
  end.

Definition companion_route (validate : Responses) (alias : string) : string :=
  let routeID := default "" (resp_OperationRoutesFrom validate !! alias) in
  if bool_decide (routeID = "") then default "" (resp_OperationRoutesTo validate !! alias) else routeID.

Definition validateOverdraftRoutes (cache : TransactionRouteCache) (validate : Responses)
    (operations : list BalanceOperation) : result RouteError unit :=
  for_each (λ op,
    if negb (bool_decide (mb_Key (bo_Balance op) = OverdraftBalanceKey)) then Ok tt
    else if overdraftRubricConfigured cache (companion_route validate (bo_Alias op)) (amt_Direction (bo_Amount op))
    then Ok tt else Err ErrOverdraftRouteNotConfigured) operations.

(** The source side alone, for actions the destination takes no part in. *)
Definition source_side (validate : Responses) : Responses :=
  mkResponses dzero "" (resp_From validate) ∅ [] [] [] false "" None (resp_OperationRoutesFrom validate) ∅.

(** [settings] and [lookup] are [GetParsedLedgerSettings] and
    [GetOrCreateTransactionRouteCache]. *)
Definition ValidateAccountingRules (settings : result RouteError bool)
    (lookup : uuid → result RouteError TransactionRouteCache) (operations : list BalanceOperation)
    (validate : Responses) (action : Action) : result RouteError (option TransactionRouteCache) :=
  let! validateRoutes := settings in
  if negb validateRoutes then Ok None else
  let! transactionRouteID := resolveTransactionRouteID validate in
  let! cache := lookup transactionRouteID in
  let! routes := resolveActionRoutes cache action in
  do! validateOperationRouteIDs validate (ar_isSourceOnly routes);;
  do! (if ar_isSourceOnly routes then Ok tt else validateRouteCountAndCounterparts validate routes operations);;
  do! validateAccountRules routes (if ar_isSourceOnly routes then source_side validate else validate) operations;;
  do! validateOverdraftRoutes cache validate operations;;
  Ok (Some cache).

End Check.

(** ** The lookup tables *)

Inductive side := Src | Dst | Bid.

#[export] Instance side_eq_dec : EqDecision side.
Proof. solve_decision. Defined.

Definition side_of (operationType : string) : option side :=
  if bool_decide (operationType = OperationRouteTypeSource) then Some Src
  else if bool_decide (operationType = OperationRouteTypeDestination) then Some Dst
  else if bool_decide (operationType = OperationRouteTypeBidirectional) then Some Bid else None.

Definition arc_side (sd : side) (ac : ActionRouteCache) : gmap string OperationRouteCache :=
  match sd with Src => arc_Source ac | Dst => arc_Destination ac | Bid => arc_Bidirectional ac end.

(** The routes of one side under one action. *)
Definition side_lookup (cache : TransactionRouteCache) (a : Action) (sd : side) : gmap string OperationRouteCache :=
  arc_side sd (default emptyActionCache (cache a)).

Section Tables.
Context {U : UuidLib}.

Definition has_entry (r : OperationRoute) (a : Action) : Prop := a ∈ AccountingEntries_Actions (opr_AccountingEntries r).
Definition route_key (r : OperationRoute) : string := uuid_String (opr_ID r).

Lemma elem_of_Actions entries a :
  a ∈ AccountingEntries_Actions entries ↔ ∃ es, entries = Some es ∧ is_Some (entry_of es a).
Proof.
  destruct entries as [es|]; cbn -[filter AllActions]; [|split; [by intros ?%elem_of_nil|by intros (? & [=] & _)]].
  rewrite list_elem_of_filter. split; [intros [? _]; eauto|].
  intros (? & [= <-] & ?). split; [done|]. destruct a; unfold AllActions; set_solver.
Qed.

Lemma add_route_lookup r cache a a' sd rid :
  side_lookup (add_route r cache a) a' sd !! rid =
  if bool_decide (side_of (opr_OperationType r) = Some sd ∧ a' = a ∧ route_key r = rid) then Some (route_data r)
  else side_lookup cache a' sd !! rid.
Proof.
  unfold add_route, side_of, side_lookup, route_key.
  destruct (decide (a' = a)) as [->|Hne].
  - repeat case_bool_decide; cbn; repeat case_bool_decide; cbn; destruct_and?; simplify_eq; cbn;
      try destruct sd; cbn; try done; rewrite ?lookup_insert_eq; try done; rewrite lookup_insert_ne; try done; naive_solver.
  - rewrite (bool_decide_eq_false_2 (_ ∧ a' = a ∧ _)) by naive_solver.
    repeat case_bool_decide; cbn; try rewrite (bool_decide_eq_false_2 (a' = a)) by done; done.
Qed.

Lemma add_route_present r cache a a' :
  is_Some (add_route r cache a a') ↔ is_Some (cache a') ∨ (a' = a ∧ is_Some (side_of (opr_OperationType r))).
Proof.
  unfold add_route, side_of. destruct (decide (a' = a)) as [->|Hne];
    repeat case_bool_decide; cbn; try rewrite (bool_decide_eq_true_2 (a = a)) by done;
    try rewrite (bool_decide_eq_false_2 (a' = a)) by done; rewrite ?is_Some_alt; naive_solver.
Qed.

Lemma add_routes_lookup r l cache a sd rid :
  side_lookup (foldl (add_route r) cache l) a sd !! rid =
  if bool_decide (side_of (opr_OperationType r) = Some sd ∧ a ∈ l ∧ route_key r = rid) then Some (route_data r)
  else side_lookup cache a sd !! rid.
Proof.
  revert cache. induction l as [|b l IH]; intros cache; cbn.
  - rewrite bool_decide_eq_false_2; [done|]. set_solver.
  - rewrite IH, add_route_lookup. repeat case_bool_decide; try done; set_solver.
Qed.

Lemma add_routes_present r l cache a :
  is_Some (foldl (add_route r) cache l a) ↔ is_Some (cache a) ∨ (a ∈ l ∧ is_Some (side_of (opr_OperationType r))).
Proof.
  revert cache. induction l as [|b l IH]; intros cache; cbn; [set_solver|].
  rewrite IH, add_route_present. set_solver.
Qed.

(** With distinct identifiers, a table holds exactly the routes of its side that have an
    entry for the action. *)
Lemma routes_cache_lookup routes a sd rid rc (Hdup : NoDup (route_key <$> routes)) :
  side_lookup (routes_cache routes) a sd !! rid = Some rc ↔
  ∃ r, r ∈ routes ∧ side_of (opr_OperationType r) = Some sd ∧ has_entry r a ∧ route_key r = rid ∧ route_data r = rc.
Proof.
  unfold routes_cache. induction routes as [|r routes IH] using rev_ind.
  - cbn. unfold side_lookup. cbn. destruct sd; cbn; rewrite lookup_empty; set_solver.
  - rewrite foldl_snoc. rewrite fmap_app in Hdup. apply NoDup_app in Hdup as (Hd1 & Hd2 & _). cbn in *.
    rewrite add_routes_lookup. case_bool_decide as Hr.
    + destruct Hr as (Hs & Ha & Hk). split.
      * intros [= <-]. exists r. set_solver.
      * intros (r' & [Hin| ->%list_elem_of_singleton]%elem_of_app & _ & _ & Hk' & Hd); [|congruence].
        exfalso. apply (Hd2 (route_key r')); [by apply list_elem_of_fmap_2|set_solver].
    + rewrite IH by done. split.
      * intros (r' & ? & ?). exists r'. set_solver.
      * intros (r' & [Hin| ->%list_elem_of_singleton]%elem_of_app & Hrest); [by exists r'|].
        exfalso. apply Hr. destruct Hrest as (? & ? & ? & ?). done.
Qed.

Lemma routes_cache_present routes a :
  is_Some (routes_cache routes a) ↔ ∃ r, r ∈ routes ∧ has_entry r a ∧ is_Some (side_of (opr_OperationType r)).
Proof.
  unfold routes_cache. induction routes as [|r routes IH] using rev_ind.
  - cbn. split; [by intros []|set_solver].
  - rewrite foldl_snoc, add_routes_present, IH. unfold has_entry. split.
    + intros [(r' & ? & ?)|[? ?]]; [exists r'|exists r]; set_solver.
    + intros (r' & [Hin| ->%list_elem_of_singleton]%elem_of_app & ? & ?); [left; by exists r'|by right].
Qed.

End Tables.

(** ** Counting routes *)

Lemma uniqueValues_img m : uniqueValues m = size (map_img m : gset string).
Proof.
  unfold uniqueValues. destruct (size m =? 0)%nat eqn:E0.
  { apply Nat.eqb_eq, map_size_empty_inv in E0 as ->. by rewrite map_img_empty_L. }
  destruct (size m =? 1)%nat eqn:E1; [|done]. apply Nat.eqb_eq in E1.
  assert (size m ≠ 0)%nat as [k [x Hk]]%map_size_ne_0_lookup_1 by lia.
  assert (delete k m = ∅) as Ed by (apply map_size_empty_inv; rewrite map_size_delete, Hk; lia).
  rewrite <-(insert_delete_id m k x Hk), Ed, insert_empty. by rewrite map_img_singleton_L, size_singleton.
Qed.

(** If every used route is configured on its side, the counts agree exactly when every
    configured route is used. *)
Lemma count_exact (F T S D B : gset string) :
  S ## D → S ## B → D ## B → F ⊆ S ∪ B → T ⊆ D ∪ B →
  (size F + size T - size (F ∩ T ∩ B) = size S + size D + size B)%nat ↔ S ⊆ F ∧ D ⊆ T ∧ B ⊆ F ∪ T.
Proof.
  intros HSD HSB HDB HF HT. assert (F ∩ T ∩ B = F ∩ T) as -> by set_solver.
  assert (size F + size T - size (F ∩ T) = size (F ∪ T))%nat as ->.
  { pose proof (size_union_alt F T) as EU. rewrite EU. pose proof (size_union_alt (F ∩ T) (T ∖ F)) as E.
    replace (F ∩ T ∪ T ∖ F) with T in E by (apply set_eq; intros x; destruct (decide (x ∈ F)); set_solver).
    replace ((T ∖ F) ∖ (F ∩ T)) with (T ∖ F) in E by set_solver. lia. }
  assert (size S + size D + size B = size (S ∪ D ∪ B))%nat as ->.
  { pose proof (size_union (S ∪ D) B ltac:(set_solver)) as E1. pose proof (size_union S D HSD) as E2. lia. }
  split.
  - intros E. assert (F ∪ T = S ∪ D ∪ B) as HE by (apply set_subseteq_size_eq; [set_solver|lia]). set_solver.
  - intros (? & ? & ?). f_equal. set_solver.
Qed.

Section Counterparts.
Context {Dl : DecimalLib}.

Definition op_debit (op : BalanceOperation) : Prop := Direction_lower (amt_Direction (bo_Amount op)) = DirectionDebit.
Definition op_credit (op : BalanceOperation) : Prop := Direction_lower (amt_Direction (bo_Amount op)) = DirectionCredit.

Definition is_debit (op : BalanceOperation) : bool := bool_decide (op_debit op).
Definition is_credit (op : BalanceOperation) : bool := bool_decide (op_credit op).

Lemma directions_spec routeMap ops r :
  foldl (note_direction routeMap) ∅ ops !! r =
  match filter (λ op, routeMap !! bo_Alias op = Some r) ops with
  | [] => None
  | l => Some (existsb is_debit l, existsb is_credit l)
  end.
Proof.
  induction ops as [|op ops IH] using rev_ind; [done|].
  rewrite foldl_snoc, filter_app, filter_cons, filter_nil. unfold note_direction at 1.
  destruct (routeMap !! bo_Alias op) as [r'|] eqn:E; [|rewrite decide_False by done; by rewrite app_nil_r].
  destruct (decide (Some r' = Some r)) as [[= ->]|Hne]; [|rewrite lookup_insert_ne by congruence; by rewrite app_nil_r].
  rewrite lookup_insert_eq, IH. set (l := filter _ ops).
  transitivity (Some (existsb is_debit (l ++ [op]), existsb is_credit (l ++ [op]))); [|by destruct l].
  assert (is_debit op = bool_decide (Direction_lower (amt_Direction (bo_Amount op)) = DirectionDebit)) as Hd by done.
  assert (is_credit op = bool_decide (Direction_lower (amt_Direction (bo_Amount op)) = DirectionCredit)) as Hc by done.
  f_equal. rewrite !existsb_app. cbn [existsb]. rewrite !orb_false_r, Hd, Hc.
  destruct l as [|x l]; cbn [default fst snd existsb orb]; destruct (Direction_lower _);
    rewrite ?(bool_decide_eq_true_2 (_ = _)), ?(bool_decide_eq_false_2 (_ = _)) by done; cbn; rewrite ?orb_true_r, ?orb_false_r; done.
Qed.

Lemma validateCounterparts_ok routeMap ops :
  validateCounterparts ops routeMap = Ok tt ↔
  ∀ r, (∃ op, op ∈ ops ∧ routeMap !! bo_Alias op = Some r) →
    (∃ op, op ∈ ops ∧ routeMap !! bo_Alias op = Some r ∧ op_debit op) ∧
    (∃ op, op ∈ ops ∧ routeMap !! bo_Alias op = Some r ∧ op_credit op).
Proof.
  unfold validateCounterparts. case_bool_decide as He.
  - split; [discriminate|]. intros Hall. exfalso. destruct He as (r & flags & Hl & Hf).
    rewrite directions_spec in Hl. destruct (filter _ ops) as [|x l] eqn:El; [done|].
    assert (flags = (existsb is_debit (x :: l), existsb is_credit (x :: l))) as -> by congruence.
    assert (∀ op, op ∈ x :: l ↔ op ∈ ops ∧ routeMap !! bo_Alias op = Some r) as Hin.
    { intros op. rewrite <-El, list_elem_of_filter. tauto. }
    destruct (Hall r) as [(d & Hd & Hdr & Hdd) (c & Hc & Hcr & Hcc)].
    { exists x. rewrite <-Hin. set_solver. }
    assert (existsb is_debit (x :: l) = true) as E1.
    { apply existsb_exists. exists d. split; [by apply list_elem_of_In, Hin|by apply bool_decide_eq_true]. }
    assert (existsb is_credit (x :: l) = true) as E2.
    { apply existsb_exists. exists c. split; [by apply list_elem_of_In, Hin|by apply bool_decide_eq_true]. }
    cbn [fst snd] in Hf. by rewrite E1, E2 in Hf.
  - split; [intros _|done]. intros r (op & Hop & Hr).
    pose proof (directions_spec routeMap ops r) as E. destruct (filter _ ops) as [|x l] eqn:El.
    { exfalso. assert (op ∈ @nil BalanceOperation) as H by (rewrite <-El, list_elem_of_filter; done). by apply elem_of_nil in H. }
    assert (∀ op, op ∈ x :: l ↔ op ∈ ops ∧ routeMap !! bo_Alias op = Some r) as Hin.
    { intros op'. rewrite <-El, list_elem_of_filter. tauto. }
    destruct (existsb is_debit (x :: l)) eqn:E1;
      [|exfalso; apply He; do 2 eexists; split; [exact E|cbn -[existsb]; by rewrite E1]].
    destruct (existsb is_credit (x :: l)) eqn:E2;
      [|exfalso; apply He; do 2 eexists; split; [exact E|cbn -[existsb]; by rewrite E2, orb_true_r]].
    apply existsb_exists in E1 as (d & Hd%list_elem_of_In%Hin & Hdd%bool_decide_eq_true).
    apply existsb_exists in E2 as (c & Hc%list_elem_of_In%Hin & Hcc%bool_decide_eq_true). naive_solver.
Qed.

End Counterparts.

(** ** What the check enforces *)

Section Exact.
Context {Dl : DecimalLib} {U : UuidLib} {P : UuidParse} {C : LibCommons}.

(** A hold takes its destinations from the entries of the commit. *)
Definition table_action (routes : list OperationRoute) (a : Action) (sd : side) : Action :=
  match sd with
  | Dst => if bool_decide (a = ActionHold) && bool_decide (is_Some (routes_cache routes ActionCommit))
           then ActionCommit else a
  | _ => a
  end.

(** The routes of a transaction route that apply to an action, by side. *)
Definition configured (routes : list OperationRoute) (a : Action) (sd : side) (r : OperationRoute) : Prop :=
  r ∈ routes ∧ side_of (opr_OperationType r) = Some sd ∧ has_entry r (table_action routes a sd).

(** Holds and releases, the reversal of a cancellation and overdraft companions have no
    direction to check. *)
Definition direction_exempt (op : BalanceOperation) : Prop :=
  mb_Key (bo_Balance op) = OverdraftBalanceKey ∨
  OpType_upper (amt_Operation (bo_Amount op)) = ONHOLD ∨ OpType_upper (amt_Operation (bo_Amount op)) = RELEASE ∨
  (TxStatus_upper (amt_TransactionType (bo_Amount op)) = CANCELED ∧ amt_RouteValidationEnabled (bo_Amount op) = true).

Definition direction_allowed (sd : side) (op : BalanceOperation) : Prop :=
  direction_exempt op ∨ match sd with Src => op_debit op | Dst => op_credit op | Bid => True end.

Definition account_allowed (account : option AccountRule) (op : BalanceOperation) : Prop :=
  match account with
  | None => True
  | Some rule =>
      (rule_RuleType rule = AccountRuleTypeAlias ∧ rule_ValidIf rule = Some (ValidIfString (SplitAlias (bo_Alias op)))) ∨
      (rule_RuleType rule = AccountRuleTypeAccountType ∧
       ∃ allowed, extractStringSlice (rule_ValidIf rule) = Some allowed ∧ mb_AccountType (bo_Balance op) ∈ allowed)
  end.

(** The route a leg names is configured on its side or on both, and admits the leg. *)
Definition leg_allowed (routes : list OperationRoute) (a : Action) (v : Responses) (op : BalanceOperation) : Prop :=
  ∀ isSource rid, operation_route v op = Some (isSource, rid) →
  ∃ sd r, configured routes a sd r ∧ (sd = (if isSource then Src else Dst) ∨ sd = Bid) ∧ route_key r = rid ∧
    direction_allowed sd op ∧ account_allowed (opr_Account r) op.

Definition named_from (v : Responses) (rid : string) : Prop := ∃ alias, resp_OperationRoutesFrom v !! alias = Some rid.
Definition named_to (v : Responses) (rid : string) : Prop := ∃ alias, resp_OperationRoutesTo v !! alias = Some rid.
Definition names (v : Responses) (op : BalanceOperation) (rid : string) : Prop :=
  resp_OperationRoutesFrom v !! bo_Alias op = Some rid ∨ resp_OperationRoutesTo v !! bo_Alias op = Some rid.

(** The rubric of an overdraft entry for a direction. *)
Definition rubric_configured (r : OperationRoute) (d : Direction) : Prop :=
  ∃ es entry rubric, opr_AccountingEntries r = Some es ∧ ae_Overdraft es = Some entry ∧ rb_Code rubric ≠ "" ∧
    ((Direction_lower d = DirectionDebit ∧ ae_Debit entry = Some rubric) ∨
     (Direction_lower d = DirectionCredit ∧ ae_Credit entry = Some rubric)).

Record routes_respected (routes : list OperationRoute) (a : Action) (v : Responses) (ops : list BalanceOperation) : Prop := {
  rr_action : ∃ r, r ∈ routes ∧ has_entry r a ∧ is_Some (side_of (opr_OperationType r));
  rr_named : ¬ named_from v "" ∧ ¬ named_to v "";
  rr_legs : ∀ op, op ∈ ops → leg_allowed routes a v op;
  rr_used : ∀ sd r, configured routes a sd r →
    (sd ≠ Dst ∧ named_from v (route_key r)) ∨ (sd ≠ Src ∧ named_to v (route_key r));
  rr_counterparts : ∀ r, configured routes a Bid r → named_from v (route_key r) → named_to v (route_key r) →
    (∃ op, op ∈ ops ∧ names v op (route_key r) ∧ op_debit op) ∧
    (∃ op, op ∈ ops ∧ names v op (route_key r) ∧ op_credit op);
  rr_companions : ∀ op, op ∈ ops → mb_Key (bo_Balance op) = OverdraftBalanceKey →
    ∃ r, r ∈ routes ∧ is_Some (side_of (opr_OperationType r)) ∧ route_key r = companion_route v (bo_Alias op) ∧
      rubric_configured r (amt_Direction (bo_Amount op)) }.

(** The legs of the response are the operations to check. *)
Record legs_covered (v : Responses) (ops : list BalanceOperation) : Prop := {
  lc_from : ∀ alias, is_Some (resp_OperationRoutesFrom v !! alias) →
    is_Some (resp_From v !! alias) ∧ ∃ op, op ∈ ops ∧ bo_Alias op = alias;
  lc_to : ∀ alias, is_Some (resp_OperationRoutesTo v !! alias) →
    is_Some (resp_To v !! alias) ∧ resp_From v !! alias = None ∧ ∃ op, op ∈ ops ∧ bo_Alias op = alias }.

Definition ar_side (sd : side) (ar : actionRoutesResult) : gmap string OperationRouteCache :=
  match sd with Src => ar_source ar | Dst => ar_destination ar | Bid => ar_bidirectional ar end.

(** The resolved tables are those of the configured routes. *)
Definition resolved (routes : list OperationRoute) (a : Action) (ar : actionRoutesResult) : Prop :=
  ∀ sd rid rc, ar_side sd ar !! rid = Some rc ↔ ∃ r, configured routes a sd r ∧ route_key r = rid ∧ route_data r = rc.

Lemma resolve_spec routes a (Hdup : NoDup (route_key <$> routes)) :
  match resolveActionRoutes (routes_cache routes) a with
  | Ok ar => (∃ r, r ∈ routes ∧ has_entry r a ∧ is_Some (side_of (opr_OperationType r))) ∧
             ar_isSourceOnly ar = bool_decide (a = ActionCancel) ∧ resolved routes a ar
  | Err e => e = ErrNoRoutesForAction ∧ ¬ ∃ r, r ∈ routes ∧ has_entry r a ∧ is_Some (side_of (opr_OperationType r))
  end.
Proof.
  pose proof (routes_cache_present routes a) as Hp. unfold resolveActionRoutes.
  destruct (routes_cache routes a) as [ac|] eqn:Ea; [|split; [done|by intros []%Hp]].
  split_and!; [by apply Hp|done|]. intros sd rid rc. unfold configured.
  transitivity (side_lookup (routes_cache routes) (table_action routes a sd) sd !! rid = Some rc);
    [|rewrite routes_cache_lookup by done; naive_solver].
  unfold side_lookup, table_action. destruct sd; cbn; try by rewrite Ea.
  case_bool_decide as Hh; cbn; [|by rewrite Ea]. subst a.
  destruct (routes_cache routes ActionCommit) as [commit|] eqn:Ec; cbn; [by rewrite Ec|by rewrite Ea].
Qed.

Lemma key_unique routes r r' (Hdup : NoDup (route_key <$> routes)) :
  r ∈ routes → r' ∈ routes → route_key r = route_key r' → r = r'.
Proof.
  intros (i & Hi)%list_elem_of_lookup (j & Hj)%list_elem_of_lookup E.
  assert (i = j) as ->; [|congruence].
  eapply NoDup_lookup; [exact Hdup|..]; rewrite list_lookup_fmap; [by rewrite Hi|rewrite Hj; cbn; by rewrite E].
Qed.

Lemma sides_disjoint routes a ar sd sd' (Hdup : NoDup (route_key <$> routes)) : resolved routes a ar → sd ≠ sd' →
  (dom (ar_side sd ar) : gset string) ## dom (ar_side sd' ar).
Proof.
  intros Hr Hne rid [rc Hrc]%elem_of_dom [rc' Hrc']%elem_of_dom.
  apply Hr in Hrc as (r & (Hin & Hs & _) & Hk & _). apply Hr in Hrc' as (r' & (Hin' & Hs' & _) & Hk' & _).
  assert (r = r') as -> by (eapply key_unique; eauto; congruence). congruence.
Qed.

Lemma type_cases {A} t sd (x y z w : A) : side_of t = Some sd →
  (if bool_decide (strings_ToLower t = OperationRouteTypeSource) then x
   else if bool_decide (strings_ToLower t = OperationRouteTypeDestination) then y
   else if bool_decide (strings_ToLower t = OperationRouteTypeBidirectional) then z else w) =
  match sd with Src => x | Dst => y | Bid => z end.
Proof. unfold side_of. repeat case_bool_decide; intros [= <-]; simplify_eq; done. Qed.

Lemma direction_ok sd op rc : side_of (orc_OperationType rc) = Some sd →
  validateDirectionRouteMatch op rc = Ok tt ↔ direction_allowed sd op.
Proof.
  intros Hs. unfold validateDirectionRouteMatch, direction_allowed, direction_exempt.
  rewrite (type_cases _ _ _ _ _ _ Hs). case_bool_decide as Hk; [tauto|].
  set (st := TxStatus_upper _). set (en := amt_RouteValidationEnabled _).
  assert ((if bool_decide (st = CANCELED) && en then Ok tt else
           match sd with
           | Src => if bool_decide (Direction_lower (amt_Direction (bo_Amount op)) = DirectionDebit) then Ok tt else Err ErrDirectionRouteMismatch
           | Dst => if bool_decide (Direction_lower (amt_Direction (bo_Amount op)) = DirectionCredit) then Ok tt else Err ErrDirectionRouteMismatch
           | Bid => Ok tt
           end) = Ok tt ↔ (st = CANCELED ∧ en = true) ∨ match sd with Src => op_debit op | Dst => op_credit op | Bid => True end) as H.
  { unfold op_debit, op_credit. destruct en; case_bool_decide; cbn; destruct sd; try case_bool_decide; naive_solver. }
  destruct (OpType_upper _); try tauto; rewrite H; intuition discriminate.
Qed.

Lemma account_ok r op :
  match orc_Account (route_data r) with None => Ok tt | Some account => validateSingleOperationRule op account end = Ok tt ↔
  account_allowed (opr_Account r) op.
Proof.
  unfold route_data, account_allowed. cbn. destruct (opr_Account r) as [[ty val]|]; cbn; [|done].
  unfold validateSingleOperationRule. cbn. case_bool_decide as Ha.
  - subst ty. destruct val as [[]|]; try (split; [done|intros [[_ [=]]|[[=] _]]]).
    case_bool_decide as He; [split; [|done]; intros _; left; by rewrite He|].
    split; [done|]. intros [[_ [= ->]]|[[=] _]]. done.
  - case_bool_decide as Ht; [|split; [done|naive_solver]]. subst ty.
    destruct (extractStringSlice val) as [allowed|]; [|split; [done|naive_solver]].
    case_bool_decide; naive_solver.
Qed.

Lemma find_rule_spec routes a ar isSource rid (Hdup : NoDup (route_key <$> routes)) : resolved routes a ar → ∀ rc,
  find_rule ar isSource rid = Some rc ↔
  ∃ sd r, configured routes a sd r ∧ (sd = (if isSource then Src else Dst) ∨ sd = Bid) ∧ route_key r = rid ∧ route_data r = rc.
Proof.
  intros Hr rc. unfold find_rule. set (sd0 := if isSource then Src else Dst).
  replace ((if isSource then ar_source ar else ar_destination ar) !! rid) with (ar_side sd0 ar !! rid) by (by subst sd0; destruct isSource).
  destruct (ar_side sd0 ar !! rid) as [rc0|] eqn:E.
  - pose proof E as E'. apply Hr in E as (r0 & Hc0 & Hk0 & Hd0). split.
    + intros [= <-]. exists sd0, r0. naive_solver.
    + intros (sd & r & Hc & _ & Hk & <-). assert (r = r0) as -> by (eapply key_unique; [done|apply Hc|apply Hc0|congruence]). by rewrite Hd0.
  - split.
    + intros (r & Hc & Hk & Hd)%(Hr Bid). exists Bid, r. naive_solver.
    + intros (sd & r & Hc & [-> | ->] & Hk & Hd); [|apply (Hr Bid); by exists r].
      assert (ar_side sd0 ar !! rid = Some rc) as E' by (apply Hr; by exists r). congruence.
Qed.

Lemma leg_ok routes a ar v op (Hdup : NoDup (route_key <$> routes)) : resolved routes a ar →
  validateOperation ar v op = Ok tt ↔ leg_allowed routes a v op.
Proof.
  intros Hr. unfold validateOperation, leg_allowed. destruct (operation_route v op) as [[isSource rid]|]; [|split; [by intros _ ?? [=]|done]].
  destruct (find_rule ar isSource rid) as [rc|] eqn:Ef.
  - pose proof (proj1 (find_rule_spec _ _ _ _ _ Hdup Hr _) Ef) as (sd & r & Hc & Hsd & Hk & <-). clear Ef.
    rewrite rbind_Ok. split.
    + intros ([] & Hd & Ha). intros ?? [= <- <-]. exists sd, r. split_and!; try done; [|by apply account_ok].
      destruct Hc as (_ & Hs & _). by apply (direction_ok sd op (route_data r) Hs).
    + intros Hall. destruct (Hall _ _ eq_refl) as (sd' & r' & Hc' & Hsd' & Hk' & Hd & Ha).
      assert (r' = r) as -> by (eapply key_unique; [done|apply Hc'|apply Hc|congruence]).
      exists tt. split; [|by apply account_ok]. destruct Hc' as (_ & Hs & _). by apply (direction_ok sd' op (route_data r) Hs).
  - split; [done|]. intros Hall. destruct (Hall _ _ eq_refl) as (sd & r & Hc & Hsd & Hk & _).
    assert (find_rule ar isSource rid = Some (route_data r)) as E; [|congruence].
    apply (find_rule_spec _ _ _ _ _ Hdup Hr). eauto 10.
Qed.

Lemma ids_ok v only : validateOperationRouteIDs v only = Ok tt ↔ ¬ named_from v "" ∧ (only = false → ¬ named_to v "").
Proof.
  unfold validateOperationRouteIDs, named_from, named_to.
  assert (∀ m : gmap string string, map_Exists (λ _ x, x = "") m ↔ ∃ k, m !! k = Some "") as H.
  { intros m. unfold map_Exists. naive_solver. }
  pose proof (H (resp_OperationRoutesFrom v)) as HF. pose proof (H (resp_OperationRoutesTo v)) as HT.
  destruct only; repeat case_bool_decide; naive_solver.
Qed.

(** Legs that name configured routes. *)
Lemma legs_contained routes a ar v ops (Hdup : NoDup (route_key <$> routes)) : resolved routes a ar → legs_covered v ops →
  (∀ op, op ∈ ops → leg_allowed routes a v op) →
  (map_img (resp_OperationRoutesFrom v) : gset string) ⊆ dom (ar_source ar) ∪ dom (ar_bidirectional ar) ∧
  (map_img (resp_OperationRoutesTo v) : gset string) ⊆ dom (ar_destination ar) ∪ dom (ar_bidirectional ar).
Proof.
  intros Hr [Hf Ht] Hl. split; intros rid (alias & Ha)%elem_of_map_img.
  - destruct (Hf alias ltac:(eauto)) as (Hin & op & Hop & <-).
    destruct (Hl op Hop true rid) as (sd & r & Hc & Hsd & Hk & _).
    { unfold operation_route. rewrite bool_decide_eq_true_2, Ha by done. done. }
    rewrite elem_of_union, !elem_of_dom. destruct Hsd as [-> | ->]; [left|right]; eexists;
      [apply (Hr Src)|apply (Hr Bid)]; by exists r.
  - destruct (Ht alias ltac:(eauto)) as (Hin & Hn & op & Hop & <-).
    destruct (Hl op Hop false rid) as (sd & r & Hc & Hsd & Hk & _).
    { unfold operation_route. rewrite bool_decide_eq_false_2 by (rewrite Hn; by intros []). by rewrite bool_decide_eq_true_2, Ha by done. }
    rewrite elem_of_union, !elem_of_dom. destruct Hsd as [-> | ->]; [left|right]; eexists;
      [apply (Hr Dst)|apply (Hr Bid)]; by exists r.
Qed.

Lemma dom_configured routes a ar sd rid : resolved routes a ar →
  rid ∈ (dom (ar_side sd ar) : gset string) ↔ ∃ r, configured routes a sd r ∧ route_key r = rid.
Proof.
  intros Hr. rewrite elem_of_dom. split; [intros [rc (r & ? & ? & _)%Hr]; eauto|].
  intros (r & ? & ?). eexists. apply Hr. eauto.
Qed.

Lemma used_iff routes a ar v (Hr : resolved routes a ar) :
  let F := map_img (resp_OperationRoutesFrom v) : gset string in
  let T := map_img (resp_OperationRoutesTo v) : gset string in
  (dom (ar_source ar) ⊆ F ∧ dom (ar_destination ar) ⊆ T ∧ dom (ar_bidirectional ar) ⊆ F ∪ T) ↔
  ∀ sd r, configured routes a sd r → (sd ≠ Dst ∧ named_from v (route_key r)) ∨ (sd ≠ Src ∧ named_to v (route_key r)).
Proof.
  intros F T.
  assert (∀ rid, rid ∈ F ↔ named_from v rid) as HF by (intros; apply elem_of_map_img).
  assert (∀ rid, rid ∈ T ↔ named_to v rid) as HT by (intros; apply elem_of_map_img).
  assert (∀ sd r, configured routes a sd r → route_key r ∈ (dom (ar_side sd ar) : gset string)) as Hd
    by (intros; eapply dom_configured; eauto).
  split.
  - intros (HS & HD & HB) sd r Hc%Hd. rewrite <-HF, <-HT. destruct sd; cbn in Hc; [left|right|]; [set_solver..|].
    apply HB, elem_of_union in Hc as [?|?]; [by left|by right].
  - intros Hall. split_and!; intros rid Hin.
    + apply (dom_configured _ _ _ Src _ Hr) in Hin as (r & Hc & <-). rewrite HF. destruct (Hall _ _ Hc) as [[_ ?]|[? _]]; done.
    + apply (dom_configured _ _ _ Dst _ Hr) in Hin as (r & Hc & <-). rewrite HT. destruct (Hall _ _ Hc) as [[? _]|[_ ?]]; done.
    + apply (dom_configured _ _ _ Bid _ Hr) in Hin as (r & Hc & <-). rewrite elem_of_union, HF, HT.
      destruct (Hall _ _ Hc) as [[_ ?]|[_ ?]]; [by left|by right].
Qed.

(** The map of the shared routes: aliases of either side. *)
Lemma merged_spec (v : Responses) ops (shared : gset string) alias rid : legs_covered v ops →
  (filter (λ kv : string * string, kv.2 ∈ shared) (resp_OperationRoutesTo v) ∪
   filter (λ kv : string * string, kv.2 ∈ shared) (resp_OperationRoutesFrom v)) !! alias = Some rid ↔
  rid ∈ shared ∧ (resp_OperationRoutesFrom v !! alias = Some rid ∨ resp_OperationRoutesTo v !! alias = Some rid).
Proof.
  intros [Hf Ht]. rewrite lookup_union_Some_raw, map_lookup_filter_None, !map_lookup_filter_Some. cbn. split; [naive_solver|].
  intros [Hs [E|E]]; [|by left]. right. split; [|done]. left.
  destruct (resp_OperationRoutesTo v !! alias) as [x|] eqn:E'; [|done].
  destruct (Hf alias ltac:(eauto)) as ([y Hy] & _). destruct (Ht alias ltac:(eauto)) as (_ & Hn & _). congruence.
Qed.

Lemma count_ok routes a ar v ops (Hdup : NoDup (route_key <$> routes)) : resolved routes a ar → legs_covered v ops →
  (∀ op, op ∈ ops → leg_allowed routes a v op) →
  validateRouteCountAndCounterparts v ar ops = Ok tt ↔
  (∀ sd r, configured routes a sd r → (sd ≠ Dst ∧ named_from v (route_key r)) ∨ (sd ≠ Src ∧ named_to v (route_key r))) ∧
  (∀ r, configured routes a Bid r → named_from v (route_key r) → named_to v (route_key r) →
    (∃ op, op ∈ ops ∧ names v op (route_key r) ∧ op_debit op) ∧
    (∃ op, op ∈ ops ∧ names v op (route_key r) ∧ op_credit op)).
Proof.
  intros Hr Hcov Hl. destruct (legs_contained _ _ _ _ _ Hdup Hr Hcov Hl) as [HF HT].
  rewrite <-(used_iff routes a ar v Hr). unfold validateRouteCountAndCounterparts. rewrite !uniqueValues_img.
  set (F := map_img (resp_OperationRoutesFrom v) : gset string) in *.
  set (T := map_img (resp_OperationRoutesTo v) : gset string) in *.
  set (shared := filter _ T : gset string).
  assert (shared = F ∩ T ∩ dom (ar_bidirectional ar)) as Es.
  { apply set_eq. intros x. subst shared. rewrite !elem_of_filter, !elem_of_intersection, elem_of_dom. tauto. }
  rewrite <-!(size_dom (D := gset string)).
  pose proof (sides_disjoint _ _ _ Src Dst Hdup Hr ltac:(done)) as D1. pose proof (sides_disjoint _ _ _ Src Bid Hdup Hr ltac:(done)) as D2.
  pose proof (sides_disjoint _ _ _ Dst Bid Hdup Hr ltac:(done)) as D3. cbn in D1, D2, D3.
  pose proof (count_exact F T _ _ _ D1 D2 D3 HF HT) as Hcount. rewrite <-Es in Hcount.
  assert (size shared ≤ size T)%nat as Hle by (apply subseteq_size; rewrite Es; set_solver).
  destruct (Z.of_nat (size F) + Z.of_nat (size T) - Z.of_nat (size shared) =? _) eqn:Ez; cbn [negb orb].
  2: { apply Z.eqb_neq in Ez. split; [discriminate|]. intros [Hu _]. exfalso. apply Hcount in Hu. lia. }
  apply Z.eqb_eq in Ez. assert (dom (ar_source ar) ⊆ F ∧ dom (ar_destination ar) ⊆ T ∧ dom (ar_bidirectional ar) ⊆ F ∪ T) as Hu
    by (apply Hcount; lia).
  pose proof (subseteq_size _ _ (proj1 Hu)) as L1. pose proof (subseteq_size _ _ (proj1 (proj2 Hu))) as L2.
  replace (size F <? size (dom (ar_source ar)))%nat with false by (symmetry; apply Nat.ltb_ge; lia).
  replace (size T <? size (dom (ar_destination ar)))%nat with false by (symmetry; apply Nat.ltb_ge; lia). cbn [orb].
  set (merged := _ ∪ _). rewrite size_dom.
  assert ((if (0 <? size merged)%nat then validateCounterparts ops merged else Ok tt) = Ok tt ↔ validateCounterparts ops merged = Ok tt) as ->.
  { destruct (0 <? size merged)%nat eqn:Em; [done|]. split; [|done]. intros _.
    assert (merged = ∅) as -> by (apply map_size_empty_inv; apply Nat.ltb_ge in Em; lia).
    apply validateCounterparts_ok. intros r (op & _ & E). by rewrite lookup_empty in E. }
  assert (∀ alias rid, merged !! alias = Some rid ↔
    rid ∈ shared ∧ (resp_OperationRoutesFrom v !! alias = Some rid ∨ resp_OperationRoutesTo v !! alias = Some rid)) as Hm
    by (intros; by eapply merged_spec).
  clearbody merged. rewrite validateCounterparts_ok. setoid_rewrite Hm.
  assert (∀ rid, rid ∈ shared ↔ ∃ r, configured routes a Bid r ∧ route_key r = rid ∧ named_from v rid ∧ named_to v rid) as Hsh.
  { intros rid. rewrite Es, !elem_of_intersection. rewrite (dom_configured routes a ar Bid rid Hr : rid ∈ dom (ar_bidirectional ar) ↔ _).
    subst F T. rewrite !elem_of_map_img. unfold named_from, named_to. naive_solver. }
  split.
  - intros Hall. split; [done|]. intros r Hc Hn Hn'. assert (route_key r ∈ shared) as Hs by (apply Hsh; eauto).
    destruct Hn as [alias Ha]. destruct (lc_from _ _ Hcov alias ltac:(eauto)) as (_ & op & Hop & <-).
    destruct (Hall (route_key r)) as [(d & ? & [_ ?] & ?) (c & ? & [_ ?] & ?)]; [by eauto 10|].
    split; [exists d|exists c]; done.
  - intros [_ Hall] rid (op & Hop & Hs & _). pose proof Hs as (r & Hc & <- & Hn & Hn')%Hsh.
    destruct (Hall r Hc Hn Hn') as [(d & ? & ? & ?) (c & ? & ? & ?)]. split; [exists d|exists c]; done.
Qed.

Lemma rubric_ok routes rid d (Hdup : NoDup (route_key <$> routes)) :
  overdraftRubricConfigured (routes_cache routes) rid d = true ↔
  ∃ r, r ∈ routes ∧ is_Some (side_of (opr_OperationType r)) ∧ route_key r = rid ∧ rubric_configured r d.
Proof.
  unfold overdraftRubricConfigured.
  assert (∀ ac, routes_cache routes ActionOverdraft = Some ac → ∀ rc, FindRoute ac rid = Some rc ↔
    ∃ r, r ∈ routes ∧ is_Some (side_of (opr_OperationType r)) ∧ has_entry r ActionOverdraft ∧ route_key r = rid ∧ route_data r = rc) as Hfind.
  { intros ac Hac rc. pose proof (λ sd rc, routes_cache_lookup routes ActionOverdraft sd rid rc Hdup) as Hl.
    unfold side_lookup in Hl. rewrite Hac in Hl. cbn in Hl.
    pose proof (Hl Src) as H1. pose proof (Hl Dst) as H2. pose proof (Hl Bid) as H3. cbn in H1, H2, H3. unfold FindRoute.
    assert (∀ r r', r ∈ routes → r' ∈ routes → route_key r = rid → route_key r' = rid → r = r') as Huniq
      by (intros; eapply key_unique; eauto; congruence).
    destruct (arc_Source ac !! rid) as [x|] eqn:E1; [|destruct (arc_Destination ac !! rid) as [y|] eqn:E2].
    - destruct (proj1 (H1 x) eq_refl) as (r0 & ? & Hs & ? & ? & <-). split; [intros [= <-]; eexists; split_and!; eauto|].
      intros (r & ? & _ & _ & ? & <-). by rewrite (Huniq r0 r).
    - destruct (proj1 (H2 y) eq_refl) as (r0 & ? & Hs & ? & ? & <-). split; [intros [= <-]; eexists; split_and!; eauto|].
      intros (r & ? & _ & _ & ? & <-). by rewrite (Huniq r0 r).
    - rewrite H3. split; [intros (r & ? & ? & ? & ? & ?); eexists; split_and!; eauto|].
      intros (r & ? & [[] Hs] & ? & ? & <-); [assert (None = Some (route_data r)) by (apply H1; eauto 10); done
        |assert (None = Some (route_data r)) by (apply H2; eauto 10); done|]. exists r. done. }
  assert (∀ r es entry, opr_AccountingEntries r = Some es → ae_Overdraft es = Some entry → has_entry r ActionOverdraft) as Hentry.
  { intros r es entry E1 E2. apply elem_of_Actions. exists es. split; [done|]. cbn. eauto. }
  destruct (routes_cache routes ActionOverdraft) as [ac|] eqn:Hac.
  2: { split; [done|]. intros (r & Hin & Hs & _ & es & entry & _ & E1 & E2 & _).
       assert (is_Some (routes_cache routes ActionOverdraft)) as []; [|congruence]. apply routes_cache_present. eauto 10. }
  specialize (Hfind ac eq_refl). destruct (FindRoute ac rid) as [rc|] eqn:Hf.
  2: { split; [done|]. intros (r & Hin & Hs & Hk & es & entry & _ & E1 & E2 & _).
       assert (None = Some (route_data r)) by (apply Hfind; eauto 10). done. }
  destruct (proj1 (Hfind rc) eq_refl) as (r & Hin & Hs & _ & Hk & <-). cbn.
  transitivity (rubric_configured r d).
  2: { split; [eauto 10|]. intros (r' & ? & _ & ? & ?). by rewrite (key_unique routes r r' Hdup) by congruence. }
  unfold rubric_configured. destruct (opr_AccountingEntries r) as [es|]; [|split; [done|naive_solver]].
  destruct (ae_Overdraft es) as [entry|] eqn:Ee; [|split; [done|naive_solver]].
  destruct (Direction_lower d) eqn:Ed; [destruct (ae_Debit entry) as [rb|] eqn:Eb|destruct (ae_Credit entry) as [rb|] eqn:Eb|..];
    try (split; [done|naive_solver]); rewrite negb_true_iff, bool_decide_eq_false; naive_solver.
Qed.

Lemma companions_ok routes v ops (Hdup : NoDup (route_key <$> routes)) :
  validateOverdraftRoutes (routes_cache routes) v ops = Ok tt ↔
  ∀ op, op ∈ ops → mb_Key (bo_Balance op) = OverdraftBalanceKey →
    ∃ r, r ∈ routes ∧ is_Some (side_of (opr_OperationType r)) ∧ route_key r = companion_route v (bo_Alias op) ∧
      rubric_configured r (amt_Direction (bo_Amount op)).
Proof.
  unfold validateOverdraftRoutes. rewrite for_each_Ok, Forall_forall.
  apply forall_proper. intros op. apply imp_iff_compat_l.
  case_bool_decide as Hk; cbn; [|split; [done|by intros]].
  rewrite <-(rubric_ok routes _ _ Hdup).
  destruct (overdraftRubricConfigured _ _ _); split; try done; intros H; by specialize (H Hk).
Qed.

(** The check once the tables are known. *)
Definition check_routes (cache : TransactionRouteCache) (ops : list BalanceOperation) (v : Responses) (a : Action)
    : result RouteError (option TransactionRouteCache) :=
  let! routes := resolveActionRoutes cache a in
  do! validateOperationRouteIDs v (ar_isSourceOnly routes);;
  do! (if ar_isSourceOnly routes then Ok tt else validateRouteCountAndCounterparts v routes ops);;
  do! validateAccountRules routes (if ar_isSourceOnly routes then source_side v else v) ops;;
  do! validateOverdraftRoutes cache v ops;;
  Ok (Some cache).

Lemma rules_ok routes a ar v ops (Hdup : NoDup (route_key <$> routes)) : resolved routes a ar →
  validateAccountRules ar v ops = Ok tt ↔ ∀ op, op ∈ ops → leg_allowed routes a v op.
Proof.
  intros Hr. unfold validateAccountRules. rewrite for_each_Ok, Forall_forall.
  apply forall_proper. intros op. by rewrite (leg_ok routes a ar v op Hdup Hr).
Qed.

Lemma check_result cache ops v a : is_ok (check_routes cache ops v a) = true ↔ check_routes cache ops v a = Ok (Some cache).
Proof.
  destruct (check_routes cache ops v a) as [c|e] eqn:E; [|done]. split; [intros _|done].
  unfold check_routes in E. by repeat (apply rbind_Ok in E as (? & _ & E)).
Qed.

Lemma keys_distinct {L : UuidLaws} routes : NoDup (opr_ID <$> routes) → NoDup (route_key <$> routes).
Proof.
  intros H. replace (route_key <$> routes) with (uuid_String <$> (opr_ID <$> routes)) by (by rewrite <-list_fmap_compose).
  apply NoDup_fmap_2; [|done]. intros u w. apply uuid_inj.
Qed.

Lemma check_exact routes a v ops (Hdup : NoDup (route_key <$> routes)) (Ha : a ≠ ActionCancel) (Hcov : legs_covered v ops) :
  check_routes (routes_cache routes) ops v a = Ok (Some (routes_cache routes)) ↔ routes_respected routes a v ops.
Proof.
  unfold check_routes. pose proof (resolve_spec routes a Hdup) as Hr.
  destruct (resolveActionRoutes (routes_cache routes) a) as [ar|e]; cbn [rbind].
  2: { destruct Hr as [_ Hn]. split; [done|]. by intros [H _ _ _ _ _]. }
  destruct Hr as (Hact & -> & Hr). rewrite (bool_decide_eq_false_2 (a = ActionCancel)) by done.
  repeat setoid_rewrite rbind_Ok.
  split.
  - intros ([] & Hids%ids_ok & [] & Hcount & [] & Hrules & [] & Hover & _).
    rewrite (rules_ok routes a) in Hrules by done. rewrite (count_ok routes a) in Hcount by done.
    rewrite companions_ok in Hover by done. destruct Hids as [? Hto]. specialize (Hto eq_refl). destruct Hcount.
    by constructor.
  - intros [_ [Hn Hn'] Hl Hu Hcp Hco]. exists tt. split; [by apply ids_ok|]. exists tt. split; [by apply (count_ok routes a)|].
    exists tt. split; [by apply (rules_ok routes a)|]. exists tt. split; [by apply companions_ok|done].
Qed.

(** C12: When the ledger validates routes, a transaction other than a cancellation is
    accepted exactly if the routes of its legs are the routes the transaction route
    configures for the action: every leg names a route of its side or of both, every such
    route is named by a leg, a route named on both sides has a debit and a credit, the
    direction and the account of every leg are those its route admits, and overdraft
    companions have a rubric.  The number of routes alone is compared; the statement shows
    that this is enough. *)
Theorem accounting_routes_exact {L : UuidLaws} lookup (tr : TransactionRoute) ops v a id
    (Hids : NoDup (opr_ID <$> tro_OperationRoutes tr)) (Ha : a ≠ ActionCancel) (Hcov : legs_covered v ops)
    (Hid : resolveTransactionRouteID v = Ok id) (Hlook : lookup id = Ok (TransactionRoute_ToCache tr)) :
  is_ok (ValidateAccountingRules (Ok true) lookup ops v a) = true ↔
  routes_respected (tro_OperationRoutes tr) a v ops.
Proof.
  assert (NoDup (route_key <$> tro_OperationRoutes tr)) as Hdup by (by apply keys_distinct).
  rewrite <-check_exact by done.
  assert (ValidateAccountingRules (Ok true) lookup ops v a = check_routes (routes_cache (tro_OperationRoutes tr)) ops v a) as ->.
  { unfold ValidateAccountingRules. cbn [rbind negb]. rewrite Hid. cbn [rbind]. rewrite Hlook. done. }
  apply check_result.
Qed.

End Exact.

(** ** Sample routes *)

Module RouteSample.
Definition id_source : @uuid FourIds.lib := (true, false).
Definition id_destination : @uuid FourIds.lib := (false, true).
Definition id_route : @uuid FourIds.lib := (true, true).
Definition id_org : @uuid FourIds.lib := (false, false).
Definition rubric (code : string) : option AccountingRubric := Some (mkRubric code "x").
Definition both : option AccountingEntry := Some (mkEntry (rubric "1") (rubric "2")).
Definition source_entries : AccountingEntries := mkEntries both both both both None both None None.
Definition destination_entries : AccountingEntries := mkEntries both None both None None None None None.
Definition route (id : @uuid FourIds.lib) (type : string) (es : AccountingEntries) : @OperationRoute FourIds.lib :=
  mkOperationRoute id id_org id_org "" "" "" type (Some es) (Some (mkAccountRule "account_type" (Some (ValidIfStrings ["deposit"])))) 0%Z 0%Z None.
Definition routes := [route id_source "source" source_entries; route id_destination "destination" destination_entries].
Definition tr : @TransactionRoute FourIds.lib := mkTransactionRoute id_route id_org id_org "" "" routes 0%Z 0%Z None.
Definition lookup (_ : @uuid FourIds.lib) : result RouteError TransactionRouteCache := Ok (TransactionRoute_ToCache tr).

Definition balance (alias : string) : @MBalance Fixed.lib :=
  mkMBalance "b1" "1" "2" "acc1" alias "default" "BRL" (fx 100 0) (fx 0 0) 1
    "deposit" true true DirectionCredit (fx 0 0) None 0 0 None ∅.
Definition op (alias : string) (o : OpType) (st : TxStatus) (d : Direction) : @BalanceOperation Fixed.lib :=
  mkBalanceOperation (balance alias) alias (mkAmount "BRL" (fx 10 0) o st d true (fx 0 0)) "".
Definition alice := "0#@alice#default".
Definition bob := "0#@bob#default".
Definition responses : @Responses Fixed.lib :=
  mkResponses (fx 10 0) "BRL" {[alice := zeroAmount]} {[bob := zeroAmount]} [] [] [] true "" (Some (uuid_String id_route))
    {[alice := uuid_String id_source]} {[bob := uuid_String id_destination]}.
Definition hold := [op alice ONHOLD PENDING DirectionDebit; op bob CREDIT PENDING DirectionCredit].
Definition commit := [op alice ONHOLD APPROVED DirectionDebit; op bob CREDIT APPROVED DirectionCredit].
Definition cancel := [op alice RELEASE CANCELED DirectionCredit; op bob CREDIT CANCELED DirectionCredit].
Definition check (ops : list (@BalanceOperation Fixed.lib)) (a : Action) :=
  is_ok (ValidateAccountingRules (P := FourIds.parse) (C := Commons.lib) (Ok true) lookup ops responses a).
End RouteSample.

Lemma sample_covered ops : ops = RouteSample.hold ∨ ops = RouteSample.commit → legs_covered RouteSample.responses ops.
Proof.
  intros Hops. constructor; intros alias [rid Ha]; cbn in Ha; apply lookup_singleton_Some in Ha as [<- _]; cbn.
  - split; [eauto|]. destruct Hops as [-> | ->]; eexists; (split; [by left|done]).
  - split_and!; [eauto|done|]. destruct Hops as [-> | ->]; eexists; (split; [right; by left|done]).
Qed.

Lemma sample_lookup : resolveTransactionRouteID (P := FourIds.parse) (C := Commons.lib) RouteSample.responses = Ok RouteSample.id_route.
Proof. reflexivity. Qed.

Lemma sample_distinct : NoDup (opr_ID <$> tro_OperationRoutes RouteSample.tr).
Proof. apply (bool_decide_eq_true_1 _). vm_compute. reflexivity. Qed.

Lemma accounting_routes_exact_witness :
  routes_respected RouteSample.routes ActionHold RouteSample.responses RouteSample.hold.
Proof.
  apply (accounting_routes_exact (P := FourIds.parse) (C := Commons.lib) RouteSample.lookup RouteSample.tr RouteSample.hold
    RouteSample.responses ActionHold RouteSample.id_route sample_distinct ltac:(done) (sample_covered _ (or_introl eq_refl))
    sample_lookup eq_refl).
  vm_compute. reflexivity.
Defined.
