(* ===== verification/RouteConfig.v ===== *)
(** * Configuration of operation routes

    src/components/ledger/internal/adapters/http/in/operation_route.go: which account rules
    and accounting entries a route may have, and the merge patch of the entries;
    src/components/ledger/internal/adapters/postgres/operationroute: the row of a route and
    the statement that applies the patch to it.

    The entries of a request are a partial object over the eight actions, each field being
    absent, null or an entry; a flag stands for the fields of other names.  In the
    database the entries are a JSON object over the same keys or NULL. *)

From Stdlib Require Import ZArith Lia Ascii.
From stdpp Require Import base gmap strings list.
From S2P Require Import Prelude Decimals GoStrings Transaction BalanceOps MBalance SendValidation CacheKeys.
From S2P Require Import BalancePlan GoTime OperationRecords AccountingRoutes.
Local Open Scope string_scope.
Local Open Scope list_scope.

Inductive ConfigError :=
  | ErrMissingFieldsInRequest | ErrInvalidAccountRuleValue | ErrInvalidAccountRuleType | ErrAccountingEntryFieldRequired
  | ErrRevertOnlyBidirectional | ErrScenarioNotAllowedForDirection | ErrReserveGroupIncomplete
  | ErrDirectScenarioRequired | ErrUnexpectedFields | ErrOperationRouteNotFound | ConfigCallFailed (e : string).

#[export] Instance ConfigError_eq_dec : EqDecision ConfigError.
Proof. solve_decision. Defined.

#[export] Instance AccountingRubric_eq_dec : EqDecision AccountingRubric.
Proof. solve_decision. Defined.
#[export] Instance AccountingEntry_eq_dec : EqDecision AccountingEntry.
Proof. solve_decision. Defined.
#[export] Instance AccountingEntries_eq_dec : EqDecision AccountingEntries.
Proof. solve_decision. Defined.

(** ** Validation of a route *)

Definition validateAccountRule (account : option AccountRule) : result ConfigError unit :=
  match account with
  | None => Ok tt
  | Some a =>
      match rule_ValidIf a with
      | None => if bool_decide (rule_RuleType a = "") then Ok tt else Err ErrMissingFieldsInRequest
      | Some validIf =>
          if bool_decide (rule_RuleType a = "") then Err ErrMissingFieldsInRequest
          else if bool_decide (strings_ToLower (rule_RuleType a) = AccountRuleTypeAlias) then
            match validIf with ValidIfString _ => Ok tt | _ => Err ErrInvalidAccountRuleValue end
          else if bool_decide (strings_ToLower (rule_RuleType a) = AccountRuleTypeAccountType) then
            match validIf with
            | ValidIfStrings _ => Ok tt
            | ValidIfAnys l => if forallb (λ x : option string, bool_decide (is_Some x)) l then Ok tt else Err ErrInvalidAccountRuleValue
            | _ => Err ErrInvalidAccountRuleValue
            end
          else Err ErrInvalidAccountRuleType
      end
  end.

(** The error of a field depends on the scenario. *)
Definition field_error (a : Action) : ConfigError :=
  match a with
  | ActionOverdraft | ActionBlock | ActionUnblock => ErrAccountingEntryFieldRequired
  | _ => ErrMissingFieldsInRequest
  end.

Definition validateRubricStructure (rubric : AccountingRubric) (errCode : ConfigError) : result ConfigError unit :=
  if bool_decide (strings_TrimSpace (rb_Code rubric) = "") then Err errCode
  else if bool_decide (strings_TrimSpace (rb_Description rubric) = "") then Err errCode else Ok tt.

Definition validate_entry (a : Action) (entry : AccountingEntry) : result ConfigError unit :=
  match ae_Debit entry, ae_Credit entry with
  | None, None => Err (field_error a)
  | debit, credit =>
      do! match debit with Some r => validateRubricStructure r (field_error a) | None => Ok tt end;;
      match credit with Some r => validateRubricStructure r (field_error a) | None => Ok tt end
  end.

Definition validateAccountingEntries (entries : option AccountingEntries) : result ConfigError unit :=
  match entries with
  | None => Ok tt
  | Some es => for_each (λ a, match entry_of es a with None => Ok tt | Some e => validate_entry a e end) AllActions
  end.

Record fieldRequirement := mkRequirement { fr_debit : bool; fr_credit : bool }.

Definition getFieldRequirements (operationType : string) (scenario : Action) : fieldRequirement :=
  if bool_decide (scenario = ActionOverdraft) then mkRequirement true true
  else if bool_decide (operationType = OperationRouteTypeBidirectional) then mkRequirement true true
  else if bool_decide (operationType = OperationRouteTypeSource) then
    match scenario with
    | ActionDirect | ActionCommit | ActionBlock | ActionUnblock => mkRequirement true false
    | _ => mkRequirement true true
    end
  else if bool_decide (operationType = OperationRouteTypeDestination) then
    match scenario with
    | ActionDirect | ActionCommit | ActionBlock | ActionUnblock => mkRequirement false true
    | _ => mkRequirement true true
    end
  else mkRequirement true true.

Definition present (e : option AccountingEntry) : bool := bool_decide (is_Some e).

Definition validateDirectionScenarioMatrix (operationType : string) (es : AccountingEntries) : result ConfigError unit :=
  if bool_decide (operationType = OperationRouteTypeSource) then
    if present (ae_Revert es) then Err ErrRevertOnlyBidirectional else Ok tt
  else if bool_decide (operationType = OperationRouteTypeDestination) then
    if present (ae_Hold es) || present (ae_Cancel es) then Err ErrScenarioNotAllowedForDirection
    else if present (ae_Revert es) then Err ErrRevertOnlyBidirectional else Ok tt
  else Ok tt.

Definition require_fields (operationType : string) (a : Action) (entry : AccountingEntry) : result ConfigError unit :=
  let req := getFieldRequirements operationType a in
  if fr_debit req && bool_decide (ae_Debit entry = None) then Err ErrAccountingEntryFieldRequired
  else if fr_credit req && bool_decide (ae_Credit entry = None) then Err ErrAccountingEntryFieldRequired else Ok tt.

Definition validateEntryFieldRequirements (operationType : string) (es : AccountingEntries) : result ConfigError unit :=
  for_each (λ a, match entry_of es a with None => Ok tt | Some e => require_fields operationType a e end) AllActions.

Definition validateReserveGroupAtomicity (operationType : string) (es : AccountingEntries) : result ConfigError unit :=
  if bool_decide (operationType = OperationRouteTypeDestination) then Ok tt else
  let hasHold := present (ae_Hold es) in
  let hasCommit := present (ae_Commit es) in
  let hasCancel := present (ae_Cancel es) in
  if hasHold && (negb hasCommit || negb hasCancel) then Err ErrReserveGroupIncomplete
  else if (hasCommit || hasCancel) && negb hasHold then Err ErrReserveGroupIncomplete else Ok tt.

Definition validateDirectMandatory (es : AccountingEntries) : result ConfigError unit :=
  let others := present (ae_Hold es) || present (ae_Commit es) || present (ae_Cancel es) ||
                present (ae_Revert es) || present (ae_Overdraft es) in
  if others && negb (present (ae_Direct es)) then Err ErrDirectScenarioRequired else Ok tt.

Definition validateAccountingRulesMatrix (operationType : string) (entries : option AccountingEntries) : result ConfigError unit :=
  match entries with
  | None => Ok tt
  | Some es =>
      do! validateDirectionScenarioMatrix operationType es;;
      do! validateEntryFieldRequirements operationType es;;
      do! validateReserveGroupAtomicity operationType es;;
      validateDirectMandatory es
  end.

(** ** The merge patch of the entries *)

Inductive FieldPatch := FieldAbsent | FieldNull | FieldValue (e : AccountingEntry).

#[export] Instance FieldPatch_eq_dec : EqDecision FieldPatch.
Proof. solve_decision. Defined.

(** The [accountingEntries] of a request. *)
Record EntriesObject := mkObject { eo_fields : Action → FieldPatch; eo_unknown : bool }.
Inductive EntriesBody := BodyAbsent | BodyNull | BodyObject (o : EntriesObject).

Definition entries_of (f : Action → option AccountingEntry) : AccountingEntries :=
  mkEntries (f ActionDirect) (f ActionHold) (f ActionCommit) (f ActionCancel) (f ActionRevert)
    (f ActionOverdraft) (f ActionBlock) (f ActionUnblock).

(** What decoding into the struct leaves: absent and null are the same. *)
Definition decode_entries (body : EntriesBody) : option AccountingEntries :=
  match body with
  | BodyObject o => Some (entries_of (λ a, match eo_fields o a with FieldValue e => Some e | _ => None end))
  | _ => None
  end.

Definition mergeAccountingEntriesSimple (existing : AccountingEntries) (incoming : option AccountingEntries) : AccountingEntries :=
  match incoming with
  | None => existing
  | Some inc =>
      entries_of (λ a, match a with
        | ActionBlock | ActionUnblock => None
        | _ => match entry_of inc a with Some e => Some e | None => entry_of existing a end
        end)
  end.

Definition mergeAccountingEntries (existing incoming : option AccountingEntries) (raw : option EntriesObject)
    : option AccountingEntries :=
  match existing with
  | None => incoming
  | Some ex =>
      match raw with
      | None => Some (mergeAccountingEntriesSimple ex incoming)
      | Some o =>
          let applyMerge a :=
            match eo_fields o a with
            | FieldAbsent => entry_of ex a
            | FieldNull => None
            | FieldValue _ => match incoming with
                              | Some inc => match entry_of inc a with Some e => Some e | None => entry_of ex a end
                              | None => entry_of ex a
                              end
            end in
          let merged := entries_of (λ a, match a with ActionBlock | ActionUnblock => None | _ => applyMerge a end) in
          if bool_decide (AccountingEntries_Actions (Some merged) = []) then None else Some merged
      end
  end.

(** [splitMergePatch] and the JSON operators of the statement: the fields with values are
    merged, then the null ones are removed. *)
Definition splitMergePatch (o : EntriesObject) : (Action → option AccountingEntry) * list Action :=
  (λ a, match eo_fields o a with FieldValue e => Some e | _ => None end,
   filter (λ a, eo_fields o a = FieldNull) AllActions).

Definition jsonb_concat (column : AccountingEntries) (merge : Action → option AccountingEntry) : AccountingEntries :=
  entries_of (λ a, match merge a with Some e => Some e | None => entry_of column a end).
Definition jsonb_remove (column : AccountingEntries) (keys : list Action) : AccountingEntries :=
  entries_of (λ a, if bool_decide (a ∈ keys) then None else entry_of column a).
Definition emptyEntries : AccountingEntries := entries_of (λ _, None).

Definition update_entries (column : option AccountingEntries) (raw : option EntriesObject)
    (typed : option AccountingEntries) : option AccountingEntries :=
  match raw with
  | Some o =>
      let '(merge, removed) := splitMergePatch o in
      let has_merge := existsb (λ a, bool_decide (is_Some (merge a))) AllActions in
      if has_merge then Some (jsonb_remove (jsonb_concat (default emptyEntries column) merge) removed)
      else if bool_decide (removed = []) then column
      else Some (jsonb_remove (default emptyEntries column) removed)
  | None =>
      match typed with
      | Some es => Some (jsonb_concat (default emptyEntries column) (entry_of es))
      | None => column
      end
  end.

(** ** Rows *)

Section Rows.
Context {U : UuidLib}.

Record OperationRoutePostgreSQLModel := mkRouteRow {
  rr_ID : uuid; rr_OrganizationID : uuid; rr_LedgerID : uuid; rr_Title : string; rr_Description : string;
  rr_Code : option string; rr_OperationType : string; rr_AccountRuleType : string; rr_AccountRuleValidIf : string;
  rr_AccountingEntries : option AccountingEntries; rr_CreatedAt : Time; rr_UpdatedAt : Time; rr_DeletedAt : option Time }.

Definition comma : Ascii.ascii := ","%char.

(** The text of [ValidIf]; an element that is not a string is left out. *)
Definition valid_if_text (ruleType : string) (validIf : option ValidIf) : string :=
  match validIf with
  | None => ""
  | Some v =>
      if bool_decide (strings_ToLower ruleType = AccountRuleTypeAccountType) then
        match v with
        | ValidIfStrings l => strings_Join "," l
        | ValidIfAnys l => strings_Join "," (omap id l)
        | _ => ""
        end
      else match v with ValidIfString s => s | _ => "" end
  end.

Definition OperationRoute_FromEntity (e : OperationRoute) : OperationRoutePostgreSQLModel :=
  mkRouteRow (opr_ID e) (opr_OrganizationID e) (opr_LedgerID e) (opr_Title e) (opr_Description e)
    (if bool_decide (strings_TrimSpace (opr_Code e) = "") then None else Some (opr_Code e))
    (strings_ToLower (opr_OperationType e))
    (match opr_Account e with Some a => rule_RuleType a | None => "" end)
    (match opr_Account e with Some a => valid_if_text (rule_RuleType a) (rule_ValidIf a) | None => "" end)
    (opr_AccountingEntries e) (opr_CreatedAt e) (opr_UpdatedAt e) (opr_DeletedAt e).

Definition row_account (ruleType validIf : string) : option AccountRule :=
  if bool_decide (ruleType = "") && bool_decide (validIf = "") then None
  else Some (mkAccountRule ruleType
    (if bool_decide (validIf = "") then None
     else if bool_decide (strings_ToLower ruleType = AccountRuleTypeAccountType)
     then Some (ValidIfStrings (strings_TrimSpace <$> strings_Split comma validIf))
     else Some (ValidIfString validIf))).

Definition OperationRoute_ToEntity (m : OperationRoutePostgreSQLModel) : OperationRoute :=
  mkOperationRoute (rr_ID m) (rr_OrganizationID m) (rr_LedgerID m) (rr_Title m) (rr_Description m)
    (default "" (rr_Code m)) (rr_OperationType m) (rr_AccountingEntries m)
    (row_account (rr_AccountRuleType m) (rr_AccountRuleValidIf m)) (rr_CreatedAt m) (rr_UpdatedAt m) (rr_DeletedAt m).

(** The input of an update; [up_raw] is the object of [AccountingEntriesRaw]. *)
Record UpdateOperationRouteInput := mkUpdate {
  up_Title : string; up_Description : string; up_Code : string; up_Account : option AccountRule;
  up_AccountingEntries : option AccountingEntries; up_raw : option EntriesObject }.

(** [OperationRoutePostgreSQLRepository.Update] on the addressed row. *)
Definition OperationRoute_row_update (now : Time) (up : UpdateOperationRouteInput) (row : OperationRoutePostgreSQLModel)
    : OperationRoutePostgreSQLModel :=
  mkRouteRow (rr_ID row) (rr_OrganizationID row) (rr_LedgerID row)
    (if bool_decide (up_Title up = "") then rr_Title row else up_Title up)
    (if bool_decide (up_Description up = "") then rr_Description row else up_Description up)
    (if bool_decide (up_Code up = "") then rr_Code row
     else if bool_decide (strings_TrimSpace (up_Code up) = "") then None else Some (up_Code up))
    (rr_OperationType row)
    (match up_Account up with
     | Some a => if bool_decide (rule_RuleType a = "") then rr_AccountRuleType row else rule_RuleType a
     | None => rr_AccountRuleType row
     end)
    (match up_Account up with
     | Some a => match rule_ValidIf a with
                 | Some v => valid_if_text (rule_RuleType a) (Some v)
                 | None => rr_AccountRuleValidIf row
                 end
     | None => rr_AccountRuleValidIf row
     end)
    (update_entries (rr_AccountingEntries row) (up_raw up) (up_AccountingEntries up))
    (rr_CreatedAt row) now (rr_DeletedAt row).

(** The body of a PATCH, decoded. *)
Record PatchBody := mkPatch {
  pb_Title : string; pb_Description : string; pb_Code : string; pb_Account : option AccountRule; pb_entries : EntriesBody }.

(** The first part of [updateOperationRoute]: the raw entries are only looked at when the
    decoded ones are not nil; [existing] answers [GetOperationRouteByID]. *)
Definition check_patch (existing : result ConfigError OperationRoute) (body : PatchBody) : result ConfigError UpdateOperationRouteInput :=
  do! validateAccountRule (pb_Account body);;
  let typed := decode_entries (pb_entries body) in
  do! validateAccountingEntries typed;;
  let! raw := match typed with
              | None => Ok None
              | Some _ =>
                  match pb_entries body with
                  | BodyObject o => if eo_unknown o then Err ErrUnexpectedFields else Ok (Some o)
                  | _ => Ok None
                  end
              end in
  do! (if bool_decide (is_Some typed) || bool_decide (is_Some raw) then
         let! route := existing in
         validateAccountingRulesMatrix (opr_OperationType route) (mergeAccountingEntries (opr_AccountingEntries route) typed raw)
       else Ok tt);;
  Ok (mkUpdate (pb_Title body) (pb_Description body) (pb_Code body) (pb_Account body) typed raw).

(** The body of a POST. *)
Record CreateBody := mkCreate {
  cb_Title : string; cb_Description : string; cb_Code : string; cb_OperationType : string;
  cb_Account : option AccountRule; cb_entries : EntriesBody }.

(** [createOperationRoute] of the handler and [CreateOperationRoute] of the command up to
    the inserted row. *)
Definition createOperationRoute (newID organizationID ledgerID : uuid) (now : Time) (body : CreateBody)
    : result ConfigError OperationRoutePostgreSQLModel :=
  do! validateAccountRule (cb_Account body);;
  let typed := decode_entries (cb_entries body) in
  do! validateAccountingEntries typed;;
  do! validateAccountingRulesMatrix (cb_OperationType body) typed;;
  do! match cb_entries body with
      | BodyObject o => if eo_unknown o then Err ErrUnexpectedFields else Ok tt
      | _ => Ok tt
      end;;
  Ok (OperationRoute_FromEntity (mkOperationRoute newID organizationID ledgerID (cb_Title body) (cb_Description body)
        (cb_Code body) (cb_OperationType body) typed (cb_Account body) now now None)).

End Rows.

(** ** Stored entries are valid *)

(** What the handlers ask of the entries of a route. *)
Definition entries_valid (operationType : string) (entries : option AccountingEntries) : Prop :=
  validateAccountingEntries entries = Ok tt ∧ validateAccountingRulesMatrix operationType entries = Ok tt.

Lemma all_actions a : a ∈ AllActions.
Proof. destruct a; unfold AllActions; set_solver. Qed.

Lemma entry_of_entries_of f a : entry_of (entries_of f) a = f a.
Proof. by destruct a. Qed.

Lemma entries_ext es es' : (∀ a, entry_of es a = entry_of es' a) → es = es'.
Proof.
  intros H. pose proof (H ActionDirect) as H1. pose proof (H ActionHold) as H2. pose proof (H ActionCommit) as H3.
  pose proof (H ActionCancel) as H4. pose proof (H ActionRevert) as H5. pose proof (H ActionOverdraft) as H6.
  pose proof (H ActionBlock) as H7. pose proof (H ActionUnblock) as H8. destruct es, es'. cbn in *. congruence.
Qed.

Lemma structure_iff es : validateAccountingEntries (Some es) = Ok tt ↔
  ∀ a e, entry_of es a = Some e → validate_entry a e = Ok tt.
Proof.
  unfold validateAccountingEntries. rewrite for_each_Ok, Forall_forall. split.
  - intros H a e E. specialize (H a (all_actions a)). by rewrite E in H.
  - intros H a _. destruct (entry_of es a) as [e|] eqn:E; [by apply H|done].
Qed.

(** The part of the matrix about which scenarios there are. *)
Definition scenarios_ok (operationType : string) (es : AccountingEntries) : Prop :=
  validateDirectionScenarioMatrix operationType es = Ok tt ∧ validateReserveGroupAtomicity operationType es = Ok tt ∧
  validateDirectMandatory es = Ok tt.

Lemma matrix_iff operationType es : validateAccountingRulesMatrix operationType (Some es) = Ok tt ↔
  scenarios_ok operationType es ∧ ∀ a e, entry_of es a = Some e → require_fields operationType a e = Ok tt.
Proof.
  unfold validateAccountingRulesMatrix, scenarios_ok. rewrite rbind_Ok.
  assert (validateEntryFieldRequirements operationType es = Ok tt ↔
    ∀ a e, entry_of es a = Some e → require_fields operationType a e = Ok tt) as H.
  { unfold validateEntryFieldRequirements. rewrite for_each_Ok, Forall_forall. split.
    - intros H a e E. specialize (H a (all_actions a)). by rewrite E in H.
    - intros H a _. destruct (entry_of es a) as [e|] eqn:E; [by apply H|done]. }
  rewrite <-H. split.
  - intros ([] & ? & ([] & ? & ([] & ? & ?)%rbind_Ok)%rbind_Ok). tauto.
  - intros ((? & Ha & ?) & Hb). exists tt. split; [done|]. rewrite Hb. cbn. by rewrite Ha.
Qed.

(** Blocking and unblocking aside. *)
Definition same_scenarios (es es' : AccountingEntries) : Prop :=
  ∀ a, a ≠ ActionBlock → a ≠ ActionUnblock → entry_of es a = entry_of es' a.

Lemma scenarios_ext operationType es es' : same_scenarios es es' → scenarios_ok operationType es → scenarios_ok operationType es'.
Proof.
  intros H. pose proof (H ActionDirect ltac:(done) ltac:(done)) as H1. pose proof (H ActionHold ltac:(done) ltac:(done)) as H2.
  pose proof (H ActionCommit ltac:(done) ltac:(done)) as H3. pose proof (H ActionCancel ltac:(done) ltac:(done)) as H4.
  pose proof (H ActionRevert ltac:(done) ltac:(done)) as H5. pose proof (H ActionOverdraft ltac:(done) ltac:(done)) as H6.
  cbn in *. unfold scenarios_ok, validateDirectionScenarioMatrix, validateReserveGroupAtomicity, validateDirectMandatory.
  by rewrite H1, H2, H3, H4, H5, H6.
Qed.

Lemma scenarios_empty operationType es : (∀ a, a ≠ ActionBlock → a ≠ ActionUnblock → entry_of es a = None) → scenarios_ok operationType es.
Proof.
  intros H. apply (scenarios_ext _ emptyEntries); [intros a ??; rewrite H by done; unfold emptyEntries; by rewrite entry_of_entries_of|].
  unfold scenarios_ok. split_and!; [|unfold validateReserveGroupAtomicity; by case_bool_decide|done].
  unfold validateDirectionScenarioMatrix. by repeat case_bool_decide.
Qed.

(** The object the statement leaves. *)
Definition patched (column : option AccountingEntries) (o : EntriesObject) : AccountingEntries :=
  entries_of (λ a, match eo_fields o a with
                   | FieldAbsent => entry_of (default emptyEntries column) a
                   | FieldNull => None
                   | FieldValue e => Some e
                   end).

Lemma update_entries_spec column o typed :
  default emptyEntries (update_entries column (Some o) typed) = patched column o ∧
  (update_entries column (Some o) typed = None → column = None).
Proof.
  unfold update_entries, splitMergePatch. set (removed := filter _ _).
  assert (∀ a, a ∈ removed ↔ eo_fields o a = FieldNull) as Hr.
  { intros a. subst removed. rewrite list_elem_of_filter. split; [by intros []|]. intros; split; [done|apply all_actions]. }
  destruct (existsb _ AllActions) eqn:Hm; cbn [from_option id].
  - split; [|done]. apply entries_ext. intros a. unfold patched, jsonb_remove, jsonb_concat. rewrite !entry_of_entries_of.
    case_bool_decide as Ha; [apply Hr in Ha as ->; done|]. rewrite Hr in Ha. by destruct (eo_fields o a).
  - assert (∀ a e, eo_fields o a ≠ FieldValue e) as Hno.
    { intros a e E. assert (existsb (λ a, bool_decide (is_Some match eo_fields o a with FieldValue e => Some e | _ => None end)) AllActions = true) as H;
        [|by rewrite H in Hm]. apply existsb_exists. exists a. split; [apply list_elem_of_In, all_actions|].
      rewrite E. by apply bool_decide_eq_true. }
    case_bool_decide as Hnil.
    + split; [|done]. apply entries_ext. intros a. unfold patched. rewrite entry_of_entries_of.
      destruct (eo_fields o a) eqn:E; [done| |by apply Hno in E]. apply Hr in E. rewrite Hnil in E. by apply elem_of_nil in E.
    + split; [|done]. apply entries_ext. intros a. cbn [from_option id]. unfold patched, jsonb_remove. rewrite !entry_of_entries_of.
      case_bool_decide as Ha; [apply Hr in Ha as ->; done|]. rewrite Hr in Ha. destruct (eo_fields o a) eqn:E; [done|done|by apply Hno in E].
Qed.

Lemma valid_entries_valid operationType es : entries_valid operationType (Some es) ↔
  scenarios_ok operationType es ∧ ∀ a e, entry_of es a = Some e → validate_entry a e = Ok tt ∧ require_fields operationType a e = Ok tt.
Proof. unfold entries_valid. rewrite structure_iff, matrix_iff. naive_solver. Qed.

Section Valid.
Context {U : UuidLib}.

Definition row_valid (row : OperationRoutePostgreSQLModel) : Prop :=
  entries_valid (rr_OperationType row) (rr_AccountingEntries row).

(** A request that does not set the entries of blocking and unblocking. *)
Definition leaves_blocking (body : EntriesBody) : Prop :=
  ∀ o e, body = BodyObject o → eo_fields o ActionBlock ≠ FieldValue e ∧ eo_fields o ActionUnblock ≠ FieldValue e.

Lemma decode_entry o a e : (∃ es, decode_entries (BodyObject o) = Some es ∧ entry_of es a = Some e) ↔ eo_fields o a = FieldValue e.
Proof.
  cbn. split.
  - intros (es & [= <-] & E). rewrite entry_of_entries_of in E. by destruct (eo_fields o a); simplify_eq.
  - intros E. eexists. split; [done|]. rewrite entry_of_entries_of. by rewrite E.
Qed.

(** The view the handler validates agrees with the patched object but for blocking. *)
Lemma merged_view ex o :
  match mergeAccountingEntries (Some ex) (decode_entries (BodyObject o)) (Some o) with
  | Some m => same_scenarios m (patched (Some ex) o)
  | None => ∀ a, a ≠ ActionBlock → a ≠ ActionUnblock → entry_of (patched (Some ex) o) a = None
  end.
Proof.
  cbn -[AccountingEntries_Actions]. match goal with |- context [bool_decide (AccountingEntries_Actions (Some ?x) = [])] => set (m := x) end.
  assert (same_scenarios m (patched (Some ex) o)) as Hm.
  { intros a H1 H2. subst m. unfold patched. rewrite !entry_of_entries_of.
    destruct a; try done; destruct (eo_fields o _) eqn:E; cbn; rewrite ?E; done. }
  case_bool_decide as Hnil; [|done]. intros a H1 H2. rewrite <-Hm by done.
  destruct (entry_of m a) as [e|] eqn:E; [|done]. exfalso.
  assert (a ∈ AccountingEntries_Actions (Some m)) as Hin by (apply elem_of_Actions; eauto).
  rewrite Hnil in Hin. by apply elem_of_nil in Hin.
Qed.

Lemma patch_valid operationType column o typed :
  entries_valid operationType column → validateAccountingEntries (decode_entries (BodyObject o)) = Ok tt →
  validateAccountingRulesMatrix operationType (mergeAccountingEntries column (decode_entries (BodyObject o)) (Some o)) = Ok tt →
  leaves_blocking (BodyObject o) → entries_valid operationType (update_entries column (Some o) typed).
Proof.
  intros Hv Hs Hm Hb. destruct (update_entries_spec column o typed) as [Hp Hn].
  destruct (update_entries column (Some o) typed) as [es|]; [|by rewrite (Hn eq_refl) in Hv]. cbn in Hp. subst es.
  apply valid_entries_valid. pose proof (proj1 (structure_iff _) Hs) as Hfields.
  assert (∀ a e, eo_fields o a = FieldValue e → validate_entry a e = Ok tt) as Hval.
  { intros a e (es & [= <-] & E)%decode_entry. by eapply Hfields. }
  assert (∀ a e, entry_of (patched column o) a = Some e →
    eo_fields o a = FieldValue e ∨ ∃ ex, column = Some ex ∧ entry_of ex a = Some e) as Hcases.
  { intros a e. unfold patched. rewrite entry_of_entries_of. destruct (eo_fields o a) as [| |e']; [|done|intros [= ->]; by left].
    destruct column as [ex|]; cbn; [eauto|by destruct a]. }
  assert (∀ a e, entry_of (patched column o) a = Some e → validate_entry a e = Ok tt) as Hstr.
  { intros a e [E|(ex & -> & E)]%Hcases; [by apply Hval|]. by apply valid_entries_valid in Hv as [_ Hv]; apply Hv in E as []. }
  destruct column as [ex|].
  - pose proof (merged_view ex o) as Hview. apply valid_entries_valid in Hv as [_ Hv].
    destruct (mergeAccountingEntries _ _ _) as [m|].
    + apply matrix_iff in Hm as [Hsc Hreq]. split; [by eapply scenarios_ext|]. intros a e E. split; [by apply Hstr|].
      destruct (decide (a = ActionBlock ∨ a = ActionUnblock)) as [Ha|Ha]; [|apply Hreq; rewrite (Hview a) by naive_solver; done].
      apply Hcases in E as [E|(ex' & [= <-] & E)]; [|by apply Hv]. exfalso. destruct (Hb o e eq_refl). naive_solver.
    + split; [by apply scenarios_empty|]. intros a e E. split; [by apply Hstr|].
      destruct (decide (a = ActionBlock ∨ a = ActionUnblock)) as [Ha|Ha]; [|rewrite (Hview a) in E by naive_solver; done].
      apply Hcases in E as [E|(ex' & [= <-] & E)]; [|by apply Hv]. exfalso. destruct (Hb o e eq_refl). naive_solver.
  - apply matrix_iff in Hm as [Hsc Hreq].
    assert (∀ a, entry_of (patched None o) a = entry_of (entries_of (λ a, match eo_fields o a with FieldValue e => Some e | _ => None end)) a) as Heq.
    { intros a. unfold patched. rewrite !entry_of_entries_of. destruct (eo_fields o a); [by destruct a|done|done]. }
    split; [eapply scenarios_ext; [|exact Hsc]; intros a _ _; symmetry; apply Heq|].
    intros a e E. split; [by apply Hstr|]. apply Hreq. rewrite <-E. symmetry. apply Heq.
Qed.

(** C26: The entries of stored routes comply with the matrix of scenarios, as long as types are
    written in lower case and no PATCH sets the entries of blocking: creating a route whose
    type is written in lower case establishes it ([upper_case_type_escapes_matrix] shows
    another one), and every accepted PATCH that does not set the entries of blocking keeps
    it, for every combination of absent, null and given fields and whatever was stored. *)
Theorem stored_entries_valid :
  (∀ newID org led now body row, strings_ToLower (cb_OperationType body) = cb_OperationType body →
     createOperationRoute newID org led now body = Ok row → row_valid row) ∧
  (∀ now row body up, row_valid row → leaves_blocking (pb_entries body) →
     check_patch (Ok (OperationRoute_ToEntity row)) body = Ok up →
     row_valid (OperationRoute_row_update now up row)).
Proof.
  split.
  - intros newID org led now body row Hlow. unfold createOperationRoute. repeat setoid_rewrite rbind_Ok.
    intros ([] & _ & [] & Hs & [] & Hm & [] & _ & [= <-]). unfold row_valid, OperationRoute_FromEntity.
    cbn [rr_OperationType rr_AccountingEntries opr_OperationType opr_AccountingEntries]. rewrite Hlow. by split.
  - intros now row body up Hv Hb. unfold check_patch. repeat setoid_rewrite rbind_Ok.
    intros ([] & _ & [] & Hs & raw & Hraw & [] & Hm & [= <-]). unfold row_valid. cbn.
    destruct (pb_entries body) as [| |o] eqn:Eb; [by injection Hraw as <-..|].
    cbn [decode_entries] in Hraw. destruct (eo_unknown o); [done|]. injection Hraw as <-.
    cbn [bool_decide orb] in Hm. rewrite bool_decide_eq_true_2 in Hm by done. cbn [orb rbind] in Hm.
    by apply patch_valid.
Qed.

End Valid.

(** ** Held transactions can be settled *)

Section Held.
Context {Dl : DecimalLib} {U : UuidLib} {P : UuidParse} {C : LibCommons}.

Definition routes_valid (routes : list OperationRoute) : Prop :=
  ∀ r, r ∈ routes → entries_valid (opr_OperationType r) (opr_AccountingEntries r).

(** Hold, commit and cancel come together on the source side. *)
Lemma reserve_group r sd : entries_valid (opr_OperationType r) (opr_AccountingEntries r) →
  side_of (opr_OperationType r) = Some sd → sd ≠ Dst →
  (has_entry r ActionHold ↔ has_entry r ActionCommit) ∧ (has_entry r ActionHold ↔ has_entry r ActionCancel).
Proof.
  intros [_ Hm] Hs Hsd. unfold has_entry. rewrite !elem_of_Actions.
  destruct (opr_AccountingEntries r) as [es|]; [|naive_solver].
  apply matrix_iff in Hm as [(_ & Hg & _) _]. unfold validateReserveGroupAtomicity in Hg.
  rewrite bool_decide_eq_false_2 in Hg by (intros E; rewrite E in Hs; vm_compute in Hs; congruence).
  assert (present (ae_Hold es) = present (ae_Commit es) ∧ present (ae_Hold es) = present (ae_Cancel es)) as [H1 H2].
  { destruct (present (ae_Hold es)), (present (ae_Commit es)), (present (ae_Cancel es)); cbn in Hg; try done. }
  unfold present in H1, H2.
  assert (is_Some (ae_Hold es) ↔ is_Some (ae_Commit es)) as E1 by (repeat case_bool_decide; try done; naive_solver).
  assert (is_Some (ae_Hold es) ↔ is_Some (ae_Cancel es)) as E2 by (repeat case_bool_decide; try done; naive_solver).
  cbn. naive_solver.
Qed.

Lemma no_hold_destination r : entries_valid (opr_OperationType r) (opr_AccountingEntries r) →
  side_of (opr_OperationType r) = Some Dst → ¬ has_entry r ActionHold.
Proof.
  intros [_ Hm] Hs (es & Ee & He)%elem_of_Actions. rewrite Ee in Hm. apply matrix_iff in Hm as [(Hd & _) _].
  unfold side_of in Hs. unfold validateDirectionScenarioMatrix in Hd. cbn in He. unfold present in Hd.
  repeat case_bool_decide; simplify_eq; done.
Qed.

(** The routes of a commit, and those of a cancellation on the source side, are the routes
    of the hold. *)
Lemma held_routes routes r0 sd r : routes_valid routes → r0 ∈ routes → has_entry r0 ActionHold →
  is_Some (side_of (opr_OperationType r0)) →
  (configured routes ActionCommit sd r ↔ configured routes ActionHold sd r) ∧
  (sd ≠ Dst → configured routes ActionCancel sd r ↔ configured routes ActionHold sd r).
Proof.
  intros Hv Hin H0 [sd0 Hs0].
  assert (sd0 ≠ Dst) as Hne by (intros ->; by eapply no_hold_destination; eauto).
  assert (is_Some (routes_cache routes ActionCommit)) as Hc.
  { apply routes_cache_present. exists r0. split_and!; [done| |eauto]. by apply (reserve_group r0 sd0 (Hv _ Hin) Hs0 Hne). }
  assert (table_action routes ActionHold sd = match sd with Dst => ActionCommit | _ => ActionHold end) as Eh.
  { unfold table_action. destruct sd; try done. by rewrite bool_decide_eq_true_2, (bool_decide_eq_true_2 (is_Some _)) by done. }
  assert (∀ a, a ≠ ActionHold → table_action routes a sd = a) as Ea.
  { intros a Ha. unfold table_action. destruct sd; try done. by rewrite bool_decide_eq_false_2. }
  unfold configured. rewrite Eh, !Ea by done. split.
  - destruct (decide (sd = Dst)) as [-> |Hsd]; [done|].
    replace (match sd with Dst => ActionCommit | _ => ActionHold end) with ActionHold by (by destruct sd).
    split; intros (Hr & Hs & He); (split_and!; [done|done|]); by apply (proj1 (reserve_group r sd (Hv _ Hr) Hs Hsd)).
  - intros Hsd. replace (match sd with Dst => ActionCommit | _ => ActionHold end) with ActionHold by (by destruct sd).
    split; intros (Hr & Hs & He); (split_and!; [done|done|]); by apply (proj2 (reserve_group r sd (Hv _ Hr) Hs Hsd)).
Qed.

(** An overdraft entry has the rubrics of both directions. *)
Lemma rubric_both r d d' : entries_valid (opr_OperationType r) (opr_AccountingEntries r) → rubric_configured r d →
  Direction_lower d' = DirectionDebit ∨ Direction_lower d' = DirectionCredit → rubric_configured r d'.
Proof.
  intros Hv (es & entry & _ & Ee & Eo & _) Hd. rewrite Ee in Hv. apply valid_entries_valid in Hv as [_ Hv].
  destruct (Hv ActionOverdraft entry Eo) as [Hs Hreq].
  assert (∀ rb errCode, validateRubricStructure rb errCode = Ok tt → rb_Code rb ≠ "") as Hcode.
  { intros rb errCode H E. unfold validateRubricStructure in H. rewrite E in H. done. }
  unfold require_fields, getFieldRequirements in Hreq. rewrite bool_decide_eq_true_2 in Hreq by done. cbn in Hreq.
  destruct (ae_Debit entry) as [debit|] eqn:Ed; [|done]. destruct (ae_Credit entry) as [credit|] eqn:Ec; [|done].
  unfold validate_entry in Hs. rewrite Ed, Ec in Hs. apply rbind_Ok in Hs as ([] & Hsd & Hsc).
  unfold rubric_configured. destruct Hd; [exists es, entry, debit|exists es, entry, credit]; split_and!; eauto.
Qed.

(** The legs of a later phase of a held transaction: they name the same routes, and each
    is a leg of the hold on the same account. *)
Record same_legs (v v' : Responses) (ops ops' : list BalanceOperation) : Prop := {
  sl_route : resolveTransactionRouteID v' = resolveTransactionRouteID v;
  sl_from : ∀ rid, named_from v' rid ↔ named_from v rid;
  sl_to : ∀ rid, named_to v' rid ↔ named_to v rid;
  sl_legs : ∀ op', op' ∈ ops' → ∃ op, op ∈ ops ∧ operation_route v op = operation_route v' op' ∧
    bo_Alias op = bo_Alias op' ∧ mb_AccountType (bo_Balance op) = mb_AccountType (bo_Balance op') }.

(** The operations of a commit: debits of the sources, credits of the destinations, no
    companions. *)
Definition commit_ops (v' : Responses) (ops' : list BalanceOperation) : Prop :=
  legs_covered v' ops' ∧ ∀ op', op' ∈ ops' → mb_Key (bo_Balance op') ≠ OverdraftBalanceKey ∧
    ∀ isSource rid, operation_route v' op' = Some (isSource, rid) → if isSource then op_debit op' else op_credit op'.

(** The operations of a cancellation release the sources; companions are those of the hold
    with a direction of their own. *)
Definition cancel_ops (v v' : Responses) (ops ops' : list BalanceOperation) : Prop :=
  ∀ op', op' ∈ ops' →
    (∀ rid, operation_route v' op' = Some (true, rid) → direction_exempt op') ∧
    (mb_Key (bo_Balance op') = OverdraftBalanceKey →
      (op_debit op' ∨ op_credit op') ∧
      ∃ op, op ∈ ops ∧ mb_Key (bo_Balance op) = OverdraftBalanceKey ∧
        companion_route v (bo_Alias op) = companion_route v' (bo_Alias op')).

Lemma account_same r op op' : bo_Alias op = bo_Alias op' → mb_AccountType (bo_Balance op) = mb_AccountType (bo_Balance op') →
  account_allowed (opr_Account r) op → account_allowed (opr_Account r) op'.
Proof. intros E1 E2. unfold account_allowed. by rewrite E1, E2. Qed.

Lemma commit_respected routes v v' ops ops' : routes_valid routes → routes_respected routes ActionHold v ops →
  same_legs v v' ops ops' → commit_ops v' ops' → routes_respected routes ActionCommit v' ops'.
Proof.
  intros Hv [(r0 & Hin0 & He0 & Hs0) [Hn1 Hn2] Hl Hu Hcp Hco] [_ Sf St Sl] [Hcov Hops].
  assert (∀ sd r, configured routes ActionCommit sd r ↔ configured routes ActionHold sd r) as Hconf
    by (intros; by eapply held_routes).
  constructor.
  - exists r0. split_and!; [done| |done]. destruct Hs0 as [sd0 Hs0].
    eapply (reserve_group r0 sd0 (Hv _ Hin0) Hs0); [|done]. intros ->. by eapply no_hold_destination; eauto.
  - by rewrite Sf, St.
  - intros op' Hop' isSource rid Er. destruct (Sl _ Hop') as (op & Hop & Eo & Ea & Et).
    destruct (Hl op Hop isSource rid) as (sd & r & Hc & Hsd & Hk & _ & Hacc); [congruence|].
    exists sd, r. split_and!; [by apply Hconf|done|done| |by eapply account_same]. right.
    destruct (Hops _ Hop') as [_ Hd]. specialize (Hd _ _ Er). destruct isSource, Hsd as [-> | ->]; done.
  - intros sd r Hc%Hconf. rewrite Sf, St. by apply Hu.
  - intros r _ [alias Ha] [alias' Ha']. destruct Hcov as [Cf Ct]. split.
    + destruct (Cf alias ltac:(eauto)) as (Hin & op & Hop & <-). exists op. split_and!; [done|by left|].
      apply (proj2 (Hops _ Hop) true (route_key r)). unfold operation_route. by rewrite bool_decide_eq_true_2, Ha by done.
    + destruct (Ct alias' ltac:(eauto)) as (Hin & Hno & op & Hop & <-). exists op. split_and!; [done|by right|].
      apply (proj2 (Hops _ Hop) false (route_key r)). unfold operation_route.
      rewrite bool_decide_eq_false_2 by (rewrite Hno; by intros []). by rewrite bool_decide_eq_true_2, Ha' by done.
  - intros op' Hop' Hk. by destruct (Hops _ Hop').
Qed.

Lemma cancel_accepted routes v v' ops ops' (Hdup : NoDup (route_key <$> routes)) : routes_valid routes →
  routes_respected routes ActionHold v ops → same_legs v v' ops ops' → cancel_ops v v' ops ops' →
  check_routes (routes_cache routes) ops' v' ActionCancel = Ok (Some (routes_cache routes)).
Proof.
  intros Hv [(r0 & Hin0 & He0 & Hs0) [Hn1 Hn2] Hl Hu Hcp Hco] [_ Sf St Sl] Hops. unfold check_routes.
  pose proof (resolve_spec routes ActionCancel Hdup) as Hr.
  assert (∃ r, r ∈ routes ∧ has_entry r ActionCancel ∧ is_Some (side_of (opr_OperationType r))) as Hcan.
  { exists r0. split_and!; [done| |done]. destruct Hs0 as [sd0 Hs0].
    eapply (reserve_group r0 sd0 (Hv _ Hin0) Hs0); [|done]. intros ->. by eapply no_hold_destination; eauto. }
  destruct (resolveActionRoutes _ _) as [ar|e]; cbn [rbind]; [|by destruct Hr]. destruct Hr as (_ & -> & Hr).
  rewrite bool_decide_eq_true_2 by done.
  assert (validateOperationRouteIDs v' true = Ok tt) as -> by (apply ids_ok; by rewrite Sf).
  cbn [rbind].
  assert (validateAccountRules ar (source_side v') ops' = Ok tt) as ->.
  { apply (rules_ok routes ActionCancel); [done..|]. intros op' Hop' isSource rid Er.
    assert (isSource = true ∧ operation_route v' op' = Some (true, rid)) as [-> Er'].
    { unfold operation_route, source_side in *. cbn in Er. case_bool_decide as Hf; [by simplify_eq|].
      rewrite bool_decide_eq_false_2 in Er; [done|]. rewrite lookup_empty. by intros []. }
    destruct (Sl _ Hop') as (op & Hop & Eo & Ea & Et).
    destruct (Hl op Hop true rid) as (sd & r & Hc & Hsd & Hk & _ & Hacc); [congruence|].
    exists sd, r. split_and!; [|done|done| |by eapply account_same].
    - eapply held_routes; [done..| |done]. destruct Hsd as [-> | ->]; done.
    - left. by apply (Hops _ Hop') with rid. }
  cbn [rbind].
  assert (validateOverdraftRoutes (routes_cache routes) v' ops' = Ok tt) as ->; [|done].
  apply companions_ok; [done|]. intros op' Hop' Hk. destruct (proj2 (Hops _ Hop') Hk) as (Hd & op & Hop & Hk' & Er).
  destruct (Hco op Hop Hk') as (r & Hin & Hs & Hkey & Hrub). exists r. split_and!; [done|done|congruence|].
  eapply rubric_both; [by apply Hv|exact Hrub|]. exact Hd.
Qed.

(** C13: A held transaction can always be settled: if every route was accepted by the
    matrix of scenarios and the routes of a hold were accepted, the routes of its commit
    and of its cancellation are accepted too, because hold, commit and cancel entries come
    together and an overdraft entry has the rubrics of both directions. *)
Theorem held_transaction_settles {L : UuidLaws} lookup (tr : TransactionRoute) v ops id
    (Hids : NoDup (opr_ID <$> tro_OperationRoutes tr)) (Hvalid : routes_valid (tro_OperationRoutes tr))
    (Hcov : legs_covered v ops)
    (Hid : resolveTransactionRouteID v = Ok id) (Hlook : lookup id = Ok (TransactionRoute_ToCache tr))
    (Hhold : is_ok (ValidateAccountingRules (Ok true) lookup ops v ActionHold) = true) :
  ∀ v' ops', same_legs v v' ops ops' →
    (commit_ops v' ops' → is_ok (ValidateAccountingRules (Ok true) lookup ops' v' ActionCommit) = true) ∧
    (cancel_ops v v' ops ops' → is_ok (ValidateAccountingRules (Ok true) lookup ops' v' ActionCancel) = true).
Proof.
  assert (NoDup (route_key <$> tro_OperationRoutes tr)) as Hdup by (by apply keys_distinct).
  assert (∀ ops v a, resolveTransactionRouteID v = Ok id → ValidateAccountingRules (Ok true) lookup ops v a =
    check_routes (TransactionRoute_ToCache tr) ops v a) as Hcheck.
  { intros ops1 v1 a E. unfold ValidateAccountingRules. cbn [rbind negb]. rewrite E. cbn [rbind]. by rewrite Hlook. }
  rewrite Hcheck in Hhold by done. apply check_result, check_exact in Hhold; [|done..].
  intros v' ops' Hsame. pose proof (sl_route _ _ _ _ Hsame) as Er. rewrite Hid in Er. rewrite !Hcheck by done.
  rewrite !check_result. split.
  - intros Hc. apply check_exact; [done|done|apply Hc|]. by eapply commit_respected.
  - intros Hc. by eapply cancel_accepted.
Qed.

End Held.

(** ** Sample requests *)

Module PatchSample.
Import RouteSample.
Definition fields (a : Action) (f : FieldPatch) : EntriesObject := mkObject (λ b, if bool_decide (b = a) then f else FieldAbsent) false.
Definition patch (o : EntriesObject) : PatchBody := mkPatch "" "" "" None (BodyObject o).
Definition row : @OperationRoutePostgreSQLModel FourIds.lib := OperationRoute_FromEntity (route id_source "source" source_entries).
Definition revert_entries : EntriesBody := BodyObject (mkObject (λ b, match b with
  ActionDirect | ActionRevert => FieldValue (mkEntry (rubric "1") (rubric "2")) | _ => FieldAbsent end) false).
Definition created (type : string) := createOperationRoute id_source id_org id_org 0%Z (mkCreate "" "" "" type None revert_entries).
End PatchSample.

Lemma sample_same ops ops' : (∀ op', op' ∈ ops' → ∃ op, op ∈ ops ∧ bo_Alias op = bo_Alias op' ∧
    mb_AccountType (bo_Balance op) = mb_AccountType (bo_Balance op')) →
  same_legs (P := FourIds.parse) (C := Commons.lib) RouteSample.responses RouteSample.responses ops ops'.
Proof.
  intros H. constructor; try done. intros op' (op & ? & Ea & ?)%H. exists op. split_and!; try done.
  unfold operation_route. by rewrite Ea.
Qed.


Lemma sample_phase ops' : ops' = RouteSample.commit ∨ ops' = RouteSample.cancel →
  ∀ op', op' ∈ ops' → ∃ op, op ∈ RouteSample.hold ∧ bo_Alias op = bo_Alias op' ∧
    mb_AccountType (bo_Balance op) = mb_AccountType (bo_Balance op').
Proof.
  assert (∀ op' : @BalanceOperation Fixed.lib, bo_Alias op' = RouteSample.alice ∧ mb_AccountType (bo_Balance op') = "deposit" →
    ∃ op, op ∈ RouteSample.hold ∧ bo_Alias op = bo_Alias op' ∧ mb_AccountType (bo_Balance op) = mb_AccountType (bo_Balance op')) as Ha.
  { intros op' [-> ->]. eexists. split; [left|]. by split. }
  assert (∀ op' : @BalanceOperation Fixed.lib, bo_Alias op' = RouteSample.bob ∧ mb_AccountType (bo_Balance op') = "deposit" →
    ∃ op, op ∈ RouteSample.hold ∧ bo_Alias op = bo_Alias op' ∧ mb_AccountType (bo_Balance op) = mb_AccountType (bo_Balance op')) as Hb.
  { intros op' [-> ->]. eexists. split; [right; left|]. by split. }
  intros [-> | ->] op'; unfold RouteSample.commit, RouteSample.cancel; rewrite !elem_of_cons; (intros [-> |[-> |[]%elem_of_nil]]; [apply Ha|apply Hb]; by split).
Qed.

Lemma held_transaction_settles_witness :
  RouteSample.check RouteSample.hold ActionHold = true ∧ RouteSample.check RouteSample.commit ActionCommit = true ∧
  RouteSample.check RouteSample.cancel ActionCancel = true.
Proof.
  assert (RouteSample.check RouteSample.hold ActionHold = true) as Hhold by (vm_compute; reflexivity).
  assert (routes_valid (tro_OperationRoutes RouteSample.tr)) as Hv.
  { intros r. cbn. intros [-> |[-> |[]%elem_of_nil]%elem_of_cons]%elem_of_cons; split; vm_compute; reflexivity. }
  pose proof (held_transaction_settles (P := FourIds.parse) (C := Commons.lib) RouteSample.lookup RouteSample.tr RouteSample.responses
    RouteSample.hold RouteSample.id_route sample_distinct Hv (sample_covered _ (or_introl eq_refl)) sample_lookup eq_refl Hhold) as H.
  split_and!; [done|..].
  - refine (proj1 (H RouteSample.responses RouteSample.commit _) _).
    + apply sample_same, sample_phase. by left.
    + split; [apply sample_covered; by right|]. intros op'. unfold RouteSample.commit. rewrite !elem_of_cons.
      intros [-> |[-> |[]%elem_of_nil]]; (split; [discriminate|]); intros isSource rid E; vm_compute in E; injection E as <- _; reflexivity.
  - refine (proj2 (H RouteSample.responses RouteSample.cancel _) _).
    + apply sample_same, sample_phase. by right.
    + intros op'. unfold RouteSample.cancel. rewrite !elem_of_cons. intros [-> |[-> |[]%elem_of_nil]]; (split; [|discriminate]); intros rid E;
        [right; right; by left|vm_compute in E; discriminate E].
Defined.

Lemma stored_entries_valid_witness :
  row_valid PatchSample.row ∧
  row_valid (OperationRoute_row_update 1%Z (mkUpdate "" "" "" None (decode_entries (BodyObject (PatchSample.fields ActionOverdraft FieldNull)))
    (Some (PatchSample.fields ActionOverdraft FieldNull))) PatchSample.row).
Proof.
  assert (row_valid PatchSample.row) as H by (split; vm_compute; reflexivity). split; [exact H|].
  apply (proj2 (stored_entries_valid (U := FourIds.lib)) 1%Z PatchSample.row (PatchSample.patch (PatchSample.fields ActionOverdraft FieldNull)));
    [exact H| |vm_compute; reflexivity].
  intros o e [= <-]. split; vm_compute; discriminate.
Defined.

(** A PATCH may store a block entry the matrix forbids: the merged view that is validated
    leaves out the entries of blocking. *)
Theorem block_patch_not_validated :
  let body := PatchSample.patch (PatchSample.fields ActionBlock (FieldValue (mkEntry None (RouteSample.rubric "1")))) in
  ∃ up, check_patch (Ok (OperationRoute_ToEntity PatchSample.row)) body = Ok up ∧ ¬ row_valid (OperationRoute_row_update 1%Z up PatchSample.row).
Proof. eexists. split; [vm_compute; reflexivity|]. intros [_ H]. vm_compute in H. discriminate H. Qed.

(** The type of a route is validated as written and stored in lower case: written in upper
    case, a source route gets the entry for reversals that the matrix forbids. *)
Theorem upper_case_type_escapes_matrix :
  PatchSample.created "source" = Err ErrRevertOnlyBidirectional ∧
  ∃ row, PatchSample.created "SOURCE" = Ok row ∧ rr_OperationType row = "source" ∧ ¬ row_valid row.
Proof.
  split; [vm_compute; reflexivity|]. eexists. split_and!; [vm_compute; reflexivity|reflexivity|].
  intros [_ H]. vm_compute in H. discriminate H.
Qed.

(** A rule type is accepted in any case, but only matched in lower case: with the type in
    upper case every operation is rejected. *)
Theorem upper_case_rule_rejects_everything {Dl : DecimalLib} (op : BalanceOperation) s :
  validateAccountRule (Some (mkAccountRule "ALIAS" (Some (ValidIfString s)))) = Ok tt ∧
  validateSingleOperationRule op (mkAccountCache "ALIAS" (Some (ValidIfString s))) = Err ErrCorruptedAccountRule.
Proof. split; reflexivity. Qed.

(** An explicit null for all the entries changes nothing: it decodes like an absent field. *)
Theorem null_entries_ignored {U : UuidLib} existing title description code account :
  check_patch existing (mkPatch title description code account BodyNull) =
  check_patch existing (mkPatch title description code account BodyAbsent).
Proof. reflexivity. Qed.

(** An empty list of account types is accepted and read back as no list, which rejects
    every operation as corrupted. *)
Theorem empty_type_list_corrupts {Dl : DecimalLib} (op : BalanceOperation) :
  let rule := mkAccountRule AccountRuleTypeAccountType (Some (ValidIfStrings [])) in
  validateAccountRule (Some rule) = Ok tt ∧
  ∃ rule', row_account (rule_RuleType rule) (valid_if_text (rule_RuleType rule) (rule_ValidIf rule)) = Some rule' ∧
    validateSingleOperationRule op (mkAccountCache (rule_RuleType rule') (rule_ValidIf rule')) = Err ErrCorruptedAccountRule.
Proof. split; [reflexivity|]. eexists. split; [vm_compute; reflexivity|reflexivity]. Qed.
