(* ===== verification/RouteCache.v ===== *)
(** * Commands on routes and the cache of transaction routes

    The handlers and commands that create, change and delete operation and transaction
    routes (src/components/ledger/internal/adapters/http/in/operation_route.go and
    transaction_route.go, services/command/*_route*.go) over the tables of the two
    repositories, and the cache without expiry from which transactions are validated
    (services/query/get_or_create_transaction_route_cache.go).

    Statements of the database are assumed to succeed; a call to the metadata store or to
    Redis may fail ([calls]).  Tables are read as sets: the order of the rows of a query
    does not matter to what the commands do with them.  Commands and lookups are served one
    at a time; a lookup is also given in parts, for a change that overtakes it. *)

From Stdlib Require Import ZArith Lia.
From stdpp Require Import base gmap strings list.
From S2P Require Import Prelude Decimals GoStrings Transaction BalanceOps MBalance SendValidation CacheKeys.
From S2P Require Import BalancePlan GoTime OperationRecords AccountingRoutes RouteConfig.
Local Open Scope string_scope.
Local Open Scope list_scope.
Local Open Scope Z_scope.

Inductive CommandError :=
  | Rejected (e : ConfigError) | ErrOperationRouteLinkedToTransactionRoutes | ErrTransactionRouteNotFound
  | ErrNoSourceForAction | ErrNoDestinationForAction | ErrMissingOperationRoutes | ErrTooManyOperationRoutes
  | ScanFailed | MetadataFailed | RedisFailed | DuplicateKey.

Definition maxOperationRouteInputs : nat := 100.
Definition sentinelTTL : Z := 60 * Second.

(** Lift a rejected request. *)
Definition rejected {A} (r : result ConfigError A) : result CommandError A :=
  match r with Ok a => Ok a | Err e => Err (Rejected e) end.

(** [validateOperationRouteTypes] *)
Definition validateOperationRouteTypes {U : UuidLib} (routes : list OperationRoute) : result CommandError unit :=
  let has t := existsb (λ r, bool_decide (opr_OperationType r = t)) routes in
  if negb (has OperationRouteTypeSource || has OperationRouteTypeBidirectional) then Err ErrNoSourceForAction
  else if negb (has OperationRouteTypeDestination || has OperationRouteTypeBidirectional) then Err ErrNoDestinationForAction
  else Ok tt.

Section Commands.
Context {U : UuidLib} `{!EqDecision uuid, !Countable uuid}.

Record TransactionRouteRow := mkTxRouteRow {
  trr_ID : uuid; trr_OrganizationID : uuid; trr_LedgerID : uuid; trr_Title : string; trr_Description : string;
  trr_CreatedAt : Time; trr_UpdatedAt : Time; trr_DeletedAt : option Time }.

(** What Redis holds under a key: a route, the mark of a missing one with its expiry, or
    bytes that do not decode. *)
Inductive cached := CachedRoute (c : TransactionRouteCache) | CachedNotFound (expiry : Time) | CachedGarbage.

(** The links that are not deleted are pairs of an operation and a transaction route. *)
Record routes_store := mkRoutes {
  st_operation : gmap uuid OperationRoutePostgreSQLModel; st_transaction : gmap uuid TransactionRouteRow;
  st_links : gset (uuid * uuid); st_cache : gmap string cached }.

Definition set_cache (m : gmap string cached) (st : routes_store) : routes_store :=
  mkRoutes (st_operation st) (st_transaction st) (st_links st) m.
Definition set_operation (m : gmap uuid OperationRoutePostgreSQLModel) (st : routes_store) : routes_store :=
  mkRoutes m (st_transaction st) (st_links st) (st_cache st).

Record calls := mkCalls { ca_metadata : bool; ca_get : bool; ca_set : uuid → bool }.

(** ** Queries *)

Definition op_row_live (org led : uuid) (row : OperationRoutePostgreSQLModel) : bool :=
  bool_decide (rr_OrganizationID row = org) && bool_decide (rr_LedgerID row = led) && bool_decide (rr_DeletedAt row = None).
Definition tx_row_live (org led : uuid) (row : TransactionRouteRow) : bool :=
  bool_decide (trr_OrganizationID row = org) && bool_decide (trr_LedgerID row = led) && bool_decide (trr_DeletedAt row = None).

(** [OperationRouteRepo.FindByID] *)
Definition FindOperationRoute (st : routes_store) (org led id : uuid) : result ConfigError OperationRoutePostgreSQLModel :=
  match st_operation st !! id with
  | Some row => if op_row_live org led row then Ok row else Err ErrOperationRouteNotFound
  | None => Err ErrOperationRouteNotFound
  end.

(** [OperationRouteRepo.FindByIDs]: each row once, and an error if one is missing. *)
Definition FindByIDs (st : routes_store) (org led : uuid) (ids : list uuid) : result ConfigError (list OperationRoute) :=
  match mapM (λ id, match FindOperationRoute st org led id with Ok row => Some row | Err _ => None end)
             (elements (list_to_set ids : gset uuid)) with
  | Some rows => Ok (OperationRoute_ToEntity <$> rows)
  | None => Err ErrOperationRouteNotFound
  end.

Definition routes_of (st : routes_store) (id : uuid) : gset uuid := set_map fst (filter (λ l, l.2 = id) (st_links st)).
Definition transactions_of (st : routes_store) (id : uuid) : gset uuid := set_map snd (filter (λ l, l.1 = id) (st_links st)).

(** [TransactionRouteRepo.FindByID]: the columns of the outer joins do not scan when there
    is no link, or no live operation route behind one. *)
Definition FindTransactionRoute (st : routes_store) (org led id : uuid) : result CommandError TransactionRoute :=
  match st_transaction st !! id with
  | Some row =>
      if tx_row_live org led row then
        match mapM (λ op, match st_operation st !! op with
                          | Some r => if bool_decide (rr_DeletedAt r = None) then Some r else None
                          | None => None
                          end) (elements (routes_of st id)) with
        | Some (r :: rows) =>
            Ok (mkTransactionRoute (trr_ID row) (trr_OrganizationID row) (trr_LedgerID row) (trr_Title row)
                  (trr_Description row) (OperationRoute_ToEntity <$> r :: rows) (trr_CreatedAt row) (trr_UpdatedAt row)
                  (trr_DeletedAt row))
        | _ => Err ScanFailed
        end
      else Err ErrTransactionRouteNotFound
  | None => Err ErrTransactionRouteNotFound
  end.

(** ** The cache *)

Definition cache_key (org led id : uuid) : string := AccountingRoutesInternalKey org led id.

(** [CreateAccountingRouteCache]; its failure is only logged by the callers. *)
Definition CreateAccountingRouteCache (ok : bool) (tr : TransactionRoute) (st : routes_store) : routes_store :=
  if ok then set_cache (<[cache_key (tro_OrganizationID tr) (tro_LedgerID tr) (tro_ID tr) :=
                            CachedRoute (TransactionRoute_ToCache tr)]> (st_cache st)) st
  else st.

Definition ReloadOperationRouteCache (cs : calls) (org led id : uuid) (st : routes_store) : routes_store :=
  foldl (λ st' t, match FindTransactionRoute st' org led t with
                  | Ok tr => CreateAccountingRouteCache (ca_set cs t) tr st'
                  | Err _ => st'
                  end) st (elements (transactions_of st id)).

(** [GetOrCreateTransactionRouteCache] in its three parts: what the cache answers, if it
    answers; the query; and what is stored and returned for what the query found.  Another
    request may run between them; the whole is the lookup with nothing in between. *)
Definition cached_route (cs : calls) (now : Time) (org led id : uuid) (st : routes_store)
    : option (result CommandError TransactionRouteCache) :=
  if ca_get cs then
    match st_cache st !! cache_key org led id with
    | Some (CachedNotFound expiry) => if now <? expiry then Some (Err ErrTransactionRouteNotFound) else None
    | Some (CachedRoute c) => Some (Ok c)
    | _ => None
    end
  else None.

Definition cache_found (cs : calls) (now : Time) (org led id : uuid) (found : result CommandError TransactionRoute)
    (st : routes_store) : routes_store * result CommandError TransactionRouteCache :=
  let key := cache_key org led id in
  match found with
  | Err ErrTransactionRouteNotFound =>
      (if ca_set cs id then set_cache (<[key := CachedNotFound (now + sentinelTTL)]> (st_cache st)) st else st,
       Err ErrTransactionRouteNotFound)
  | Err e => (st, Err e)
  | Ok tr =>
      if ca_set cs id then (set_cache (<[key := CachedRoute (TransactionRoute_ToCache tr)]> (st_cache st)) st, Ok (TransactionRoute_ToCache tr))
      else (st, Err RedisFailed)
  end.

Definition GetOrCreateTransactionRouteCache (cs : calls) (now : Time) (org led id : uuid) (st : routes_store)
    : routes_store * result CommandError TransactionRouteCache :=
  match cached_route cs now org led id st with
  | Some r => (st, r)
  | None => cache_found cs now org led id (FindTransactionRoute st org led id) st
  end.

(** ** Commands *)

Definition CreateOperationRoute (cs : calls) (newID org led : uuid) (now : Time) (body : CreateBody) (st : routes_store)
    : routes_store * result CommandError unit :=
  match createOperationRoute newID org led now body with
  | Err e => (st, Err (Rejected e))
  | Ok row =>
      match st_operation st !! newID with
      | Some _ => (st, Err DuplicateKey)
      | None => (set_operation (<[newID := row]> (st_operation st)) st, if ca_metadata cs then Ok tt else Err MetadataFailed)
      end
  end.

(** The cache is reloaded only for a request with an account rule. *)
Definition UpdateOperationRoute (cs : calls) (now : Time) (org led id : uuid) (body : PatchBody) (st : routes_store)
    : routes_store * result CommandError unit :=
  match check_patch (match FindOperationRoute st org led id with Ok row => Ok (OperationRoute_ToEntity row) | Err e => Err e end) body with
  | Err e => (st, Err (Rejected e))
  | Ok up =>
      match FindOperationRoute st org led id with
      | Err e => (st, Err (Rejected e))
      | Ok row =>
          let st' := set_operation (<[id := OperationRoute_row_update now up row]> (st_operation st)) st in
          if negb (ca_metadata cs) then (st', Err MetadataFailed)
          else (if bool_decide (pb_Account body = None) then st' else ReloadOperationRouteCache cs org led id st', Ok tt)
      end
  end.

Definition op_row_deleted (now : Time) (row : OperationRoutePostgreSQLModel) : OperationRoutePostgreSQLModel :=
  mkRouteRow (rr_ID row) (rr_OrganizationID row) (rr_LedgerID row) (rr_Title row) (rr_Description row) (rr_Code row)
    (rr_OperationType row) (rr_AccountRuleType row) (rr_AccountRuleValidIf row) (rr_AccountingEntries row)
    (rr_CreatedAt row) (rr_UpdatedAt row) (Some now).

Definition DeleteOperationRouteByID (now : Time) (org led id : uuid) (st : routes_store)
    : routes_store * result CommandError unit :=
  match FindOperationRoute st org led id with
  | Ok row =>
      if bool_decide (transactions_of st id = ∅)
      then (set_operation (<[id := op_row_deleted now row]> (st_operation st)) st, Ok tt)
      else (st, Err ErrOperationRouteLinkedToTransactionRoutes)
  | Err e => (st, Err (Rejected e))
  end.

Definition CreateTransactionRoute (cs : calls) (newID org led : uuid) (now : Time) (title description : string)
    (ids : list uuid) (st : routes_store) : routes_store * result CommandError unit :=
  match (let! routes := rejected (FindByIDs st org led ids) in
         do! validateOperationRouteTypes routes;; Ok routes) with
  | Err e => (st, Err e)
  | Ok routes =>
      match st_transaction st !! newID with
      | Some _ => (st, Err DuplicateKey)
      | None =>
          let row := mkTxRouteRow newID org led title description now now None in
          let st' := mkRoutes (st_operation st) (<[newID := row]> (st_transaction st))
                       (list_to_set ((λ r, (opr_ID r, newID)) <$> routes) ∪ st_links st) (st_cache st) in
          if negb (ca_metadata cs) then (st', Err MetadataFailed)
          else (CreateAccountingRouteCache (ca_set cs newID)
                  (mkTransactionRoute newID org led title description routes now now None) st', Ok tt)
      end
  end.

(** [handleOperationRouteUpdates] *)
Definition handleOperationRouteUpdates (st : routes_store) (org led id : uuid) (inputs : list uuid)
    : result CommandError (gset uuid * gset uuid * list OperationRoute) :=
  if (length inputs <? 2)%nat then Err ErrMissingOperationRoutes
  else if (maxOperationRouteInputs <? length inputs)%nat then Err ErrTooManyOperationRoutes
  else
    let! current := FindTransactionRoute st org led id in
    let! routes := rejected (FindByIDs st org led inputs) in
    do! validateOperationRouteTypes routes;;
    let existing : gset uuid := list_to_set (opr_ID <$> tro_OperationRoutes current) in
    let new : gset uuid := list_to_set inputs in
    Ok (new ∖ existing, existing ∖ new, routes).

Definition UpdateTransactionRoute (cs : calls) (now : Time) (org led id : uuid) (title description : string)
    (inputs : option (list uuid)) (st : routes_store) : routes_store * result CommandError unit :=
  match match inputs with
        | None => Ok (∅, ∅, None)
        | Some l => let! (toAdd, toRemove, routes) := handleOperationRouteUpdates st org led id l in Ok (toAdd, toRemove, Some routes)
        end with
  | Err e => (st, Err e)
  | Ok (toAdd, toRemove, touched) =>
      match st_transaction st !! id with
      | Some row =>
          if tx_row_live org led row then
            let row' := mkTxRouteRow (trr_ID row) (trr_OrganizationID row) (trr_LedgerID row)
                          (if bool_decide (title = "") then trr_Title row else title)
                          (if bool_decide (description = "") then trr_Description row else description)
                          (trr_CreatedAt row) now (trr_DeletedAt row) in
            let links := set_map (λ op, (op, id)) toAdd ∪ (st_links st ∖ set_map (λ op, (op, id)) toRemove) in
            let st' := mkRoutes (st_operation st) (<[id := row']> (st_transaction st)) links (st_cache st) in
            match match touched with
                  | Some routes => Ok routes
                  | None => FindByIDs st' org led (elements (routes_of st' id))
                  end with
            | Err e => (st', Err (Rejected e))
            | Ok routes =>
                if negb (ca_metadata cs) then (st', Err MetadataFailed)
                else (CreateAccountingRouteCache (ca_set cs id)
                        (mkTransactionRoute (trr_ID row') (trr_OrganizationID row') (trr_LedgerID row') (trr_Title row')
                           (trr_Description row') routes (trr_CreatedAt row') (trr_UpdatedAt row') (trr_DeletedAt row')) st', Ok tt)
            end
          else (st, Err ErrTransactionRouteNotFound)
      | None => (st, Err ErrTransactionRouteNotFound)
      end
  end.

Definition DeleteTransactionRouteByID (cs : calls) (now : Time) (org led id : uuid) (st : routes_store)
    : routes_store * result CommandError unit :=
  match FindTransactionRoute st org led id with
  | Err e => (st, Err e)
  | Ok tr =>
      let removed : gset (uuid * uuid) := list_to_set ((λ r, (opr_ID r, id)) <$> tro_OperationRoutes tr) in
      let delete_row row := mkTxRouteRow (trr_ID row) (trr_OrganizationID row) (trr_LedgerID row) (trr_Title row)
                              (trr_Description row) (trr_CreatedAt row) (trr_UpdatedAt row) (Some now) in
      (mkRoutes (st_operation st) (alter delete_row id (st_transaction st)) (st_links st ∖ removed)
         (if ca_set cs id then delete (cache_key org led id) (st_cache st) else st_cache st), Ok tt)
  end.

(** ** Coherence *)

(** The cached tables are those of the routes linked to a transaction route. *)
Definition linked_route (st : routes_store) (t : uuid) (r : OperationRoute) : Prop :=
  ∃ op row, (op, t) ∈ st_links st ∧ st_operation st !! op = Some row ∧ r = OperationRoute_ToEntity row.

Definition represents (st : routes_store) (t : uuid) (c : TransactionRouteCache) : Prop :=
  (∀ a sd rid rc, side_lookup c a sd !! rid = Some rc ↔
     ∃ r, linked_route st t r ∧ side_of (opr_OperationType r) = Some sd ∧ has_entry r a ∧ route_key r = rid ∧ route_data r = rc) ∧
  (∀ a, is_Some (c a) ↔ ∃ r, linked_route st t r ∧ has_entry r a ∧ is_Some (side_of (opr_OperationType r))).

Record tables_ok (st : routes_store) : Prop := {
  wf_op_key : ∀ id row, st_operation st !! id = Some row → rr_ID row = id;
  wf_tx_key : ∀ id row, st_transaction st !! id = Some row → trr_ID row = id;
  wf_links : ∀ op t, (op, t) ∈ st_links st → ∃ r x, st_operation st !! op = Some r ∧ st_transaction st !! t = Some x ∧
    rr_DeletedAt r = None ∧ trr_DeletedAt x = None ∧ rr_OrganizationID r = trr_OrganizationID x ∧ rr_LedgerID r = trr_LedgerID x;
  wf_linked : ∀ t x, st_transaction st !! t = Some x → trr_DeletedAt x = None → ∃ op, (op, t) ∈ st_links st }.

(** Routes in the cache are live, and up to date unless they are in [T]; live routes are
    not marked as missing. *)
Record coherent_except (T : gset uuid) (st : routes_store) : Prop := {
  co_tables : tables_ok st;
  co_cached : ∀ org led t c, st_cache st !! cache_key org led t = Some (CachedRoute c) →
    (∃ x, st_transaction st !! t = Some x ∧ tx_row_live org led x = true) ∧ (t ∉ T → represents st t c);
  co_present : ∀ org led t x, st_transaction st !! t = Some x → tx_row_live org led x = true → t ∉ T →
    ∀ e, st_cache st !! cache_key org led t ≠ Some (CachedNotFound e) }.

Lemma tx_live_iff org led x : tx_row_live org led x = true ↔
  trr_OrganizationID x = org ∧ trr_LedgerID x = led ∧ trr_DeletedAt x = None.
Proof. unfold tx_row_live. rewrite !andb_true_iff, !bool_decide_eq_true. tauto. Qed.
Lemma op_live_iff org led r : op_row_live org led r = true ↔
  rr_OrganizationID r = org ∧ rr_LedgerID r = led ∧ rr_DeletedAt r = None.
Proof. unfold op_row_live. rewrite !andb_true_iff, !bool_decide_eq_true. tauto. Qed.

Lemma elem_of_routes_of st t op : op ∈ routes_of st t ↔ (op, t) ∈ st_links st.
Proof.
  unfold routes_of. rewrite elem_of_map. split.
  - intros ([op' t'] & -> & [Ht Hin]%elem_of_filter). cbn in *. by subst.
  - intros Hin. exists (op, t). rewrite elem_of_filter. done.
Qed.
Lemma elem_of_transactions_of st op t : t ∈ transactions_of st op ↔ (op, t) ∈ st_links st.
Proof.
  unfold transactions_of. rewrite elem_of_map. split.
  - intros ([op' t'] & -> & [Ht Hin]%elem_of_filter). cbn in *. by subst.
  - intros Hin. exists (op, t). rewrite elem_of_filter. done.
Qed.

Lemma rep_unique st t c c' : represents st t c → represents st t c' → ∀ a, c a = c' a.
Proof.
  intros [L1 P1] [L2 P2] a.
  assert (∀ sd, side_lookup c a sd = side_lookup c' a sd) as Hs.
  { intros sd. apply map_eq. intros rid. apply option_eq. intros rc. by rewrite L1, L2. }
  pose proof (P1 a) as H1. pose proof (P2 a) as H2. unfold side_lookup in Hs.
  destruct (c a) as [[s d b]|], (c' a) as [[s' d' b']|]; [|exfalso..|done].
  - pose proof (Hs Src) as E1. pose proof (Hs Dst) as E2. pose proof (Hs Bid) as E3. cbn in *. by subst.
  - assert (is_Some (@None ActionRouteCache)) as []; [|done]. apply H2, H1. done.
  - assert (is_Some (@None ActionRouteCache)) as []; [|done]. apply H1, H2. done.
Qed.

Lemma rep_list {L : UuidLaws} st t l : NoDup (opr_ID <$> l) → (∀ r, r ∈ l ↔ linked_route st t r) → represents st t (routes_cache l).
Proof.
  intros Hd Hl. split.
  - intros a sd rid rc. rewrite routes_cache_lookup by (by apply keys_distinct). by setoid_rewrite Hl.
  - intros a. rewrite routes_cache_present. by setoid_rewrite Hl.
Qed.

(** Rows in the order of a list of identifiers. *)
Lemma rows_spec (f : uuid → option OperationRoutePostgreSQLModel) ids rows :
  (∀ id row, f id = Some row → rr_ID row = id) → mapM f ids = Some rows →
  opr_ID <$> (OperationRoute_ToEntity <$> rows) = ids ∧
  ∀ r, r ∈ OperationRoute_ToEntity <$> rows ↔ ∃ id row, id ∈ ids ∧ f id = Some row ∧ r = OperationRoute_ToEntity row.
Proof.
  intros Hf Hm. apply mapM_Some in Hm. induction Hm as [|id row ids rows Hrow Hm IH]; cbn.
  - split; [done|]. intros r. split; [by intros ?%elem_of_nil|]. intros (? & ? & ?%elem_of_nil & _). done.
  - destruct IH as [IH1 IH2]. split; [by rewrite IH1, (Hf _ _ Hrow)|]. intros r. rewrite elem_of_cons, IH2. split.
    + intros [-> |(id' & row' & ? & ? & ?)]; [exists id, row; split_and!; [by left|done..]|exists id', row'; split_and!; [by right|done..]].
    + intros (id' & row' & [-> |Hin]%elem_of_cons & E & ->); [left; congruence|right; eauto].
Qed.

Section Coherence.
Context {L : UuidLaws}.

Lemma cache_key_inj org led id org' led' id' : cache_key org led id = cache_key org' led' id' → org = org' ∧ led = led' ∧ id = id'.
Proof. destruct (cache_keys_injective org org' led led') as (_ & _ & _ & _ & H & _). apply H. Qed.

(** A list of routes that is the linked ones. *)
Definition lists_routes (st : routes_store) (t : uuid) (l : list OperationRoute) : Prop :=
  NoDup (opr_ID <$> l) ∧ (∀ r, r ∈ l ↔ linked_route st t r).

Lemma find_live st org led t x : tables_ok st → st_transaction st !! t = Some x → tx_row_live org led x = true →
  ∃ tr, FindTransactionRoute st org led t = Ok tr ∧ tro_ID tr = t ∧ tro_OrganizationID tr = org ∧ tro_LedgerID tr = led ∧
    lists_routes st t (tro_OperationRoutes tr).
Proof.
  intros [Ho Ht Hl Hk] Hx Hlive. unfold FindTransactionRoute. rewrite Hx, Hlive.
  set (f := λ op, match st_operation st !! op with Some r => if bool_decide (rr_DeletedAt r = None) then Some r else None | None => None end).
  assert (∀ op r, f op = Some r → st_operation st !! op = Some r) as Hf.
  { intros op r. subst f. cbn. destruct (st_operation st !! op); [|done]. by case_bool_decide; intros [= ->]. }
  assert (is_Some (mapM f (elements (routes_of st t)))) as [rows Hm].
  { apply mapM_is_Some, Forall_forall. intros op (r & y & Hr & _ & Hd & _)%elem_of_elements%elem_of_routes_of%Hl.
    subst f. cbn. rewrite Hr, bool_decide_eq_true_2 by done. eauto. }
  rewrite Hm. pose proof (rows_spec f _ _ (λ op r H, Ho _ _ (Hf op r H)) Hm) as [Hids Hin].
  apply tx_live_iff in Hlive as (Horg & Hled & Hdel).
  assert (lists_routes st t (OperationRoute_ToEntity <$> rows)) as Hlist.
  { split; [rewrite Hids; apply NoDup_elements|]. intros r. rewrite Hin. unfold linked_route. split.
    - intros (op & row & Hop%elem_of_elements%elem_of_routes_of & Hr%Hf & ->). eauto 10.
    - intros (op & row & Hop & Hr & ->). exists op, row. split_and!; [by apply elem_of_elements, elem_of_routes_of| |done].
      destruct (Hl _ _ Hop) as (r & y & Hr' & _ & Hd & _). subst f. cbn. rewrite Hr in Hr'. simplify_eq.
      by rewrite Hr, bool_decide_eq_true_2. }
  destruct rows as [|r rows].
  { exfalso. destruct (Hk _ _ Hx Hdel) as [op Hop]. destruct (Hl _ _ Hop) as (r & y & Hr & _).
    assert (OperationRoute_ToEntity r ∈ OperationRoute_ToEntity <$> (@nil OperationRoutePostgreSQLModel)) as Hn; [|by apply elem_of_nil in Hn].
    apply Hlist. by exists op, r. }
  eexists. split; [done|]. cbn [tro_ID tro_OrganizationID tro_LedgerID tro_OperationRoutes]. split_and!; try done. by apply Ht.
Qed.

Lemma find_not_live st org led t : (∀ x, st_transaction st !! t = Some x → tx_row_live org led x = false) →
  FindTransactionRoute st org led t = Err ErrTransactionRouteNotFound.
Proof.
  intros H. unfold FindTransactionRoute. destruct (st_transaction st !! t) as [x|]; [|done]. by rewrite H.
Qed.

Lemma find_ids st org led ids l : tables_ok st → FindByIDs st org led ids = Ok l →
  NoDup (opr_ID <$> l) ∧ (list_to_set (opr_ID <$> l) : gset uuid) = list_to_set ids ∧
  (∀ r, r ∈ l ↔ ∃ id row, id ∈ ids ∧ st_operation st !! id = Some row ∧ r = OperationRoute_ToEntity row) ∧
  (∀ id, id ∈ ids → ∃ row, st_operation st !! id = Some row ∧ op_row_live org led row = true).
Proof.
  intros Hok. unfold FindByIDs. set (f := λ id, match FindOperationRoute st org led id with Ok row => Some row | Err _ => None end).
  assert (∀ id row, f id = Some row ↔ st_operation st !! id = Some row ∧ op_row_live org led row = true) as Hf.
  { intros id row. subst f. unfold FindOperationRoute. destruct (st_operation st !! id) as [r|]; [|by split; [|intros [? _]]].
    destruct (op_row_live org led r) eqn:E; split; [intros [= <-]; done|by intros [[= ->] _]|done|intros [[= ->] ?]; congruence]. }
  destruct (mapM f _) as [rows|] eqn:Hm; [|done]. intros [= <-].
  destruct (rows_spec f _ _ (λ id row H, wf_op_key _ Hok _ _ (proj1 (proj1 (Hf id row) H))) Hm) as [Hids Hin].
  rewrite Hids.
  assert (∀ id, id ∈ ids → ∃ row, st_operation st !! id = Some row ∧ op_row_live org led row = true) as Hall.
  { intros id Hid. assert (is_Some (mapM f (elements (list_to_set ids : gset uuid)))) as Hs by eauto.
    apply mapM_is_Some in Hs. rewrite Forall_forall in Hs. destruct (Hs id) as [row Hr%Hf]; [set_solver|eauto]. }
  split_and!; [apply NoDup_elements|apply set_eq; set_solver| |done].
  intros r. rewrite Hin. split.
  - intros (id & row & Hid & [Hr _]%Hf & ->). exists id, row. set_solver.
  - intros (id & row & Hid & Hr & ->). exists id, row. split_and!; [set_solver| |done]. apply Hf. split; [done|].
    destruct (Hall id Hid) as (row' & Hr' & ?). congruence.
Qed.

(** Writing the tables of a live route brings it up to date. *)
Lemma refresh T st org led t tr x : coherent_except T st → st_transaction st !! t = Some x → tx_row_live org led x = true →
  tro_ID tr = t → tro_OrganizationID tr = org → tro_LedgerID tr = led → lists_routes st t (tro_OperationRoutes tr) →
  coherent_except (T ∖ {[t]}) (CreateAccountingRouteCache true tr st).
Proof.
  intros [Htab Hc Hp] Hx Hlive <- <- <- [Hd Hin]. unfold CreateAccountingRouteCache. split.
  - by destruct Htab; constructor.
  - intros org led t c. cbn. rewrite lookup_insert_Some. intros [[(<- & <- & <-)%cache_key_inj [= <-]]|[Hne E]].
    + split; [by eauto|]. intros _. by apply rep_list.
    + destruct (Hc _ _ _ _ E) as [(y & Hy & Hly) Hr]. split; [eauto|]. intros Ht. apply Hr. intros HT.
      destruct (decide (t = tro_ID tr)) as [-> |?]; [|set_solver]. rewrite Hx in Hy. simplify_eq.
      apply tx_live_iff in Hlive as (? & ? & _). apply tx_live_iff in Hly as (? & ? & _). congruence.
  - intros org led t y Hy Hly Ht e. cbn. rewrite lookup_insert_Some. intros [[_ [=]]|[Hne E]].
    destruct (decide (t = tro_ID tr)) as [-> |?]; [|by eapply Hp; [..|exact E]; eauto; set_solver].
    cbn in Hy. rewrite Hx in Hy. simplify_eq. apply tx_live_iff in Hlive as (? & ? & _). apply tx_live_iff in Hly as (? & ? & _). congruence.
Qed.

Lemma reload_list org led l st T : coherent_except (T ∪ list_to_set l) st → T ## list_to_set l → NoDup l →
  (∀ t, t ∈ l → ∃ x, st_transaction st !! t = Some x ∧ tx_row_live org led x = true) →
  coherent_except T (foldl (λ st' t, match FindTransactionRoute st' org led t with
                                     | Ok tr => CreateAccountingRouteCache true tr st' | Err _ => st' end) st l).
Proof.
  revert st. induction l as [|t l IH]; intros st Hc Hd Hnd Hl; cbn.
  - by replace (T ∪ list_to_set []) with T in Hc by set_solver.
  - apply NoDup_cons in Hnd as [Hn Hnd]. destruct (Hl t ltac:(set_solver)) as (x & Hx & Hlive).
    destruct (find_live st org led t x (co_tables _ _ Hc) Hx Hlive) as (tr & -> & E1 & E2 & E3 & Hlist).
    apply IH; [|set_solver|done|].
    + replace (T ∪ list_to_set l) with ((T ∪ list_to_set (t :: l)) ∖ {[t]}).
      * by eapply refresh.
      * apply set_eq. intros y. destruct (decide (y = t)) as [-> |]; set_solver.
    + intros t' Ht'. apply Hl. set_solver.
Qed.

(** Changes that do not show in the tables. *)
Definition same_view (r r' : OperationRoute) : Prop := opr_ID r = opr_ID r' ∧ route_data r = route_data r'.

Lemma rep_transfer st st' t c :
  (∀ r, linked_route st t r → ∃ r', linked_route st' t r' ∧ same_view r r') →
  (∀ r', linked_route st' t r' → ∃ r, linked_route st t r ∧ same_view r r') →
  represents st t c → represents st' t c.
Proof.
  intros H1 H2 [Hl Hp].
  assert (∀ r r' a, same_view r r' → opr_OperationType r = opr_OperationType r' ∧ (has_entry r a ↔ has_entry r' a) ∧ route_key r = route_key r') as Hv.
  { intros r r' a [Ei Ed]. unfold route_data in Ed. unfold has_entry, route_key. rewrite Ei. injection Ed as _ Et _ _ Ee. by rewrite Et, Ee. }
  split.
  - intros a sd rid rc. rewrite Hl. split.
    + intros (r & (r' & Hr' & Hsv)%H1 & Hs & He & Hk & Hd). exists r'. destruct (Hv _ _ a Hsv) as (E1 & E2 & E3), Hsv as [_ E4].
      rewrite <-E1, <-E3, <-E4, <-E2. done.
    + intros (r' & (r & Hr & Hsv)%H2 & Hs & He & Hk & Hd). exists r. destruct (Hv _ _ a Hsv) as (E1 & E2 & E3), Hsv as [_ E4].
      rewrite E1, E3, E4, E2. done.
  - intros a. rewrite Hp. split.
    + intros (r & (r' & Hr' & Hsv)%H1 & He & Hs). exists r'. destruct (Hv _ _ a Hsv) as (E1 & E2 & E3). by rewrite <-E1, <-E2.
    + intros (r' & (r & Hr & Hsv)%H2 & He & Hs). exists r. destruct (Hv _ _ a Hsv) as (E1 & E2 & E3). by rewrite E1, E2.
Qed.

(** Changing the rows of operation routes: linked rows stay alive, in their ledger and
    under their identifier. *)
Lemma set_operation_coherent T st m :
  coherent_except ∅ st →
  (∀ id row, m !! id = Some row → rr_ID row = id) →
  (∀ op t r, (op, t) ∈ st_links st → st_operation st !! op = Some r → ∃ r', m !! op = Some r' ∧ rr_DeletedAt r' = rr_DeletedAt r ∧
     rr_OrganizationID r' = rr_OrganizationID r ∧ rr_LedgerID r' = rr_LedgerID r ∧
     (t ∉ T → same_view (OperationRoute_ToEntity r) (OperationRoute_ToEntity r'))) →
  coherent_except T (set_operation m st).
Proof.
  intros [[Ho Ht Hl Hk] Hc Hp] Hid Hm. split.
  - constructor; cbn; [done|done| |done]. intros op t Hin. destruct (Hl _ _ Hin) as (r & x & Hr & Hx & E1 & E2 & E3 & E4).
    destruct (Hm _ _ _ Hin Hr) as (r' & Hr' & D1 & D2 & D3 & _). exists r', x. rewrite D1, D2, D3. done.
  - intros org led t c E. destruct (Hc _ _ _ _ E) as [Hx Hr]. split; [done|]. intros HT.
    eapply rep_transfer; [| |apply Hr; set_solver].
    + intros r (op & row & Hin & Hrow & ->). destruct (Hm _ _ _ Hin Hrow) as (r' & Hr' & _ & _ & _ & Hv).
      exists (OperationRoute_ToEntity r'). split; [by exists op, r'|by apply Hv].
    + intros r' (op & row' & Hin & Hrow' & ->). cbn in Hin. destruct (Hl _ _ Hin) as (r & x & Hr0 & _).
      destruct (Hm _ _ _ Hin Hr0) as (r'' & Hr'' & _ & _ & _ & Hv). cbn in Hrow'. rewrite Hrow' in Hr''. injection Hr'' as <-.
      exists (OperationRoute_ToEntity r). split; [by exists op, r|by apply Hv].
  - intros org led t x Hx Hlive _ e. apply (Hp _ _ _ _ Hx Hlive). set_solver.
Qed.

Lemma find_operation st org led id row : FindOperationRoute st org led id = Ok row ↔
  st_operation st !! id = Some row ∧ op_row_live org led row = true.
Proof.
  unfold FindOperationRoute. destruct (st_operation st !! id) as [r|]; [|by split; [|intros [? _]]].
  destruct (op_row_live org led r) eqn:E; split; [intros [= <-]; done|by intros [[= ->] _]|done|intros [[= ->] ?]; congruence].
Qed.

Definition all_ok (cs : calls) : Prop := ca_metadata cs = true ∧ ∀ id, ca_set cs id = true.

(** A PATCH with an account rule, or without anything the tables show. *)
Definition refreshes (body : PatchBody) : Prop :=
  pb_Account body ≠ None ∨ (pb_Description body = "" ∧ pb_Code body = "" ∧ decode_entries (pb_entries body) = None).

Lemma create_operation_coherent cs newID org led now body st : coherent_except ∅ st →
  coherent_except ∅ (CreateOperationRoute cs newID org led now body st).1.
Proof.
  intros Hc. unfold CreateOperationRoute. destruct (createOperationRoute _ _ _ _ _) as [row|] eqn:E; [|done].
  destruct (st_operation st !! newID) as [|] eqn:En; [done|]. cbn. apply set_operation_coherent; [done|..].
  - intros id r. rewrite lookup_insert_Some. intros [[<- <-]|[_ Hr]]; [|by eapply wf_op_key; [apply Hc|]].
    unfold createOperationRoute in E. repeat (apply rbind_Ok in E as (? & _ & E)). by injection E as <-.
  - intros op t r Hin Hr. exists r. rewrite lookup_insert_ne by congruence. done.
Qed.

Lemma delete_operation_coherent now org led id st : coherent_except ∅ st →
  coherent_except ∅ (DeleteOperationRouteByID now org led id st).1.
Proof.
  intros Hc. unfold DeleteOperationRouteByID. destruct (FindOperationRoute st org led id) as [row|] eqn:E; [|done].
  case_bool_decide as Hn; [|done]. cbn. apply find_operation in E as [Hr _]. apply set_operation_coherent; [done|..].
  - intros id' r. rewrite lookup_insert_Some. intros [[<- <-]|[_ Hr']]; [|by eapply wf_op_key; [apply Hc|]].
    cbn. by eapply wf_op_key; [apply Hc|].
  - intros op t r Hin Hr'. exists r. rewrite lookup_insert_ne; [done|]. intros <-.
    assert (t ∈ transactions_of st id) as Ht by (by apply elem_of_transactions_of). rewrite Hn in Ht. set_solver.
Qed.

Lemma update_operation_coherent cs now org led id body st : coherent_except ∅ st → all_ok cs → refreshes body →
  coherent_except ∅ (UpdateOperationRoute cs now org led id body st).1.
Proof.
  intros Hc [Hmd Hset] Href. unfold UpdateOperationRoute. destruct (check_patch _ body) as [up|] eqn:Ep; [|done].
  destruct (FindOperationRoute st org led id) as [row|] eqn:E; [|done]. apply find_operation in E as [Hr Hlive].
  rewrite Hmd. cbn [negb fst]. set (row' := OperationRoute_row_update now up row).
  assert (up_Account up = pb_Account body ∧ up_Description up = pb_Description body ∧ up_Code up = pb_Code body ∧
    up_AccountingEntries up = decode_entries (pb_entries body) ∧ (decode_entries (pb_entries body) = None → up_raw up = None)) as (Ea & Ed & Ec & Ee & Eraw).
  { unfold check_patch in Ep. apply rbind_Ok in Ep as (? & _ & Ep). apply rbind_Ok in Ep as (? & _ & Ep).
    apply rbind_Ok in Ep as (raw & Hraw & Ep). apply rbind_Ok in Ep as (? & _ & Ep). injection Ep as <-. cbn. split_and!; try done.
    intros Hn. rewrite Hn in Hraw. by injection Hraw as <-. }
  assert (∀ T, (∀ t, (id, t) ∈ st_links st → t ∉ T → same_view (OperationRoute_ToEntity row) (OperationRoute_ToEntity row')) →
    coherent_except T (set_operation (<[id := row']> (st_operation st)) st)) as Hst.
  { intros T HT. apply set_operation_coherent; [done|..].
    - intros id' r. rewrite lookup_insert_Some. intros [[<- <-]|[_ Hr']]; [|by eapply wf_op_key; [apply Hc|]].
      cbn. by eapply wf_op_key; [apply Hc|].
    - intros op t r Hin Hr'. destruct (decide (op = id)) as [-> |Hne].
      + exists row'. rewrite lookup_insert_eq. rewrite Hr in Hr'. injection Hr' as <-. split_and!; try done. by apply HT.
      + exists r. rewrite lookup_insert_ne by done. done. }
  case_bool_decide as Hacc.
  - apply Hst. intros t _ _. destruct Href as [?|(D1 & D2 & D3)]; [done|]. subst row'.
    split; [done|]. unfold route_data, OperationRoute_ToEntity, OperationRoute_row_update. cbn.
    rewrite Ed, Ec, Ea, Hacc, D1, D2, (Eraw D3), Ee, D3. done.
  - unfold ReloadOperationRouteCache.
    replace (transactions_of (set_operation (<[id:=row']> (st_operation st)) st) id) with (transactions_of st id) by done.
    set (st' := set_operation _ _).
    assert (∀ l s, foldl (λ st'' t, match FindTransactionRoute st'' org led t with Ok tr => CreateAccountingRouteCache (ca_set cs t) tr st'' | Err _ => st'' end) s l =
      foldl (λ st'' t, match FindTransactionRoute st'' org led t with Ok tr => CreateAccountingRouteCache true tr st'' | Err _ => st'' end) s l) as ->.
    { intros l. induction l as [|t l IH]; intros s; cbn; [done|]. rewrite Hset. apply IH. }
    apply reload_list; [|set_solver|apply NoDup_elements|].
    + apply Hst. intros t Hin Ht. exfalso. apply Ht. apply elem_of_union. right.
      apply elem_of_list_to_set, elem_of_elements, elem_of_transactions_of. done.
    + intros t Ht%elem_of_elements%elem_of_transactions_of. destruct (wf_links _ (co_tables _ _ Hc) _ _ Ht) as (r & x & Hr' & Hx & D1 & D2 & D3 & D4).
      exists x. split; [done|]. rewrite Hr in Hr'. injection Hr' as <-. apply op_live_iff in Hlive as (<- & <- & _). apply tx_live_iff. done.
Qed.

(** Changing one transaction route and its links; the links are to live operation routes
    of its ledger and there is one. *)
Lemma set_transaction_coherent st t x links :
  coherent_except ∅ st → trr_ID x = t → trr_DeletedAt x = None →
  (∀ y, st_transaction st !! t = Some y → trr_OrganizationID y = trr_OrganizationID x ∧ trr_LedgerID y = trr_LedgerID x) →
  (∀ op t', t' ≠ t → (op, t') ∈ links ↔ (op, t') ∈ st_links st) →
  (∀ op, (op, t) ∈ links → ∃ r, st_operation st !! op = Some r ∧ op_row_live (trr_OrganizationID x) (trr_LedgerID x) r = true) →
  (∃ op, (op, t) ∈ links) →
  coherent_except {[t]} (mkRoutes (st_operation st) (<[t := x]> (st_transaction st)) links (st_cache st)).
Proof.
  intros [[Ho Ht Hl Hk] Hc Hp] Hid Hdel Hsame Hother Hlink Hone. split.
  - constructor; cbn; [done|..].
    + intros id row. rewrite lookup_insert_Some. intros [[<- <-]|[_ ?]]; [done|by apply Ht].
    + intros op t' Hin. destruct (decide (t' = t)) as [-> |Hne].
      * destruct (Hlink _ Hin) as (r & Hr & (E1 & E2 & E3)%op_live_iff). exists r, x. rewrite lookup_insert_eq. done.
      * apply Hother in Hin; [|done]. destruct (Hl _ _ Hin) as (r & y & ? & ? & ?). exists r, y. by rewrite lookup_insert_ne by done.
    + intros t' y. rewrite lookup_insert_Some. intros [[<- <-]|[Hne Hy]] Hd; [done|].
      destruct (Hk _ _ Hy Hd) as [op Hop]. exists op. by apply Hother.
  - intros org led t' c E. cbn in E. destruct (Hc _ _ _ _ E) as [(y & Hy & Hlive) Hr].
    destruct (decide (t' = t)) as [-> |Hne].
    + split; [|set_solver]. exists x. cbn. rewrite lookup_insert_eq. split; [done|].
      destruct (Hsame _ Hy) as [E1 E2]. apply tx_live_iff in Hlive as (<- & <- & _). by apply tx_live_iff.
    + split; [exists y; cbn; by rewrite lookup_insert_ne by done|]. intros _. eapply rep_transfer; [..|apply Hr; set_solver].
      * intros r (op & row & Hin & Hrow & ->). exists (OperationRoute_ToEntity row). split; [|done]. exists op, row. split_and!; [by apply Hother|done|done].
      * intros r (op & row & Hin & Hrow & ->). exists (OperationRoute_ToEntity row). split; [|done]. exists op, row. split_and!; [by apply Hother|done|done].
  - intros org led t' y. cbn. rewrite lookup_insert_Some. intros [[<- _]|[Hne Hy]] Hlive Hn e; [set_solver|].
    apply (Hp _ _ _ _ Hy Hlive). set_solver.
Qed.

Lemma types_nonempty routes : validateOperationRouteTypes routes = Ok tt → ∃ r, r ∈ routes.
Proof. destruct routes as [|r l]; [done|]. intros _. exists r. by left. Qed.

Lemma create_transaction_coherent cs newID org led now title description ids st : coherent_except ∅ st → all_ok cs →
  coherent_except ∅ (CreateTransactionRoute cs newID org led now title description ids st).1.
Proof.
  intros Hc [Hmd Hset]. unfold CreateTransactionRoute. destruct (rbind _ _) as [routes|] eqn:E; [|done].
  destruct (st_transaction st !! newID) as [|] eqn:En; [done|]. rewrite Hmd, Hset. cbn [negb fst].
  apply rbind_Ok in E as (l & El & E). apply rbind_Ok in E as ([] & Hty & [= <-]).
  destruct (FindByIDs st org led ids) as [l'|] eqn:Ef; [|done]. injection El as <-. pose proof (co_tables _ _ Hc) as Htab.
  destruct (find_ids _ _ _ _ _ Htab Ef) as (Hnd & Hset' & Hin & Hall).
  set (x := mkTxRouteRow newID org led title description now now None).
  set (links := list_to_set ((λ r : OperationRoute, (opr_ID r, newID)) <$> l') ∪ st_links st).
  assert (∀ op t', t' ≠ newID → (op, t') ∈ links ↔ (op, t') ∈ st_links st) as Hother.
  { intros op t' Hne. unfold links. rewrite elem_of_union, elem_of_list_to_set, list_elem_of_fmap. naive_solver. }
  assert (∀ op, (op, newID) ∈ links ↔ op ∈ ids) as Hlinks.
  { intros op. unfold links. rewrite elem_of_union, elem_of_list_to_set, list_elem_of_fmap. split.
    - intros [(r & [= ->] & Hr)|Hr]; [|by destruct (wf_links _ Htab _ _ Hr) as (? & ? & _ & ? & _); congruence].
      apply Hin in Hr as (id & row & Hid & Hrow & ->). cbn. by rewrite (wf_op_key _ Htab _ _ Hrow).
    - intros Hop. left. destruct (Hall _ Hop) as (row & Hrow & _). exists (OperationRoute_ToEntity row). split.
      + cbn. by rewrite (wf_op_key _ Htab _ _ Hrow).
      + apply Hin. eauto. }
  replace ∅ with ({[newID]} ∖ {[newID]} : gset uuid) by set_solver. eapply (refresh _ _ org led newID _ x).
  - apply set_transaction_coherent; try done; [by rewrite En| |].
    + intros op Hop%Hlinks. by apply Hall.
    + destruct (types_nonempty _ Hty) as (r & (id & row & Hid & _)%Hin). exists id. by apply Hlinks.
  - cbn. by rewrite lookup_insert_eq.
  - by apply tx_live_iff.
  - done.
  - done.
  - done.
  - split; [done|]. intros r. cbn. rewrite Hin. unfold linked_route. cbn. split.
    + intros (id & row & Hid & Hrow & ->). exists id, row. split_and!; [by apply Hlinks|done|done].
    + intros (op & row & Hop%Hlinks & Hrow & ->). eauto.
Qed.

Lemma delete_transaction_coherent cs now org led id st : coherent_except ∅ st → all_ok cs →
  coherent_except ∅ (DeleteTransactionRouteByID cs now org led id st).1.
Proof.
  intros Hc [_ Hset]. unfold DeleteTransactionRouteByID. destruct (FindTransactionRoute st org led id) as [tr|] eqn:E; [|done].
  rewrite Hset. cbn [fst]. pose proof (co_tables _ _ Hc) as Htab.
  assert (∃ x, st_transaction st !! id = Some x ∧ tx_row_live org led x = true) as (x & Hx & Hlive).
  { unfold FindTransactionRoute in E. destruct (st_transaction st !! id) as [x|]; [|done].
    destruct (tx_row_live org led x) eqn:El; [|done]. eauto. }
  destruct (find_live _ _ _ _ _ Htab Hx Hlive) as (tr' & E' & _ & _ & _ & _ & Hlist). rewrite E in E'. injection E' as <-.
  set (links := st_links st ∖ _).
  assert (∀ op t, (op, t) ∈ links ↔ t ≠ id ∧ (op, t) ∈ st_links st) as Hlinks.
  { intros op t. unfold links. rewrite elem_of_difference, elem_of_list_to_set, list_elem_of_fmap. split.
    - intros [Hin Hn]. split; [|done]. intros ->. apply Hn.
      destruct (wf_links _ Htab _ _ Hin) as (r & _ & Hr & _). exists (OperationRoute_ToEntity r). split.
      + cbn. by rewrite (wf_op_key _ Htab _ _ Hr).
      + apply Hlist. by exists op, r.
    - intros [Hne Hin]. split; [done|]. intros (r & [= _ ->] & _). done. }
  destruct Hc as [[Ho Ht Hl Hk] Hc Hp]. split.
  - constructor; cbn; [done|..].
    + intros t y. rewrite lookup_alter_Some. intros [(-> & z & Hz & ->)|[_ ?]]; [by apply (Ht _ z)|by apply Ht].
    + intros op t [Hne Hin]%Hlinks. destruct (Hl _ _ Hin) as (r & y & ? & ? & ?). exists r, y. by rewrite lookup_alter_ne by done.
    + intros t y. rewrite lookup_alter_Some. intros [(-> & z & Hz & ->)|[Hne Hy]]; [done|]. intros Hd.
      destruct (Hk _ _ Hy Hd) as [op Hop]. exists op. by apply Hlinks.
  - intros org' led' t c. cbn. rewrite lookup_delete_Some. intros [Hk' E'].
    destruct (Hc _ _ _ _ E') as [(y & Hy & Hly) Hr].
    assert (t ≠ id) as Hne.
    { intros ->. apply Hk'. rewrite Hx in Hy. injection Hy as <-. apply tx_live_iff in Hlive as (<- & <- & _).
      by apply tx_live_iff in Hly as (<- & <- & _). }
    split; [exists y; by rewrite lookup_alter_ne by done|]. intros _. eapply rep_transfer; [..|apply Hr; set_solver].
    + intros r (op & row & Hin & Hrow & ->). exists (OperationRoute_ToEntity row). split; [|done]. exists op, row. split_and!; [by apply Hlinks|done|done].
    + intros r (op & row & Hin & Hrow & ->). exists (OperationRoute_ToEntity row). split; [|done]. exists op, row. apply Hlinks in Hin as [_ ?]. done.
  - intros org' led' t y. cbn. rewrite lookup_alter_Some. intros [(-> & z & Hz & ->)|[Hne Hy]] Hly _ e.
    + apply tx_live_iff in Hly as (_ & _ & [=]).
    + rewrite lookup_delete_Some. intros [_ E']. by eapply Hp; [..|exact E'].
Qed.

(** The new links of an update are those of the request. *)
Lemma update_links st org led id inputs toAdd toRemove routes x : tables_ok st →
  st_transaction st !! id = Some x → tx_row_live org led x = true →
  handleOperationRouteUpdates st org led id inputs = Ok (toAdd, toRemove, routes) →
  FindByIDs st org led inputs = Ok routes ∧ (∃ op, op ∈ inputs) ∧
  ∀ op t, (op, t) ∈ set_map (λ op, (op, id)) toAdd ∪ (st_links st ∖ set_map (λ op, (op, id)) toRemove) ↔
    (t = id ∧ op ∈ inputs) ∨ (t ≠ id ∧ (op, t) ∈ st_links st).
Proof.
  intros Htab Hx Hlive. unfold handleOperationRouteUpdates. destruct (length inputs <? 2)%nat eqn:E2; [done|].
  destruct (maxOperationRouteInputs <? length inputs)%nat; [done|].
  destruct (find_live _ _ _ _ _ Htab Hx Hlive) as (tr & -> & _ & _ & _ & _ & Hlist). cbn [rbind].
  destruct (FindByIDs st org led inputs) as [l|]; [|done]. cbn [rejected rbind].
  destruct (validateOperationRouteTypes l) as [[]|]; [|done]. cbn [rbind]. intros [= <- <- ->].
  split_and!; [done|destruct inputs as [|op inputs]; [done|exists op; by left]|].
  set (existing := list_to_set (opr_ID <$> tro_OperationRoutes tr) : gset uuid).
  assert (∀ op, op ∈ existing ↔ (op, id) ∈ st_links st) as Hex.
  { intros op. unfold existing. rewrite elem_of_list_to_set, list_elem_of_fmap. split.
    - intros (r & -> & (op' & row & Hin & Hrow & ->)%Hlist). cbn. by rewrite (wf_op_key _ Htab _ _ Hrow).
    - intros Hin. destruct (wf_links _ Htab _ _ Hin) as (row & _ & Hrow & _). exists (OperationRoute_ToEntity row). split.
      + cbn. by rewrite (wf_op_key _ Htab _ _ Hrow).
      + apply Hlist. by exists op, row. }
  clearbody existing. set (new := list_to_set inputs : gset uuid).
  assert (∀ op, op ∈ new ↔ op ∈ inputs) as Hnew by (intros; apply elem_of_list_to_set). clearbody new.
  assert (∀ op t (X : gset uuid), (op, t) ∈ (set_map (λ op, (op, id)) X : gset (uuid * uuid)) ↔ t = id ∧ op ∈ X) as Hmap.
  { intros op t X. rewrite elem_of_map. naive_solver. }
  intros op t. rewrite elem_of_union, elem_of_difference, !Hmap, !elem_of_difference, Hnew, Hex.
  destruct (decide (t = id)) as [-> |Hne]; [|tauto]. destruct (decide (op ∈ inputs)), (decide ((op, id) ∈ st_links st)); tauto.
Qed.

Lemma update_transaction_coherent cs now org led id title description inputs st : coherent_except ∅ st → all_ok cs →
  coherent_except ∅ (UpdateTransactionRoute cs now org led id title description inputs st).1.
Proof.
  intros Hc [Hmd Hset]. unfold UpdateTransactionRoute. destruct (match inputs with None => _ | Some _ => _ end) as [[[toAdd toRemove] touched]|] eqn:E; [|done].
  destruct (st_transaction st !! id) as [x|] eqn:Hx; [|done]. destruct (tx_row_live org led x) eqn:Hlive; [|done].
  rewrite Hmd, Hset. cbn [negb]. pose proof (co_tables _ _ Hc) as Htab.
  pose proof (proj1 (tx_live_iff _ _ _) Hlive) as (Horg & Hled & Hdel).
  set (x' := mkTxRouteRow _ _ _ _ _ _ _ _). set (links := _ ∪ _ : gset (uuid * uuid)).
  set (st' := mkRoutes (st_operation st) (<[id := x']> (st_transaction st)) links (st_cache st)).
  set (ids := match inputs with Some l => l | None => elements (routes_of st id) end).
  assert ((∃ op, op ∈ ids) ∧ (∀ op t, (op, t) ∈ links ↔ (t = id ∧ op ∈ ids) ∨ (t ≠ id ∧ (op, t) ∈ st_links st)) ∧
    ∀ routes, touched = Some routes → FindByIDs st org led ids = Ok routes) as (Hone & Hlinks & Htouched).
  { destruct inputs as [l|]; subst ids.
    - destruct (handleOperationRouteUpdates st org led id l) as [[[a r] routes]|] eqn:Eh; [|done]. injection E as -> -> <-.
      destruct (update_links _ _ _ _ _ _ _ _ _ Htab Hx Hlive Eh) as (? & ? & ?). split_and!; [done|done|]. by intros ? [= ->].
    - injection E as <- <- <-. split_and!; [|unfold links|done].
      + destruct (wf_linked _ Htab _ _ Hx Hdel) as [op Hop]. exists op. by apply elem_of_elements, elem_of_routes_of.
      + intros op t. rewrite elem_of_union, elem_of_difference, !elem_of_map, elem_of_elements, elem_of_routes_of.
        destruct (decide (t = id)); set_solver. }
  assert (∀ op, op ∈ ids → ∃ r, st_operation st !! op = Some r ∧ op_row_live org led r = true) as Hrows.
  { intros op Hop. destruct inputs as [l|]; subst ids.
    - destruct (handleOperationRouteUpdates st org led id l) as [[[a r] routes]|] eqn:Eh; [|done]. injection E as -> -> <-.
      eapply find_ids; [done|by apply Htouched|done].
    - apply elem_of_elements, elem_of_routes_of in Hop. destruct (wf_links _ Htab _ _ Hop) as (r & y & Hr & Hy & D1 & D2 & D3 & D4).
      exists r. split; [done|]. rewrite Hx in Hy. injection Hy as <-. apply op_live_iff. split_and!; congruence. }
  assert (coherent_except {[id]} st') as Hst'.
  { apply set_transaction_coherent; cbn; [done|by eapply wf_tx_key|done| | |..].
    - intros y Hy. rewrite Hx in Hy. by injection Hy as <-.
    - intros op t' Hne. rewrite Hlinks. naive_solver.
    - intros op Hop. rewrite Horg, Hled. apply Hrows. apply Hlinks in Hop. naive_solver.
    - destruct Hone as [op Hop]. exists op. apply Hlinks. by left. }
  assert (∀ op, op ∈ elements (routes_of st' id) ↔ op ∈ ids) as Hro.
  { intros op. rewrite elem_of_elements, elem_of_routes_of. cbn. rewrite Hlinks. naive_solver. }
  assert (∃ routes, match touched with Some routes => Ok routes | None => FindByIDs st' org led (elements (routes_of st' id)) end = Ok routes ∧
    lists_routes st' id routes) as (routes & -> & Hlist).
  { assert (∃ routes ids', match touched with Some routes => Ok routes | None => FindByIDs st' org led (elements (routes_of st' id)) end = Ok routes ∧
      FindByIDs st' org led ids' = Ok routes ∧ ∀ op, op ∈ ids' ↔ op ∈ ids) as (routes & ids' & Er & Ef & Hi).
    { destruct touched as [routes|]; [exists routes, ids; split_and!; [done|by apply Htouched|done]|].
      assert (is_Some (mapM (λ id, match FindOperationRoute st' org led id with Ok row => Some row | Err _ => None end)
                (elements (list_to_set (elements (routes_of st' id)) : gset uuid)))) as [rows Hm].
      { apply mapM_is_Some, Forall_forall. intros op. rewrite elem_of_elements, elem_of_list_to_set, Hro. intros (r & Hr & Hl)%Hrows.
        assert (FindOperationRoute st' org led op = Ok r) as Ho by (by apply find_operation). exists r. cbn. by rewrite Ho. }
      exists (OperationRoute_ToEntity <$> rows), (elements (routes_of st' id)). unfold FindByIDs. rewrite Hm. done. }
    exists routes. split; [done|]. destruct (find_ids _ _ _ _ _ (co_tables _ _ Hst') Ef) as (Hnd & _ & Hin & _). split; [done|].
    intros r. rewrite Hin. unfold linked_route. split.
    - intros (op & row & Hop%Hi & Hrow & ->). exists op, row. split_and!; [apply Hlinks; by left|done|done].
    - intros (op & row & Hop & Hrow & ->). exists op, row. split_and!; [|done|done]. apply Hi. apply Hlinks in Hop. naive_solver. }
  cbn [fst]. replace ∅ with ({[id]} ∖ {[id]} : gset uuid) by set_solver. eapply (refresh _ _ org led id _ x'); try done.
  - cbn. by rewrite lookup_insert_eq.
  - cbn. by apply (wf_tx_key _ Htab _ _ Hx).
Qed.

(** What the lookup answers in a coherent state. *)
Lemma lookup_coherent cs now org led id st : coherent_except ∅ st → (∀ id, ca_set cs id = true) →
  coherent_except ∅ (GetOrCreateTransactionRouteCache cs now org led id st).1 ∧
  match FindTransactionRoute st org led id, (GetOrCreateTransactionRouteCache cs now org led id st).2 with
  | Ok tr, Ok c => ∀ a, c a = TransactionRoute_ToCache tr a
  | Err e, Err e' => e = ErrTransactionRouteNotFound ∧ e' = ErrTransactionRouteNotFound
  | _, _ => False
  end.
Proof.
  intros Hc Hset. unfold GetOrCreateTransactionRouteCache, cached_route, cache_found. rewrite Hset.
  pose proof (co_tables _ _ Hc) as Htab.
  set (load := match FindTransactionRoute st org led id with Ok _ => _ | Err _ => _ end).
  assert ((∃ x, st_transaction st !! id = Some x ∧ tx_row_live org led x = true) ∨
    ¬ ∃ x, st_transaction st !! id = Some x ∧ tx_row_live org led x = true) as [(x & Hx & Hlive)|Hn].
  { destruct (st_transaction st !! id) as [x|]; [|right; naive_solver].
    destruct (tx_row_live org led x) eqn:El; [left; eauto|right; naive_solver congruence]. }
  - destruct (find_live _ _ _ _ _ Htab Hx Hlive) as (tr & E & E1 & E2 & E3 & Hlist).
    assert (represents st id (TransactionRoute_ToCache tr)) as Hrep by (apply rep_list; apply Hlist).
    assert (coherent_except ∅ load.1 ∧ load.2 = Ok (TransactionRoute_ToCache tr)) as [Hl1 Hl2].
    { subst load. rewrite E. split; [|done]. cbn [fst]. replace ∅ with (∅ ∖ {[id]} : gset uuid) by set_solver.
      pose proof (refresh ∅ st org led id tr x Hc Hx Hlive E1 E2 E3 Hlist) as H. unfold CreateAccountingRouteCache in H.
      by rewrite E1, E2, E3 in H. }
    rewrite E. destruct (ca_get cs); [|rewrite Hl2; done].
    destruct (st_cache st !! cache_key org led id) as [[c|e|]|] eqn:Ec; try (rewrite Hl2; done).
    + split; [done|]. cbn. intros a. eapply rep_unique; [|exact Hrep]. eapply co_cached; [exact Hc|exact Ec|set_solver].
    + exfalso. by eapply co_present; [exact Hc|exact Hx|exact Hlive|set_solver|exact Ec].
  - assert (FindTransactionRoute st org led id = Err ErrTransactionRouteNotFound) as E.
    { apply find_not_live. intros x Hx. apply not_true_iff_false. intros Hl. apply Hn. eauto. }
    assert (coherent_except ∅ load.1 ∧ load.2 = Err ErrTransactionRouteNotFound) as [Hl1 Hl2].
    { subst load. rewrite E. split; [|done]. cbn [fst]. destruct Hc as [Ht Hc Hp]. split; [by destruct Ht; constructor|..].
      - intros org' led' t c. cbn. rewrite lookup_insert_Some. intros [[_ [=]]|[_ E']].
        destruct (Hc _ _ _ _ E') as [Hx Hr]. split; [done|]. intros H. by apply Hr.
      - intros org' led' t x Hx Hl _ e. cbn. rewrite lookup_insert_Some. intros [[(<- & <- & <-)%cache_key_inj _]|[_ E']]; [apply Hn; eauto|].
        by eapply Hp; [..|exact E']; eauto. }
    rewrite E. destruct (ca_get cs); [|rewrite Hl2; done].
    destruct (st_cache st !! cache_key org led id) as [[c|e|]|] eqn:Ec; try (rewrite Hl2; done).
    + exfalso. apply Hn. by eapply co_cached.
    + destruct (now <? e); [done|rewrite Hl2; done].
Qed.

(** Sequences of commands and lookups, each of which runs without another one in between,
    whose calls to the metadata store and to Redis succeed, and whose updates of operation
    routes refresh the cache. *)
Inductive route_step (st : routes_store) : routes_store → Prop :=
  | step_create_operation cs newID org led now body : route_step st (CreateOperationRoute cs newID org led now body st).1
  | step_update_operation cs now org led id body : all_ok cs → refreshes body →
      route_step st (UpdateOperationRoute cs now org led id body st).1
  | step_delete_operation now org led id : route_step st (DeleteOperationRouteByID now org led id st).1
  | step_create_transaction cs newID org led now title description ids : all_ok cs →
      route_step st (CreateTransactionRoute cs newID org led now title description ids st).1
  | step_update_transaction cs now org led id title description inputs : all_ok cs →
      route_step st (UpdateTransactionRoute cs now org led id title description inputs st).1
  | step_delete_transaction cs now org led id : all_ok cs → route_step st (DeleteTransactionRouteByID cs now org led id st).1
  | step_lookup cs now org led id : all_ok cs → route_step st (GetOrCreateTransactionRouteCache cs now org led id st).1.

Definition no_routes : routes_store := mkRoutes ∅ ∅ ∅ ∅.
Inductive routes_reachable : routes_store → Prop :=
  | routes_initial : routes_reachable no_routes
  | routes_next st st' : routes_reachable st → route_step st st' → routes_reachable st'.

Lemma routes_coherent st : routes_reachable st → coherent_except ∅ st.
Proof.
  induction 1 as [|st st' _ IH Hs].
  - split; [constructor; cbn; try set_solver|..]; cbn.
    all: intros; try (by rewrite lookup_empty in *); done.
  - destruct Hs; auto using create_operation_coherent, update_operation_coherent, delete_operation_coherent,
      create_transaction_coherent, update_transaction_coherent, delete_transaction_coherent.
    apply lookup_coherent; [done|]. apply H.
Qed.

(** C14: However routes were created, changed, linked and deleted, a transaction is
    validated against the routes as they are stored: the cache, which never expires,
    answers what converting the stored transaction route would, and a route that does not
    exist or was deleted is not found, whether or not Redis answers; provided the commands
    and the lookups ran one at a time, the calls of the commands and the SET of a lookup
    succeeded and every change of entries came with an account rule.  ([racing_lookup_leaves_stale_entry] shows a
    lookup that a change overtakes, [entries_patch_leaves_cache] a change without a rule.) *)
Theorem route_cache_exact st (Hreach : routes_reachable st) cs now org led id (Hset : ∀ id, ca_set cs id = true) :
  match FindTransactionRoute st org led id, (GetOrCreateTransactionRouteCache cs now org led id st).2 with
  | Ok tr, Ok c => ∀ a, c a = TransactionRoute_ToCache tr a
  | Err e, Err e' => e = ErrTransactionRouteNotFound ∧ e' = ErrTransactionRouteNotFound
  | _, _ => False
  end.
Proof. by apply lookup_coherent; [apply routes_coherent|]. Qed.

End Coherence.

End Commands.

(** ** Sample commands *)

Module CommandSample.
Import RouteSample.
#[export] Instance ids_eq_dec : EqDecision (@uuid FourIds.lib) := (_ : EqDecision (bool * bool)).
#[export] Instance ids_countable : Countable (@uuid FourIds.lib) := (_ : Countable (bool * bool)).
Definition ok_calls : calls (U := FourIds.lib) := mkCalls true true (λ _, true).
Definition body (type : string) (es : AccountingEntries) : CreateBody :=
  mkCreate "" "" "" type None (BodyObject (mkObject (λ a, match entry_of es a with Some e => FieldValue e | None => FieldAbsent end) false)).
Definition with_source := (CreateOperationRoute ok_calls id_source id_org id_org 0 (body "source" source_entries) no_routes).1.
Definition with_destination := (CreateOperationRoute ok_calls id_destination id_org id_org 0 (body "destination" destination_entries) with_source).1.
Definition linked := (CreateTransactionRoute ok_calls id_route id_org id_org 0 "" "" [id_source; id_destination] with_destination).1.
(** The overdraft entry of the source route is removed by a PATCH of the entries alone. *)
Definition patched := (UpdateOperationRoute ok_calls 1 id_org id_org id_source
  (mkPatch "" "" "" None (BodyObject (PatchSample.fields ActionOverdraft FieldNull))) linked).1.
Definition stored (st : routes_store (U := FourIds.lib)) : option bool :=
  match FindTransactionRoute st id_org id_org id_route with
  | Ok tr => Some (bool_decide (is_Some (TransactionRoute_ToCache tr ActionOverdraft))) | Err _ => None
  end.
Definition looked_up (st : routes_store (U := FourIds.lib)) : option bool :=
  match (GetOrCreateTransactionRouteCache ok_calls 2 id_org id_org id_route st).2 with
  | Ok c => Some (bool_decide (is_Some (c ActionOverdraft))) | Err _ => None
  end.

(** The same change with an account rule, which reloads the cache, and a lookup whose
    GET fails and whose query was answered before the change and its SET afterwards. *)
Definition refreshed := (UpdateOperationRoute ok_calls 1 id_org id_org id_source
  (mkPatch "" "" "" (Some (mkAccountRule "account_type" (Some (ValidIfStrings ["deposit"]))))
     (BodyObject (PatchSample.fields ActionOverdraft FieldNull))) linked).1.
Definition overtaken := (cache_found ok_calls 1 id_org id_org id_route
  (FindTransactionRoute linked id_org id_org id_route) refreshed).1.
End CommandSample.

(** Changing the entries of an operation route without its account rule does not refresh
    the cache: transactions are still validated against an entry that is no longer there. *)
Theorem entries_patch_leaves_cache :
  CommandSample.stored CommandSample.linked = Some true ∧ CommandSample.looked_up CommandSample.linked = Some true ∧
  CommandSample.stored CommandSample.patched = Some false ∧ CommandSample.looked_up CommandSample.patched = Some true.
Proof. split_and!; vm_compute; reflexivity. Qed.

(** A lookup whose query ran before a change of a route and whose SET runs after the
    command has reloaded the cache puts the old route back, without an expiry: all later
    transactions are validated against an entry that is no longer there. *)
Theorem racing_lookup_leaves_stale_entry :
  CommandSample.stored CommandSample.refreshed = Some false ∧ CommandSample.looked_up CommandSample.refreshed = Some false ∧
  cached_route (mkCalls true false (λ _, true)) 1 RouteSample.id_org RouteSample.id_org RouteSample.id_route CommandSample.linked = None ∧
  CommandSample.stored CommandSample.overtaken = Some false ∧ CommandSample.looked_up CommandSample.overtaken = Some true.
Proof. split_and!; vm_compute; reflexivity. Qed.

Lemma route_cache_exact_witness :
  CommandSample.stored CommandSample.linked = Some true ∧ CommandSample.looked_up CommandSample.linked = CommandSample.stored CommandSample.linked.
Proof.
  assert (routes_reachable CommandSample.linked) as Hr.
  { apply (routes_next CommandSample.with_destination); [|by apply step_create_transaction].
    apply (routes_next CommandSample.with_source); [|apply step_create_operation].
    apply (routes_next no_routes); [constructor|apply step_create_operation]. }
  pose proof (route_cache_exact CommandSample.linked Hr CommandSample.ok_calls 2 RouteSample.id_org RouteSample.id_org RouteSample.id_route
    (λ _, eq_refl)) as H.
  split; [vm_compute; reflexivity|]. unfold CommandSample.stored, CommandSample.looked_up.
  destruct (FindTransactionRoute _ _ _ _) as [tr|], (GetOrCreateTransactionRouteCache _ _ _ _ _ _).2 as [c|]; try done. by rewrite H.
Defined.
