(* ===== verification/Revert.v ===== *)
(** * Reversal of a transaction

    src/components/ledger/internal/adapters/postgres/transaction/transaction.go
    [TransactionRevert] rebuilds a transaction from the stored operations with the sides
    swapped, and http/in/transaction_state_handlers.go [revertTransaction] decides which
    transactions may be reverted.  The reversal then takes the create path
    ([CreateTransaction]). *)

From Stdlib Require Import QArith Lqa ZArith Lia.
From stdpp Require Import base gmap strings list.
From S2P Require Import Prelude Decimals GoStrings Transaction BalanceOps SendValidation CacheKeys OperationRecords.
From S2P Require Import WritePath.
Local Open Scope string_scope.
Local Open Scope list_scope.

(** ** The reversed entries *)

Section Reversal.
Context {D : DecimalLib}.

Definition OVERDRAFT : OpType := OpOther "OVERDRAFT".
Definition BLOCK : OpType := OpOther "BLOCK".
Definition UNBLOCK : OpType := OpOther "UNBLOCK".

(** [(isFrom, isTo)] *)
Definition reversalLegSide (op : Operation) : bool * bool :=
  if bool_decide (op_Type op = CREDIT) then (true, false)
  else if bool_decide (op_Type op = DEBIT) then (false, true)
  else if bool_decide (op_Type op = BLOCK) || bool_decide (op_Type op = UNBLOCK)
  then (bool_decide (op_Direction op = DirectionCredit), bool_decide (op_Direction op = DirectionDebit))
  else (false, false).

(** [value] is [*op.Amount.Value]. *)
Definition reversalLeg (op : Operation) (value : dec) (isFrom : bool) : FromTo :=
  let balanceKey := if bool_decide (op_BalanceKey op = "") then DefaultBalanceKey else op_BalanceKey op in
  mkFromTo (op_AccountAlias op) balanceKey
    (Some (mkAmount (op_AssetCode op) value (OpOther "") (StatusOther "") DirectionEmpty false dzero))
    None "" None (op_Description op) (op_ChartOfAccounts op) (op_Metadata op) isFrom
    (op_Route op) (op_RouteID op).

Record reversal_legs := mkLegs {
  rl_froms : list FromTo; rl_tos : list FromTo;
  rl_fromByAlias : gmap string nat; rl_toByAlias : gmap string nat }.

Definition reversal_step (st : reversal_legs) (op : Operation) : reversal_legs :=
  match op_Amount op with
  | None => st
  | Some value =>
      if bool_decide (op_BalanceKey op = OverdraftBalanceKey) then st else
      let '(isFrom, isTo) := reversalLegSide op in
      if isFrom then
        mkLegs (rl_froms st ++ [reversalLeg op value true]) (rl_tos st)
          (<[op_AccountAlias op := length (rl_froms st)]> (rl_fromByAlias st)) (rl_toByAlias st)
      else if isTo then
        mkLegs (rl_froms st) (rl_tos st ++ [reversalLeg op value false])
          (rl_fromByAlias st) (<[op_AccountAlias op := length (rl_tos st)]> (rl_toByAlias st))
      else st
  end.

Definition buildReversalLegs (ops : list Operation) : reversal_legs :=
  fold_left reversal_step ops (mkLegs [] [] ∅ ∅).

(** The amount of the entry the companion's alias points to grows, up to the amount of
    the transaction. *)
Definition addCompanionAmount (cap : dec) (entries : list FromTo) (indexByAlias : gmap string nat)
    (op : Operation) (value : dec) : list FromTo :=
  match indexByAlias !! op_AccountAlias op with
  | None => entries
  | Some idx =>
      alter (λ ft, match ft_Amount ft with
                   | None => ft
                   | Some a => set_ft_Amount (Some (set_amt_Value (dmin (dadd (amt_Value a) value) cap) a)) ft
                   end) idx entries
  end.

Definition is_companion (op : Operation) : bool :=
  bool_decide (op_Type op = OVERDRAFT) || bool_decide (op_BalanceKey op = OverdraftBalanceKey).

Definition companion_step (cap : dec) (fromByAlias toByAlias : gmap string nat)
    (st : list FromTo * list FromTo) (op : Operation) : list FromTo * list FromTo :=
  let '(froms, tos) := st in
  match op_Amount op with
  | None => st
  | Some value =>
      if negb (is_companion op) then st else
      match op_Direction op with
      | DirectionCredit => (addCompanionAmount cap froms fromByAlias op value, tos)
      | DirectionDebit | DirectionEmpty => (froms, addCompanionAmount cap tos toByAlias op value)
      | DirectionOther _ => st
      end
  end.

Definition TransactionRevert (t : TransactionEntity) : Transaction :=
  match tr_Amount t with
  | None => zeroTransaction
  | Some amount =>
      let legs := buildReversalLegs (tr_Operations t) in
      let '(froms, tos) :=
        fold_left (companion_step amount (rl_fromByAlias legs) (rl_toByAlias legs)) (tr_Operations t)
          (rl_froms legs, rl_tos legs) in
      mkTransaction (tr_ChartOfAccountsGroupName t) (tr_Description t) "" false (tr_Metadata t)
        (tr_Route t) (tr_RouteID t) None
        (mkSend (tr_AssetCode t) amount (mkSource "" froms) (mkDistribute "" tos)) None ""
  end.

End Reversal.

(** ** The gate *)

Inductive RevertError :=
  | RevertQueryFailed (e : string)
  | ErrTransactionIDHasAlreadyParentTransaction
  | ErrTransactionIDIsAlreadyARevert
  | ErrCommitTransactionNotPending
  | ErrTransactionCantRevert
  | ErrInvalidPathParameter
  | ErrRouteNotBidirectional.

Section Gate.
Context {D : DecimalLib} {U : UuidLib} {UP : UuidParse}.

(** The answers of the three queries; the route is its [OperationType]. *)
Record revert_answers := mkRevertAnswers {
  ra_parent : result string (option TransactionEntity);
  ra_transaction : result string TransactionEntity;
  ra_route : uuid → result string (option string) }.

(** The body of the loop over the operations. *)
Definition check_bidirectional (route : uuid → result string (option string)) (op : Operation)
    : result RevertError unit :=
  match op_RouteID op with
  | None => Ok tt
  | Some id =>
      if bool_decide (id = "") then Ok tt else
      match uuid_Parse id with
      | None => Err ErrInvalidPathParameter
      | Some routeUUID =>
          match route routeUUID with
          | Err e => Err (RevertQueryFailed e)
          | Ok (Some ty) => if bool_decide (ty = "bidirectional") then Ok tt else Err ErrRouteNotBidirectional
          | Ok None => Ok tt
          end
      end
  end.

(** [revertTransaction] up to the creation of the reversal. *)
Definition revert_gate (ra : revert_answers) : result RevertError Transaction :=
  match ra_parent ra with
  | Err e => Err (RevertQueryFailed e)
  | Ok (Some _) => Err ErrTransactionIDHasAlreadyParentTransaction
  | Ok None =>
      match ra_transaction ra with
      | Err e => Err (RevertQueryFailed e)
      | Ok tran =>
          if bool_decide (is_Some (tr_ParentTransactionID tran)) then Err ErrTransactionIDIsAlreadyARevert
          else if negb (bool_decide (sta_Code (tr_Status tran) = APPROVED)) then Err ErrCommitTransactionNotPending
          else
            let reverted := TransactionRevert tran in
            if Transaction_IsEmpty reverted then Err ErrTransactionCantRevert else
            do! for_each (check_bidirectional (ra_route ra)) (tr_Operations tran);;
            Ok reverted
      end
  end.

End Gate.

(** ** What the reversal moves *)

(** The amount with which an operation is a leg of a side, and the one it adds to a leg
    as a companion. *)
Section Moves.
Context {D : DecimalLib}.

Definition leg_value (isFrom : bool) (op : Operation) : option dec :=
  match op_Amount op with
  | Some v =>
      if bool_decide (op_BalanceKey op = OverdraftBalanceKey) then None else
      let '(f, t) := reversalLegSide op in
      if (if isFrom then f else negb f && t) then Some v else None
  | None => None
  end.

Definition companion_value (isFrom : bool) (op : Operation) : option dec :=
  match op_Amount op with
  | Some v =>
      if is_companion op then
        match op_Direction op with
        | DirectionCredit => if isFrom then Some v else None
        | DirectionDebit | DirectionEmpty => if isFrom then None else Some v
        | DirectionOther _ => None
        end
      else None
  | None => None
  end.

(** One side of the two loops. *)
Definition side_legs (isFrom : bool) (ops : list Operation) : list FromTo :=
  omap (λ op, (λ v, reversalLeg op v isFrom) <$> leg_value isFrom op) ops.

Definition side_index (isFrom : bool) (ops : list Operation) (start : nat * gmap string nat) : nat * gmap string nat :=
  fold_left (λ st op, match leg_value isFrom op with
                      | Some _ => (S st.1, <[op_AccountAlias op := st.1]> st.2)
                      | None => st
                      end) ops start.

Definition side_companions (isFrom : bool) (cap : dec) (index : gmap string nat) (ops : list Operation)
    (entries : list FromTo) : list FromTo :=
  fold_left (λ es op, match companion_value isFrom op with
                      | Some v => addCompanionAmount cap es index op v
                      | None => es
                      end) ops entries.

Lemma legs_sides ops : ∀ st,
  let st' := fold_left reversal_step ops st in
  rl_froms st' = rl_froms st ++ side_legs true ops ∧
  rl_tos st' = rl_tos st ++ side_legs false ops ∧
  (length (rl_froms st'), rl_fromByAlias st') = side_index true ops (length (rl_froms st), rl_fromByAlias st) ∧
  (length (rl_tos st'), rl_toByAlias st') = side_index false ops (length (rl_tos st), rl_toByAlias st).
Proof.
  induction ops as [|op ops IH]; intros st; cbn zeta.
  { cbn. by rewrite !app_nil_r. }
  destruct (IH (reversal_step st op)) as (H1 & H2 & H3 & H4). cbn [fold_left].
  rewrite H3, H4, H1, H2. clear. cbn [side_legs side_index fold_left omap list_omap].
  unfold reversal_step, leg_value.
  destruct (op_Amount op) as [v|]; [|done].
  case_bool_decide; [done|]. destruct (reversalLegSide op) as [[] []]; cbn;
    rewrite ?length_app, <- ?app_assoc, ?Nat.add_1_r; done.
Qed.

Lemma companions_sides cap fi ti ops : ∀ froms tos,
  fold_left (companion_step cap fi ti) ops (froms, tos)
  = (side_companions true cap fi ops froms, side_companions false cap ti ops tos).
Proof.
  induction ops as [|op ops IH]; intros froms tos; [done|].
  cbn [fold_left side_companions]. unfold companion_step at 2, companion_value.
  destruct (op_Amount op) as [v|]; [|by rewrite IH].
  destruct (is_companion op); cbn [negb]; [|by rewrite IH].
  destruct (op_Direction op); by rewrite IH.
Qed.

(** The index leads to a leg of the account, for every account that has one. *)
Lemma side_index_spec isFrom ops : ∀ es m,
  (∀ a i, m !! a = Some i → ∃ ft, es !! i = Some ft ∧ ft_AccountAlias ft = a) →
  (∀ a i, (side_index isFrom ops (length es, m)).2 !! a = Some i →
     ∃ ft, (es ++ side_legs isFrom ops) !! i = Some ft ∧ ft_AccountAlias ft = a) ∧
  (∀ op, op ∈ ops → is_Some (leg_value isFrom op) →
     is_Some ((side_index isFrom ops (length es, m)).2 !! op_AccountAlias op)) ∧
  (∀ a, is_Some (m !! a) → is_Some ((side_index isFrom ops (length es, m)).2 !! a)).
Proof.
  induction ops as [|op ops IH]; intros es m Hm.
  { cbn. rewrite app_nil_r. split_and!; [exact Hm|by intros ? ?%elem_of_nil|done]. }
  cbn [side_index fold_left side_legs omap list_omap fst snd].
  destruct (leg_value isFrom op) as [v|] eqn:Ev; cbn [fmap option_fmap option_map].
  - specialize (IH (es ++ [reversalLeg op v isFrom]) (<[op_AccountAlias op := length es]> m)).
    rewrite length_app, Nat.add_1_r, <- app_assoc in IH. destruct IH as (H1 & H2 & H3).
    + intros a i. rewrite lookup_insert_Some. intros [[<- <-]|[_ (ft & E & ?)%Hm]].
      * exists (reversalLeg op v isFrom). split; [|done]. rewrite lookup_app_r, Nat.sub_diag by done. done.
      * exists ft. split; [|done]. by apply lookup_app_l_Some.
    + split_and!; [exact H1| |].
      * intros o [->|Ho]%elem_of_cons Hs; [|by apply H2]. apply H3. rewrite lookup_insert_eq. by eexists.
      * intros a Ha. apply H3. destruct (decide (a = op_AccountAlias op)) as [->|Hne].
        -- rewrite lookup_insert_eq. by eexists.
        -- by rewrite lookup_insert_ne.
  - destruct (IH es m Hm) as (H1 & H2 & H3). split_and!; [exact H1| |exact H3].
    intros o [->|Ho]%elem_of_cons Hs; [|by apply H2]. rewrite Ev in Hs. by destruct Hs.
Qed.

End Moves.

(** ** Sums *)

Section Sums.
Context {D : DecimalLib} {DL : DecimalLaws}.
Local Open Scope Q_scope.

Definition qsum {A} (f : A → Q) (l : list A) : Q := foldr (λ x s, f x + s) 0 l.
Definition oval (o : option dec) : Q := match o with Some v => dval v | None => 0 end.

(** What the entries of the accounts in [p] state. *)
Definition entry_value (ft : FromTo) : Q := oval (amt_Value <$> ft_Amount ft).
Definition stated (p : string → bool) (es : list FromTo) : Q :=
  qsum (λ ft, if p (ft_AccountAlias ft) then entry_value ft else 0) es.
(** What the operations recorded for these accounts, on the balance and on its companion. *)
Definition recorded (value : Operation → option dec) (p : string → bool) (ops : list Operation) : Q :=
  qsum (λ op, if p (op_AccountAlias op) then oval (value op) else 0) ops.

(** An entry of a reversal: an explicit amount that is not negative. *)
Definition reversal_entry (ft : FromTo) : Prop :=
  ft_Share ft = None ∧ ft_Remaining ft = "" ∧ is_Some (ft_Amount ft) ∧ 0 <= entry_value ft.

Lemma stated_legs isFrom p ops : stated p (side_legs isFrom ops) == recorded (leg_value isFrom) p ops.
Proof.
  induction ops as [|op ops IH]; [reflexivity|]. unfold stated, recorded, side_legs in *.
  cbn [omap list_omap qsum foldr]. destruct (leg_value isFrom op) as [v|]; cbn.
  - by rewrite IH.
  - rewrite IH. unfold qsum. destruct (p _); lra.
Qed.

Lemma legs_entries isFrom ops :
  (∀ op, op ∈ ops → 0 <= oval (op_Amount op)) → Forall reversal_entry (side_legs isFrom ops).
Proof.
  intros Hn. apply Forall_forall. intros ft (op & Hop & E)%list_elem_of_omap.
  apply fmap_Some in E as (v & Ev & ->). split_and!; try done.
  specialize (Hn op Hop). unfold leg_value in Ev. destruct (op_Amount op) as [v'|]; [|done].
  cbn. case_bool_decide; [done|]. destruct (reversalLegSide op) as [f t].
  destruct (if isFrom then f else _); [by injection Ev as <-|done].
Qed.

Lemma stated_cons p ft es :
  stated p (ft :: es) = (if p (ft_AccountAlias ft) then entry_value ft else 0) + stated p es.
Proof. done. Qed.
Lemma recorded_cons value p op ops :
  recorded value p (op :: ops) = (if p (op_AccountAlias op) then oval (value op) else 0) + recorded value p ops.
Proof. done. Qed.

Lemma stated_nonneg p es : Forall reversal_entry es → 0 <= stated p es.
Proof.
  induction 1 as [|ft es (_ & _ & _ & H) _ IH]; [apply Qle_refl|]. rewrite stated_cons.
  destruct (p _); lra.
Qed.

Lemma entry_le_stated es i ft : Forall reversal_entry es → es !! i = Some ft →
  entry_value ft <= stated (λ _, true) es.
Proof.
  intros H. revert i. induction H as [|ft' es (_ & _ & _ & Hv) Hes IH]; intros [|i]; cbn [lookup list_lookup]; try done;
    rewrite stated_cons.
  - intros [= ->]. pose proof (stated_nonneg (λ _, true) es Hes). lra.
  - intros E. specialize (IH _ E). lra.
Qed.

Lemma stated_alter p f es i ft : es !! i = Some ft → ft_AccountAlias (f ft) = ft_AccountAlias ft →
  stated p (alter f i es) == stated p es + (if p (ft_AccountAlias ft) then entry_value (f ft) - entry_value ft else 0).
Proof.
  revert i. induction es as [|ft' es IH]; intros [|i]; cbn [lookup list_lookup alter list_alter]; try done;
    rewrite !stated_cons.
  - intros [= ->] ->. destruct (p _); lra.
  - intros E Ha. specialize (IH _ E Ha). rewrite IH. lra.
Qed.

(** A companion adds its whole amount while the side stays within the amount. *)
Lemma add_companion_exact cap es m op v :
  Forall reversal_entry es → 0 <= dval v → stated (λ _, true) es + dval v <= dval cap →
  (∃ i ft, m !! op_AccountAlias op = Some i ∧ es !! i = Some ft ∧ ft_AccountAlias ft = op_AccountAlias op) →
  let es' := addCompanionAmount cap es m op v in
  Forall reversal_entry es' ∧ (∀ i, ft_AccountAlias <$> es' !! i = ft_AccountAlias <$> es !! i) ∧
  ∀ p, stated p es' == stated p es + (if p (op_AccountAlias op) then dval v else 0).
Proof.
  intros Hes Hv Hcap (i & ft & Ei & Eft & Ea). cbn zeta. unfold addCompanionAmount. rewrite Ei.
  set (f := λ ft, _). pose proof (entry_le_stated _ _ _ Hes Eft) as Hle.
  assert (reversal_entry ft) as (Hs & Hr & [a Eam] & Hn) by (eapply Forall_lookup; eauto).
  assert (entry_value (f ft) == entry_value ft + dval v) as Ev.
  { unfold f, entry_value in *. rewrite Eam in *. cbn in *.
    destruct (dmin_cases (dadd (amt_Value a) v) cap) as [[_ ->]|[Hlt _]]; rewrite dval_add in *; lra. }
  assert (ft_AccountAlias (f ft) = ft_AccountAlias ft) as Eal by (unfold f; by rewrite Eam).
  split_and!.
  - apply Forall_alter; [done|]. intros x Ex _. rewrite Eft in Ex. injection Ex as <-.
    unfold reversal_entry. rewrite Ev. unfold f. rewrite Eam. cbn. split_and!; [done|done|by eexists|lra].
  - intros j. destruct (decide (j = i)) as [->|Hne].
    + rewrite list_lookup_alter_eq, Eft. cbn [fmap option_fmap option_map]. by f_equal.
    + by rewrite list_lookup_alter_ne by done.
  - intros p. rewrite (stated_alter p f es i ft Eft Eal), Ea. destruct (p _); [rewrite Ev|]; lra.
Qed.

Lemma recorded_nonneg value p ops : (∀ op, op ∈ ops → 0 <= oval (value op)) → 0 <= recorded value p ops.
Proof.
  induction ops as [|op ops IH]; intros H; [apply Qle_refl|]. rewrite recorded_cons.
  assert (0 <= recorded value p ops) by (apply IH; intros; apply H; by right).
  pose proof (H op ltac:(by left)). destruct (p _); lra.
Qed.

Lemma companions_exact isFrom cap m ops : ∀ es,
  Forall reversal_entry es → (∀ op, op ∈ ops → 0 <= oval (companion_value isFrom op)) →
  stated (λ _, true) es + recorded (companion_value isFrom) (λ _, true) ops <= dval cap →
  (∀ op, op ∈ ops → is_Some (companion_value isFrom op) →
     ∃ i a, m !! op_AccountAlias op = Some i ∧ ft_AccountAlias <$> es !! i = Some a ∧ a = op_AccountAlias op) →
  let es' := side_companions isFrom cap m ops es in
  Forall reversal_entry es' ∧ ∀ p, stated p es' == stated p es + recorded (companion_value isFrom) p ops.
Proof.
  induction ops as [|op ops IH]; intros es Hes Hn Hcap Hidx; cbn zeta.
  { split; [done|]. intros p. cbn [side_companions fold_left]. unfold recorded. cbn [qsum foldr]. lra. }
  cbn [side_companions fold_left]. rewrite recorded_cons in Hcap.
  assert (Hrest : ∀ o, o ∈ ops → 0 <= oval (companion_value isFrom o)) by (intros; apply Hn; by right).
  pose proof (recorded_nonneg (companion_value isFrom) (λ _, true) ops Hrest) as Hr0.
  assert (Hp : ∀ p, recorded (companion_value isFrom) p (op :: ops)
    = (if p (op_AccountAlias op) then oval (companion_value isFrom op) else 0) + recorded (companion_value isFrom) p ops)
    by done.
  destruct (companion_value isFrom op) as [v|] eqn:Ev; cbn [oval] in Hcap, Hp.
  - pose proof (Hn op ltac:(by left)) as Hv. rewrite Ev in Hv. cbn [oval] in Hv.
    destruct (Hidx op) as (i & a & Ei & Ea & ->); [by left|by eexists|].
    apply fmap_Some in Ea as (ft & Eft & Ea).
    destruct (add_companion_exact cap es m op v Hes Hv) as (H1 & H2 & H3); [lra|by exists i, ft|].
    destruct (IH (addCompanionAmount cap es m op v)) as [H4 H5]; [done|done|rewrite H3; lra|..].
    + intros o Ho Hs. destruct (Hidx o) as (j & b & Ej & Eb & ->); [by right|done|].
      exists j, (op_AccountAlias o). by rewrite H2.
    + split; [exact H4|]. intros p. etransitivity; [apply H5|]. rewrite H3, Hp. lra.
  - destruct (IH es) as [H4 H5]; [done|done|lra|by intros o Ho; apply Hidx; right|].
    split; [exact H4|]. intros p. etransitivity; [apply H5|]. rewrite Hp. destruct (p _); lra.
Qed.
End Sums.

(** ** The reversal is accepted *)

Section Accepted.
Context {D : DecimalLib} {DL : DecimalLaws} {C : LibCommons} {CL : LibCommonsLaws}.
Local Open Scope Q_scope.

Abbreviation everyone := (λ _ : string, true) (only parsing).

Lemma entry_explicit V ft : reversal_entry ft → explicit_q V ft == entry_value ft ∧ remaining_active ft = false.
Proof.
  intros (Es & Er & [a Ea] & Hn). unfold explicit_q, remaining_active, amount_active, entry_value in *.
  rewrite Es, Er, Ea, IsNilOrEmpty_empty in *. cbn in *. split; [|done].
  destruct (dis_positive (amt_Value a)) eqn:E; dec_facts; lra.
Qed.

Lemma entries_total V es : Forall reversal_entry es → total_spec V V es == stated everyone es.
Proof.
  intros H. rewrite total_spec_explicit.
  - induction H as [|ft es Hft _ IH]; [reflexivity|]. cbn [explicit_sum]. rewrite stated_cons, IH.
    by rewrite (proj1 (entry_explicit V ft Hft)).
  - eapply Forall_impl; [exact H|]. intros ft Hft. apply (entry_explicit V ft Hft).
Qed.

Lemma entries_kept tx tt es : Forall reversal_entry es →
  map (deref (cs_remaining (calc_loop es tx tt))) (cs_fromTos (calc_loop es tx tt)) = es.
Proof.
  intros H. unfold calc_loop at 2. rewrite calc_fold_fromTos.
  - cbn. clear. generalize (cs_remaining (calc_loop es tx tt)). intros r.
    induction es as [|ft es IH]; [done|]. cbn. rewrite IH. by rewrite set_ft_Amount_id.
  - eapply Forall_impl; [exact H|]. intros ft Hft. apply (entry_explicit 0 ft Hft).
Qed.

(** Explicit entries that sum to the value on both sides are only ever ambiguous. *)
Lemma explicit_accepted tx tt :
  Forall reversal_entry (sources_of tx) → Forall reversal_entry (destinations_of tx) →
  stated everyone (sources_of tx) == dval (send_Value (tx_Send tx)) →
  stated everyone (destinations_of tx) == dval (send_Value (tx_Send tx)) →
  ValidateSendSourceAndDistribute tx tt = Err ErrTransactionAmbiguous ∨
  ∃ r, ValidateSendSourceAndDistribute tx tt = Ok (r, sources_of tx, destinations_of tx) ∧
    resp_Total r = send_Value (tx_Send tx).
Proof.
  intros H1 H2 E1 E2. set (V := dval (send_Value (tx_Send tx))) in *.
  assert (total_spec V V (sources_of tx) == V) as T1 by (by rewrite entries_total).
  assert (total_spec V V (destinations_of tx) == V) as T2 by (by rewrite entries_total).
  destruct (ambiguous (cs_scdt (calc_loop (sources_of tx) tx tt)) (cs_fmto (calc_loop (destinations_of tx) tx tt))) eqn:A1.
  { left. unfold ValidateSendSourceAndDistribute, CalculateTotal. cbn. unfold sources_of, destinations_of in A1. by rewrite A1. }
  destruct (ambiguous (cs_scdt (calc_loop (destinations_of tx) tx tt)) (cs_fmto (calc_loop (sources_of tx) tx tt))) eqn:A2.
  { left. unfold ValidateSendSourceAndDistribute, CalculateTotal. cbn. unfold sources_of, destinations_of in A1, A2.
    by rewrite A1, A2. }
  right. eexists. split; [apply ValidateSend_Ok; cbn zeta; split_and!; try done; symmetry; by apply entries_kept|done].
Qed.

(** Entries that differ in alias, key or side only. *)
Definition same_amount (ft ft' : FromTo) : Prop :=
  ft_Share ft' = ft_Share ft ∧ ft_Remaining ft' = ft_Remaining ft ∧ ft_Amount ft' = ft_Amount ft.

Lemma same_amounts es es' : Forall2 same_amount es es' → Forall reversal_entry es →
  Forall reversal_entry es' ∧ stated everyone es' == stated everyone es.
Proof.
  induction 1 as [|ft ft' es es' (E1 & E2 & E3) _ IH]; [done|]. intros [Hft Hes]%Forall_cons.
  destruct (IH Hes) as [H1 H2]. rewrite !stated_cons, H2. unfold reversal_entry, entry_value in *.
  rewrite E3. split; [|reflexivity]. constructor; [|done]. by rewrite E1, E2, E3.
Qed.

Lemma default_keys_same es : Forall2 same_amount es (ApplyDefaultBalanceKeys es).
Proof. induction es as [|ft es IH]; [done|]. constructor; [|exact IH]. by case_bool_decide. Qed.
Lemma is_from_same es : Forall2 same_amount es (map (set_ft_IsFrom true) es).
Proof. by induction es; constructor. Qed.
Lemma concat_same es : Forall2 same_amount es (MutateConcatAliases es).
Proof.
  apply Forall2_same_length_lookup. unfold MutateConcatAliases. split; [by rewrite length_imap|].
  intros i x y Hx. rewrite list_lookup_imap, Hx. cbn. intros [= <-]. by destruct (negb _).
Qed.

Lemma normalized_same tx :
  Forall reversal_entry (sources_of tx) → Forall reversal_entry (destinations_of tx) →
  Forall reversal_entry (sources_of (normalize_send tx)) ∧ Forall reversal_entry (destinations_of (normalize_send tx)) ∧
  stated everyone (sources_of (normalize_send tx)) == stated everyone (sources_of tx) ∧
  stated everyone (destinations_of (normalize_send tx)) == stated everyone (destinations_of tx).
Proof.
  intros Hs Hd. unfold normalize_send, sources_of, destinations_of in *. cbn.
  destruct (same_amounts _ _ (is_from_same _) Hs) as [H1 E1].
  destruct (same_amounts _ _ (default_keys_same _) H1) as [H2 E2].
  destruct (same_amounts _ _ (concat_same _) H2) as [H3 E3].
  destruct (same_amounts _ _ (default_keys_same _) Hd) as [H4 E4].
  destruct (same_amounts _ _ (concat_same _) H4) as [H5 E5].
  split_and!; [done|done|by rewrite E3, E2, E1|by rewrite E5, E4].
Qed.

Lemma create_accepts tx tt :
  Forall reversal_entry (sources_of tx) → Forall reversal_entry (destinations_of tx) →
  stated everyone (sources_of tx) == dval (send_Value (tx_Send tx)) →
  stated everyone (destinations_of tx) == dval (send_Value (tx_Send tx)) →
  create_validate Ok tx tt = Err ErrTransactionAmbiguous ∨
  ∃ r, create_validate Ok tx tt = Ok r ∧ resp_Total r = send_Value (tx_Send tx).
Proof.
  intros Hs Hd Es Ed. unfold create_validate. set (tx1 := set_entries _ _ tx).
  destruct (same_amounts _ _ (default_keys_same _) Hs) as [H1 E1].
  destruct (same_amounts _ _ (default_keys_same _) Hd) as [H2 E2].
  destruct (explicit_accepted tx1 tt) as [->|(r & -> & _)]; try done.
  { unfold tx1. cbn. by rewrite <- Es. }
  { unfold tx1. cbn. by rewrite <- Ed. }
  { by left. }
  cbn [rbind]. set (tx2 := set_entries _ _ tx1).
  destruct (normalized_same tx2 H1 H2) as (H3 & H4 & E3 & E4).
  destruct (explicit_accepted (normalize_send tx2) tt) as [->|(r' & -> & Er)]; try done.
  { rewrite E3. unfold tx2, tx1. cbn. by rewrite <- Es. }
  { rewrite E4. unfold tx2, tx1. cbn. by rewrite <- Ed. }
  { by left. }
  right. exists r'. done.
Qed.

(** ** Balanced transactions *)

(** The stored operations of a settled transaction: amounts that are not negative, credits
    and debits that each make up the amount of the transaction, and with every companion
    record a record on a balance of the same account and side. *)
Record balanced (amount : dec) (ops : list Operation) : Prop := {
  bl_nonneg op : op ∈ ops → 0 <= oval (op_Amount op);
  bl_sides isFrom : recorded (leg_value isFrom) everyone ops + recorded (companion_value isFrom) everyone ops == dval amount;
  bl_companions isFrom op : op ∈ ops → is_Some (companion_value isFrom op) →
    ∃ leg, leg ∈ ops ∧ is_Some (leg_value isFrom leg) ∧ op_AccountAlias leg = op_AccountAlias op }.

Lemma companion_nonneg isFrom op : 0 <= oval (op_Amount op) → 0 <= oval (companion_value isFrom op).
Proof.
  unfold companion_value. destruct (op_Amount op) as [v|]; [|done]. intros H.
  by repeat case_match; cbn [oval].
Qed.

(** One side of the reversal: what each account states is what was recorded for it. *)
Lemma side_exact isFrom amount ops : balanced amount ops →
  let es := side_companions isFrom amount (side_index isFrom ops (0%nat, ∅)).2 ops (side_legs isFrom ops) in
  Forall reversal_entry es ∧
  ∀ p, stated p es == recorded (leg_value isFrom) p ops + recorded (companion_value isFrom) p ops.
Proof.
  intros [Hn Hsum Hc]. destruct (side_index_spec isFrom ops [] ∅) as (H1 & H2 & _); [done|].
  destruct (companions_exact isFrom amount (side_index isFrom ops (0%nat, ∅)).2 ops (side_legs isFrom ops)) as [H3 H4].
  - by apply legs_entries.
  - intros op Hop. by apply companion_nonneg, Hn.
  - rewrite stated_legs. rewrite <- (Hsum isFrom). apply Qle_refl.
  - intros op Hop Hs. destruct (Hc isFrom op Hop Hs) as (leg & Hl & Hv & Ea).
    destruct (H2 leg Hl Hv) as [i Ei]. cbn [length] in Ei. rewrite Ea in Ei. exists i, (op_AccountAlias op).
    destruct (H1 _ _ Ei) as (ft & Eft & Eal). cbn [app] in Eft. rewrite Eft. cbn [fmap option_fmap option_map]. split_and!; [done|by f_equal|done].
  - split; [exact H3|]. intros p. rewrite H4, stated_legs. reflexivity.
Qed.

Lemma revert_entries t amount : tr_Amount t = Some amount →
  sources_of (TransactionRevert t)
    = side_companions true amount (side_index true (tr_Operations t) (0%nat, ∅)).2 (tr_Operations t) (side_legs true (tr_Operations t)) ∧
  destinations_of (TransactionRevert t)
    = side_companions false amount (side_index false (tr_Operations t) (0%nat, ∅)).2 (tr_Operations t) (side_legs false (tr_Operations t)) ∧
  send_Value (tx_Send (TransactionRevert t)) = amount.
Proof.
  intros E. unfold TransactionRevert. rewrite E. unfold buildReversalLegs.
  destruct (legs_sides (tr_Operations t) (mkLegs [] [] ∅ ∅)) as (H1 & H2 & H3 & H4). cbn in H1, H2, H3, H4.
  rewrite companions_sides. unfold sources_of, destinations_of. cbn.
  rewrite <- H3, <- H4, H1, H2. done.
Qed.

End Accepted.

(** C28: If the operations of a transaction are balanced, that is on each side they sum to its
    amount, are not negative and have their companions on accounts with an operation of
    their own, its reversal takes from every account what the transaction recorded as
    received by it and gives to every account what it recorded as paid by it, on the
    balance and on its overdraft companion.  Its two sides then each sum to the amount, and
    the validations of the create path accept it, with that total, or refuse it as
    ambiguous because an account is on both sides; they never refuse it for its values.
    ([held_overdraft_cannot_revert] shows operations that are not balanced.) *)
Theorem reversal_mirrors {D : DecimalLib} {DL : DecimalLaws} {C : LibCommons} {CL : LibCommonsLaws}
    (t : TransactionEntity) (amount : dec) (Ha : tr_Amount t = Some amount) (Hb : balanced amount (tr_Operations t)) :
  let r := TransactionRevert t in
  let account a := λ b : string, String.eqb a b in
  (∀ a, stated (account a) (sources_of r)
        == recorded (leg_value true) (account a) (tr_Operations t)
           + recorded (companion_value true) (account a) (tr_Operations t))%Q ∧
  (∀ a, stated (account a) (destinations_of r)
        == recorded (leg_value false) (account a) (tr_Operations t)
           + recorded (companion_value false) (account a) (tr_Operations t))%Q ∧
  (create_validate Ok r CREATED = Err ErrTransactionAmbiguous ∨
   ∃ resp, create_validate Ok r CREATED = Ok resp ∧ resp_Total resp = amount).
Proof.
  cbn zeta. destruct (revert_entries t amount Ha) as (-> & -> & <-).
  destruct (side_exact true _ _ Hb) as [H1 E1], (side_exact false _ _ Hb) as [H2 E2].
  split_and!; [intros a; apply E1|intros a; apply E2|].
  pose proof (revert_entries t _ Ha) as (Es & Ed & Ev).
  apply create_accepts; rewrite ?Es, ?Ed, ?E1, ?E2, ?Ev; try done; apply (bl_sides _ _ Hb).
Qed.

(** ** Eligibility *)

(** An operation of a route that may be used in both directions, or of no route. *)
Definition reversible_route {U : UuidLib} {UP : UuidParse} {D : DecimalLib}
    (route : uuid → result string (option string)) (op : Operation) : Prop :=
  ∀ id, op_RouteID op = Some id → id ≠ "" →
    ∃ u ty, uuid_Parse id = Some u ∧ route u = Ok ty ∧ default "bidirectional" ty = "bidirectional".

Lemma check_bidirectional_Ok {U : UuidLib} {UP : UuidParse} {D : DecimalLib} route op :
  check_bidirectional route op = Ok tt ↔ reversible_route route op.
Proof.
  unfold check_bidirectional, reversible_route. destruct (op_RouteID op) as [id|]; [|by split].
  case_bool_decide as Hid; [split; [by intros _ ? [= <-]|done]|]. split.
  - intros E ? [= <-] _. destruct (uuid_Parse id) as [u|]; [|done]. destruct (route u) as [[ty|]|e] eqn:Er; [|by eauto|done].
    case_bool_decide; [|done]. exists u, (Some ty). by split_and!.
  - intros H. destruct (H id eq_refl Hid) as (u & ty & -> & -> & Hty). destruct ty as [ty|]; [|done].
    cbn in Hty. by rewrite bool_decide_eq_true_2.
Qed.

(** A transaction passes the gate exactly when it has not been reverted, is not a
    reversal itself, is approved, has something to reverse, and all the routes of its
    operations work in both directions; what goes on to the create path is its reversal. *)
Theorem revert_gate_exact {D : DecimalLib} {U : UuidLib} {UP : UuidParse} (ra : revert_answers) (r : Transaction) :
  revert_gate ra = Ok r ↔
  ra_parent ra = Ok None ∧ ∃ t, ra_transaction ra = Ok t ∧ tr_ParentTransactionID t = None ∧
    sta_Code (tr_Status t) = APPROVED ∧ r = TransactionRevert t ∧ Transaction_IsEmpty r = false ∧
    (∀ op, op ∈ tr_Operations t → reversible_route (ra_route ra) op).
Proof.
  unfold revert_gate. destruct (ra_parent ra) as [[p|]|e]; [naive_solver| |naive_solver].
  destruct (ra_transaction ra) as [t|e]; [|naive_solver].
  case_bool_decide as Hp.
  { split; [done|]. intros (_ & ? & [= <-] & E & _). rewrite E in Hp. by destruct Hp. }
  apply eq_None_not_Some in Hp. case_bool_decide as Hs; cbn [negb]; [|naive_solver].
  destruct (Transaction_IsEmpty (TransactionRevert t)) eqn:Ee.
  { split; [done|]. intros (_ & ? & [= <-] & _ & _ & -> & E & _). congruence. }
  rewrite rbind_Ok. split.
  - intros ([] & Hf & [= <-]). split; [done|]. exists t. split_and!; try done.
    intros op Hop. apply check_bidirectional_Ok. rewrite for_each_Ok, Forall_forall in Hf. by apply Hf.
  - intros (_ & ? & [= <-] & _ & _ & -> & _ & H). exists tt. split; [|done].
    apply for_each_Ok, Forall_forall. intros op Hop. by apply check_bidirectional_Ok, H.
Qed.

(** ** Samples *)

Module RevertSample.
Definition none := mkOpBalance (D := Fixed.lib) (fx 0 0) (fx 0 0) 0 (fx 0 0).
Definition op (ty : OpType) (alias key : string) (dir : Direction) (v : Z) : @Operation Fixed.lib :=
  mkOperation "o" "t1" "" ty "BRL" "" (Some (fx v 0)) none none "b" "acc" alias key "1" "2" 0 "" None ∅ true dir
    (mkSnapshot "0" "0") None None.
Definition tran (v : Z) (ops : list (@Operation Fixed.lib)) : @TransactionEntity Fixed.lib :=
  mkEntity "t1" None "rent" (mkStatus APPROVED (Some "APPROVED")) (Some (fx v 0)) "BRL" "" [] []
    "2" "1" zeroTransaction "" None false false 0 0 None ∅ ops.
Definition amounts (es : list (@FromTo Fixed.lib)) : list (string * string * option dec) :=
  (λ ft, (ft_AccountAlias ft, ft_BalanceKey ft, amt_Value <$> ft_Amount ft)) <$> es.

(** 100 from @alice, 30 of them from the overdraft, to @bob. *)
Definition overdrawn := tran 100
  [op DEBIT "@alice" "default" DirectionDebit 70; op OVERDRAFT "@alice" "overdraft" DirectionDebit 30;
   op CREDIT "@bob" "" DirectionCredit 100].

(** 20 and 30 of overdraft from the default balance of @alice, 50 from her savings. *)
Definition two_balances := tran 100
  [op DEBIT "@alice" "default" DirectionDebit 20; op DEBIT "@alice" "savings" DirectionDebit 50;
   op OVERDRAFT "@alice" "overdraft" DirectionDebit 30; op CREDIT "@bob" "default" DirectionCredit 100].

(** 60 from @alice, 30 of them from the overdraft, and 40 from @carol to @bob, held first and
    committed later: the companion is recorded with the hold, the whole debit with the commit. *)
Definition held := tran 100
  [op ONHOLD "@alice" "default" DirectionDebit 60; op OVERDRAFT "@alice" "overdraft" DirectionDebit 30;
   op ONHOLD "@carol" "default" DirectionDebit 40;
   op DEBIT "@alice" "default" DirectionDebit 60; op DEBIT "@carol" "default" DirectionDebit 40;
   op CREDIT "@bob" "default" DirectionCredit 100].

Lemma overdrawn_balanced : balanced (fx 100 0) (tr_Operations overdrawn).
Proof.
  split.
  - intros o Ho. repeat (apply elem_of_cons in Ho as [->|Ho]; [vm_compute; discriminate|]). by apply elem_of_nil in Ho.
  - intros []; vm_compute; reflexivity.
  - intros [] o Ho Hc; repeat (apply elem_of_cons in Ho as [->|Ho]; [try (by vm_compute in Hc; destruct Hc as [? [=]])|]);
      try (by apply elem_of_nil in Ho).
    exists (op DEBIT "@alice" "default" DirectionDebit 70). split_and!; [by left|by eexists; vm_compute|done].
Qed.
End RevertSample.

Lemma reversal_mirrors_witness :
  RevertSample.amounts (destinations_of (TransactionRevert RevertSample.overdrawn)) = [("@alice", "default", Some (fx 100 0))] ∧
  (stated (String.eqb "@alice") (destinations_of (TransactionRevert RevertSample.overdrawn)) == 100)%Q.
Proof.
  split; [vm_compute; reflexivity|].
  destruct (reversal_mirrors (C := Commons.lib) RevertSample.overdrawn (fx 100 0) eq_refl RevertSample.overdrawn_balanced)
    as (_ & H & _).
  rewrite (H "@alice"). vm_compute. reflexivity.
Defined.

(** The overdraft of one balance of an account is given back to the last of its balances in
    the transaction: 80 instead of 50 go to the savings, 20 instead of 50 to the balance
    that was overdrawn. *)
Theorem companion_reverts_to_last_balance :
  RevertSample.amounts (destinations_of (TransactionRevert RevertSample.two_balances))
  = [("@alice", "default", Some (fx 20 0)); ("@alice", "savings", Some (fx 80 0))].
Proof. vm_compute. reflexivity. Qed.

(** A committed hold with two sources of which one is overdrawn cannot be reverted: the
    companion of the hold is added to the debit of the commit, which already has it. *)
Theorem held_overdraft_cannot_revert :
  create_validate (C := Commons.lib) Ok (TransactionRevert RevertSample.held) CREATED = Err ErrTransactionValueMismatch ∧
  RevertSample.amounts (destinations_of (TransactionRevert RevertSample.held))
  = [("@alice", "default", Some (fx 90 0)); ("@carol", "default", Some (fx 40 0))].
Proof. split; vm_compute; reflexivity. Qed.
