(* ===== verification/Settings.v ===== *)
(** * Settings of a ledger

    src/pkg/mmodel/settings.go: the settings are a JSON document with three groups; a PATCH is
    validated against a schema ([ValidateSettings]) and merged into the stored document
    ([DeepMergeSettings]), and the handlers read a typed view of it ([ParseLedgerSettings]).
    services/command/update_ledger_settings.go and create_ledger.go write the document,
    services/query/get_ledger_settings.go reads it through a cache of five minutes, and
    adapters/postgres/ledger holds the column.

    A document is the finite map of its groups, down to the values the code looks at; the nil
    map behaves as the empty one throughout.  The order in which Go visits a map is a
    parameter ([MapOrder]): it only decides which of several errors is reported. *)

From Stdlib Require Import ZArith Lia QArith.
From stdpp Require Import base gmap strings list sorting.
From S2P Require Import Prelude GoTime WritePath BulkWrite.
Local Open Scope string_scope.
Local Open Scope list_scope.
Local Open Scope Z_scope.

(** ** Documents *)

(** Values inside a group: JSON scalars, anything else is [LOther]. *)
Inductive setting_value := LNull | LBool (b : bool) | LString (s : string) | LNumber (q : Q) | LOther.
Inductive setting_group := GNull | GObject (m : gmap string setting_value) | GOther.
Abbreviation settings_map := (gmap string setting_group).

(** ** The typed view *)

Record AccountingValidation := mkAccounting {
  av_ValidateAccountType : bool; av_ValidateRoutes : bool; av_RequireHolder : bool }.
Record OverridePolicy := mkOverrides {
  ov_AllowFeeSkip : bool; ov_AllowTracerSkip : bool; ov_AllowHolderSkip : bool }.
Record TracerSettings := mkTracerSettings { trs_Mode : string; trs_FailPosture : string; trs_TimeoutMs : Z }.
Record LedgerSettings := mkLedgerSettings {
  ls_Accounting : AccountingValidation; ls_Tracer : TracerSettings; ls_Overrides : OverridePolicy }.

Definition TracerModeOff : string := "off".
Definition TracerModeAdvisory : string := "advisory".
Definition TracerModeEnforce : string := "enforce".
Definition TracerFailPostureOpen : string := "open".
Definition TracerFailPostureClosed : string := "closed".

Definition DefaultLedgerSettings : LedgerSettings :=
  mkLedgerSettings (mkAccounting false false false)
    (mkTracerSettings TracerModeOff TracerFailPostureOpen 250) (mkOverrides false false false).

#[export] Instance AccountingValidation_eq : EqDecision AccountingValidation.
Proof. solve_decision. Defined.
#[export] Instance OverridePolicy_eq : EqDecision OverridePolicy.
Proof. solve_decision. Defined.
#[export] Instance TracerSettings_eq : EqDecision TracerSettings.
Proof. solve_decision. Defined.
#[export] Instance LedgerSettings_eq : EqDecision LedgerSettings.
Proof. solve_decision. Defined.

(** Both conversions to a map. *)
Definition LedgerSettingsToMap (s : LedgerSettings) : settings_map :=
  {["accounting" := GObject {[
      "validateAccountType" := LBool (av_ValidateAccountType (ls_Accounting s));
      "validateRoutes" := LBool (av_ValidateRoutes (ls_Accounting s));
      "requireHolder" := LBool (av_RequireHolder (ls_Accounting s)) ]};
    "tracer" := GObject {[
      "mode" := LString (trs_Mode (ls_Tracer s));
      "failPosture" := LString (trs_FailPosture (ls_Tracer s));
      "timeoutMs" := LNumber (inject_Z (trs_TimeoutMs (ls_Tracer s))) ]};
    "overrides" := GObject {[
      "allowFeeSkip" := LBool (ov_AllowFeeSkip (ls_Overrides s));
      "allowTracerSkip" := LBool (ov_AllowTracerSkip (ls_Overrides s));
      "allowHolderSkip" := LBool (ov_AllowHolderSkip (ls_Overrides s)) ]} ]}.

Definition DefaultLedgerSettingsMap : settings_map := LedgerSettingsToMap DefaultLedgerSettings.

Definition LedgerSettingsIsDefault (s : option LedgerSettings) : bool :=
  match s with
  | None => true
  | Some s => bool_decide (s = DefaultLedgerSettings)
  end.

(** [settings[g].(map[string]any)[f]]: the value at a path, if the group is an object. *)
Definition setting_at (d : settings_map) (g f : string) : option setting_value :=
  match d !! g with
  | Some (GObject m) => m !! f
  | _ => None
  end.

(** [int(v)] of a float64 drops the fraction. *)
Definition parseSettingsNumber (v : option setting_value) : option Z :=
  match v with
  | Some (LNumber q) => Some (Z.quot (Qnum q) (Zpos (Qden q)))
  | _ => None
  end.
Definition as_bool (v : option setting_value) : option bool := match v with Some (LBool b) => Some b | _ => None end.
Definition as_string (v : option setting_value) : option string := match v with Some (LString s) => Some s | _ => None end.

Definition ParseLedgerSettings (d : settings_map) : LedgerSettings :=
  let dft := DefaultLedgerSettings in
  let a f dv := default dv (as_bool (setting_at d "accounting" f)) in
  let o f dv := default dv (as_bool (setting_at d "overrides" f)) in
  mkLedgerSettings
    (mkAccounting (a "validateAccountType" (av_ValidateAccountType (ls_Accounting dft)))
       (a "validateRoutes" (av_ValidateRoutes (ls_Accounting dft))) (a "requireHolder" (av_RequireHolder (ls_Accounting dft))))
    (mkTracerSettings (default (trs_Mode (ls_Tracer dft)) (as_string (setting_at d "tracer" "mode")))
       (default (trs_FailPosture (ls_Tracer dft)) (as_string (setting_at d "tracer" "failPosture")))
       (default (trs_TimeoutMs (ls_Tracer dft)) (parseSettingsNumber (setting_at d "tracer" "timeoutMs"))))
    (mkOverrides (o "allowFeeSkip" (ov_AllowFeeSkip (ls_Overrides dft)))
       (o "allowTracerSkip" (ov_AllowTracerSkip (ls_Overrides dft))) (o "allowHolderSkip" (ov_AllowHolderSkip (ls_Overrides dft)))).

(** ** The schema *)

Inductive setting_type := TBool | TString | TNumber.

Definition settingsSchema : gmap string (gmap string setting_type) :=
  {["accounting" := {["validateAccountType" := TBool; "validateRoutes" := TBool; "requireHolder" := TBool]};
    "tracer" := {["mode" := TString; "failPosture" := TString; "timeoutMs" := TNumber]};
    "overrides" := {["allowFeeSkip" := TBool; "allowTracerSkip" := TBool; "allowHolderSkip" := TBool]} ]}.

(** Whether a name belongs inside a group. *)
Definition knownNestedFieldName (name : string) : bool :=
  existsb (λ kv, bool_decide (is_Some (kv.2 !! name))) (map_to_list settingsSchema).

Inductive LedgerSettingsError :=
  | ErrSettingsRootLevelField (key : string)
  | ErrUnknownSettingsField (path : string)
  | ErrInvalidSettingsFieldType (path : string)
  | ErrInvalidSettingsFieldValue (path : string).

Definition validateSettingsFieldType (v : setting_value) (ty : setting_type) (path : string) : result LedgerSettingsError unit :=
  match ty, v with
  | TBool, LBool _ | TString, LString _ | TNumber, LNumber _ => Ok tt
  | _, _ => Err (ErrInvalidSettingsFieldType path)
  end.

Definition allowedTracerModes : list string := [TracerModeOff; TracerModeAdvisory; TracerModeEnforce].
Definition allowedTracerFailPostures : list string := [TracerFailPostureOpen; TracerFailPostureClosed].

Definition validateSettingsFieldValue (parentKey nestedKey : string) (v : setting_value) (path : string) : result LedgerSettingsError unit :=
  if negb (bool_decide (parentKey = "tracer")) then Ok tt else
  let one_of (allowed : list string) :=
    match v with
    | LString s => if bool_decide (s ∈ allowed) then Ok tt else Err (ErrInvalidSettingsFieldValue path)
    | _ => Err (ErrInvalidSettingsFieldValue path)
    end in
  if bool_decide (nestedKey = "mode") then one_of allowedTracerModes
  else if bool_decide (nestedKey = "failPosture") then one_of allowedTracerFailPostures
  else Ok tt.

(** ** Validation *)

(** The orders in which Go visits the two kinds of maps. *)
Class MapOrder := {
  visit_groups : settings_map → list (string * setting_group);
  visit_values : gmap string setting_value → list (string * setting_value) }.
Class MapOrderLaws {O : MapOrder} := {
  visit_groups_perm d : visit_groups d ≡ₚ map_to_list d;
  visit_values_perm m : visit_values m ≡ₚ map_to_list m }.

Section Validation.
Context {O : MapOrder}.

Definition validate_value (key : string) (nestedSchema : gmap string setting_type) (kv : string * setting_value)
    : result LedgerSettingsError unit :=
  let '(nestedKey, v) := kv in
  let path := key +:+ "." +:+ nestedKey in
  match nestedSchema !! nestedKey with
  | None => Err (ErrUnknownSettingsField path)
  | Some ty =>
      match v with
      | LNull => Ok tt
      | _ => do! validateSettingsFieldType v ty path;; validateSettingsFieldValue key nestedKey v path
      end
  end.

Definition validate_group (kv : string * setting_group) : result LedgerSettingsError unit :=
  let '(key, g) := kv in
  match settingsSchema !! key with
  | None => Err (ErrUnknownSettingsField key)
  | Some nestedSchema =>
      match g with
      | GNull => Ok tt
      | GOther => Err (ErrInvalidSettingsFieldType key)
      | GObject m => for_each (validate_value key nestedSchema) (visit_values m)
      end
  end.

(** The keys are sorted before the root-level check. *)
Definition sorted_keys (d : settings_map) : list string := merge_sort (id_le id) (visit_groups d).*1.

Definition ValidateSettings (d : settings_map) : result LedgerSettingsError unit :=
  do! for_each (λ key, if knownNestedFieldName key then Err (ErrSettingsRootLevelField key) else Ok tt) (sorted_keys d);;
  for_each validate_group (visit_groups d).

End Validation.

(** ** Merging *)

(** The groups of the new document are merged one by one, each into the old one. *)
Definition merge_group (old new : option setting_group) : option setting_group :=
  match new, old with
  | None, _ => old
  | Some (GObject m), Some (GObject e) => Some (GObject (m ∪ e))
  | Some g, _ => Some g
  end.
Definition DeepMergeSettings (existing newSettings : settings_map) : settings_map := merge merge_group existing newSettings.

(** ** Stores *)

(** The row of a ledger and the cache of its settings, with the end of its life. *)
Record settings_store := mkSettingsStore {
  sst_row : option settings_map; sst_cache : option (settings_map * Z) }.

Inductive SettingsFailure := InvalidSettings (e : LedgerSettingsError) | LedgerNotFound | SettingsCallFailed.

Definition SettingsCacheTTL : Z := 5 * Minute.

(** [GetSettings] *)
Definition GetSettings (a : answer) (st : settings_store) : result SettingsFailure settings_map :=
  match a, sst_row st with
  | Answered, Some d => Ok d
  | Answered, None => Err LedgerNotFound
  | _, _ => Err SettingsCallFailed
  end.

(** [UpdateSettings], with the operator || of PostgreSQL, which replaces whole groups. *)
Definition UpdateSettings (a : answer) (settings : settings_map) (st : settings_store) : settings_store * result SettingsFailure settings_map :=
  match sst_row st with
  | None => (st, Err (match a with Answered => LedgerNotFound | _ => SettingsCallFailed end))
  | Some d =>
      let st' := mkSettingsStore (Some (settings ∪ d)) (sst_cache st) in
      match a with
      | Answered => (st', Ok (settings ∪ d))
      | Refused => (st, Err SettingsCallFailed)
      | AnswerLost => (st', Err SettingsCallFailed)
      end
  end.

(** [ReplaceSettings] *)
Definition ReplaceSettings (a : answer) (settings : settings_map) (st : settings_store) : settings_store * result SettingsFailure settings_map :=
  match sst_row st with
  | None => (st, Err (match a with Answered => LedgerNotFound | _ => SettingsCallFailed end))
  | Some _ =>
      let st' := mkSettingsStore (Some settings) (sst_cache st) in
      match a with
      | Answered => (st', Ok settings)
      | Refused => (st, Err SettingsCallFailed)
      | AnswerLost => (st', Err SettingsCallFailed)
      end
  end.

(** [UpdateSettingsAtomic]: the row is locked from the read to the commit. *)
Definition UpdateSettingsAtomic (a : answer) (mergeFn : settings_map → settings_map) (st : settings_store)
    : settings_store * result SettingsFailure settings_map :=
  match sst_row st with
  | None => (st, Err (match a with Answered => LedgerNotFound | _ => SettingsCallFailed end))
  | Some d =>
      let merged := mergeFn d in
      let st' := mkSettingsStore (Some merged) (sst_cache st) in
      match a with
      | Answered => (st', Ok merged)
      | Refused => (st, Err SettingsCallFailed)
      | AnswerLost => (st', Err SettingsCallFailed)
      end
  end.

Definition invalidateSettingsCache (a : answer) (st : settings_store) : settings_store :=
  match a with
  | Refused => st
  | _ => mkSettingsStore (sst_row st) None
  end.

Definition UpdateLedgerSettings {O : MapOrder} (db cache : answer) (settings : settings_map) (st : settings_store)
    : settings_store * result SettingsFailure settings_map :=
  match ValidateSettings settings with
  | Err e => (st, Err (InvalidSettings e))
  | Ok _ =>
      match UpdateSettingsAtomic db (λ existing, DeepMergeSettings existing settings) st with
      | (st', Ok merged) => (invalidateSettingsCache cache st', Ok merged)
      | (st', Err e) => (st', Err e)
      end
  end.

(** [updateLedgerSettings] of the handler. *)
Definition updateLedgerSettings {O : MapOrder} (db cache : answer) (settings : settings_map) (st : settings_store)
    : settings_store * result SettingsFailure LedgerSettings :=
  match UpdateLedgerSettings db cache settings st with
  | (st', Ok merged) => (st', Ok (ParseLedgerSettings merged))
  | (st', Err e) => (st', Err e)
  end.

(** [readSettingsFromCache] and [writeSettingsToCache]. *)
Definition readSettingsFromCache (a : answer) (now : Z) (st : settings_store) : option settings_map :=
  match a, sst_cache st with
  | Answered, Some (d, expiry) => if now <? expiry then Some d else None
  | _, _ => None
  end.
Definition writeSettingsToCache (a : answer) (now : Z) (d : settings_map) (st : settings_store) : settings_store :=
  match a with
  | Refused => st
  | _ => mkSettingsStore (sst_row st) (Some (d, now + SettingsCacheTTL))
  end.

Definition GetLedgerSettings (read db write : answer) (now : Z) (st : settings_store)
    : settings_store * result SettingsFailure settings_map :=
  match readSettingsFromCache read now st with
  | Some d => (st, Ok d)
  | None =>
      match GetSettings db st with
      | Err e => (st, Err e)
      | Ok d => (writeSettingsToCache write now d st, Ok d)
      end
  end.

Definition GetParsedLedgerSettings (read db write : answer) (now : Z) (st : settings_store)
    : settings_store * result SettingsFailure LedgerSettings :=
  match GetLedgerSettings read db write now st with
  | (st', Ok d) => (st', Ok (ParseLedgerSettings d))
  | (st', Err e) => (st', Err e)
  end.

(** The settings of [CreateLedger], and of [FromEntity] and [ToEntity]: the column of a new
    ledger, without settings an empty object. *)
Definition CreateLedger_settings {O : MapOrder} (input : option LedgerSettings) : result SettingsFailure (option LedgerSettings) :=
  if LedgerSettingsIsDefault input then Ok None else
  match input with
  | None => Ok None
  | Some s =>
      match ValidateSettings (LedgerSettingsToMap s) with
      | Err e => Err (InvalidSettings e)
      | Ok _ => Ok (Some (ParseLedgerSettings (LedgerSettingsToMap s)))
      end
  end.
Definition settings_column (s : option LedgerSettings) : settings_map :=
  match s with Some s => LedgerSettingsToMap s | None => ∅ end.
Definition settings_entity (d : settings_map) : option LedgerSettings :=
  if (size d =? 0)%nat then None else Some (ParseLedgerSettings d).

(** ** Valid documents *)

Definition has_type (v : setting_value) (ty : setting_type) : Prop :=
  match ty, v with
  | TBool, LBool _ | TString, LString _ | TNumber, LNumber _ => True
  | _, _ => False
  end.
Definition permitted (g f : string) (v : setting_value) : Prop :=
  g = "tracer" →
  (f = "mode" → ∃ s, v = LString s ∧ s ∈ allowedTracerModes) ∧
  (f = "failPosture" → ∃ s, v = LString s ∧ s ∈ allowedTracerFailPostures).

(** Only known groups and fields, null or of their type and among the allowed values. *)
Definition valid_value (g : string) (schema : gmap string setting_type) (f : string) (v : setting_value) : Prop :=
  ∃ ty, schema !! f = Some ty ∧ (v = LNull ∨ has_type v ty ∧ permitted g f v).
Definition valid_settings (d : settings_map) : Prop :=
  ∀ g x, d !! g = Some x → ∃ schema, settingsSchema !! g = Some schema ∧
    match x with
    | GNull => True
    | GOther => False
    | GObject m => ∀ f v, m !! f = Some v → valid_value g schema f v
    end.

Lemma type_exact v ty path : validateSettingsFieldType v ty path = Ok tt ↔ has_type v ty.
Proof. by destruct ty, v. Qed.

Lemma value_exact g f v path : validateSettingsFieldValue g f v path = Ok tt ↔ permitted g f v.
Proof.
  unfold validateSettingsFieldValue, permitted. case_bool_decide as Hg; cbn [negb]; [|naive_solver].
  case_bool_decide as Hm; [subst; split|case_bool_decide as Hp; [subst; split|naive_solver]].
  - destruct v; try done. case_bool_decide; [|done]. intros _ _. split; [by eauto|done].
  - intros H. destruct (proj1 (H eq_refl) eq_refl) as (s & -> & Hs). by rewrite bool_decide_true.
  - destruct v; try done. case_bool_decide; [|done]. intros _ _. split; [done|by eauto].
  - intros H. destruct (proj2 (H eq_refl) eq_refl) as (s & -> & Hs). by rewrite bool_decide_true.
Qed.

Lemma validate_value_exact g schema f v : validate_value g schema (f, v) = Ok tt ↔ valid_value g schema f v.
Proof.
  unfold validate_value, valid_value. destruct (schema !! f) as [ty|] eqn:E; [|naive_solver].
  assert (∀ r1 r2 : result LedgerSettingsError unit, (do! r1;; r2) = Ok tt ↔ r1 = Ok tt ∧ r2 = Ok tt) as Hb
    by (intros [[]|] [[]|]; cbn; naive_solver).
  assert ((do! validateSettingsFieldType v ty (g +:+ "." +:+ f);; validateSettingsFieldValue g f v (g +:+ "." +:+ f)) = Ok tt ↔
          has_type v ty ∧ permitted g f v) as Hx by (rewrite Hb, type_exact, value_exact; done).
  destruct v; [split; [|done]; intros _; eauto|..]; rewrite Hx; (split; [by eauto|]);
    intros (ty' & [= <-] & [?|?]); done.
Qed.

Section Exact.
Context {O : MapOrder} {OL : MapOrderLaws}.

Lemma for_each_map {A} (f : string * A → result LedgerSettingsError unit) (l : list (string * A)) (m : gmap string A) :
  l ≡ₚ map_to_list m → for_each f l = Ok tt ↔ ∀ k v, m !! k = Some v → f (k, v) = Ok tt.
Proof.
  intros Hl. rewrite for_each_Ok, Forall_forall. split.
  - intros H k v Hk. apply H. rewrite Hl. by apply elem_of_map_to_list.
  - intros H [k v] Hk. apply H. rewrite Hl in Hk. by apply elem_of_map_to_list.
Qed.

Lemma validate_group_exact g x : validate_group (g, x) = Ok tt ↔ ∃ schema, settingsSchema !! g = Some schema ∧
  match x with GNull => True | GOther => False | GObject m => ∀ f v, m !! f = Some v → valid_value g schema f v end.
Proof.
  unfold validate_group. destruct (settingsSchema !! g) as [schema|] eqn:E; [|naive_solver].
  destruct x as [|m|]; [naive_solver| |naive_solver]. rewrite (for_each_map _ _ m (visit_values_perm m)).
  split.
  - intros H. exists schema. split; [done|]. intros f v Hf. by apply validate_value_exact, H.
  - intros (? & [= <-] & H) f v Hf. by apply validate_value_exact, H.
Qed.

(** No name is both a group and a field. *)
Lemma groups_not_nested g : is_Some (settingsSchema !! g) → knownNestedFieldName g = false.
Proof.
  intros H. assert (g ∈ (["accounting"; "tracer"; "overrides"] : list string)) as Hg.
  { destruct H as [schema H]. assert (g ∈ (map_to_list settingsSchema).*1) as Hin.
    { apply list_elem_of_fmap. exists (g, schema). split; [done|]. by apply elem_of_map_to_list. }
    revert Hin. generalize g. apply Forall_forall. vm_compute. repeat constructor. }
  revert g Hg H. apply (Forall_forall (λ g, is_Some (settingsSchema !! g) → knownNestedFieldName g = false)).
  repeat constructor; intros _; vm_compute; reflexivity.
Qed.

Lemma ValidateSettings_exact d : ValidateSettings d = Ok tt ↔ valid_settings d.
Proof.
  assert (for_each validate_group (visit_groups d) = Ok tt ↔ valid_settings d) as Hg.
  { rewrite (for_each_map _ _ d (visit_groups_perm d)). unfold valid_settings.
    split; intros H g x Hx; [by apply validate_group_exact, H|by apply validate_group_exact, H]. }
  unfold ValidateSettings. destruct (for_each _ (sorted_keys d)) as [[]|e] eqn:E; [by cbn|]. cbn. split; [done|].
  intros Hv. exfalso. assert (Err e = Ok tt :> result LedgerSettingsError unit) as [=]. rewrite <- E. apply for_each_Ok, Forall_forall.
  intros k Hk. unfold sorted_keys in Hk. rewrite merge_sort_Permutation, (fmap_Permutation fst _ _ (visit_groups_perm d)) in Hk.
  apply list_elem_of_fmap in Hk as ([k' x] & -> & Hk). apply elem_of_map_to_list in Hk. cbn.
  destruct (Hv _ _ Hk) as (schema & Hs & _). by rewrite groups_not_nested by (by eexists).
Qed.

End Exact.

(** ** Merging *)

Lemma lookup_DeepMerge old new g : DeepMergeSettings old new !! g = merge_group (old !! g) (new !! g).
Proof. unfold DeepMergeSettings. rewrite lookup_merge. by destruct (old !! g), (new !! g) as [[]|]. Qed.

Lemma valid_merge old new : valid_settings old → valid_settings new → valid_settings (DeepMergeSettings old new).
Proof.
  intros Ho Hn g x. rewrite lookup_DeepMerge. unfold merge_group.
  destruct (new !! g) as [[|m|]|] eqn:En; [intros [= <-]; exact (Hn _ _ En)| |intros [= <-]; exact (Hn _ _ En)|by apply Ho].
  destruct (old !! g) as [[|e|]|] eqn:Eo; intros [= <-]; try exact (Hn _ _ En).
  destruct (Hn _ _ En) as (schema & Hs & Hm), (Ho _ _ Eo) as (schema' & Hs' & He). simplify_eq.
  exists schema. split; [done|]. intros f v [Hf|[_ Hf]]%lookup_union_Some_raw; eauto.
Qed.

(** The value at a path after a merge. *)
Definition patched_at (new : settings_map) (g f : string) (old : option setting_value) : option setting_value :=
  match new !! g with
  | None => old
  | Some (GObject m) => match m !! f with Some v => Some v | None => old end
  | Some _ => None
  end.

Lemma setting_at_merge old new g f : setting_at (DeepMergeSettings old new) g f = patched_at new g f (setting_at old g f).
Proof.
  unfold setting_at, patched_at. rewrite lookup_DeepMerge. unfold merge_group.
  destruct (new !! g) as [[|m|]|], (old !! g) as [[|e|]|]; try done; rewrite ?lookup_union; destruct (m !! f); try done.
  all: by destruct (e !! f).
Qed.

(** *** The typed patch

    What a PATCH means for one setting: unchanged where the document does not mention it, the
    default where it, or its whole group, is null, and the given value otherwise. *)
Definition patch_setting {A} (read : option setting_value → option A) (dft : A) (new : settings_map) (g f : string) (old : A) : A :=
  match new !! g with
  | None => old
  | Some (GObject m) => match m !! f with None => old | Some v => default dft (read (Some v)) end
  | Some _ => dft
  end.

Definition patch_settings (new : settings_map) (s : LedgerSettings) : LedgerSettings :=
  let dft := DefaultLedgerSettings in
  let flag g f sel := patch_setting as_bool (sel dft) new g f (sel s) in
  mkLedgerSettings
    (mkAccounting (flag "accounting" "validateAccountType" (λ s, av_ValidateAccountType (ls_Accounting s)))
       (flag "accounting" "validateRoutes" (λ s, av_ValidateRoutes (ls_Accounting s)))
       (flag "accounting" "requireHolder" (λ s, av_RequireHolder (ls_Accounting s))))
    (mkTracerSettings (patch_setting as_string TracerModeOff new "tracer" "mode" (trs_Mode (ls_Tracer s)))
       (patch_setting as_string TracerFailPostureOpen new "tracer" "failPosture" (trs_FailPosture (ls_Tracer s)))
       (patch_setting parseSettingsNumber 250 new "tracer" "timeoutMs" (trs_TimeoutMs (ls_Tracer s))))
    (mkOverrides (flag "overrides" "allowFeeSkip" (λ s, ov_AllowFeeSkip (ls_Overrides s)))
       (flag "overrides" "allowTracerSkip" (λ s, ov_AllowTracerSkip (ls_Overrides s)))
       (flag "overrides" "allowHolderSkip" (λ s, ov_AllowHolderSkip (ls_Overrides s)))).

Lemma patch_read {A} (read : option setting_value → option A) (dft : A) old new g f : read None = None →
  default dft (read (patched_at new g f (setting_at old g f))) =
  patch_setting read dft new g f (default dft (read (setting_at old g f))).
Proof. intros Hr. unfold patched_at, patch_setting. destruct (new !! g) as [[|m|]|]; rewrite ?Hr; try done. by destruct (m !! f). Qed.

Lemma parse_merge old new : ParseLedgerSettings (DeepMergeSettings old new) = patch_settings new (ParseLedgerSettings old).
Proof. unfold ParseLedgerSettings at 1. rewrite !setting_at_merge, !patch_read by done. reflexivity. Qed.

(** The typed view of a valid document has allowed values. *)
Definition allowed_settings (s : LedgerSettings) : Prop :=
  trs_Mode (ls_Tracer s) ∈ allowedTracerModes ∧ trs_FailPosture (ls_Tracer s) ∈ allowedTracerFailPostures.

Lemma valid_string d f (allowed : list string) dft : valid_settings d → dft ∈ allowed →
  (∀ v, permitted "tracer" f v → ∃ s, v = LString s ∧ s ∈ allowed) →
  default dft (as_string (setting_at d "tracer" f)) ∈ allowed.
Proof.
  intros Hv Hd Hp. unfold setting_at. destruct (d !! "tracer") as [[|m|]|] eqn:E; try done.
  destruct (m !! f) as [v|] eqn:Ef; [|done]. destruct (Hv _ _ E) as (schema & _ & Hm).
  destruct (Hm _ _ Ef) as (ty & _ & [->|[_ Ha]]); [done|]. by destruct (Hp v Ha) as (s & -> & Hs).
Qed.

Lemma valid_allowed d : valid_settings d → allowed_settings (ParseLedgerSettings d).
Proof.
  intros Hv. split.
  - apply (valid_string d "mode" allowedTracerModes); [done|left|]. intros v Hp. by apply Hp.
  - apply (valid_string d "failPosture" allowedTracerFailPostures); [done|left|]. intros v Hp. by apply Hp.
Qed.

(** ** Round trip *)

Lemma parse_to_map s : ParseLedgerSettings (LedgerSettingsToMap s) = s.
Proof.
  destruct s as [[a1 a2 a3] [mode posture t] [o1 o2 o3]]. unfold LedgerSettingsToMap.
  unfold ParseLedgerSettings. f_equal; f_equal; try reflexivity. change (Z.quot t 1 = t). apply Z.quot_1_r.
Qed.

Lemma to_map_valid s : valid_settings (LedgerSettingsToMap s) ↔ allowed_settings s.
Proof.
  split; [intros Hv%valid_allowed; by rewrite parse_to_map in Hv|]. intros [Hm Hp] g x Hx.
  unfold LedgerSettingsToMap in Hx.
  repeat (apply lookup_insert_Some in Hx as [[<- <-]|[_ Hx]]); [..|apply lookup_singleton_Some in Hx as [<- <-]];
    (eexists; split; [reflexivity|]); intros f v Hf;
    repeat (apply lookup_insert_Some in Hf as [[<- <-]|[_ Hf]]); try (apply lookup_singleton_Some in Hf as [<- <-]);
    (eexists; split; [reflexivity|right; split; [exact I|]]); intros Hg; try discriminate Hg; clear Hg;
    (split; intros Hfn; try discriminate Hfn; eauto).
Qed.

Section Commands.
Context {O : MapOrder} {OL : MapOrderLaws}.

(** A ledger is created with given settings exactly if their mode and posture are among
    the allowed ones, and then the stored document reads back as the given settings. *)
Theorem created_settings_read_back (s : LedgerSettings) :
  (allowed_settings s → ∃ c, CreateLedger_settings (Some s) = Ok c ∧ ParseLedgerSettings (settings_column c) = s ∧
     default DefaultLedgerSettings (settings_entity (settings_column c)) = s) ∧
  (¬ allowed_settings s → ∃ e, CreateLedger_settings (Some s) = Err (InvalidSettings e)).
Proof.
  unfold CreateLedger_settings, LedgerSettingsIsDefault. case_bool_decide as Hd.
  { split; [intros _; exists None; subst; by split_and!|]. intros Hn. exfalso. apply Hn. subst. split; left. }
  pose proof (ValidateSettings_exact (LedgerSettingsToMap s)) as Hv. rewrite to_map_valid in Hv. split.
  - intros Ha%Hv. rewrite Ha. eexists. split; [reflexivity|]. cbn [settings_column]. unfold settings_entity.
    rewrite !parse_to_map. by split.
  - intros Hn. destruct (ValidateSettings _) as [[]|e] eqn:E; [|by eauto]. exfalso. by apply Hn, Hv.
Qed.

(** C23: A PATCH of the settings is the typed patch.  It is accepted exactly if the document
    is valid and the ledger exists; the answer and the stored row then read as the old settings
    with the mentioned ones set, null meaning the default, and the cache is emptied.  Otherwise
    nothing is stored, unless the answer of the database was lost. *)
Theorem settings_patch_refines (db cache : answer) (settings : settings_map) (st : settings_store) :
  let '(st', r) := updateLedgerSettings db cache settings st in
  match r with
  | Ok s' => ∃ d d', sst_row st = Some d ∧ sst_row st' = Some d' ∧ valid_settings settings ∧ db = Answered ∧
      s' = patch_settings settings (ParseLedgerSettings d) ∧ ParseLedgerSettings d' = s' ∧
      (cache ≠ Refused → sst_cache st' = None) ∧ (valid_settings d → valid_settings d')
  | Err (InvalidSettings _) => ¬ valid_settings settings ∧ st' = st
  | Err LedgerNotFound => sst_row st = None ∧ st' = st
  | Err SettingsCallFailed => db ≠ Answered ∧ (st' = st ∨ db = AnswerLost ∧ sst_cache st' = sst_cache st ∧
      (ParseLedgerSettings <$> sst_row st') = patch_settings settings ∘ ParseLedgerSettings <$> sst_row st)
  end.
Proof.
  pose proof (ValidateSettings_exact settings) as Hv.
  unfold updateLedgerSettings, UpdateLedgerSettings, UpdateSettingsAtomic.
  destruct (ValidateSettings settings) as [[]|e].
  2: { split; [|done]. by intros Hs%Hv. }
  destruct (sst_row st) as [d|] eqn:Er.
  2: { destruct db; [done|..]; (split; [done|by left]). }
  destruct db.
  - exists d, (DeepMergeSettings d settings). split; [done|]. split; [by destruct cache|]. split; [by apply Hv|].
    split; [done|]. split; [apply parse_merge|]. split; [done|]. split; [by destruct cache|].
    intros Hd. apply valid_merge; [done|by apply Hv].
  - split; [done|by left].
  - split; [done|]. right. split; [done|]. split; [done|]. cbn. by rewrite parse_merge.
Qed.

(** ** Concurrent requests *)

(** The versions of the row with their times, the newest first; the cache; and the requests
    that have read the row and not yet written the cache. *)
Record settings_race := mkSettingsRace {
  sr_now : Z; sr_versions : list (Z * settings_map); sr_cache : option (settings_map * Z);
  sr_reads : gmap nat (settings_map * Z) }.

Definition race_store (s : settings_race) : settings_store :=
  mkSettingsStore (snd <$> head (sr_versions s)) (sr_cache s).

(** A version that was not superseded before [t]. *)
Definition fresh_since (t : Z) (d : settings_map) (versions : list (Z * settings_map)) : Prop :=
  ∃ l1 t0 l2, versions = l1 ++ (t0, d) :: l2 ∧ Forall (λ x, t ≤ x.1) l1.

Context (MaxRequest Lag : Z).

(** Requests take at most [MaxRequest] from their read to the write of the cache; a replica
    lags by at most [Lag]; keys are deleted, and evicted, at any time. *)
Inductive settings_step : settings_race → settings_race → Prop :=
  | step_tick d s : 0 < d → map_Forall (λ _ x, sr_now s + d ≤ x.2 + MaxRequest) (sr_reads s) →
      settings_step s (mkSettingsRace (sr_now s + d) (sr_versions s) (sr_cache s) (sr_reads s))
  | step_update db settings s st' r d' : UpdateLedgerSettings db Refused settings (race_store s) = (st', r) → sst_row st' = Some d' →
      settings_step s (mkSettingsRace (sr_now s) ((sr_now s, d') :: sr_versions s) (sr_cache s) (sr_reads s))
  | step_invalidate a s :
      settings_step s (mkSettingsRace (sr_now s) (sr_versions s) (sst_cache (invalidateSettingsCache a (race_store s))) (sr_reads s))
  | step_read id a d s : sr_reads s !! id = None → readSettingsFromCache a (sr_now s) (race_store s) = None →
      fresh_since (sr_now s - Lag) d (sr_versions s) →
      settings_step s (mkSettingsRace (sr_now s) (sr_versions s) (sr_cache s) (<[id := (d, sr_now s)]> (sr_reads s)))
  | step_write id a d start s : sr_reads s !! id = Some (d, start) →
      settings_step s (mkSettingsRace (sr_now s) (sr_versions s)
        (sst_cache (writeSettingsToCache a (sr_now s) d (race_store s))) (delete id (sr_reads s))).

Inductive settings_reachable : settings_race → Prop :=
  | reach_created now input c : CreateLedger_settings input = Ok c →
      settings_reachable (mkSettingsRace now [(now, settings_column c)] None ∅)
  | reach_settings s s' : settings_reachable s → settings_step s s' → settings_reachable s'.

(** What a request may get. *)
Definition settings_answer (s : settings_race) (d : settings_map) : Prop :=
  (∃ a, readSettingsFromCache a (sr_now s) (race_store s) = Some d) ∨ fresh_since (sr_now s - Lag) d (sr_versions s).

Lemma fresh_cons t d versions t' d' : fresh_since t d versions → t ≤ t' → fresh_since t d ((t', d') :: versions).
Proof. intros (l1 & t0 & l2 & -> & Hl) Ht. exists ((t', d') :: l1), t0, l2. split; [done|by constructor]. Qed.

Lemma fresh_mono t t' d versions : fresh_since t d versions → t' ≤ t → fresh_since t' d versions.
Proof.
  intros (l1 & t0 & l2 & -> & Hl) Ht. exists l1, t0, l2. split; [done|]. eapply Forall_impl; [exact Hl|]. cbn. lia.
Qed.

Lemma fresh_valid t d versions : fresh_since t d versions → Forall (λ x, valid_settings x.2) versions → valid_settings d.
Proof. intros (l1 & t0 & l2 & -> & _) (_ & Hc)%Forall_app. by apply Forall_cons in Hc as [? _]. Qed.

Record settings_ok (s : settings_race) : Prop := {
  so_valid : Forall (λ x, valid_settings x.2) (sr_versions s);
  so_cache : ∀ d expiry, sr_cache s = Some (d, expiry) → expiry ≤ sr_now s + SettingsCacheTTL ∧
    fresh_since (expiry - (SettingsCacheTTL + MaxRequest + Lag)) d (sr_versions s);
  so_reads : map_Forall (λ _ x, x.2 ≤ sr_now s ∧ sr_now s ≤ x.2 + MaxRequest ∧ fresh_since (x.2 - Lag) x.1 (sr_versions s)) (sr_reads s) }.

Lemma created_valid input c : CreateLedger_settings input = Ok c → valid_settings (settings_column c).
Proof.
  unfold CreateLedger_settings. destruct (LedgerSettingsIsDefault input); [by intros [= <-]|].
  destruct input as [s|]; [|by intros [= <-]]. destruct (ValidateSettings _) as [[]|e] eqn:E; [|done].
  intros [= <-]. cbn [settings_column]. rewrite parse_to_map. by apply ValidateSettings_exact.
Qed.

Lemma update_valid db cache settings st st' r d' : UpdateLedgerSettings db cache settings st = (st', r) →
  sst_row st' = Some d' → (∀ d, sst_row st = Some d → valid_settings d) → valid_settings d'.
Proof.
  unfold UpdateLedgerSettings, UpdateSettingsAtomic. pose proof (ValidateSettings_exact settings) as Hv.
  destruct (ValidateSettings settings) as [[]|e]; [|intros [= <- _] H1 H2; by apply H2].
  destruct (sst_row st) as [d|] eqn:Er; [|destruct db; intros [= <- _]; by rewrite Er].
  destruct db; intros [= <- _] H1 H2.
  - assert (d' = DeepMergeSettings d settings) as -> by (destruct cache; by injection H1).
    apply valid_merge; [by apply H2|by apply Hv].
  - apply H2. by rewrite <- Er.
  - injection H1 as <-. apply valid_merge; [by apply H2|by apply Hv].
Qed.

Lemma settings_step_ok s s' : 0 ≤ MaxRequest → 0 ≤ Lag → settings_ok s → settings_step s s' → settings_ok s'.
Proof.
  intros HM HL [Hv Hc Hr] Hs. destruct Hs as [d s Hd Ht|db settings s st' r d' Hu Hd'|a s|id a d s Hn Hm Hf|id a d start s Hd].
  - split; cbn; [done|intros d0 e He; destruct (Hc _ _ He); split; [lia|done]|].
    intros i x Hx. destruct (Hr _ _ Hx) as (? & ? & ?). pose proof (Ht _ _ Hx). cbn in *. split_and!; [lia|lia|done].
  - assert (valid_settings d') as Hvd.
    { eapply update_valid; [exact Hu|done|]. cbn. intros d Hd. destruct (sr_versions s) as [|[t v] l]; [done|].
      injection Hd as <-. by apply Forall_cons in Hv as [? _]. }
    split; cbn; [by constructor| |].
    + intros d e He. destruct (Hc _ _ He). split; [done|]. apply fresh_cons; [done|lia].
    + intros i x Hx. destruct (Hr _ _ Hx) as (? & ? & ?). split_and!; [done|done|]. apply fresh_cons; [done|lia].
  - split; [done| |done]. destruct a; cbn; [done|exact Hc|done].
  - split; cbn; [done|done|]. apply map_Forall_insert_2; [|done]. cbn. split_and!; [lia|lia|done].
  - destruct (Hr _ _ Hd) as (H1 & H2 & H3). cbn in H1, H2, H3. split; cbn; [done| |by apply map_Forall_delete].
    destruct a; cbn; [|exact Hc|]; intros d0 e [= <- <-]; (split; [lia|]); eapply fresh_mono; [exact H3|lia|exact H3|lia].
Qed.

Lemma settings_reachable_ok s : 0 ≤ MaxRequest → 0 ≤ Lag → settings_reachable s → settings_ok s.
Proof.
  intros HM HL. induction 1 as [now input c Hc|s s' _ IH Hs]; [|by eapply settings_step_ok].
  split; cbn; [|done|apply map_Forall_empty]. constructor; [|constructor]. by eapply created_valid.
Qed.

(** C24: However requests to read and to change the settings of a ledger interleave, and
    whatever calls to the cache fail, a request gets settings with an allowed mode and
    posture which were not superseded more than five minutes plus [MaxRequest] plus [Lag]
    ago. *)
Theorem settings_staleness (HM : 0 ≤ MaxRequest) (HL : 0 ≤ Lag) (s : settings_race) (d : settings_map) :
  settings_reachable s → settings_answer s d →
  allowed_settings (ParseLedgerSettings d) ∧
  fresh_since (sr_now s - (SettingsCacheTTL + MaxRequest + Lag)) d (sr_versions s).
Proof.
  intros Hs Ha. destruct (settings_reachable_ok s HM HL Hs) as [Hv Hc _].
  assert (fresh_since (sr_now s - (SettingsCacheTTL + MaxRequest + Lag)) d (sr_versions s)) as Hf.
  { destruct Ha as [[a Ha]|Ha].
    - unfold readSettingsFromCache, race_store in Ha. cbn in Ha. destruct a; [|done..].
      destruct (sr_cache s) as [[d0 e]|] eqn:E; [|done]. destruct (sr_now s <? e) eqn:Et; [|done]. injection Ha as <-.
      destruct (Hc _ _ eq_refl) as [_ Hf]. eapply fresh_mono; [exact Hf|]. lia.
    - eapply fresh_mono; [exact Ha|]. assert (0 < SettingsCacheTTL) by done. lia. }
  split; [|done]. eapply valid_allowed, fresh_valid; done.
Qed.

End Commands.

(** ** Samples *)

Module SettingsSample.
#[export] Instance order : MapOrder := {| visit_groups := map_to_list; visit_values := map_to_list |}.
#[export] Instance order_laws : MapOrderLaws.
Proof. by split. Defined.

(** The example in the documentation of the input, as it is decoded: {"accounting":
    {"validateAccountType": true}}; and the empty object. *)
Definition documented : LedgerSettings :=
  mkLedgerSettings (mkAccounting true false false) (mkTracerSettings "" "" 0) (mkOverrides false false false).
Definition empty_object : LedgerSettings :=
  mkLedgerSettings (mkAccounting false false false) (mkTracerSettings "" "" 0) (mkOverrides false false false).

Definition enforce : settings_map := {["tracer" := GObject {["mode" := LString "enforce"]}]}.
Definition MaxRequest := 10 * Second.
(** A request reads the row, the mode is changed, the cache is emptied, and then the request
    writes what it read. *)
Definition raced : settings_race :=
  mkSettingsRace (60 * Second) [(0, DeepMergeSettings ∅ enforce); (0, ∅)] (Some (∅, SettingsCacheTTL)) ∅.
End SettingsSample.
Import SettingsSample.

Lemma enforce_valid : valid_settings enforce.
Proof.
  intros g x Hx. unfold enforce in Hx. apply lookup_singleton_Some in Hx as [<- <-]. eexists. split; [reflexivity|].
  intros f v Hf. apply lookup_singleton_Some in Hf as [<- <-]. eexists. split; [reflexivity|]. right. split; [done|].
  intros _. split; [|done]. intros _. eexists. split; [done|]. right. right. left.
Qed.

Lemma raced_reachable : settings_reachable SettingsSample.MaxRequest 0 raced.
Proof.
  pose (s0 := mkSettingsRace 0 [(0, ∅ : settings_map)] None ∅).
  assert (settings_reachable SettingsSample.MaxRequest 0 s0) as H0 by exact (reach_created _ _ 0 None None eq_refl).
  pose (reads := <[1%nat := (∅ : settings_map, 0)]> (∅ : gmap nat (settings_map * Z))).
  pose (versions := [(0, DeepMergeSettings ∅ enforce); (0, ∅ : settings_map)]).
  assert (settings_reachable SettingsSample.MaxRequest 0 (mkSettingsRace 0 versions None reads)) as H2.
  { eapply reach_settings; [eapply reach_settings; [exact H0|]|].
    - apply (step_read _ _ 1 Answered ∅ s0); [done|done|]. by exists [], 0, [].
    - refine (step_update _ _ Answered enforce (mkSettingsRace 0 [(0, ∅)] None reads)
        (mkSettingsStore (Some (DeepMergeSettings ∅ enforce)) None) (Ok (DeepMergeSettings ∅ enforce)) _ _ eq_refl).
      unfold UpdateLedgerSettings. by rewrite (proj2 (ValidateSettings_exact enforce) enforce_valid). }
  assert (settings_reachable SettingsSample.MaxRequest 0 (mkSettingsRace 0 versions (Some (∅, SettingsCacheTTL)) ∅)) as H4.
  { eapply reach_settings; [eapply reach_settings; [exact H2|apply (step_invalidate _ _ Answered)]|].
    pose proof (step_write SettingsSample.MaxRequest 0 1 Answered ∅ 0 (mkSettingsRace 0 versions None reads) eq_refl) as step. cbn in step.
    unfold reads in step. rewrite delete_insert_id in step by done. exact step. }
  eapply reach_settings; [exact H4|]. apply (step_tick _ _ (60 * Second) (mkSettingsRace 0 versions _ ∅)); [done|apply map_Forall_empty].
Qed.

(** A control that was switched on is ignored, although the cache was emptied afterwards. *)
Theorem enabled_control_ignored : ∃ s d, settings_reachable SettingsSample.MaxRequest 0 s ∧ settings_answer 0 s d ∧
  trs_Mode (ls_Tracer (ParseLedgerSettings d)) = "off" ∧
  (λ d, trs_Mode (ls_Tracer (ParseLedgerSettings d))) <$> sst_row (race_store s) = Some "enforce".
Proof.
  exists raced, ∅. split; [exact raced_reachable|]. split; [left; exists Answered; reflexivity|]. split; reflexivity.
Qed.

(** Settings that do not spell out the mode and the posture of the tracer are rejected, the
    documented example and the empty object among them. *)
Theorem documented_settings_rejected {O : MapOrder} {OL : MapOrderLaws} :
  (∃ e, CreateLedger_settings (Some documented) = Err (InvalidSettings e)) ∧
  (∃ e, CreateLedger_settings (Some empty_object) = Err (InvalidSettings e)).
Proof.
  assert (∀ s, trs_Mode (ls_Tracer s) = "" → ∃ e, CreateLedger_settings (Some s) = Err (InvalidSettings e)) as H; [|split; by apply H].
  intros s Hm. unfold CreateLedger_settings, LedgerSettingsIsDefault. rewrite bool_decide_false by (by intros ->).
  pose proof (ValidateSettings_exact (LedgerSettingsToMap s)) as Hv. rewrite to_map_valid in Hv.
  destruct (ValidateSettings _) as [[]|e]; [|by eauto]. exfalso. destruct (proj1 Hv eq_refl) as [Hx _]. rewrite Hm in Hx.
  apply (bool_decide_pack _) in Hx. by vm_compute in Hx.
Qed.

Lemma settings_staleness_witness :
  allowed_settings (ParseLedgerSettings ∅) ∧
  fresh_since (sr_now raced - (SettingsCacheTTL + SettingsSample.MaxRequest + 0)) ∅ (sr_versions raced).
Proof.
  apply (settings_staleness SettingsSample.MaxRequest 0); [done|done|exact raced_reachable|].
  left. exists Answered. reflexivity.
Defined.

Lemma created_settings_read_back_witness : ∃ c, CreateLedger_settings (Some DefaultLedgerSettings) = Ok c ∧
  ParseLedgerSettings (settings_column c) = DefaultLedgerSettings.
Proof.
  destruct (proj1 (created_settings_read_back (O := order) (OL := order_laws) DefaultLedgerSettings)) as (c & H1 & H2 & _);
    [split; left|]. exact (ex_intro _ c (conj H1 H2)).
Defined.

Lemma sample_accepted : ∃ st' s', updateLedgerSettings (O := order) Answered Answered enforce
  (mkSettingsStore (Some (LedgerSettingsToMap documented)) None) = (st', Ok s').
Proof.
  unfold updateLedgerSettings, UpdateLedgerSettings. rewrite (proj2 (ValidateSettings_exact enforce) enforce_valid).
  eexists _, _. reflexivity.
Qed.

(** The mode is switched on, and the other settings stay. *)
Lemma settings_patch_refines_witness : ∃ d', ParseLedgerSettings d' =
  patch_settings enforce (ParseLedgerSettings (LedgerSettingsToMap documented)).
Proof.
  pose proof (settings_patch_refines (O := order) (OL := order_laws) Answered Answered enforce
    (mkSettingsStore (Some (LedgerSettingsToMap documented)) None)) as H.
  destruct sample_accepted as (st' & s' & E). rewrite E in H.
  destruct H as (d & d' & [= <-] & _ & _ & _ & <- & Hd' & _). exact (ex_intro _ d' Hd').
Defined.
