(* ===== verification/CreateTransaction.v ===== *)
(** * Creation of a transaction

    src/components/ledger/internal/adapters/http/in/transaction_create.go
    [executeCreateTransaction] claims the idempotency slot of the request, validates the
    entries around the fee engine, seeds the backup queue, plans the operations, reserves
    capacity in the tracer, moves the balances, and stores the records.  The file also holds
    the slot itself (services/command/create_transaction_idempotency.go on the commands of
    adapters/redis/transaction/consumer.redis.go), the reservation of the capacity
    (transaction_reservation_anchor.go), the fee seam (transaction_fee_application.go) and the
    entry points of creation and reversal.

    The handler is a function from the answers of the calls it makes to its effects and its
    result.  The second part runs any number of requests with their effects interleaved.
    A time to live is a positive number of seconds; times are in nanoseconds. *)

From Stdlib Require Import ZArith Lia Ascii DecimalString.
From stdpp Require Import base gmap strings list.
From S2P Require Import Settings.
From S2P Require Import Prelude Decimals GoStrings Transaction BalanceOps Overdraft MBalance SendValidation.
From S2P Require Import CacheKeys BalancePlan Enrichment GoTime OperationRecords WritePath Revert.
Local Open Scope string_scope.
Local Open Scope list_scope.
Local Open Scope Z_scope.

(** ** Keys with a time to live in Redis *)

Section Keys.
Context {V : Type}.

(** A key and when it expires, if it does. *)
Record key_entry := mkKey { ke_value : V; ke_expiry : option Z }.
Abbreviation keys := (gmap string key_entry).

(** A key that has expired is not there. *)
Definition key_live (now : Z) (m : keys) (k : string) : option V :=
  match m !! k with
  | Some e => if match ke_expiry e with Some t => now <? t | None => true end then Some (ke_value e) else None
  | None => None
  end.

(** [ttl*time.Second]: the product of two int64 wraps around.  The driver asks for whole
    milliseconds, at least one; zero means no expiry and Redis refuses a negative duration. *)
Definition Millisecond : Z := 1000000.
Definition redis_life (ttl : Z) : Z :=
  let d := int64_wrap (ttl * Second) in
  if d <=? 0 then d else Z.max Millisecond (d / Millisecond * Millisecond).

Definition redis_Set (now : Z) (k : string) (v : V) (ttl : Z) (m : keys) : option keys :=
  let life := redis_life ttl in
  if life <? 0 then None else Some (<[k := mkKey v (if life =? 0 then None else Some (now + life))]> m).
Definition redis_SetNX (now : Z) (k : string) (v : V) (ttl : Z) (m : keys) : option (bool * keys) :=
  if redis_life ttl <? 0 then None else
  match key_live now m k with
  | Some _ => Some (false, m)
  | None => (λ m', (true, m')) <$> redis_Set now k v ttl m
  end.
Definition redis_Get (now : Z) (k : string) (m : keys) : option V := key_live now m k.
Definition redis_Del (k : string) (m : keys) : keys := delete k m.
End Keys.
Arguments key_entry : clear implicits.
Abbreviation keys V := (gmap string (key_entry V)).

(** [strconv.Atoi] for an [int] of 64 bits: a sign, digits, within range. *)
Definition strconv_Atoi (s : string) : option Z :=
  let '(negative, digits) :=
    match s with
    | String "-"%char rest => (true, rest)
    | String "+"%char rest => (false, rest)
    | _ => (false, s)
    end in
  if bool_decide (digits = "") then None else
  match NilZero.uint_of_string digits with
  | None => None
  | Some u =>
      let z := if negative : bool then - Z.of_uint u else Z.of_uint u in
      if (- 2 ^ 63 <=? z) && (z <? 2 ^ 63) then Some z else None
  end.

(** [http.ParseIdempotencyTTL], in seconds. *)
Definition ParseIdempotencyTTL (headerValue : string) : Z :=
  match strconv_Atoi headerValue with
  | Some t => if t <=? 0 then 300 else t
  | None => 300
  end.

(** ** The handler *)

Inductive CreateError :=
  | InvalidTransaction (e : GoError)            (* a validation of the entries or the balances *)
  | InvalidTransactionNonPositiveValue
  | SlotFailed (e : string)                     (* Redis did not answer, or the stored value is broken *)
  | ErrIdempotencyKey                           (* the slot is taken *)
  | CreateCallFailed (e : string)
  | ErrSkipNotPermitted
  | QueueFailed (e : string)
  | ErrTransactionReservationDenied
  | ErrTransactionReservationUnavailable
  | ErrMessageBrokerUnavailable
  | CannotRevert (e : RevertError).

Section Create.
Context {D : DecimalLib} {DT : DecimalText} {U : UuidLib} {C : LibCommons}.

(** The calls the handler makes to change something, in order.  It ignores whether the slot was
    deleted, the queue entry removed, a reservation confirmed or released, and the answer stored. *)
Inductive create_effect :=
  | DeleteKey                                    (* deletes the slot *)
  | SeedQueue (status : TxStatus) (action : Action)
  | RemoveFromQueue
  | SettleBalances (ops : list BalanceOperation)
  | ConfirmReservation (id : uuid)
  | ReleaseReservation (id : uuid)
  | UpdateBackup (ops : list Operation)
  | CreateWriteBehind (t : TransactionEntity)
  | WriteRecords (t : TransactionEntity)
  | WriteRecordsFailed
  | SetValue (t : TransactionEntity)             (* stores the answer in the slot *)
  | SendAuditLog.

(** *** The idempotency slot *)

(** A slot holds the answer of the request, or nothing yet. *)
Abbreviation slot_value := (option TransactionEntity).

Definition idempotency_key (key hash : string) : string := if bool_decide (key = "") then hash else key.

(** The answers of Redis to [SetNX] and, when the slot is taken, to [Get]. *)
Definition CreateOrCheckTransactionIdempotency (setnx : result string bool) (get : result string slot_value)
    : result CreateError (option TransactionEntity) :=
  match setnx with
  | Err e => Err (SlotFailed e)
  | Ok true => Ok None
  | Ok false =>
      match get with
      | Err e => Err (SlotFailed e)
      | Ok (Some replay) => Ok (Some replay)
      | Ok None => Err ErrIdempotencyKey
      end
  end.

(** *** Skips and settings *)

Definition ResolveSkipFor (requested allowed : bool) : result CreateError bool :=
  match requested, allowed with
  | true, false => Err ErrSkipNotPermitted
  | true, true => Ok true
  | false, _ => Ok false
  end.

Definition resolveTransactionSkips (input : Transaction) (settings : LedgerSettings)
    : result CreateError (bool * bool) :=
  let requested (f : TransactionSkip → bool) := match tx_Skip input with Some s => f s | None => false end in
  let! feeSkip := ResolveSkipFor (requested skip_Fees) (ov_AllowFeeSkip (ls_Overrides settings)) in
  let! tracerSkip := ResolveSkipFor (requested skip_Tracer) (ov_AllowTracerSkip (ls_Overrides settings)) in
  Ok (feeSkip, tracerSkip).

(** *** Fees *)

(** [FeeApplier] with the database of the tenant resolved; [None] when none is injected. *)
Definition applyFees (feeApplier : option (Transaction → result string Transaction)) (input : Transaction)
    (isRevert isAnnotation honoredFeeSkip : bool) : result CreateError Transaction :=
  if honoredFeeSkip then Ok input
  else if isRevert || isAnnotation then Ok input
  else match feeApplier with
       | None => Ok input
       | Some calculate => match calculate input with Ok tx => Ok tx | Err e => Err (CreateCallFailed e) end
       end.

(** *** Reservation of capacity *)

Record ReserveRequest := mkReserve {
  rq_TransactionID : uuid; rq_RequestID : uuid; rq_Amount : string; rq_Currency : string;
  rq_AccountID : string; rq_Timestamp : Time; rq_LongLived : bool }.
Record ReservationResult := mkReservationResult { rr_Denied : bool; rr_ReservationIDs : list uuid }.

(** [reservationProceed] with its handle, or [reservationReject]. *)
Inductive reservationOutcome :=
  | reservationProceed (ids : list uuid)
  | reservationReject (e : CreateError).

Definition handleReserveError (settings : TracerSettings) (advisory : bool) : reservationOutcome :=
  if advisory then reservationProceed []
  else if bool_decide (trs_FailPosture settings = TracerFailPostureClosed) then reservationReject ErrTransactionReservationUnavailable
  else reservationProceed [].

Definition tracer_off (settings : TracerSettings) : bool :=
  bool_decide (trs_Mode settings = TracerModeOff) || bool_decide (trs_Mode settings = "").

(** [requestID] is [reservationRequestID], a hash of the transaction's identifier. *)
Definition reserveTransaction (reserver : option (ReserveRequest → result string ReservationResult))
    (requestID : uuid → uuid) (settings : TracerSettings) (transactionID : uuid) (amount : dec)
    (asset accountID : string) (timestamp : Time) (longLived honoredTracerSkip : bool) : reservationOutcome :=
  match reserver with
  | None => reservationProceed []
  | Some reserve =>
      if tracer_off settings || honoredTracerSkip then reservationProceed [] else
      let advisory := bool_decide (trs_Mode settings = TracerModeAdvisory) in
      match reserve (mkReserve transactionID (requestID transactionID) (dstring amount) asset accountID timestamp longLived) with
      | Err _ => handleReserveError settings advisory
      | Ok r =>
          if rr_Denied r then
            if advisory then reservationProceed [] else reservationReject ErrTransactionReservationDenied
          else reservationProceed (rr_ReservationIDs r)
      end
  end.

(** The account of the first source that is not a companion and has a balance. *)
Definition accountByAlias (balances : list MBalance) : gmap string string :=
  fold_left (λ m b, if bool_decide (mb_Key b = OverdraftBalanceKey) then m
                    else match m !! mb_Alias b with
                         | Some _ => m
                         | None => <[mb_Alias b := mb_AccountID b]> m
                         end) balances ∅.
Fixpoint first_account (byAlias : gmap string string) (aliases : list string) : string :=
  match aliases with
  | [] => ""
  | a :: rest =>
      match byAlias !! a with
      | Some id => if bool_decide (id = "") then first_account byAlias rest else id
      | None => first_account byAlias rest
      end
  end.
Definition firstSourceAccountID (sources : list string) (balances : list MBalance) : string :=
  first_account (accountByAlias balances) (getAliasWithoutKey (filterCompanionAliases sources)).

Definition reservationTTLForStatus (status : TxStatus) : bool := bool_decide (status = PENDING).

Definition confirmReservations (ids : list uuid) : list create_effect := ConfirmReservation <$> ids.
Definition releaseReservations (ids : list uuid) : list create_effect := ReleaseReservation <$> ids.

(** *** The body *)

(** The answers of the calls of one request. *)
Record create_answers := mkCreateAnswers {
  ca_newID : result string uuid;
  ca_now : Time;
  ca_hash : Transaction → result string string;
  ca_settings : result string LedgerSettings;
  ca_fees : option (Transaction → result string Transaction);
  ca_seed : result string unit;
  ca_balances : list string → result string (list MBalance);
  ca_companions : gset string → result string (list MBalance);
  ca_rules : list BalanceOperation → Responses → Action → result string (option TransactionRouteCache);
  ca_reserver : option (ReserveRequest → result string ReservationResult);
  ca_requestID : uuid → uuid;
  ca_process : list BalanceOperation → Responses → process_answer;
  ca_opID : nat → result string string;
  ca_write : bool }.

Record create_params := mkParams {
  cp_organizationID : uuid; cp_ledgerID : uuid; cp_parent : option uuid }.

(** The checks before the slot is claimed: the identifier, the date and the entries with
    their default keys, and the key of the slot. *)
Definition create_checks (an : create_answers) (input : Transaction) (status : TxStatus)
    : result CreateError (uuid * Time * Transaction * string) :=
  match ca_newID an with
  | Err e => Err (CreateCallFailed e)
  | Ok transactionID =>
      match CheckTransactionDate (ca_now an) input status with
      | Err e => Err (InvalidTransaction e)
      | Ok date =>
          if dle (send_Value (tx_Send input)) dzero then Err InvalidTransactionNonPositiveValue else
          let input := set_entries (ApplyDefaultBalanceKeys (src_From (send_Source (tx_Send input))))
                         (ApplyDefaultBalanceKeys (dst_To (send_Distribute (tx_Send input)))) input in
          match ca_hash an input with
          | Err e => Err (CreateCallFailed e)
          | Ok hash => Ok (transactionID, date, input, hash)
          end
      end
  end.

(** What is decided before anything is sent to the queue. *)
Record create_draft := mkDraft {
  cd_input : Transaction; cd_validate : Responses; cd_settings : LedgerSettings;
  cd_feeSkip : bool; cd_tracerSkip : bool }.

Definition draft_transaction (an : create_answers) (input : Transaction) (status : TxStatus) (isRevert : bool)
    : result CreateError create_draft :=
  match ValidateSendSourceAndDistribute input status with
  | Err e => Err (InvalidTransaction e)
  | Ok (_, from, to) =>
      match ca_settings an with
      | Err e => Err (CreateCallFailed e)
      | Ok settings =>
          let input := set_entries from to input in
          let! skips := resolveTransactionSkips input settings in
          let '(feeSkip, tracerSkip) := skips in
          let! input := applyFees (ca_fees an) input isRevert (bool_decide (status = NOTED)) feeSkip in
          match ValidateSendSourceAndDistribute (normalize_send input) status with
          | Err e => Err (InvalidTransaction e)
          | Ok (validate, from, to) =>
              let validate := if av_ValidateRoutes (ls_Accounting settings) then PropagateRouteValidation validate status else validate in
              Ok (mkDraft (set_entries from to (normalize_send input)) validate settings feeSkip tracerSkip)
          end
      end
  end.

(** The operations, once the balances are loaded. *)
Record create_plan := mkCreatePlan {
  pl_ops : list BalanceOperation; pl_validate : Responses; pl_companions : list FromTo;
  pl_cache : option TransactionRouteCache; pl_balances : list MBalance }.

Definition plan_operations (params : create_params) (an : create_answers) (validate : Responses) (action : Action)
    : result CreateError create_plan :=
  match ca_balances an (resp_Aliases validate) with
  | Err e => Err (CreateCallFailed e)
  | Ok balances =>
      match rejectInternalScopeBalances balances with
      | Err e => Err (InvalidTransaction e)
      | Ok _ =>
          let ops := buildBalanceOperations (cp_organizationID params) (cp_ledgerID params) validate balances in
          match enrichOverdraftOperations (cp_organizationID params) (cp_ledgerID params) ops (Some validate) (ca_companions an) with
          | Err e => Err (CreateCallFailed e)
          | Ok en =>
              let validate := default validate (en_validate en) in
              match ca_rules an (en_ops en) validate action with
              | Err e => Err (CreateCallFailed e)
              | Ok cache => Ok (mkCreatePlan (en_ops en) validate (en_fromTos en) cache balances)
              end
          end
      end
  end.

Definition buildParentTransactionID (parent : option uuid) : option string := uuid_String <$> parent.

Definition created_entity (params : create_params) (id : uuid) (draft : create_draft) (input : Transaction)
    (validate : Responses) (date now : Time) (status : TxStatus) (ops : list Operation) : TransactionEntity :=
  mkEntity (uuid_String id) (buildParentTransactionID (cp_parent params)) (tx_Description input)
    (mkStatus status (Some (status_text status))) (Some (send_Value (tx_Send input))) (send_Asset (tx_Send input))
    (tx_ChartOfAccountsGroupName input) (getAliasWithoutKey (filterCompanionAliases (resp_Sources validate)))
    (getAliasWithoutKey (filterCompanionAliases (resp_Destinations validate)))
    (uuid_String (cp_ledgerID params)) (uuid_String (cp_organizationID params)) zeroTransaction (tx_Route input)
    (tx_RouteID input) (cd_feeSkip draft) (cd_tracerSkip draft) date now None (tx_Metadata input) ops.

(** The copy that is stored: created transactions are stored as approved, and the
    write-behind cache adds the body. *)
Definition promoted (body : Transaction) (status : TxStatus) (t : TransactionEntity) : TransactionEntity :=
  mkEntity (tr_ID t) (tr_ParentTransactionID t) (tr_Description t)
    (if bool_decide (status = CREATED) then mkStatus APPROVED (Some "APPROVED") else tr_Status t)
    (tr_Amount t) (tr_AssetCode t) (tr_ChartOfAccountsGroupName t) (tr_Source t) (tr_Destination t) (tr_LedgerID t)
    (tr_OrganizationID t) body (tr_Route t) (tr_RouteID t) (tr_FeesSkipped t) (tr_TracerSkipped t)
    (tr_CreatedAt t) (tr_UpdatedAt t) (tr_DeletedAt t) (tr_Metadata t) (tr_Operations t).

(** After the balances have moved.  The entry of the queue was written with bare aliases, in
    the entries the handler goes on with. *)
Definition record_transaction (params : create_params) (an : create_answers) (id : uuid) (date : Time)
    (draft : create_draft) (plan : create_plan) (status : TxStatus) (action : Action)
    (before after : list MBalance) : eff create_effect CreateError TransactionEntity :=
  let from := src_From (send_Source (tx_Send (cd_input draft))) in
  let to := dst_To (send_Distribute (tx_Send (cd_input draft))) in
  let from' := MutateSplitAliases (SanitizeAccountAliases from) in
  let to' := MutateSplitAliases (SanitizeAccountAliases to) in
  let both (f t : list FromTo) := f ++ (if bool_decide (status = PENDING) then [] else t) in
  let fromTo := both (MutateConcatAliases from) (MutateConcatAliases to) ++ both from' to' ++ pl_companions plan in
  let input := set_entries from' to' (cd_input draft) in
  let~ (ops, _) := or_undo [] CreateCallFailed
    (BuildOperations before after fromTo input (uuid_String id) (pl_validate plan) date (bool_decide (status = NOTED))
       (av_ValidateRoutes (ls_Accounting (cd_settings draft))) (pl_cache plan) action (ca_opID an)) in
  let t := created_entity params id draft input (pl_validate plan) date (ca_now an) status ops in
  let~ _ := emits [UpdateBackup ops; CreateWriteBehind (promoted input status t)] in
  if ca_write an
  then ([WriteRecords (promoted input status t); SetValue t; SendAuditLog], Ok t)
  else ([WriteRecordsFailed], Err ErrMessageBrokerUnavailable).

(** The capacity asked for, before the balances move. *)
Definition reserve_capacity (an : create_answers) (id : uuid) (date : Time) (draft : create_draft) (plan : create_plan)
    (status : TxStatus) : reservationOutcome :=
  let send := tx_Send (cd_input draft) in
  reserveTransaction (ca_reserver an) (ca_requestID an) (ls_Tracer (cd_settings draft)) id (send_Value send)
    (send_Asset send) (firstSourceAccountID (resp_Sources (pl_validate plan)) (pl_balances plan)) date
    (reservationTTLForStatus status) (cd_tracerSkip draft).

(** The handler once it has the slot. *)
Definition create_claimed (params : create_params) (an : create_answers) (id : uuid) (date : Time)
    (input : Transaction) (status : TxStatus) (isRevert : bool) : eff create_effect CreateError TransactionEntity :=
  let action := if isRevert then ActionRevert else StatusToAction status in
  let~ draft := or_undo [DeleteKey] (λ e, e) (draft_transaction an input status isRevert) in
  let~ _ := or_undo [DeleteKey] QueueFailed (ca_seed an) in
  let~ _ := emits [SeedQueue status action] in
  let~ plan := or_undo [DeleteKey; RemoveFromQueue] (λ e, e) (plan_operations params an (cd_validate draft) action) in
  match reserve_capacity an id date draft plan status with
  | reservationReject e => ([DeleteKey; RemoveFromQueue], Err e)
  | reservationProceed held =>
      match ca_process an (pl_ops plan) (pl_validate plan) with
      | ProcessRefused e => ([DeleteKey; RemoveFromQueue] ++ releaseReservations held, Err (CreateCallFailed e))
      | ProcessLost e =>
          ([SettleBalances (pl_ops plan); DeleteKey; RemoveFromQueue] ++ releaseReservations held, Err (CreateCallFailed e))
      | Processed before after =>
          let~ _ := emits [SettleBalances (pl_ops plan)] in
          let~ _ := emits (if bool_decide (status = PENDING) then [] else confirmReservations held) in
          record_transaction params an id date draft plan status action before after
      end
  end.

(** The whole handler; the flag says that the answer is a stored one. *)
Definition executeCreateTransaction (params : create_params) (an : create_answers) (input : Transaction)
    (status : TxStatus) (isRevert : bool) (setnx : string → result string bool) (get : string → result string slot_value)
    (key : string) : eff create_effect CreateError (TransactionEntity * bool) :=
  let~ (id, date, input, hash) := or_undo [] (λ e, e) (create_checks an input status) in
  let slot := IdempotencyInternalKey (cp_organizationID params) (cp_ledgerID params) (idempotency_key key hash) in
  let~ replay := or_undo [] (λ e, e) (CreateOrCheckTransactionIdempotency (setnx slot) (get slot)) in
  match replay with
  | Some t => ([], Ok (t, true))
  | None =>
      let~ t := create_claimed params an id date input status isRevert in
      ([], Ok (t, false))
  end.

(** *** Entry points *)

Definition createTransaction params an input status setnx get key :=
  executeCreateTransaction params an input status false setnx get key.

(** The reversal of [parent], without a key of its own. *)
Definition revertTransaction {UP : UuidParse} (ra : revert_answers) (organizationID ledgerID parent : uuid)
    (an : create_answers) (setnx : string → result string bool) (get : string → result string slot_value)
    : eff create_effect CreateError (TransactionEntity * bool) :=
  let~ reverted := or_undo [] CannotRevert (revert_gate ra) in
  executeCreateTransaction (mkParams organizationID ledgerID (Some parent)) an reverted CREATED true setnx get "".

End Create.

(** ** Outcomes of one request *)

Section Outcomes.
Context {D : DecimalLib} {DT : DecimalText} {U : UuidLib} {C : LibCommons}.

Definition action_of (status : TxStatus) (isRevert : bool) : Action := if isRevert then ActionRevert else StatusToAction status.

(** What a request that has the slot finds out: its draft and its plan, the capacity it holds, and
    the reply of the balances, as far as it gets. *)
Definition planned params an input status isRevert : option (create_draft * create_plan) :=
  match draft_transaction an input status isRevert with
  | Ok draft =>
      match ca_seed an, plan_operations params an (cd_validate draft) (action_of status isRevert) with
      | Ok _, Ok plan => Some (draft, plan)
      | _, _ => None
      end
  | Err _ => None
  end.
Definition capacity params an id date input status isRevert : option (list uuid) :=
  match planned params an input status isRevert with
  | Some (draft, plan) =>
      match reserve_capacity an id date draft plan status with reservationProceed held => Some held | reservationReject _ => None end
  | None => None
  end.
Definition settle_reply params an id date input status isRevert : option process_answer :=
  match planned params an input status isRevert, capacity params an id date input status isRevert with
  | Some (_, plan), Some _ => Some (ca_process an (pl_ops plan) (pl_validate plan))
  | _, _ => None
  end.

(** The ways a request that has the slot can end, by what it found out. *)
Inductive claimed_outcome (status : TxStatus) (action : Action)
    : option create_plan → option (list uuid) → option process_answer → list create_effect → result CreateError TransactionEntity → Prop :=
  | co_rejected e : claimed_outcome status action None None None [DeleteKey] (Err e)
  | co_withdrawn plan e : claimed_outcome status action plan None None [SeedQueue status action; DeleteKey; RemoveFromQueue] (Err e)
  | co_refused plan held e e' :
      claimed_outcome status action (Some plan) (Some held) (Some (ProcessRefused e'))
        (SeedQueue status action :: DeleteKey :: RemoveFromQueue :: releaseReservations held) (Err e)
  | co_lost plan held e e' :
      claimed_outcome status action (Some plan) (Some held) (Some (ProcessLost e'))
        (SeedQueue status action :: SettleBalances (pl_ops plan) :: DeleteKey :: RemoveFromQueue :: releaseReservations held) (Err e)
  | co_unrecorded plan held before after e :
      claimed_outcome status action (Some plan) (Some held) (Some (Processed before after))
        (SeedQueue status action :: SettleBalances (pl_ops plan) ::
         (if bool_decide (status = PENDING) then [] else confirmReservations held)) (Err e)
  | co_unwritten plan held before after records t :
      claimed_outcome status action (Some plan) (Some held) (Some (Processed before after))
        (SeedQueue status action :: SettleBalances (pl_ops plan) ::
         (if bool_decide (status = PENDING) then [] else confirmReservations held) ++
         [UpdateBackup records; CreateWriteBehind t; WriteRecordsFailed]) (Err ErrMessageBrokerUnavailable)
  | co_completed plan held before after body t :
      sta_Code (tr_Status t) = status →
      claimed_outcome status action (Some plan) (Some held) (Some (Processed before after))
        (SeedQueue status action :: SettleBalances (pl_ops plan) ::
         (if bool_decide (status = PENDING) then [] else confirmReservations held) ++
         [UpdateBackup (tr_Operations t); CreateWriteBehind (promoted body status t); WriteRecords (promoted body status t);
          SetValue t; SendAuditLog]) (Ok t).

Lemma record_outcome params an id date draft plan status action before after :
  let '(l, r) := record_transaction params an id date draft plan status action before after in
  (∃ e, (l, r) = ([], Err e)) ∨
  (∃ records t, (l, r) = ([UpdateBackup records; CreateWriteBehind t; WriteRecordsFailed], Err ErrMessageBrokerUnavailable)) ∨
  (∃ body t, sta_Code (tr_Status t) = status ∧ tr_Amount t = Some (send_Value (tx_Send (cd_input draft))) ∧
     tr_AssetCode t = send_Asset (tx_Send (cd_input draft)) ∧ tr_Source t = getAliasWithoutKey (filterCompanionAliases (resp_Sources (pl_validate plan))) ∧
     tr_ParentTransactionID t = buildParentTransactionID (cp_parent params) ∧ tr_ID t = uuid_String id ∧
     (l, r) = ([UpdateBackup (tr_Operations t); CreateWriteBehind (promoted body status t); WriteRecords (promoted body status t);
                SetValue t; SendAuditLog], Ok t)).
Proof.
  unfold record_transaction. destruct (BuildOperations _ _ _ _ _ _ _ _ _ _ _ _) as [[ops pre]|e]; cbn; [|by eauto].
  set (t := created_entity _ _ _ _ _ _ _ _ _).
  destruct (ca_write an); cbn; [right; right; by eexists _, t|right; left; by eauto].
Qed.

Lemma create_claimed_outcome params an id date input status isRevert :
  let '(l, r) := create_claimed params an id date input status isRevert in
  claimed_outcome status (action_of status isRevert) (snd <$> planned params an input status isRevert)
    (capacity params an id date input status isRevert) (settle_reply params an id date input status isRevert) l r.
Proof.
  unfold create_claimed, settle_reply, capacity, planned. fold (action_of status isRevert).
  destruct (draft_transaction _ _ _ _) as [draft|e]; cbn [or_undo eff_bind app]; [|constructor].
  destruct (ca_seed an) as [[]|e]; cbn [or_undo eff_bind app emits]; [|constructor].
  destruct (plan_operations _ _ _ _) as [plan|e]; cbn [or_undo eff_bind app]; [|constructor].
  destruct (reserve_capacity _ _ _ _ _ _) as [held|e]; cbn [eff_bind app]; [|constructor].
  destruct (ca_process _ _ _) as [before after|e|e]; cbn [eff_bind app emits]; [|constructor|constructor].
  pose proof (record_outcome params an id date draft plan status (action_of status isRevert) before after) as H.
  destruct (record_transaction _ _ _ _ _ _ _ _ _ _) as [l r].
  destruct H as [(e & [= -> ->])|[(records & t & [= -> ->])|(body & t & Ht & _ & _ & _ & _ & _ & [= -> ->])]]; cbn [app].
  - rewrite app_nil_r. constructor.
  - apply co_unwritten.
  - by apply co_completed.
Qed.

Definition is_settle (e : create_effect) : bool := match e with SettleBalances _ => true | _ => false end.
Definition settles (l : list create_effect) : Prop := existsb is_settle l = true.

(** The slot a request uses: its key, or the hash of its body. *)
Definition slot_of (params : create_params) (key hash : string) : string :=
  IdempotencyInternalKey (cp_organizationID params) (cp_ledgerID params) (idempotency_key key hash).

Lemma execute_spec params an input status isRevert setnx get key :
  let '(l, r) := executeCreateTransaction params an input status isRevert setnx get key in
  (∃ e, (l, r) = ([], Err e)) ∨
  ∃ id date input' hash, create_checks an input status = Ok (id, date, input', hash) ∧
    let slot := slot_of params key hash in
    (∃ t, setnx slot = Ok false ∧ get slot = Ok (Some t) ∧ (l, r) = ([], Ok (t, true))) ∨
    (setnx slot = Ok true ∧
     let '(l', r') := create_claimed params an id date input' status isRevert in
     l = l' ∧ r = let! t := r' in Ok (t, false)).
Proof.
  unfold executeCreateTransaction. destruct (create_checks an input status) as [[[[id date] input'] hash]|e]; cbn; [|by eauto].
  unfold CreateOrCheckTransactionIdempotency. fold (slot_of params key hash).
  destruct (setnx (slot_of params key hash)) as [[]|e] eqn:Es; cbn; [| |by eauto].
  - destruct (create_claimed _ _ _ _ _ _ _) as [l' [t|e]] eqn:E; cbn; right; exists id, date, input', hash;
      (split; [done|]); right; (split; [done|]); rewrite E; [by rewrite app_nil_r|done].
  - destruct (get (slot_of params key hash)) as [[t|]|e] eqn:Eg; cbn; [|by eauto..].
    right. exists id, date, input', hash. split; [done|]. left. by exists t.
Qed.

End Outcomes.

(** C29: A request to create a transaction ends in one of these ways: an error and nothing
    done; the stored answer of an earlier request with the same slot, and nothing done; or, when
    it took the slot, by what it finds out: an error with the balances untouched, after which it
    asks to delete the slot, to remove the queue entry and to release every reservation it was
    granted; the same although the balances moved, when their reply was lost; an error after the
    balances answered, with the slot and the queue entry kept and every reservation confirmed
    unless the transaction is pending; or success, with the planned operations settled once, the
    records stored after that and then the answer put into the slot.  The calls that delete, remove,
    confirm and release may fail; the handler ignores it. *)
Theorem create_outcomes {D : DecimalLib} {DT : DecimalText} {U : UuidLib} {C : LibCommons}
    params an input status isRevert setnx get key :
  let '(l, r) := executeCreateTransaction params an input status isRevert setnx get key in
  (∃ e, (l, r) = ([], Err e)) ∨
  ∃ id date input' hash, create_checks an input status = Ok (id, date, input', hash) ∧
    let slot := slot_of params key hash in
    (∃ t, setnx slot = Ok false ∧ get slot = Ok (Some t) ∧ (l, r) = ([], Ok (t, true))) ∨
    (setnx slot = Ok true ∧ ∃ r',
     claimed_outcome status (action_of status isRevert) (snd <$> planned params an input' status isRevert)
       (capacity params an id date input' status isRevert) (settle_reply params an id date input' status isRevert) l r' ∧
     r = let! t := r' in Ok (t, false)).
Proof.
  pose proof (execute_spec params an input status isRevert setnx get key) as H.
  destruct (executeCreateTransaction _ _ _ _ _ _ _ _) as [l r].
  destruct H as [H|(id & date & input' & hash & Ec & H)]; [by left|right].
  exists id, date, input', hash. split; [done|]. cbn zeta in *. destruct H as [H|[Hs H]]; [by left|right]. split; [done|].
  pose proof (create_claimed_outcome params an id date input' status isRevert) as Ho.
  destruct (create_claimed _ _ _ _ _ _ _) as [l' r']. destruct H as [-> ->]. by exists r'.
Qed.

(** ** Enforced limits *)

Section Gate.
Context {D : DecimalLib} {DT : DecimalText} {U : UuidLib} {C : LibCommons}.

Definition skips_tracer (input : Transaction) : bool :=
  match tx_Skip input with Some s => skip_Tracer s | None => false end.

Lemma draft_settings an input status isRevert draft :
  draft_transaction an input status isRevert = Ok draft →
  ca_settings an = Ok (cd_settings draft) ∧ (skips_tracer input = false → cd_tracerSkip draft = false).
Proof.
  unfold draft_transaction. destruct (ValidateSendSourceAndDistribute input status) as [[[v from] to]|e]; [|done].
  destruct (ca_settings an) as [settings|e]; [|done]. intros E.
  apply rbind_Ok in E as ([feeSkip tracerSkip] & Es & E). apply rbind_Ok in E as (tx & _ & E).
  destruct (ValidateSendSourceAndDistribute (normalize_send tx) status) as [[[v' from'] to']|e]; [|done].
  injection E as <-. split; [done|]. cbn. unfold resolveTransactionSkips in Es. cbn in Es.
  apply rbind_Ok in Es as (f & _ & Es). apply rbind_Ok in Es as (k & Ek & [= <- <-]).
  unfold skips_tracer. intros Hs. rewrite Hs in Ek. cbn in Ek. by injection Ek.
Qed.

(** The account of the first of the source aliases that has a balance of its own with an account. *)
Definition own_account (balances : list MBalance) (alias : string) : option string :=
  mb_AccountID <$> head (filter (λ b, mb_Key b ≠ OverdraftBalanceKey ∧ mb_Alias b = alias) balances).
Definition source_account (aliases : list string) (balances : list MBalance) : string :=
  default "" (head (filter (λ id, id ≠ "") (omap (own_account balances) aliases))).

Lemma release_no_settle ids : existsb is_settle (releaseReservations ids) = false.
Proof. by induction ids. Qed.

Lemma accountByAlias_lookup balances alias : accountByAlias balances !! alias = own_account balances alias.
Proof.
  unfold accountByAlias, own_account.
  assert (∀ m : gmap string string, fold_left (λ m b, if bool_decide (mb_Key b = OverdraftBalanceKey) then m
            else match m !! mb_Alias b with Some _ => m | None => <[mb_Alias b := mb_AccountID b]> m end) balances m !! alias
          = match m !! alias with Some x => Some x
            | None => mb_AccountID <$> head (filter (λ b, mb_Key b ≠ OverdraftBalanceKey ∧ mb_Alias b = alias) balances) end) as H.
  { induction balances as [|b l IH]; intros m; cbn [fold_left]; [by destruct (m !! alias)|]. rewrite IH, filter_cons.
    case_bool_decide as Hk; [by rewrite decide_False by tauto|].
    destruct (decide (mb_Alias b = alias)) as [<-|Hne].
    - rewrite decide_True by done. destruct (m !! mb_Alias b) as [x|] eqn:E; [by rewrite E|by rewrite lookup_insert_eq].
    - rewrite decide_False by tauto. destruct (m !! mb_Alias b) as [x|] eqn:E; [done|]. by rewrite lookup_insert_ne. }
  by rewrite H, lookup_empty.
Qed.

Lemma firstSourceAccountID_spec sources balances :
  firstSourceAccountID sources balances = source_account (getAliasWithoutKey (filterCompanionAliases sources)) balances.
Proof.
  unfold firstSourceAccountID, source_account. induction (getAliasWithoutKey _) as [|a l IH]; cbn; [done|].
  rewrite accountByAlias_lookup. destruct (own_account balances a) as [x|]; [|exact IH]. rewrite filter_cons.
  case_bool_decide as Hx; [by rewrite decide_False by tauto|by rewrite decide_True by done].
Qed.

Lemma enforced_reserve an id date draft plan status reserve held :
  ca_reserver an = Some reserve → trs_Mode (ls_Tracer (cd_settings draft)) = "enforce" →
  trs_FailPosture (ls_Tracer (cd_settings draft)) = "closed" → cd_tracerSkip draft = false →
  reserve_capacity an id date draft plan status = reservationProceed held →
  ∃ req res, reserve req = Ok res ∧ rr_Denied res = false ∧ held = rr_ReservationIDs res ∧
    rq_TransactionID req = id ∧ rq_Amount req = dstring (send_Value (tx_Send (cd_input draft))) ∧
    rq_Currency req = send_Asset (tx_Send (cd_input draft)) ∧
    rq_AccountID req = source_account (getAliasWithoutKey (filterCompanionAliases (resp_Sources (pl_validate plan)))) (pl_balances plan).
Proof.
  intros Hr Hm Hp Hk. unfold reserve_capacity, reserveTransaction, tracer_off, handleReserveError. rewrite Hr, Hm, Hp, Hk. cbn.
  set (req := mkReserve _ _ _ _ _ _ _). destruct (reserve req) as [res|e] eqn:Er; [|done].
  destruct (rr_Denied res) eqn:Ed; [done|]. intros [= <-]. exists req, res. split_and!; try done. apply firstSourceAccountID_spec.
Qed.

End Gate.

