(* ===== verification/Idempotency.v ===== *)
(** * Requests that share an idempotency slot

    Any number of requests to create or revert transactions run at the same time, each with
    the effects of [create_claimed] (transaction_create.go).  They meet in the idempotency
    slots of Redis (services/command/create_transaction_idempotency.go): a request claims its
    slot with [SetNX], reads the stored answer when the slot is taken, deletes the slot when
    it fails before the balances moved, and puts its answer into the slot at the end.

    The slot has no owner in the code.  Requests take at most [MaxRequest], the write of the
    answer in the background included, which is less than the life of the slot they ask for
    ([redis_life], the wrapped product of the code). *)

From Stdlib Require Import ZArith Lia.
From stdpp Require Import base gmap strings list.
From S2P Require Import Settings.
From S2P Require Import Prelude Decimals GoStrings Transaction BalanceOps Overdraft MBalance SendValidation.
From S2P Require Import CacheKeys BalancePlan Enrichment GoTime OperationRecords WritePath Revert CreateTransaction.
Local Open Scope string_scope.
Local Open Scope list_scope.
Local Open Scope Z_scope.

(** ** Scripts *)

Section Scripts.
Context {D : DecimalLib} {U : UuidLib}.
Implicit Types (l : list create_effect) (e : create_effect).

(** Effects that touch neither the slot nor the balances. *)
Definition harmless e : bool :=
  match e with DeleteKey | SettleBalances _ | SetValue _ => false | _ => true end.
Definition has_delete l : bool := existsb (λ e, match e with DeleteKey => true | _ => false end) l.
Definition has_settle l : bool := existsb is_settle l.
Fixpoint answer_of l : option TransactionEntity :=
  match l with
  | [] => None
  | SetValue t :: _ => Some t
  | _ :: l => answer_of l
  end.
Definition critical_script l : Prop := has_delete l = true ∨ has_settle l = true ∨ is_Some (answer_of l).

Abbreviation calm l := (Forall (λ e, harmless e = true) l) (only parsing).

(** What follows the settlement. *)
Inductive after_settle : list create_effect → Prop :=
  | after_calm l : calm l → after_settle l
  | after_value a t b : calm a → calm b → after_settle (a ++ SetValue t :: b).

(** What may be left of a request whose answer from the balances was not lost. *)
Inductive remaining_script : list create_effect → Prop :=
  | rest_delete a b : calm a → calm b → remaining_script (a ++ DeleteKey :: b)
  | rest_settle a ops b : calm a → after_settle b → remaining_script (a ++ SettleBalances ops :: b)
  | rest_after b : after_settle b → remaining_script b.

Lemma calm_kinds l : calm l → has_delete l = false ∧ has_settle l = false ∧ answer_of l = None.
Proof. induction 1 as [|e l He _ (IH1 & IH2 & IH3)]; [done|]. by destruct e. Qed.

Lemma after_kinds l : after_settle l → has_delete l = false ∧ has_settle l = false.
Proof.
  intros [? H|a t b Ha Hb]; [by apply calm_kinds in H as (? & ? & ?)|].
  apply calm_kinds in Ha as (? & ? & _), Hb as (? & ? & _). unfold has_delete, has_settle in *.
  rewrite !existsb_app. cbn. by rewrite H, H0, H1, H2.
Qed.

Lemma delete_alone l : remaining_script l → has_delete l = true → has_settle l = false ∧ answer_of l = None.
Proof.
  intros [a b Ha Hb|a ops b Ha Hb|b Hb] Hd.
  - apply calm_kinds in Hb as (_ & H2 & H3). unfold has_settle in *. rewrite existsb_app.
    induction Ha as [|e a He _ IH]; [done|]. by destruct e; cbn in *; try done; apply IH.
  - exfalso. apply calm_kinds in Ha as (H1 & _). apply after_kinds in Hb as [H2 _]. unfold has_delete in *.
    rewrite existsb_app in Hd. cbn in Hd. by rewrite H1, H2 in Hd.
  - apply after_kinds in Hb as [H1 H2]. congruence.
Qed.

(** The first effect and what is left after it. *)
Lemma script_pop e l : remaining_script (e :: l) →
  (harmless e = true ∧ remaining_script l ∧ has_delete l = has_delete (e :: l) ∧
     has_settle l = has_settle (e :: l) ∧ answer_of l = answer_of (e :: l)) ∨
  (e = DeleteKey ∧ calm l) ∨
  ((∃ ops, e = SettleBalances ops) ∧ after_settle l) ∨
  ((∃ t, e = SetValue t) ∧ calm l).
Proof.
  assert (harmless e = true → remaining_script l →
    harmless e = true ∧ remaining_script l ∧ has_delete l = has_delete (e :: l) ∧
     has_settle l = has_settle (e :: l) ∧ answer_of l = answer_of (e :: l)) as Hh.
  { intros He Hl. by destruct e. }
  inversion 1 as [a b Ha Hb E|a ops b Ha Hb E|b Hb E].
  - destruct a as [|x a]; cbn in E; simplify_eq; [by eauto|]. apply Forall_cons in Ha as [? ?]. left. apply Hh; [done|].
    by constructor.
  - destruct a as [|x a]; cbn in E; simplify_eq; [by eauto 6|]. apply Forall_cons in Ha as [? ?]. left. apply Hh; [done|].
    by constructor.
  - subst b. inversion Hb as [? Hc E|a t b Ha Hb' E].
    + subst. apply Forall_cons in Hc as [? ?]. left. apply Hh; [done|]. by do 2 constructor.
    + destruct a as [|x a]; cbn in E; simplify_eq; [by eauto 8|]. apply Forall_cons in Ha as [? ?]. left. apply Hh; [done|].
      apply rest_after. by constructor.
Qed.

End Scripts.

(** ** The requests *)

Section Race.
Context {D : DecimalLib} {U : UuidLib}.

(** A request is about to claim its slot, has found it taken, or has claimed it and has the
    given effects still to do. *)
Inductive creation :=
  | Waiting (start : Z) (slot : string) (ttl : Z)
  | Checking (start : Z) (slot : string) (ttl : Z)
  | Claimed (start taken : Z) (slot : string) (ttl : Z) (script : list create_effect).

(** A settlement, with the answer its request will store. *)
Record settlement := mkSettlement {
  st_slot : string; st_time : Z; st_ttl : Z; st_answer : option TransactionEntity }.

Record race := mkRace {
  rc_now : Z; rc_keys : keys (option TransactionEntity); rc_settled : list settlement;
  rc_replayed : list (string * TransactionEntity); rc_requests : gmap nat creation }.

Definition race_start (now : Z) : race := mkRace now ∅ [] [] ∅.

Definition with_requests (m : gmap nat creation) (s : race) : race :=
  mkRace (rc_now s) (rc_keys s) (rc_settled s) (rc_replayed s) m.
Definition with_keys (k : keys (option TransactionEntity)) (s : race) : race :=
  mkRace (rc_now s) k (rc_settled s) (rc_replayed s) (rc_requests s).

(** The effect of a request on what the requests share; [rest] is what it does after it. *)
Definition perform (slot : string) (ttl : Z) (e : create_effect) (rest : list create_effect) (s : race) : race :=
  match e with
  | DeleteKey => with_keys (redis_Del slot (rc_keys s)) s
  | SettleBalances _ =>
      mkRace (rc_now s) (rc_keys s) (rc_settled s ++ [mkSettlement slot (rc_now s) ttl (answer_of rest)])
        (rc_replayed s) (rc_requests s)
  | SetValue t => with_keys (default (rc_keys s) (redis_Set (rc_now s) slot (Some t) ttl (rc_keys s))) s
  | _ => s
  end.

Definition creation_start (r : creation) : Z :=
  match r with Waiting start _ _ | Checking start _ _ | Claimed start _ _ _ _ => start end.
Definition creation_unfinished (r : creation) : Prop :=
  match r with Claimed _ _ _ _ script => script ≠ [] | _ => True end.

Context (MaxRequest : Z) (script_ok : list create_effect → Prop).

Inductive race_step : race → race → Prop :=
  | race_tick s now : rc_now s ≤ now →
      (∀ id r, rc_requests s !! id = Some r → creation_unfinished r → now ≤ creation_start r + MaxRequest) →
      race_step s (mkRace now (rc_keys s) (rc_settled s) (rc_replayed s) (rc_requests s))
  | race_arrive s id slot ttl : rc_requests s !! id = None → MaxRequest < redis_life ttl →
      race_step s (with_requests (<[id := Waiting (rc_now s) slot ttl]> (rc_requests s)) s)
  | race_claim s id start slot ttl keys' script : rc_requests s !! id = Some (Waiting start slot ttl) →
      redis_SetNX (rc_now s) slot None ttl (rc_keys s) = Some (true, keys') → script_ok script →
      race_step s (with_requests (<[id := Claimed start (rc_now s) slot ttl script]> (rc_requests s)) (with_keys keys' s))
  | race_taken s id start slot ttl keys' : rc_requests s !! id = Some (Waiting start slot ttl) →
      redis_SetNX (rc_now s) slot None ttl (rc_keys s) = Some (false, keys') →
      race_step s (with_requests (<[id := Checking start slot ttl]> (rc_requests s)) (with_keys keys' s))
  | race_replay s id start slot ttl t : rc_requests s !! id = Some (Checking start slot ttl) →
      redis_Get (rc_now s) slot (rc_keys s) = Some (Some t) →
      race_step s (mkRace (rc_now s) (rc_keys s) (rc_settled s) (rc_replayed s ++ [(slot, t)]) (delete id (rc_requests s)))
  | race_refuse s id start slot ttl : rc_requests s !! id = Some (Checking start slot ttl) →
      default None (redis_Get (rc_now s) slot (rc_keys s)) = None →
      race_step s (with_requests (delete id (rc_requests s)) s)
  | race_effect s id start taken slot ttl e script :
      rc_requests s !! id = Some (Claimed start taken slot ttl (e :: script)) →
      race_step s (with_requests (<[id := Claimed start taken slot ttl script]> (rc_requests s)) (perform slot ttl e script s))
  (* The deletion of the slot and the write of the answer may fail, which is ignored. *)
  | race_ignored s id start taken slot ttl e script :
      rc_requests s !! id = Some (Claimed start taken slot ttl (e :: script)) →
      match e with DeleteKey | SetValue _ => True | _ => False end →
      race_step s (with_requests (<[id := Claimed start taken slot ttl script]> (rc_requests s)) s)
  | race_done s id start taken slot ttl : rc_requests s !! id = Some (Claimed start taken slot ttl []) →
      race_step s (with_requests (delete id (rc_requests s)) s).

Inductive race_reachable (now : Z) : race → Prop :=
  | race_initial : race_reachable now (race_start now)
  | race_next s s' : race_reachable now s → race_step s s' → race_reachable now s'.

End Race.

(** ** One settlement per slot and time to live *)

Section Safety.
Context {D : DecimalLib} {U : UuidLib}.
Context (MaxRequest : Z) (Hmax : 0 ≤ MaxRequest) (script_ok : list create_effect → Prop).
Context (Hok : ∀ script, script_ok script →
  remaining_script script ∧ (has_settle script = false → answer_of script = None)).

(** The settled slot is taken until then. *)
Definition settled_until (st : settlement) : Z := st_time st + redis_life (st_ttl st) - MaxRequest.

Definition claimed (s : race) (id : nat) (start taken : Z) (slot : string) (ttl : Z) (script : list create_effect) : Prop :=
  rc_requests s !! id = Some (Claimed start taken slot ttl script).

Definition answered (s : race) (slot : string) (t : TransactionEntity) : Prop :=
  ∃ st, st ∈ rc_settled s ∧ st_slot st = slot ∧ st_answer st = Some t.

(** A request with something critical to do has its slot, in time, and the settlements of
    its slot are older than its claim, or its own. *)
Record request_ok (s : race) (start taken : Z) (slot : string) (ttl : Z) (script : list create_effect) : Prop := {
  ro_rest : remaining_script script;
  ro_time : start ≤ taken ≤ rc_now s;
  ro_limit : script ≠ [] → rc_now s ≤ start + MaxRequest;
  ro_ttl : MaxRequest < redis_life ttl;
  ro_slot : critical_script script → ∃ v e, rc_keys s !! slot = Some (mkKey v (Some e)) ∧ taken + redis_life ttl ≤ e;
  ro_before : critical_script script → ∀ st, st ∈ rc_settled s → st_slot st = slot →
    settled_until st ≤ taken ∨ (st_ttl st = ttl ∧ has_delete script = false ∧ has_settle script = false);
  ro_answer : has_settle script = false → ∀ t, answer_of script = Some t → answered s slot t }.

Record race_ok (s : race) : Prop := {
  rk_claimed id start taken slot ttl script : claimed s id start taken slot ttl script → request_ok s start taken slot ttl script;
  rk_unique id id' start taken start' taken' slot ttl ttl' script script' :
    claimed s id start taken slot ttl script → claimed s id' start' taken' slot ttl' script' →
    critical_script script → critical_script script' → id' = id;
  rk_waiting id start slot ttl : rc_requests s !! id = Some (Waiting start slot ttl) →
    start ≤ rc_now s ∧ rc_now s ≤ start + MaxRequest ∧ MaxRequest < redis_life ttl;
  rk_until st : st ∈ rc_settled s →
    settled_until st ≤ rc_now s ∨ ∃ v e, rc_keys s !! st_slot st = Some (mkKey v (Some e)) ∧ settled_until st ≤ e;
  rk_past st : st ∈ rc_settled s → st_time st ≤ rc_now s;
  rk_gap i j a b : (i < j)%nat → rc_settled s !! i = Some a → rc_settled s !! j = Some b → st_slot a = st_slot b →
    settled_until a ≤ st_time b;
  rk_stored slot t e : rc_keys s !! slot = Some (mkKey (Some t) e) → answered s slot t;
  rk_replayed slot t : (slot, t) ∈ rc_replayed s → answered s slot t }.

Lemma answered_app s s' x slot t : rc_settled s' = rc_settled s ++ x → answered s slot t → answered s' slot t.
Proof. intros E (st & Hst & ?). exists st. rewrite E. split; [|done]. apply elem_of_app. by left. Qed.

(** Changes that leave the slots and the settlements and add no claim. *)
Lemma ok_frame s s' : race_ok s → rc_now s' = rc_now s → rc_keys s' = rc_keys s → rc_settled s' = rc_settled s →
  (∀ id start taken slot ttl script, claimed s' id start taken slot ttl script → claimed s id start taken slot ttl script) →
  (∀ id start slot ttl, rc_requests s' !! id = Some (Waiting start slot ttl) →
     start ≤ rc_now s ∧ rc_now s ≤ start + MaxRequest ∧ MaxRequest < redis_life ttl) →
  (∀ slot t, (slot, t) ∈ rc_replayed s' → answered s slot t) → race_ok s'.
Proof.
  intros [H1 H2 H3 H4 H5 H6 H7 H8] En Ek Es Hc Hw Hr.
  assert (∀ slot t, answered s slot t ↔ answered s' slot t) as Ha by (intros; unfold answered; by rewrite Es).
  split.
  - intros id start taken slot ttl script Hcl%Hc. destruct (H1 _ _ _ _ _ _ Hcl) as [? ? ? ? ? ? ?].
    split; rewrite ?En, ?Ek, ?Es; try done. intros. apply Ha. eauto.
  - intros id id' start taken start' taken' slot ttl ttl' script script' ?%Hc ?%Hc. eauto.
  - intros id start slot ttl ?%Hw. by rewrite En.
  - intros st. rewrite En, Ek, Es. auto.
  - intros st. rewrite En, Es. auto.
  - intros i j a b. rewrite Es. eauto.
  - intros slot t e. rewrite Ek. intros ?%H7. by apply Ha.
  - intros slot t ?%Hr. by apply Ha.
Qed.

Lemma ok_start now : race_ok (race_start now).
Proof.
  split; unfold claimed; cbn; try (intros *; rewrite lookup_empty; done); try (intros *; rewrite elem_of_nil; done).
  intros *. rewrite lookup_nil. done.
Qed.

Lemma ok_tick s now : race_ok s → rc_now s ≤ now →
  (∀ id r, rc_requests s !! id = Some r → creation_unfinished r → now ≤ creation_start r + MaxRequest) →
  race_ok (mkRace now (rc_keys s) (rc_settled s) (rc_replayed s) (rc_requests s)).
Proof.
  intros [H1 H2 H3 H4 H5 H6 H7 H8] Hn Ht. split; cbn; try done.
  - intros id start taken slot ttl script Hc. destruct (H1 _ _ _ _ _ _ Hc) as [? ? ? ? ? ? ?]. split; try done.
    + cbn. lia.
    + intros Hs. apply (Ht _ _ Hc Hs).
  - intros id start slot ttl Hw. destruct (H3 _ _ _ _ Hw) as (? & ? & ?). split_and!; [lia| |done]. by apply (Ht _ _ Hw).
  - intros st Hst. destruct (H4 st Hst) as [?|?]; [left; lia|by right].
  - intros st Hst. specialize (H5 st Hst). lia.
Qed.

Lemma redis_Set_life now slot v ttl (m : keys (option TransactionEntity)) : 0 < redis_life ttl →
  redis_Set now slot v ttl m = Some (<[slot := mkKey v (Some (now + redis_life ttl))]> m).
Proof. intros H. unfold redis_Set. destruct (Z.ltb_spec (redis_life ttl) 0), (Z.eqb_spec (redis_life ttl) 0); done || lia. Qed.

Lemma SetNX_true now slot ttl (m m' : keys (option TransactionEntity)) :
  0 < redis_life ttl → redis_SetNX now slot None ttl m = Some (true, m') →
  m' = <[slot := mkKey None (Some (now + redis_life ttl))]> m ∧ ∀ v e, m !! slot = Some (mkKey v (Some e)) → e ≤ now.
Proof.
  intros Hl. unfold redis_SetNX. rewrite redis_Set_life by done. destruct (Z.ltb_spec (redis_life ttl) 0); [lia|].
  unfold key_live. destruct (m !! slot) as [[v [e|]]|] eqn:E; cbn; [| done |].
  - destruct (Z.ltb_spec now e); [done|]. intros [= <-]. split; [done|]. by intros ?? [= <- <-].
  - intros [= <-]. done.
Qed.

Lemma ok_claim s id start slot ttl keys' script : race_ok s →
  rc_requests s !! id = Some (Waiting start slot ttl) →
  redis_SetNX (rc_now s) slot None ttl (rc_keys s) = Some (true, keys') → script_ok script →
  race_ok (with_requests (<[id := Claimed start (rc_now s) slot ttl script]> (rc_requests s)) (with_keys keys' s)).
Proof.
  intros [H1 H2 H3 H4 H5 H6 H7 H8] Hid Hnx [Hrem Hans]%Hok.
  destruct (H3 _ _ _ _ Hid) as (Hs & Hl & Httl). apply SetNX_true in Hnx as [-> Hfree]; [|lia].
  assert (∀ id' start' taken' ttl' script', claimed s id' start' taken' slot ttl' script' → ¬ critical_script script') as Hnone.
  { intros id' start' taken' ttl' script' Hc Hcr. destruct (H1 _ _ _ _ _ _ Hc) as [_ ? Hlim ? Hsl _ _].
    destruct (Hsl Hcr) as (v & e & E & He). specialize (Hfree _ _ E).
    assert (script' ≠ []) as Hne by (intros ->; by destruct Hcr as [?|[?|[? ?]]]). specialize (Hlim Hne). lia. }
  set (s' := with_requests _ _).
  assert (∀ id' start' taken' slot' ttl' script', claimed s' id' start' taken' slot' ttl' script' →
    (id' = id ∧ start' = start ∧ taken' = rc_now s ∧ slot' = slot ∧ ttl' = ttl ∧ script' = script) ∨
    (id' ≠ id ∧ claimed s id' start' taken' slot' ttl' script')) as Hcl.
  { unfold claimed, s'. cbn. intros *. rewrite lookup_insert_Some. intros [[<- [=]]|[? ?]]; [left; naive_solver|right; done]. }
  split.
  - intros id' start' taken' slot' ttl' script' [(-> & -> & -> & -> & -> & ->)|[Hne Hc]]%Hcl.
    + split; cbn; [done|lia|done|done| | |].
      * intros _. rewrite lookup_insert_eq. eexists _, _. split; [done|]. lia.
      * intros _ st Hst Hsl. left. destruct (H4 st Hst) as [?|(v & e & E & He)]; [done|].
        rewrite Hsl in E. specialize (Hfree _ _ E). lia.
      * intros Hse t. by rewrite (Hans Hse).
    + destruct (H1 _ _ _ _ _ _ Hc) as [? ? ? ? Hsl ? ?]. split; cbn; try done.
      intros Hcr. destruct (decide (slot' = slot)) as [->|Hns]; [by destruct (Hnone _ _ _ _ _ Hc)|].
      rewrite lookup_insert_ne by done. by apply Hsl.
  - intros id1 id2 start1 taken1 start2 taken2 slot' ttl1 ttl2 script1 script2
      [(-> & -> & -> & -> & -> & ->)|[Hn1 Hc1]]%Hcl [(-> & -> & -> & E & -> & ->)|[Hn2 Hc2]]%Hcl Hr1 Hr2; try done.
    + by destruct (Hnone _ _ _ _ _ Hc2).
    + subst. by destruct (Hnone _ _ _ _ _ Hc1).
    + eauto.
  - unfold s'. cbn. intros *. rewrite lookup_insert_Some. intros [[_ [=]]|[_ ?]]. eauto.
  - unfold s'. cbn. intros st Hst. destruct (H4 st Hst) as [?|(v & e & E & He)]; [by left|].
    destruct (decide (st_slot st = slot)) as [Esl|Hns].
    + left. rewrite Esl in E. specialize (Hfree _ _ E). lia.
    + right. exists v, e. by rewrite lookup_insert_ne.
  - exact H5.
  - exact H6.
  - unfold s'. cbn. intros slot' t e. rewrite lookup_insert_Some. intros [[_ [=]]|[_ E]]. by apply (H7 _ _ e).
  - exact H8.
Qed.
Lemma claimed_effect s s0 id start taken slot ttl script id' start' taken' slot' ttl' script' :
  claimed (with_requests (<[id := Claimed start taken slot ttl script]> (rc_requests s)) s0) id' start' taken' slot' ttl' script' →
  (id' = id ∧ start' = start ∧ taken' = taken ∧ slot' = slot ∧ ttl' = ttl ∧ script' = script) ∨
  (id' ≠ id ∧ claimed s id' start' taken' slot' ttl' script').
Proof.
  unfold claimed. cbn. rewrite lookup_insert_Some. intros [[<- [=]]|[? ?]]; [left; naive_solver|right; done].
Qed.

Lemma waiting_effect s s0 id start taken slot ttl script id' start' slot' ttl' :
  rc_requests (with_requests (<[id := Claimed start taken slot ttl script]> (rc_requests s)) s0) !! id' = Some (Waiting start' slot' ttl') →
  rc_requests s !! id' = Some (Waiting start' slot' ttl').
Proof. cbn. rewrite lookup_insert_Some. intros [[_ [=]]|[_ ?]]. done. Qed.

(** Two critical requests of a slot are one, also when one of them has done an effect. *)
Lemma unique_effect s s0 id start taken slot ttl e script : race_ok s → claimed s id start taken slot ttl (e :: script) →
  (critical_script script → critical_script (e :: script)) →
  ∀ id1 id2 start1 taken1 start2 taken2 slot' ttl1 ttl2 script1 script2,
  claimed (with_requests (<[id := Claimed start taken slot ttl script]> (rc_requests s)) s0) id1 start1 taken1 slot' ttl1 script1 →
  claimed (with_requests (<[id := Claimed start taken slot ttl script]> (rc_requests s)) s0) id2 start2 taken2 slot' ttl2 script2 →
  critical_script script1 → critical_script script2 → id2 = id1.
Proof.
  intros Hk Hid Hcr id1 id2 start1 taken1 start2 taken2 slot' ttl1 ttl2 script1 script2
    [(-> & -> & -> & -> & -> & ->)|[Hn1 Hc1]]%claimed_effect [(-> & -> & -> & E & -> & ->)|[Hn2 Hc2]]%claimed_effect Hr1 Hr2; try done.
  - apply (rk_unique _ Hk _ _ _ _ _ _ _ _ _ _ _ Hid Hc2); auto.
  - subst. apply (rk_unique _ Hk _ _ _ _ _ _ _ _ _ _ _ Hc1 Hid); auto.
  - by apply (rk_unique _ Hk _ _ _ _ _ _ _ _ _ _ _ Hc1 Hc2).
Qed.

Lemma no_other s id start taken slot ttl script : race_ok s → claimed s id start taken slot ttl script → critical_script script →
  ∀ id' start' taken' ttl' script', id' ≠ id → claimed s id' start' taken' slot ttl' script' → ¬ critical_script script'.
Proof.
  intros Hk Hid Hc id' start' taken' ttl' script' Hne Hc' Hcr. apply Hne.
  by apply (rk_unique _ Hk _ _ _ _ _ _ _ _ _ _ _ Hid Hc').
Qed.

Lemma ok_harmless s id start taken slot ttl e script : race_ok s → claimed s id start taken slot ttl (e :: script) →
  harmless e = true → remaining_script script → has_delete script = has_delete (e :: script) →
  has_settle script = has_settle (e :: script) → answer_of script = answer_of (e :: script) →
  race_ok (with_requests (<[id := Claimed start taken slot ttl script]> (rc_requests s)) (perform slot ttl e script s)).
Proof.
  intros Hk Hid He Hrem Ed Es Ea. assert (perform slot ttl e script s = s) as -> by (by destruct e).
  assert (critical_script script → critical_script (e :: script)) as Hcr by (unfold critical_script; by rewrite Ed, Es, Ea).
  pose proof (unique_effect s s id start taken slot ttl e script Hk Hid Hcr) as Hu.
  destruct Hk as [H1 H2 H3 H4 H5 H6 H7 H8]. split; try done; [|by intros ????; intros ?%waiting_effect; eauto].
  intros id' start' taken' slot' ttl' script' [(-> & -> & -> & -> & -> & ->)|[Hne Hc]]%claimed_effect;
    [|by destruct (H1 _ _ _ _ _ _ Hc); split].
  destruct (H1 _ _ _ _ _ _ Hid) as [? ? Hl ? Hsl Hb Ha].
  split; [done|done|by intros _; apply Hl|done|by auto|rewrite Ed, Es; by auto|rewrite Es, Ea; by auto].
Qed.

Lemma calm_not_critical l : Forall (λ e, harmless e = true) l → ¬ critical_script l.
Proof. intros (H1 & H2 & H3)%calm_kinds [?|[?|[? ?]]]; congruence. Qed.

Lemma ok_delete s id start taken slot ttl script : race_ok s → claimed s id start taken slot ttl (DeleteKey :: script) →
  Forall (λ e, harmless e = true) script →
  race_ok (with_requests (<[id := Claimed start taken slot ttl script]> (rc_requests s)) (perform slot ttl DeleteKey script s)).
Proof.
  intros Hk Hid Hc. assert (critical_script (DeleteKey :: script)) as Hcr by (by left).
  pose proof (unique_effect s (perform slot ttl DeleteKey script s) id start taken slot ttl DeleteKey script Hk Hid (λ _, Hcr)) as Hu.
  pose proof (no_other _ _ _ _ _ _ _ Hk Hid Hcr) as Hno. destruct Hk as [H1 H2 H3 H4 H5 H6 H7 H8].
  destruct (H1 _ _ _ _ _ _ Hid) as [_ Ht Hl Htt _ Hb _].
  split; try done; [|by intros ????; intros ?%waiting_effect; eauto| |].
  - intros id' start' taken' slot' ttl' script' [(-> & -> & -> & -> & -> & ->)|[Hne Hc']]%claimed_effect.
    + split; cbn; try done.
      * do 2 constructor. exact Hc.
      * intros _. by apply Hl.
      * by intros ?%calm_not_critical.
      * by intros ?%calm_not_critical.
      * apply calm_kinds in Hc as (_ & _ & ->). done.
    + destruct (H1 _ _ _ _ _ _ Hc') as [? ? ? ? Hsl ? ?]. split; cbn; try done.
      intros Hcr'. destruct (decide (slot' = slot)) as [->|Hns]; [by destruct (Hno _ _ _ _ _ Hne Hc')|].
      unfold redis_Del. rewrite lookup_delete_ne by done. by apply Hsl.
  - cbn. intros st Hst. destruct (decide (st_slot st = slot)) as [Esl|Hns].
    + left. destruct (Hb Hcr st Hst Esl) as [?|(_ & [=] & _)]. lia.
    + unfold redis_Del. rewrite lookup_delete_ne by done. by apply H4.
  - cbn. intros slot' t e. unfold redis_Del. rewrite lookup_delete_Some. intros [_ E]. by apply (H7 _ _ e).
Qed.

Lemma ok_settle s id start taken slot ttl ops script : race_ok s →
  claimed s id start taken slot ttl (SettleBalances ops :: script) → after_settle script →
  race_ok (with_requests (<[id := Claimed start taken slot ttl script]> (rc_requests s)) (perform slot ttl (SettleBalances ops) script s)).
Proof.
  intros Hk Hid Ha. assert (critical_script (SettleBalances ops :: script)) as Hcr by (right; by left).
  pose proof (unique_effect s (perform slot ttl (SettleBalances ops) script s) id start taken slot ttl _ script Hk Hid (λ _, Hcr)) as Hu.
  pose proof (no_other _ _ _ _ _ _ _ Hk Hid Hcr) as Hno. destruct Hk as [H1 H2 H3 H4 H5 H6 H7 H8].
  destruct (H1 _ _ _ _ _ _ Hid) as [_ Ht Hl Htt Hsl Hb _]. specialize (Hl ltac:(done)).
  destruct (Hsl Hcr) as (v & e & Ek & He). destruct (after_kinds _ Ha) as [Kd Ks].
  set (st0 := mkSettlement slot (rc_now s) ttl (answer_of script)).
  set (s' := with_requests _ _). assert (rc_settled s' = rc_settled s ++ [st0]) as Es' by done.
  assert (∀ sl t, answered s sl t → answered s' sl t) as Hans by (intros; by eapply answered_app).
  split; try done; cbn [rc_now rc_keys rc_settled rc_replayed with_requests perform].
  - intros id' start' taken' slot' ttl' script' [(-> & -> & -> & -> & -> & ->)|[Hne Hc']]%claimed_effect.
    + split; try done.
      * by apply rest_after.
      * intros _. by exists v, e.
      * intros _ st Hst Esl. rewrite Es' in Hst. apply elem_of_app in Hst as [Hst|Hst%list_elem_of_singleton]; [|subst st; by right].
        left. destruct (Hb Hcr st Hst Esl) as [?|(_ & _ & [=])]. done.
      * intros _ t Et. exists st0. split_and!; [|done|done]. rewrite Es'. apply elem_of_app. right. by left.
    + destruct (H1 _ _ _ _ _ _ Hc') as [? ? ? ? ? Hb' Ha']. split; try done; [|by intros; apply Hans; eauto].
      intros Hcr' st [Hst|Hst%list_elem_of_singleton]%elem_of_app Esl; [by apply Hb'|subst st].
      cbn in Esl. subst slot'. by destruct (Hno _ _ _ _ _ Hne Hc').
  - by intros ????; intros ?%waiting_effect; eauto.
  - intros st [Hst|Hst%list_elem_of_singleton]%elem_of_app; [by apply H4|subst st]. right. exists v, e. split; [done|].
    unfold settled_until. cbn. lia.
  - intros st [Hst|Hst%list_elem_of_singleton]%elem_of_app; [by apply H5|by subst st].
  - intros i j a b Hij Ha' Hb' Esl. rewrite Es' in Ha', Hb'. apply lookup_snoc_Some in Hb' as [[Hj Hb']|[-> <-]].
    + rewrite lookup_app_l in Ha' by lia. eauto.
    + rewrite lookup_app_l in Ha' by lia. cbn in *. apply list_elem_of_lookup_2 in Ha'.
      destruct (Hb Hcr a Ha' Esl) as [?|(_ & _ & [=])]. lia.
  - intros sl t e'. intros ?%H7. by apply Hans.
  - intros sl t ?%H8. by apply Hans.
Qed.

Lemma ok_value s id start taken slot ttl t script : race_ok s →
  claimed s id start taken slot ttl (SetValue t :: script) → Forall (λ e, harmless e = true) script →
  race_ok (with_requests (<[id := Claimed start taken slot ttl script]> (rc_requests s)) (perform slot ttl (SetValue t) script s)).
Proof.
  intros Hk Hid Hc. assert (critical_script (SetValue t :: script)) as Hcr by (right; right; by eexists).
  pose proof (unique_effect s (perform slot ttl (SetValue t) script s) id start taken slot ttl _ script Hk Hid (λ _, Hcr)) as Hu.
  pose proof (no_other _ _ _ _ _ _ _ Hk Hid Hcr) as Hno. destruct Hk as [H1 H2 H3 H4 H5 H6 H7 H8].
  destruct (H1 _ _ _ _ _ _ Hid) as [Hrem Ht Hl Htt _ Hb Hans]. specialize (Hl ltac:(done)).
  assert (has_settle (SetValue t :: script) = false) as Ks by (by apply calm_kinds in Hc as (_ & ? & _)).
  split; try done; cbn [rc_now rc_keys rc_settled rc_replayed with_requests perform with_keys].
  - intros id' start' taken' slot' ttl' script' [(-> & -> & -> & -> & -> & ->)|[Hne Hc']]%claimed_effect.
    + split; try done.
      * do 2 constructor. exact Hc.
      * by intros ?%calm_not_critical.
      * by intros ?%calm_not_critical.
      * apply calm_kinds in Hc as (_ & _ & ->). done.
    + destruct (H1 _ _ _ _ _ _ Hc') as [? ? ? ? Hsl ? ?]. split; try done.
      intros Hcr'. destruct (decide (slot' = slot)) as [->|Hns]; [by destruct (Hno _ _ _ _ _ Hne Hc')|].
      cbn. rewrite redis_Set_life by lia. cbn. rewrite lookup_insert_ne by done. by apply Hsl.
  - by intros ????; intros ?%waiting_effect; eauto.
  - intros st Hst. rewrite redis_Set_life by lia. cbn. destruct (decide (st_slot st = slot)) as [Esl|Hns].
    + destruct (Hb Hcr st Hst Esl) as [?|(Ettl & _)]; [left; lia|]. right. rewrite Esl, lookup_insert_eq.
      eexists _, _. split; [done|]. specialize (H5 st Hst). unfold settled_until. rewrite Ettl. lia.
    + rewrite lookup_insert_ne by done. by apply H4.
  - intros sl t' e. rewrite redis_Set_life by lia. cbn. rewrite lookup_insert_Some. intros [[<- [= <- _]]|[_ E]]; [by apply Hans|by apply (H7 _ _ e)].
Qed.

Lemma ok_ignored s id start taken slot ttl e script : race_ok s → claimed s id start taken slot ttl (e :: script) →
  Forall (λ e, harmless e = true) script → race_ok (with_requests (<[id := Claimed start taken slot ttl script]> (rc_requests s)) s).
Proof.
  intros Hk Hid Hc.
  pose proof (unique_effect s s id start taken slot ttl e script Hk Hid (λ H, False_ind _ (calm_not_critical _ Hc H))) as Hu.
  destruct Hk as [H1 H2 H3 H4 H5 H6 H7 H8]. split; try done; [|by intros ????; intros ?%waiting_effect; eauto].
  intros id' start' taken' slot' ttl' script' [(-> & -> & -> & -> & -> & ->)|[Hne Hc']]%claimed_effect;
    [|by destruct (H1 _ _ _ _ _ _ Hc'); split].
  destruct (H1 _ _ _ _ _ _ Hid) as [? ? Hl ? _ _ _].
  split; [by do 2 constructor|done|by intros _; apply Hl|done|by intros ?%calm_not_critical|by intros ?%calm_not_critical|].
  intros _ t. by apply calm_kinds in Hc as (_ & _ & ->).
Qed.

Lemma ok_step s s' : race_ok s → race_step MaxRequest script_ok s s' → race_ok s'.
Proof using Hok Hmax.
  intros Hk Hst. revert Hk. destruct Hst as [s now Hn Ht|s id slot ttl Hid Httl|s id start slot ttl m script Hid Hnx Hsc
    |s id start slot ttl m Hid Hnx|s id start slot ttl t Hid Hg|s id start slot ttl Hid Hg
    |s id start taken slot ttl e script Hid|s id start taken slot ttl e script Hid He|s id start taken slot ttl Hid]; intros Hk.
  - by apply ok_tick.
  - apply (ok_frame s); try done; unfold claimed; cbn.
    + intros *. rewrite lookup_insert_Some. by intros [[_ [=]]|[_ ?]].
    + intros *. rewrite lookup_insert_Some. intros [[_ [= <- <- <-]]|[_ ?]]; [|by eapply rk_waiting]. lia.
    + apply (rk_replayed _ Hk).
  - by eapply ok_claim.
  - assert (m = rc_keys s) as -> by (unfold redis_SetNX in Hnx; repeat case_match; simplify_eq; try done; by destruct (redis_Set _ _ _ _ _)).
    apply (ok_frame s); try done; unfold claimed; cbn.
    + intros *. rewrite lookup_insert_Some. by intros [[_ [=]]|[_ ?]].
    + intros *. rewrite lookup_insert_Some. intros [[_ [=]]|[_ ?]]. by eapply rk_waiting.
    + apply (rk_replayed _ Hk).
  - apply (ok_frame s); try done; unfold claimed; cbn.
    + intros *. rewrite lookup_delete_Some. by intros [_ ?].
    + intros *. rewrite lookup_delete_Some. intros [_ ?]. by eapply rk_waiting.
    + intros sl t' [?|[= -> ->]%list_elem_of_singleton]%elem_of_app; [by apply (rk_replayed _ Hk)|].
      unfold redis_Get, key_live in Hg. destruct (rc_keys s !! slot) as [[v ex]|] eqn:E; [|done]. cbn in Hg.
      destruct (match ex with Some _ => _ | None => _ end); [|done]. injection Hg as ->. by apply (rk_stored _ Hk _ _ ex).
  - apply (ok_frame s); try done; unfold claimed; cbn.
    + intros *. rewrite lookup_delete_Some. by intros [_ ?].
    + intros *. rewrite lookup_delete_Some. intros [_ ?]. by eapply rk_waiting.
    + apply (rk_replayed _ Hk).
  - destruct (script_pop _ _ (ro_rest _ _ _ _ _ _ (rk_claimed _ Hk _ _ _ _ _ _ Hid))) as
      [(He & Hr & E1 & E2 & E3)|[[-> Hc]|[[[ops ->] Ha]|[[t ->] Hc]]]].
    + by apply ok_harmless.
    + by apply ok_delete.
    + by apply ok_settle.
    + by apply ok_value.
  - eapply ok_ignored; [done|exact Hid|].
    destruct (script_pop _ _ (ro_rest _ _ _ _ _ _ (rk_claimed _ Hk _ _ _ _ _ _ Hid))) as
      [(Hh & _)|[[-> Hc]|[[[ops ->] Ha]|[[t ->] Hc]]]]; try done. by destruct e.
  - apply (ok_frame s); try done; unfold claimed; cbn.
    + intros *. rewrite lookup_delete_Some. by intros [_ ?].
    + intros *. rewrite lookup_delete_Some. intros [_ ?]. by eapply rk_waiting.
    + apply (rk_replayed _ Hk).
Qed.

Lemma reachable_ok now s : race_reachable MaxRequest script_ok now s → race_ok s.
Proof using Hok Hmax. induction 1; [apply ok_start|by eapply ok_step]. Qed.

End Safety.

(** ** The scripts of the handler *)

Section Handler.
Context {D : DecimalLib} {DT : DecimalText} {U : UuidLib} {C : LibCommons}.

(** The effects of a request that got an answer from the balances. *)
Definition creation_script (script : list create_effect) : Prop :=
  ∃ params an id date input status isRevert, script = (create_claimed params an id date input status isRevert).1.
Definition clean_creation (script : list create_effect) : Prop :=
  creation_script script ∧ has_settle script && has_delete script = false.

Lemma confirm_calm status held :
  Forall (λ e, harmless e = true) (if bool_decide (status = PENDING) then [] else confirmReservations held).
Proof. case_bool_decide; [done|]. by apply Forall_fmap, Forall_true. Qed.
Lemma release_calm held : Forall (λ e, harmless e = true) (releaseReservations held).
Proof. by apply Forall_fmap, Forall_true. Qed.

Lemma outcome_remaining status action plan held reply l r : claimed_outcome status action plan held reply l r → has_settle l && has_delete l = false →
  remaining_script l ∧ (has_settle l = false → answer_of l = None).
Proof.
  destruct 1; intros Hclean; try discriminate Hclean.
  - split; [by apply (rest_delete [] [])|done].
  - split; [by apply (rest_delete [SeedQueue status action] [RemoveFromQueue]); repeat constructor|done].
  - pose proof (release_calm held) as Hh. split.
    + apply (rest_delete [SeedQueue status action] (RemoveFromQueue :: releaseReservations held)); by repeat constructor.
    + intros _. cbn. by apply calm_kinds in Hh as (_ & _ & ->).
  - split; [|done]. apply (rest_settle [_] (pl_ops plan)); [by repeat constructor|]. constructor. apply confirm_calm.
  - split; [|done]. apply (rest_settle [_] (pl_ops plan)); [by repeat constructor|]. constructor.
    apply Forall_app; split; [apply confirm_calm|by repeat constructor].
  - split; [|done]. apply (rest_settle [_] (pl_ops plan)); [by repeat constructor|].
    change [UpdateBackup _; _; _; _; _] with
      ([UpdateBackup (tr_Operations t); CreateWriteBehind (promoted body status t); WriteRecords (promoted body status t)] ++ SetValue t :: [SendAuditLog]).
    rewrite app_assoc. apply after_value; [|by repeat constructor].
    apply Forall_app; split; [apply confirm_calm|by repeat constructor].
Qed.

Lemma clean_creation_remaining script : clean_creation script →
  remaining_script script ∧ (has_settle script = false → answer_of script = None).
Proof.
  intros [(params & an & id & date & input & status & isRevert & ->) Hc].
  pose proof (create_claimed_outcome params an id date input status isRevert) as Ho.
  destruct (create_claimed _ _ _ _ _ _ _) as [l r]. by eapply outcome_remaining.
Qed.
End Handler.

(** C8: However many requests with the same idempotency key, or the same body, run at the
    same time and whatever fails in them, the balances move at most once per key until the
    key's life in Redis, counted from the last movement and less the longest duration of a
    request, is over; and every replayed answer is the one of a request with that key that
    moved the balances.  The life is what the int64 product of the time to live asked for and
    a second leaves, see [huge_ttl_settles_twice]; it is assumed that every request takes less
    than the life it asks for and that no answer of the balances is lost. *)
Theorem creation_settles_once {D : DecimalLib} {DT : DecimalText} {U : UuidLib} {C : LibCommons}
    (MaxRequest now : Z) (Hmax : 0 ≤ MaxRequest) s (Hr : race_reachable MaxRequest clean_creation now s) :
  (∀ i j a b, (i < j)%nat → rc_settled s !! i = Some a → rc_settled s !! j = Some b → st_slot a = st_slot b →
     st_time a + redis_life (st_ttl a) - MaxRequest ≤ st_time b) ∧
  (∀ slot t, (slot, t) ∈ rc_replayed s →
     ∃ st, st ∈ rc_settled s ∧ st_slot st = slot ∧ st_answer st = Some t).
Proof.
  pose proof (reachable_ok MaxRequest Hmax clean_creation clean_creation_remaining now s Hr) as Hk. split.
  - intros i j a b. apply (rk_gap _ _ Hk).
  - apply (rk_replayed _ _ Hk).
Qed.

(** ** Samples *)

(** The next [n] effects of a request. *)
Fixpoint run_creation {D : DecimalLib} {U : UuidLib} (n : nat) (id : nat) (s : race) : race :=
  match n with
  | O => s
  | S n =>
      match rc_requests s !! id with
      | Some (Claimed start taken slot ttl (e :: script)) =>
          run_creation n id (with_requests (<[id := Claimed start taken slot ttl script]> (rc_requests s)) (perform slot ttl e script s))
      | _ => s
      end
  end.

Definition arrive {D : DecimalLib} {U : UuidLib} (id : nat) (slot : string) (ttl : Z) (s : race) : race :=
  with_requests (<[id := Waiting (rc_now s) slot ttl]> (rc_requests s)) s.
Definition claim {D : DecimalLib} {U : UuidLib} (id : nat) (slot : string) (ttl : Z) (script : list create_effect) (s : race) : race :=
  let s := arrive id slot ttl s in
  with_requests (<[id := Claimed (rc_now s) (rc_now s) slot ttl script]> (rc_requests s))
    (with_keys (default (rc_keys s) (snd <$> redis_SetNX (rc_now s) slot None ttl (rc_keys s))) s).

Section Reach.
Context {D : DecimalLib} {U : UuidLib} (MaxRequest : Z) (Hmax : 0 ≤ MaxRequest) (script_ok : list create_effect → Prop) (now : Z).

Lemma reach_run n id s : race_reachable MaxRequest script_ok now s → race_reachable MaxRequest script_ok now (run_creation n id s).
Proof.
  revert s. induction n as [|n IH]; intros s Hr; cbn; [done|].
  destruct (rc_requests s !! id) as [[| |start taken slot ttl [|e script]]|] eqn:E; try done.
  apply IH. eapply race_next; [exact Hr|by eapply race_effect].
Qed.

Lemma reach_claim id slot ttl script s : race_reachable MaxRequest script_ok now s → rc_requests s !! id = None →
  MaxRequest < redis_life ttl → fst <$> redis_SetNX (rc_now s) slot None ttl (rc_keys s) = Some true → script_ok script →
  race_reachable MaxRequest script_ok now (claim id slot ttl script s).
Proof.
  intros Hr Hid Httl Hnx Hs. eapply race_next.
  - eapply race_next; [exact Hr|by apply (race_arrive _ _ s id slot ttl)].
  - eapply race_claim; [by apply lookup_insert_eq| |done]. cbn. by destruct (redis_SetNX _ _ _ _ _) as [[[] ?]|]; simplify_eq/=.
Qed.

Lemma reach_replay id slot ttl t s : race_reachable MaxRequest script_ok now s → rc_requests s !! id = None →
  MaxRequest < redis_life ttl → redis_Get (rc_now s) slot (rc_keys s) = Some (Some t) →
  ∃ s', race_reachable MaxRequest script_ok now s' ∧ rc_settled s' = rc_settled s ∧ rc_replayed s' = rc_replayed s ++ [(slot, t)].
Proof.
  intros Hr Hid Httl Hg.
  assert (redis_SetNX (rc_now s) slot None ttl (rc_keys s) = Some (false, rc_keys s)) as Hnx
    by (unfold redis_SetNX; unfold redis_Get in Hg; rewrite Hg; destruct (Z.ltb_spec (redis_life ttl) 0); [lia|done]).
  eexists. split; [eapply race_next; [eapply race_next; [eapply race_next; [exact Hr|]|]|]|].
  - by apply (race_arrive _ _ s id slot ttl).
  - eapply race_taken; [by apply lookup_insert_eq|exact Hnx].
  - eapply race_replay; [by apply lookup_insert_eq|exact Hg].
  - done.
Qed.
End Reach.

Module CreateSample.
Definition row (alias : string) (available version : Z) : @MBalance Fixed.lib :=
  mkMBalance "b1" "1" "2" "acc1" alias "default" "BRL" (fx available 0) (fx 0 0) version
    "deposit" true true DirectionCredit (fx 0 0) None 0 0 None ∅.
Definition settings := mkLedgerSettings (mkAccounting false false false) (mkTracerSettings "enforce" "closed" 250) (mkOverrides false false false).
Definition params (parent : option nat) : @create_params Numbered.lib :=
  mkParams (U := Numbered.lib) (1%nat : @uuid Numbered.lib) (2%nat : @uuid Numbered.lib) parent.
(** The tracer grants the reservation 77. *)
Definition grant (_ : @ReserveRequest Numbered.lib) : result string (@ReservationResult Numbered.lib) :=
  Ok (mkReservationResult (U := Numbered.lib) false [77%nat]).
Definition answer (id : nat) (process : @process_answer Fixed.lib) : @create_answers Fixed.lib Numbered.lib :=
  mkCreateAnswers (D := Fixed.lib) (U := Numbered.lib) (Ok id) 0 (λ tx, Ok ("body:" +:+ tx_Description tx)) (Ok settings) None (Ok tt)
    (λ _, Ok [row "@alice" 300 7; row "@bob" 10 3]) (λ _, Ok []) (λ _ _ _, Ok None) (Some grant) (λ u, u)
    (λ _ _, process) (λ n, Ok (strconv_Itoa n)) true.
Definition moved : @process_answer Fixed.lib :=
  Processed [row "0#@alice#default" 300 7; row "0#@bob#default" 10 3] [row "0#@alice#default" 50 8; row "0#@bob#default" 260 4].
Definition input : @Transaction Fixed.lib :=
  sample_tx 250 [plain_entry true "@alice" 250] [plain_entry false "@bob" 250].
Definition free (_ : string) : result string bool := Ok true.
Definition nothing (_ : string) : result string (option (@TransactionEntity Fixed.lib)) := Ok None.
Abbreviation sample_run :=
  (executeCreateTransaction (DT := FixedText.text) (C := Commons.lib) (params None) (answer 5 moved) input CREATED false free nothing "k").
Definition script (process : @process_answer Fixed.lib) :=
  (create_claimed (DT := FixedText.text) (C := Commons.lib) (params None) (answer 5 process) (5%nat : @uuid Numbered.lib) 0 input CREATED false).1.
Definition slot := slot_of (params None) "k" "".
Definition MaxRequest := 10 * Second.
Definition settled_once : @race Fixed.lib Numbered.lib := run_creation 20 1 (claim 1 slot 300 (script moved) (race_start 0)).
(** The script runs, its answer is lost, and the client tries again. *)
Definition lost_once : @race Fixed.lib Numbered.lib :=
  run_creation 20 1 (claim 1 slot 300 (script (ProcessLost "timeout")) (race_start 0)).
Definition settled_twice : @race Fixed.lib Numbered.lib := run_creation 20 2 (claim 2 slot 300 (script moved) lost_once).

(** A time to live of 584 years wraps to 290 milliseconds. *)
Definition huge_ttl : Z := 18446744074.
Definition short_request := 100 * Millisecond.
Definition huge_once : @race Fixed.lib Numbered.lib := run_creation 20 1 (claim 1 slot huge_ttl (script moved) (race_start 0)).
Definition huge_later : @race Fixed.lib Numbered.lib :=
  mkRace (300 * Millisecond) (rc_keys huge_once) (rc_settled huge_once) (rc_replayed huge_once) (rc_requests huge_once).
Definition huge_twice : @race Fixed.lib Numbered.lib := run_creation 20 2 (claim 2 slot huge_ttl (script moved) huge_later).

(** Two payments with the same contents and their reversals. *)
Definition payment : @TransactionEntity Fixed.lib := RevertSample.overdrawn.
Definition asked : @revert_answers Fixed.lib Numbered.lib :=
  mkRevertAnswers (Ok None) (Ok payment) (λ _, Ok None).
Definition paid_back : @process_answer Fixed.lib :=
  Processed [row "0#@bob#default" 110 3; row "0#@alice#default" 0 8] [row "0#@bob#default" 10 4; row "0#@alice#default" 100 9].
Definition no_parse : @UuidParse Numbered.lib := {| uuid_Parse := λ _, None |}.
Definition revert (parent id : nat) (setnx : string → result string bool)
    (get : string → result string (option (@TransactionEntity Fixed.lib))) :=
  revertTransaction (UP := no_parse) (DT := FixedText.text) (C := Commons.lib) asked
    (1%nat : @uuid Numbered.lib) (2%nat : @uuid Numbered.lib) (parent : @uuid Numbered.lib) (answer id paid_back) setnx get.
Abbreviation outcome := (list (@create_effect Fixed.lib Numbered.lib) * result CreateError (@TransactionEntity Fixed.lib * bool))%type.
(** The number of effects, whether the balances moved, and the answer. *)
Definition summary (x : outcome) : nat * bool * option (string * option string * bool) :=
  (length x.1, has_settle x.1,
   match x.2 with Ok (t, replayed) => Some (tr_ID t, tr_ParentTransactionID t, replayed) | Err _ => None end).
Definition created (x : outcome) : bool :=
  match x.2 with Ok (_, false) => has_settle x.1 | _ => false end.
(** What the slots hold after the first reversal. *)
Definition after_first (slot : string) : result string (option (@TransactionEntity Fixed.lib)) :=
  Ok (if bool_decide (slot = slot_of (params None) "" "body:rent")
      then match (revert 41 8 free nothing).2 with Ok (t, _) => Some t | Err _ => None end else None).
End CreateSample.

Lemma sample_clean process : has_settle (CreateSample.script process) && has_delete (CreateSample.script process) = false →
  clean_creation (DT := FixedText.text) (C := Commons.lib) (CreateSample.script process).
Proof. intros H. split; [|exact H]. by eexists _, _, _, _, _, _, _. Qed.

Lemma settled_once_reachable :
  race_reachable CreateSample.MaxRequest (clean_creation (DT := FixedText.text) (C := Commons.lib)) 0 CreateSample.settled_once.
Proof.
  apply reach_run, reach_claim; [constructor|done|done|done|]. apply sample_clean. vm_compute. reflexivity.
Qed.

Lemma answer_some {A} (o : option (option A)) :
  match o with Some (Some _) => true | _ => false end = true → ∃ t, o = Some (Some t).
Proof. destruct o as [[t|]|]; [by eauto|done..]. Qed.

(** One creation, and a second request with the key that is answered from the slot. *)
Lemma replayed_reachable : ∃ (s' : @race Fixed.lib Numbered.lib) (t : @TransactionEntity Fixed.lib),
  race_reachable CreateSample.MaxRequest (clean_creation (DT := FixedText.text) (C := Commons.lib)) 0 s' ∧
  rc_replayed s' = [(CreateSample.slot, t)] ∧ length (rc_settled s') = 1%nat.
Proof.
  destruct (answer_some (redis_Get (rc_now CreateSample.settled_once) CreateSample.slot (rc_keys CreateSample.settled_once)))
    as [t E]; [vm_compute; reflexivity|].
  assert (rc_requests CreateSample.settled_once !! 2%nat = None) as H2 by (vm_compute; reflexivity).
  assert (rc_replayed CreateSample.settled_once = []) as H3 by (vm_compute; reflexivity).
  assert (length (rc_settled CreateSample.settled_once) = 1%nat) as H4 by (vm_compute; reflexivity).
  assert (0 ≤ CreateSample.MaxRequest) as H5 by (vm_compute; discriminate).
  assert (CreateSample.MaxRequest < redis_life 300) as H6 by (vm_compute; reflexivity).
  destruct (reach_replay CreateSample.MaxRequest H5 (clean_creation (DT := FixedText.text) (C := Commons.lib)) 0 2 CreateSample.slot 300 t
              CreateSample.settled_once settled_once_reachable H2 H6 E) as (s' & Hr & Es & Ep).
  exists s', t. split_and!; [exact Hr|by rewrite Ep, H3|by rewrite Es, H4].
Qed.

Lemma creation_settles_once_witness :
  ∃ (s' : @race Fixed.lib Numbered.lib) (t : @TransactionEntity Fixed.lib),
    rc_replayed s' = [(CreateSample.slot, t)] ∧ st_answer <$> rc_settled s' = [Some t].
Proof.
  destruct replayed_reachable as (s' & t & Hr & Er & El). exists s', t. split; [exact Er|].
  assert (0 ≤ CreateSample.MaxRequest) as Hm by (vm_compute; discriminate).
  pose proof (creation_settles_once (DT := FixedText.text) (C := Commons.lib) CreateSample.MaxRequest 0 Hm s' Hr) as [_ Hrep].
  destruct (Hrep CreateSample.slot t) as (st & Hst & _ & Ea); [rewrite Er; by left|].
  destruct (rc_settled s') as [|x [|y l]]; [discriminate El| |discriminate El].
  apply list_elem_of_singleton in Hst as ->. cbn. by rewrite Ea.
Defined.

(** When the answer of the balances is lost, the handler takes the movement for a failure: it
    deletes the slot and the queue entry and releases the capacity, and the next request with
    the key moves the balances again. *)
Theorem lost_answer_settles_twice :
  race_reachable CreateSample.MaxRequest (creation_script (DT := FixedText.text) (C := Commons.lib)) 0 CreateSample.settled_twice ∧
  ((λ st, (st_slot st, st_time st)) <$> rc_settled CreateSample.settled_twice) = [(CreateSample.slot, 0); (CreateSample.slot, 0)].
Proof.
  split; [|vm_compute; reflexivity]. unfold CreateSample.settled_twice, CreateSample.lost_once.
  apply reach_run, reach_claim; [|vm_compute; reflexivity|done|vm_compute; reflexivity|by eexists _, _, _, _, _, _, _].
  apply reach_run, reach_claim; [constructor|done|done|done|by eexists _, _, _, _, _, _, _].
Qed.

(** The time to live comes from a header and is not capped: one that wraps lets a slot expire
    at once, and the same key moves the balances twice within 300 milliseconds. *)
Theorem huge_ttl_settles_twice :
  race_reachable CreateSample.short_request (clean_creation (DT := FixedText.text) (C := Commons.lib)) 0 CreateSample.huge_twice ∧
  ((λ st, (st_slot st, st_time st, st_ttl st)) <$> rc_settled CreateSample.huge_twice)
    = [(CreateSample.slot, 0, CreateSample.huge_ttl); (CreateSample.slot, 300 * Millisecond, CreateSample.huge_ttl)].
Proof.
  split; [|vm_compute; reflexivity]. unfold CreateSample.huge_twice.
  apply reach_run, reach_claim; [|vm_compute; reflexivity..|apply sample_clean; vm_compute; reflexivity].
  eapply race_next; [unfold CreateSample.huge_later|apply race_tick].
  - apply (reach_run _ _ _ 20 1 (claim 1 CreateSample.slot CreateSample.huge_ttl (CreateSample.script CreateSample.moved) (race_start 0))), reach_claim;
      [constructor|vm_compute; reflexivity..|apply sample_clean; vm_compute; reflexivity].
  - vm_compute. discriminate.
  - intros id r. assert (rc_requests CreateSample.huge_once = {[1%nat := Claimed 0 0 CreateSample.slot CreateSample.huge_ttl []]}) as -> by (vm_compute; reflexivity).
    intros [<- <-]%lookup_singleton_Some. done.
Qed.

(** Two payments with the same contents cannot both be reverted within five minutes: the
    slot of a reversal is the hash of its body, which does not name the payment, so that the
    second reversal is answered with the first and nothing is moved. *)
Theorem second_reversal_is_replayed :
  CreateSample.summary (CreateSample.revert 41 8 CreateSample.free CreateSample.nothing)
    = (8%nat, true, Some ("8", Some "41", false)) ∧
  CreateSample.summary (CreateSample.revert 42 9 (λ _, Ok false) CreateSample.after_first)
    = (0%nat, false, Some ("8", Some "41", true)).
Proof. split; vm_compute; reflexivity. Qed.

Lemma created_inv (x : CreateSample.outcome) : CreateSample.created x = true →
  ∃ l t, x = (l, Ok (t, false)) ∧ settles l.
Proof. destruct x as [l [[t []]|e]]; try done. intros H. by exists l, t. Qed.

