(* ===== verification/Backup.v ===== *)
(** * The backup queue and its consumer

    A transaction is put into a hash of Redis before its balances move and leaves it when its
    records are stored.  services/command/create_balance_transaction_operations_async.go
    writes the entries ([SendTransactionToRedisQueue], [UpdateTransactionBackupOperations]),
    services/command/write_transaction.go hands the records on, and
    bootstrap/redis.consumer.go ([executeCycle], [readMessagesAndProcess], [processMessage],
    [quarantinePoisonRecord]) rebuilds, every 30 minutes, what was left behind, or moves it to
    a quarantine table.  Once a payload is stored its entry is removed ([store_payload]), by the
    process that falls back to the database or by a consumer of the broker ([queue_event]).

    A message is the entry itself or a text that does not decode.  Fields of the hashes carry
    the prefix of the tenant, [tenantKey], the identity without tenants. *)

From Stdlib Require Import ZArith Lia.
From stdpp Require Import base gmap strings list.
From S2P Require Import Prelude Decimals GoStrings Transaction BalanceOps Overdraft MBalance SendValidation.
From S2P Require Import LuaDecimal Idempotency.
From S2P Require Import CacheKeys BalancePlan Enrichment GoTime OperationRecords WritePath Revert CreateTransaction.
Local Open Scope string_scope.
Local Open Scope list_scope.
Local Open Scope Z_scope.

(** ** Operations in Redis *)

Section RedisOperations.
Context {D : DecimalLib} {DT : DecimalText}.

Record OperationRedis := mkOperationRedis {
  or_ID : string; or_TransactionID : string; or_Description : string; or_Type : OpType;
  or_AssetCode : string; or_ChartOfAccounts : string; or_AmountValue : dec;
  or_BalanceAvailable : dec; or_BalanceOnHold : dec; or_BalanceVersion : Z;
  or_BalanceAfterAvailable : dec; or_BalanceAfterOnHold : dec; or_BalanceAfterVersion : Z;
  or_BalanceID : string; or_AccountID : string; or_AccountAlias : string; or_BalanceKey : string;
  or_OrganizationID : string; or_LedgerID : string; or_CreatedAt : Time; or_Route : string;
  or_BalanceAffected : bool; or_Direction : Direction; or_RouteID : option string;
  or_RouteCode : option string; or_RouteDescription : option string;
  or_Metadata : gmap string AnyValue; or_Snapshot : OperationSnapshot }.

Definition ToRedis (op : Operation) : OperationRedis :=
  mkOperationRedis (op_ID op) (op_TransactionID op) (op_Description op) (op_Type op) (op_AssetCode op)
    (op_ChartOfAccounts op) (default dzero (op_Amount op))
    (ob_Available (op_Balance op)) (ob_OnHold (op_Balance op)) (ob_Version (op_Balance op))
    (ob_Available (op_BalanceAfter op)) (ob_OnHold (op_BalanceAfter op)) (ob_Version (op_BalanceAfter op))
    (op_BalanceID op) (op_AccountID op) (op_AccountAlias op) (op_BalanceKey op) (op_OrganizationID op)
    (op_LedgerID op) (op_CreatedAt op) (op_Route op) (op_BalanceAffected op) (op_Direction op)
    (op_RouteID op) (op_RouteCode op) (op_RouteDescription op) (op_Metadata op) (op_Snapshot op).

Definition parseDecimalOrZero (s : string) : dec := default dzero (dparse s).
Definition or_zero (s : string) : string := if bool_decide (s = "") then "0" else s.

Definition OperationFromRedis (r : OperationRedis) : Operation :=
  let before := or_zero (sn_Before (or_Snapshot r)) in
  let after := or_zero (sn_After (or_Snapshot r)) in
  mkOperation (or_ID r) (or_TransactionID r) (or_Description r) (or_Type r) (or_AssetCode r)
    (or_ChartOfAccounts r) (Some (or_AmountValue r))
    (mkOpBalance (or_BalanceAvailable r) (or_BalanceOnHold r) (or_BalanceVersion r) (parseDecimalOrZero before))
    (mkOpBalance (or_BalanceAfterAvailable r) (or_BalanceAfterOnHold r) (or_BalanceAfterVersion r) (parseDecimalOrZero after))
    (or_BalanceID r) (or_AccountID r) (or_AccountAlias r) (or_BalanceKey r) (or_OrganizationID r)
    (or_LedgerID r) (or_CreatedAt r) (or_Route r) (or_RouteID r) (or_Metadata r) (or_BalanceAffected r)
    (or_Direction r) (mkSnapshot before after) (or_RouteCode r) (or_RouteDescription r).

End RedisOperations.

(** ** Messages and stores *)

Section Backup.
Context {D : DecimalLib} {DT : DecimalText} {U : UuidLib} {UP : UuidParse} {C : LibCommons}.
Context (tenantKey : string → string).

(** [Action] is absent in old entries. *)
Record TransactionRedisQueue := mkQueueEntry {
  tq_HeaderID : string; tq_TransactionID : uuid; tq_OrganizationID : uuid; tq_LedgerID : uuid;
  tq_Balances : list BalanceRedis; tq_BalancesAfter : list BalanceRedis; tq_TransactionInput : Transaction;
  tq_TTL : Time; tq_Validate : option Responses; tq_TransactionStatus : TxStatus; tq_Action : option Action;
  tq_TransactionDate : Time; tq_Operations : list OperationRedis }.

Inductive queue_message :=
  | Message (m : TransactionRedisQueue)
  | Undecodable (raw : string).

Record QuarantineRecord := mkQuarantine {
  qr_OrganizationID : uuid; qr_LedgerID : uuid; qr_TransactionID : uuid; qr_RedisKey : string;
  qr_Payload : queue_message; qr_FailureReason : string; qr_Attempts : Z; qr_QuarantinedAt : Time }.

(** How a payload was handed on. *)
Inductive route := ToBroker | ToDatabase.

Record backup := mkBackup {
  bk_queue : gmap string queue_message; bk_attempts : gmap string Z;
  bk_quarantine : gmap string QuarantineRecord; bk_out : list (route * TransactionProcessingPayload) }.

Definition set_queue q (s : backup) : backup := mkBackup q (bk_attempts s) (bk_quarantine s) (bk_out s).
Definition set_attempts a (s : backup) : backup := mkBackup (bk_queue s) a (bk_quarantine s) (bk_out s).
Definition set_quarantine q (s : backup) : backup := mkBackup (bk_queue s) (bk_attempts s) q (bk_out s).
Definition hand_on r p (s : backup) : backup :=
  mkBackup (bk_queue s) (bk_attempts s) (bk_quarantine s) (bk_out s ++ [(r, p)]).

(** A call that would turn [s] into [s'] and return [v]. *)
Definition attempt {A} (a : answer) (s s' : backup) (v : A) : backup * result string A :=
  match a with
  | Answered => (s', Ok v)
  | Refused => (s, Err "refused")
  | AnswerLost => (s', Err "answer lost")
  end.

(** *** The commands of the adapter *)

Definition AddMessageToQueue (a : answer) (key : string) (m : queue_message) (s : backup) : backup * result string unit :=
  attempt a s (set_queue (<[tenantKey key := m]> (bk_queue s)) s) tt.
Definition ReadMessageFromQueue (a : answer) (key : string) (s : backup) : result string queue_message :=
  match a, bk_queue s !! tenantKey key with
  | Answered, Some m => Ok m
  | _, _ => Err "not read"
  end.
Definition RemoveMessageFromQueue (a : answer) (key : string) (s : backup) : backup * result string unit :=
  attempt a s (set_queue (delete (tenantKey key) (bk_queue s)) s) tt.
Definition IncrementBackupAttempt (a : answer) (key : string) (s : backup) : backup * result string Z :=
  let count := default 0 (bk_attempts s !! tenantKey key) + 1 in
  attempt a s (set_attempts (<[tenantKey key := count]> (bk_attempts s)) s) count.
Definition ClearBackupAttempt (a : answer) (key : string) (s : backup) : backup * result string unit :=
  attempt a s (set_attempts (delete (tenantKey key) (bk_attempts s)) s) tt.

(** [Insert] of the quarantine table: ON CONFLICT (redis_key) DO NOTHING. *)
Definition Quarantine_Insert (a : answer) (r : QuarantineRecord) (s : backup) : backup * result string unit :=
  match bk_quarantine s !! qr_RedisKey r with
  | Some _ => attempt a s s tt
  | None => attempt a s (set_quarantine (<[qr_RedisKey r := r]> (bk_quarantine s)) s) tt
  end.

(** *** Entries *)

Definition backup_balance (b : MBalance) : BalanceRedis :=
  mkBalanceRedis (mb_ID b) (mb_Alias b) (mb_Key b) (mb_AccountID b) (mb_AssetCode b) (mb_Available b)
    (mb_OnHold b) (mb_Version b) (mb_AccountType b) (if mb_AllowSending b then 1 else 0)
    (if mb_AllowReceiving b then 1 else 0) DirectionEmpty "" 0 0 "" "".

(** The entries of a transaction with bare aliases. *)
Definition sanitized (input : Transaction) : Transaction :=
  set_entries (SanitizeAccountAliases (src_From (send_Source (tx_Send input))))
    (SanitizeAccountAliases (dst_To (send_Distribute (tx_Send input)))) input.

(** [balances] is [None] before the balances are loaded. *)
Definition SendTransactionToRedisQueue (a : answer) (now : Time) (header : string)
    (organizationID ledgerID transactionID : uuid) (input : Transaction) (validate : Responses)
    (status : TxStatus) (action : Action) (date : Time) (balances : option (list MBalance)) (s : backup)
    : backup * result GoError unit :=
  match rejectInternalScopeBalances (default [] balances) with
  | Err e => (s, Err e)
  | Ok _ =>
      let m := mkQueueEntry header transactionID organizationID ledgerID (backup_balance <$> default [] balances) []
                 (sanitized input) now (Some validate) status (Some action) date [] in
      match AddMessageToQueue a (TransactionInternalKey organizationID ledgerID (uuid_String transactionID)) (Message m) s with
      | (s', Ok _) => (s', Ok tt)
      | (s', Err _) => (s', Err ErrTransactionBackupCacheFailed)
      end
  end.

Definition with_operations (ops : list OperationRedis) (action : option Action) (m : TransactionRedisQueue) : TransactionRedisQueue :=
  mkQueueEntry (tq_HeaderID m) (tq_TransactionID m) (tq_OrganizationID m) (tq_LedgerID m) (tq_Balances m)
    (tq_BalancesAfter m) (tq_TransactionInput m) (tq_TTL m) (tq_Validate m) (tq_TransactionStatus m)
    (match action with Some _ => action | None => tq_Action m end) (tq_TransactionDate m) ops.

Definition UpdateTransactionBackupOperations (read write : answer) (organizationID ledgerID : uuid) (transactionID : string)
    (operations : list Operation) (action : option Action) (s : backup) : backup :=
  let key := TransactionInternalKey organizationID ledgerID transactionID in
  match ReadMessageFromQueue read key s with
  | Ok (Message m) => (AddMessageToQueue write key (Message (with_operations (ToRedis <$> operations) action m)) s).1
  | _ => s
  end.

(** [updateTransactionHash] of the script, on the whole entry: the balances it moved, before and after, replace
    those of the entry.  [blank] is the entry with nothing else. *)
Definition with_balances (before after : list BalanceRedis) (m : TransactionRedisQueue) : TransactionRedisQueue :=
  mkQueueEntry (tq_HeaderID m) (tq_TransactionID m) (tq_OrganizationID m) (tq_LedgerID m) before after
    (tq_TransactionInput m) (tq_TTL m) (tq_Validate m) (tq_TransactionStatus m) (tq_Action m) (tq_TransactionDate m)
    (tq_Operations m).

Definition update_hash (blank : TransactionRedisQueue) (key : string) (before after : list BalanceRedis)
    (s : backup) : backup :=
  let m := match bk_queue s !! tenantKey key with Some (Message m) => m | _ => blank end in
  set_queue (<[tenantKey key := Message (with_balances before after m)]> (bk_queue s)) s.

(** *** Handing the records on *)

(** The end of [CreateBalanceTransactionOperationsAsync] as far as the queue sees it
    ([RemoveTransactionFromRedisQueueIfStatus], [RemoveTransactionFromRedisQueue]): once a
    transaction is stored its entry is removed, in asynchronous operation only if it still
    has the status of the payload.  What fails is logged. *)
Record cleanup := mkCleanup { cu_async : bool; cu_read : answer; cu_remove : answer }.

Definition remove_confirmed (cu : cleanup) (organizationID ledgerID : uuid) (p : TransactionProcessingPayload)
    (tran : TransactionEntity) (s : backup) : backup :=
  let key := TransactionInternalKey organizationID ledgerID (tr_ID tran) in
  let removed := (RemoveMessageFromQueue (cu_remove cu) key s).1 in
  if cu_async cu then
    match ReadMessageFromQueue (cu_read cu) key s with
    | Ok (Message m) =>
        if strings_EqualFold (status_text (tq_TransactionStatus m))
             (status_text (ExpectedBackupStatusForCleanup (sta_Code (tr_Status tran)) (pl_Validate p)))
        then removed else s
    | _ => s
    end
  else removed.

(** A payload that is stored, by this process or by a consumer of the broker. *)
Definition store_payload (cu : cleanup) (organizationID ledgerID : uuid) (p : TransactionProcessingPayload)
    (tran : TransactionEntity) (s : backup) : backup :=
  remove_confirmed cu organizationID ledgerID p tran (hand_on ToDatabase p s).

(** [WriteTransactionAsync]: the broker, or else the database; an answer that is lost there
    leaves the entry. *)
Definition WriteTransactionAsync (broker database : answer) (cu : cleanup) (organizationID ledgerID : uuid)
    (input : Transaction) (validate : Responses) (tran : TransactionEntity) (s : backup) : backup * result string unit :=
  let p := mkPayload (Some validate) (Some tran) input "v2" in
  match attempt broker s (hand_on ToBroker p s) tt with
  | (s', Ok _) => (s', Ok tt)
  | (s', Err _) =>
      match database with
      | Answered => (store_payload cu organizationID ledgerID p tran s', Ok tt)
      | Refused => (s', Err "refused")
      | AnswerLost => (hand_on ToDatabase p s', Err "answer lost")
      end
  end.

(** *** Quarantine *)

Definition QuarantineThreshold : Z := 3.

(** The calls of one message. *)
Record message_answers := mkMessageAnswers {
  ma_now : Time; ma_cancelled : bool; ma_increment : answer; ma_insert : answer; ma_remove : answer; ma_clear : answer;
  ma_settings : result string bool; ma_cache : uuid → result string TransactionRouteCache;
  ma_newID : nat → result string string; ma_broker : answer; ma_database : answer; ma_cleanup : cleanup }.

(** Without a repository nothing happens. *)
Definition quarantinePoisonRecord (configured : bool) (an : message_answers) (key : string)
    (organizationID ledgerID transactionID : uuid) (payload : queue_message) (reason : string) (s : backup) : backup :=
  if negb configured then s else
  match IncrementBackupAttempt (ma_increment an) key s with
  | (s1, Err _) => s1
  | (s1, Ok attempts) =>
      if attempts <? QuarantineThreshold then s1 else
      let record := mkQuarantine organizationID ledgerID transactionID key payload reason attempts (ma_now an) in
      match Quarantine_Insert (ma_insert an) record s1 with
      | (s2, Err _) => s2
      | (s2, Ok _) =>
          match RemoveMessageFromQueue (ma_remove an) key s2 with
          | (s3, Err _) => s3
          | (s3, Ok _) => (ClearBackupAttempt (ma_clear an) key s3).1
          end
      end
  end.

(** The first three segments of the key that are UUIDs. *)
Definition parsePoisonKeyIDs (key : string) : option (uuid * uuid * uuid) :=
  match omap uuid_Parse (strings_Split colon key) with
  | o :: l :: t :: _ => Some (o, l, t)
  | _ => None
  end.

(** *** One message *)

(** A balance of an entry, without direction, overdraft and settings. *)
Definition replay_balance (organizationID ledgerID : uuid) (b : BalanceRedis) : MBalance :=
  mkMBalance (br_ID b) (uuid_String organizationID) (uuid_String ledgerID) (br_AccountID b) (br_Alias b)
    (if bool_decide (br_Key b = "") then DefaultBalanceKey else br_Key b) (br_AssetCode b) (br_Available b)
    (br_OnHold b) (br_Version b) (br_AccountType b) (br_AllowSending b =? 1) (br_AllowReceiving b =? 1)
    DirectionEmpty dzero None 0 0 None ∅.

Definition nil_uuid_text : string := "00000000-0000-0000-0000-000000000000".

(** The route of the transaction, its UUID or else the old field. *)
Definition replay_route (v : Responses) : option uuid :=
  let id := match resp_TransactionRouteID v with
            | Some r => if IsNilOrEmpty r then None else Some r
            | None => None
            end in
  let text := match id with
              | Some r => Some r
              | None => if bool_decide (resp_TransactionRoute v = "") then None else Some (resp_TransactionRoute v)
              end in
  match text ≫= uuid_Parse with
  | Some u => if bool_decide (uuid_String u = nil_uuid_text) then None else Some u
  | None => None
  end.

Definition replay_action (m : TransactionRedisQueue) : option Action :=
  match tq_Action m with
  | Some a => Some a
  | None =>
      match tq_TransactionStatus m with
      | PENDING => Some ActionHold
      | APPROVED => Some ActionCommit
      | CANCELED => Some ActionCancel
      | NOTED => Some ActionDirect
      | _ => None
      end
  end.

Definition replay_entity (now : Time) (m : TransactionRedisQueue) (v : Responses) (ops : list Operation) : TransactionEntity :=
  let input := tq_TransactionInput m in
  let status := tq_TransactionStatus m in
  mkEntity (uuid_String (tq_TransactionID m)) None (tx_Description input) (mkStatus status (Some (status_text status)))
    (Some (send_Value (tx_Send input))) (send_Asset (tx_Send input)) (tx_ChartOfAccountsGroupName input)
    (resp_Sources v) (resp_Destinations v) (uuid_String (tq_LedgerID m)) (uuid_String (tq_OrganizationID m))
    zeroTransaction (tx_Route input) (tx_RouteID input) false false (tq_TransactionDate m) now None (tx_Metadata input) ops.

(** The operations of an entry: the stored ones, or rebuilt from its balances.  Without an
    action no accounting codes are looked up. *)
Definition replay_operations (an : message_answers) (m : TransactionRedisQueue) (v : Responses)
    : result bool (list Operation * Transaction) :=
  match tq_Operations m with
  | _ :: _ => Ok (OperationFromRedis <$> tq_Operations m, tq_TransactionInput m)
  | [] =>
      let input := tq_TransactionInput m in
      let status := tq_TransactionStatus m in
      let from := MutateConcatAliases (src_From (send_Source (tx_Send input))) in
      let to := MutateConcatAliases (dst_To (send_Distribute (tx_Send input))) in
      let input := set_entries from to input in
      let fromTo := from ++ (if bool_decide (status = PENDING ∨ status = CANCELED) then [] else to) in
      match ma_settings an with
      | Err _ => Err true
      | Ok routes =>
          let cache := if routes : bool then
                         match replay_route v with
                         | Some u => match ma_cache an u with Ok c => Some c | Err _ => None end
                         | None => None
                         end
                       else None in
          let '(cache, action) := match replay_action m with Some a => (cache, a) | None => (None, ActionDirect) end in
          let balances := replay_balance (tq_OrganizationID m) (tq_LedgerID m) <$> tq_Balances m in
          match BuildOperations balances [] fromTo input (uuid_String (tq_TransactionID m)) v (tq_TransactionDate m)
                  (bool_decide (status = NOTED)) routes cache action (ma_newID an) with
          | Err _ => Err false
          | Ok (ops, _) => Ok (ops, input)
          end
      end
  end.

Definition processMessage (configured : bool) (an : message_answers) (key : string) (m : TransactionRedisQueue) (s : backup) : backup :=
  if ma_cancelled an then s else
  let poison reason := quarantinePoisonRecord configured an key (tq_OrganizationID m) (tq_LedgerID m) (tq_TransactionID m)
                         (Message m) reason s in
  match tq_Validate m with
  | None => poison "nil_validate"
  | Some v =>
      match replay_operations an m v with
      | Err true => poison "ledger_settings_fetch_failure"
      | Err false => s
      | Ok (ops, input) =>
          match WriteTransactionAsync (ma_broker an) (ma_database an) (ma_cleanup an) (tq_OrganizationID m) (tq_LedgerID m)
                  (sanitized input) v (replay_entity (ma_now an) m v ops) s with
          | (s', Err _) => s'
          | (s', Ok _) => (ClearBackupAttempt (ma_clear an) key s').1
          end
      end
  end.

(** *** One cycle *)

Definition MessageTimeOfLife : Z := 30.
Definition unix (t : Time) : Z := t / Second.
Definition too_young (now : Time) (m : TransactionRedisQueue) : bool :=
  unix (now - MessageTimeOfLife * Minute) <? unix (tq_TTL m).

Definition consume_message (configured : bool) (an : message_answers) (x : string * queue_message) (s : backup) : backup :=
  let '(key, message) := x in
  match message with
  | Undecodable raw =>
      match parsePoisonKeyIDs key with
      | None => s
      | Some (o, l, t) => quarantinePoisonRecord configured an key o l t message "unmarshal_failure" s
      end
  | Message m => if too_young (ma_now an) m then s else processMessage configured an key m s
  end.

(** [readMessagesAndProcess]: the messages in the order Go visits them; the goroutines of
    different keys do not interfere. *)
Record cycle := mkCycle {
  cy_locked : bool; cy_read : bool; cy_configured : bool;
  cy_order : list string; cy_answers : string → message_answers }.

Definition executeCycle (c : cycle) (s : backup) : backup :=
  if negb (cy_locked c) || negb (cy_read c) then s else
  fold_left (λ s' key, match bk_queue s !! key with
                       | Some m => consume_message (cy_configured c) (cy_answers c key) (key, m) s'
                       | None => s'
                       end) (cy_order c) s.

Definition run_cycles (cs : list cycle) (s : backup) : backup := fold_left (λ s c, executeCycle c s) cs s.

(** What happens to the queue between the requests: a cycle, or a consumer of the broker, in
    this or another process, stores a payload and cleans up. *)
Inductive queue_event :=
  | Cycle (c : cycle)
  | Consumed (cu : cleanup) (organizationID ledgerID : uuid) (p : TransactionProcessingPayload).
Definition run_event (s : backup) (e : queue_event) : backup :=
  match e with
  | Cycle c => executeCycle c s
  | Consumed cu o l p =>
      match pl_Transaction p with
      | Some tran => store_payload cu o l p tran s
      | None => s
      end
  end.
Definition run_events (es : list queue_event) (s : backup) : backup := fold_left run_event es s.

End Backup.

(** ** Records that cannot be replayed *)

Section Poison.
Context {D : DecimalLib} {DT : DecimalText} {U : UuidLib} {UP : UuidParse} {C : LibCommons}.
Context (tenantKey : string → string).
Implicit Types (s : backup) (an : message_answers) (key : string) (c : cycle).

(** What the consumer keeps of a field of the queue: the queue, the count of failures and
    the quarantine. *)
Definition field_view (k : string) s : option queue_message * option Z * option QuarantineRecord :=
  (bk_queue s !! k, bk_attempts s !! k, bk_quarantine s !! k).

(** Storing a payload touches only the field of its transaction. *)
Lemma store_view k cu o l p t s : tenantKey (TransactionInternalKey o l (tr_ID t)) ≠ k →
  field_view k (store_payload tenantKey cu o l p t s) = field_view k s.
Proof.
  intros Hk. unfold store_payload, remove_confirmed, RemoveMessageFromQueue, field_view.
  assert (∀ x, bk_queue (hand_on ToDatabase p s) !! x = bk_queue s !! x) as Hq by done.
  repeat case_match; destruct (cu_remove cu); cbn; rewrite ?lookup_delete_ne by done; done.
Qed.

Lemma write_view k a b cu o l input v t s : tenantKey (TransactionInternalKey o l (tr_ID t)) ≠ k →
  field_view k (WriteTransactionAsync tenantKey a b cu o l input v t s).1 = field_view k s.
Proof. intros Hk. destruct a, b; cbn [WriteTransactionAsync attempt fst]; try done; by rewrite store_view. Qed.

(** A field is only touched through its own key. *)
Definition apart (k key : string) : Prop := key ≠ k ∧ tenantKey key ≠ k.

Lemma clear_view k a key s : apart k key → field_view k (ClearBackupAttempt tenantKey a key s).1 = field_view k s.
Proof. intros [_ ?]. unfold field_view. by destruct a; cbn; rewrite ?lookup_delete_ne. Qed.

Lemma quarantine_view k configured an key o l t payload reason s : apart k key →
  field_view k (quarantinePoisonRecord tenantKey configured an key o l t payload reason s) = field_view k s.
Proof.
  intros [Hk Ht]. unfold quarantinePoisonRecord, IncrementBackupAttempt, Quarantine_Insert, RemoveMessageFromQueue, ClearBackupAttempt.
  destruct configured; [|done]. cbn [negb].
  destruct (ma_increment an); cbn [attempt]; [|done|unfold field_view; cbn; by rewrite lookup_insert_ne].
  destruct (_ <? _); [unfold field_view; cbn; by rewrite lookup_insert_ne|]. cbn [qr_RedisKey].
  destruct (bk_quarantine _ !! key); destruct (ma_insert an); cbn [attempt];
    try (destruct (ma_remove an); cbn [attempt]); try (destruct (ma_clear an); cbn [attempt]);
    unfold field_view; cbn; rewrite ?lookup_delete_ne, ?lookup_insert_ne by done; done.
Qed.

(** The field of the transaction of an entry. *)
Definition message_field (m : queue_message) : option string :=
  match m with
  | Message q => Some (tenantKey (TransactionInternalKey (tq_OrganizationID q) (tq_LedgerID q) (uuid_String (tq_TransactionID q))))
  | Undecodable _ => None
  end.

Lemma consume_view k configured an key m s : apart k key → message_field m ≠ Some k →
  field_view k (consume_message tenantKey configured an (key, m) s) = field_view k s.
Proof.
  intros Hk Hf. destruct m as [m|raw]; cbn [consume_message].
  - destruct (too_young _ _); [done|]. unfold processMessage. destruct (ma_cancelled an); [done|].
    destruct (tq_Validate m) as [v|]; [|by apply quarantine_view].
    destruct (replay_operations an m v) as [[ops input]|[]]; [|by apply quarantine_view|done].
    match goal with |- context [WriteTransactionAsync ?x1 ?x2 ?x3 ?x4 ?x5 ?x6 ?x7 ?x8 ?x9 ?y] =>
      pose proof (write_view k x2 x3 x4 x5 x6 x7 x8 x9 y) as Hw end.
    destruct (WriteTransactionAsync _ _ _ _ _ _ _ _ _ _) as [s' [[]|]];
      (specialize (Hw ltac:(cbn in *; congruence)); cbn in Hw); [|done]. by rewrite clear_view.
  - destruct (parsePoisonKeyIDs key) as [[[o l] t]|]; [by apply quarantine_view|done].
Qed.

(** A payload about the transaction of a field has been stored in the database. *)
Definition persisted (k : string) s : Prop :=
  ∃ p t o l, (ToDatabase, p) ∈ bk_out s ∧ pl_Transaction p = Some t ∧
    tenantKey (TransactionInternalKey o l (tr_ID t)) = k.

(** The record is in the queue, or in the quarantine, or it is stored. *)
Definition safe_copy (k : string) (m : queue_message) s : Prop :=
  (bk_queue s !! k = Some m ∧ bk_quarantine s !! k = None) ∨
  (∃ r, bk_quarantine s !! k = Some r ∧ qr_Payload r = m) ∨ persisted k s.

Lemma safe_view k m s s' : field_view k s' = field_view k s → bk_out s ⊆ bk_out s' → safe_copy k m s → safe_copy k m s'.
Proof.
  unfold field_view, safe_copy. intros [= Hq _ Hr] Ho. rewrite Hq, Hr. intros [?|[?|(p & t & o & l & ? & ? & ?)]]; [by left|by right; left|].
  right. right. exists p, t, o, l. split_and!; [set_solver|done..].
Qed.

Lemma store_out cu o l p t s : bk_out (store_payload tenantKey cu o l p t s) = bk_out s ++ [(ToDatabase, p)].
Proof.
  unfold store_payload, remove_confirmed, RemoveMessageFromQueue. repeat case_match; by destruct (cu_remove cu).
Qed.

Lemma store_safe k m cu o l p t s : pl_Transaction p = Some t → safe_copy k m s →
  safe_copy k m (store_payload tenantKey cu o l p t s).
Proof.
  intros Hp Hs. destruct (decide (tenantKey (TransactionInternalKey o l (tr_ID t)) = k)) as [Hk|Hk].
  - right. right. exists p, t, o, l. split_and!; [rewrite store_out; set_solver|done..].
  - eapply safe_view; [by apply store_view|rewrite store_out; set_solver|done].
Qed.

Lemma hand_on_safe k m r p s : safe_copy k m s → safe_copy k m (hand_on r p s).
Proof. apply safe_view; [done|cbn; set_solver]. Qed.

Lemma write_safe k m a b cu o l input v t s : safe_copy k m s →
  safe_copy k m (WriteTransactionAsync tenantKey a b cu o l input v t s).1.
Proof.
  intros Hs. destruct a, b; cbn [WriteTransactionAsync attempt fst]; try done;
    try apply store_safe; try done; repeat apply hand_on_safe; done.
Qed.

Lemma clear_safe k m a key s : safe_copy k m s → safe_copy k m (ClearBackupAttempt tenantKey a key s).1.
Proof. by destruct a. Qed.

(** The queue of the consumer only shrinks. *)
Lemma quarantine_safe k configured an o l t m reason s : safe_copy k m s →
  safe_copy k m (quarantinePoisonRecord tenantKey configured an k o l t m reason s).
Proof.
  intros Hs. unfold quarantinePoisonRecord, IncrementBackupAttempt, Quarantine_Insert, RemoveMessageFromQueue, ClearBackupAttempt.
  destruct configured; [|done]. cbn [negb]. destruct (ma_increment an); cbn [attempt]; [|done|exact Hs].
  destruct (_ <? _); [exact Hs|]. cbn [qr_RedisKey]. cbn [bk_quarantine set_attempts].
  destruct (bk_quarantine s !! k) as [r|] eqn:Eq.
  - destruct Hs as [[_ Hq]|[(r' & Er & Hp)|Hs]]; [congruence|simplify_eq|];
      destruct (ma_insert an), (ma_remove an), (ma_clear an); cbn [attempt fst]; right;
      solve [left; exists r'; done | right; exact Hs].
  - destruct Hs as [[Hq _]|[(r' & Er & _)|Hs]]; [|congruence|];
      destruct (ma_insert an), (ma_remove an), (ma_clear an); cbn [attempt fst];
      first [by left | right; right; exact Hs | right; left; eexists; split; [apply lookup_insert_eq|done]].
Qed.

Lemma quarantine_out configured an key o l t payload reason s :
  bk_out (quarantinePoisonRecord tenantKey configured an key o l t payload reason s) = bk_out s.
Proof.
  unfold quarantinePoisonRecord, IncrementBackupAttempt, Quarantine_Insert, RemoveMessageFromQueue, ClearBackupAttempt.
  destruct configured; [|done]. cbn [negb]. destruct (ma_increment an); cbn [attempt]; [|done|done].
  destruct (_ <? _); [done|]. cbn [qr_RedisKey].
  destruct (bk_quarantine _ !! key); by destruct (ma_insert an), (ma_remove an), (ma_clear an).
Qed.

(** The visit of another key, or of the message's own. *)
Lemma consume_safe k m configured an key m' s : (key = k → m' = m) → (tenantKey key = k → key = k) → safe_copy k m s →
  safe_copy k m (consume_message tenantKey configured an (key, m') s).
Proof.
  intros Hm Ho Hs.
  assert (∀ o l t reason, safe_copy k m (quarantinePoisonRecord tenantKey configured an key o l t m' reason s)) as Hq.
  { intros o l t reason. destruct (decide (key = k)) as [->|Hne]; [rewrite Hm by done; by apply quarantine_safe|].
    eapply safe_view; [apply quarantine_view|by rewrite quarantine_out|done]. split; [done|]. intros ?. by apply Hne, Ho. }
  destruct m' as [q|raw]; cbn [consume_message].
  - destruct (too_young _ _); [done|]. unfold processMessage. destruct (ma_cancelled an); [done|].
    destruct (tq_Validate q) as [v|]; [|apply Hq].
    destruct (replay_operations an q v) as [[ops input]|[]]; [|apply Hq|done].
    match goal with |- context [WriteTransactionAsync ?x1 ?x2 ?x3 ?x4 ?x5 ?x6 ?x7 ?x8 ?x9 ?y] =>
      pose proof (write_safe k m x2 x3 x4 x5 x6 x7 x8 x9 y Hs) as Hw end.
    destruct (WriteTransactionAsync _ _ _ _ _ _ _ _ _ _) as [s' [[]|]]; [by apply clear_safe|done].
  - destruct (parsePoisonKeyIDs key) as [[[o l] t]|]; [apply Hq|done].
Qed.

Lemma store_shrinks cu o l p t s : bk_queue (store_payload tenantKey cu o l p t s) ⊆ bk_queue s.
Proof.
  unfold store_payload, remove_confirmed, RemoveMessageFromQueue.
  repeat case_match; destruct (cu_remove cu); cbn; try done; apply delete_subseteq.
Qed.

(** Whatever happens, the queue only loses fields. *)
Lemma quarantine_shrinks configured an key o l t payload reason s :
  bk_queue (quarantinePoisonRecord tenantKey configured an key o l t payload reason s) ⊆ bk_queue s.
Proof.
  unfold quarantinePoisonRecord, IncrementBackupAttempt, Quarantine_Insert, RemoveMessageFromQueue, ClearBackupAttempt.
  destruct configured; [|done]. cbn [negb]. destruct (ma_increment an); cbn [attempt]; [|done|done].
  destruct (_ <? _); [done|]. cbn [qr_RedisKey].
  destruct (bk_quarantine _ !! key), (ma_insert an); cbn [attempt]; try done;
    destruct (ma_remove an); cbn [attempt]; try done; try (destruct (ma_clear an)); cbn; apply delete_subseteq.
Qed.

Lemma consume_shrinks configured an x s : bk_queue (consume_message tenantKey configured an x s) ⊆ bk_queue s.
Proof.
  destruct x as [key [m|raw]]; cbn [consume_message].
  - destruct (too_young _ _); [done|]. unfold processMessage. destruct (ma_cancelled an); [done|].
    destruct (tq_Validate m) as [v|]; [|apply quarantine_shrinks].
    destruct (replay_operations an m v) as [[ops input]|[]]; [|apply quarantine_shrinks|done].
    unfold WriteTransactionAsync. destruct (ma_broker an), (ma_database an), (ma_clear an); cbn; try done;
      (etrans; [apply store_shrinks|done]).
  - destruct (parsePoisonKeyIDs key) as [[[o l] t]|]; [apply quarantine_shrinks|done].
Qed.

(** The messages of a cycle, one after the other. *)
Definition visit c (seen : gmap string queue_message) (order : list string) s : backup :=
  fold_left (λ s' key, match seen !! key with
                       | Some m => consume_message tenantKey (cy_configured c) (cy_answers c key) (key, m) s'
                       | None => s'
                       end) order s.

Lemma executeCycle_visit c s : executeCycle tenantKey c s =
  if negb (cy_locked c) || negb (cy_read c) then s else visit c (bk_queue s) (cy_order c) s.
Proof. done. Qed.

Lemma visit_shrinks c seen order s : bk_queue (visit c seen order s) ⊆ bk_queue s.
Proof.
  revert s. induction order as [|key order IH]; intros s; [done|]. cbn [visit fold_left]. etrans; [apply IH|].
  destruct (seen !! key); [apply consume_shrinks|done].
Qed.

Lemma cycle_shrinks c s : bk_queue (executeCycle tenantKey c s) ⊆ bk_queue s.
Proof. rewrite executeCycle_visit. destruct (_ || _); [done|apply visit_shrinks]. Qed.

(** The keys of other fields do not lead to this one, and neither do their transactions. *)
Definition own_field (k : string) s : Prop := ∀ key, is_Some (bk_queue s !! key) → tenantKey key = k → key = k.
Definition own_entry (k : string) s : Prop :=
  ∀ key m, bk_queue s !! key = Some m → key ≠ k → tenantKey key ≠ k ∧ message_field m ≠ Some k.

(** Only the visit of its own key touches a field. *)
Lemma visit_view k c s0 order s : own_entry k s0 → k ∉ order →
  field_view k (visit c (bk_queue s0) order s) = field_view k s.
Proof.
  intros Ho. revert s. induction order as [|key order IH]; intros s Hk; [done|].
  apply not_elem_of_cons in Hk as [Hne Hk]. cbn [visit fold_left]. etrans; [by apply IH|].
  destruct (bk_queue s0 !! key) as [m|] eqn:E; [|done]. destruct (Ho _ _ E) as [? ?]; [done|]. by apply consume_view.
Qed.

Lemma visit_safe k m c s0 order s : own_field k s0 → (∀ m', bk_queue s0 !! k = Some m' → m' = m) →
  safe_copy k m s → safe_copy k m (visit c (bk_queue s0) order s).
Proof.
  intros Ho Hm. revert s. induction order as [|key order IH]; intros s Hs; [done|]. cbn [visit fold_left]. apply IH.
  destruct (bk_queue s0 !! key) as [m'|] eqn:E; [|done]. apply consume_safe; [|by apply Ho; eexists|done].
  intros ->. by apply Hm.
Qed.

(** The keys of other fields keep away from this one as the queue shrinks. *)
Lemma own_shrinks k s s' : bk_queue s' ⊆ bk_queue s → own_field k s → own_field k s'.
Proof. intros Hs Ho key [m Hm] Hk. apply Ho; [|done]. exists m. by eapply lookup_weaken. Qed.
Lemma own_entry_shrinks k s s' : bk_queue s' ⊆ bk_queue s → own_entry k s → own_entry k s'.
Proof. intros Hs Ho key m Hm. apply Ho. by eapply lookup_weaken. Qed.

Lemma event_shrinks e s : bk_queue (run_event tenantKey s e) ⊆ bk_queue s.
Proof. destruct e as [c|cu o l p]; cbn; [apply cycle_shrinks|]. destruct (pl_Transaction p); [apply store_shrinks|done]. Qed.

Lemma event_safe k m e s : own_field k s → (∀ m', bk_queue s !! k = Some m' → m' = m) →
  safe_copy k m s → safe_copy k m (run_event tenantKey s e).
Proof.
  intros Ho Hm Hs. destruct e as [c|cu o l p]; cbn [run_event].
  - rewrite executeCycle_visit. destruct (_ || _); [done|]. by apply visit_safe.
  - destruct (pl_Transaction p) as [t|] eqn:Ep; [by apply store_safe|done].
Qed.

(** C37: A message the queue holds is not lost through any cycles of the consumer and any
    payloads that consumers of the broker store meanwhile, whatever fails in them: it is
    still in the queue, or its payload is in the quarantine, or a payload about its
    transaction has been stored in the database.  The quarantine has no earlier record of
    the same key ([later_stage_is_lost] shows what happens to another one), no other field of
    the queue leads to this one when the prefix of the tenant is added to it, and no request
    writes the entry anew. *)
Theorem poison_never_lost k m es s : bk_queue s !! k = Some m → bk_quarantine s !! k = None → own_field k s →
  let s' := run_events tenantKey es s in
  bk_queue s' !! k = Some m ∨ (∃ r, bk_quarantine s' !! k = Some r ∧ qr_Payload r = m) ∨ persisted k s'.
Proof.
  intros Hm Hq Ho s'. assert (safe_copy k m s') as [[? _]|?]; [|by left|by right]. unfold s'. clear s'.
  assert (∀ m', bk_queue s !! k = Some m' → m' = m) as Hu by naive_solver.
  assert (safe_copy k m s) as Hs by by left.
  clear Hm Hq. revert s Ho Hu Hs. induction es as [|e es IH]; intros s Ho Hu Hs; [done|]. cbn.
  apply IH; [eapply own_shrinks; [apply event_shrinks|done]| |by apply event_safe].
  intros m' H. apply Hu. eapply lookup_weaken; [exact H|apply event_shrinks].
Qed.

(** A message that cannot be replayed in a cycle. *)
Definition poisoned an (k : string) (m : queue_message) : Prop :=
  match m with
  | Undecodable _ => is_Some (parsePoisonKeyIDs k)
  | Message q => ma_cancelled an = false ∧ too_young (ma_now an) q = false ∧
                 match tq_Validate q with
                 | None => True
                 | Some v => replay_operations an q v = Err true
                 end
  end.

(** A cycle that reaches a field and whose calls for it succeed. *)
Definition healthy (k : string) c : Prop :=
  cy_locked c = true ∧ cy_read c = true ∧ cy_configured c = true ∧ k ∈ cy_order c ∧ NoDup (cy_order c) ∧
  let an := cy_answers c k in
  ma_increment an = Answered ∧ ma_insert an = Answered ∧ ma_remove an = Answered ∧ ma_clear an = Answered.

Definition quarantined (k : string) (m : queue_message) s : Prop :=
  bk_queue s !! k = None ∧ ∃ r, bk_quarantine s !! k = Some r ∧ qr_Payload r = m ∧ QuarantineThreshold ≤ qr_Attempts r.

(** The failures counted so far. *)
Definition failures (k : string) s : Z := default 0 (bk_attempts s !! k).
Definition waiting (k : string) (m : queue_message) (n : Z) s : Prop :=
  bk_queue s !! k = Some m ∧ bk_quarantine s !! k = None ∧ failures k s = n.

Lemma waiting_view k m n s s' : field_view k s' = field_view k s → waiting k m n s → waiting k m n s'.
Proof. unfold field_view, waiting, failures. intros [= Hq Ha Hr]. by rewrite Hq, Ha, Hr. Qed.

Lemma quarantined_view k m s s' : field_view k s' = field_view k s → quarantined k m s → quarantined k m s'.
Proof. unfold field_view, quarantined. intros [= Hq _ Hr]. by rewrite Hq, Hr. Qed.

(** One more failure: the count grows, and the third one moves the record. *)
Lemma quarantine_step k an o l t m reason n s : tenantKey k = k →
  ma_increment an = Answered → ma_insert an = Answered → ma_remove an = Answered → ma_clear an = Answered →
  waiting k m n s → let s' := quarantinePoisonRecord tenantKey true an k o l t m reason s in
  if n + 1 <? QuarantineThreshold then waiting k m (n + 1) s' else quarantined k m s'.
Proof.
  intros Hk Hi Hn Hr Hc (Hq & Hz & Hf). unfold quarantinePoisonRecord, IncrementBackupAttempt, Quarantine_Insert,
    RemoveMessageFromQueue, ClearBackupAttempt. rewrite Hi, Hn, Hr, Hc, Hk. cbn -[Z.ltb QuarantineThreshold].
  fold (failures k s). rewrite Hf. destruct (_ <? _) eqn:E; cbn.
  - split; [done|]. split; [done|]. unfold failures. cbn. by rewrite lookup_insert_eq.
  - rewrite Hz. cbn. split; [apply lookup_delete_eq|]. eexists. split; [apply lookup_insert_eq|]. split; [done|]. cbn. lia.
Qed.

Lemma consume_step k c m n s : tenantKey k = k → healthy k c → poisoned (cy_answers c k) k m → waiting k m n s →
  let s' := consume_message tenantKey true (cy_answers c k) (k, m) s in
  if n + 1 <? QuarantineThreshold then waiting k m (n + 1) s' else quarantined k m s'.
Proof.
  intros Hk (_ & _ & _ & _ & _ & Hi & Hn & Hr & Hc) Hp Hw. destruct m as [q|raw]; cbn [consume_message].
  - destruct Hp as (Hx & Hy & Hp). rewrite Hy. unfold processMessage. rewrite Hx.
    destruct (tq_Validate q) as [v|]; [rewrite Hp|]; by apply quarantine_step.
  - destruct Hp as [[[o l] t] Hp]. rewrite Hp. by apply quarantine_step.
Qed.

Lemma visit_split c seen l1 k l2 s : visit c seen (l1 ++ k :: l2) s = visit c seen l2 (visit c seen [k] (visit c seen l1 s)).
Proof. unfold visit. by rewrite fold_left_app. Qed.

Lemma cycle_step k c m n s : tenantKey k = k → own_entry k s → healthy k c → poisoned (cy_answers c k) k m → waiting k m n s →
  let s' := executeCycle tenantKey c s in
  if n + 1 <? QuarantineThreshold then waiting k m (n + 1) s' else quarantined k m s'.
Proof.
  intros Hk Ho Hh Hp Hw s'. pose proof Hh as (Hlk & Hrd & Hcf & Hin & Hnd & Ha).
  unfold s'. rewrite executeCycle_visit, Hlk, Hrd. cbn [negb orb].
  apply list_elem_of_split in Hin as (l1 & l2 & El). rewrite El in Hnd |- *.
  apply NoDup_app in Hnd as (_ & Hd & Hnd). apply NoDup_cons in Hnd as [Hnd _].
  rewrite visit_split. set (s1 := visit c (bk_queue s) l1 s).
  assert (waiting k m n s1) as Hw1.
  { eapply waiting_view; [apply visit_view; [exact Ho|]|exact Hw]. intros Hx. apply (Hd k Hx). by left. }
  pose proof (consume_step k c m n s1 Hk Hh Hp Hw1) as Hc. destruct Hw as (Hq & _ & _).
  cbn [visit fold_left]. rewrite Hq, Hcf.
  pose proof (λ x, visit_view k c s l2 x Ho Hnd) as Hv. cbn zeta in Hc.
  destruct (_ <? _); [eapply waiting_view|eapply quarantined_view]; try exact Hc; apply Hv.
Qed.

(** A quarantined record is not touched again. *)
Lemma cycle_quarantined k c m s : own_entry k s → quarantined k m s → quarantined k m (executeCycle tenantKey c s).
Proof.
  intros Ho Hq. rewrite executeCycle_visit. destruct (_ || _); [done|]. pose proof (proj1 Hq) as Hn.
  assert (∀ order s1, quarantined k m s1 → quarantined k m (visit c (bk_queue s) order s1)) as H; [|by apply H].
  induction order as [|key order IH]; intros s1 H1; [done|]. cbn [visit fold_left]. apply IH.
  destruct (bk_queue s !! key) as [m'|] eqn:E; [|done]. 
  assert (key ≠ k) as Hne by congruence. destruct (Ho _ _ E Hne) as [? ?]. eapply quarantined_view; [by apply consume_view|done].
Qed.

(** A message that cannot be replayed leaves the queue for the quarantine: three cycles
    that reach it suffice, counted over its earlier failures. *)
Theorem poison_quarantined k m cs s : tenantKey k = k → bk_queue s !! k = Some m → bk_quarantine s !! k = None →
  own_entry k s → Forall (λ c, healthy k c ∧ poisoned (cy_answers c k) k m) cs →
  QuarantineThreshold ≤ failures k s + Z.of_nat (length cs) → (1 ≤ length cs)%nat →
  quarantined k m (run_cycles tenantKey cs s).
Proof.
  intros Hk Hm Hz Ho Hcs Hn Hl. assert (waiting k m (failures k s) s) as Hw by done.
  clear Hm Hz. revert Hn Hw. generalize (failures k s). revert s Ho Hl.
  induction Hcs as [|c cs [Hh Hp] _ IH]; intros s Ho Hl n Hn Hw; [cbn in Hl; lia|].
  pose proof (cycle_step k c m n s Hk Ho Hh Hp Hw) as Hc. cbn zeta in Hc. cbn [run_cycles fold_left].
  assert (own_entry k (executeCycle tenantKey c s)) as Ho' by (eapply own_entry_shrinks; [apply cycle_shrinks|done]).
  destruct (_ <? _) eqn:E.
  - apply Z.ltb_lt in E. unfold QuarantineThreshold in *. cbn [length] in Hn. refine (IH _ Ho' _ (n + 1) _ Hc); [destruct cs; cbn [length] in *; lia|lia].
  - clear -Hc Ho'. fold (run_cycles tenantKey cs (executeCycle tenantKey c s)).
    revert Hc Ho'. generalize (executeCycle tenantKey c s). induction cs as [|c' cs IH]; intros s1 Hc Ho; [done|].
    cbn. apply IH; [by apply cycle_quarantined|eapply own_entry_shrinks; [apply cycle_shrinks|done]].
Qed.

End Poison.

(** ** Recovered transactions *)

(** *** Bare aliases *)

Section Aliases.
Context `{DecimalLib}.

Lemma split_char_free c s : contains_char c (split_char c s).1 = false ∧ Forall (λ x, contains_char c x = false) (split_char c s).2.
Proof.
  induction s as [|a s IH]; [by split|]. cbn. destruct (split_char c s) as [x l]. destruct IH as [Hx Hl].
  case_bool_decide as E; cbn in *; [by split; [|constructor]|]. rewrite Hx. by rewrite bool_decide_false.
Qed.

Lemma SplitAlias_bare alias : contains_char hash (SplitAlias alias) = false.
Proof.
  unfold SplitAlias. destruct (contains_char hash alias) eqn:E; [|done].
  destruct (split_char_free hash alias) as [Hx Hl]. unfold strings_Split.
  destruct (split_char hash alias) as [x l] eqn:Es. destruct l as [|y l]; [|by inversion Hl].
  pose proof (strings_Join_Split hash alias) as Hj. unfold strings_Split in Hj. rewrite Es in Hj. cbn in Hj. subst x. cbn in Hx. congruence.
Qed.

Lemma SplitAlias_id alias : contains_char hash alias = false → SplitAlias alias = alias.
Proof. unfold SplitAlias. by intros ->. Qed.

Lemma bare_not_concated alias : contains_char hash alias = false → isConcatedAlias alias = false.
Proof.
  intros Hb. unfold isConcatedAlias. destruct (_ <? _)%nat; [done|]. generalize 0%nat.
  induction alias as [|a alias IH]; [done|]. intros i. cbn in *. case_bool_decide; [done|]. destruct (is_digit a); [by apply IH|done].
Qed.

Lemma sanitize_bare entries : MutateSplitAliases (SanitizeAccountAliases entries) = SanitizeAccountAliases entries.
Proof.
  unfold MutateSplitAliases, SanitizeAccountAliases. rewrite map_map. apply map_ext. intros e. cbn.
  by rewrite bare_not_concated by apply SplitAlias_bare.
Qed.

Lemma sanitize_twice entries : SanitizeAccountAliases (SanitizeAccountAliases entries) = SanitizeAccountAliases entries.
Proof.
  unfold SanitizeAccountAliases. rewrite <- list_fmap_compose. apply list_fmap_ext. intros _ e _.
  unfold FromTo_SplitAlias, set_ft_AccountAlias. cbn [ft_AccountAlias compose]. f_equal. apply SplitAlias_id, SplitAlias_bare.
Qed.

Lemma sanitized_twice input : sanitized (sanitized input) = sanitized input.
Proof. unfold sanitized, set_entries. cbn -[SanitizeAccountAliases]. by rewrite !sanitize_twice. Qed.

End Aliases.

(** *** Operations *)

Section RoundTrip.
Context {D : DecimalLib} {DT : DecimalText} {C : LibCommons} {DL : DecimalLaws} {TL : DecimalTextLaws}.
Implicit Types (op : Operation) (s : string).

(** A text states an amount, and a record states its amount and its overdraft. *)
Definition states s (d : dec) : Prop := s = dstring d ∨ s = "0" ∧ d = dzero.
Definition states_overdraft op : Prop :=
  is_Some (op_Amount op) ∧ states (sn_Before (op_Snapshot op)) (ob_OverdraftUsed (op_Balance op)) ∧
  states (sn_After (op_Snapshot op)) (ob_OverdraftUsed (op_BalanceAfter op)).

(** Equal records, up to the representation of the overdraft. *)
Definition same_operation op op' : Prop :=
  op = with_overdraft op' (op_Snapshot op') (ob_OverdraftUsed (op_Balance op)) (ob_OverdraftUsed (op_BalanceAfter op)) ∧
  (ob_OverdraftUsed (op_Balance op) ≡d ob_OverdraftUsed (op_Balance op')) ∧
  (ob_OverdraftUsed (op_BalanceAfter op) ≡d ob_OverdraftUsed (op_BalanceAfter op')).

Lemma repr_zero : repr 0 "0" 0.
Proof. apply (repr_pos 0 [0] []); [|cbn; lia]. split_and!; [done|repeat constructor; lia|constructor]. Qed.

Lemma parse_states s d : states s d → or_zero s = s ∧ (parseDecimalOrZero s ≡d d).
Proof.
  unfold or_zero, parseDecimalOrZero. intros [->|[-> ->]].
  - destruct (parse_dstring d) as (d' & E & Hd). rewrite E. split; [|done].
    rewrite bool_decide_false; [done|]. intros Hs. by rewrite Hs, dparse_empty in E.
  - split; [done|]. destruct (dparse_repr 0 "0" 0 repr_zero) as (d & E & Hd). rewrite E. cbn.
    unfold dec_eq. rewrite Hd, dval_zero. reflexivity.
Qed.

Lemma operation_round_trip op : states_overdraft op → same_operation (OperationFromRedis (ToRedis op)) op.
Proof.
  intros ([amount Ha] & Hb & Hc). apply parse_states in Hb as [Eb Hb], Hc as [Ec Hc].
  unfold same_operation, OperationFromRedis, ToRedis. cbn. rewrite Eb, Ec, Ha. cbn. split; [|done].
  unfold with_overdraft. rewrite Ha. clear. by destruct (op_Snapshot op).
Qed.

Lemma operations_round_trip ops : Forall states_overdraft ops →
  Forall2 same_operation (OperationFromRedis <$> (ToRedis <$> ops)) ops.
Proof. induction 1 as [|op ops Hop _ IH]; [done|]. cbn. constructor; [by apply operation_round_trip|done]. Qed.

(** **** Records as they are built *)

Lemma stamp_standard_states an blc after op : is_Some (op_Amount op) → states_overdraft (stamp_standard an blc after op).
Proof.
  intros Ha. unfold stamp_standard. destruct an; [by split; [|split; right]|].
  split; [done|]. split; [by left|]. destruct after; [by left|by right].
Qed.

Lemma stamp_pair_states an blc after op : an = true ∨ is_Some after → is_Some (op_Amount op) →
  states_overdraft (stamp_pair an blc after op).
Proof.
  intros Hor Ha. unfold stamp_pair. destruct an; [by split; [|split; right]|].
  destruct Hor as [|[a ->]]; [done|]. split; [done|]. split; by left.
Qed.

Lemma propagate_states ops : Forall states_overdraft ops → Forall states_overdraft (propagateSnapshotToCompanions ops).
Proof.
  intros Ho. assert (∀ k p, primaryByAlias ops !! k = Some p → states_overdraft p) as Hp.
  { unfold primaryByAlias. assert (∀ k p, (∅ : gmap string Operation) !! k = Some p → states_overdraft p) as H0 by done.
    revert H0. generalize (∅ : gmap string Operation). induction Ho as [|op ops Hop _ IH]; intros m Hm; [done|].
    cbn. apply IH. case_bool_decide; [done|]. intros k p [[_ <-]|[_ Hl]]%lookup_insert_Some; [done|by eapply Hm]. }
  unfold propagateSnapshotToCompanions. apply Forall_fmap. eapply Forall_impl; [exact Ho|]. intros op (Ha & Hb & Hc). cbn.
  case_bool_decide; [|done]. cbn. destruct (primaryByAlias ops !! _) as [p|] eqn:E; [|done].
  destruct (Hp _ _ E) as (_ & ? & ?). by split.
Qed.

Lemma resolve_states ops cache action override : Forall states_overdraft ops →
  Forall states_overdraft (resolveRouteCodesFromCache ops cache action override).
Proof.
  intros Ho. unfold resolveRouteCodesFromCache. destruct cache as [c|]; [|done]. apply Forall_fmap.
  eapply Forall_impl; [exact Ho|]. intros op Hop. cbn. unfold resolve_one. by repeat case_match.
Qed.

(** The script's balance is known for every balance, or nothing moved. *)
Definition afters_known (isAnnotation : bool) (balances balancesAfter : list MBalance) : Prop :=
  isAnnotation = true ∨ ∀ b, b ∈ balances → is_Some (index_after balancesAfter !! after_key b).

Lemma build_step_states bi st x st' : bi_isAnnotation bi = true ∨ is_Some (bi_after bi !! after_key x.1) →
  build_step bi st x = Ok st' → Forall states_overdraft (bd_ops st) → Forall states_overdraft (bd_ops st').
Proof.
  destruct x as [blc [i ft]]. cbn [fst]. intros Hk. unfold build_step. destruct (negb _); [by intros [= <-]|].
  intros (txBal & _ & E)%rbind_Ok Ho. destruct (ValidateFromToOperation _ _ _) as [amt0 bat0].
  destruct (resolve_after bi blc amt0 bat0) as [[amt bat] after] eqn:Ea.
  apply resolve_after_spec in Ea as (-> & _ & _). destruct (is_pair bi ft amt).
  - destruct (bool_decide _); [by injection E as <-|].
    apply rbind_Ok in E as (id1 & _ & E). apply rbind_Ok in E as (id2 & _ & E). injection E as <-. cbn [bd_ops].
    apply Forall_app. split; [done|]. apply Forall_fmap, Forall_forall. intros op Hop. cbn. apply stamp_pair_states; [done|].
    revert Hop. unfold buildDoubleEntryPendingOps, buildDoubleEntryCanceledOps. destruct (bool_decide _).
    + destruct (if (0 <? bal_Version bat)%Z then _ else _) as [[[]]].
      intros [->|[->|[]%elem_of_nil]%elem_of_cons]%elem_of_cons; by eexists.
    + intros [->|[->|[]%elem_of_nil]%elem_of_cons]%elem_of_cons; by eexists.
  - apply rbind_Ok in E as (id & _ & E). injection E as <-. cbn [bd_ops]. apply Forall_app. split; [done|].
    constructor; [|constructor]. apply stamp_standard_states. by eexists.
Qed.

Lemma built_states balances balancesAfter fromTo input tranID validate date isAnnotation routes cache action newID ops pre :
  BuildOperations balances balancesAfter fromTo input tranID validate date isAnnotation routes cache action newID = Ok (ops, pre) →
  afters_known isAnnotation balances balancesAfter → Forall states_overdraft ops.
Proof.
  unfold BuildOperations. set (bi := mkBuildInput _ _ _ _ _ _ _ _). intros (st & E & H)%rbind_Ok Hk. injection H as <- _.
  apply resolve_states, propagate_states.
  assert (∀ x, x ∈ loop_pairs balances fromTo → bi_isAnnotation bi = true ∨ is_Some (bi_after bi !! after_key x.1)) as Hx.
  { intros [b y] (b' & Hy & Hb)%list_elem_of_bind. apply list_elem_of_fmap in Hy as (? & [= -> _] & _). cbn.
    destruct Hk as [|Hk]; [by left|right; by apply Hk]. }
  assert (Forall states_overdraft (bd_ops (mkBuild [] [] ∅ 0))) as H0 by constructor.
  revert E H0 Hx. generalize (mkBuild [] [] ∅ 0). induction (loop_pairs balances fromTo) as [|x l IH]; intros st0 E H0 Hx.
  - by injection E as <-.
  - cbn in E. apply rbind_Ok in E as (st1 & E1 & E). eapply IH; [exact E| |intros y Hy; apply Hx; by right].
    eapply build_step_states; [apply Hx; by left|exact E1|done].
Qed.

End RoundTrip.

(** *** A transaction after a crash *)

Section Recovery.
Context {D : DecimalLib} {DT : DecimalText} {U : UuidLib} {UP : UuidParse} {C : LibCommons} {DL : DecimalLaws} {TL : DecimalTextLaws}.
Context (tenantKey : string → string).

(** The columns of a row the consumer rebuilds: not the parent, the skips and the time of
    the last update. *)
Definition rebuilt (r : TransactionPostgreSQLModel) : TransactionPostgreSQLModel :=
  mkTransactionRow (rw_ID r) None (rw_Description r) (rw_Status r) (rw_StatusDescription r) (rw_Amount r)
    (rw_AssetCode r) (rw_ChartOfAccountsGroupName r) (rw_LedgerID r) (rw_OrganizationID r) (rw_Body r)
    (rw_CreatedAt r) 0 (rw_DeletedAt r) (rw_Route r) (rw_RouteID r) false false.

(** The row a payload stores for a new transaction. *)
Definition stored_row (p : TransactionProcessingPayload) (t : TransactionEntity) : TransactionPostgreSQLModel :=
  FromEntity "" (prepared_entity p t).

(** What the handler had written when it stopped. *)
Lemma recorded_operations params an id date draft plan status action before after ops :
  UpdateBackup ops ∈ (record_transaction params an id date draft plan status action before after).1 →
  afters_known (bool_decide (status = NOTED)) before after →
  Forall states_overdraft ops ∧
  let input := sanitized (cd_input draft) in
  CreateWriteBehind (promoted input status (created_entity params id draft input (pl_validate plan) date (ca_now an) status ops))
    ∈ (record_transaction params an id date draft plan status action before after).1.
Proof.
  unfold record_transaction. rewrite !sanitize_bare. fold (sanitized (cd_input draft)).
  destruct (BuildOperations _ _ _ _ _ _ _ _ _ _ _ _) as [[ops' pre]|e] eqn:E; [|by intros []%elem_of_nil].
  intros Hin Hk. assert (ops = ops') as ->.
  { revert Hin. cbn. destruct (ca_write an); set_solver. }
  split; [by eapply built_states|]. cbn. destruct (ca_write an); cbn; right; left.
Qed.

(** The row only depends on the columns both entities share. *)
Lemma rebuilt_row params id draft input v v' date now now' status ops ops' m :
  tq_TransactionID m = id → tq_OrganizationID m = cp_organizationID params → tq_LedgerID m = cp_ledgerID params →
  tq_TransactionInput m = input → tq_TransactionStatus m = status → tq_TransactionDate m = date →
  let t := promoted input status (created_entity params id draft input v date now status ops) in
  let t' := replay_entity now' m v' ops' in
  rebuilt (stored_row (mkPayload (Some v') (Some t') input "v2") t') = rebuilt (stored_row (mkPayload (Some v) (Some t) input "v2") t).
Proof.
  destruct m. cbn [tq_TransactionID tq_OrganizationID tq_LedgerID tq_TransactionInput tq_TransactionStatus tq_TransactionDate].
  intros -> -> -> -> -> ->. by destruct status.
Qed.

Lemma seeded_entry now header o l id input v status action date s :
  (SendTransactionToRedisQueue tenantKey Answered now header o l id input v status action date None s).1 =
  set_queue (<[tenantKey (TransactionInternalKey o l (uuid_String id)) :=
    Message (mkQueueEntry header id o l [] [] (sanitized input) now (Some v) status (Some action) date [])]> (bk_queue s)) s.
Proof. done. Qed.

Lemma updated_entry o l id ops action m s : bk_queue s !! tenantKey (TransactionInternalKey o l id) = Some (Message m) →
  bk_queue (UpdateTransactionBackupOperations tenantKey Answered Answered o l id ops action s)
    !! tenantKey (TransactionInternalKey o l id) = Some (Message (with_operations (ToRedis <$> ops) action m)).
Proof.
  intros E. unfold UpdateTransactionBackupOperations, ReadMessageFromQueue. rewrite E. apply lookup_insert_eq.
Qed.

(** C9: A crash after the balances have moved loses no transaction.  From the entry the
    handler, the script and the update of the operations left in the queue, the consumer
    hands on a payload that stores the row the handler would have stored, in every column
    but the parent, the skips and the time of the last update, and the same operations. *)
Theorem recovery_restores params an id date draft plan status action before after header now blank b1 b2 ops s0 :
  let o := cp_organizationID params in
  let l := cp_ledgerID params in
  let key := TransactionInternalKey o l (uuid_String id) in
  let handler := (record_transaction params an id date draft plan status action before after).1 in
  let input := sanitized (cd_input draft) in
  UpdateBackup ops ∈ handler → ops ≠ [] → afters_known (bool_decide (status = NOTED)) before after →
  let s1 := (SendTransactionToRedisQueue tenantKey Answered now header o l id (cd_input draft) (cd_validate draft) status action date None s0).1 in
  let s2 := update_hash tenantKey blank key b1 b2 s1 in
  let s3 := UpdateTransactionBackupOperations tenantKey Answered Answered o l (uuid_String id) ops (Some action) s2 in
  ∃ m t, bk_queue s3 !! tenantKey key = Some (Message m) ∧ CreateWriteBehind t ∈ handler ∧
    ∀ configured ma field s, ma_cancelled ma = false → ma_broker ma = Answered → ∃ p t',
      bk_out (processMessage tenantKey configured ma field m s) = bk_out s ++ [(ToBroker, p)] ∧ pl_Transaction p = Some t' ∧
      rebuilt (stored_row p t') = rebuilt (stored_row (mkPayload (Some (pl_validate plan)) (Some t) input "v2") t) ∧
      Forall2 same_operation (tr_Operations t') (tr_Operations t).
Proof.
  intros o l key handler input Hin Hops Hk s1 s2 s3.
  destruct (recorded_operations _ _ _ _ _ _ _ _ _ _ _ Hin Hk) as [Hst Ht]. fold handler in Ht. cbn zeta in Ht. fold input in Ht.
  eexists _, _. split; [|split; [exact Ht|]].
  { unfold s3. apply updated_entry. unfold s2, update_hash. cbn [bk_queue set_queue]. unfold s1. rewrite seeded_entry.
    cbn [bk_queue set_queue]. fold key. rewrite !lookup_insert_eq. reflexivity. }
  intros configured ma field s Hc Hb. unfold processMessage. rewrite Hc. cbn [tq_Validate with_operations with_balances].
  unfold replay_operations. cbn [tq_Operations with_operations with_balances].
  destruct ops as [|op ops]; [done|]. cbn [fmap list_fmap]. unfold WriteTransactionAsync. rewrite Hb. cbn [attempt].
  eexists _, _. split; [destruct (ma_clear ma); reflexivity|]. split; [reflexivity|]. split.
  - cbn [tq_TransactionInput with_operations with_balances]. rewrite sanitized_twice. by apply rebuilt_row.
  - exact (operations_round_trip _ Hst).
Qed.

End Recovery.

(** ** What the consumer gets wrong *)

Section Flaws.
Context {D : DecimalLib} {DT : DecimalText} {U : UuidLib} {UP : UuidParse} {C : LibCommons}.
Context (tenantKey : string → string).

(** The entry written before the script runs is replayed like any other: when the process
    stops there, or the entry could not be removed after the script refused, an approved
    transaction without operations is recorded although no balance moved. *)
Theorem unsettled_transaction_recorded configured ma field now header o l id input v action date routes s :
  ma_cancelled ma = false → ma_broker ma = Answered → ma_settings ma = Ok routes →
  let m := mkQueueEntry header id o l [] [] (sanitized input) now (Some v) CREATED (Some action) date [] in
  ∃ p t, bk_out (processMessage tenantKey configured ma field m s) = bk_out s ++ [(ToBroker, p)] ∧
    pl_Transaction p = Some t ∧ tr_Operations t = [] ∧ rw_Status (stored_row p t) = APPROVED.
Proof.
  intros Hc Hb Hs m. unfold processMessage. rewrite Hc. unfold m. cbn [tq_Validate]. unfold replay_operations.
  cbn [tq_Operations tq_Balances fmap list_fmap replay_action tq_Action]. rewrite Hs.
  unfold BuildOperations, loop_pairs. cbn [mbind list_bind fold_res rbind bd_ops bd_pre].
  unfold WriteTransactionAsync. rewrite Hb. cbn [attempt].
  eexists _, _. split; [destruct (ma_clear ma); reflexivity|]. split; [reflexivity|]. split; [|done].
  cbn [tr_Operations replay_entity]. unfold resolveRouteCodesFromCache. by case_match.
Qed.

(** A recovered reversal has no parent: the row the handler would have stored names the
    transaction it reverses, the one the consumer stores does not. *)
Theorem recovered_reversal_loses_parent params id draft input v date now now' status ops p p' parent m v' ops' :
  cp_parent params = Some parent →
  rw_ParentTransactionID (stored_row p (promoted input status (created_entity params id draft input v date now status ops)))
    = Some (uuid_String parent) ∧
  rw_ParentTransactionID (stored_row p' (replay_entity now' m v' ops')) = None.
Proof.
  intros Hp. split; [|unfold stored_row, prepared_entity; cbn; by destruct (tq_TransactionStatus m)].
  transitivity (buildParentTransactionID (cp_parent params)); [by destruct status|by rewrite Hp].
Qed.

(** The quarantine keeps one record for a key, and the first stays: a later entry of the same
    transaction is deleted from the queue and its payload is nowhere. *)
Theorem later_stage_is_lost an k o l t m reason r s : tenantKey k = k → bk_quarantine s !! k = Some r →
  ma_increment an = Answered → ma_insert an = Answered → ma_remove an = Answered → QuarantineThreshold ≤ failures k s + 1 →
  let s' := quarantinePoisonRecord tenantKey true an k o l t m reason s in
  bk_queue s' !! k = None ∧ bk_quarantine s' = bk_quarantine s.
Proof.
  intros Hk Hr Hi Hn Hm Hf. unfold quarantinePoisonRecord, IncrementBackupAttempt, Quarantine_Insert,
    RemoveMessageFromQueue, ClearBackupAttempt. rewrite Hi, Hn, Hm, Hk. cbn -[Z.ltb QuarantineThreshold].
  fold (failures k s). assert ((failures k s + 1 <? QuarantineThreshold) = false) as Hl by lia. rewrite Hl. rewrite Hr. cbn.
  destruct (ma_clear an); cbn; (split; [apply lookup_delete_eq|done]).
Qed.

End Flaws.

(** ** Samples *)

Module BackupSample.
Definition params := CreateSample.params None.
Definition replies := CreateSample.answer 5 CreateSample.moved.
Definition id : @uuid Numbered.lib := 5%nat.
Definition draft : @create_draft Fixed.lib :=
  match draft_transaction (C := Commons.lib) replies CreateSample.input CREATED false with
  | Ok d => d
  | Err _ => mkDraft CreateSample.input (WriteSample.responses false) CreateSample.settings false false
  end.
Definition plan : @create_plan Fixed.lib :=
  match plan_operations (DT := FixedText.text) params replies (cd_validate draft) ActionDirect with
  | Ok p => p
  | Err _ => mkCreatePlan [] (WriteSample.responses false) [] None []
  end.
Definition before := [CreateSample.row "0#@alice#default" 300 7; CreateSample.row "0#@bob#default" 10 3].
Definition after := [CreateSample.row "0#@alice#default" 50 8; CreateSample.row "0#@bob#default" 260 4].
Definition handler : list (@create_effect Fixed.lib Numbered.lib) :=
  (record_transaction (DT := FixedText.text) (C := Commons.lib) params replies id 0 draft plan CREATED ActionDirect before after).1.
Definition backed (l : list (@create_effect Fixed.lib Numbered.lib)) : list (list (@Operation Fixed.lib)) :=
  omap (λ e, match e with UpdateBackup ops => Some ops | _ => None end) l.
Definition ops : list (@Operation Fixed.lib) := default [] (head (backed handler)).
Definition blank : @TransactionRedisQueue Fixed.lib Numbered.lib :=
  mkQueueEntry "" id id id [] [] zeroTransaction 0 None (StatusOther "") None 0 [].
Definition key (k : string) : string := k.
Definition nothing : @backup Fixed.lib Numbered.lib := mkBackup ∅ ∅ ∅ [].

Definition calls {lib : UuidLib} (a : answer) : @message_answers lib :=
  mkMessageAnswers 0 false a a a a (Ok false) (λ _, Err "none") (λ n, Ok (strconv_Itoa n)) a a (mkCleanup true a a).
Definition field := FourIds.text (true, true) +:+ ":" +:+ FourIds.text (false, true) +:+ ":" +:+ FourIds.text (true, false).
Definition garbage : @queue_message Fixed.lib FourIds.lib := Undecodable "{".
Definition broken : @backup Fixed.lib FourIds.lib := mkBackup {[field := garbage]} ∅ ∅ [].
Definition org : @uuid FourIds.lib := (true, true).
Definition cycle_of (a : answer) : @cycle FourIds.lib := mkCycle true true true [field] (λ _, calls a).
End BackupSample.

Lemma backed_head l ops : head (BackupSample.backed l) = Some ops → UpdateBackup ops ∈ l.
Proof.
  intros H. apply head_Some_elem_of in H. apply list_elem_of_omap in H as ([] & Hin & E); try discriminate. by injection E as <-.
Qed.

Lemma sample_backed : UpdateBackup BackupSample.ops ∈ BackupSample.handler.
Proof.
  apply backed_head. unfold BackupSample.ops. destruct (head _) eqn:E; [reflexivity|]. exfalso.
    apply (f_equal (λ o, match o with Some _ => true | None => false end)) in E. vm_compute in E. discriminate.
Qed.

Lemma sample_operations : BackupSample.ops ≠ [].
Proof. intros E. apply (f_equal length) in E. vm_compute in E. discriminate. Qed.

Lemma sample_afters : afters_known false BackupSample.before BackupSample.after.
Proof.
  right. apply Forall_forall. apply Forall_cons. split; [|apply Forall_cons; split; [|constructor]];
    apply (bool_decide_unpack _); vm_compute; exact I.
Qed.

Lemma sample_own k : own_field BackupSample.key k BackupSample.broken.
Proof. intros key' _ H. exact H. Qed.

Lemma sample_own_entry : own_entry BackupSample.key BackupSample.field BackupSample.broken.
Proof. intros key' m H Hne. unfold BackupSample.broken in H. cbn [bk_queue] in H. apply lookup_singleton_Some in H as [<- _]. by destruct Hne. Qed.

Lemma broken_field : bk_queue BackupSample.broken !! BackupSample.field = Some BackupSample.garbage.
Proof. apply lookup_singleton_eq. Qed.

(** The healthy cycles of the sample. *)
Lemma sample_healthy : healthy BackupSample.field (BackupSample.cycle_of Answered) ∧
  poisoned (DT := FixedText.text) (UP := FourIds.parse) (C := Commons.lib) (cy_answers (BackupSample.cycle_of Answered) BackupSample.field) BackupSample.field BackupSample.garbage.
Proof.
  split; [|exists ((true, true), (false, true), (true, false)); vm_compute; reflexivity].
  do 3 (split; [reflexivity|]). split; [left|]. split; [apply NoDup_singleton|]. by split_and!.
Qed.

(** Cycles in which every answer is lost, and a payload that is stored in between. *)
Lemma poison_never_lost_witness :
  let s := run_events (DT := FixedText.text) (UP := FourIds.parse) (C := Commons.lib) BackupSample.key
             [Cycle (BackupSample.cycle_of AnswerLost);
              Consumed (mkCleanup true Answered Answered) BackupSample.org BackupSample.org WriteSample.hold;
              Cycle (BackupSample.cycle_of Answered)] BackupSample.broken in
  bk_queue s !! BackupSample.field = Some BackupSample.garbage ∨
  (∃ r, bk_quarantine s !! BackupSample.field = Some r ∧ qr_Payload r = BackupSample.garbage) ∨
  persisted BackupSample.key BackupSample.field s.
Proof.
  apply (poison_never_lost (DT := FixedText.text) (UP := FourIds.parse) (C := Commons.lib) BackupSample.key
    BackupSample.field BackupSample.garbage); [exact broken_field|reflexivity|apply sample_own].
Defined.

Lemma poison_quarantined_witness :
  quarantined BackupSample.field BackupSample.garbage
    (run_cycles (DT := FixedText.text) (UP := FourIds.parse) (C := Commons.lib) BackupSample.key
       (replicate 3 (BackupSample.cycle_of Answered)) BackupSample.broken).
Proof.
  apply (poison_quarantined (DT := FixedText.text) (UP := FourIds.parse) (C := Commons.lib) BackupSample.key
    BackupSample.field BackupSample.garbage);
    [reflexivity|exact broken_field|reflexivity|apply sample_own_entry|apply Forall_replicate, sample_healthy|by vm_compute|cbn; lia].
Defined.

Lemma recovery_restores_witness : ∃ m t p t',
  let key := TransactionInternalKey (cp_organizationID BackupSample.params) (cp_ledgerID BackupSample.params) (uuid_String BackupSample.id) in
  CreateWriteBehind t ∈ BackupSample.handler ∧
  bk_out (processMessage (DT := FixedText.text) (UP := CreateSample.no_parse) (C := Commons.lib) BackupSample.key true
    (BackupSample.calls Answered) key m BackupSample.nothing) = [(ToBroker, p)] ∧
  pl_Transaction p = Some t' ∧
  rebuilt (stored_row (C := Commons.lib) p t') = rebuilt (stored_row (C := Commons.lib) (mkPayload (Some (pl_validate BackupSample.plan)) (Some t)
    (sanitized (cd_input BackupSample.draft)) "v2") t) ∧
  Forall2 (same_operation (DL := Fixed.laws)) (tr_Operations t') (tr_Operations t).
Proof.
  destruct (recovery_restores (DT := FixedText.text) (UP := CreateSample.no_parse) (C := Commons.lib) (DL := Fixed.laws) (TL := FixedText.text_laws)
    BackupSample.key BackupSample.params BackupSample.replies BackupSample.id 0 BackupSample.draft BackupSample.plan CREATED ActionDirect
    BackupSample.before BackupSample.after "" 0 BackupSample.blank [] [] BackupSample.ops BackupSample.nothing
    sample_backed sample_operations sample_afters) as (m & t & _ & Ht & H).
  destruct (H true (BackupSample.calls Answered)
    (TransactionInternalKey (cp_organizationID BackupSample.params) (cp_ledgerID BackupSample.params) (uuid_String BackupSample.id))
    BackupSample.nothing eq_refl eq_refl) as (p & t' & Hp). exact (ex_intro _ m (ex_intro _ t (ex_intro _ p (ex_intro _ t' (conj Ht Hp))))).
Defined.
