(* ===== verification/BalanceCommands.v ===== *)
(** * Commands on balances

    src/components/ledger/internal/services/command: create_balance.go,
    create_balance_additional.go, update_balance.go, update_balance_overdraft.go,
    delete_balance.go and delete_all_balances_by_account_id.go, on the table of balances of one
    ledger (adapters/postgres/balance) and the cache of Redis ([UpdateBalanceCacheSettings],
    services/query/get_balances.go).

    A row that was deleted stays in the table with the time of its deletion; the unique index of
    migration 000032 spans the live rows.  The cache maps "alias#key" to the balance the script
    keeps there.  Events are not modelled.  Commands are served one at a time, and no transaction
    of the script runs within one: in particular none runs between the GET and the SET with which
    [UpdateBalanceCacheSettings] rewrites an entry, which are definitions of their own
    ([cache_read], [cache_write]) for the theorem on what happens otherwise. *)

From Stdlib Require Import ZArith Lia.
From stdpp Require Import base gmap strings list.
From S2P Require Import Prelude Decimals GoStrings Transaction BalanceOps MBalance CacheKeys BalancePlan.
From S2P Require Import GoTime WritePath.
Local Open Scope string_scope.
Local Open Scope list_scope.
Local Open Scope Z_scope.

(** ** State and errors *)

Section Commands.
Context {D : DecimalLib} {DT : DecimalText} {U : UuidLib} {UP : UuidParse}.
Implicit Types (b : MBalance) (a : answer).

Record balances := mkBalances { bt_rows : gmap string MBalance; bt_cache : gmap string BalanceRedis }.
Implicit Types (st : balances).

Definition with_rows rows st : balances := mkBalances rows (bt_cache st).
Definition with_cache cache st : balances := mkBalances (bt_rows st) cache.

Inductive BalanceError :=
  | ErrReservedBalanceKey | ErrInvalidBalanceDirection | ErrInvalidBalanceSettings | ErrDuplicatedAliasKeyValue
  | ErrBalanceNotFound | ErrAdditionalBalanceNotAllowed | ErrUpdateOfInternalBalance | ErrOverdraftLimitBelowUsage
  | ErrDeletionOfInternalBalance | ErrBalancesCantBeDeleted | ErrInvalidAccountID | BalanceUniqueViolation
  | BalanceIDTaken | BalanceCallFailed.

#[export] Instance BalanceError_eq : EqDecision BalanceError.
Proof. solve_decision. Defined.

Definition live b : bool := bool_decide (mb_DeletedAt b = None).
Definition internal b : bool :=
  match mb_Settings b with
  | Some s => bool_decide (bs_BalanceScope s = BalanceScopeInternal)
  | None => false
  end.

(** ** The table *)

Definition rows_where (p : MBalance → bool) st : list MBalance :=
  filter (λ b, live b && p b = true) (map_to_list (bt_rows st)).*2.

Definition Balance_Find a (id : string) st : result BalanceError MBalance :=
  match a, bt_rows st !! id with
  | Answered, Some b => if live b then Ok b else Err ErrBalanceNotFound
  | Answered, None => Err ErrBalanceNotFound
  | _, _ => Err BalanceCallFailed
  end.

Definition at_key (account : uuid) (key : string) b : bool :=
  bool_decide (mb_AccountID b = uuid_String account) && bool_decide (mb_Key b = key).

Definition FindByAccountIDAndKey a (account : uuid) (key : string) st : result BalanceError MBalance :=
  match a, rows_where (at_key account key) st with
  | Answered, b :: _ => Ok b
  | Answered, [] => Err ErrBalanceNotFound
  | _, _ => Err BalanceCallFailed
  end.

Definition ListByAccountID a (account : uuid) st : result BalanceError (list MBalance) :=
  match a with
  | Answered => Ok (rows_where (λ b, bool_decide (mb_AccountID b = uuid_String account)) st)
  | _ => Err BalanceCallFailed
  end.

(** A statement that would turn [st] into [st']. *)
Definition execute {A} a st st' (v : A) : balances * result BalanceError A :=
  match a with
  | Answered => (st', Ok v)
  | Refused => (st, Err BalanceCallFailed)
  | AnswerLost => (st', Err BalanceCallFailed)
  end.

(** The unique index and the primary key; the column default of the direction. *)
Definition clashes b b' : bool :=
  live b' && bool_decide (mb_AccountID b' = mb_AccountID b) && bool_decide (mb_AssetCode b' = mb_AssetCode b)
  && bool_decide (mb_Key b' = mb_Key b).
Definition with_direction b : MBalance :=
  mkMBalance (mb_ID b) (mb_OrganizationID b) (mb_LedgerID b) (mb_AccountID b) (mb_Alias b) (mb_Key b)
    (mb_AssetCode b) (mb_Available b) (mb_OnHold b) (mb_Version b) (mb_AccountType b) (mb_AllowSending b)
    (mb_AllowReceiving b) (match mb_Direction b with DirectionEmpty => DirectionCredit | d => d end)
    (mb_OverdraftUsed b) (mb_Settings b) (mb_CreatedAt b) (mb_UpdatedAt b) (mb_DeletedAt b) (mb_Metadata b).

Definition Balance_Create a b st : balances * result BalanceError MBalance :=
  let row := with_direction b in
  match a with
  | Refused => (st, Err BalanceCallFailed)
  | _ =>
      if bool_decide (is_Some (bt_rows st !! mb_ID row)) then (st, Err BalanceIDTaken)
      else if existsb (clashes row) (map_to_list (bt_rows st)).*2 then (st, Err BalanceUniqueViolation)
      else execute a st (with_rows (<[mb_ID row := row]> (bt_rows st)) st) row
  end.

Record UpdateBalance := mkUpdateBalance {
  ub_AllowSending : option bool; ub_AllowReceiving : option bool; ub_Settings : option BalanceSettings }.

Definition updated_row (now : Time) (u : UpdateBalance) b : MBalance :=
  mkMBalance (mb_ID b) (mb_OrganizationID b) (mb_LedgerID b) (mb_AccountID b) (mb_Alias b) (mb_Key b)
    (mb_AssetCode b) (mb_Available b) (mb_OnHold b) (mb_Version b) (mb_AccountType b)
    (default (mb_AllowSending b) (ub_AllowSending u)) (default (mb_AllowReceiving b) (ub_AllowReceiving u))
    (mb_Direction b) (mb_OverdraftUsed b) (match ub_Settings u with Some s => Some s | None => mb_Settings b end)
    (mb_CreatedAt b) now (mb_DeletedAt b) (mb_Metadata b).
Definition deleted_row (now : Time) b : MBalance :=
  mkMBalance (mb_ID b) (mb_OrganizationID b) (mb_LedgerID b) (mb_AccountID b) (mb_Alias b) (mb_Key b)
    (mb_AssetCode b) (mb_Available b) (mb_OnHold b) (mb_Version b) (mb_AccountType b) (mb_AllowSending b)
    (mb_AllowReceiving b) (mb_Direction b) (mb_OverdraftUsed b) (mb_Settings b) (mb_CreatedAt b) (mb_UpdatedAt b)
    (Some now) (mb_Metadata b).

Definition Balance_Update a (now : Time) (id : string) (u : UpdateBalance) st : balances * result BalanceError MBalance :=
  match bt_rows st !! id with
  | Some b =>
      if live b then execute a st (with_rows (<[id := updated_row now u b]> (bt_rows st)) st) (updated_row now u b)
      else (st, Err (match a with Answered => ErrBalanceNotFound | _ => BalanceCallFailed end))
  | None => (st, Err (match a with Answered => ErrBalanceNotFound | _ => BalanceCallFailed end))
  end.

Definition Balance_Delete a (now : Time) (id : string) st : balances * result BalanceError unit :=
  match bt_rows st !! id with
  | Some b =>
      if live b then execute a st (with_rows (<[id := deleted_row now b]> (bt_rows st)) st) tt
      else (st, Err (match a with Answered => ErrBalanceNotFound | _ => BalanceCallFailed end))
  | None => (st, Err (match a with Answered => ErrBalanceNotFound | _ => BalanceCallFailed end))
  end.

(** Rolled back unless every row is live. *)
Definition DeleteAllByIDs a (now : Time) (ids : list string) st : balances * result BalanceError unit :=
  match ids with
  | [] => (st, Ok tt)
  | _ =>
      if forallb (λ id, match bt_rows st !! id with Some b => live b | None => false end) ids
      then execute a st (with_rows (map_imap (λ id b, Some (if bool_decide (id ∈ ids) then deleted_row now b else b)) (bt_rows st)) st) tt
      else (st, Err (match a with Answered => ErrBalanceNotFound | _ => BalanceCallFailed end))
  end.

Definition UpdateAllByAccountID a (now : Time) (account : uuid) (allow : bool) st : balances * result BalanceError unit :=
  let touched b := live b && bool_decide (mb_AccountID b = uuid_String account) in
  if existsb touched (map_to_list (bt_rows st)).*2
  then execute a st (with_rows ((λ b, if touched b then updated_row now (mkUpdateBalance (Some allow) (Some allow) None) b else b)
                                <$> bt_rows st) st) tt
  else (st, Err (match a with Answered => ErrBalanceNotFound | _ => BalanceCallFailed end)).

(** ** Creating balances *)

Record CreateBalanceInput := mkCreateInput {
  ci_AccountID : uuid; ci_Alias : string; ci_AssetCode : string; ci_AccountType : string;
  ci_AllowSending : bool; ci_AllowReceiving : bool; ci_OrganizationID : uuid; ci_LedgerID : uuid }.

Definition defaultBalanceDirection (accountType : string) : Direction :=
  if strings_EqualFold accountType ExternalAccountType then DirectionDebit else DirectionCredit.

(** A balance without funds. *)
Definition empty_balance (id organization ledger account alias key asset accountType : string) (sending receiving : bool)
    (direction : Direction) (settings : option BalanceSettings) (now : Time) : MBalance :=
  mkMBalance id organization ledger account alias key asset dzero dzero 0 accountType sending receiving direction dzero
    settings now now None ∅.

Definition CreateDefaultBalance (exists_ create : answer) (newID : result BalanceError string) (now : Time)
    (input : CreateBalanceInput) st : balances * result BalanceError MBalance :=
  match FindByAccountIDAndKey exists_ (ci_AccountID input) DefaultBalanceKey st with
  | Ok _ => (st, Err ErrDuplicatedAliasKeyValue)
  | Err ErrBalanceNotFound =>
      match newID with
      | Err e => (st, Err e)
      | Ok id =>
          Balance_Create create
            (empty_balance id (uuid_String (ci_OrganizationID input)) (uuid_String (ci_LedgerID input))
               (uuid_String (ci_AccountID input)) (ci_Alias input) DefaultBalanceKey (ci_AssetCode input) (ci_AccountType input)
               (ci_AllowSending input) (ci_AllowReceiving input) (defaultBalanceDirection (ci_AccountType input)) None now) st
      end
  | Err e => (st, Err e)
  end.

Record CreateAdditionalInput := mkAdditional {
  cb_Key : string; cb_AllowSending : option bool; cb_AllowReceiving : option bool; cb_Direction : option Direction;
  cb_Settings : option BalanceSettings }.

(** The checks before the table is read. *)
Definition check_additional (cbi : CreateAdditionalInput) : result BalanceError unit :=
  if strings_EqualFold (cb_Key cbi) OverdraftBalanceKey then Err ErrReservedBalanceKey else
  if match cb_Direction cbi with None | Some DirectionCredit | Some DirectionDebit => false | _ => true end
  then Err ErrInvalidBalanceDirection else
  match Settings_Validate (cb_Settings cbi) with
  | Err _ => Err ErrInvalidBalanceSettings
  | Ok _ =>
      match cb_Settings cbi with
      | Some s => if bool_decide (bs_BalanceScope s = BalanceScopeInternal) then Err ErrInvalidBalanceSettings else Ok tt
      | None => Ok tt
      end
  end.

Definition additional_balance (id : string) (now : Time) (cbi : CreateAdditionalInput) (base : MBalance) : MBalance :=
  empty_balance id (mb_OrganizationID base) (mb_LedgerID base) (mb_AccountID base) (mb_Alias base)
    (strings_ToLower (cb_Key cbi)) (mb_AssetCode base) (mb_AccountType base) (default true (cb_AllowSending cbi))
    (default true (cb_AllowReceiving cbi)) (default DirectionCredit (cb_Direction cbi)) (cb_Settings cbi) now.

Definition CreateAdditionalBalance (find_key find_default create : answer) (id : string) (now : Time) (account : uuid)
    (cbi : CreateAdditionalInput) st : balances * result BalanceError MBalance :=
  match check_additional cbi with
  | Err e => (st, Err e)
  | Ok _ =>
      match FindByAccountIDAndKey find_key account (strings_ToLower (cb_Key cbi)) st with
      | Ok _ => (st, Err ErrDuplicatedAliasKeyValue)
      | Err ErrBalanceNotFound =>
          match FindByAccountIDAndKey find_default account DefaultBalanceKey st with
          | Err e => (st, Err e)
          | Ok base =>
              if bool_decide (mb_AccountType base = ExternalAccountType) then (st, Err ErrAdditionalBalanceNotAllowed) else
              match Balance_Create create (additional_balance id now cbi base) st with
              | (st', Err BalanceUniqueViolation) => (st', Err ErrDuplicatedAliasKeyValue)
              | r => r
              end
          end
      | Err e => (st, Err e)
      end
  end.

(** ** Updating a balance *)

Definition validateUpdateSettings (s : BalanceSettings) : result BalanceError unit :=
  match Settings_Validate (Some s) with
  | Err _ => Err ErrInvalidBalanceSettings
  | Ok _ => if bool_decide (bs_BalanceScope s = BalanceScopeInternal) then Err ErrInvalidBalanceSettings else Ok tt
  end.

Definition enforceOverdraftTransition (current : MBalance) (next : BalanceSettings) : result BalanceError unit :=
  if dis_zero (mb_OverdraftUsed current) then Ok tt else
  match bs_OverdraftLimitEnabled next, bs_OverdraftLimit next with
  | true, Some text =>
      match dparse text with
      | None => Err ErrInvalidBalanceSettings
      | Some limit => if dlt limit (mb_OverdraftUsed current) then Err ErrOverdraftLimitBelowUsage else Ok tt
      end
  | _, _ => Ok tt
  end.

Definition overdraft_allowed (s : option BalanceSettings) : bool := match s with Some s => bs_AllowOverdraft s | None => false end.

Definition nil_uuid : string := "00000000-0000-0000-0000-000000000000".

Definition companion_row (id : string) (now : Time) (current : MBalance) : MBalance :=
  empty_balance id (mb_OrganizationID current) (mb_LedgerID current) (mb_AccountID current) (mb_Alias current)
    OverdraftBalanceKey (mb_AssetCode current) (mb_AccountType current) true true DirectionDebit
    (Some (mkBalanceSettings BalanceScopeInternal false false None)) now.

Record update_answers := mkUpdateAnswers {
  ua_find : answer; ua_find_companion : answer; ua_newID : result BalanceError string; ua_create : answer;
  ua_reload : answer; ua_update : answer; ua_cache_read : answer; ua_settings_read : answer;
  ua_settings_write : answer; ua_now : Time }.

Definition ensureOverdraftBalance (an : update_answers) (current : MBalance) (next : BalanceSettings) st
    : balances * result BalanceError (option MBalance) :=
  if negb (bs_AllowOverdraft next) then (st, Ok None) else
  if overdraft_allowed (mb_Settings current) then (st, Ok None) else
  match uuid_Parse (if bool_decide (mb_AccountID current = "") then nil_uuid else mb_AccountID current) with
  | None => (st, Err ErrInvalidAccountID)
  | Some account =>
      match FindByAccountIDAndKey (ua_find_companion an) account OverdraftBalanceKey st with
      | Ok _ => (st, Ok None)
      | Err ErrBalanceNotFound =>
          match ua_newID an with
          | Err e => (st, Err e)
          | Ok id =>
              match Balance_Create (ua_create an) (companion_row id (ua_now an) current) st with
              | (st', Ok c) => (st', Ok (Some c))
              | (st', Err e) =>
                  if bool_decide (e = BalanceUniqueViolation ∨ e = BalanceIDTaken) then
                    match FindByAccountIDAndKey (ua_reload an) account OverdraftBalanceKey st' with
                    | Ok _ => (st', Ok None)
                    | Err _ => (st', Err e)
                    end
                  else (st', Err e)
              end
          end
      | Err e => (st, Err e)
      end
  end.

Definition cache_key b : string := mb_Alias b +:+ "#" +:+ mb_Key b.

(** [UpdateBalanceCacheSettings]: the entry is read, its settings are replaced, and it is
    written back, in two commands. *)
Definition rewrite_settings (s : BalanceSettings) (e : BalanceRedis) : BalanceRedis :=
  mkBalanceRedis (br_ID e) (br_Alias e) (br_Key e) (br_AccountID e) (br_AssetCode e) (br_Available e) (br_OnHold e)
    (br_Version e) (br_AccountType e) (br_AllowSending e) (br_AllowReceiving e) (br_Direction e) (br_OverdraftUsed e)
    (boolToInt (bs_AllowOverdraft s)) (boolToInt (bs_OverdraftLimitEnabled s)) (default "0" (bs_OverdraftLimit s))
    (if bool_decide (bs_BalanceScope s = "") then BalanceScopeTransactional else bs_BalanceScope s).

Definition cache_read a (key : string) st : option BalanceRedis :=
  match a with Answered => bt_cache st !! key | _ => None end.
Definition cache_write a (key : string) (e : BalanceRedis) st : balances :=
  match a with Refused => st | _ => with_cache (<[key := e]> (bt_cache st)) st end.

Definition UpdateBalanceCacheSettings (read write : answer) (key : string) (s : BalanceSettings) st : balances :=
  match cache_read read key st with
  | Some e => cache_write write key (rewrite_settings s e) st
  | None => st
  end.

(** The answer shows the amounts of the cache. *)
Definition overlay_amounts (e : option BalanceRedis) b : MBalance :=
  match e with
  | None => b
  | Some e =>
      mkMBalance (mb_ID b) (mb_OrganizationID b) (mb_LedgerID b) (mb_AccountID b) (mb_Alias b) (mb_Key b)
        (mb_AssetCode b) (br_Available e) (br_OnHold e) (br_Version e) (mb_AccountType b) (mb_AllowSending b)
        (mb_AllowReceiving b) (mb_Direction b) (default (mb_OverdraftUsed b) (dparse (br_OverdraftUsed e))) (mb_Settings b)
        (mb_CreatedAt b) (mb_UpdatedAt b) (mb_DeletedAt b) (mb_Metadata b)
  end.

(** What is checked and created before the row is written. *)
Definition prepare_balance_update (an : update_answers) (current : MBalance) (u : UpdateBalance) st : balances * result BalanceError unit :=
  match ub_Settings u with
  | None => (st, Ok tt)
  | Some s =>
      match (do! validateUpdateSettings s;; enforceOverdraftTransition current s) with
      | Err e => (st, Err e)
      | Ok _ => match ensureOverdraftBalance an current s st with
                | (st', Ok _) => (st', Ok tt)
                | (st', Err e) => (st', Err e)
                end
      end
  end.

Definition Update (an : update_answers) (id : string) (u : UpdateBalance) st : balances * result BalanceError MBalance :=
  match Balance_Find (ua_find an) id st with
  | Err e => (st, Err e)
  | Ok current =>
      if internal current then (st, Err ErrUpdateOfInternalBalance) else
      match prepare_balance_update an current u st with
      | (st1, Err e) => (st1, Err e)
      | (st1, Ok _) =>
          match Balance_Update (ua_update an) (ua_now an) id u st1 with
          | (st2, Err e) => (st2, Err e)
          | (st2, Ok b) =>
              let key := cache_key b in
              (match ub_Settings u with
               | Some s => UpdateBalanceCacheSettings (ua_settings_read an) (ua_settings_write an) key s st2
               | None => st2
               end, Ok (overlay_amounts (cache_read (ua_cache_read an) key st2) b))
          end
      end
  end.

(** ** Deleting balances *)

Record delete_answers := mkDeleteAnswers {
  da_find : answer; da_cache : string → answer; da_toggle : answer; da_rollback : answer; da_delete : answer;
  da_restore : answer; da_restore_rollback : answer; da_now : Time }.

Definition has_funds b : bool := negb (dis_zero (mb_Available b)) || negb (dis_zero (mb_OnHold b)).

Definition DeleteBalance (an : delete_answers) (id : string) st : balances * result BalanceError unit :=
  match Balance_Find (da_find an) id st with
  | Err e => (st, Err e)
  | Ok b =>
      if internal b then (st, Err ErrDeletionOfInternalBalance)
      else if has_funds b then (st, Err ErrBalancesCantBeDeleted)
      else Balance_Delete (da_delete an) (da_now an) id st
  end.

(** The loop over the balances: an entry in the cache forbids the deletion.  When there is none
    [ListBalanceByKey] answers with [redis.Nil], on which the loop continues; so the check of
    the funds behind it is never reached. *)
Definition check_deletable (an : delete_answers) (st : balances) b : result BalanceError unit :=
  match da_cache an (cache_key b), bt_cache st !! cache_key b with
  | Answered, Some _ => Err ErrBalancesCantBeDeleted
  | Answered, None => Ok tt
  | _, _ => Err BalanceCallFailed
  end.

(** A toggle that fails sets the opposite permissions. *)
Definition toggleBalanceTransfers (toggle rollback : answer) (now : Time) (account : uuid) (allow : bool) st
    : balances * result BalanceError unit :=
  match UpdateAllByAccountID toggle now account allow st with
  | (st', Ok _) => (st', Ok tt)
  | (st', Err e) => ((UpdateAllByAccountID rollback now account (negb allow) st').1, Err e)
  end.

Definition DeleteAllBalancesByAccountID (an : delete_answers) (account : uuid) st : balances * result BalanceError unit :=
  match ListByAccountID (da_find an) account st with
  | Err e => (st, Err e)
  | Ok [] => (st, Ok tt)
  | Ok rows =>
      match for_each (check_deletable an st) rows with
      | Err e => (st, Err e)
      | Ok _ =>
          match toggleBalanceTransfers (da_toggle an) (da_rollback an) (da_now an) account false st with
          | (st1, Err e) => (st1, Err e)
          | (st1, Ok _) =>
              match DeleteAllByIDs (da_delete an) (da_now an) (mb_ID <$> rows) st1 with
              | (st2, Ok _) => (st2, Ok tt)
              | (st2, Err e) =>
                  ((toggleBalanceTransfers (da_restore an) (da_restore_rollback an) (da_now an) account true st2).1, Err e)
              end
          end
      end
  end.

(** ** Reading balances *)

(** A balance of [getBalancesFromCache]; [alias] is "alias#key". *)
Definition cached_balance (organizationID ledgerID alias : string) (e : BalanceRedis) : MBalance :=
  let name := (split_char hash alias).1 in
  let key := strings_TrimSpace (default "" (after_char hash alias)) in
  mkMBalance (br_ID e) organizationID ledgerID (br_AccountID e) name (if bool_decide (key = "") then DefaultBalanceKey else key)
    (br_AssetCode e) (br_Available e) (br_OnHold e) (br_Version e) (br_AccountType e) (br_AllowSending e =? 1)
    (br_AllowReceiving e =? 1) (br_Direction e) (default dzero (dparse (br_OverdraftUsed e))) (redis_settings e) 0 0 None ∅.

Definition getBalancesFromCache (read : string → answer) (organizationID ledgerID : string) (aliases : list string) st
    : list MBalance * list string :=
  (omap (λ alias, cached_balance organizationID ledgerID alias <$> cache_read (read alias) alias st) aliases,
   filter (λ alias, cache_read (read alias) alias st = None) aliases).

Definition ListByAliasesWithKeys a (aliases : list string) st : result BalanceError (list MBalance) :=
  match a with
  | Answered =>
      if existsb (λ alias, match after_char hash alias with
                           | None => true
                           | Some key => bool_decide ((split_char hash alias).1 = "") || bool_decide (key = "") || contains_char hash key
                           end) aliases
      then Err BalanceCallFailed
      else Ok (rows_where (λ b, bool_decide (cache_key b ∈ aliases)) st)
  | _ => Err BalanceCallFailed
  end.

Definition GetBalances (read : string → answer) a (organizationID ledgerID : string) (aliases : list string) st
    : result BalanceError (list MBalance) :=
  let '(cached, misses) := getBalancesFromCache read organizationID ledgerID aliases st in
  match misses with
  | [] => Ok cached
  | _ => let! rows := ListByAliasesWithKeys a misses st in Ok (cached ++ rows)
  end.

End Commands.

(** ** Invariants of the table *)

Section Invariant.
Context {D : DecimalLib} {DT : DecimalText} {U : UuidLib} {UP : UuidParse} {PL : UuidParseLaws}.
Implicit Types (b : MBalance) (a : answer) (st : balances).

(** The internal balances are exactly the overdraft companions, which are debit balances. *)
Definition row_ok b : Prop :=
  (∃ u, mb_AccountID b = uuid_String u) ∧ (internal b = true ↔ mb_Key b = OverdraftBalanceKey) ∧
  (mb_Key b = OverdraftBalanceKey → mb_Direction b = DirectionDebit) ∧ Settings_Validate (mb_Settings b) = Ok tt.

Definition same_place b b' : Prop := mb_AccountID b = mb_AccountID b' ∧ mb_Key b = mb_Key b'.

Record table_ok st : Prop := {
  tok_row id b : bt_rows st !! id = Some b → mb_ID b = id ∧ row_ok b;
  tok_unique id b id' b' : bt_rows st !! id = Some b → bt_rows st !! id' = Some b' →
    live b = true → live b' = true → same_place b b' → id = id' }.

Definition has_key st (account key : string) : Prop :=
  ∃ id b, bt_rows st !! id = Some b ∧ live b = true ∧ mb_AccountID b = account ∧ mb_Key b = key.

(** A balance that may use its overdraft has a companion. *)
Definition companions_ok st : Prop := ∀ id b, bt_rows st !! id = Some b → live b = true →
  overdraft_allowed (mb_Settings b) = true → has_key st (mb_AccountID b) OverdraftBalanceKey.

Lemma elem_rows_where p st b : b ∈ rows_where p st ↔ ∃ id, bt_rows st !! id = Some b ∧ live b = true ∧ p b = true.
Proof.
  unfold rows_where. rewrite list_elem_of_filter, andb_true_iff. split.
  - intros [[Hl Hp] Hb]. apply list_elem_of_fmap in Hb as ([id b'] & -> & Hb). apply elem_of_map_to_list in Hb. by eauto.
  - intros (id & Hb & Hl & Hp). split; [done|]. apply list_elem_of_fmap. exists (id, b). split; [done|]. by apply elem_of_map_to_list.
Qed.

Lemma find_key_ok a account key st b : FindByAccountIDAndKey a account key st = Ok b →
  ∃ id, bt_rows st !! id = Some b ∧ live b = true ∧ mb_AccountID b = uuid_String account ∧ mb_Key b = key.
Proof.
  unfold FindByAccountIDAndKey. destruct a; [|done..].
  destruct (rows_where _ _) as [|b' l] eqn:E; [done|]. intros [= <-].
  assert (b' ∈ rows_where (at_key account key) st) as Hb by (rewrite E; left).
  apply elem_rows_where in Hb as (id & Hb & Hl & Hp). unfold at_key in Hp. rewrite andb_true_iff, !bool_decide_eq_true in Hp.
  by exists id.
Qed.

Lemma find_key_none a account key st : FindByAccountIDAndKey a account key st = Err ErrBalanceNotFound →
  ¬ has_key st (uuid_String account) key.
Proof.
  unfold FindByAccountIDAndKey. destruct a; [|done..].
  destruct (rows_where _ _) as [|b' l] eqn:E; [|done]. intros _ (id & b & Hb & Hl & Ha & Hk).
  assert (b ∈ rows_where (at_key account key) st) as Hin.
  { apply elem_rows_where. exists id. split; [done|]. split; [done|]. unfold at_key. by rewrite !bool_decide_true. }
  rewrite E in Hin. by apply elem_of_nil in Hin.
Qed.

(** *** The statements *)

(** A statement keeps a property of the table that its effect keeps. *)
Lemma execute_ok {A} (P : balances → Prop) a st st' (v : A) : P st → P st' → P (execute a st st' v).1.
Proof. by destruct a. Qed.

(** The rows after a new one is inserted. *)
Lemma insert_row_ok st b : table_ok st → bt_rows st !! mb_ID b = None → row_ok b → ¬ has_key st (mb_AccountID b) (mb_Key b) →
  table_ok (with_rows (<[mb_ID b := b]> (bt_rows st)) st).
Proof.
  intros [Hr Hu] Hid Hb Hn. split.
  - cbn. intros id b'. rewrite lookup_insert_Some. intros [[<- <-]|[_ H]]; [done|by apply Hr].
  - cbn. intros id1 b1 id2 b2. rewrite !lookup_insert_Some.
    intros [[<- <-]|[Hd1 H1]] [[<- <-]|[Hd2 H2]] Hl1 Hl2 [Ha Hk]; [done| | |by eapply Hu].
    + exfalso. apply Hn. exists id2, b2. by split_and!.
    + exfalso. apply Hn. exists id1, b1. by split_and!.
Qed.

Lemma create_ok a b st : table_ok st → row_ok (with_direction b) → ¬ has_key st (mb_AccountID b) (mb_Key b) →
  table_ok (Balance_Create a b st).1.
Proof.
  intros Ht Hb Hn. unfold Balance_Create. destruct a; [|done|]; (case_bool_decide as Hid; [done|]; destruct (existsb _ _); [done|];
    apply execute_ok; [done|]; apply insert_row_ok; [done|by apply eq_None_not_Some|done|done]).
Qed.

(** The rows are changed one by one, in place. *)
Definition change_ok b b' : Prop :=
  mb_ID b' = mb_ID b ∧ same_place b' b ∧ (live b' = true → live b = true) ∧ (row_ok b → row_ok b').

Lemma change_rows_ok st rows' : table_ok st →
  (∀ id b', rows' !! id = Some b' → ∃ b, bt_rows st !! id = Some b ∧ change_ok b b') → table_ok (with_rows rows' st).
Proof.
  intros [Hr Hu] Hc. split; cbn.
  - intros id b' (b & Hb & Hid & _ & _ & Ho)%Hc. destruct (Hr _ _ Hb) as [He Hrow]. split; [congruence|by apply Ho].
  - intros id1 b1 id2 b2 (c1 & H1 & _ & [Ha1 Hk1] & Hl1 & _)%Hc (c2 & H2 & _ & [Ha2 Hk2] & Hl2 & _)%Hc Hb1 Hb2 [Ha Hk].
    eapply Hu; [exact H1|exact H2|by apply Hl1|by apply Hl2|]. split; congruence.
Qed.

Lemma change_refl b : change_ok b b.
Proof. split; [done|]. split; [done|]. by split. Qed.

Lemma deleted_not_live now b : live (deleted_row now b) = false.
Proof. unfold live. by rewrite bool_decide_false. Qed.

Lemma deleted_ok now b : change_ok b (deleted_row now b).
Proof. split; [done|]. split; [done|]. split; [by rewrite deleted_not_live|done]. Qed.

(** The settings of an update: none, or valid and not internal, on a balance that is not. *)
Definition update_ok (u : UpdateBalance) b : Prop :=
  match ub_Settings u with
  | None => True
  | Some s => Settings_Validate (Some s) = Ok tt ∧ bs_BalanceScope s ≠ BalanceScopeInternal ∧ internal b = false
  end.

Lemma updated_ok now u b : update_ok u b → change_ok b (updated_row now u b).
Proof.
  unfold update_ok. intros Hu. split; [done|]. split; [done|]. split; [done|].
  intros (Ha & Hi & Hd & Hs). destruct u as [us ur [s|]]; cbn in Hu.
  - destruct Hu as (Hv & Hn & Hb). split; [done|]. split; [|by split]. cbn. unfold internal in *. cbn.
    rewrite bool_decide_false by done. rewrite Hb in Hi. exact Hi.
  - by split.
Qed.

Lemma update_stmt_ok a now id u st : table_ok st → (∀ b, bt_rows st !! id = Some b → update_ok u b) →
  table_ok (Balance_Update a now id u st).1.
Proof.
  intros Ht Hu. unfold Balance_Update. destruct (bt_rows st !! id) as [b|] eqn:E; [|done]. destruct (live b); [|done].
  apply execute_ok; [done|]. apply change_rows_ok; [done|]. intros id' b'. rewrite lookup_insert_Some. intros [[<- <-]|[_ H]].
  - exists b. split; [done|]. by apply updated_ok, Hu.
  - exists b'. split; [done|apply change_refl].
Qed.

Lemma delete_stmt_ok a now id st : table_ok st → table_ok (Balance_Delete a now id st).1.
Proof.
  intros Ht. unfold Balance_Delete. destruct (bt_rows st !! id) as [b|] eqn:E; [|done]. destruct (live b); [|done].
  apply execute_ok; [done|]. apply change_rows_ok; [done|]. intros id' b'. rewrite lookup_insert_Some. intros [[<- <-]|[_ H]].
  - exists b. split; [done|apply deleted_ok].
  - exists b'. split; [done|apply change_refl].
Qed.

Lemma delete_all_stmt_ok a now ids st : table_ok st → table_ok (DeleteAllByIDs a now ids st).1.
Proof.
  intros Ht. unfold DeleteAllByIDs. destruct ids as [|id0 ids0]; [done|]. destruct (forallb _ _); [|done].
  apply execute_ok; [done|]. apply change_rows_ok; [done|]. intros id b'. rewrite map_lookup_imap.
  destruct (bt_rows st !! id) as [b|]; [|done]. cbn. intros [= <-]. exists b. split; [done|].
  case_bool_decide; [apply deleted_ok|apply change_refl].
Qed.

Lemma update_all_stmt_ok a now account allow st : table_ok st → table_ok (UpdateAllByAccountID a now account allow st).1.
Proof.
  intros Ht. unfold UpdateAllByAccountID. destruct (existsb _ _); [|done]. apply execute_ok; [done|].
  apply change_rows_ok; [done|]. intros id b'. rewrite lookup_fmap. destruct (bt_rows st !! id) as [b|]; [|done]. cbn.
  intros [= <-]. exists b. split; [done|]. destruct (live b && _); [by apply updated_ok|apply change_refl].
Qed.

(** *** Companions *)

Lemma companions_change st rows' :
  (∀ id b, rows' !! id = Some b → live b = true → overdraft_allowed (mb_Settings b) = true →
     has_key st (mb_AccountID b) OverdraftBalanceKey) →
  (∀ id b idc c, rows' !! id = Some b → live b = true → bt_rows st !! idc = Some c → live c = true →
     mb_AccountID c = mb_AccountID b → mb_Key c = OverdraftBalanceKey →
     ∃ c', rows' !! idc = Some c' ∧ live c' = true ∧ same_place c' c) →
  companions_ok (with_rows rows' st).
Proof.
  intros Hh Hk id b Hb Hl Ho. destruct (Hh _ _ Hb Hl Ho) as (idc & c & Hc & Hlc & Hac & Hkc).
  destruct (Hk _ _ _ _ Hb Hl Hc Hlc Hac Hkc) as (c' & Hc' & Hl' & Ha & Hk'). exists idc, c'. split_and!; [done|done|congruence|congruence].
Qed.

(** Rows that only change in place keep their companions. *)
Lemma companions_in_place st rows' : companions_ok st →
  (∀ id, rows' !! id = None ↔ bt_rows st !! id = None) →
  (∀ id b b', bt_rows st !! id = Some b → rows' !! id = Some b' → live b' = live b ∧ same_place b' b ∧
     (live b = true → overdraft_allowed (mb_Settings b') = true →
      overdraft_allowed (mb_Settings b) = true ∨ has_key st (mb_AccountID b) OverdraftBalanceKey)) →
  companions_ok (with_rows rows' st).
Proof.
  intros Hc Hd Hp. apply companions_change.
  - intros id b' Hb' Hl Ho. destruct (bt_rows st !! id) as [b|] eqn:Hb; [|apply Hd in Hb; congruence].
    destruct (Hp _ _ _ Hb Hb') as (Hle & [Ha Hk] & Hs). rewrite Hl in Hle. rewrite Ha.
    destruct (Hs (eq_sym Hle) Ho) as [Hob|Hh]; [by eapply Hc|done].
  - intros id b idc c _ _ Hic Hlc _ _. destruct (rows' !! idc) as [c'|] eqn:E; [|apply Hd in E; congruence].
    destruct (Hp _ _ _ Hic E) as (Hle & Hsp & _). exists c'. split_and!; [done|congruence|done].
Qed.

Lemma create_companions a b st : companions_ok st → overdraft_allowed (mb_Settings b) = false →
  companions_ok (Balance_Create a b st).1.
Proof.
  intros Hc Ho. unfold Balance_Create. assert (bt_rows st !! mb_ID b = None →
    companions_ok (with_rows (<[mb_ID (with_direction b) := with_direction b]> (bt_rows st)) st)) as Hi.
  { intros Hid. apply companions_change.
    - intros id b'. rewrite lookup_insert_Some. intros [[<- <-]|[_ H]] Hl Hob; [cbn in Hob; congruence|by eapply Hc].
    - intros id b' idc c _ _ Hic Hlc _ _. exists c. cbn. rewrite lookup_insert_ne by congruence. done. }
  destruct a; [|done|]; (case_bool_decide as Hid; [done|]; destruct (existsb _ _); [done|];
    apply execute_ok; [done|]; apply Hi; by apply eq_None_not_Some).
Qed.

Lemma update_companions a now id u st : companions_ok st →
  (∀ b, bt_rows st !! id = Some b → overdraft_allowed (ub_Settings u) = true →
     overdraft_allowed (mb_Settings b) = true ∨ has_key st (mb_AccountID b) OverdraftBalanceKey) →
  companions_ok (Balance_Update a now id u st).1.
Proof.
  intros Hc Hu. unfold Balance_Update. destruct (bt_rows st !! id) as [b|] eqn:E; [|done]. destruct (live b); [|done].
  apply execute_ok; [done|]. apply companions_in_place; [done|..].
  - intros id'. rewrite lookup_insert_None. split; [by intros [? _]|]. intros H. split; [done|congruence].
  - intros id' c c' Hc1. rewrite lookup_insert_Some. intros [[<- <-]|[_ Hc2]]; [|simplify_eq; split; [done|split; [by split|by left]]].
    simplify_eq. split; [done|]. split; [done|]. intros _ Ho. cbn in Ho. destruct (ub_Settings u) as [s|] eqn:Es; [|by left].
    by apply Hu.
Qed.

Lemma update_all_companions a now account allow st : companions_ok st → companions_ok (UpdateAllByAccountID a now account allow st).1.
Proof.
  intros Hc. unfold UpdateAllByAccountID. destruct (existsb _ _); [|done]. apply execute_ok; [done|].
  apply companions_in_place; [done|..].
  - intros id. by rewrite lookup_fmap, fmap_None.
  - intros id b b' Hb. rewrite lookup_fmap, Hb. cbn. intros [= <-]. destruct (live b && _) eqn:E; [|split; [done|split; [by split|by left]]].
    split; [done|]. split; [by split|]. by left.
Qed.

Lemma delete_companions a now id st : table_ok st → companions_ok st → (∀ b, bt_rows st !! id = Some b → internal b = false) →
  companions_ok (Balance_Delete a now id st).1.
Proof.
  intros Ht Hc Hi. unfold Balance_Delete. destruct (bt_rows st !! id) as [b|] eqn:E; [|done]. destruct (live b) eqn:El; [|done].
  apply execute_ok; [done|]. apply companions_change.
  - intros id' b'. rewrite lookup_insert_Some. intros [[<- <-]|[_ H]] Hl Ho; [by rewrite deleted_not_live in Hl|by eapply Hc].
  - intros id' b' idc c _ _ Hic Hlc _ Hk. exists c. rewrite lookup_insert_ne; [done|]. intros <-. simplify_eq.
    destruct (tok_row _ Ht _ _ E) as [_ (_ & Hin & _)]. specialize (Hi _ eq_refl). rewrite (proj2 Hin Hk) in Hi. done.
Qed.

(** The rows of an account are deleted together. *)
Lemma delete_all_companions a now ids account st : companions_ok st →
  (∀ id b, bt_rows st !! id = Some b → live b = true → id ∈ ids ↔ mb_AccountID b = account) →
  companions_ok (DeleteAllByIDs a now ids st).1.
Proof.
  intros Hc Hids. unfold DeleteAllByIDs. destruct ids as [|id0 ids0]; [done|]. set (ids := id0 :: ids0) in *.
  destruct (forallb _ _); [|done]. apply execute_ok; [done|].
  assert (∀ id b', map_imap (λ id b, Some (if bool_decide (id ∈ ids) then deleted_row now b else b)) (bt_rows st) !! id = Some b' →
    live b' = true → (id ∉ ids) ∧ bt_rows st !! id = Some b') as Hrow.
  { intros id b'. rewrite map_lookup_imap. destruct (bt_rows st !! id) as [b|]; [|done]. cbn. intros [= <-] Hl.
    case_bool_decide; [by rewrite deleted_not_live in Hl|done]. }
  apply companions_change.
  - intros id b' Hb Hl Ho. destruct (Hrow _ _ Hb Hl) as [_ H]. by eapply Hc.
  - intros id b' idc c Hb Hl Hic Hlc Ha _. destruct (Hrow _ _ Hb Hl) as [Hn H]. exists c.
    rewrite map_lookup_imap, Hic. cbn. rewrite bool_decide_false; [done|]. intros Hin.
    apply Hn. apply (Hids _ _ H Hl). rewrite <- Ha. by apply (Hids _ _ Hic Hlc).
Qed.

(** *** The commands *)

Lemma default_row_ok id input now : row_ok (with_direction (empty_balance id (uuid_String (ci_OrganizationID input))
  (uuid_String (ci_LedgerID input)) (uuid_String (ci_AccountID input)) (ci_Alias input) DefaultBalanceKey (ci_AssetCode input)
  (ci_AccountType input) (ci_AllowSending input) (ci_AllowReceiving input) (defaultBalanceDirection (ci_AccountType input)) None now)).
Proof. split; [by eexists|]. split; [done|]. by split. Qed.

Lemma create_default_ok x c newID now input st : table_ok st → companions_ok st →
  let st' := (CreateDefaultBalance x c newID now input st).1 in table_ok st' ∧ companions_ok st'.
Proof.
  intros Ht Hc. unfold CreateDefaultBalance.
  destruct (FindByAccountIDAndKey x _ _ st) as [b|[]] eqn:E; try done. destruct newID as [id|e]; [|done]. split.
  - apply create_ok; [done|apply default_row_ok|]. by apply find_key_none in E.
  - by apply create_companions.
Qed.

Lemma EqualFold_lower s t : strings_EqualFold s t = false → strings_ToLower s ≠ strings_ToLower t.
Proof. unfold strings_EqualFold. by rewrite bool_decide_eq_false. Qed.

Lemma check_additional_ok cbi : check_additional cbi = Ok tt →
  strings_ToLower (cb_Key cbi) ≠ OverdraftBalanceKey ∧ Settings_Validate (cb_Settings cbi) = Ok tt ∧
  (∀ s, cb_Settings cbi = Some s → bs_BalanceScope s ≠ BalanceScopeInternal).
Proof.
  unfold check_additional. destruct (strings_EqualFold _ _) eqn:Ek; [done|]. apply EqualFold_lower in Ek.
  destruct (match cb_Direction cbi with None => _ | _ => _ end); [done|].
  destruct (Settings_Validate (cb_Settings cbi)) as [[]|]; [|done]. destruct (cb_Settings cbi) as [s|]; [|intros _; split; [done|by split]].
  case_bool_decide; [done|]. intros _. split; [done|]. split; [done|]. by intros s' [= <-].
Qed.

Lemma additional_row_ok id now cbi base : check_additional cbi = Ok tt → row_ok base → row_ok (with_direction (additional_balance id now cbi base)).
Proof.
  intros (Hk & Hs & Hi)%check_additional_ok (Ha & _ & _ & _). split; [done|]. split; [|by split].
  split; [|done]. cbn. unfold internal. cbn. destruct (cb_Settings cbi) as [s|]; [|done].
  rewrite bool_decide_false; [done|by apply Hi].
Qed.

Lemma create_additional_ok x1 x2 c id now account cbi st : table_ok st →
  let st' := (CreateAdditionalBalance x1 x2 c id now account cbi st).1 in
  table_ok st' ∧ (overdraft_allowed (cb_Settings cbi) = false → companions_ok st → companions_ok st').
Proof.
  intros Ht. unfold CreateAdditionalBalance. destruct (check_additional cbi) as [[]|e] eqn:Ec; [|done].
  destruct (FindByAccountIDAndKey x1 _ _ st) as [b|[]] eqn:E1; try done.
  destruct (FindByAccountIDAndKey x2 _ _ st) as [base|e] eqn:E2; [|done]. case_bool_decide; [done|].
  apply find_key_none in E1. apply find_key_ok in E2 as (idb & Hb & _ & Ha & _).
  pose proof (create_ok c (additional_balance id now cbi base) st Ht (additional_row_ok _ _ _ _ Ec (proj2 (tok_row _ Ht _ _ Hb)))) as H1.
  cbn in H1. rewrite Ha in H1. specialize (H1 E1).
  pose proof (create_companions c (additional_balance id now cbi base) st) as H2. cbn in H2.
  destruct (Balance_Create _ _ _) as [st' [b'|[]]]; cbn in *; (split; [done|intros; by apply H2]).
Qed.

Lemma companion_row_ok id now current : row_ok current → row_ok (with_direction (companion_row id now current)).
Proof. intros (Ha & _). split; [done|]. by split. Qed.

Lemma ensure_ok an current s st : table_ok st → (∃ id, bt_rows st !! id = Some current) →
  let '(st', r) := ensureOverdraftBalance an current s st in
  table_ok st' ∧ (companions_ok st → companions_ok st') ∧
  (∀ id b, bt_rows st !! id = Some b → bt_rows st' !! id = Some b) ∧
  (is_ok r = true → bs_AllowOverdraft s = true →
   overdraft_allowed (mb_Settings current) = true ∨ has_key st' (mb_AccountID current) OverdraftBalanceKey).
Proof.
  intros Ht [id0 Hcur]. unfold ensureOverdraftBalance. destruct (bs_AllowOverdraft s); [|done]. cbn [negb].
  destruct (overdraft_allowed (mb_Settings current)) eqn:Eo; [by split_and!; [| | |left]|].
  destruct (tok_row _ Ht _ _ Hcur) as [_ Hrow]. pose proof (proj1 Hrow) as [u Hu].
  assert (mb_AccountID current ≠ "") as Hne.
  { rewrite Hu. intros E. pose proof (uuid_String_length u) as Hl. rewrite E in Hl. done. }
  rewrite (bool_decide_false _ Hne), Hu, uuid_Parse_String.
  destruct (FindByAccountIDAndKey _ u _ st) as [b|e] eqn:Ef.
  { split; [done|]. split; [done|]. split; [done|]. intros _ _. right. apply find_key_ok in Ef as (id & ? & ? & ? & ?).
    exists id, b. by split_and!. }
  assert (∀ e', is_ok (Err e' : result BalanceError (option MBalance)) = true → False) as Hno by done.
  destruct e; try (by split_and!; [| | |intros ?%Hno]).
  destruct (ua_newID an) as [id|e]; [|by split_and!; [| | |intros ?%Hno]].
  apply find_key_none in Ef. set (row := companion_row id (ua_now an) current).
  assert (¬ has_key st (mb_AccountID row) (mb_Key row)) as Hn by (cbn; by rewrite Hu).
  pose proof (create_ok (ua_create an) row st Ht (companion_row_ok _ _ _ Hrow) Hn) as H1.
  pose proof (λ Hc, create_companions (ua_create an) row st Hc eq_refl) as H2.
  assert (∀ id b, bt_rows st !! id = Some b → bt_rows (Balance_Create (ua_create an) row st).1 !! id = Some b) as H3.
  { intros i b Hb. unfold Balance_Create. destruct (ua_create an); [|done|]; (case_bool_decide as Hid; [done|]);
      (destruct (existsb _ _); [done|]); cbn; rewrite lookup_insert_ne; try done; intros E; apply Hid; cbn; rewrite E; by eexists. }
  assert (∀ c, (Balance_Create (ua_create an) row st).2 = Ok c →
    has_key (Balance_Create (ua_create an) row st).1 (uuid_String u) OverdraftBalanceKey) as H4.
  { intros c. unfold Balance_Create. destruct (ua_create an); [|done|]; (case_bool_decide as Hid; [done|]);
      (destruct (existsb _ _); [done|]); cbn; [|done]. intros _. exists id, (with_direction row).
    split; [apply lookup_insert_eq|]. split; [done|]. by split. }
  destruct (Balance_Create (ua_create an) row st) as [st' [c|e]]; cbn in *.
  - split_and!; [done|done|done|]. intros _ _. right. by eapply H4.
  - case_bool_decide; [|by split_and!]. destruct (FindByAccountIDAndKey _ u _ st') as [c|e'] eqn:Er; [|by split_and!].
    split_and!; [done|done|done|]. intros _ _. right. apply find_key_ok in Er as (i & ? & ? & ? & ?). exists i, c. by split_and!.
Qed.

Lemma validate_update_ok s : validateUpdateSettings s = Ok tt → Settings_Validate (Some s) = Ok tt ∧ bs_BalanceScope s ≠ BalanceScopeInternal.
Proof. unfold validateUpdateSettings. destruct (Settings_Validate (Some s)) as [[]|]; [|done]. by case_bool_decide. Qed.

Lemma prepare_ok an current u st : table_ok st → (∃ id, bt_rows st !! id = Some current) → internal current = false →
  let '(st', r) := prepare_balance_update an current u st in
  table_ok st' ∧ (companions_ok st → companions_ok st') ∧
  (∀ id b, bt_rows st !! id = Some b → bt_rows st' !! id = Some b) ∧
  (is_ok r = true → update_ok u current ∧ (overdraft_allowed (ub_Settings u) = true →
     overdraft_allowed (mb_Settings current) = true ∨ has_key st' (mb_AccountID current) OverdraftBalanceKey)).
Proof.
  intros Ht Hc Hi. unfold prepare_balance_update. destruct (ub_Settings u) as [s|] eqn:Es.
  2: { split; [done|]. split; [done|]. split; [done|]. intros _. split; [|done]. unfold update_ok. by rewrite Es. }
  destruct (validateUpdateSettings s) as [[]|e] eqn:Ev; [|done].
  cbn [rbind]. destruct (enforceOverdraftTransition current s) as [[]|e]; [|done].
  apply validate_update_ok in Ev as [Hv Hsc]. pose proof (ensure_ok an current s st Ht Hc) as He.
  destruct (ensureOverdraftBalance an current s st) as [st' [c|e]]; destruct He as (H1 & H2 & H3 & H4); [|done].
  split; [done|]. split; [done|]. split; [done|]. intros _. split; [|by apply H4]. unfold update_ok. by rewrite Es.
Qed.

Lemma find_ok a id st b : Balance_Find a id st = Ok b → bt_rows st !! id = Some b ∧ live b = true.
Proof. unfold Balance_Find. destruct a, (bt_rows st !! id) as [c|]; try done. destruct (live c) eqn:E; [|done]. by intros [= <-]. Qed.

Lemma cache_settings_rows r w key s st : bt_rows (UpdateBalanceCacheSettings r w key s st) = bt_rows st.
Proof. unfold UpdateBalanceCacheSettings, cache_write. destruct (cache_read r key st); [|done]. by destruct w. Qed.

(** Only the rows matter. *)
Lemma table_ok_rows st st' : bt_rows st' = bt_rows st → table_ok st → table_ok st'.
Proof. intros E [H1 H2]. split; rewrite E; [exact H1|exact H2]. Qed.
Lemma companions_rows st st' : bt_rows st' = bt_rows st → companions_ok st → companions_ok st'.
Proof. intros E H id b. unfold has_key. rewrite E. apply H. Qed.

Lemma update_command_ok an id u st : table_ok st →
  let st' := (Update an id u st).1 in table_ok st' ∧ (companions_ok st → companions_ok st').
Proof.
  intros Ht. unfold Update. destruct (Balance_Find _ id st) as [cur|e] eqn:Ef; [|done]. apply find_ok in Ef as [Hcur _].
  destruct (internal cur) eqn:Ei; [done|].
  pose proof (prepare_ok an cur u st Ht (ex_intro _ id Hcur) Ei) as Hp.
  destruct (prepare_balance_update an cur u st) as [st1 [[]|e]]; destruct Hp as (H1 & H2 & H3 & H4); [|done].
  destruct (H4 eq_refl) as [Hu Ho]. specialize (H3 _ _ Hcur).
  assert (table_ok (Balance_Update (ua_update an) (ua_now an) id u st1).1) as T2.
  { apply update_stmt_ok; [done|]. intros b Hb. by simplify_eq. }
  assert (companions_ok st → companions_ok (Balance_Update (ua_update an) (ua_now an) id u st1).1) as C2.
  { intros Hc%H2. apply update_companions; [done|]. intros b Hb Ha. simplify_eq. by apply Ho. }
  destruct (Balance_Update _ _ id u st1) as [st2 [b|e]]; cbn [fst] in *; [|done].
  destruct (ub_Settings u) as [s|]; [|done].
  split; [|intros Hc; eapply companions_rows; [|by apply C2]]; [eapply table_ok_rows; [|exact T2]|]; apply cache_settings_rows.
Qed.

Lemma delete_command_ok an id st : table_ok st →
  let st' := (DeleteBalance an id st).1 in table_ok st' ∧ (companions_ok st → companions_ok st').
Proof.
  intros Ht. unfold DeleteBalance. destruct (Balance_Find _ id st) as [b|e] eqn:Ef; [|done]. apply find_ok in Ef as [Hb _].
  destruct (internal b) eqn:Ei; [done|]. destruct (has_funds b); [done|]. split; [by apply delete_stmt_ok|].
  intros Hc. apply delete_companions; [done|done|]. intros b' Hb'. by simplify_eq.
Qed.

Lemma toggle_ok t r now account allow st : table_ok st →
  let st' := (toggleBalanceTransfers t r now account allow st).1 in table_ok st' ∧ (companions_ok st → companions_ok st').
Proof.
  intros Ht. unfold toggleBalanceTransfers.
  pose proof (update_all_stmt_ok t now account allow st Ht) as H1. pose proof (update_all_companions t now account allow st) as H2.
  destruct (UpdateAllByAccountID t now account allow st) as [st' [[]|e]]; cbn in *; [done|].
  split; [by apply update_all_stmt_ok|]. intros Hc. by apply update_all_companions, H2.
Qed.

(** A toggle changes neither the accounts nor the life of the rows. *)
Lemma update_all_rows a now account allow st id b' : bt_rows (UpdateAllByAccountID a now account allow st).1 !! id = Some b' →
  ∃ b, bt_rows st !! id = Some b ∧ live b' = live b ∧ mb_AccountID b' = mb_AccountID b.
Proof.
  unfold UpdateAllByAccountID. destruct (existsb _ _); [|by eauto]. destruct a; cbn; [|by eauto|]; rewrite lookup_fmap;
    (destruct (bt_rows st !! id) as [b|]; [|done]); cbn; intros [= <-]; exists b; (split; [done|]); by destruct (live b && _).
Qed.

Lemma delete_all_command_ok an account st : table_ok st →
  let st' := (DeleteAllBalancesByAccountID an account st).1 in table_ok st' ∧ (companions_ok st → companions_ok st').
Proof.
  intros Ht. unfold DeleteAllBalancesByAccountID, ListByAccountID. destruct (da_find an); [|done..].
  set (mine := λ b, bool_decide (mb_AccountID b = uuid_String account)).
  destruct (rows_where mine st) as [|b0 l0] eqn:El; [done|].
  assert (∀ id b, bt_rows st !! id = Some b → live b = true → id ∈ mb_ID <$> (b0 :: l0) ↔ mb_AccountID b = uuid_String account) as Hids.
  { intros id b Hb Hl. rewrite <- El, list_elem_of_fmap. split.
    - intros (c & Hid & (idc & Hc & _ & Hm)%elem_rows_where). destruct (tok_row _ Ht _ _ Hc) as [Hidc _].
      assert (idc = id) as -> by congruence. simplify_eq. by apply bool_decide_eq_true in Hm.
    - intros Ha. exists b. destruct (tok_row _ Ht _ _ Hb) as [Hid _]. split; [done|]. apply elem_rows_where. exists id.
      split; [done|]. split; [done|]. by apply bool_decide_eq_true. }
  destruct (for_each _ _) as [[]|e]; [|done].
  pose proof (toggle_ok (da_toggle an) (da_rollback an) (da_now an) account false st Ht) as [T1 C1].
  assert (∀ st1, toggleBalanceTransfers (da_toggle an) (da_rollback an) (da_now an) account false st = (st1, Ok tt) →
    ∀ id b, bt_rows st1 !! id = Some b → live b = true → id ∈ mb_ID <$> (b0 :: l0) ↔ mb_AccountID b = uuid_String account) as Hids1.
  { intros st1. unfold toggleBalanceTransfers. destruct (UpdateAllByAccountID _ _ _ _ st) as [s' [[]|e]] eqn:E; [|done].
    intros [= <-] id b Hb Hl. pose proof (update_all_rows (da_toggle an) (da_now an) account false st id b) as H. rewrite E in H.
    destruct (H Hb) as (b1 & Hb1 & Hlb & ->). apply Hids; congruence. }
  destruct (toggleBalanceTransfers _ _ _ _ false st) as [st1 [[]|e]]; cbn [fst] in *; [|done].
  pose proof (delete_all_stmt_ok (da_delete an) (da_now an) (mb_ID <$> (b0 :: l0)) st1 T1) as T2.
  pose proof (λ Hc, delete_all_companions (da_delete an) (da_now an) _ _ st1 Hc (Hids1 st1 eq_refl)) as C2.
  destruct (DeleteAllByIDs _ _ _ st1) as [st2 [[]|e]]; cbn [fst] in *; [split; [done|]; intros Hc; by apply C2, C1|].
  pose proof (toggle_ok (da_restore an) (da_restore_rollback an) (da_now an) account true st2 T2) as [T3 C3].
  split; [done|]. intros Hc. by apply C3, C2, C1.
Qed.

(** *** Sequences of commands *)

Inductive balance_command :=
  | CmdCreateDefault (exists_ create : answer) (newID : result BalanceError string) (now : Time) (input : CreateBalanceInput)
  | CmdCreateAdditional (x1 x2 create : answer) (id : string) (now : Time) (account : uuid) (cbi : CreateAdditionalInput)
  | CmdUpdate (an : update_answers) (id : string) (u : UpdateBalance)
  | CmdDelete (an : delete_answers) (id : string)
  | CmdDeleteAll (an : delete_answers) (account : uuid).

(** A command from its first call to its last, with nothing in between. *)
Definition run_command (c : balance_command) st : balances :=
  match c with
  | CmdCreateDefault x cr newID now input => (CreateDefaultBalance x cr newID now input st).1
  | CmdCreateAdditional x1 x2 cr id now account cbi => (CreateAdditionalBalance x1 x2 cr id now account cbi st).1
  | CmdUpdate an id u => (Update an id u st).1
  | CmdDelete an id => (DeleteBalance an id st).1
  | CmdDeleteAll an account => (DeleteAllBalancesByAccountID an account st).1
  end.
Definition run_commands (cs : list balance_command) st : balances := fold_left (λ st c, run_command c st) cs st.

(** A balance is not created with its overdraft allowed. *)
Definition plain_creation (c : balance_command) : Prop :=
  match c with
  | CmdCreateAdditional _ _ _ _ _ _ cbi => overdraft_allowed (cb_Settings cbi) = false
  | _ => True
  end.

Lemma command_ok c st : table_ok st → table_ok (run_command c st) ∧ (plain_creation c → companions_ok st → companions_ok (run_command c st)).
Proof.
  intros Ht. destruct c; cbn [run_command plain_creation].
  - split; [|intros _ Hc; by apply create_default_ok].
    unfold CreateDefaultBalance. destruct (FindByAccountIDAndKey exists_ _ _ st) as [b|[]] eqn:E; try done.
    destruct newID as [id|e]; [|done]. apply create_ok; [done|apply default_row_ok|]. by apply find_key_none in E.
  - by apply create_additional_ok.
  - destruct (update_command_ok an id u st Ht) as [H1 H2]. split; [done|]. intros _. exact H2.
  - destruct (delete_command_ok an id st Ht) as [H1 H2]. split; [done|]. intros _. exact H2.
  - destruct (delete_all_command_ok an account st Ht) as [H1 H2]. split; [done|]. intros _. exact H2.
Qed.

(** C31: Whatever commands run on the balances of a ledger, and whatever calls fail in them:
    an account has one live balance per key, the internal balances are exactly the overdraft
    companions, which are debit balances, and all settings are valid; and every balance that may
    use its overdraft has a companion, if none was created with its overdraft allowed. *)
Theorem balance_commands_invariant cache cs : let st := run_commands cs (mkBalances ∅ cache) in
  table_ok st ∧ (Forall plain_creation cs → companions_ok st).
Proof.
  intros st. assert (table_ok (mkBalances ∅ cache) ∧ companions_ok (mkBalances ∅ cache)) as [H0 C0].
  { split; [split; [by intros id b H|by intros id b id' b' H]|by intros id b H]. }
  unfold st. clear st. revert H0 C0. generalize (mkBalances ∅ cache). induction cs as [|c cs IH]; intros st Ht Hc; [done|].
  destruct (command_ok c st Ht) as [T1 C1]. cbn. split.
  - assert (∀ l s, table_ok s → table_ok (run_commands l s)) as Hl; [|by apply Hl].
    induction l as [|c' l IHl]; intros s Hs; [done|]. cbn. apply IHl, command_ok, Hs.
  - intros [Hp Hps]%Forall_cons. apply (IH _ T1 (C1 Hp Hc)). exact Hps.
Qed.
End Invariant.

(** ** Rows of messages without a version *)

Section Legacy.
Context {D : DecimalLib} {DT : DecimalText}.
Implicit Types (b : MBalance) (a : answer) (st : balances).

(** The fields [UpdateBalances] sets. *)
Record balance_write := mkBalanceWrite { bw_ID : string; bw_Alias : string; bw_Available : dec; bw_OnHold : dec; bw_Version : Z }.
Implicit Types (w : balance_write).

Definition after_write (afterMap : gmap string MBalance) b : result string balance_write :=
  match afterMap !! mb_Alias b with
  | None => Err ("missing AFTER state for alias " +:+ mb_Alias b)
  | Some x => Ok (mkBalanceWrite (mb_ID b) (mb_Alias b) (mb_Available x) (mb_OnHold x) (mb_Version x))
  end.

Definition operated_write (fromTo : gmap string Amount) b : result string balance_write :=
  let! txBal := ToTransactionBalance b in
  let calculated := OperateBalances (map_get fromTo (mb_Alias b)) txBal in
  Ok (mkBalanceWrite (mb_ID b) (mb_Alias b) (bal_Available calculated) (bal_OnHold calculated) (int64_wrap (mb_Version b + 1))).

Definition collect_writes (f : MBalance → result string balance_write) (l : list MBalance) : result string (list balance_write) :=
  fold_res (λ ws b, let! w := f b in Ok (ws ++ [w])) [] l.

(** The rows to write: the states the script answered with, or, without them, the amounts of the
    transaction applied to the states before it. *)
Definition new_balances (validate : Responses) (before after : list MBalance) : result string (list balance_write) :=
  match after with
  | [] => collect_writes (operated_write (resp_To validate ∪ resp_From validate)) before
  | _ => collect_writes (after_write (fold_left (λ m x, <[mb_Alias x := x]> m) after ∅)) before
  end.

Definition written_row (now : Time) w b : MBalance :=
  mkMBalance (mb_ID b) (mb_OrganizationID b) (mb_LedgerID b) (mb_AccountID b) (mb_Alias b) (mb_Key b)
    (mb_AssetCode b) (bw_Available w) (bw_OnHold w) (bw_Version w) (mb_AccountType b) (mb_AllowSending b)
    (mb_AllowReceiving b) (mb_Direction b) (mb_OverdraftUsed b) (mb_Settings b) (mb_CreatedAt b) now (mb_DeletedAt b) (mb_Metadata b).

Definition write_row (now : Time) (rows : gmap string MBalance) w : gmap string MBalance :=
  match rows !! bw_ID w with
  | Some b => if live b && (mb_Version b <? bw_Version w) then <[bw_ID w := written_row now w b]> rows else rows
  | None => rows
  end.

(** The statements run in a transaction.  When one fails, the server aborts the transaction (the
    deferred function then commits it, its [err] being another variable, which rolls it back); a
    failure of the commit is logged and not returned. *)
Definition BalancesUpdate (run commit : answer) (now : Time) (ws : list balance_write) st : balances * result string unit :=
  match run with
  | Answered => (match commit with Refused => st | _ => with_rows (fold_left (write_row now) ws (bt_rows st)) st end, Ok tt)
  | _ => (st, Err "failed to execute update")
  end.

Definition UpdateBalances (run commit : answer) (now : Time) (validate : Responses) (before after : list MBalance) st
    : balances * result string unit :=
  match new_balances validate before after with
  | Err e => (st, Err e)
  | Ok [] => (st, Ok tt)
  | Ok ws => BalancesUpdate run commit now ws st
  end.

(** A row that was written, or that is newer, is not written again. *)
Definition settled (rows : gmap string MBalance) w : Prop :=
  ∀ b, rows !! bw_ID w = Some b → live b = true → bw_Version w ≤ mb_Version b.

Lemma settled_noop now rows w : settled rows w → write_row now rows w = rows.
Proof.
  unfold settled, write_row. destruct (rows !! bw_ID w) as [b|]; [|done]. intros H. specialize (H b eq_refl).
  destruct (live b); [|done]. cbn. specialize (H eq_refl). by destruct (Z.ltb_spec (mb_Version b) (bw_Version w)); [lia|].
Qed.

Lemma write_row_spec now rows w id : write_row now rows w !! id = rows !! id ∨
  ∃ b, id = bw_ID w ∧ rows !! id = Some b ∧ live b = true ∧ mb_Version b < bw_Version w ∧
       write_row now rows w !! id = Some (written_row now w b).
Proof.
  unfold write_row. destruct (rows !! bw_ID w) as [b|] eqn:E; [|by left]. destruct (live b) eqn:El; [|by left]. cbn.
  destruct (Z.ltb_spec (mb_Version b) (bw_Version w)); [|by left]. destruct (decide (bw_ID w = id)) as [<-|]; [|left; by apply lookup_insert_ne].
  right. exists b. rewrite lookup_insert_eq. by split_and!.
Qed.

Lemma settled_kept now rows w w' : settled rows w → settled (write_row now rows w') w.
Proof.
  intros H b Hb Hl. destruct (write_row_spec now rows w' (bw_ID w)) as [E|(b0 & E & Hb0 & Hl0 & Hv & Hw)].
  - rewrite E in Hb. by apply H.
  - rewrite Hw in Hb. injection Hb as <-. cbn. specialize (H _ Hb0 Hl0). lia.
Qed.

Lemma settled_written now rows w : settled (write_row now rows w) w.
Proof.
  intros b Hb Hl. destruct (write_row_spec now rows w (bw_ID w)) as [E|(b0 & _ & Hb0 & Hl0 & Hv & Hw)].
  - unfold write_row in E, Hb. destruct (rows !! bw_ID w) as [b0|] eqn:E0; [|congruence].
    destruct (live b0) eqn:El; cbn in *; [|congruence]. destruct (Z.ltb_spec (mb_Version b0) (bw_Version w)) as [Hv|Hv]; [|simplify_eq; lia].
    rewrite lookup_insert_eq in Hb. injection Hb as <-. cbn. lia.
  - rewrite Hw in Hb. injection Hb as <-. cbn. lia.
Qed.

Lemma writes_settled now ws rows : Forall (settled (fold_left (write_row now) ws rows)) ws.
Proof.
  assert (∀ l rows w, settled rows w → settled (fold_left (write_row now) l rows) w) as Hk.
  { induction l as [|x l IH]; intros r w H; [done|]. cbn. by apply IH, settled_kept. }
  revert rows. induction ws as [|w ws IH]; intros rows; [done|]. constructor; [|apply IH]. cbn. apply Hk, settled_written.
Qed.

Lemma settled_writes now ws rows : Forall (settled rows) ws → fold_left (write_row now) ws rows = rows.
Proof. induction ws as [|w ws IH]; intros H; [done|]. apply Forall_cons in H as [H1 H2]. cbn. rewrite settled_noop by done. by apply IH. Qed.

(** A message delivered again, at any later time, does not change the rows the first delivery
    wrote. *)
Theorem legacy_delivery_idempotent now now' validate before after st st' :
  UpdateBalances Answered Answered now validate before after st = (st', Ok tt) →
  UpdateBalances Answered Answered now' validate before after st' = (st', Ok tt).
Proof.
  unfold UpdateBalances. destruct (new_balances validate before after) as [[|w ws]|e]; [done| |done].
  generalize (w :: ws). intros l. unfold BalancesUpdate. intros [= <-]. cbn [bt_rows with_rows bt_cache].
  rewrite (settled_writes now' l); [done|apply writes_settled].
Qed.

(** Whatever fails, a row changes only while it is live, and only to a newer version; the
    settings, the permissions and the used overdraft stay. *)
Theorem legacy_write_is_newer run commit now validate before after st id b' :
  bt_rows (UpdateBalances run commit now validate before after st).1 !! id = Some b' →
  ∃ b, bt_rows st !! id = Some b ∧ mb_OverdraftUsed b' = mb_OverdraftUsed b ∧ mb_Settings b' = mb_Settings b ∧
    (b' = b ∨ live b = true ∧ mb_Version b < mb_Version b').
Proof.
  assert (∀ ws rows, fold_left (write_row now) ws rows !! id = Some b' →
    ∃ b, rows !! id = Some b ∧ mb_OverdraftUsed b' = mb_OverdraftUsed b ∧ mb_Settings b' = mb_Settings b ∧
      (b' = b ∨ live b = true ∧ mb_Version b < mb_Version b')) as Hw.
  { induction ws as [|w ws IH]; intros rows H; [exists b'; by split_and!; [..|left]|].
    destruct (IH _ H) as (b1 & H1 & Ho & Hs & Hv).
    destruct (write_row_spec now rows w id) as [E|(b0 & -> & Hb0 & Hl0 & Hlt & E)]; rewrite E in H1; [by exists b1|].
    injection H1 as <-. exists b0. cbn in *. split; [done|]. split; [done|]. split; [done|]. right. split; [done|].
    destruct Hv as [->|[_ Hv]]; cbn in *; lia. }
  assert (bt_rows st !! id = Some b' → ∃ b, bt_rows st !! id = Some b ∧ mb_OverdraftUsed b' = mb_OverdraftUsed b ∧
    mb_Settings b' = mb_Settings b ∧ (b' = b ∨ live b = true ∧ mb_Version b < mb_Version b')) as H0.
  { intros H. exists b'. by split_and!; [..|left]. }
  unfold UpdateBalances, BalancesUpdate. destruct (new_balances validate before after) as [[|w ws]|e]; [done| |done].
  destruct run, commit; cbn [fst]; done || apply Hw.
Qed.

(** A failed commit is answered with success, with nothing written. *)
Theorem failed_commit_reported_as_success now validate before after st ws : new_balances validate before after = Ok ws →
  UpdateBalances Answered Refused now validate before after st = (st, Ok tt).
Proof. unfold UpdateBalances. intros ->. by destruct ws. Qed.
End Legacy.

(** ** Funds *)

Section Funds.
Context {D : DecimalLib} {DT : DecimalText} {U : UuidLib} {UP : UuidParse}.
Implicit Types (b : MBalance) (a : answer) (st : balances) (dies : string → MBalance → Prop).

(** What no command changes in a row. *)
Definition same_funds b b' : Prop :=
  mb_ID b' = mb_ID b ∧ mb_AccountID b' = mb_AccountID b ∧ mb_Alias b' = mb_Alias b ∧ mb_Key b' = mb_Key b ∧
  mb_AssetCode b' = mb_AssetCode b ∧ mb_Available b' = mb_Available b ∧ mb_OnHold b' = mb_OnHold b ∧
  mb_Version b' = mb_Version b ∧ mb_Direction b' = mb_Direction b ∧ mb_OverdraftUsed b' = mb_OverdraftUsed b.
Definition unused b : Prop :=
  mb_Available b = dzero ∧ mb_OnHold b = dzero ∧ mb_OverdraftUsed b = dzero ∧ mb_Version b = 0.

(** Rows stay with their funds, die only where [dies] allows it, and new ones are unused. *)
Record evolves dies st st' : Prop := {
  ev_row id b : bt_rows st !! id = Some b →
    ∃ b', bt_rows st' !! id = Some b' ∧ same_funds b b' ∧ (live b' = live b ∨ dies id b);
  ev_new id b' : bt_rows st' !! id = Some b' → is_Some (bt_rows st !! id) ∨ unused b' }.

Lemma same_funds_refl b : same_funds b b.
Proof. by repeat split. Qed.

Lemma same_funds_trans b1 b2 b3 : same_funds b1 b2 → same_funds b2 b3 → same_funds b1 b3.
Proof. unfold same_funds. intuition congruence. Qed.

Lemma same_funds_unused b b' : same_funds b b' → unused b → unused b'.
Proof. unfold same_funds, unused. intuition congruence. Qed.

Lemma evolves_refl dies st : evolves dies st st.
Proof.
  split; [|by intros id b Hb; left; eexists].
  intros id b Hb. exists b. split; [done|]. split; [apply same_funds_refl|by left].
Qed.

Lemma evolves_rows dies st st1 st2 : bt_rows st2 = bt_rows st1 → evolves dies st st1 → evolves dies st st2.
Proof. intros E [H1 H2]. split; rewrite E; done. Qed.

Lemma evolves_trans dies dies' st st1 st2 :
  (∀ id b b1, same_funds b b1 → dies' id b1 → dies id b) → evolves dies st st1 → evolves dies' st1 st2 → evolves dies st st2.
Proof.
  intros HPQ [H1 N1] [H2 N2]. split.
  - intros id b Hb. destruct (H1 _ _ Hb) as (b1 & Hb1 & Hs1 & Hl1), (H2 _ _ Hb1) as (b2 & Hb2 & Hs2 & Hl2).
    exists b2. split; [done|]. split; [by eapply same_funds_trans|]. destruct Hl2 as [->|Hd]; [done|]. right. by eapply HPQ.
  - intros id b2 Hb2. destruct (N2 _ _ Hb2) as [[b1 Hb1]|?]; [|by right]. destruct (N1 _ _ Hb1) as [?|Hu]; [by left|].
    right. destruct (H2 _ _ Hb1) as (b2' & Hb2' & Hs & _). simplify_eq. by eapply same_funds_unused.
Qed.

(** Rows that change in place. *)
Lemma evolves_in_place dies st rows' :
  (∀ id, is_Some (rows' !! id) → is_Some (bt_rows st !! id)) →
  (∀ id b, bt_rows st !! id = Some b → ∃ b', rows' !! id = Some b' ∧ same_funds b b' ∧ (live b' = live b ∨ dies id b)) →
  evolves dies st (with_rows rows' st).
Proof. intros Hd Hr. split; [exact Hr|]. intros id b' Hb. left. apply Hd. by eexists. Qed.

Lemma create_evolves dies a b st : unused b → evolves dies st (Balance_Create a b st).1.
Proof.
  intros Hb. unfold Balance_Create. destruct a; [|apply evolves_refl|];
    (case_bool_decide as Hid; [apply evolves_refl|]; destruct (existsb _ _); [apply evolves_refl|]; cbn; split; cbn;
     [intros id b' Hb'; exists b'; rewrite lookup_insert_ne; [split; [done|]; split; [apply same_funds_refl|by left]|];
        intros <-; apply Hid; by eexists
     |intros id b'; rewrite lookup_insert_Some; intros [[_ <-]|[_ H]]; [by right|left; by eexists]]).
Qed.

Lemma update_evolves dies a now id u st : evolves dies st (Balance_Update a now id u st).1.
Proof.
  unfold Balance_Update. destruct (bt_rows st !! id) as [b|] eqn:E; [|apply evolves_refl].
  destruct (live b); [|apply evolves_refl]. apply execute_ok; [apply evolves_refl|]. apply evolves_in_place.
  - intros id' [b' H]. apply lookup_insert_Some in H as [[<- _]|[_ H]]; by eexists.
  - intros id' b' Hb'. destruct (decide (id = id')) as [<-|Hne].
    + simplify_eq. eexists. rewrite lookup_insert_eq. split; [done|]. by split; [repeat split|left].
    + exists b'. rewrite lookup_insert_ne by done. split; [done|]. split; [apply same_funds_refl|by left].
Qed.

Lemma delete_evolves dies a now id st : (∀ b, bt_rows st !! id = Some b → dies id b) → evolves dies st (Balance_Delete a now id st).1.
Proof.
  intros Hd. unfold Balance_Delete. destruct (bt_rows st !! id) as [b|] eqn:E; [|apply evolves_refl].
  destruct (live b); [|apply evolves_refl]. apply execute_ok; [apply evolves_refl|]. apply evolves_in_place.
  - intros id' [b' H]. apply lookup_insert_Some in H as [[<- _]|[_ H]]; by eexists.
  - intros id' b' Hb'. destruct (decide (id = id')) as [<-|Hne].
    + simplify_eq. eexists. rewrite lookup_insert_eq. split; [done|]. split; [by repeat split|]. right. by apply Hd.
    + exists b'. rewrite lookup_insert_ne by done. split; [done|]. split; [apply same_funds_refl|by left].
Qed.

Lemma delete_all_evolves dies a now ids st : (∀ id b, id ∈ ids → bt_rows st !! id = Some b → dies id b) →
  evolves dies st (DeleteAllByIDs a now ids st).1.
Proof.
  intros Hd. unfold DeleteAllByIDs. destruct ids as [|id0 ids0]; [apply evolves_refl|]. destruct (forallb _ _); [|apply evolves_refl].
  apply execute_ok; [apply evolves_refl|]. apply evolves_in_place.
  - intros id [b' H]. rewrite map_lookup_imap in H. by destruct (bt_rows st !! id).
  - intros id b Hb. rewrite map_lookup_imap, Hb. cbn. eexists. split; [done|].
    case_bool_decide; split; [by repeat split|right; by apply Hd|apply same_funds_refl|by left].
Qed.

Lemma update_all_evolves dies a now account allow st : evolves dies st (UpdateAllByAccountID a now account allow st).1.
Proof.
  unfold UpdateAllByAccountID. destruct (existsb _ _); [|apply evolves_refl].
  apply execute_ok; [apply evolves_refl|]. apply evolves_in_place.
  - intros id [b' H]. rewrite lookup_fmap in H. by destruct (bt_rows st !! id).
  - intros id b Hb. rewrite lookup_fmap, Hb. cbn. eexists. split; [done|].
    destruct (live b && _); split; [by repeat split|by left|apply same_funds_refl|by left].
Qed.

Lemma toggle_evolves dies t r now account allow st : evolves dies st (toggleBalanceTransfers t r now account allow st).1.
Proof.
  unfold toggleBalanceTransfers. pose proof (update_all_evolves dies t now account allow st) as H1.
  destruct (UpdateAllByAccountID t now account allow st) as [st1 [[]|e]]; [exact H1|]. cbn in *.
  eapply (evolves_trans dies (λ _ _, False)); [done|exact H1|apply update_all_evolves].
Qed.

Lemma ensure_evolves dies an current s st : evolves dies st (ensureOverdraftBalance an current s st).1.
Proof.
  unfold ensureOverdraftBalance. destruct (negb _); [apply evolves_refl|]. destruct (overdraft_allowed _); [apply evolves_refl|].
  destruct (uuid_Parse _) as [account|]; [|apply evolves_refl].
  destruct (FindByAccountIDAndKey (ua_find_companion an) account _ st) as [b|[]]; try apply evolves_refl.
  destruct (ua_newID an) as [id|e]; [|apply evolves_refl].
  pose proof (create_evolves dies (ua_create an) (companion_row id (ua_now an) current) st) as Hc.
  destruct (Balance_Create _ _ st) as [st' [c|e]]; cbn in *; [by apply Hc|].
  case_bool_decide; [|by apply Hc]. destruct (FindByAccountIDAndKey _ _ _ st'); by apply Hc.
Qed.

(** The cache keeps its entries, with their amounts. *)
Definition same_amounts (e e' : BalanceRedis) : Prop :=
  br_ID e' = br_ID e ∧ br_Available e' = br_Available e ∧ br_OnHold e' = br_OnHold e ∧ br_Version e' = br_Version e ∧
  br_OverdraftUsed e' = br_OverdraftUsed e ∧ br_AllowSending e' = br_AllowSending e ∧ br_AllowReceiving e' = br_AllowReceiving e.
Definition cache_kept (m m' : gmap string BalanceRedis) : Prop := ∀ key, option_relation same_amounts (λ _, False) (λ _, False) (m !! key) (m' !! key).

Lemma cache_kept_refl m : cache_kept m m.
Proof. intros key. destruct (m !! key); [by repeat split|done]. Qed.

Lemma settings_cache_kept r w key s st : cache_kept (bt_cache st) (bt_cache (UpdateBalanceCacheSettings r w key s st)).
Proof.
  unfold UpdateBalanceCacheSettings, cache_read, cache_write. destruct r; [|apply cache_kept_refl..].
  destruct (bt_cache st !! key) as [e|] eqn:E; [|apply cache_kept_refl]. destruct w; [|apply cache_kept_refl|]; cbn.
  all: intros k; destruct (decide (key = k)) as [<-|Hne]; [rewrite lookup_insert_eq, E; by repeat split|].
  all: rewrite lookup_insert_ne by done; apply cache_kept_refl.
Qed.

(** The statements on the table leave the cache. *)
Lemma create_cache a b st : bt_cache (Balance_Create a b st).1 = bt_cache st.
Proof. unfold Balance_Create. destruct a; [|done|]; case_bool_decide; [done| |done|]; by destruct (existsb _ _). Qed.
Lemma update_cache a now id u st : bt_cache (Balance_Update a now id u st).1 = bt_cache st.
Proof. unfold Balance_Update. destruct (bt_rows st !! id) as [b|]; [|done]. destruct (live b); [by destruct a|done]. Qed.
Lemma delete_cache a now id st : bt_cache (Balance_Delete a now id st).1 = bt_cache st.
Proof. unfold Balance_Delete. destruct (bt_rows st !! id) as [b|]; [|done]. destruct (live b); [by destruct a|done]. Qed.
Lemma delete_all_cache a now ids st : bt_cache (DeleteAllByIDs a now ids st).1 = bt_cache st.
Proof. unfold DeleteAllByIDs. destruct ids; [done|]. destruct (forallb _ _); [by destruct a|done]. Qed.
Lemma update_all_cache a now account allow st : bt_cache (UpdateAllByAccountID a now account allow st).1 = bt_cache st.
Proof. unfold UpdateAllByAccountID. destruct (existsb _ _); [by destruct a|done]. Qed.
Lemma toggle_cache t r now account allow st : bt_cache (toggleBalanceTransfers t r now account allow st).1 = bt_cache st.
Proof.
  unfold toggleBalanceTransfers. pose proof (update_all_cache t now account allow st) as H.
  destruct (UpdateAllByAccountID t now account allow st) as [st1 [[]|e]]; cbn in *; [done|]. by rewrite update_all_cache.
Qed.
Lemma ensure_cache an current s st : bt_cache (ensureOverdraftBalance an current s st).1 = bt_cache st.
Proof.
  unfold ensureOverdraftBalance. destruct (negb _); [done|]. destruct (overdraft_allowed _); [done|].
  destruct (uuid_Parse _) as [account|]; [|done].
  destruct (FindByAccountIDAndKey (ua_find_companion an) account _ st) as [b|[]]; try done.
  destruct (ua_newID an) as [id|e]; [|done].
  pose proof (create_cache (ua_create an) (companion_row id (ua_now an) current) st) as Hc.
  destruct (Balance_Create _ _ st) as [st' [c|e]]; cbn in *; [done|]. case_bool_decide; [|done]. by destruct (FindByAccountIDAndKey _ _ _ st').
Qed.

(** The rows a command may delete: the one named, if it is without funds and not internal; those
    of the account named, if none of its live balances is in the cache. *)
Definition may_delete (c : balance_command) st (id : string) b : Prop :=
  match c with
  | CmdDelete _ id' => id = id' ∧ has_funds b = false ∧ internal b = false
  | CmdDeleteAll _ account => mb_AccountID b = uuid_String account ∧
      ∀ id' b', bt_rows st !! id' = Some b' → live b' = true → mb_AccountID b' = uuid_String account → bt_cache st !! cache_key b' = None
  | _ => False
  end.

Lemma update_command_funds an id u st : let st' := (Update an id u st).1 in
  evolves (λ _ _, False) st st' ∧ cache_kept (bt_cache st) (bt_cache st').
Proof.
  unfold Update. assert (evolves (λ _ _, False) st st ∧ cache_kept (bt_cache st) (bt_cache st)) as H0
    by (split; [apply evolves_refl|apply cache_kept_refl]).
  destruct (Balance_Find _ id st) as [cur|e]; [|done]. destruct (internal cur); [done|].
  assert (evolves (λ _ _, False) st (prepare_balance_update an cur u st).1 ∧ bt_cache (prepare_balance_update an cur u st).1 = bt_cache st) as [E1 K1].
  { unfold prepare_balance_update. destruct (ub_Settings u) as [s|]; [|by split; [apply evolves_refl|]].
    destruct (rbind _ _) as [|e]; [|by split; [apply evolves_refl|]].
    pose proof (ensure_evolves (λ _ _, False) an cur s st). pose proof (ensure_cache an cur s st).
    by destruct (ensureOverdraftBalance an cur s st) as [st' []]. }
  destruct (prepare_balance_update an cur u st) as [st1 [[]|e]]; cbn [fst] in *; [|split; [done|rewrite K1; apply cache_kept_refl]].
  pose proof (update_evolves (λ _ _, False) (ua_update an) (ua_now an) id u st1) as E2.
  pose proof (update_cache (ua_update an) (ua_now an) id u st1) as K2. rewrite K1 in K2.
  assert (∀ st2, (Balance_Update (ua_update an) (ua_now an) id u st1).1 = st2 → evolves (λ _ _, False) st st2) as E3.
  { intros st2 <-. by eapply (evolves_trans _ (λ _ _, False)). }
  destruct (Balance_Update _ _ id u st1) as [st2 [b|e]]; cbn [fst] in *.
  - destruct (ub_Settings u) as [s|]; cbn [fst].
    + split; [eapply evolves_rows; [apply cache_settings_rows|by apply E3]|]. rewrite <- K2. apply settings_cache_kept.
    + split; [by apply E3|]. rewrite K2. apply cache_kept_refl.
  - split; [by apply E3|]. rewrite K2. apply cache_kept_refl.
Qed.

Lemma deletable_uncached an st l : for_each (check_deletable an st) l = Ok tt → ∀ b, b ∈ l → bt_cache st !! cache_key b = None.
Proof.
  intros H%for_each_Ok b Hb. rewrite Forall_forall in H. specialize (H b Hb). unfold check_deletable in H.
  destruct (da_cache an (cache_key b)), (bt_cache st !! cache_key b); done.
Qed.

Lemma delete_all_command_funds an account st : table_ok st → let st' := (DeleteAllBalancesByAccountID an account st).1 in
  evolves (may_delete (CmdDeleteAll an account) st) st st' ∧ bt_cache st' = bt_cache st.
Proof.
  intros Ht. set (dies := may_delete _ st). unfold DeleteAllBalancesByAccountID, ListByAccountID.
  assert (evolves dies st st ∧ bt_cache st = bt_cache st) as H0 by (split; [apply evolves_refl|done]).
  destruct (da_find an); [|done..].
  destruct (rows_where _ st) as [|b0 l0] eqn:El; [done|]. destruct (for_each _ _) as [[]|e] eqn:Ef; [|done].
  assert (∀ id b, id ∈ mb_ID <$> (b0 :: l0) → bt_rows st !! id = Some b → dies id b) as Hd.
  { intros id b (c & -> & Hc)%list_elem_of_fmap Hb. rewrite <- El in Hc. apply elem_rows_where in Hc as (idc & Hc & Hl & Ha).
    destruct (tok_row _ Ht _ _ Hc) as [<- _]. simplify_eq. apply bool_decide_eq_true in Ha. split; [done|].
    intros id' b' Hb' Hl' Ha'. eapply deletable_uncached; [exact Ef|]. rewrite <- El. apply elem_rows_where. exists id'.
    split; [done|]. split; [done|]. by apply bool_decide_eq_true. }
  pose proof (toggle_evolves dies (da_toggle an) (da_rollback an) (da_now an) account false st) as E1.
  pose proof (toggle_cache (da_toggle an) (da_rollback an) (da_now an) account false st) as K1.
  destruct (toggleBalanceTransfers _ _ _ _ false st) as [st1 [[]|e]]; cbn [fst] in *; [|done].
  assert (evolves dies st (DeleteAllByIDs (da_delete an) (da_now an) (mb_ID <$> (b0 :: l0)) st1).1) as E2.
  { eapply (evolves_trans _ (λ id b1, ∃ b, bt_rows st !! id = Some b ∧ same_funds b b1 ∧ dies id b)); [|exact E1|].
    - intros id b b1 Hs (b' & Hb' & Hs' & Hdb). destruct Hdb as [Ha Hc]. split; [|exact Hc].
      unfold same_funds in Hs, Hs'. intuition congruence.
    - apply delete_all_evolves. intros id b1 Hin Hb1. assert (is_Some (bt_rows st !! id)) as [b Hb].
      { apply list_elem_of_fmap in Hin as (c & -> & Hc). rewrite <- El in Hc. apply elem_rows_where in Hc as (idc & Hc & _).
        destruct (tok_row _ Ht _ _ Hc) as [<- _]. by eexists. }
      exists b. split; [done|]. split; [|by apply Hd]. destruct (ev_row _ _ _ E1 _ _ Hb) as (b2 & Hb2 & Hs & _). by simplify_eq. }
  pose proof (delete_all_cache (da_delete an) (da_now an) (mb_ID <$> (b0 :: l0)) st1) as K2.
  destruct (DeleteAllByIDs _ _ _ st1) as [st2 [[]|e]]; cbn [fst] in *; [split; [done|congruence]|].
  split; [eapply (evolves_trans _ (λ _ _, False)); [done|exact E2|apply toggle_evolves]|]. rewrite toggle_cache. congruence.
Qed.

(** C32: A command on the balances that runs by itself moves no funds: whatever calls fail in it,
    every row keeps its place, amounts and version, every entry of the cache keeps its amounts, and
    a new row is unused.  A row is deleted only by the deletion of a balance without funds that is
    not a companion, or by the deletion of its account, none of whose balances is in the cache.
    (By itself: no transaction and no other command runs between its calls.  If the script changes
    an entry between the GET and the SET of a change of settings, the change of the script is lost,
    see [settings_rewrite_loses_transaction].) *)
Theorem commands_keep_funds c st : table_ok st →
  evolves (may_delete c st) st (run_command c st) ∧ cache_kept (bt_cache st) (bt_cache (run_command c st)).
Proof.
  intros Ht. assert (evolves (may_delete c st) st st ∧ cache_kept (bt_cache st) (bt_cache st)) as H0
    by (split; [apply evolves_refl|apply cache_kept_refl]).
  destruct c as [x cr newID now input|x1 x2 cr id now account cbi|an id u|an id|an account]; cbn [run_command].
  - unfold CreateDefaultBalance. destruct (FindByAccountIDAndKey x _ _ st) as [b|[]]; try done. destruct newID as [id|e]; [|done].
    split; [by apply create_evolves|]. rewrite create_cache. apply cache_kept_refl.
  - unfold CreateAdditionalBalance. destruct (check_additional cbi); [|done].
    destruct (FindByAccountIDAndKey x1 _ _ st) as [b|[]]; try done. destruct (FindByAccountIDAndKey x2 _ _ st) as [base|e]; [|done].
    case_bool_decide; [done|].
    pose proof (create_evolves (may_delete (CmdCreateAdditional x1 x2 cr id now account cbi) st) cr (additional_balance id now cbi base) st) as He.
    pose proof (create_cache cr (additional_balance id now cbi base) st) as Hc.
    destruct (Balance_Create cr _ st) as [st' [b'|[]]]; cbn [fst] in *; rewrite Hc; (split; [by apply He|apply cache_kept_refl]).
  - apply update_command_funds.
  - unfold DeleteBalance. destruct (Balance_Find _ id st) as [b|e] eqn:Ef; [|done]. apply find_ok in Ef as [Hb _].
    destruct (internal b) eqn:Ei; [done|]. destruct (has_funds b) eqn:Eh; [done|]. split.
    + apply delete_evolves. intros b' Hb'. simplify_eq. done.
    + rewrite delete_cache. apply cache_kept_refl.
  - destruct (delete_all_command_funds an account st Ht) as [H1 ->]. split; [exact H1|apply cache_kept_refl].
Qed.
End Funds.

(** ** Samples *)

Module BalanceSample.
Definition account : @uuid FourIds.lib := (false, true).
Definition row (available used : Z) (settings : option BalanceSettings) : @MBalance Fixed.lib :=
  mkMBalance "b1" "org" "ledger" (uuid_String account) "@alice" "default" "USD" (fx available 0) (fx 0 0) 7 "deposit"
    true true DirectionCredit (fx used 0) settings 0 0 None ∅.
Definition entry (available : Z) (used : string) : @BalanceRedis Fixed.lib :=
  mkBalanceRedis "b1" "@alice" "default" (uuid_String account) "USD" (fx available 0) (fx 0 0) 8 "deposit" 1 1 DirectionCredit used
    1 1 "500" "transactional".
Definition state (b : @MBalance Fixed.lib) (cache : option (@BalanceRedis Fixed.lib)) : @balances Fixed.lib :=
  mkBalances {[mb_ID b := b]} (from_option (λ e, {[cache_key b := e]}) ∅ cache).
Definition blank : @balances Fixed.lib := mkBalances ∅ ∅.
Definition all_answered : update_answers :=
  mkUpdateAnswers Answered Answered (Ok "b2") Answered Answered Answered Answered Answered Answered 5.
Definition deletion (delete : answer) : delete_answers :=
  mkDeleteAnswers Answered (λ _, Answered) Answered Answered delete Answered Answered 5.
Definition capped (limit : string) : BalanceSettings := mkBalanceSettings "transactional" true true (Some limit).
Definition uncapped : BalanceSettings := mkBalanceSettings "transactional" true false None.
Definition units (d : @dec Fixed.lib) : Z := Fixed.coef d.
Definition got {A} (r : result BalanceError A) : option A := match r with Ok x => Some x | Err _ => None end.
Definition sending (r : result BalanceError (list (@MBalance Fixed.lib))) : option (list bool) :=
  match r with Ok l => Some (map mb_AllowSending l) | Err _ => None end.
Definition view (st : @balances Fixed.lib) (id : string) : option (bool * bool * bool * Z * option BalanceSettings) :=
  (λ b, (live b, mb_AllowSending b, mb_AllowReceiving b, units (mb_Available b), mb_Settings b)) <$> bt_rows st !! id.
End BalanceSample.

Import BalanceSample.

(** An account is created with its default balance, and an overdraft without a limit is allowed:
    the companion is there. *)
Lemma balance_commands_invariant_witness :
  let input := mkCreateInput (U := FourIds.lib) account "@alice" "USD" "deposit" true true (true, true) (true, false) in
  let cs := [CmdCreateDefault (U := FourIds.lib) Answered Answered (Ok "b1") 0 input;
             CmdUpdate all_answered "b1" (mkUpdateBalance None None (Some uncapped));
             CmdDelete (deletion Answered) "b2"] in
  let st := run_commands (UP := FourIds.parse) (DT := FixedText.text) cs blank in
  table_ok (DT := FixedText.text) (U := FourIds.lib) st ∧ companions_ok st ∧ view st "b1" = Some (true, true, true, 0, Some uncapped) ∧
  view st "b2" = Some (true, true, true, 0, Some (mkBalanceSettings BalanceScopeInternal false false None)).
Proof.
  intros input cs st.
  destruct (balance_commands_invariant (PL := FourIds.parse_laws) (DT := FixedText.text) ∅ cs) as [H1 H2].
  split; [exact H1|]. split; [apply H2; by repeat constructor|]. split; vm_compute; reflexivity.
Defined.

Lemma sample_table_ok b cache : mb_ID b = "b1" → mb_AccountID b = uuid_String account → mb_Key b = "default" → internal b = false →
  Settings_Validate (DT := FixedText.text) (mb_Settings b) = Ok tt → table_ok (DT := FixedText.text) (U := FourIds.lib) (state b cache).
Proof.
  intros Hid Ha Hk Hi Hs. split; unfold state; cbn.
  - intros id b' [<- <-]%lookup_singleton_Some. split; [done|]. split; [by exists account|]. split; [|split; [|done]]; by rewrite Hi, Hk || rewrite Hk.
  - intros id b1 id' b2 [<- _]%lookup_singleton_Some [<- _]%lookup_singleton_Some. done.
Qed.

(** A limit is set on a balance whose funds are newer in the cache. *)
Lemma commands_keep_funds_witness :
  let st := state (row 100 0 (Some uncapped)) (Some (entry 70 "0")) in
  let c := CmdUpdate (U := FourIds.lib) all_answered "b1" (mkUpdateBalance None None (Some (capped "200"))) in
  let st' := run_command (UP := FourIds.parse) (DT := FixedText.text) c st in
  table_ok (DT := FixedText.text) (U := FourIds.lib) st ∧ evolves (may_delete c st) st st' ∧ cache_kept (bt_cache st) (bt_cache st') ∧
  view st' "b1" = Some (true, true, true, 100, Some (capped "200")) ∧
  (λ e, (units (br_Available e), redis_settings e)) <$> (bt_cache st' !! "@alice#default") = Some (70, Some (capped "200")).
Proof.
  intros st c st'. assert (table_ok (DT := FixedText.text) (U := FourIds.lib) st) as Ht by (apply sample_table_ok; vm_compute; reflexivity). split; [exact Ht|].
  destruct (commands_keep_funds (UP := FourIds.parse) (DT := FixedText.text) c st Ht) as [H1 H2].
  split; [exact H1|]. split; [exact H2|]. split; vm_compute; reflexivity.
Defined.

(** ** Behaviour the comments do not describe *)

(** The deletion of an account deletes a balance with funds that is not in the cache: the check of
    the funds is behind the [continue] of the cache miss. *)
Theorem account_deleted_with_funds :
  let '(st', r) := DeleteAllBalancesByAccountID (deletion Answered) account (state (row 100 0 None) None) in
  r = Ok tt ∧ view st' "b1" = Some (false, false, false, 100, None).
Proof. split; vm_compute; reflexivity. Qed.

(** A deletion that fails allows all balances of the account to send and receive, also a
    blocked one. *)
Theorem failed_deletion_unblocks :
  let blocked := updated_row 1 (mkUpdateBalance (Some false) (Some false) None) (row 0 0 None) in
  let '(st', r) := DeleteAllBalancesByAccountID (deletion Refused) account (state blocked None) in
  r = Err BalanceCallFailed ∧ view st' "b1" = Some (true, true, true, 0, None).
Proof. split; vm_compute; reflexivity. Qed.

(** A balance may be created with its overdraft allowed; there is no companion then, and no
    update creates one. *)
Theorem created_overdraft_without_companion :
  let cbi := mkAdditional "savings" None None None (Some uncapped) in
  let '(st1, r1) := CreateAdditionalBalance Answered Answered Answered "b9" 1 account cbi (state (row 100 0 None) None) in
  let '(st2, r2) := Update (DT := FixedText.text) (UP := FourIds.parse) all_answered "b9" (mkUpdateBalance None None (Some (capped "50"))) st1 in
  is_ok r1 = true ∧ is_ok r2 = true ∧ view st2 "b9" = Some (true, true, true, 0, Some (capped "50")) ∧
  FindByAccountIDAndKey Answered account OverdraftBalanceKey st2 = Err ErrBalanceNotFound.
Proof. split; [|split; [|split]]; vm_compute; reflexivity. Qed.

(** The settings in the cache are rewritten by a GET and a SET: what a transaction stores in
    between is overwritten with the amounts before it. *)
Theorem settings_rewrite_loses_transaction {D : DecimalLib} key s (e e' : BalanceRedis) (st : balances) :
  cache_read Answered key st = Some e →
  let st' := cache_write Answered key (rewrite_settings s e) (cache_write Answered key e' st) in
  ∃ e'', bt_cache st' !! key = Some e'' ∧ br_Available e'' = br_Available e ∧ br_OnHold e'' = br_OnHold e ∧
    br_Version e'' = br_Version e ∧ br_OverdraftUsed e'' = br_OverdraftUsed e.
Proof. intros _. exists (rewrite_settings s e). split; [apply lookup_insert_eq|]. by repeat split. Qed.

(** A balance that is blocked while it is in the cache still sends: the reader of balances takes
    the permissions of the cache, which the update leaves. *)
Theorem blocked_balance_still_sends :
  let '(st', r) := Update (DT := FixedText.text) (UP := FourIds.parse) all_answered "b1" (mkUpdateBalance (Some false) None None)
                     (state (row 100 0 None) (Some (entry 70 "0"))) in
  is_ok r = true ∧ view st' "b1" = Some (true, false, true, 100, None) ∧
  sending (GetBalances (λ _, Answered) Answered "org" "ledger" ["@alice#default"] st') = Some [true].
Proof. split; [|split]; vm_compute; reflexivity. Qed.

(** A balance is deleted by its row, although the cache holds funds of it. *)
Theorem deletion_ignores_cache :
  let '(st', r) := DeleteBalance (deletion Answered) "b1" (state (row 0 0 None) (Some (entry 70 "0"))) in
  r = Ok tt ∧ view st' "b1" = Some (false, true, true, 0, None) ∧ bt_cache st' = {["@alice#default" := entry 70 "0"]}.
Proof. split; [|split]; vm_compute; reflexivity. Qed.

(** A limit is accepted below the usage the cache knows of. *)
Theorem limit_below_cached_usage :
  let '(st', r) := Update (DT := FixedText.text) (UP := FourIds.parse) all_answered "b1" (mkUpdateBalance None None (Some (capped "100")))
                     (state (row 0 0 (Some uncapped)) (Some (entry 0 "300"))) in
  (λ b, (units (mb_OverdraftUsed b), mb_Settings b)) <$> got r = Some (300, Some (capped "100")).
Proof. vm_compute. reflexivity. Qed.
