(* ===== verification/Accounts.v ===== *)
(** * Accounts and assets

    src/components/ledger/internal/services/command: create_account.go, update_account.go,
    delete_account.go, create_asset.go, delete_asset.go and the metadata commands, on the tables of
    one ledger (adapters/postgres/account, adapters/postgres/asset), with the balances of
    [BalanceCommands] and the settings of [Settings].

    A deleted row stays in its table.  Portfolios, segments, account types and holders are read
    only: what the calls to them answer is an argument, as are failures, clock readings and new
    identifiers.  Events are not modelled.  LIKE matches bytes.  Commands are served one at a
    time: no other command runs between the checks of a command and its writes; the two parts
    of a creation are definitions of their own, for two creations that overlap. *)

From Stdlib Require Import ZArith Lia Ascii.
From stdpp Require Import base gmap strings list.
From S2P Require Import Prelude Decimals GoStrings Transaction BalanceOps SendValidation MBalance CacheKeys.
From S2P Require Import BalancePlan GoTime WritePath Settings CreateTransaction BalanceCommands.
Local Open Scope string_scope.
Local Open Scope list_scope.
Local Open Scope Z_scope.

(** ** Data *)

Abbreviation metadata_map := (gmap string AnyValue).

Record AccountStatus := mkAccountStatus { as_Code : string; as_Description : option string }.
Definition AccountStatus_IsEmpty (s : AccountStatus) : bool :=
  bool_decide (as_Code s = "") && bool_decide (as_Description s = None).

Record Account := mkAccount {
  ac_ID : string; ac_Name : string; ac_ParentAccountID : option string; ac_EntityID : option string;
  ac_HolderID : option string; ac_AssetCode : string; ac_OrganizationID : string; ac_LedgerID : string;
  ac_PortfolioID : option string; ac_SegmentID : option string; ac_Status : AccountStatus; ac_Alias : option string;
  ac_Type : string; ac_Blocked : option bool; ac_HolderCheckSkipped : bool;
  ac_CreatedAt : Time; ac_UpdatedAt : Time; ac_DeletedAt : option Time; ac_Metadata : option metadata_map;
  ac_NullFields : list string }.

Record CreateAccountInput := mkAccountInput {
  cai_Name : string; cai_ParentAccountID : option string; cai_EntityID : option string; cai_HolderID : option string;
  cai_AssetCode : string; cai_PortfolioID : option string; cai_SegmentID : option string; cai_Status : AccountStatus;
  cai_Alias : option string; cai_Type : string; cai_Blocked : option bool; cai_Metadata : option metadata_map;
  cai_SkipHolder : bool }.

Record UpdateAccountInput := mkUpdateAccount {
  uai_Name : string; uai_SegmentID : option string; uai_PortfolioID : option string; uai_EntityID : option string;
  uai_Status : AccountStatus; uai_Blocked : option bool; uai_Metadata : option metadata_map; uai_NullFields : list string }.

Record Asset := mkAsset {
  at_ID : string; at_Name : string; at_Type : string; at_Code : string; at_Status : AccountStatus; at_LedgerID : string;
  at_OrganizationID : string; at_CreatedAt : Time; at_UpdatedAt : Time; at_DeletedAt : option Time; at_Metadata : option metadata_map }.

Record CreateAssetInput := mkAssetInput {
  cii_Name : string; cii_Type : string; cii_Code : string; cii_Status : AccountStatus; cii_Metadata : option metadata_map }.

Inductive AccountError :=
  | ErrInvalidAccountType | ErrHolderSkipNotPermitted | ErrHolderRequired | ErrHolderNotFound | ErrInvalidRequestBody
  | ErrAccountAssetNotFound | ErrInvalidParentAccountID | ErrMismatchedAssetCode | ErrMissingFieldsInRequest
  | ErrAliasUnavailability | ErrAccountCreationFailed | ErrAccountNotFound | ErrForbiddenExternalAccountManipulation
  | ErrAccountBalanceDeletion | ErrInvalidAssetType | ErrInvalidCodeFormat | ErrCodeUppercaseRequirement
  | ErrCurrencyCodeStandardCompliance | ErrAssetNameOrCodeDuplicate | ErrAssetNotFound | AccountIDTaken | AccountCallFailed.

#[export] Instance AccountError_eq : EqDecision AccountError.
Proof. solve_decision. Defined.

(** ** Bodies of requests: the rules on an alias and on an asset *)

Definition validateProhibitedExternalAccountPrefix (f : string) : bool :=
  negb (strings_Contains f DefaultExternalAccountAliasPrefix).

Definition is_upper (c : ascii) : bool := (65 <=? Z.of_N (N_of_ascii c)) && (Z.of_N (N_of_ascii c) <=? 90).
Definition is_letter (c : ascii) : bool :=
  is_upper c || ((97 <=? Z.of_N (N_of_ascii c)) && (Z.of_N (N_of_ascii c) <=? 122)).
Definition is_alias_char (c : ascii) : bool :=
  is_letter c || is_digit c || bool_decide (c ∈ ["@"; ":"; "_"; "-"]%char).

(** [AccountAliasAcceptedChars]. *)
Definition validateInvalidAliasCharacters (f : string) : bool := negb (bool_decide (f = "")) && all_chars is_alias_char f.

Definition ValidateType (t : string) : bool := bool_decide (t ∈ ["crypto"; "currency"; "fiat"; "commodity"; "others"]).

Fixpoint ValidateCode (code : string) : result AccountError unit :=
  match code with
  | "" => Ok tt
  | String c rest =>
      if negb (is_letter c) then Err ErrInvalidCodeFormat
      else if negb (is_upper c) then Err ErrCodeUppercaseRequirement else ValidateCode rest
  end.

Definition iso_currencies : list string :=
  ["AED"; "AFN"; "ALL"; "AMD"; "ANG"; "AOA"; "ARS"; "AUD"; "AWG"; "AZN"; "BAM"; "BBD"; "BDT"; "BGN"; "BHD"; "BIF"; "BMD"; "BND"; "BOB";
   "BOV"; "BRL"; "BSD"; "BTN"; "BWP"; "BYN"; "BZD"; "CAD"; "CDF"; "CHE"; "CHF"; "CHW"; "CLF"; "CLP"; "CNY"; "COP"; "COU"; "CRC"; "CUC";
   "CUP"; "CVE"; "CZK"; "DJF"; "DKK"; "DOP"; "DZD"; "EGP"; "ERN"; "ETB"; "EUR"; "FJD"; "FKP"; "GBP"; "GEL"; "GHS"; "GIP"; "GMD"; "GNF";
   "GTQ"; "GYD"; "HKD"; "HNL"; "HTG"; "HUF"; "IDR"; "ILS"; "INR"; "IQD"; "IRR"; "ISK"; "JMD"; "JOD"; "JPY"; "KES"; "KGS"; "KHR"; "KMF";
   "KPW"; "KRW"; "KWD"; "KYD"; "KZT"; "LAK"; "LBP"; "LKR"; "LRD"; "LSL"; "LYD"; "MAD"; "MDL"; "MGA"; "MKD"; "MMK"; "MNT"; "MOP"; "MRU";
   "MUR"; "MVR"; "MWK"; "MXN"; "MXV"; "MYR"; "MZN"; "NAD"; "NGN"; "NIO"; "NOK"; "NPR"; "NZD"; "OMR"; "PAB"; "PEN"; "PGK"; "PHP"; "PKR";
   "PLN"; "PYG"; "QAR"; "RON"; "RSD"; "RUB"; "RWF"; "SAR"; "SBD"; "SCR"; "SDG"; "SEK"; "SGD"; "SHP"; "SLE"; "SOS"; "SRD"; "SSP"; "STN";
   "SVC"; "SYP"; "SZL"; "THB"; "TJS"; "TMT"; "TND"; "TOP"; "TRY"; "TTD"; "TWD"; "TZS"; "UAH"; "UGX"; "USD"; "USN"; "UYI"; "UYU"; "UZS";
   "VED"; "VEF"; "VND"; "VUV"; "WST"; "XAF"; "XCD"; "XDR"; "XOF"; "XPF"; "XSU"; "XUA"; "YER"; "ZAR"; "ZMW"; "ZWL"].
Definition ValidateCurrency (code : string) : bool := bool_decide (code ∈ iso_currencies).

(** ** LIKE *)

Definition backslash_char : ascii := "092".

Fixpoint like (p s : string) : bool :=
  match p with
  | "" => bool_decide (s = "")
  | String c p' =>
      if Ascii.eqb c "%" then
        (fix any s := like p' s || match s with "" => false | String _ s' => any s' end) s
      else if Ascii.eqb c "_" then match s with "" => false | String _ s' => like p' s' end
      else if Ascii.eqb c backslash_char then
        match p' with
        | "" => false
        | String d p'' => match s with "" => false | String x s' => Ascii.eqb d x && like p'' s' end
        end
      else match s with "" => false | String x s' => Ascii.eqb c x && like p' s' end
  end.

(** A pattern without an escape matches itself. *)
Lemma like_self p : contains_char backslash_char p = false → like p p = true.
Proof.
  induction p as [|c p IH]; [done|]. cbn [contains_char]. case_bool_decide as Hc; [done|]. intros Hp%IH.
  cbn [like]. destruct (Ascii.eqb c "%").
  { apply orb_true_iff. right. destruct p; cbn; [done|]. apply orb_true_iff. by left. }
  destruct (Ascii.eqb c "_"); [done|]. rewrite (proj2 (Ascii.eqb_neq _ _) Hc), Ascii.eqb_refl. done.
Qed.

(** ** The tables *)

Section Accounts.
Context {D : DecimalLib} {DT : DecimalText} {U : UuidLib} {UP : UuidParse} {C : LibCommons}.
Implicit Types (acc : Account) (ast : Asset) (a : answer).

Record onboarding := mkOnboarding {
  ob_accounts : gmap string Account; ob_assets : gmap string Asset; ob_metadata : gmap (string * string) metadata_map;
  ob_balances : balances }.
Implicit Types (st : onboarding).

Definition with_accounts m st : onboarding := mkOnboarding m (ob_assets st) (ob_metadata st) (ob_balances st).
Definition with_assets m st : onboarding := mkOnboarding (ob_accounts st) m (ob_metadata st) (ob_balances st).
Definition with_metadata m st : onboarding := mkOnboarding (ob_accounts st) (ob_assets st) m (ob_balances st).
Definition set_balances m st : onboarding := mkOnboarding (ob_accounts st) (ob_assets st) (ob_metadata st) m.

Definition nil_or_empty (s : option string) : bool := match s with None => true | Some s => IsNilOrEmpty s end.

(** A statement that would turn [st] into [st']. *)
Definition run_statement {A} a st st' (v : A) : onboarding * result AccountError A :=
  match a with
  | Answered => (st', Ok v)
  | Refused => (st, Err AccountCallFailed)
  | AnswerLost => (st', Err AccountCallFailed)
  end.

Definition account_live acc : bool := bool_decide (ac_DeletedAt acc = None).
Definition asset_live ast : bool := bool_decide (at_DeletedAt ast = None).
Definition live_accounts (p : Account → bool) st : list Account :=
  filter (λ acc, account_live acc && p acc = true) (map_to_list (ob_accounts st)).*2.

(** [FromEntity] and [ToEntity]: the row of an account, read back.  [newID] is used for an account
    without an identifier. *)
Definition account_row (newID : string) acc : Account :=
  mkAccount (if bool_decide (ac_ID acc = "") then newID else ac_ID acc) (ac_Name acc) (ac_ParentAccountID acc)
    (ac_EntityID acc) (ac_HolderID acc) (ac_AssetCode acc) (ac_OrganizationID acc) (ac_LedgerID acc)
    (if nil_or_empty (ac_PortfolioID acc) then None else ac_PortfolioID acc) (ac_SegmentID acc) (ac_Status acc)
    (ac_Alias acc) (strings_ToLower (ac_Type acc)) (Some (default false (ac_Blocked acc))) (ac_HolderCheckSkipped acc)
    (ac_CreatedAt acc) (ac_UpdatedAt acc) (ac_DeletedAt acc) None [].

Definition Account_Create a acc st : onboarding * result AccountError Account :=
  let row := account_row "" acc in
  match a with
  | Refused => (st, Err AccountCallFailed)
  | _ =>
      if bool_decide (is_Some (ob_accounts st !! ac_ID row)) then (st, Err AccountIDTaken)
      else run_statement a st (with_accounts (<[ac_ID row := row]> (ob_accounts st)) st) row
  end.

(** The condition on the portfolio, left out for [None] and for the zero identifier. *)
Definition in_portfolio (portfolio : option uuid) acc : bool :=
  match portfolio with
  | None => true
  | Some p => bool_decide (uuid_String p = nil_uuid) || bool_decide (uuid_String <$> (ac_PortfolioID acc ≫= uuid_Parse) = Some (uuid_String p))
  end.

Definition Account_Find a (portfolio : option uuid) (id : uuid) st : result AccountError Account :=
  match a, ob_accounts st !! uuid_String id with
  | Answered, Some acc => if account_live acc && in_portfolio portfolio acc then Ok acc else Err ErrAccountNotFound
  | Answered, None => Err ErrAccountNotFound
  | _, _ => Err AccountCallFailed
  end.

(** The alias is the pattern of a LIKE. *)
Definition FindByAlias a (alias : string) st : result AccountError unit :=
  match a with
  | Answered => match live_accounts (λ acc, from_option (like alias) false (ac_Alias acc)) st with
                | [] => Ok tt
                | _ => Err ErrAliasUnavailability
                end
  | _ => Err AccountCallFailed
  end.

Definition ListAccountsByAlias a (aliases : list string) st : result AccountError (list Account) :=
  match a with
  | Answered => Ok (live_accounts (λ acc, from_option (λ s, bool_decide (s ∈ aliases)) false (ac_Alias acc)) st)
  | _ => Err AccountCallFailed
  end.

Definition ListExternalAccountsByAssetCode a (code : string) st : result AccountError (list Account) :=
  match a with
  | Answered => Ok (live_accounts (λ acc, bool_decide (ac_AssetCode acc = code) && bool_decide (ac_Type acc = ExternalAccountType)) st)
  | _ => Err AccountCallFailed
  end.

(** A field of a patch: a value, an explicit null, or nothing. *)
Definition applyNullableField (given : option string) (key : string) (nulls : list string) (old : option string) : option string :=
  if negb (nil_or_empty given) then given else if bool_decide (key ∈ nulls) then None else old.

(** The SET clauses of [Update], and [mergePatchAccount], which mirrors them. *)
Definition mergePatchAccount (pre patch : Account) (updatedAt : Time) : Account :=
  mkAccount (ac_ID pre) (if bool_decide (ac_Name patch = "") then ac_Name pre else ac_Name patch) (ac_ParentAccountID pre)
    (applyNullableField (ac_EntityID patch) "entityId" (ac_NullFields patch) (ac_EntityID pre)) (ac_HolderID pre) (ac_AssetCode pre)
    (ac_OrganizationID pre) (ac_LedgerID pre)
    (applyNullableField (ac_PortfolioID patch) "portfolioId" (ac_NullFields patch) (ac_PortfolioID pre))
    (applyNullableField (ac_SegmentID patch) "segmentId" (ac_NullFields patch) (ac_SegmentID pre))
    (if AccountStatus_IsEmpty (ac_Status patch) then ac_Status pre else ac_Status patch) (ac_Alias pre) (ac_Type pre)
    (match ac_Blocked patch with Some b => Some b | None => ac_Blocked pre end) (ac_HolderCheckSkipped pre)
    (ac_CreatedAt pre) updatedAt (ac_DeletedAt pre) (ac_Metadata pre) (ac_NullFields pre).

Definition set_updated (now : Time) acc : Account :=
  mkAccount (ac_ID acc) (ac_Name acc) (ac_ParentAccountID acc) (ac_EntityID acc) (ac_HolderID acc) (ac_AssetCode acc)
    (ac_OrganizationID acc) (ac_LedgerID acc) (ac_PortfolioID acc) (ac_SegmentID acc) (ac_Status acc) (ac_Alias acc) (ac_Type acc)
    (ac_Blocked acc) (ac_HolderCheckSkipped acc) (ac_CreatedAt acc) now (ac_DeletedAt acc) (ac_Metadata acc) (ac_NullFields acc).

(** The answer is made from the patch, not from the row. *)
Definition Account_Update a (now : Time) (newID : string) (portfolio : option uuid) (id : uuid) (patch : Account) st
    : onboarding * result AccountError Account :=
  match ob_accounts st !! uuid_String id with
  | Some acc =>
      if account_live acc && in_portfolio portfolio acc then
        run_statement a st (with_accounts (<[uuid_String id := mergePatchAccount acc patch now]> (ob_accounts st)) st)
          (set_updated now (account_row newID patch))
      else (st, Err (match a with Answered => ErrAccountNotFound | _ => AccountCallFailed end))
  | None => (st, Err (match a with Answered => ErrAccountNotFound | _ => AccountCallFailed end))
  end.

Definition deleted_account (now : Time) acc : Account :=
  mkAccount (ac_ID acc) (ac_Name acc) (ac_ParentAccountID acc) (ac_EntityID acc) (ac_HolderID acc) (ac_AssetCode acc)
    (ac_OrganizationID acc) (ac_LedgerID acc) (ac_PortfolioID acc) (ac_SegmentID acc) (ac_Status acc) (ac_Alias acc) (ac_Type acc)
    (ac_Blocked acc) (ac_HolderCheckSkipped acc) (ac_CreatedAt acc) (ac_UpdatedAt acc) (Some now) (ac_Metadata acc) (ac_NullFields acc).

(** The number of deleted rows is not looked at. *)
Definition Account_Delete a (now : Time) (portfolio : option uuid) (id : string) st : onboarding * result AccountError unit :=
  let st' := match ob_accounts st !! id with
             | Some acc => if account_live acc && in_portfolio portfolio acc
                           then with_accounts (<[id := deleted_account now acc]> (ob_accounts st)) st else st
             | None => st
             end in
  match a with
  | Answered => (st', Ok tt)
  | Refused => (st, Err ErrAccountNotFound)
  | AnswerLost => (st', Err ErrAccountNotFound)
  end.

(** *** Assets *)

(** [FindByNameOrCode]: whether there is one, and the error of the call. *)
Definition FindByNameOrCode a (name code : string) st : bool * option AccountError :=
  match a with
  | Answered =>
      if existsb (λ ast, asset_live ast && (like name (at_Name ast) || bool_decide (at_Code ast = code))) (map_to_list (ob_assets st)).*2
      then (true, Some ErrAssetNameOrCodeDuplicate) else (false, None)
  | _ => (false, Some AccountCallFailed)
  end.

Definition asset_row (newID : string) ast : Asset :=
  mkAsset newID (at_Name ast) (at_Type ast) (at_Code ast) (at_Status ast) (at_LedgerID ast) (at_OrganizationID ast)
    (at_CreatedAt ast) (at_UpdatedAt ast) (at_DeletedAt ast) None.

Definition Asset_Create a (newID : string) ast st : onboarding * result AccountError Asset :=
  match a with
  | Refused => (st, Err AccountCallFailed)
  | _ =>
      if bool_decide (is_Some (ob_assets st !! newID)) then (st, Err AccountIDTaken)
      else run_statement a st (with_assets (<[newID := asset_row newID ast]> (ob_assets st)) st) (asset_row newID ast)
  end.

Definition Asset_Find a (id : uuid) st : result AccountError Asset :=
  match a, ob_assets st !! uuid_String id with
  | Answered, Some ast => if asset_live ast then Ok ast else Err ErrAssetNotFound
  | Answered, None => Err ErrAssetNotFound
  | _, _ => Err AccountCallFailed
  end.

Definition Asset_Delete a (now : Time) (id : uuid) st : onboarding * result AccountError unit :=
  match ob_assets st !! uuid_String id with
  | Some ast =>
      if asset_live ast
      then run_statement a st (with_assets (<[uuid_String id := mkAsset (at_ID ast) (at_Name ast) (at_Type ast) (at_Code ast)
             (at_Status ast) (at_LedgerID ast) (at_OrganizationID ast) (at_CreatedAt ast) (at_UpdatedAt ast) (Some now)
             (at_Metadata ast)]> (ob_assets st)) st) tt
      else (st, Err (match a with Answered => ErrAssetNotFound | _ => AccountCallFailed end))
  | None => (st, Err (match a with Answered => ErrAssetNotFound | _ => AccountCallFailed end))
  end.

(** *** Metadata *)

Definition CreateOnboardingMetadata a (entityName entityID : string) (metadata : option metadata_map) st
    : onboarding * result AccountError (option metadata_map) :=
  match metadata with
  | None => (st, Ok None)
  | Some md =>
      run_statement a st
        (match ob_metadata st !! (entityName, entityID) with
         | Some _ => st
         | None => with_metadata (<[(entityName, entityID) := md]> (ob_metadata st)) st
         end) (Some md)
  end.

(** The document is merged with the stored one; without metadata it is emptied.  [mergeMaps] is
    the function of lib-commons. *)
Definition UpdateOnboardingMetadata (mergeMaps : metadata_map → metadata_map → metadata_map) (find update : answer)
    (entityName entityID : string) (metadata : option metadata_map) st : onboarding * result AccountError metadata_map :=
  let write md := run_statement update st (with_metadata (<[(entityName, entityID) := md]> (ob_metadata st)) st) md in
  match metadata with
  | None => write ∅
  | Some md =>
      match find with
      | Answered => write (match ob_metadata st !! (entityName, entityID) with Some old => mergeMaps md old | None => md end)
      | _ => (st, Err AccountCallFailed)
      end
  end.

(** ** Creating an account *)

(** The answers of the calls of [CreateAccount]. *)
Record account_answers := mkAccountAnswers {
  aa_settings : result AccountError settings_map;               (* LedgerRepo.GetSettings *)
  aa_type : result AccountError bool;                           (* AccountTypeRepo.FindByKey finds one *)
  aa_reader : option (result AccountError LedgerSettings);      (* SettingsReader, if there is one *)
  aa_holder : result AccountError bool;                         (* HolderReader.Exists *)
  aa_asset : answer;
  aa_portfolio : result AccountError string;                    (* the EntityID of the portfolio *)
  aa_parent : answer; aa_newID : result AccountError uuid; aa_alias : answer; aa_create : answer;
  aa_balance_find : answer; aa_balance_create : answer; aa_balance_id : result BalanceError string;
  aa_delete : answer; aa_metadata : answer; aa_now : Time }.

Definition applyAccountingValidations (an : account_answers) (accountType : string) : result AccountError unit :=
  if strings_EqualFold accountType ExternalAccountType then Ok tt else
  let! raw := aa_settings an in
  if negb (av_ValidateAccountType (ls_Accounting (ParseLedgerSettings raw))) then Ok tt else
  let! found := aa_type an in
  if found then Ok tt else Err ErrInvalidAccountType.

Definition resolveHolderRequirement (an : account_answers) : result AccountError (bool * bool) :=
  match aa_reader an with
  | None => Ok (false, false)
  | Some r => let! s := r in Ok (av_RequireHolder (ls_Accounting s), ov_AllowHolderSkip (ls_Overrides s))
  end.

Definition applyHolderValidation (an : account_answers) (requireHolder : bool) (cai : CreateAccountInput) : result AccountError unit :=
  if negb requireHolder then Ok tt else
  match cai_HolderID cai with
  | None => Err ErrHolderRequired
  | Some h =>
      if IsNilOrEmpty h then Err ErrHolderRequired else
      match uuid_Parse h with
      | None => Err ErrInvalidRequestBody
      | Some _ => let! exists_ := aa_holder an in if exists_ then Ok tt else Err ErrHolderNotFound
      end
  end.

Definition determineStatus (s : AccountStatus) : AccountStatus :=
  mkAccountStatus (if AccountStatus_IsEmpty s || IsNilOrEmpty (as_Code s) then "ACTIVE" else as_Code s) (as_Description s).

Definition resolveAccountAlias (an : account_answers) (cai : CreateAccountInput) (generatedID : string) (isExternal : bool) st
    : result AccountError string :=
  match cai_Alias cai with
  | Some alias =>
      if IsNilOrEmpty alias then (if isExternal then Err ErrMissingFieldsInRequest else Ok generatedID)
      else do! FindByAlias (aa_alias an) alias st;; Ok alias
  | None => if isExternal then Err ErrMissingFieldsInRequest else Ok generatedID
  end.

(** [deriveSelfHolderID] hashes the identifier of the organization with the uuid library. *)
Context (deriveSelfHolderID : uuid → uuid).

Definition resolveHolderID (organizationID : uuid) (holder : option string) (type : string) : option string :=
  if negb (nil_or_empty holder) then holder
  else if bool_decide (strings_ToLower type = "external") then None
  else Some (uuid_String (deriveSelfHolderID organizationID)).

(** The entity and the portfolio: the entity of the portfolio, when none is given. *)
Definition resolve_entity (an : account_answers) (cai : CreateAccountInput) : result AccountError (option uuid * option string) :=
  match cai_PortfolioID cai with
  | Some p =>
      if nil_or_empty (cai_EntityID cai) && negb (IsNilOrEmpty p) then
        match uuid_Parse p with
        | None => Err ErrInvalidRequestBody
        | Some portfolio => let! entity := aa_portfolio an in Ok (Some portfolio, Some entity)
        end
      else Ok (None, cai_EntityID cai)
  | None => Ok (None, cai_EntityID cai)
  end.

Definition check_parent (an : account_answers) (cai : CreateAccountInput) (portfolio : option uuid) st : result AccountError unit :=
  match cai_ParentAccountID cai with
  | None => Ok tt
  | Some p =>
      if IsNilOrEmpty p then Ok tt else
      match uuid_Parse p with
      | None => Err ErrInvalidParentAccountID
      | Some parent =>
          match Account_Find (aa_parent an) portfolio parent st with
          | Err _ => Err ErrInvalidParentAccountID
          | Ok acc => if bool_decide (ac_AssetCode acc = cai_AssetCode cai) then Ok tt else Err ErrMismatchedAssetCode
          end
      end
  end.

Record new_account := mkNewAccount { na_id : uuid; na_alias : string; na_portfolio : option uuid; na_account : Account }.

(** What is checked and read before the account is stored. *)
Definition prepare_account (an : account_answers) (organizationID ledgerID : uuid) (cai : CreateAccountInput) st
    : result AccountError new_account :=
  do! applyAccountingValidations an (cai_Type cai);;
  let! holder := resolveHolderRequirement an in
  let! honored := match ResolveSkipFor (cai_SkipHolder cai) holder.2 with Ok b => Ok b | Err _ => Err ErrHolderSkipNotPermitted end in
  do! applyHolderValidation an (holder.1 && negb honored) cai;;
  let isExternal := strings_EqualFold (cai_Type cai) ExternalAccountType in
  let type := if isExternal then ExternalAccountType else cai_Type cai in
  let name := if IsNilOrEmpty (cai_Name cai) then cai_AssetCode cai +:+ " " +:+ type +:+ " account" else cai_Name cai in
  if negb (FindByNameOrCode (aa_asset an) "" (cai_AssetCode cai) st).1 then Err ErrAccountAssetNotFound else
  let! pe := resolve_entity an cai in
  do! check_parent an cai pe.1 st;;
  let! id := aa_newID an in
  let! alias := resolveAccountAlias an cai (uuid_String id) isExternal st in
  Ok (mkNewAccount id alias pe.1
    (mkAccount (uuid_String id) name (cai_ParentAccountID cai) pe.2 (resolveHolderID organizationID (cai_HolderID cai) type)
       (cai_AssetCode cai) (uuid_String organizationID) (uuid_String ledgerID) (cai_PortfolioID cai) (cai_SegmentID cai)
       (determineStatus (cai_Status cai)) (Some alias) type (Some (default false (cai_Blocked cai))) honored (aa_now an) (aa_now an) None
       None [])).

Definition with_account_metadata (md : option metadata_map) acc : Account :=
  mkAccount (ac_ID acc) (ac_Name acc) (ac_ParentAccountID acc) (ac_EntityID acc) (ac_HolderID acc) (ac_AssetCode acc)
    (ac_OrganizationID acc) (ac_LedgerID acc) (ac_PortfolioID acc) (ac_SegmentID acc) (ac_Status acc) (ac_Alias acc) (ac_Type acc)
    (ac_Blocked acc) (ac_HolderCheckSkipped acc) (ac_CreatedAt acc) (ac_UpdatedAt acc) (ac_DeletedAt acc) md (ac_NullFields acc).

(** The account, its default balance (the account is deleted again if that fails), its metadata. *)
Definition store_account (an : account_answers) (organizationID ledgerID : uuid) (n : new_account) (md : option metadata_map) st
    : onboarding * result AccountError Account :=
  match Account_Create (aa_create an) (na_account n) st with
  | (st1, Err e) => (st1, Err e)
  | (st1, Ok acc) =>
      let input := mkCreateInput (na_id n) (na_alias n) (ac_AssetCode (na_account n)) (ac_Type (na_account n)) true true
                     organizationID ledgerID in
      match CreateDefaultBalance (aa_balance_find an) (aa_balance_create an) (aa_balance_id an) (aa_now an) input (ob_balances st1) with
      | (bs, Err _) =>
          ((Account_Delete (aa_delete an) (aa_now an) (na_portfolio n) (uuid_String (na_id n)) (set_balances bs st1)).1,
           Err ErrAccountCreationFailed)
      | (bs, Ok _) =>
          match CreateOnboardingMetadata (aa_metadata an) "Account" (ac_ID acc) md (set_balances bs st1) with
          | (st2, Err e) => (st2, Err e)
          | (st2, Ok md') => (st2, Ok (with_account_metadata md' acc))
          end
      end
  end.

(** The alias is checked by a query of [prepare_account] before [store_account] inserts the row, and
    the index on the alias is not unique: this is a creation with no other one in between. *)
Definition CreateAccount (an : account_answers) (organizationID ledgerID : uuid) (cai : CreateAccountInput) st
    : onboarding * result AccountError Account :=
  match prepare_account an organizationID ledgerID cai st with
  | Err e => (st, Err e)
  | Ok n => store_account an organizationID ledgerID n (cai_Metadata cai) st
  end.

(** ** Updating and deleting an account *)

Record change_answers := mkChangeAnswers {
  ch_find : answer; ch_balances : delete_answers; ch_write : answer; ch_metadata_find : answer; ch_metadata : answer;
  ch_newID : string; ch_now : Time }.

Definition account_patch (uai : UpdateAccountInput) : Account :=
  mkAccount "" (uai_Name uai) None (uai_EntityID uai) None "" "" "" (uai_PortfolioID uai) (uai_SegmentID uai) (uai_Status uai)
    None "" (uai_Blocked uai) false 0 0 None (uai_Metadata uai) (uai_NullFields uai).

Definition external_account (id : uuid) acc : bool :=
  bool_decide (ac_ID acc = uuid_String id) && bool_decide (ac_Type acc = "external").

Definition UpdateAccount (mergeMaps : metadata_map → metadata_map → metadata_map) (an : change_answers) (portfolio : option uuid)
    (id : uuid) (uai : UpdateAccountInput) st : onboarding * result AccountError Account :=
  match Account_Find (ch_find an) None id st with
  | Err e => (st, Err e)
  | Ok acc =>
      if external_account id acc then (st, Err ErrForbiddenExternalAccountManipulation) else
      match Account_Update (ch_write an) (ch_now an) (ch_newID an) portfolio id (account_patch uai) st with
      | (st1, Err e) => (st1, Err e)
      | (st1, Ok updated) =>
          match UpdateOnboardingMetadata mergeMaps (ch_metadata_find an) (ch_metadata an) "Account" (uuid_String id) (uai_Metadata uai) st1 with
          | (st2, Err e) => (st2, Err e)
          | (st2, Ok md) => (st2, Ok (with_account_metadata (Some md) updated))
          end
      end
  end.

Definition DeleteAccountByID (an : change_answers) (portfolio : option uuid) (id : uuid) st : onboarding * result AccountError unit :=
  match Account_Find (ch_find an) None id st with
  | Err e => (st, Err e)
  | Ok acc =>
      if external_account id acc then (st, Err ErrForbiddenExternalAccountManipulation) else
      match uuid_Parse (ac_ID acc) with
      | None => (st, Err AccountCallFailed)
      | Some accountID =>
          match DeleteAllBalancesByAccountID (ch_balances an) accountID (ob_balances st) with
          | (bs, Err _) => (set_balances bs st, Err ErrAccountBalanceDeletion)
          | (bs, Ok _) => Account_Delete (ch_write an) (ch_now an) portfolio (uuid_String id) (set_balances bs st)
          end
      end
  end.

(** ** Assets *)

Record asset_answers := mkAssetAnswers {
  an_find : answer; an_assetID : string; an_create : answer; an_metadata : answer; an_list : answer;
  an_newID : result AccountError uuid; an_account : answer; an_balance_find : answer; an_balance_create : answer;
  an_balance_id : result BalanceError string; an_now : Time }.

(** The type, the code and, for a currency, the list of ISO 4217. *)
Definition check_asset (cii : CreateAssetInput) : result AccountError unit :=
  if negb (ValidateType (cii_Type cii)) then Err ErrInvalidAssetType else
  do! ValidateCode (cii_Code cii);;
  if bool_decide (cii_Type cii ∈ ["currency"; "fiat"]) && negb (ValidateCurrency (cii_Code cii))
  then Err ErrCurrencyCodeStandardCompliance else Ok tt.

Definition external_alias (code : string) : string := DefaultExternalAccountAliasPrefix +:+ code.

(** The external account of an asset and its balance, unless there is one. *)
Definition ensure_external (an : asset_answers) (organizationID ledgerID : uuid) (code : string) st : onboarding * result AccountError unit :=
  match ListAccountsByAlias (an_list an) [external_alias code] st with
  | Err e => (st, Err e)
  | Ok (_ :: _) => (st, Ok tt)
  | Ok [] =>
      match an_newID an with
      | Err e => (st, Err e)
      | Ok id =>
          match Account_Create (an_account an)
                  (mkAccount (uuid_String id) ("External " +:+ code) None None None code (uuid_String organizationID)
                     (uuid_String ledgerID) None None
                     (mkAccountStatus "external" (Some ("Account external created by asset: " +:+ code)))
                     (Some (external_alias code)) "external" None false (an_now an) (an_now an) None None []) st with
          | (st1, Err e) => (st1, Err e)
          | (st1, Ok _) =>
              match CreateDefaultBalance (an_balance_find an) (an_balance_create an) (an_balance_id an) (an_now an)
                      (mkCreateInput id (external_alias code) code "external" true true organizationID ledgerID) (ob_balances st1) with
              | (bs, Err _) => (set_balances bs st1, Err ErrAccountCreationFailed)
              | (bs, Ok _) => (set_balances bs st1, Ok tt)
              end
          end
      end
  end.

Definition with_asset_metadata (md : option metadata_map) ast : Asset :=
  mkAsset (at_ID ast) (at_Name ast) (at_Type ast) (at_Code ast) (at_Status ast) (at_LedgerID ast) (at_OrganizationID ast)
    (at_CreatedAt ast) (at_UpdatedAt ast) (at_DeletedAt ast) md.

Definition CreateAsset (an : asset_answers) (organizationID ledgerID : uuid) (cii : CreateAssetInput) st
    : onboarding * result AccountError Asset :=
  match check_asset cii with
  | Err e => (st, Err e)
  | Ok _ =>
      match FindByNameOrCode (an_find an) (cii_Name cii) (cii_Code cii) st with
      | (_, Some e) => (st, Err e)
      | (_, None) =>
          let asset := mkAsset "" (cii_Name cii) (cii_Type cii) (cii_Code cii) (determineStatus (cii_Status cii)) (uuid_String ledgerID)
                         (uuid_String organizationID) (an_now an) (an_now an) None None in
          match Asset_Create (an_create an) (an_assetID an) asset st with
          | (st1, Err e) => (st1, Err e)
          | (st1, Ok inst) =>
              match CreateOnboardingMetadata (an_metadata an) "Asset" (at_ID inst) (cii_Metadata cii) st1 with
              | (st2, Err e) => (st2, Err e)
              | (st2, Ok md) =>
                  match ensure_external an organizationID ledgerID (cii_Code cii) st2 with
                  | (st3, Err e) => (st3, Err e)
                  | (st3, Ok _) => (st3, Ok (with_asset_metadata md inst))
                  end
              end
          end
      end
  end.

(** The external accounts are deleted one by one; their balances stay. *)
Fixpoint delete_accounts (ans : string → answer) (now : Time) (l : list Account) st : onboarding * result AccountError unit :=
  match l with
  | [] => (st, Ok tt)
  | acc :: l' =>
      match Account_Delete (ans (ac_ID acc)) now None (ac_ID acc) st with
      | (st', Err e) => (st', Err e)
      | (st', Ok _) => delete_accounts ans now l' st'
      end
  end.

Definition DeleteAssetByID (find list_ : answer) (ans : string → answer) (delete_ : answer) (now : Time) (id : uuid) st
    : onboarding * result AccountError unit :=
  match Asset_Find find id st with
  | Err e => (st, Err e)
  | Ok ast =>
      match ListExternalAccountsByAssetCode list_ (at_Code ast) st with
      | Err e => (st, Err e)
      | Ok l =>
          match delete_accounts ans now l st with
          | (st1, Err e) => (st1, Err e)
          | (st1, Ok _) => Asset_Delete delete_ now id st1
          end
      end
  end.

End Accounts.

(** ** Invariants *)

Section AccountInvariant.
Context {D : DecimalLib} {DT : DecimalText} {U : UuidLib} {UP : UuidParse} {PL : UuidParseLaws} {C : LibCommons}.
Context (deriveSelfHolderID : uuid → uuid).
Implicit Types (acc : Account) (a : answer) (st : onboarding) (b : MBalance) (bs : balances).

(** *** Owners of balances *)

Definition same_owner b b' : Prop :=
  mb_AccountID b' = mb_AccountID b ∧ mb_Alias b' = mb_Alias b ∧ mb_AssetCode b' = mb_AssetCode b.

(** Every row afterwards has the owner of a row before. *)
Definition owners bs bs' : Prop := ∀ id b', bt_rows bs' !! id = Some b' → ∃ id0 b, bt_rows bs !! id0 = Some b ∧ same_owner b b'.

Lemma owners_refl bs : owners bs bs.
Proof. intros id b Hb. by exists id, b. Qed.

Lemma owners_trans bs1 bs2 bs3 : owners bs1 bs2 → owners bs2 bs3 → owners bs1 bs3.
Proof.
  intros H1 H2 id b (id1 & b1 & Hb1 & ? & ? & ?)%H2. destruct (H1 _ _ Hb1) as (id0 & b0 & Hb0 & ? & ? & ?).
  exists id0, b0. split; [done|]. unfold same_owner. split_and!; congruence.
Qed.

Lemma owners_rows bs bs1 bs2 : bt_rows bs2 = bt_rows bs1 → owners bs bs1 → owners bs bs2.
Proof. unfold owners. by intros ->. Qed.

(** Rows that change in place, without their owner. *)
Lemma owners_in_place bs rows' :
  (∀ id b', rows' !! id = Some b' → ∃ b, bt_rows bs !! id = Some b ∧ same_owner b b') → owners bs (with_rows rows' bs).
Proof. intros H id b' (b & Hb & Ho)%H. by exists id, b. Qed.

Lemma create_rows a b bs id b' : bt_rows (Balance_Create a b bs).1 !! id = Some b' → bt_rows bs !! id = Some b' ∨ b' = with_direction b.
Proof.
  unfold Balance_Create. destruct a; [|by left|]; (case_bool_decide; [by left|]); (destruct (existsb _ _); [by left|]); cbn;
    rewrite lookup_insert_Some; (intros [[_ <-]|[_ Hin]]; [by right|by left]).
Qed.

Lemma create_owners a b bs id0 b0 : bt_rows bs !! id0 = Some b0 → same_owner b0 b → owners bs (Balance_Create a b bs).1.
Proof. intros H0 Ho id b' [H| ->]%create_rows; [by exists id, b'|]. by exists id0, b0. Qed.

Lemma update_owners a now id u bs : owners bs (Balance_Update a now id u bs).1.
Proof.
  unfold Balance_Update. destruct (bt_rows bs !! id) as [b|] eqn:E; [|apply owners_refl]. destruct (live b); [|apply owners_refl].
  apply execute_ok; [apply owners_refl|]. apply owners_in_place. intros id' b'. rewrite lookup_insert_Some.
  intros [[<- <-]|[_ H]]; [by exists b|by exists b'].
Qed.

Lemma delete_owners a now id bs : owners bs (Balance_Delete a now id bs).1.
Proof.
  unfold Balance_Delete. destruct (bt_rows bs !! id) as [b|] eqn:E; [|apply owners_refl]. destruct (live b); [|apply owners_refl].
  apply execute_ok; [apply owners_refl|]. apply owners_in_place. intros id' b'. rewrite lookup_insert_Some.
  intros [[<- <-]|[_ H]]; [by exists b|by exists b'].
Qed.

Lemma delete_all_owners a now ids bs : owners bs (DeleteAllByIDs a now ids bs).1.
Proof.
  unfold DeleteAllByIDs. destruct ids as [|id0 ids0]; [apply owners_refl|]. destruct (forallb _ _); [|apply owners_refl].
  apply execute_ok; [apply owners_refl|]. apply owners_in_place. intros id b'. rewrite map_lookup_imap.
  destruct (bt_rows bs !! id) as [b|]; [|done]. cbn. intros [= <-]. exists b. split; [done|]. by case_bool_decide.
Qed.

Lemma update_all_owners a now account allow bs : owners bs (UpdateAllByAccountID a now account allow bs).1.
Proof.
  unfold UpdateAllByAccountID. destruct (existsb _ _); [|apply owners_refl]. apply execute_ok; [apply owners_refl|].
  apply owners_in_place. intros id b'. rewrite lookup_fmap. destruct (bt_rows bs !! id) as [b|]; [|done]. cbn.
  intros [= <-]. exists b. split; [done|]. by destruct (live b && _).
Qed.

Lemma toggle_owners t r now account allow bs : owners bs (toggleBalanceTransfers t r now account allow bs).1.
Proof.
  unfold toggleBalanceTransfers. pose proof (update_all_owners t now account allow bs) as H1.
  destruct (UpdateAllByAccountID t now account allow bs) as [bs1 [[]|e]]; [exact H1|]. cbn in *.
  eapply owners_trans; [exact H1|apply update_all_owners].
Qed.

Lemma delete_account_owners an account bs : owners bs (DeleteAllBalancesByAccountID an account bs).1.
Proof.
  unfold DeleteAllBalancesByAccountID. destruct (ListByAccountID _ _ bs) as [[|b l]|e]; [apply owners_refl| |apply owners_refl].
  destruct (for_each _ _) as [[]|e]; [|apply owners_refl].
  pose proof (toggle_owners (da_toggle an) (da_rollback an) (da_now an) account false bs) as H1.
  destruct (toggleBalanceTransfers _ _ _ _ false bs) as [bs1 [[]|e]]; cbn [fst] in *; [|done].
  pose proof (delete_all_owners (da_delete an) (da_now an) (mb_ID <$> (b :: l)) bs1) as H2.
  destruct (DeleteAllByIDs _ _ _ bs1) as [bs2 [[]|e]]; cbn [fst] in *; [by eapply owners_trans|].
  eapply owners_trans; [by eapply owners_trans|apply toggle_owners].
Qed.

Lemma ensure_owners an current s bs id0 : bt_rows bs !! id0 = Some current → owners bs (ensureOverdraftBalance an current s bs).1.
Proof.
  intros Hcur. unfold ensureOverdraftBalance. destruct (negb _); [apply owners_refl|]. destruct (overdraft_allowed _); [apply owners_refl|].
  destruct (uuid_Parse _) as [account|]; [|apply owners_refl].
  destruct (FindByAccountIDAndKey (ua_find_companion an) account _ bs) as [b|[]]; try apply owners_refl.
  destruct (ua_newID an) as [id|e]; [|apply owners_refl].
  pose proof (create_owners (ua_create an) (companion_row id (ua_now an) current) bs id0 current Hcur) as Hc.
  destruct (Balance_Create _ _ bs) as [bs' [c|e]]; cbn in *; [by apply Hc|].
  case_bool_decide; [|by apply Hc]. destruct (FindByAccountIDAndKey _ _ _ bs'); by apply Hc.
Qed.

Lemma update_command_owners an id u bs : owners bs (Update an id u bs).1.
Proof.
  unfold Update. destruct (Balance_Find _ id bs) as [cur|e] eqn:Ef; [|apply owners_refl]. apply find_ok in Ef as [Hcur _].
  destruct (internal cur); [apply owners_refl|].
  assert (owners bs (prepare_balance_update an cur u bs).1) as H1.
  { unfold prepare_balance_update. destruct (ub_Settings u) as [s|]; [|apply owners_refl].
    destruct (rbind _ _) as [|e]; [|apply owners_refl]. pose proof (ensure_owners an cur s bs id Hcur).
    by destruct (ensureOverdraftBalance an cur s bs) as [bs' []]. }
  destruct (prepare_balance_update an cur u bs) as [bs1 [[]|e]]; cbn [fst] in *; [|done].
  pose proof (owners_trans _ _ _ H1 (update_owners (ua_update an) (ua_now an) id u bs1)) as H2.
  destruct (Balance_Update _ _ id u bs1) as [bs2 [b|e]]; cbn [fst] in *; [|done].
  destruct (ub_Settings u) as [s|]; [|done]. eapply owners_rows; [apply cache_settings_rows|done].
Qed.

(** Apart from the creation of default balances, no command makes new owners. *)
Definition balance_request (c : balance_command) : Prop := match c with CmdCreateDefault _ _ _ _ _ => False | _ => True end.

Lemma command_owners c bs : balance_request c → owners bs (run_command c bs).
Proof.
  destruct c as [x cr newID now input|x1 x2 cr id now account cbi|an id u|an id|an account]; cbn [run_command]; intros Hc; [done|..].
  - unfold CreateAdditionalBalance. destruct (check_additional cbi); [|apply owners_refl].
    destruct (FindByAccountIDAndKey x1 _ _ bs) as [b|[]]; try apply owners_refl.
    destruct (FindByAccountIDAndKey x2 _ _ bs) as [base|e] eqn:E; [|apply owners_refl]. apply find_key_ok in E as (idb & Hb & _).
    case_bool_decide; [apply owners_refl|].
    pose proof (create_owners cr (additional_balance id now cbi base) bs idb base Hb) as Ho.
    destruct (Balance_Create cr _ bs) as [bs' [b'|[]]]; cbn [fst] in *; by apply Ho.
  - apply update_command_owners.
  - unfold DeleteBalance. destruct (Balance_Find _ id bs) as [b|e]; [|apply owners_refl].
    destruct (internal b); [apply owners_refl|]. destruct (has_funds b); [apply owners_refl|]. apply delete_owners.
  - apply delete_account_owners.
Qed.

(** *** Accounts *)

Definition owned st b : Prop :=
  ∃ acc, ob_accounts st !! mb_AccountID b = Some acc ∧ ac_Alias acc = Some (mb_Alias b) ∧ ac_AssetCode acc = mb_AssetCode b.

Record accounts_ok st : Prop := {
  aok_row id acc : ob_accounts st !! id = Some acc → ac_ID acc = id ∧ (∃ u, id = uuid_String u) ∧ is_Some (ac_Alias acc);
  aok_alias id acc id' acc' : ob_accounts st !! id = Some acc → ob_accounts st !! id' = Some acc' →
    account_live acc = true → account_live acc' = true → ac_Alias acc = ac_Alias acc' → id = id';
  aok_owner id b : bt_rows (ob_balances st) !! id = Some b → owned st b;
  aok_table : table_ok (ob_balances st) }.

(** A row that keeps its identity, alias and asset and does not come back to life. *)
Definition account_kept acc acc' : Prop :=
  ac_ID acc' = ac_ID acc ∧ ac_Alias acc' = ac_Alias acc ∧ ac_AssetCode acc' = ac_AssetCode acc ∧
  (account_live acc' = true → account_live acc = true).
Definition accounts_kept st st' : Prop := ∀ id,
  option_relation account_kept (λ _, False) (λ _, False) (ob_accounts st !! id) (ob_accounts st' !! id).

Lemma account_kept_refl acc : account_kept acc acc.
Proof. by split_and!. Qed.

Lemma accounts_kept_refl st : accounts_kept st st.
Proof. intros id. by destruct (ob_accounts st !! id). Qed.

Lemma accounts_kept_trans st1 st2 st3 : accounts_kept st1 st2 → accounts_kept st2 st3 → accounts_kept st1 st3.
Proof.
  intros H1 H2 id. specialize (H1 id). specialize (H2 id).
  destruct (ob_accounts st1 !! id), (ob_accounts st2 !! id), (ob_accounts st3 !! id); try done. cbn in *.
  destruct H1 as (? & ? & ? & ?), H2 as (? & ? & ? & ?). unfold account_kept. split_and!; [congruence..|auto].
Qed.

Lemma accounts_kept_insert st id acc acc' : ob_accounts st !! id = Some acc → account_kept acc acc' →
  accounts_kept st (with_accounts (<[id := acc']> (ob_accounts st)) st).
Proof.
  intros Hid Hk id'. cbn. destruct (decide (id = id')) as [<-|Hne]; [by rewrite Hid, lookup_insert_eq|].
  rewrite lookup_insert_ne by done. by destruct (ob_accounts st !! id').
Qed.

Lemma kept_owned st st' b : accounts_kept st st' → owned st b → owned st' b.
Proof.
  intros Hk (acc & Hacc & Ha & Hs). specialize (Hk (mb_AccountID b)). rewrite Hacc in Hk.
  destruct (ob_accounts st' !! mb_AccountID b) as [acc'|] eqn:E; [|done]. destruct Hk as (_ & Ha' & Hs' & _).
  exists acc'. rewrite Ha', Hs'. done.
Qed.

Lemma kept_ok st st' : accounts_ok st → accounts_kept st st' → ob_balances st' = ob_balances st → accounts_ok st'.
Proof.
  intros [Hr Ha Ho Ht] Hk Hb.
  assert (∀ id acc', ob_accounts st' !! id = Some acc' → ∃ acc, ob_accounts st !! id = Some acc ∧ account_kept acc acc') as Hrow.
  { intros id acc' E. specialize (Hk id). rewrite E in Hk. destruct (ob_accounts st !! id) as [acc|]; [by exists acc|done]. }
  split.
  - intros id acc' (acc & Hacc & Hid & Hal & _)%Hrow. rewrite Hid, Hal. by apply Hr.
  - intros id acc1 id' acc2 (c1 & H1 & _ & A1 & _ & L1)%Hrow (c2 & H2 & _ & A2 & _ & L2)%Hrow Hl1 Hl2 He.
    eapply Ha; [exact H1|exact H2|by apply L1|by apply L2|congruence].
  - rewrite Hb. intros id b Hrow'%Ho. by eapply kept_owned.
  - by rewrite Hb.
Qed.

(** New balances, all of owners that exist. *)
Lemma balances_ok st bs : accounts_ok st → table_ok bs → (∀ id b, bt_rows bs !! id = Some b → owned st b) →
  accounts_ok (set_balances bs st).
Proof. intros [Hr Ha _ _] Ht Ho. by split. Qed.

Lemma owners_ok st bs : accounts_ok st → table_ok bs → owners (ob_balances st) bs → accounts_ok (set_balances bs st).
Proof.
  intros Hok Ht Ho. apply balances_ok; [done..|]. intros id b (id0 & b0 & H0 & Ha & Hal & Hs)%Ho.
  destruct (aok_owner _ Hok _ _ H0) as (acc & Hacc & ? & ?). exists acc. rewrite Ha, Hal, Hs. done.
Qed.

(** A new account with an alias no live account has. *)
Lemma insert_account_ok st acc : accounts_ok st → ob_accounts st !! ac_ID acc = None → (∃ u, ac_ID acc = uuid_String u) →
  is_Some (ac_Alias acc) → (∀ id acc', ob_accounts st !! id = Some acc' → account_live acc' = true → ac_Alias acc' ≠ ac_Alias acc) →
  accounts_ok (with_accounts (<[ac_ID acc := acc]> (ob_accounts st)) st).
Proof.
  intros [Hr Ha Ho Ht] Hn Hu Hal Hf. split; cbn.
  - intros id acc'. rewrite lookup_insert_Some. intros [[<- <-]|[_ H]]; [done|by apply Hr].
  - intros id acc1 id' acc2. rewrite !lookup_insert_Some. intros [[<- <-]|[_ H1]] [[<- <-]|[_ H2]] Hl1 Hl2 He; [done|..|by eapply Ha].
    + by destruct (Hf _ _ H2 Hl2).
    + by destruct (Hf _ _ H1 Hl1).
  - intros id b (acc' & Hacc & ? & ?)%Ho. exists acc'. cbn. rewrite lookup_insert_ne by congruence. done.
  - done.
Qed.

(** *** The calls *)

Lemma run_statement_ok {A} (P : onboarding → Prop) a st st' (v : A) : P st → P st' → P (run_statement a st st' v).1.
Proof. by destruct a. Qed.

Lemma account_delete_kept a now portfolio id st :
  let st' := (Account_Delete a now portfolio id st).1 in accounts_kept st st' ∧ ob_balances st' = ob_balances st.
Proof.
  unfold Account_Delete. assert (accounts_kept st st ∧ ob_balances st = ob_balances st) as H0 by (split; [apply accounts_kept_refl|done]).
  destruct (ob_accounts st !! id) as [acc|] eqn:E; [|by destruct a].
  destruct (account_live acc && in_portfolio portfolio acc) eqn:El; [|by destruct a].
  assert (accounts_kept st (with_accounts (<[id := deleted_account now acc]> (ob_accounts st)) st)) as Hk.
  { eapply accounts_kept_insert; [done|]. by split_and!. }
  by destruct a.
Qed.

Lemma account_update_kept a now newID portfolio id patch st :
  let st' := (Account_Update a now newID portfolio id patch st).1 in accounts_kept st st' ∧ ob_balances st' = ob_balances st.
Proof.
  unfold Account_Update. assert (accounts_kept st st ∧ ob_balances st = ob_balances st) as H0 by (split; [apply accounts_kept_refl|done]).
  destruct (ob_accounts st !! uuid_String id) as [acc|] eqn:E; [|done]. destruct (account_live acc && _); [|done].
  apply run_statement_ok; [done|]. split; [|done]. eapply accounts_kept_insert; [done|]. by split_and!.
Qed.

Lemma create_metadata_kept a name id md st :
  let st' := (CreateOnboardingMetadata a name id md st).1 in ob_accounts st' = ob_accounts st ∧ ob_balances st' = ob_balances st.
Proof.
  unfold CreateOnboardingMetadata. destruct md as [md|]; [|done]. apply run_statement_ok; [done|]. by destruct (ob_metadata st !! _).
Qed.

Lemma update_metadata_kept mergeMaps f w name id md st :
  let st' := (UpdateOnboardingMetadata mergeMaps f w name id md st).1 in ob_accounts st' = ob_accounts st ∧ ob_balances st' = ob_balances st.
Proof. unfold UpdateOnboardingMetadata. destruct md as [md|]; [|by destruct w]. destruct f; [|done..]. by destruct w. Qed.

(** Tables that the invariant does not look at. *)
Lemma other_tables_ok st st' : ob_accounts st' = ob_accounts st → ob_balances st' = ob_balances st → accounts_ok st → accounts_ok st'.
Proof. intros Ea Eb Hok. eapply kept_ok; [exact Hok| |done]. intros id. rewrite Ea. by destruct (ob_accounts st !! id). Qed.

Lemma alias_no_backslash f : validateInvalidAliasCharacters f = true → contains_char backslash_char f = false.
Proof.
  unfold validateInvalidAliasCharacters. rewrite andb_true_iff. intros [_ H]. induction f as [|c f IH]; [done|].
  cbn in *. apply andb_true_iff in H as [Hc Hf]. rewrite bool_decide_false; [by apply IH|]. intros ->. done.
Qed.

Lemma elem_live_accounts p st acc : acc ∈ live_accounts p st ↔ ∃ id, ob_accounts st !! id = Some acc ∧ account_live acc = true ∧ p acc = true.
Proof.
  unfold live_accounts. rewrite list_elem_of_filter, andb_true_iff. split.
  - intros [[Hl Hp] Hb]. apply list_elem_of_fmap in Hb as ([id acc'] & -> & Hb). apply elem_of_map_to_list in Hb. by eauto.
  - intros (id & Hb & Hl & Hp). split; [done|]. apply list_elem_of_fmap. exists (id, acc). split; [done|]. by apply elem_of_map_to_list.
Qed.

(** An alias that was looked up is free. *)
Lemma alias_free a alias st : contains_char backslash_char alias = false → FindByAlias a alias st = Ok tt →
  ∀ id acc, ob_accounts st !! id = Some acc → account_live acc = true → ac_Alias acc ≠ Some alias.
Proof.
  intros Hb. unfold FindByAlias. destruct a; [|done..]. destruct (live_accounts _ st) eqn:E; [|done]. intros _ id acc Hacc Hl Ha.
  assert (acc ∈ live_accounts (λ acc, from_option (like alias) false (ac_Alias acc)) st) as Hin.
  { apply elem_live_accounts. exists id. split; [done|]. split; [done|]. rewrite Ha. by apply like_self. }
  rewrite E in Hin. by apply elem_of_nil in Hin.
Qed.

Lemma listed_alias_free a alias st : ListAccountsByAlias a [alias] st = Ok [] →
  ∀ id acc, ob_accounts st !! id = Some acc → account_live acc = true → ac_Alias acc ≠ Some alias.
Proof.
  unfold ListAccountsByAlias. destruct a; [|done..]. intros [= E] id acc Hacc Hl Ha.
  assert (acc ∈ live_accounts (λ acc, from_option (λ s, bool_decide (s ∈ [alias])) false (ac_Alias acc)) st) as Hin.
  { apply elem_live_accounts. exists id. split; [done|]. split; [done|]. rewrite Ha. apply bool_decide_eq_true. by left. }
  rewrite E in Hin. by apply elem_of_nil in Hin.
Qed.

Definition alias_unused st (alias : string) : Prop :=
  ∀ id acc, ob_accounts st !! id = Some acc → account_live acc = true → ac_Alias acc ≠ Some alias.

Lemma account_row_ID newID acc : ac_ID acc ≠ "" → ac_ID (account_row newID acc) = ac_ID acc.
Proof. intros H. cbn. by rewrite bool_decide_false. Qed.

Lemma uuid_String_nonempty u : uuid_String u ≠ "".
Proof. intros E. pose proof (uuid_String_length u) as H. by rewrite E in H. Qed.

Lemma account_create_ok a acc u alias st : accounts_ok st → ac_ID acc = uuid_String u → ac_Alias acc = Some alias → alias_unused st alias →
  let '(st', r) := Account_Create a acc st in
  accounts_ok st' ∧ ob_balances st' = ob_balances st ∧
  (is_ok r = true → ob_accounts st !! uuid_String u = None ∧ ob_accounts st' = <[uuid_String u := account_row "" acc]> (ob_accounts st)) ∧
  (∀ row, r = Ok row → row = account_row "" acc).
Proof.
  intros Hok Hid Hal Hf. unfold Account_Create. assert (ac_ID (account_row "" acc) = uuid_String u) as Hrow.
  { rewrite account_row_ID by (rewrite Hid; apply uuid_String_nonempty). done. }
  assert (ob_accounts st !! ac_ID (account_row "" acc) = None →
    accounts_ok (with_accounts (<[ac_ID (account_row "" acc) := account_row "" acc]> (ob_accounts st)) st)) as Hins.
  { intros Hn. apply insert_account_ok; [done|done|by exists u|by eexists|]. cbn. rewrite Hal. exact Hf. }
  destruct a; [|done|].
  all: case_bool_decide as Hs; [done|]. all: apply eq_None_not_Some in Hs. all: cbn [run_statement].
  all: split; [by apply Hins|]. all: split; [done|]. all: split; [|by intros row [=]]. all: intros _; rewrite Hrow in *; done.
Qed.

Lemma default_balance_ok x cr newID now input st acc : accounts_ok st →
  ob_accounts st !! uuid_String (ci_AccountID input) = Some acc → ac_Alias acc = Some (ci_Alias input) → ac_AssetCode acc = ci_AssetCode input →
  accounts_ok (set_balances (CreateDefaultBalance x cr newID now input (ob_balances st)).1 st).
Proof.
  intros Hok Hacc Hal Has. apply balances_ok; [done|..].
  - apply (proj1 (command_ok (CmdCreateDefault x cr newID now input) _ (aok_table _ Hok))).
  - intros id b. unfold CreateDefaultBalance.
    destruct (FindByAccountIDAndKey x _ _ _) as [b0|[]]; try by apply (aok_owner _ Hok). destruct newID as [bid|e]; [|by apply (aok_owner _ Hok)].
    intros [H| ->]%create_rows; [by eapply (aok_owner _ Hok)|]. by exists acc.
Qed.

(** What the preparation of an account decided. *)
Lemma prepare_account_inv an org led cai st n : prepare_account deriveSelfHolderID an org led cai st = Ok n →
  aa_newID an = Ok (na_id n) ∧
  resolveAccountAlias an cai (uuid_String (na_id n)) (strings_EqualFold (cai_Type cai) ExternalAccountType) st = Ok (na_alias n) ∧
  (na_portfolio n = None ∨ ∃ p u, cai_PortfolioID cai = Some p ∧ IsNilOrEmpty p = false ∧ uuid_Parse p = Some u ∧ na_portfolio n = Some u) ∧
  let acc := na_account n in
  ac_ID acc = uuid_String (na_id n) ∧ ac_Alias acc = Some (na_alias n) ∧ ac_AssetCode acc = cai_AssetCode cai ∧
  ac_PortfolioID acc = cai_PortfolioID cai ∧ ac_DeletedAt acc = None ∧
  ac_Type acc = (if strings_EqualFold (cai_Type cai) ExternalAccountType then ExternalAccountType else cai_Type cai).
Proof.
  unfold prepare_account. intros ([] & _ & H)%rbind_Ok. apply rbind_Ok in H as (h & _ & H). apply rbind_Ok in H as (honored & _ & H).
  apply rbind_Ok in H as ([] & _ & H). destruct (negb (FindByNameOrCode _ _ _ _).1); [done|].
  apply rbind_Ok in H as (pe & Hpe & H). apply rbind_Ok in H as ([] & _ & H). apply rbind_Ok in H as (id & Hid & H).
  apply rbind_Ok in H as (alias & Hal & H). injection H as <-. cbn. split; [done|]. split; [done|]. split; [|done].
  unfold resolve_entity in Hpe. destruct (cai_PortfolioID cai) as [p|]; [|injection Hpe as <-; by left].
  destruct (nil_or_empty (cai_EntityID cai)); cbn in Hpe; [|injection Hpe as <-; by left].
  destruct (IsNilOrEmpty p) eqn:Ep; cbn in Hpe; [injection Hpe as <-; by left|].
  destruct (uuid_Parse p) as [u|] eqn:Eu; [|done]. apply rbind_Ok in Hpe as (entity & _ & Hpe). injection Hpe as <-. right. by exists p, u.
Qed.

(** An alias the command may use: one of the accepted characters, or the new identifier, which no
    other account has as its alias. *)
Definition account_request an (cai : CreateAccountInput) st : Prop :=
  (∀ alias, cai_Alias cai = Some alias → alias = "" ∨ validateInvalidAliasCharacters alias = true) ∧
  (∀ id, aa_newID an = Ok id → alias_unused st (uuid_String id)).

Lemma resolved_alias_unused an cai id ext st alias : account_request an cai st → aa_newID an = Ok id →
  resolveAccountAlias an cai (uuid_String id) ext st = Ok alias → alias_unused st alias.
Proof.
  intros [Hv Hf] Hid. specialize (Hf id Hid). unfold resolveAccountAlias. destruct (cai_Alias cai) as [al|].
  2: { destruct ext; [done|]. by intros [= <-]. }
  destruct (IsNilOrEmpty al); [destruct ext; [done|]; by intros [= <-]|].
  intros ([] & Ha & H)%rbind_Ok. injection H as <-. refine (alias_free _ _ _ _ Ha).
  destruct (Hv al eq_refl) as [->|Hc]; [done|by apply alias_no_backslash].
Qed.

Lemma create_account_ok an org led cai st : accounts_ok st → account_request an cai st →
  accounts_ok (CreateAccount deriveSelfHolderID an org led cai st).1.
Proof.
  intros Hok Hq. unfold CreateAccount. destruct (prepare_account _ an org led cai st) as [n|e] eqn:Ep; [|done].
  apply prepare_account_inv in Ep as (Hid & Hal & _ & HID & HAl & HAs & _). pose proof (resolved_alias_unused _ _ _ _ _ _ Hq Hid Hal) as Hf.
  unfold store_account. pose proof (account_create_ok (aa_create an) _ _ _ _ Hok HID HAl Hf) as Hc.
  destruct (Account_Create _ _ st) as [st1 [acc|e]]; [|by destruct Hc]. destruct Hc as (Hok1 & Hb1 & Hs1 & Hrow).
  destruct (Hs1 eq_refl) as [_ Ha1].
  match goal with |- context [CreateDefaultBalance ?x ?c ?i ?t ?inp _] => set (input := inp) end.
  pose proof (default_balance_ok (aa_balance_find an) (aa_balance_create an) (aa_balance_id an) (aa_now an) input st1 (account_row "" (na_account n)) Hok1) as Hd.
  assert (accounts_ok (set_balances (CreateDefaultBalance (aa_balance_find an) (aa_balance_create an) (aa_balance_id an) (aa_now an) input (ob_balances st1)).1 st1)) as Hok2.
  { apply Hd; [rewrite Ha1; apply lookup_insert_eq|exact HAl|done]. }
  destruct (CreateDefaultBalance _ _ _ _ input _) as [bs [b|e]]; cbn [fst] in Hok2.
  - pose proof (create_metadata_kept (aa_metadata an) "Account" (ac_ID acc) (cai_Metadata cai) (set_balances bs st1)) as [Ea Eb].
    destruct (CreateOnboardingMetadata _ _ _ _ _) as [st2 [md|e]]; cbn [fst] in *; by eapply other_tables_ok.
  - destruct (account_delete_kept (aa_delete an) (aa_now an) (na_portfolio n) (uuid_String (na_id n)) (set_balances bs st1)) as [Hk Hb].
    by eapply kept_ok.
Qed.

Lemma delete_account_ok an portfolio id st : accounts_ok st → accounts_ok (DeleteAccountByID an portfolio id st).1.
Proof.
  intros Hok. unfold DeleteAccountByID. destruct (Account_Find _ None id st) as [acc|e]; [|done]. destruct (external_account id acc); [done|].
  destruct (uuid_Parse (ac_ID acc)) as [account|]; [|done].
  pose proof (owners_ok st _ Hok (proj1 (delete_all_command_ok (ch_balances an) account _ (aok_table _ Hok)))
                (delete_account_owners (ch_balances an) account (ob_balances st))) as Hok1.
  destruct (DeleteAllBalancesByAccountID _ account _) as [bs [[]|e]]; cbn [fst] in *; [|done].
  destruct (account_delete_kept (ch_write an) (ch_now an) portfolio (uuid_String id) (set_balances bs st)) as [Hk Hb]. by eapply kept_ok.
Qed.

Lemma update_account_ok mergeMaps an portfolio id uai st : accounts_ok st → accounts_ok (UpdateAccount mergeMaps an portfolio id uai st).1.
Proof.
  intros Hok. unfold UpdateAccount. destruct (Account_Find _ None id st) as [acc|e]; [|done]. destruct (external_account id acc); [done|].
  pose proof (account_update_kept (ch_write an) (ch_now an) (ch_newID an) portfolio id (account_patch uai) st) as [Hk Hb].
  destruct (Account_Update _ _ _ portfolio id _ st) as [st1 [acc'|e]]; cbn [fst] in *; [|by eapply kept_ok].
  pose proof (update_metadata_kept mergeMaps (ch_metadata_find an) (ch_metadata an) "Account" (uuid_String id) (uai_Metadata uai) st1) as [Ea Eb].
  destruct (UpdateOnboardingMetadata _ _ _ _ _ _ _) as [st2 [md|e]]; cbn [fst] in *; (eapply other_tables_ok; [done|done|]; by eapply kept_ok).
Qed.

Lemma ensure_external_ok an org led code st : accounts_ok st → accounts_ok (ensure_external an org led code st).1.
Proof.
  intros Hok. unfold ensure_external. destruct (ListAccountsByAlias _ _ st) as [[|acc l]|e] eqn:El; [|done..].
  destruct (an_newID an) as [id|e]; [|done].
  match goal with |- context [Account_Create _ ?c _] => set (acc := c) end.
  pose proof (account_create_ok (an_account an) acc id (external_alias code) st Hok eq_refl eq_refl (listed_alias_free _ _ _ El)) as Hc.
  destruct (Account_Create _ acc st) as [st1 [row|e]]; [|by destruct Hc]. destruct Hc as (Hok1 & Hb1 & Hs1 & Hrow). destruct (Hs1 eq_refl) as [_ Ha1].
  match goal with |- context [CreateDefaultBalance ?x ?c ?i ?t ?inp _] =>
    pose proof (default_balance_ok x c i t inp st1 (account_row "" acc) Hok1) as Hd; set (input := inp) in * end.
  specialize (Hd ltac:(rewrite Ha1; apply lookup_insert_eq) eq_refl eq_refl).
  by destruct (CreateDefaultBalance _ _ _ _ input _) as [bs [b|e]].
Qed.

Lemma create_asset_ok an org led cii st : accounts_ok st → accounts_ok (CreateAsset an org led cii st).1.
Proof.
  intros Hok. unfold CreateAsset. destruct (check_asset cii); [|done]. destruct (FindByNameOrCode _ _ _ st) as [f [e|]]; [done|].
  match goal with |- context [Asset_Create ?a ?i ?x st] =>
    assert (ob_accounts (Asset_Create a i x st).1 = ob_accounts st ∧ ob_balances (Asset_Create a i x st).1 = ob_balances st) as [E1 B1]
      by (unfold Asset_Create; destruct a; [|done|]; by case_bool_decide); destruct (Asset_Create a i x st) as [st1 [inst|e]] end;
    cbn [fst] in *; [|by eapply other_tables_ok].
  destruct (create_metadata_kept (an_metadata an) "Asset" (at_ID inst) (cii_Metadata cii) st1) as [E2 B2].
  destruct (CreateOnboardingMetadata _ _ _ _ st1) as [st2 [md|e]]; cbn [fst] in *; [|eapply other_tables_ok; [| |exact Hok]; congruence].
  assert (accounts_ok st2) as Hok2 by (eapply other_tables_ok; [| |exact Hok]; congruence).
  pose proof (ensure_external_ok an org led (cii_Code cii) st2 Hok2). by destruct (ensure_external _ _ _ _ st2) as [st3 []].
Qed.

Lemma delete_accounts_kept ans now l st : let st' := (delete_accounts ans now l st).1 in accounts_kept st st' ∧ ob_balances st' = ob_balances st.
Proof.
  revert st. induction l as [|acc l IH]; intros st; [split; [apply accounts_kept_refl|done]|]. cbn.
  destruct (account_delete_kept (ans (ac_ID acc)) now None (ac_ID acc) st) as [Hk Hb].
  destruct (Account_Delete _ now None _ st) as [st1 [[]|e]]; cbn [fst] in *; [|done]. destruct (IH st1) as [Hk' Hb'].
  split; [by eapply accounts_kept_trans|congruence].
Qed.

Lemma delete_asset_ok f l ans d now id st : accounts_ok st → accounts_ok (DeleteAssetByID f l ans d now id st).1.
Proof.
  intros Hok. unfold DeleteAssetByID. destruct (Asset_Find f id st) as [ast|e]; [|done].
  destruct (ListExternalAccountsByAssetCode l _ st) as [accs|e]; [|done].
  destruct (delete_accounts_kept ans now accs st) as [Hk Hb]. destruct (delete_accounts _ _ _ st) as [st1 [[]|e]]; cbn [fst] in *; [|by eapply kept_ok].
  assert (accounts_ok st1) as Hok1 by (by eapply kept_ok).
  unfold Asset_Delete. destruct (ob_assets st1 !! _) as [x|]; [|done]. destruct (asset_live x); [|done]. apply run_statement_ok; [done|].
  eapply other_tables_ok; [| |exact Hok1]; done.
Qed.

(** *** Sequences of commands *)

Inductive account_command :=
  | CmdCreateAccount (an : account_answers) (organizationID ledgerID : uuid) (cai : CreateAccountInput)
  | CmdUpdateAccount (mergeMaps : metadata_map → metadata_map → metadata_map) (an : change_answers) (portfolio : option uuid) (id : uuid)
      (uai : UpdateAccountInput)
  | CmdDeleteAccount (an : change_answers) (portfolio : option uuid) (id : uuid)
  | CmdCreateAsset (an : asset_answers) (organizationID ledgerID : uuid) (cii : CreateAssetInput)
  | CmdDeleteAsset (find list_ : answer) (ans : string → answer) (delete_ : answer) (now : Time) (id : uuid)
  | CmdBalance (c : balance_command).

Definition run_account_command (c : account_command) st : onboarding :=
  match c with
  | CmdCreateAccount an org led cai => (CreateAccount deriveSelfHolderID an org led cai st).1
  | CmdUpdateAccount mm an p id uai => (UpdateAccount mm an p id uai st).1
  | CmdDeleteAccount an p id => (DeleteAccountByID an p id st).1
  | CmdCreateAsset an org led cii => (CreateAsset an org led cii st).1
  | CmdDeleteAsset f l ans d now id => (DeleteAssetByID f l ans d now id st).1
  | CmdBalance c => set_balances (run_command c (ob_balances st)) st
  end.

(** Requests pass the validation of their body, new identifiers are new, and default balances
    are created only by the commands on accounts and assets. *)
Definition admissible (c : account_command) st : Prop :=
  match c with
  | CmdCreateAccount an _ _ cai => account_request an cai st
  | CmdBalance c => balance_request c
  | _ => True
  end.

Fixpoint admissible_run (cs : list account_command) st : Prop :=
  match cs with
  | [] => True
  | c :: cs' => admissible c st ∧ admissible_run cs' (run_account_command c st)
  end.
Definition run_account_commands (cs : list account_command) st : onboarding := fold_left (λ st c, run_account_command c st) cs st.

Lemma account_command_ok c st : accounts_ok st → admissible c st → accounts_ok (run_account_command c st).
Proof.
  intros Hok Ha. destruct c; cbn [run_account_command admissible] in *.
  - by apply create_account_ok.
  - by apply update_account_ok.
  - by apply delete_account_ok.
  - by apply create_asset_ok.
  - by apply delete_asset_ok.
  - apply owners_ok; [done| |by apply command_owners]. apply command_ok, Hok.
Qed.

Lemma account_commands_ok cs st : accounts_ok st → admissible_run cs st → accounts_ok (run_account_commands cs st).
Proof.
  revert st. induction cs as [|c cs IH]; intros st Hok; [done|]. intros [Ha Hr]. cbn. apply IH; [by apply account_command_ok|done].
Qed.

(** A live balance of a live account. *)
Definition in_use st b : Prop := live b = true ∧ ∃ acc, ob_accounts st !! mb_AccountID b = Some acc ∧ account_live acc = true.

(** C33: Whatever commands run, one after the other, on the accounts, assets and balances of a
    ledger, and whatever calls fail in them: no two live accounts have the same alias, every
    balance carries the alias and the asset of its account, and two balances of live accounts
    never share an entry of the cache; provided that an alias that is asked for has the accepted
    characters, that the identifier drawn for an account is not the alias of a live one, and that
    default balances are created only by the commands on accounts and assets.
    ([racing_creations_share_alias] shows two creations that overlap.) *)
Theorem accounts_invariant cache cs : let st0 := mkOnboarding ∅ ∅ ∅ (mkBalances ∅ cache) in let st := run_account_commands cs st0 in
  admissible_run cs st0 →
  accounts_ok st ∧
  (∀ id b id' b', bt_rows (ob_balances st) !! id = Some b → bt_rows (ob_balances st) !! id' = Some b' → in_use st b → in_use st b' →
     mb_Alias b = mb_Alias b' → mb_Key b = mb_Key b' → id = id').
Proof.
  intros st0 st Ha. assert (accounts_ok st) as Hok.
  { apply account_commands_ok; [|done]. by split. }
  split; [done|]. intros id b id' b' Hb Hb' [Hl (acc & Hacc & Hla)] [Hl' (acc' & Hacc' & Hla')] Hal Hk.
  destruct (aok_owner _ Hok _ _ Hb) as (c & Hc & Hca & _), (aok_owner _ Hok _ _ Hb') as (c' & Hc' & Hca' & _). simplify_eq.
  assert (mb_AccountID b = mb_AccountID b') as Heq by (eapply (aok_alias _ Hok); [exact Hacc|exact Hacc'|done|done|congruence]).
  eapply (tok_unique _ (aok_table _ Hok)); [exact Hb|exact Hb'|done|done|by split].
Qed.

(** *** Outcomes *)

Definition same_live st st' : Prop := ∀ id acc,
  ob_accounts st !! id = Some acc ∧ account_live acc = true ↔ ob_accounts st' !! id = Some acc ∧ account_live acc = true.

(** The calls that write did what they answered, and the one that undoes was answered. *)
Definition clean_writes (an : account_answers) : Prop :=
  aa_create an ≠ AnswerLost ∧ aa_balance_create an ≠ AnswerLost ∧ aa_delete an = Answered.

(** There is one account more, with the alias and the asset, whose only balance is a default
    balance without funds. *)
Definition account_created (cai : CreateAccountInput) st st' (id alias : string) : Prop :=
  ∃ row bid b,
    ob_accounts st !! id = None ∧ ob_accounts st' = <[id := row]> (ob_accounts st) ∧ account_live row = true ∧
    ac_Alias row = Some alias ∧ (∀ s, cai_Alias cai = Some s → IsNilOrEmpty s = false → alias = s) ∧
    ac_AssetCode row = cai_AssetCode cai ∧
    bt_rows (ob_balances st) !! bid = None ∧ bt_rows (ob_balances st') = <[bid := b]> (bt_rows (ob_balances st)) ∧
    live b = true ∧ unused b ∧ mb_AccountID b = id ∧ mb_Alias b = alias ∧ mb_AssetCode b = cai_AssetCode cai ∧
    mb_Key b = DefaultBalanceKey ∧
    mb_Direction b = (if strings_EqualFold (cai_Type cai) ExternalAccountType then DirectionDebit else DirectionCredit).

Lemma default_balance_outcome x cr newID now input bs :
  match CreateDefaultBalance x cr newID now input bs with
  | (bs', Ok b) => ∃ id, newID = Ok id ∧ bt_rows bs !! id = None ∧ bs' = with_rows (<[id := b]> (bt_rows bs)) bs ∧
      b = with_direction (empty_balance id (uuid_String (ci_OrganizationID input)) (uuid_String (ci_LedgerID input))
            (uuid_String (ci_AccountID input)) (ci_Alias input) DefaultBalanceKey (ci_AssetCode input) (ci_AccountType input)
            (ci_AllowSending input) (ci_AllowReceiving input) (defaultBalanceDirection (ci_AccountType input)) None now)
  | (bs', Err _) => cr ≠ AnswerLost → bs' = bs
  end.
Proof.
  unfold CreateDefaultBalance. destruct (FindByAccountIDAndKey x _ _ bs) as [b0|[]]; try done. destruct newID as [id|e]; [|done].
  unfold Balance_Create. destruct cr; [|done|]; (case_bool_decide as Hn; [done|]); (destruct (existsb _ _); [done|]); cbn; [|done].
  exists id. split; [done|]. split; [by apply eq_None_not_Some|]. done.
Qed.

Lemma compensated st st1 an n acc : ob_accounts st !! uuid_String (na_id n) = None →
  ob_accounts st1 = <[uuid_String (na_id n) := acc]> (ob_accounts st) → in_portfolio (na_portfolio n) acc = true →
  same_live st (Account_Delete Answered (aa_now an) (na_portfolio n) (uuid_String (na_id n)) st1).1.
Proof.
  intros Hn Ha Hp. unfold Account_Delete. rewrite Ha, lookup_insert_eq. intros id x. destruct (account_live acc) eqn:El; rewrite Hp; cbn [andb fst].
  - cbn. rewrite insert_insert_eq, lookup_insert_Some. split.
    + intros [H Hl]. split; [|done]. right. split; [congruence|done].
    + intros [[[_ <-]|[_ H]] Hl]; [done|done].
  - rewrite Ha, lookup_insert_Some. split.
    + intros [H Hl]. split; [|done]. right. split; [congruence|done].
    + intros [[[_ <-]|[_ H]] Hl]; [congruence|done].
Qed.

(** C34: The creation of an account is all or nothing, its metadata apart.  If it succeeds, there is
    one live account more, with the alias asked for and the asset, whose only balance is a default
    balance without funds, in debit direction for an external account and in credit direction
    otherwise, and no other account or balance changed.  If it fails, provided that no answer of a
    write is lost and the call that undoes the creation is answered, the live accounts and the
    balances are as before; or the write of the metadata failed, after the account and its balance
    were created, and these stay. *)
Theorem create_account_all_or_nothing an org led cai st : accounts_ok st → account_request an cai st →
  match CreateAccount deriveSelfHolderID an org led cai st with
  | (st', Ok acc) => ∃ alias, ac_Alias acc = Some alias ∧ account_created cai st st' (ac_ID acc) alias
  | (st', Err _) => clean_writes an →
      (same_live st st' ∧ ob_balances st' = ob_balances st) ∨
      (aa_metadata an ≠ Answered ∧ ∃ id alias, account_created cai st st' id alias)
  end.
Proof.
  intros Hok Hq. unfold CreateAccount. destruct (prepare_account _ an org led cai st) as [n|e] eqn:Ep; [|by left].
  apply prepare_account_inv in Ep as (Hid & Hal & Hport & HID & HAl & HAs & HPo & HDe & HTy).
  pose proof (resolved_alias_unused _ _ _ _ _ _ Hq Hid Hal) as Hf. unfold store_account.
  pose proof (account_create_ok (aa_create an) _ _ _ _ Hok HID HAl Hf) as Hc.
  assert (aa_create an ≠ AnswerLost → ∀ s e, Account_Create (aa_create an) (na_account n) st = (s, Err e) → s = st) as Hce.
  { intros Hl s e. unfold Account_Create. destruct (aa_create an); [|by intros [= <-]|done]. case_bool_decide; [by intros [= <-]|done]. }
  destruct (Account_Create _ _ st) as [st1 [acc|e]] eqn:Ec.
  2: { intros (Hl & _). specialize (Hce Hl _ _ eq_refl) as ->. by left. }
  destruct Hc as (_ & Hb1 & Hs1 & Hrow). destruct (Hs1 eq_refl) as [Hn Ha1]. specialize (Hrow acc eq_refl) as ->.
  match goal with |- context [CreateDefaultBalance ?x ?c ?i ?t ?inp ?bs] => pose proof (default_balance_outcome x c i t inp bs) as Hd;
    set (input := inp) in * end.
  destruct (CreateDefaultBalance _ _ _ _ input _) as [bs [b|e]].
  - destruct Hd as (bid & _ & Hbn & Hbs & Hb). rewrite Hb1 in Hbn, Hbs.
    pose proof (create_metadata_kept (aa_metadata an) "Account" (ac_ID (account_row "" (na_account n))) (cai_Metadata cai) (set_balances bs st1)) as [Ea Eb].
    assert (∀ st2, ob_accounts st2 = ob_accounts (set_balances bs st1) → ob_balances st2 = ob_balances (set_balances bs st1) →
              account_created cai st st2 (uuid_String (na_id n)) (na_alias n)) as Hcreated.
    { intros st2 Ea2 Eb2. exists (account_row "" (na_account n)), bid, b.
      split; [done|]. split; [rewrite Ea2; exact Ha1|]. split; [unfold account_live; cbn; by rewrite HDe|]. split; [done|].
      split. { intros s Hs Hse. unfold resolveAccountAlias in Hal. rewrite Hs, Hse in Hal. apply rbind_Ok in Hal as (_ & _ & Hal). by injection Hal. }
      split; [done|]. split; [done|]. split; [rewrite Eb2; cbn; by rewrite Hbs|]. rewrite Hb. split; [done|]. split; [by split_and!|].
      do 4 (split; [done|]). cbn. unfold defaultBalanceDirection, input. cbn. rewrite HTy.
      destruct (strings_EqualFold (cai_Type cai) ExternalAccountType) eqn:Ee; [done|]. by rewrite Ee. }
    destruct (CreateOnboardingMetadata _ _ _ _ _) as [st2 [md|e]] eqn:Em; cbn [fst] in *.
    + exists (na_alias n). split; [done|].
      replace (ac_ID _) with (uuid_String (na_id n)); [by apply Hcreated|].
      cbn. rewrite HID. by rewrite bool_decide_false by apply uuid_String_nonempty.
    + intros _. right. split; [|eauto]. intros Hm. rewrite Hm in Em. unfold CreateOnboardingMetadata in Em. destruct (cai_Metadata cai); done.
  - intros (_ & Hbl & Hdel). left. rewrite Hdel. specialize (Hd Hbl). rewrite Hb1 in Hd. subst bs.
    destruct (account_delete_kept Answered (aa_now an) (na_portfolio n) (uuid_String (na_id n)) (set_balances (ob_balances st) st1)) as [_ Hb].
    split; [|done]. eapply compensated; [done|exact Ha1|]. unfold in_portfolio.
    destruct Hport as [->|(p & u & Hp & He & Hu & ->)]; [done|]. cbn. rewrite HPo, Hp. cbn. rewrite He. cbn. rewrite Hu. cbn.
    by rewrite (bool_decide_true (Some _ = Some _)), orb_true_r.
Qed.

(** The deletion of the balances of an account leaves none. *)
Lemma balances_gone an account bs bs' : table_ok bs → DeleteAllBalancesByAccountID an account bs = (bs', Ok tt) →
  ∀ id b, bt_rows bs' !! id = Some b → mb_AccountID b = uuid_String account → live b = false.
Proof.
  intros Ht. unfold DeleteAllBalancesByAccountID, ListByAccountID. destruct (da_find an); [|done..].
  set (mine := λ b, bool_decide (mb_AccountID b = uuid_String account)).
  assert (∀ id b, bt_rows bs !! id = Some b → live b = true → mb_AccountID b = uuid_String account → id ∈ mb_ID <$> rows_where mine bs) as Hin.
  { intros id b Hb Hl Ha. apply list_elem_of_fmap. exists b. split; [by destruct (tok_row _ Ht _ _ Hb)|]. apply elem_rows_where.
    exists id. split; [done|]. split; [done|]. by apply bool_decide_eq_true. }
  destruct (rows_where mine bs) as [|b0 l0].
  { intros [= <-] id b Hb Ha. destruct (live b) eqn:El; [|done]. by apply Hin, elem_of_nil in Hb. }
  destruct (for_each _ _) as [[]|e]; [|done]. unfold toggleBalanceTransfers.
  destruct (UpdateAllByAccountID (da_toggle an) (da_now an) account false bs) as [bs1 [[]|e]] eqn:E1; [|done].
  unfold DeleteAllByIDs. cbn [fmap list_fmap]. destruct (forallb _ _); [|done]. destruct (da_delete an); [|done..]. cbn [execute].
  intros [= <-] id b. cbn. rewrite map_lookup_imap. destruct (bt_rows bs1 !! id) as [b1|] eqn:Eb; [|done]. cbn. intros [= <-] Ha.
  case_bool_decide as Hid; [by rewrite deleted_not_live|]. destruct (live b1) eqn:El; [|done]. exfalso. apply Hid.
  pose proof (update_all_rows (da_toggle an) (da_now an) account false bs id b1) as Hr. rewrite E1 in Hr. destruct (Hr Eb) as (b2 & Hb2 & Hl2 & Ha2).
  apply (Hin id b2); congruence.
Qed.

(** An account that was deleted is gone, with all its balances. *)
Theorem deleted_account_gone an id st st' : accounts_ok st → DeleteAccountByID an None id st = (st', Ok tt) →
  (∀ acc, ob_accounts st' !! uuid_String id = Some acc → account_live acc = false) ∧
  (∀ bid b, bt_rows (ob_balances st') !! bid = Some b → mb_AccountID b = uuid_String id → live b = false).
Proof.
  intros Hok. unfold DeleteAccountByID. destruct (Account_Find _ None id st) as [acc|e] eqn:Ef; [|done]. destruct (external_account id acc); [done|].
  unfold Account_Find in Ef. destruct (ch_find an); [|done..]. destruct (ob_accounts st !! uuid_String id) as [c|] eqn:Ec; [|done].
  destruct (account_live c && in_portfolio None c) eqn:El; [|done]. injection Ef as ->. destruct (aok_row _ Hok _ _ Ec) as [-> _].
  rewrite uuid_Parse_String. destruct (DeleteAllBalancesByAccountID _ id (ob_balances st)) as [bs [[]|e]] eqn:Ed; [|done].
  unfold Account_Delete. cbn [ob_accounts set_balances]. rewrite Ec, El. destruct (ch_write an); [|done..]. intros [= <-]. cbn. split.
  - intros x. rewrite lookup_insert_eq. by intros [= <-].
  - intros bid b Hb Ha. by eapply balances_gone; [apply (aok_table _ Hok)|exact Ed|exact Hb|exact Ha].
Qed.
End AccountInvariant.

(** ** Samples *)

Module AccountSample.
#[local] Existing Instance FourIds.lib.
#[local] Existing Instance FourIds.parse.
#[local] Existing Instance FixedText.text.
#[local] Existing Instance Commons.lib.
Definition first_id : uuid := (false, true).
Definition second_id : uuid := (true, false).
Definition asset_id : uuid := (true, true).
Definition org : uuid := (false, false).
Definition active : AccountStatus := mkAccountStatus "" None.
Definition self : uuid → uuid := id.

Definition call_answers (id : uuid) (balance metadata : answer) : account_answers :=
  mkAccountAnswers (Ok ∅) (Ok false) None (Ok false) Answered (Err AccountCallFailed) Answered (Ok id) Answered Answered
    Answered balance (Ok ("balance of " +:+ uuid_String id)) Answered metadata 7.
Definition input (alias type : string) (blocked : bool) : CreateAccountInput :=
  mkAccountInput "" None None None "USD" None None active (Some alias) type (Some blocked) (Some ∅) false.
Definition asset_answers_of (asset account : uuid) (metadata : answer) : asset_answers :=
  mkAssetAnswers Answered (uuid_String asset) Answered metadata Answered (Ok account) Answered Answered Answered
    (Ok ("balance of " +:+ uuid_String account)) 7.
Definition dollar : CreateAssetInput := mkAssetInput "US Dollar" "currency" "USD" active (Some ∅).

Definition nothing : @onboarding Fixed.lib := mkOnboarding ∅ ∅ ∅ (mkBalances ∅ ∅).
Definition with_dollar : @onboarding Fixed.lib :=
  with_assets {[uuid_String asset_id := mkAsset (uuid_String asset_id) "US Dollar" "currency" "USD" active "" "" 0 0 None None]} nothing.
Definition create (id : uuid) (balance metadata : answer) (alias type : string) (blocked : bool) (st : @onboarding Fixed.lib)
    : @onboarding Fixed.lib * result AccountError Account :=
  CreateAccount (D := Fixed.lib) (UP := FourIds.parse) (C := Commons.lib) self (call_answers id balance metadata) org org
    (input alias type blocked) st.

(** The live accounts and balances. *)
Definition accounts_view (st : @onboarding Fixed.lib) : list (string * option string * string) :=
  map (λ acc, (ac_ID acc, ac_Alias acc, ac_Type acc)) (live_accounts (λ _, true) st).
Definition balances_view (st : @onboarding Fixed.lib) : list (string * string * string * string * bool) :=
  map (λ b, (mb_AccountID b, mb_Alias b, mb_Key b, mb_AccountType b, mb_AllowSending b)) (rows_where (λ _, true) (ob_balances st)).
Definition outcome {A} (r : result AccountError A) : option AccountError := match r with Ok _ => None | Err e => Some e end.
End AccountSample.

Import AccountSample.

Lemma alias_unused_check (st : @onboarding Fixed.lib) alias :
  live_accounts (λ acc, bool_decide (ac_Alias acc = Some alias)) st = [] → alias_unused st alias.
Proof.
  intros E id acc Hacc Hl Ha. assert (acc ∈ live_accounts (λ acc, bool_decide (ac_Alias acc = Some alias)) st) as Hin.
  { apply elem_live_accounts. exists id. split; [done|]. split; [done|]. by apply bool_decide_eq_true. }
  rewrite E in Hin. by apply elem_of_nil in Hin.
Qed.

(** An asset, an account of it, and an additional balance of that account. *)
Lemma accounts_invariant_witness :
  let cs := [CmdCreateAsset (asset_answers_of asset_id first_id Answered) org org dollar;
             CmdCreateAccount (call_answers second_id Answered Answered) org org (input "@alice" "deposit" false);
             CmdBalance (CmdCreateAdditional Answered Answered Answered "extra" 9 second_id (mkAdditional "savings" None None None None))] in
  let st := run_account_commands (U := FourIds.lib) (UP := FourIds.parse) (DT := FixedText.text) (C := Commons.lib) self cs nothing in
  accounts_ok (U := FourIds.lib) (DT := FixedText.text) st ∧
  balances_view st = [(uuid_String second_id, "@alice", "savings", "deposit", true);
                      (uuid_String second_id, "@alice", "default", "deposit", true);
                      (uuid_String first_id, "@external/USD", "default", "external", true)].
Proof.
  intros cs st.
  assert (admissible_run (U := FourIds.lib) (UP := FourIds.parse) (DT := FixedText.text) (C := Commons.lib) self cs nothing) as Ha.
  { split; [done|]. split; [|by split]. split; [intros alias [= <-]; right; vm_compute; reflexivity|]. intros id [= <-].
    apply alias_unused_check. vm_compute. reflexivity. }
  destruct (accounts_invariant (PL := FourIds.parse_laws) (DT := FixedText.text) (C := Commons.lib) self ∅ cs Ha) as [H1 _].
  split; [exact H1|]. vm_compute. reflexivity.
Defined.

Lemma dollar_ok : accounts_ok (U := FourIds.lib) (DT := FixedText.text) with_dollar.
Proof. by split. Qed.

(** The default balance cannot be created: the account is gone again. *)
Lemma create_account_all_or_nothing_witness :
  let r := create first_id Refused Answered "@alice" "deposit" false with_dollar in
  outcome r.2 = Some ErrAccountCreationFailed ∧ same_live with_dollar r.1 ∧ ob_balances r.1 = ob_balances with_dollar.
Proof.
  assert (account_request (U := FourIds.lib) (call_answers first_id Refused Answered) (input "@alice" "deposit" false) with_dollar) as Hq.
  { split; [intros alias [= <-]; right; vm_compute; reflexivity|]. intros id [= <-]. apply alias_unused_check. vm_compute. reflexivity. }
  pose proof (create_account_all_or_nothing (PL := FourIds.parse_laws) (DT := FixedText.text) (C := Commons.lib) self
    (call_answers first_id Refused Answered) org org (input "@alice" "deposit" false) with_dollar dollar_ok Hq) as H.
  assert (outcome (create first_id Refused Answered "@alice" "deposit" false with_dollar).2 = Some ErrAccountCreationFailed) as Ho
    by (vm_compute; reflexivity).
  unfold create in *. destruct (CreateAccount _ _ _ _ _ _) as [st' [acc|e]]; [done|]. split; [exact Ho|].
  destruct H as [H|[H _]]; [by split_and!|exact H|by destruct H].
Defined.

(** ** Behaviour the comments do not describe *)

(** Two creations with one alias that overlap both find it unused and both succeed: the index on
    the alias is not unique. *)
Theorem racing_creations_share_alias :
  let an id := call_answers id Answered Answered in
  let prepare id := prepare_account (D := Fixed.lib) (UP := FourIds.parse) (C := Commons.lib) self (an id) org org
                      (input "@alice" "deposit" false) with_dollar in
  match prepare first_id, prepare second_id with
  | Ok n1, Ok n2 =>
      let r1 := store_account (UP := FourIds.parse) (C := Commons.lib) (an first_id) org org n1 (Some ∅) with_dollar in
      let r2 := store_account (UP := FourIds.parse) (C := Commons.lib) (an second_id) org org n2 (Some ∅) r1.1 in
      outcome r1.2 = None ∧ outcome r2.2 = None ∧
      accounts_view r2.1 = [(uuid_String second_id, Some "@alice", "deposit"); (uuid_String first_id, Some "@alice", "deposit")]
  | _, _ => False
  end.
Proof. vm_compute. split_and!; reflexivity. Qed.

(** An asset that was deleted and created again has two external balances of one alias, so that
    they share their entry in the cache: the deletion leaves the balances of the accounts it
    deletes. *)
Theorem recreated_asset_shares_cache_entry :
  let st1 := (CreateAsset (C := Commons.lib) (asset_answers_of asset_id first_id Answered) org org dollar nothing).1 in
  let r2 := DeleteAssetByID (UP := FourIds.parse) Answered Answered (λ _, Answered) Answered 8 asset_id st1 in
  let r3 := CreateAsset (C := Commons.lib) (asset_answers_of org second_id Answered) org org dollar r2.1 in
  outcome r2.2 = None ∧ outcome r3.2 = None ∧
  accounts_view r3.1 = [(uuid_String second_id, Some "@external/USD", "external")] ∧
  balances_view r3.1 = [(uuid_String second_id, "@external/USD", "default", "external", true);
                       (uuid_String first_id, "@external/USD", "default", "external", true)].
Proof. split; [|split; [|split]]; vm_compute; reflexivity. Qed.

(** An alias is refused because another one resembles it: the alias is the pattern of a LIKE, in
    which an underscore stands for any character. *)
Theorem similar_alias_refused :
  let st := (create first_id Answered Answered "@alice-eur" "deposit" false with_dollar).1 in
  outcome (create second_id Answered Answered "@alice_eur" "deposit" false st).2 = Some ErrAliasUnavailability ∧
  outcome (create second_id Answered Answered "@alice:eur" "deposit" false st).2 = None.
Proof. split; vm_compute; reflexivity. Qed.

(** When the metadata cannot be stored the request fails, but the account and its balance stay, and
    the request cannot be repeated. *)
Theorem failed_metadata_keeps_account :
  let r := create first_id Answered Refused "@alice" "deposit" false with_dollar in
  outcome r.2 = Some AccountCallFailed ∧ accounts_view r.1 = [(uuid_String first_id, Some "@alice", "deposit")] ∧
  outcome (create second_id Answered Answered "@alice" "deposit" false r.1).2 = Some ErrAliasUnavailability.
Proof. split; [|split]; vm_compute; reflexivity. Qed.

(** An asset whose creation failed halfway has no external account and cannot be created again. *)
Theorem asset_without_external_account :
  let r := CreateAsset (C := Commons.lib) (asset_answers_of asset_id first_id Refused) org org dollar nothing in
  outcome r.2 = Some AccountCallFailed ∧ accounts_view r.1 = [] ∧
  outcome (CreateAsset (C := Commons.lib) (asset_answers_of org first_id Answered) org org dollar r.1).2 = Some ErrAssetNameOrCodeDuplicate.
Proof. split; [|split]; vm_compute; reflexivity. Qed.

(** The type of an account is stored in lower case, that of its balance as it was written. *)
Theorem balance_type_differs :
  let st := (create first_id Answered Answered "@alice" "Deposit" false with_dollar).1 in
  accounts_view st = [(uuid_String first_id, Some "@alice", "deposit")] ∧
  balances_view st = [(uuid_String first_id, "@alice", "default", "Deposit", true)].
Proof. split; vm_compute; reflexivity. Qed.

(** The balance of an account that is created blocked may send and receive. *)
Theorem blocked_account_sends :
  let r := create first_id Answered Answered "@alice" "deposit" true with_dollar in
  match r.2 with Ok acc => ac_Blocked acc = Some true | Err _ => False end ∧
  balances_view r.1 = [(uuid_String first_id, "@alice", "default", "deposit", true)].
Proof. split; vm_compute; reflexivity. Qed.
