(* ===== verification/Packages.v ===== *)
(** * Fee packages

    src/components/ledger/internal/services/fees: create-package.go, update-package-by-id.go,
    delete-package-by-id.go, validate-package-range-amount.go and the cache of service.go; the
    checks of pkg/feeshared/model (create_package_input.go, update_package_input.go, package.go),
    the repository adapters/mongodb/fees/pack and the handlers of
    adapters/http/in/fees_package_handler.go.

    The collection of one organization is the list of its documents, deleted ones included, in the
    order in which a query meets them; amounts keep the value of their text.  Requests are served
    one at a time, each a function of the answers of its calls ([package_answers]).  Fees of a
    request come in the order Go ranges over their map.  The cache is configured, and holds what
    the code wrote.  The exponent of a decimal, the account resolver and the conversion of keys
    (strcase.ToLowerCamel) are parameters.  An update is a pipeline of MongoDB stages; its texts
    are taken literally, none starting with a dollar sign.  Events are left out.

    [managed_packages_selectable]: the set in force is never ambiguous; [deductible_fees_bounded]:
    deductible fees stay within the original amount. *)

From Stdlib Require Import ZArith Lia QArith.
From stdpp Require Import base gmap strings list.
From S2P Require Import Prelude Decimals GoStrings Transaction BalanceOps SendValidation LuaDecimal MBalance.
From S2P Require Import CacheKeys GoTime WritePath FeeEngine BalanceCommands.
Local Open Scope string_scope.
Local Open Scope list_scope.
Local Open Scope Z_scope.

(** ** Data *)

(** [model.Fee] of a request. *)
Record FeeInput := mkFeeInput {
  fi_FeeLabel : string; fi_CalculationModel : option CalculationModel; fi_ReferenceAmount : string; fi_Priority : Z;
  fi_IsDeductibleFrom : option bool; fi_CreditAccount : string; fi_RouteFrom : option string; fi_RouteTo : option string }.

Definition input_deductible (f : FeeInput) : bool := default false (fi_IsDeductibleFrom f).

Definition ValidateIfFeeIsNil (f : FeeInput) : bool :=
  bool_decide (fi_FeeLabel f = "") && bool_decide (fi_ReferenceAmount f = "") && bool_decide (fi_Priority f = 0)
  && bool_decide (fi_CreditAccount f = "")
  && match fi_CalculationModel f, fi_IsDeductibleFrom f with None, None => true | _, _ => false end.

Record CreatePackageInput := mkCreatePackage {
  cp_FeeGroupLabel : string; cp_Description : option string; cp_SegmentID : option string; cp_LedgerID : string;
  cp_TransactionRoute : option string; cp_MinAmount : string; cp_MaxAmount : string; cp_WaivedAccounts : option (list string);
  cp_Fee : list (string * FeeInput); cp_Enable : option bool }.

Record UpdatePackageInput := mkUpdatePackage {
  up_FeeGroupLabel : string; up_Description : string; up_MinAmount : option string; up_MaxAmount : option string;
  up_WaivedAccounts : option (list string); up_Fee : option (list (string * FeeInput)); up_EnablePackage : option bool }.

Inductive PackageError :=
  | ErrInvalidSegmentID | ErrInvalidLedgerID | ErrConvertToDecimal | ErrMinAmountGreaterThanMaxAmount | ErrMaxAmountLessThanMinAmount
  | ErrPriorityOne | ErrIsDeductibleFrom | ErrPriorityInvalid | ErrCalculationModelRequired | ErrAppRuleFlatFeeAndPercentual
  | ErrAppRuleMaxBetweenTypes | ErrCalculationTypeFlatFee | ErrCalculationTypePercentual | ErrCalculationValuePercentage
  | ErrCalculationValueFlatFee | ErrDuplicatePackage | ErrPackageRange | ErrMissingOrganizationID | ErrMissingLedgerID | ErrMissingName
  | ErrPackageNotFound | ErrNothingToUpdate | ErrFeeFieldsRequired | ErrCalculationFieldOfFeeRequired
  | ErrDeductibleCalculationValuePercentage | ErrDeductibleCalculationValueFlatFee | ErrReferenceAmountInvalid | ErrAppRuleInvalid
  | ErrCalculationTypeInvalid | AccountNotFound | NilDereference | PackageCallFailed.

#[export] Instance PackageError_eq : EqDecision PackageError.
Proof. solve_decision. Defined.

Definition OriginalAmount : string := "originalAmount".
Definition AfterFeesAmount : string := "afterFeesAmount".
Definition FlatFee : string := "flatFee".
Definition Percentual : string := "percentual".
Definition MaxBetween : string := "maxBetweenTypes".
Definition FlatType : string := "flat".
Definition PercentageType : string := "percentage".

Section Packages.
Context {D : DecimalLib} {DT : DecimalText} {U : UuidLib} {UP : UuidParse} {C : LibCommons}.
Context (dexponent : dec → Z) (toLowerCamel : string → string).

(** ** Checks of requests *)

Definition maxAmountExponent : Z := 1000.
Definition parseAmountDecimal (s : string) : option dec :=
  d ← dparse s; if (maxAmountExponent <? dexponent d) || (dexponent d <? - maxAmountExponent) then None else Some d.

Definition hundred : dec := dnew 100.

Definition validateCalculationCountForRule (m : CalculationModel) : result PackageError unit :=
  let n := length (cm_Calculations m) in
  if bool_decide (cm_ApplicationRule m ∈ [FlatFee; Percentual]) then
    (if bool_decide (n = 1%nat) then Ok tt else Err ErrAppRuleFlatFeeAndPercentual)
  else if bool_decide (cm_ApplicationRule m = MaxBetween) then
    (if bool_decide (n ∈ [0; 1]%nat) then Err ErrAppRuleMaxBetweenTypes else Ok tt)
  else Ok tt.

Definition first_type (m : CalculationModel) : option string := calc_Type <$> head (cm_Calculations m).
Definition validateCalculationRuleAndTypes (m : CalculationModel) : result PackageError unit :=
  if bool_decide (cm_ApplicationRule m = FlatFee) then
    (if bool_decide (first_type m = Some FlatType) then Ok tt else Err ErrCalculationTypeFlatFee)
  else if bool_decide (cm_ApplicationRule m = Percentual) then
    (if bool_decide (first_type m = Some PercentageType) then Ok tt else Err ErrCalculationTypePercentual)
  else Ok tt.

Definition validateCalculationValues (m : CalculationModel) (minAmount : string) (isDeductible : bool) : result PackageError unit :=
  for_each (λ calc,
    match parseAmountDecimal (calc_Value calc) with
    | None => Err ErrConvertToDecimal
    | Some value =>
        if negb (bool_decide (minAmount = "")) && isDeductible then
          if bool_decide (calc_Type calc = PercentageType) && dgt value hundred then Err ErrCalculationValuePercentage else
          if bool_decide (calc_Type calc = FlatType) then
            match parseAmountDecimal minAmount with
            | None => Err ErrConvertToDecimal
            | Some minimum => if dgt value minimum then Err ErrCalculationValueFlatFee else Ok tt
            end
          else Ok tt
        else Ok tt
    end) (cm_Calculations m).

Definition validateCalculationModel (m : option CalculationModel) (minAmount : string) (isDeductible : bool) : result PackageError unit :=
  match m with
  | None => Err ErrCalculationModelRequired
  | Some m =>
      do! validateCalculationCountForRule m;;
      do! validateCalculationRuleAndTypes m;;
      validateCalculationValues m minAmount isDeductible
  end.

Definition create_fee_valid (minAmount : string) (kf : string * FeeInput) : result PackageError unit :=
  let f := kf.2 in
  if bool_decide (fi_Priority f = 1) && negb (bool_decide (fi_ReferenceAmount f = OriginalAmount)) then Err ErrPriorityOne else
  if input_deductible f && negb (bool_decide (fi_ReferenceAmount f = OriginalAmount)) then Err ErrIsDeductibleFrom else
  validateCalculationModel (fi_CalculationModel f) minAmount (input_deductible f).
Definition Create_ValidateFees (cp : CreatePackageInput) : result PackageError unit :=
  for_each (create_fee_valid (cp_MinAmount cp)) (cp_Fee cp).

Definition Create_ValidateMinAndMaxAmount (cp : CreatePackageInput) : result PackageError unit :=
  match parseAmountDecimal (cp_MinAmount cp), parseAmountDecimal (cp_MaxAmount cp) with
  | Some minimum, Some maximum =>
      if dgt minimum maximum then Err ErrMinAmountGreaterThanMaxAmount else
      if strings_Contains (cp_MinAmount cp) "," || strings_Contains (cp_MaxAmount cp) "," then Err ErrConvertToDecimal else Ok tt
  | _, _ => Err ErrConvertToDecimal
  end.

Definition update_fee_valid (minAmount : string) (kf : string * FeeInput) : result PackageError unit :=
  let f := kf.2 in
  if ValidateIfFeeIsNil f then Ok tt else
  if bool_decide (fi_Priority f = 1) && negb (bool_decide (fi_ReferenceAmount f = "")) && negb (bool_decide (fi_ReferenceAmount f = OriginalAmount))
  then Err ErrPriorityOne else
  if input_deductible f && negb (bool_decide (fi_ReferenceAmount f = "")) && negb (bool_decide (fi_ReferenceAmount f = OriginalAmount))
  then Err ErrIsDeductibleFrom else
  match fi_CalculationModel f with
  | None => Ok tt
  | m => validateCalculationModel m minAmount (input_deductible f)
  end.
Definition Update_ValidateFees (up : UpdatePackageInput) (fees : list (string * FeeInput)) : result PackageError unit :=
  for_each (update_fee_valid (default "" (up_MinAmount up))) fees.

Definition parse_given (s : option string) : result PackageError (option dec) :=
  match s with
  | None => Ok None
  | Some s => match parseAmountDecimal s with Some d => Ok (Some d) | None => Err ErrConvertToDecimal end
  end.
Definition Update_ValidateMinAndMaxAmount (up : UpdatePackageInput) : result PackageError unit :=
  let! minimum := parse_given (up_MinAmount up) in
  let! maximum := parse_given (up_MaxAmount up) in
  match minimum, maximum with
  | Some a, Some b => if dgt a b then Err ErrMinAmountGreaterThanMaxAmount else Ok tt
  | _, _ => Ok tt
  end.

(** ** The collection and the cache *)

Record PackageDoc := mkPackageDoc {
  pd_ID : uuid; pd_FeeGroupLabel : string; pd_Description : option string; pd_SegmentID : option uuid; pd_LedgerID : uuid;
  pd_TransactionRoute : option string; pd_MinimumAmount : dec; pd_MaximumAmount : dec; pd_WaivedAccounts : option (list string);
  pd_Fees : gmap string Fee; pd_Enable : option bool; pd_CreatedAt : Time; pd_UpdatedAt : Time; pd_DeletedAt : option Time }.

Definition doc_live (p : PackageDoc) : bool := bool_decide (pd_DeletedAt p = None).
Definition doc_route (p : PackageDoc) : string := default "" (pd_TransactionRoute p).
Definition doc_segment (p : PackageDoc) : string := match pd_SegmentID p with Some s => uuid_String s | None => nil_uuid end.
Definition same_id (u v : uuid) : bool := bool_decide (uuid_String u = uuid_String v).

(** The package as the fee engine sees it. *)
Definition to_package (p : PackageDoc) : Package :=
  mkPackage (pd_ID p) (pd_FeeGroupLabel p) (pd_Description p) (pd_SegmentID p) (pd_LedgerID p) (pd_TransactionRoute p)
    (pd_MinimumAmount p) (pd_MaximumAmount p) (pd_WaivedAccounts p) (map_to_list (pd_Fees p)).*2 (pd_Enable p)
    (pd_CreatedAt p) (pd_UpdatedAt p) (pd_DeletedAt p).

(** An entry of the cache: until when it lives ([None]: it does not expire), and the packages. *)
Record packages_state := mkPackagesState {
  ps_docs : list PackageDoc; ps_cache : gmap string (option Time * list PackageDoc) }.
Implicit Types (st : packages_state) (p : PackageDoc) (a : answer).

(** [uuid.ID() == 0]. *)
Definition zero_id (u : uuid) : bool := bool_decide (String.substring 0 8 (uuid_String u) = "00000000").

(** The filter of [FindList], and its first page of ten. *)
Definition in_filter (ledger : uuid) (segment : option uuid) (route : string) p : bool :=
  doc_live p && (zero_id ledger || same_id (pd_LedgerID p) ledger)
  && match segment with Some s => zero_id s || match pd_SegmentID p with Some t => same_id t s | None => false end | None => true end
  && (bool_decide (route = "") || IsNilOrEmpty route || bool_decide (pd_TransactionRoute p = Some route)).
Definition page_limit : nat := 10.
Definition FindList a (ledger : uuid) (segment : option uuid) (route : string) st : result PackageError (list PackageDoc) :=
  match a with
  | Answered => Ok (take page_limit (List.filter (in_filter ledger segment route) (ps_docs st)))
  | _ => Err PackageCallFailed
  end.

Definition enabled_docs (ledger : uuid) (docs : list PackageDoc) : list PackageDoc :=
  List.filter (λ p, doc_live p && same_id (pd_LedgerID p) ledger && default false (pd_Enable p)) docs.
Definition FindByOrganizationIDAndLedgerID a (ledger : uuid) st : result PackageError (list PackageDoc) :=
  match a with Answered => Ok (enabled_docs ledger (ps_docs st)) | _ => Err PackageCallFailed end.

Definition find_doc (id : uuid) st : option PackageDoc := List.find (λ p, same_id (pd_ID p) id && doc_live p) (ps_docs st).

Definition set_docs docs st : packages_state := mkPackagesState docs (ps_cache st).
Definition write_doc {A} a st st' (v : A) : packages_state * result PackageError A :=
  match a with
  | Answered => (st', Ok v)
  | Refused => (st, Err PackageCallFailed)
  | AnswerLost => (st', Err PackageCallFailed)
  end.

Definition invalidatePackageCache a (ledger : uuid) st : packages_state :=
  match a with Refused => st | _ => mkPackagesState (ps_docs st) (delete (uuid_String ledger) (ps_cache st)) end.

Definition packageCacheSentinelTTL : Time := 60.
Definition writePackageCache a (now : Time) (ledger : uuid) (l : list PackageDoc) st : packages_state :=
  match a with
  | Refused => st
  | _ => mkPackagesState (ps_docs st)
           (<[uuid_String ledger := (match l with [] => Some (now + packageCacheSentinelTTL) | _ => None end, l)]> (ps_cache st))
  end.

Definition findPackagesCached (get find set : answer) (now : Time) (ledger : uuid) st : packages_state * result PackageError (list PackageDoc) :=
  let fetch := match FindByOrganizationIDAndLedgerID find ledger st with
               | Ok l => (writePackageCache set now ledger l st, Ok l)
               | Err e => (st, Err e)
               end in
  match get, ps_cache st !! uuid_String ledger with
  | Answered, Some (expiry, l) =>
      if match expiry with Some t => now <? t | None => true end then (st, Ok l) else fetch
  | _, _ => fetch
  end.

(** ** The range of amounts *)

Definition segment_text (segment : option uuid) : string := match segment with Some s => uuid_String s | None => nil_uuid end.

Definition isSamePackage p (newMin newMax : dec) (route : string) (segment : option uuid) : bool :=
  dequal (pd_MaximumAmount p) newMax && dequal (pd_MinimumAmount p) newMin && bool_decide (doc_segment p = segment_text segment)
  && bool_decide (doc_route p = route).

Definition isRangeOverlap p (newMin newMax : dec) (route : string) (segment : option uuid) : bool :=
  bool_decide (doc_segment p = segment_text segment) && bool_decide (doc_route p = route) && dle newMin (pd_MaximumAmount p)
  && dge newMax (pd_MinimumAmount p).

Definition ValidatePackageMaxAndMinAmountRange a (maxAmount minAmount route : string) (ledger : uuid) (segment self : option uuid) st
    : result PackageError unit :=
  let! packs := FindList a ledger segment route st in
  match packs with
  | [] => Ok tt
  | _ =>
      match dparse maxAmount, dparse minAmount with
      | Some newMax, Some newMin =>
          for_each (λ p,
            if match self with Some id => same_id (pd_ID p) id | None => false end then Ok tt
            else if isSamePackage p newMin newMax route segment then Err ErrDuplicatePackage
            else if isRangeOverlap p newMin newMax route segment then Err ErrPackageRange else Ok tt) packs
      | _, _ => Err ErrConvertToDecimal
      end
  end.

(** ** Creating a package *)

(** [FromEntityCalculationArray] and back: the values are stored as decimals and read as text. *)
Definition stored_calculation (calc : Calculation) : result PackageError Calculation :=
  match dparse (calc_Value calc) with
  | None => Err ErrConvertToDecimal
  | Some d => Ok (mkCalculation (calc_Type calc) (dstring d))
  end.
Fixpoint stored_calculations (l : list Calculation) : result PackageError (list Calculation) :=
  match l with
  | [] => Ok []
  | calc :: l' => let! c := stored_calculation calc in let! cs := stored_calculations l' in Ok (c :: cs)
  end.

Definition stored_fee (routes : option string → option string) (f : FeeInput) : result PackageError Fee :=
  match fi_CalculationModel f with
  | None => Err ErrCalculationModelRequired
  | Some m =>
      let! calcs := stored_calculations (cm_Calculations m) in
      Ok (mkFee (fi_FeeLabel f) (mkCalculationModel (cm_ApplicationRule m) calcs) (fi_ReferenceAmount f) (fi_Priority f)
            (fi_IsDeductibleFrom f) (fi_CreditAccount f) (routes (fi_RouteFrom f)) (routes (fi_RouteTo f)))
  end.
Definition nonempty_route (r : option string) : option string := match r with Some s => if IsNilOrEmpty s then None else Some s | None => None end.

Definition FromEntityFeeMap (fees : list (string * FeeInput)) : result PackageError (gmap string Fee) :=
  fold_res (λ m kf, let! f := stored_fee nonempty_route kf.2 in Ok (<[toLowerCamel kf.1 := f]> m)) ∅ fees.

Record package_answers := mkPackageAnswers {
  pa_account : string → result PackageError unit;     (* resolver.AccountExistsByAlias *)
  pa_list : answer; pa_find : answer; pa_newID : result PackageError uuid; pa_write : answer; pa_invalidate : answer; pa_reread : answer; pa_now : Time }.

Definition NewPackage (an : package_answers) (organization ledger : uuid) (feeGroupLabel : string) : result PackageError uuid :=
  if bool_decide (uuid_String organization = nil_uuid) then Err ErrMissingOrganizationID else
  if bool_decide (uuid_String ledger = nil_uuid) then Err ErrMissingLedgerID else
  if bool_decide (feeGroupLabel = "") then Err ErrMissingName else pa_newID an.

Definition insert_doc a p st : packages_state * result PackageError PackageDoc :=
  match a with
  | Refused => (st, Err PackageCallFailed)
  | _ => if existsb (λ q, same_id (pd_ID q) (pd_ID p)) (ps_docs st) then (st, Err ErrDuplicatePackage)
         else write_doc a st (set_docs (ps_docs st ++ [p]) st) p
  end.

(** What is checked and converted before the document is inserted; [uuid.Nil] is no segment. *)
Definition prepare_package (an : package_answers) (organization ledger : uuid) (segment : option uuid) (cp : CreatePackageInput) st
    : result PackageError PackageDoc :=
  let newSegment := match segment with Some s => if zero_id s then None else Some s | None => None end in
  do! for_each (λ kf, pa_account an (fi_CreditAccount kf.2)) (cp_Fee cp);;
  do! ValidatePackageMaxAndMinAmountRange (pa_list an) (cp_MaxAmount cp) (cp_MinAmount cp) (default "" (cp_TransactionRoute cp)) ledger newSegment None st;;
  match dparse (cp_MinAmount cp), dparse (cp_MaxAmount cp) with
  | Some minimum, Some maximum =>
      let! id := NewPackage an organization ledger (cp_FeeGroupLabel cp) in
      let! fees := FromEntityFeeMap (cp_Fee cp) in
      Ok (mkPackageDoc id (cp_FeeGroupLabel cp) (cp_Description cp) newSegment ledger (cp_TransactionRoute cp) minimum maximum
            (cp_WaivedAccounts cp) fees (cp_Enable cp) (pa_now an) (pa_now an) None)
  | _, _ => Err ErrConvertToDecimal
  end.

Definition CreatePackage (an : package_answers) (organization ledger : uuid) (segment : option uuid) (cp : CreatePackageInput) st
    : packages_state * result PackageError PackageDoc :=
  match prepare_package an organization ledger segment cp st with
  | Err e => (st, Err e)
  | Ok p =>
      match insert_doc (pa_write an) p st with
      | (st', Err e) => (st', Err e)
      | (st', Ok p') => (invalidatePackageCache (pa_invalidate an) ledger st', Ok p')
      end
  end.

Fixpoint distinct (l : list Z) : bool := match l with [] => true | x :: l' => negb (bool_decide (x ∈ l')) && distinct l' end.

(** The handler. *)
Definition createPackage (an : package_answers) (organization : uuid) (cp : CreatePackageInput) st
    : packages_state * result PackageError PackageDoc :=
  match (match cp_SegmentID cp with
         | Some s => if IsNilOrEmpty s then Some None else Some <$> uuid_Parse s
         | None => Some None
         end), uuid_Parse (cp_LedgerID cp) with
  | None, _ => (st, Err ErrInvalidSegmentID)
  | _, None => (st, Err ErrInvalidLedgerID)
  | Some segment, Some ledger =>
      match (do! Create_ValidateMinAndMaxAmount cp;; Create_ValidateFees cp) with
      | Err e => (st, Err e)
      | Ok _ => if distinct (fi_Priority <$> (cp_Fee cp).*2) then CreatePackage an organization ledger segment cp st
                else (st, Err ErrPriorityInvalid)
      end
  end.

(** ** Updating a package *)

(** *** One fee *)

Definition validatePercentageCalculation (value : dec) : result PackageError unit :=
  if dgt value hundred then Err ErrDeductibleCalculationValuePercentage else Ok tt.
Definition validateFlatCalculation (value minAmount : dec) : result PackageError unit :=
  if dgt value minAmount then Err ErrDeductibleCalculationValueFlatFee else Ok tt.
Definition check_value (minAmount : dec) (type : string) (value : dec) : result PackageError unit :=
  if bool_decide (type = PercentageType) then validatePercentageCalculation value
  else if bool_decide (type = FlatType) then validateFlatCalculation value minAmount else Ok tt.

(** [ValidateNewFee]; a fee without a calculation model is dereferenced. *)
Definition validateRequiredFields (f : FeeInput) : result PackageError CalculationModel :=
  if bool_decide (fi_FeeLabel f = "") then Err ErrFeeFieldsRequired else
  match fi_CalculationModel f with
  | None => Err NilDereference
  | Some m =>
      if bool_decide (cm_ApplicationRule m = "") || bool_decide (cm_Calculations m = []) || bool_decide (fi_ReferenceAmount f = "")
         || bool_decide (fi_Priority f = 0) || bool_decide (fi_CreditAccount f = "") || bool_decide (fi_IsDeductibleFrom f = None)
      then Err ErrFeeFieldsRequired else Ok m
  end.
Definition new_calculation_valid (minAmount : dec) (deductible : bool) (calc : Calculation) : result PackageError unit :=
  match parseAmountDecimal (calc_Value calc) with
  | None => Err ErrConvertToDecimal
  | Some value =>
      if bool_decide (calc_Type calc = "") || dis_zero value then Err ErrCalculationFieldOfFeeRequired
      else if deductible then check_value minAmount (calc_Type calc) value else Ok tt
  end.
Definition ValidateNewFee (minAmount : dec) (f : FeeInput) : result PackageError unit :=
  let! m := validateRequiredFields f in
  do! for_each (new_calculation_valid minAmount (input_deductible f)) (cm_Calculations m);;
  if bool_decide (cm_ApplicationRule m = MaxBetween) && bool_decide (length (cm_Calculations m) ∈ [0; 1]%nat)
  then Err ErrAppRuleMaxBetweenTypes else Ok tt.

(** [shouldValidateDeductibleCalculation] *)
Definition becomes_deductible (f : FeeInput) (existing : Fee) : bool := default (GetIsDeductibleFrom existing) (fi_IsDeductibleFrom f).

Definition update_calculation_valid (minAmount : dec) (deductible : bool) (calc : Calculation) : result PackageError unit :=
  if negb (bool_decide (calc_Type calc ∈ [PercentageType; FlatType])) then Err ErrCalculationTypeInvalid else
  match parseAmountDecimal (calc_Value calc) with
  | None => Err ErrConvertToDecimal
  | Some value => if deductible then check_value minAmount (calc_Type calc) value else Ok tt
  end.

(** [setAndValidateCalculationModel]: the rule and the calculations to set, if any is given. *)
Definition updateCalculationModel (minAmount : dec) (f : FeeInput) (existing : Fee)
    : result PackageError (option (option string * option (list Calculation))) :=
  match fi_CalculationModel f with
  | None => Ok None
  | Some m =>
      let noRule := IsNilOrEmpty (cm_ApplicationRule m) in
      if noRule && bool_decide (cm_Calculations m = []) then Ok None else
      if negb noRule && negb (bool_decide (cm_ApplicationRule m ∈ [MaxBetween; FlatFee; Percentual])) then Err ErrAppRuleInvalid else
      do! for_each (update_calculation_valid minAmount (becomes_deductible f existing)) (cm_Calculations m);;
      let! calcs := stored_calculations (cm_Calculations m) in
      Ok (Some (if noRule then None else Some (cm_ApplicationRule m), match cm_Calculations m with [] => None | _ => Some calcs end))
  end.

Definition existing_calculation_valid (minAmount : dec) (calc : Calculation) : result PackageError unit :=
  match parseAmountDecimal (calc_Value calc) with
  | None => Err ErrConvertToDecimal
  | Some value => check_value minAmount (calc_Type calc) value
  end.

(** [updateIsDeductibleFrom] *)
Definition check_deductible (minAmount : dec) (modelUpdated : bool) (f : FeeInput) (existing : Fee) : result PackageError unit :=
  match fi_IsDeductibleFrom f with
  | None | Some false => Ok tt
  | Some true =>
      if IsNilOrEmpty (fi_ReferenceAmount f) && bool_decide (fee_ReferenceAmount existing = AfterFeesAmount) then Err ErrIsDeductibleFrom else
      if modelUpdated then Ok tt else for_each (existing_calculation_valid minAmount) (cm_Calculations (fee_CalculationModel existing))
  end.

(** [updateReferenceAmount] *)
Definition check_reference (f : FeeInput) (existing : Fee) : result PackageError unit :=
  if IsNilOrEmpty (fi_ReferenceAmount f) then Ok tt else
  if negb (bool_decide (fi_ReferenceAmount f ∈ [OriginalAmount; AfterFeesAmount])) then Err ErrReferenceAmountInvalid else
  if bool_decide (fi_IsDeductibleFrom f = None) && bool_decide (fi_ReferenceAmount f = AfterFeesAmount) && GetIsDeductibleFrom existing
  then Err ErrIsDeductibleFrom else Ok tt.

Definition given (s : string) (old : string) : string := if IsNilOrEmpty s then old else s.
Definition given_route (s old : option string) : option string := match s with Some t => if IsNilOrEmpty t then old else s | None => old end.

(** The fee [current] after the fields of the request are set. *)
Definition merged_fee (m : option (option string * option (list Calculation))) (f : FeeInput) (current : Fee) : Fee :=
  mkFee (given (fi_FeeLabel f) (fee_FeeLabel current))
    (match m with
     | None => fee_CalculationModel current
     | Some (rule, calcs) => mkCalculationModel (default (cm_ApplicationRule (fee_CalculationModel current)) rule)
                               (default (cm_Calculations (fee_CalculationModel current)) calcs)
     end)
    (given (fi_ReferenceAmount f) (fee_ReferenceAmount current))
    (if bool_decide (fi_Priority f = 0) then fee_Priority current else fi_Priority f)
    (match fi_IsDeductibleFrom f with Some d => Some d | None => fee_IsDeductibleFrom current end)
    (given (fi_CreditAccount f) (fee_CreditAccount current))
    (given_route (fi_RouteFrom f) (fee_RouteFrom current)) (given_route (fi_RouteTo f) (fee_RouteTo current)).

Definition route_given (s : option string) : bool := match s with Some t => negb (IsNilOrEmpty t) | None => false end.

(** [SetAndValidateHasFieldsToUpdate]: checks the request against the fee that is stored and sets
    its fields on [current]; [None] when the request names no field. *)
Definition SetAndValidateHasFieldsToUpdate (an : package_answers) (minAmount : dec) (f : FeeInput) (existing current : Fee)
    : result PackageError (option Fee) :=
  let! m := updateCalculationModel minAmount f existing in
  do! check_deductible minAmount (bool_decide (is_Some m)) f existing;;
  do! check_reference f existing;;
  do! (if IsNilOrEmpty (fi_CreditAccount f) then Ok tt else pa_account an (fi_CreditAccount f));;
  if bool_decide (is_Some m) || bool_decide (is_Some (fi_IsDeductibleFrom f)) || negb (IsNilOrEmpty (fi_FeeLabel f))
     || negb (IsNilOrEmpty (fi_ReferenceAmount f)) || negb (bool_decide (fi_Priority f = 0)) || negb (IsNilOrEmpty (fi_CreditAccount f))
     || route_given (fi_RouteFrom f) || route_given (fi_RouteTo f)
  then Ok (Some (merged_fee m f current)) else Ok None.

(** *** All fees *)

(** The fees after the [$set] stage, the keys of the [$unset] stage that follows it, and the
    priorities compared at the end: those of the request for the fees it names. *)
Record fees_update := mkFeesUpdate { fu_fees : gmap string Fee; fu_unset : list string; fu_priorities : gmap string Z }.

Definition update_one_fee (an : package_answers) (minAmount : dec) (existing : gmap string Fee) (u : fees_update) (kf : string * FeeInput)
    : result PackageError fees_update :=
  let key := toLowerCamel kf.1 in
  let set f := mkFeesUpdate (<[key := f]> (fu_fees u)) (fu_unset u) (<[key := fi_Priority kf.2]> (fu_priorities u)) in
  match existing !! key with
  | None =>
      do! ValidateNewFee minAmount kf.2;;
      do! pa_account an (fi_CreditAccount kf.2);;
      let! f := stored_fee (λ r, r) kf.2 in
      Ok (set f)
  | Some old =>
      let! f := SetAndValidateHasFieldsToUpdate an minAmount kf.2 old (default old (fu_fees u !! key)) in
      match f with
      | None => Ok (mkFeesUpdate (fu_fees u) (key :: fu_unset u) (delete key (fu_priorities u)))
      | Some f => Ok (set f)
      end
  end.

Definition validationFeesSetUnset (an : package_answers) (minAmount : dec) (existing : gmap string Fee) (fees : list (string * FeeInput))
    : result PackageError (gmap string Fee) :=
  let! u := fold_res (update_one_fee an minAmount existing) (mkFeesUpdate existing [] (fee_Priority <$> existing)) fees in
  if distinct (map_to_list (fu_priorities u)).*2 then Ok (foldr delete (fu_fees u) (fu_unset u)) else Err ErrPriorityInvalid.

(** *** The document *)

(** [SetAmountsDataToUpdate]: the new minimum and maximum. *)
Definition SetAmountsDataToUpdate (an : package_answers) (up : UpdatePackageInput) p st : result PackageError (dec * dec) :=
  do! Update_ValidateMinAndMaxAmount up;;
  let! minimum := parse_given (up_MinAmount up) in
  let! maximum := parse_given (up_MaxAmount up) in
  do! match minimum, maximum with
      | Some a, None => if dgt a (pd_MaximumAmount p) then Err ErrMinAmountGreaterThanMaxAmount else Ok tt
      | None, Some b => if dlt b (pd_MinimumAmount p) then Err ErrMaxAmountLessThanMinAmount else Ok tt
      | _, _ => Ok tt
      end;;
  do! ValidatePackageMaxAndMinAmountRange (pa_list an) (default (dstring (pd_MaximumAmount p)) (up_MaxAmount up))
        (default (dstring (pd_MinimumAmount p)) (up_MinAmount up)) (doc_route p) (pd_LedgerID p) (pd_SegmentID p) (Some (pd_ID p)) st;;
  Ok (default (pd_MinimumAmount p) minimum, default (pd_MaximumAmount p) maximum).

Definition amounts_given (up : UpdatePackageInput) : bool := bool_decide (is_Some (up_MinAmount up)) || bool_decide (is_Some (up_MaxAmount up)).

(** [buildUpdateFields] on the document it reads, and the last stage of the pipeline, which
    disables a package without fees. *)
Definition buildUpdateFields (an : package_answers) (up : UpdatePackageInput) p st : result PackageError PackageDoc :=
  let! amounts := (if amounts_given up then SetAmountsDataToUpdate an up p st else Ok (pd_MinimumAmount p, pd_MaximumAmount p)) in
  let! fees := match up_Fee up with Some l => validationFeesSetUnset an (pd_MinimumAmount p) (pd_Fees p) l | None => Ok (pd_Fees p) end in
  if negb (amounts_given up) && IsNilOrEmpty (up_FeeGroupLabel up) && IsNilOrEmpty (up_Description up)
     && bool_decide (up_EnablePackage up = None) && bool_decide (up_WaivedAccounts up = None)
     && match up_Fee up with Some (_ :: _) => false | _ => true end
  then Err ErrNothingToUpdate else
  let enable := match up_EnablePackage up with Some e => Some e | None => pd_Enable p end in
  Ok (mkPackageDoc (pd_ID p) (given (up_FeeGroupLabel up) (pd_FeeGroupLabel p))
        (if IsNilOrEmpty (up_Description up) then pd_Description p else Some (up_Description up)) (pd_SegmentID p) (pd_LedgerID p)
        (pd_TransactionRoute p) amounts.1 amounts.2 (match up_WaivedAccounts up with Some w => Some w | None => pd_WaivedAccounts p end)
        fees (if bool_decide (fees = ∅) then Some false else enable) (pd_CreatedAt p) (pa_now an) (pd_DeletedAt p)).

Definition replace_doc (id : uuid) (p' : PackageDoc) (docs : list PackageDoc) : list PackageDoc :=
  map (λ q, if same_id (pd_ID q) id && doc_live q then p' else q) docs.

Definition UpdatePackageByID (an : package_answers) (id : uuid) (up : UpdatePackageInput) st : packages_state * result PackageError unit :=
  match pa_find an, find_doc id st with
  | Answered, Some p =>
      match buildUpdateFields an up p st with
      | Err e => (st, Err e)
      | Ok p' =>
          match write_doc (pa_write an) st (set_docs (replace_doc id p' (ps_docs st)) st) tt with
          | (st', Err e) => (st', Err e)
          | (st', Ok _) => (invalidatePackageCache (pa_invalidate an) (pd_LedgerID p) st', Ok tt)
          end
      end
  | Answered, None => (st, Err ErrPackageNotFound)
  | _, _ => (st, Err PackageCallFailed)
  end.

Definition seen_priorities (fees : list (string * FeeInput)) : list Z :=
  filter (λ x, x ≠ 0) (fi_Priority <$> filter (λ f, ValidateIfFeeIsNil f = false) fees.*2).

Definition check_update (up : UpdatePackageInput) : result PackageError unit :=
  do! match up_Fee up with
      | None => Ok tt
      | Some fees =>
          do! Update_ValidateFees up fees;;
          if distinct (seen_priorities fees) then Ok tt else Err ErrPriorityInvalid
      end;;
  Update_ValidateMinAndMaxAmount up.

(** The handler; it reads the package again. *)
Definition updatePackageByID (an : package_answers) (id : uuid) (up : UpdatePackageInput) st : packages_state * result PackageError PackageDoc :=
  match check_update up with
  | Err e => (st, Err e)
  | Ok _ =>
      match UpdatePackageByID an id up st with
      | (st', Err e) => (st', Err e)
      | (st', Ok _) => (st', match pa_reread an, find_doc id st' with
                             | Answered, Some p => Ok p
                             | Answered, None => Err ErrPackageNotFound
                             | _, _ => Err PackageCallFailed
                             end)
      end
  end.

(** ** Deleting a package *)

Definition deleted_doc (now : Time) p : PackageDoc :=
  mkPackageDoc (pd_ID p) (pd_FeeGroupLabel p) (pd_Description p) (pd_SegmentID p) (pd_LedgerID p) (pd_TransactionRoute p)
    (pd_MinimumAmount p) (pd_MaximumAmount p) (pd_WaivedAccounts p) (pd_Fees p) (pd_Enable p) (pd_CreatedAt p) (pd_UpdatedAt p) (Some now).

Definition SoftDelete a (now : Time) (id : uuid) st : packages_state * result PackageError unit :=
  match find_doc id st with
  | None => (st, Err (match a with Answered => ErrPackageNotFound | _ => PackageCallFailed end))
  | Some p => write_doc a st (set_docs (replace_doc id (deleted_doc now p) (ps_docs st)) st) tt
  end.

(** The ledger is read first, for the cache. *)
Definition DeletePackageByID (an : package_answers) (id : uuid) st : packages_state * result PackageError unit :=
  let ledger := match pa_find an with Answered => pd_LedgerID <$> find_doc id st | _ => None end in
  match SoftDelete (pa_write an) (pa_now an) id st with
  | (st', Err e) => (st', Err e)
  | (st', Ok _) => (match ledger with Some l => invalidatePackageCache (pa_invalidate an) l st' | None => st' end, Ok tt)
  end.


(** ** Ranges that do not overlap *)

Definition overlaps p q : bool := dle (pd_MinimumAmount p) (pd_MaximumAmount q) && dge (pd_MaximumAmount p) (pd_MinimumAmount q).
Definition same_scope p q : bool :=
  same_id (pd_LedgerID p) (pd_LedgerID q) && bool_decide (doc_segment p = doc_segment q) && bool_decide (doc_route p = doc_route q).
Definition doc_ids (docs : list PackageDoc) : list string := (λ p, uuid_String (pd_ID p)) <$> docs.

(** Packages have different identifiers, and no two live ones of one ledger, segment and route
    overlap. *)
Definition separated (docs : list PackageDoc) : Prop :=
  ∀ p q, p ∈ docs → q ∈ docs → same_id (pd_ID p) (pd_ID q) = false → doc_live p = true → doc_live q = true →
    same_scope p q = true → overlaps p q = false.
Definition docs_ok (docs : list PackageDoc) : Prop := NoDup (doc_ids docs) ∧ separated docs.

(** A set in force in a ledger. *)
Definition in_force (ledger : string) (l : list PackageDoc) : Prop :=
  docs_ok l ∧ ∀ p, p ∈ l → doc_live p = true ∧ pd_Enable p = Some true ∧ uuid_String (pd_LedgerID p) = ledger.

Definition packages_ok st : Prop := docs_ok (ps_docs st) ∧ map_Forall (λ ledger e, in_force ledger e.2) (ps_cache st).

(** ** Requests *)

Inductive package_request :=
  | CreateRequest (an : package_answers) (organization : uuid) (cp : CreatePackageInput)
  | UpdateRequest (an : package_answers) (id : uuid) (up : UpdatePackageInput)
  | DeleteRequest (an : package_answers) (id : uuid)
  | ReadRequest (get find set : answer) (now : Time) (ledger : uuid).

Definition serve (r : package_request) st : packages_state :=
  match r with
  | CreateRequest an organization cp => (createPackage an organization cp st).1
  | UpdateRequest an id up => (updatePackageByID an id up st).1
  | DeleteRequest an id => (DeletePackageByID an id st).1
  | ReadRequest get find set now ledger => (findPackagesCached get find set now ledger st).1
  end.
Definition serve_all (rs : list package_request) st : packages_state := foldl (λ s r, serve r s) st rs.
Definition no_packages : packages_state := mkPackagesState [] ∅.

(** The packages a range check reads fit the page of ten. *)
Definition fits_page (ledger : uuid) st : bool := (length (List.filter (in_filter ledger None "") (ps_docs st)) <=? page_limit)%nat.
Definition single_page (r : package_request) st : bool :=
  match r with
  | CreateRequest _ _ cp => match uuid_Parse (cp_LedgerID cp) with Some ledger => fits_page ledger st | None => true end
  | UpdateRequest _ id _ => match find_doc id st with Some p => fits_page (pd_LedgerID p) st | None => true end
  | _ => true
  end.
Fixpoint single_pages (rs : list package_request) st : bool :=
  match rs with [] => true | r :: rs' => single_page r st && single_pages rs' (serve r st) end.

(** ** The range check *)

Lemma same_id_true u v : same_id u v = true ↔ uuid_String u = uuid_String v.
Proof. unfold same_id. by rewrite bool_decide_eq_true. Qed.
Lemma same_id_false u v : same_id u v = false ↔ uuid_String u ≠ uuid_String v.
Proof. unfold same_id. by rewrite bool_decide_eq_false. Qed.
Lemma same_id_refl u : same_id u u = true.
Proof. by apply same_id_true. Qed.

Lemma filter_length_mono {A} (f g : A → bool) l : (∀ x, f x = true → g x = true) → (length (List.filter f l) ≤ length (List.filter g l))%nat.
Proof.
  intros H. induction l as [|x l IH]; simpl; [lia|].
  destruct (f x) eqn:E; [rewrite (H _ E); simpl; lia|destruct (g x); simpl; lia].
Qed.

Lemma in_filter_ledger ledger segment route p : in_filter ledger segment route p = true → in_filter ledger None "" p = true.
Proof. unfold in_filter. intros H. repeat (apply andb_prop in H as [H ?]). apply andb_true_intro. split; [|done]. by rewrite H, H2. Qed.

Lemma in_scope_filtered p ledger segment route :
  doc_live p = true → same_id (pd_LedgerID p) ledger = true → doc_segment p = segment_text segment → doc_route p = route →
  in_filter ledger segment route p = true.
Proof.
  intros Hl Hi Hs Hr. unfold in_filter. rewrite Hl, Hi, orb_true_r. simpl. apply andb_true_intro. split.
  - destruct segment as [s|]; [|done]. unfold doc_segment, segment_text in Hs. destruct (pd_SegmentID p) as [t|].
    + apply same_id_true in Hs as ->. apply orb_true_r.
    + unfold zero_id. by rewrite <- Hs.
  - unfold doc_route in Hr. destruct (pd_TransactionRoute p) as [r|]; simpl in Hr; subst.
    + rewrite (bool_decide_true (Some route = Some route)) by done. apply orb_true_r.
    + by rewrite bool_decide_true.
Qed.

Lemma range_checked a maxAmount minAmount route ledger segment self st M m q :
  ValidatePackageMaxAndMinAmountRange a maxAmount minAmount route ledger segment self st = Ok tt → fits_page ledger st = true →
  dparse maxAmount = Some M → dparse minAmount = Some m →
  q ∈ ps_docs st → doc_live q = true → same_id (pd_LedgerID q) ledger = true → doc_segment q = segment_text segment → doc_route q = route →
  match self with Some id => same_id (pd_ID q) id = false | None => True end →
  dle m (pd_MaximumAmount q) && dge M (pd_MinimumAmount q) = false.
Proof.
  unfold ValidatePackageMaxAndMinAmountRange, FindList. intros H Hp EM Em Hq Hl Hi Hs Hr Hself.
  destruct a; [|by inv_ok..]. simpl in H.
  assert (q ∈ take page_limit (List.filter (in_filter ledger segment route) (ps_docs st))) as Hin.
  { rewrite take_ge.
    - apply list_elem_of_In, filter_In. split; [by apply list_elem_of_In|]. by apply in_scope_filtered.
    - unfold fits_page in Hp. apply Nat.leb_le in Hp. etransitivity; [|exact Hp]. apply filter_length_mono, in_filter_ledger. }
  destruct (take page_limit _) as [|x l] eqn:El; [by apply elem_of_nil in Hin|].
  rewrite EM, Em in H. apply for_each_Ok in H. rewrite Forall_forall in H. specialize (H _ Hin). cbv beta in H.
  replace (match self with Some id => same_id (pd_ID q) id | None => false end) with false in H by (by destruct self).
  destruct (isSamePackage _ _ _ _ _); [done|]. unfold isRangeOverlap in H. rewrite !bool_decide_true in H by done.
  simpl in H. by destruct (dle m _ && dge M _).
Qed.

(** ** Adding and replacing documents *)

(** A document that overlaps no other of its ledger, segment and route. *)
Definition fresh_range p (docs : list PackageDoc) : Prop :=
  ∀ q, q ∈ docs → same_id (pd_ID q) (pd_ID p) = false → doc_live q = true → same_scope q p = true → overlaps p q = false.

Context {DL : DecimalLaws} {TL : DecimalTextLaws}.

Lemma dle_dge (a b : dec) : dle a b = dge b a.
Proof. apply eq_true_iff_eq. by rewrite dle_spec, dge_spec. Qed.
Lemma overlaps_sym p q : overlaps p q = overlaps q p.
Proof. unfold overlaps. rewrite andb_comm, <- (dle_dge (pd_MinimumAmount q)), (dle_dge (pd_MinimumAmount p)). done. Qed.
Lemma same_scope_sym p q : same_scope p q = same_scope q p.
Proof. unfold same_scope, same_id. repeat case_bool_decide; try done; congruence. Qed.
Lemma same_id_sym u v : same_id u v = same_id v u.
Proof. unfold same_id. repeat case_bool_decide; done. Qed.

Lemma docs_ok_snoc docs p :
  docs_ok docs → existsb (λ q, same_id (pd_ID q) (pd_ID p)) docs = false → fresh_range p docs → docs_ok (docs ++ [p]).
Proof.
  intros [Hn Hs] He Hf. split.
  - unfold doc_ids. rewrite fmap_app. apply NoDup_app. split; [done|]. split; [|apply NoDup_singleton].
    intros i Hi Hi'. apply list_elem_of_fmap in Hi as (q & -> & Hq). apply list_elem_of_singleton in Hi'.
    assert (existsb (λ q, same_id (pd_ID q) (pd_ID p)) docs = true); [|congruence].
    apply existsb_exists. exists q. split; [by apply list_elem_of_In|by apply same_id_true].
  - intros q r Hq Hr Hid Hlq Hlr Hsc. apply elem_of_app in Hq as [Hq|Hq%list_elem_of_singleton], Hr as [Hr|Hr%list_elem_of_singleton]; subst.
    + by apply Hs.
    + rewrite overlaps_sym. by apply Hf.
    + rewrite same_scope_sym in Hsc. rewrite same_id_sym in Hid. by apply Hf.
    + by rewrite same_id_refl in Hid.
Qed.

(** The document a live identifier names is the only one that is replaced. *)
Lemma find_doc_Some id st p : find_doc id st = Some p → p ∈ ps_docs st ∧ same_id (pd_ID p) id = true ∧ doc_live p = true.
Proof. unfold find_doc. intros [H1 H2]%List.find_some. bool_facts. split; [by apply list_elem_of_In|done]. Qed.

Lemma NoDup_ids_inj docs p q : NoDup (doc_ids docs) → p ∈ docs → q ∈ docs → same_id (pd_ID p) (pd_ID q) = true → p = q.
Proof.
  unfold doc_ids. intros Hn Hp Hq E%same_id_true. induction docs as [|x docs IH]; [by apply elem_of_nil in Hp|].
  apply NoDup_cons in Hn as [Hx Hn]. apply elem_of_cons in Hp as [->|Hp], Hq as [->|Hq]; [done| | |by apply IH].
  - destruct Hx. apply list_elem_of_fmap. by exists q.
  - destruct Hx. apply list_elem_of_fmap. by exists p.
Qed.

Lemma replace_doc_elem docs id p' q : q ∈ replace_doc id p' docs →
  q = p' ∨ q ∈ docs ∧ (same_id (pd_ID q) id = false ∨ doc_live q = false).
Proof.
  unfold replace_doc. intros (x & E & Hx)%list_elem_of_In%in_map_iff. apply list_elem_of_In in Hx.
  destruct (same_id (pd_ID x) id && doc_live x) eqn:Ei; subst; [by left|right]. split; [done|].
  by apply andb_false_iff in Ei.
Qed.

Lemma replace_doc_ids docs id p' : same_id (pd_ID p') id = true → doc_ids (replace_doc id p' docs) = doc_ids docs.
Proof.
  intros Hp. unfold doc_ids, replace_doc. rewrite <- list_fmap_compose. apply list_fmap_ext. intros _ q _. simpl.
  destruct (same_id (pd_ID q) id && doc_live q) eqn:E; [|done]. bool_facts. by apply same_id_true in Hp as ->, H as ->.
Qed.

Lemma docs_ok_replace docs id p p' :
  docs_ok docs → p ∈ docs → same_id (pd_ID p) id = true → pd_ID p' = pd_ID p →
  (doc_live p' = true → fresh_range p' docs) → docs_ok (replace_doc id p' docs).
Proof.
  intros [Hn Hs] Hp Hid Eid Hf. split; [by rewrite replace_doc_ids; [|rewrite Eid]|].
  intros q r Hq Hr Hqr Hlq Hlr Hsc. apply replace_doc_elem in Hq as [->|[Hq _]], Hr as [->|[Hr _]].
  - by rewrite same_id_refl in Hqr.
  - rewrite same_scope_sym in Hsc. rewrite same_id_sym in Hqr. by apply Hf.
  - rewrite overlaps_sym. by apply Hf.
  - by apply Hs.
Qed.

Lemma docs_ok_filter f docs : docs_ok docs → docs_ok (List.filter f docs).
Proof.
  intros [Hn Hs]. split.
  - clear Hs. induction docs as [|p docs IH]; simpl; [done|]. apply NoDup_cons in Hn as [Hp Hn].
    destruct (f p); [|by apply IH]. apply NoDup_cons. split; [|by apply IH]. intros (q & E & Hq)%list_elem_of_fmap.
    apply Hp, list_elem_of_fmap. exists q. split; [done|]. by apply list_elem_of_In, filter_In, proj1, list_elem_of_In in Hq.
  - intros p q Hp Hq. apply Hs; by eapply list_elem_of_In, filter_In, list_elem_of_In.
Qed.

(** ** The operations keep the collection and the cache *)

Lemma enabled_in_force ledger docs : docs_ok docs → in_force (uuid_String ledger) (enabled_docs ledger docs).
Proof.
  intros H. split; [by apply docs_ok_filter|]. intros p Hp. apply list_elem_of_In, filter_In in Hp as [_ Hp]. bool_facts.
  split; [done|]. split; [|by apply same_id_true]. by destruct (pd_Enable p) as [[]|].
Qed.

Lemma invalidate_ok a ledger st : packages_ok st → packages_ok (invalidatePackageCache a ledger st).
Proof. intros [Hd Hc]. destruct a; split; try done; simpl; by apply map_Forall_delete. Qed.

Lemma set_docs_ok docs st : packages_ok st → docs_ok docs → packages_ok (set_docs docs st).
Proof. intros [_ Hc] Hd. by split. Qed.

Lemma findPackagesCached_ok get find set now ledger st : packages_ok st →
  packages_ok (findPackagesCached get find set now ledger st).1
  ∧ ∀ l, (findPackagesCached get find set now ledger st).2 = Ok l → in_force (uuid_String ledger) l.
Proof.
  intros [Hd Hc]. unfold findPackagesCached. set (fetch := match FindByOrganizationIDAndLedgerID _ _ _ with Ok _ => _ | Err _ => _ end).
  assert (packages_ok fetch.1 ∧ ∀ l, fetch.2 = Ok l → in_force (uuid_String ledger) l) as Hf.
  { unfold fetch, FindByOrganizationIDAndLedgerID. destruct find; simpl; [|by split..].
    split; [|intros l [= <-]; by apply enabled_in_force]. destruct set; split; try done; simpl;
      apply map_Forall_insert_2; try done; by apply enabled_in_force. }
  destruct get; [|done..]. destruct (ps_cache st !! uuid_String ledger) as [[t l]|] eqn:E; [|done].
  destruct (match t with Some t => now <? t | None => true end); [|done]. split; [done|]. intros l' [= <-].
  exact (Hc _ _ E).
Qed.

Lemma delete_ok an id st : packages_ok st → packages_ok (DeletePackageByID an id st).1.
Proof.
  intros Hst. unfold DeletePackageByID, SoftDelete. destruct (find_doc id st) as [p|] eqn:E; [|done].
  apply find_doc_Some in E as (Hp & Hid & Hl).
  assert (packages_ok (set_docs (replace_doc id (deleted_doc (pa_now an) p) (ps_docs st)) st)) as Hd.
  { apply set_docs_ok; [done|]. by apply docs_ok_replace with p; [apply Hst|..]. }
  destruct (pa_write an); simpl; try done. case_match; [|done]. by apply invalidate_ok.
Qed.

Lemma prepared_range an organization ledger segment cp st p :
  prepare_package an organization ledger segment cp st = Ok p → fits_page ledger st = true → fresh_range p (ps_docs st).
Proof.
  unfold prepare_package. intros H Hp. inv_ok. destruct x, x0.
  destruct (dparse (cp_MinAmount cp)) as [m|] eqn:Em; [|done]. destruct (dparse (cp_MaxAmount cp)) as [M|] eqn:EM; [|done].
  inv_ok. intros q Hq Hid Hl Hsc. unfold same_scope in Hsc. bool_facts. simpl in *.
  eapply range_checked with (q := q); eauto; done.
Qed.

Lemma create_package_ok an organization cp st :
  packages_ok st → single_page (CreateRequest an organization cp) st = true → packages_ok (createPackage an organization cp st).1.
Proof.
  intros Hst Hp. unfold createPackage. simpl in Hp.
  destruct (match cp_SegmentID cp with Some s => _ | None => _ end) as [segment|]; [|done].
  destruct (uuid_Parse (cp_LedgerID cp)) as [ledger|]; [|done].
  destruct (rbind _ _) as [[]|]; [|done]. destruct (distinct _); [|done].
  unfold CreatePackage. destruct (prepare_package _ _ _ _ _ _) as [p|] eqn:E; [|done].
  pose proof (prepared_range _ _ _ _ _ _ _ E Hp) as Hf. unfold insert_doc.
  destruct (existsb _ _) eqn:Ee; [by destruct (pa_write an)|].
  assert (packages_ok (set_docs (ps_docs st ++ [p]) st)) as Hd.
  { apply set_docs_ok; [done|]. by apply docs_ok_snoc; [apply Hst|..]. }
  destruct (pa_write an); simpl; try done. by apply invalidate_ok.
Qed.

(** *** Updates *)

Lemma parseAmountDecimal_dparse s d : parseAmountDecimal s = Some d → dparse s = Some d.
Proof. unfold parseAmountDecimal. destruct (dparse s); simpl; [|done]. by case_match. Qed.

(** The amount a check reads is the amount that is stored, up to its representation. *)
Lemma checked_amount s old d : parse_given s = Ok d → ∃ d', dparse (default (dstring old) s) = Some d' ∧ d' ≡d default old d.
Proof.
  destruct s as [s|]; simpl; [|intros [= <-]; apply parse_dstring].
  destruct (parseAmountDecimal s) as [v|] eqn:E; intros [= <-]. exists v. split; [|done].
  by eapply parseAmountDecimal_dparse.
Qed.

#[local] Instance dle_proper' : Proper (dec_eq ==> dec_eq ==> eq) dle.
Proof. intros ?? E1 ?? E2. unfold dle. by rewrite E1, E2. Qed.
#[local] Instance dge_proper' : Proper (dec_eq ==> dec_eq ==> eq) dge.
Proof. intros ?? E1 ?? E2. unfold dge. by rewrite E1, E2. Qed.

Lemma updated_range an up p st amounts :
  SetAmountsDataToUpdate an up p st = Ok amounts → fits_page (pd_LedgerID p) st = true →
  ∀ q, q ∈ ps_docs st → same_id (pd_ID q) (pd_ID p) = false → doc_live q = true → same_scope q p = true →
    dle amounts.1 (pd_MaximumAmount q) && dge amounts.2 (pd_MinimumAmount q) = false.
Proof.
  unfold SetAmountsDataToUpdate. intros H Hp q Hq Hid Hl Hsc. inv_ok. destruct x, x2, x3. simpl.
  destruct (checked_amount _ (pd_MinimumAmount p) _ H0) as (m & Em & Hm). destruct (checked_amount _ (pd_MaximumAmount p) _ H1) as (M & EM & HM).
  rewrite <- Hm, <- HM. unfold same_scope in Hsc. bool_facts.
  eapply range_checked with (q := q); eauto; done.
Qed.

Lemma update_ok an id up st :
  packages_ok st → single_page (UpdateRequest an id up) st = true → packages_ok (updatePackageByID an id up st).1.
Proof.
  intros Hst Hp. unfold updatePackageByID. destruct (check_update up); [|done].
  unfold UpdatePackageByID. simpl in Hp. destruct (pa_find an); [|by case_match..].
  destruct (find_doc id st) as [p|] eqn:E; [|done]. apply find_doc_Some in E as (Hin & Hid & Hl).
  destruct (buildUpdateFields an up p st) as [p'|] eqn:Eb; [|done].
  assert (packages_ok (set_docs (replace_doc id p' (ps_docs st)) st)) as Hd.
  { apply set_docs_ok; [done|]. destruct Hst as [[Hn Hs] Hc]. unfold buildUpdateFields in Eb. inv_ok. case_match; [done|]. inv_ok.
    apply docs_ok_replace with p; try done. intros _ q Hq Hqp Hlq Hsc. simpl in Hqp.
    destruct (amounts_given up).
    - unfold overlaps. simpl. by eapply updated_range.
    - inv_ok. unfold overlaps. simpl. rewrite same_scope_sym in Hsc. rewrite same_id_sym in Hqp. by apply (Hs p q). }
  destruct (pa_write an); simpl; try done. by apply invalidate_ok.
Qed.

Lemma serve_all_ok rs st : packages_ok st → single_pages rs st = true → packages_ok (serve_all rs st).
Proof.
  revert st. induction rs as [|r rs IH]; intros st Hst H; [done|]. simpl in *. bool_facts. apply IH; [|done].
  destruct r; [by apply create_package_ok|by apply update_ok|by apply delete_ok|by apply findPackagesCached_ok].
Qed.

Lemma no_packages_ok : packages_ok no_packages.
Proof. split; [|apply map_Forall_empty]. split; [by constructor|]. intros p q Hp. by apply elem_of_nil in Hp. Qed.

(** ** Selection from a set in force *)

(** The package applies to a transaction. *)
Definition applies (route : string) (segment : option uuid) (amount : dec) p : bool :=
  matches_route route (to_package p) && matches_segment segment (to_package p)
  && isTransactionValueBetweenMaxAndMinAmountPackage (to_package p) amount.

Lemma applies_overlap ledger l route segment amount p q :
  in_force ledger l → p ∈ l → q ∈ l → applies route segment amount p = true → applies route segment amount q = true → p = q.
Proof.
  intros [[Hn Hs] Hl] Hp Hq Ha Hb. apply (NoDup_ids_inj l); try done.
  destruct (same_id (pd_ID p) (pd_ID q)) eqn:Ei; [done|]. exfalso.
  destruct (Hl p Hp) as (Lp & _ & Gp), (Hl q Hq) as (Lq & _ & Gq).
  unfold applies in Ha, Hb. bool_facts.
  assert (same_scope p q = true) as Hsc.
  { unfold same_scope. rewrite (proj2 (same_id_true _ _)), !bool_decide_true; [done| | |congruence].
    - unfold matches_route, doc_route in *. simpl in *. repeat case_match; bool_facts; simpl; congruence.
    - unfold matches_segment, doc_segment, uuid_eqb in *. simpl in *. repeat case_match; bool_facts; simpl; congruence. }
  assert (overlaps p q = true); [|rewrite Hs in *; done].
  unfold overlaps, isTransactionValueBetweenMaxAndMinAmountPackage in *. simpl in *. bool_facts.
  rewrite dle_spec, dge_spec in *. rewrite andb_true_iff, dle_spec, dge_spec. split; by eapply Qle_trans.
Qed.

Lemma filter_filter_list {A} (f g : A → bool) l : List.filter f (List.filter g l) = List.filter (λ x, g x && f x) l.
Proof. induction l as [|x l IH]; simpl; [done|]. destruct (g x); simpl; [destruct (f x)|]; by rewrite IH. Qed.

Lemma filter_map_comm {A B} (f : B → bool) (g : A → B) l : List.filter f (map g l) = map g (List.filter (λ x, f (g x)) l).
Proof. induction l as [|x l IH]; simpl; [done|]. destruct (f (g x)); simpl; by rewrite IH. Qed.

Lemma at_most_one {A} (l : list A) : NoDup l → (∀ x y, x ∈ l → y ∈ l → x = y) → l = [] ∨ ∃ x, l = [x].
Proof.
  destruct l as [|x [|y l]]; intros Hn H; [by left|by right; exists x|].
  rewrite (H x y) in Hn by (rewrite !elem_of_cons; auto). apply NoDup_cons in Hn as [Hn _]. destruct Hn. by left.
Qed.

Lemma NoDup_doc_ids docs : NoDup (doc_ids docs) → NoDup docs.
Proof. apply NoDup_fmap_1. Qed.

Lemma select_in_force ledger l route segment amount : in_force ledger l →
  ∃ r, FindPackageToCalculateFee (map to_package l) route segment amount = Ok r ∧
  ∀ p, p ∈ l → applies route segment amount p = true → r = Some (to_package p).
Proof.
  intros Hf.
  set (R := filterByTransactionRoute (map to_package l) route). set (S := filterBySegmentID R segment). set (A := filterByAmount S amount).
  assert (A = map to_package (List.filter (applies route segment amount) l)) as EA.
  { unfold A, S, R, filterByTransactionRoute, filterBySegmentID, filterByAmount. rewrite !filter_filter_list, filter_map_comm. f_equal.
    apply List.filter_ext. intros p. unfold applies. by rewrite andb_assoc. }
  assert (∀ p, p ∈ l → applies route segment amount p = true → to_package p ∈ R ∧ to_package p ∈ S ∧ to_package p ∈ A) as Hin.
  { intros p Hp Ha. unfold applies in Ha. bool_facts.
    assert (to_package p ∈ R) as HR by (apply list_elem_of_In, filter_In; split; [apply in_map; by apply list_elem_of_In|done]).
    assert (to_package p ∈ S) as HS by (apply list_elem_of_In, filter_In; split; [by apply list_elem_of_In|done]).
    split; [done|]. split; [done|]. apply list_elem_of_In, filter_In. split; [by apply list_elem_of_In|done]. }
  assert (A = [] ∨ ∃ x, A = [x]) as HA.
  { destruct (at_most_one (List.filter (applies route segment amount) l)) as [E|[x E]].
    - apply NoDup_doc_ids. destruct Hf as [[Hn Hs] _]. by apply (docs_ok_filter _ l).
    - intros p q Hp%list_elem_of_In%filter_In Hq%list_elem_of_In%filter_In. rewrite <- !list_elem_of_In in *.
      destruct Hp, Hq. by eapply applies_overlap.
    - left. by rewrite EA, E.
    - right. exists (to_package x). by rewrite EA, E. }
  assert (∃ r, select_package R segment amount = Ok r ∧ ∀ p, p ∈ l → applies route segment amount p = true → r = Some (to_package p)) as Hsel.
  { unfold select_package. fold S. assert (filterByAmount S amount = A) as ES by done. clearbody A S.
    destruct HA as [->|[x ->]], S as [|y [|y2 S]]; rewrite ?ES; eexists; (split; [reflexivity|]);
      intros p Hp Ha; destruct (Hin p Hp Ha) as (_ & HS & HA); f_equal; symmetry;
      first [by apply list_elem_of_singleton|by apply elem_of_nil in HA|by apply elem_of_nil in HS]. }
  unfold FindPackageToCalculateFee. fold R. destruct R as [|x [|x2 R]]; try done.
  destruct (pk_SegmentID x); [done|]. eexists. split; [reflexivity|]. intros p Hp Ha. f_equal. symmetry.
  apply list_elem_of_singleton, (Hin p Hp Ha).
Qed.

(** C35: After any requests to create, change, delete and read packages, with any calls failing,
    as long as the packages of a ledger fit the page its range checks read, the set of packages
    a transaction is charged from is never ambiguous: the selection of the fee engine returns no
    error, and it picks the package whose route, segment and range the transaction matches. *)
Theorem managed_packages_selectable (rs : list package_request) get find set now ledger (l : list PackageDoc) :
  single_pages rs no_packages = true →
  (findPackagesCached get find set now ledger (serve_all rs no_packages)).2 = Ok l →
  ∀ route segment amount,
    ∃ r, FindPackageToCalculateFee (map to_package l) route segment amount = Ok r ∧
    ∀ p, p ∈ l → applies route segment amount p = true → r = Some (to_package p).
Proof.
  intros Hp Hl route segment amount. apply select_in_force with (uuid_String ledger).
  eapply (findPackagesCached_ok get find set now ledger); [|exact Hl]. apply serve_all_ok; [apply no_packages_ok|done].
Qed.

(** ** Deductible fees *)

(** No percentage is above one hundred. *)
Definition percent_ok (l : list Calculation) : Prop :=
  ∀ c, c ∈ l → calc_Type c = PercentageType → ∃ d, dparse (calc_Value c) = Some d ∧ dgt d hundred = false.
Definition deductible_ok (f : Fee) : Prop :=
  GetIsDeductibleFrom f = true →
  fee_ReferenceAmount f ≠ AfterFeesAmount ∧ percent_ok (cm_Calculations (fee_CalculationModel f)).
Definition fees_ok (fees : gmap string Fee) : Prop := map_Forall (λ _ f, deductible_ok f) fees.
Definition doc_fees_ok (docs : list PackageDoc) : Prop := ∀ p, p ∈ docs → fees_ok (pd_Fees p).
Definition state_fees_ok st : Prop := doc_fees_ok (ps_docs st) ∧ map_Forall (λ _ e, doc_fees_ok e.2) (ps_cache st).

Lemma stored_calculations_percent l l' : percent_ok l → stored_calculations l = Ok l' → percent_ok l'.
Proof.
  revert l'. induction l as [|c l IH]; intros l' Hl H; simpl in H; inv_ok; [intros c Hc; by apply elem_of_nil in Hc|].
  intros c' [->|Hc]%elem_of_cons Ht.
  - unfold stored_calculation in H. destruct (dparse (calc_Value c)) as [d|] eqn:E; [|done]. inv_ok. simpl in *.
    destruct (Hl c) as (d0 & E0 & Hd0); [by left|done|]. rewrite E in E0. injection E0 as <-.
    destruct (parse_dstring d) as (d' & E' & Hd). exists d'. split; [done|]. by rewrite Hd.
  - apply (IH x0); try done. intros c'' ?. apply Hl. by right.
Qed.

Lemma check_value_percent minAmount c d :
  parseAmountDecimal (calc_Value c) = Some d → check_value minAmount (calc_Type c) d = Ok tt → calc_Type c = PercentageType →
  ∃ d, dparse (calc_Value c) = Some d ∧ dgt d hundred = false.
Proof.
  intros E H Ht. exists d. split; [by apply parseAmountDecimal_dparse|]. unfold check_value, validatePercentageCalculation in H.
  rewrite bool_decide_true in H by done. by destruct (dgt d hundred).
Qed.

(** Every check of the calculations of a deductible fee bounds its percentages. *)
Lemma checks_percent (f : Calculation → result PackageError unit) minAmount l :
  (∀ c, f c = Ok tt → ∃ d, parseAmountDecimal (calc_Value c) = Some d ∧ check_value minAmount (calc_Type c) d = Ok tt) →
  for_each f l = Ok tt → percent_ok l.
Proof.
  intros Hf H%for_each_Ok c Hc Ht. rewrite Forall_forall in H. destruct (Hf c (H c Hc)) as (d & E & Hd).
  by eapply check_value_percent.
Qed.

Lemma new_calculations_percent minAmount l : for_each (new_calculation_valid minAmount true) l = Ok tt → percent_ok l.
Proof.
  apply checks_percent with minAmount. intros c. unfold new_calculation_valid.
  destruct (parseAmountDecimal _) as [d|]; [|done]. case_match; [done|]. eauto.
Qed.
Lemma update_calculations_percent minAmount l : for_each (update_calculation_valid minAmount true) l = Ok tt → percent_ok l.
Proof.
  apply checks_percent with minAmount. intros c. unfold update_calculation_valid. case_match; [done|].
  destruct (parseAmountDecimal _) as [d|]; [|done]. eauto.
Qed.
Lemma existing_calculations_percent minAmount l : for_each (existing_calculation_valid minAmount) l = Ok tt → percent_ok l.
Proof.
  apply checks_percent with minAmount. intros c. unfold existing_calculation_valid.
  destruct (parseAmountDecimal _) as [d|]; [|done]. eauto.
Qed.
Lemma created_calculations_percent m minAmount : minAmount ≠ "" → validateCalculationValues m minAmount true = Ok tt → percent_ok (cm_Calculations m).
Proof.
  intros Hm H%for_each_Ok c Hc Ht. rewrite Forall_forall in H. specialize (H c Hc). cbv beta in H.
  destruct (parseAmountDecimal (calc_Value c)) as [d|] eqn:E; [|done]. exists d. split; [by apply parseAmountDecimal_dparse|].
  rewrite bool_decide_false, bool_decide_true in H by done. simpl in H. by destruct (dgt d hundred).
Qed.

(** *** A fee of a request *)

Lemma created_fee_ok routes minAmount kf f :
  minAmount ≠ "" → create_fee_valid minAmount kf = Ok tt → stored_fee routes kf.2 = Ok f → deductible_ok f.
Proof.
  unfold create_fee_valid, stored_fee. intros Hm Hv Hs. destruct (fi_CalculationModel kf.2) as [m|] eqn:Em; [|done]. inv_ok.
  unfold deductible_ok, GetIsDeductibleFrom. simpl. fold (input_deductible kf.2). intros Hd. rewrite Hd in Hv.
  case_match; [done|]. simpl in Hv. case_match; [done|]. bool_facts. split; [by replace (fi_ReferenceAmount kf.2) with OriginalAmount|]. unfold validateCalculationModel in Hv. inv_ok.
  destruct x0, x1. by eapply stored_calculations_percent, H; eapply created_calculations_percent.
Qed.

Lemma new_fee_ok minAmount minText kf f :
  ValidateNewFee minAmount kf.2 = Ok tt → update_fee_valid minText kf = Ok tt → stored_fee (λ r, r) kf.2 = Ok f → deductible_ok f.
Proof.
  unfold ValidateNewFee, validateRequiredFields, stored_fee, update_fee_valid. intros Hn Hv Hs. inv_ok.
  destruct (bool_decide (fi_FeeLabel kf.2 = "")) eqn:El; [done|]. destruct (fi_CalculationModel kf.2) as [m|]; [|done].
  destruct (bool_decide (cm_ApplicationRule m = "") || _ || _ || _ || _ || _) eqn:Er; [done|]. inv_ok. destruct x0. bool_facts. unfold deductible_ok, GetIsDeductibleFrom. simpl.
  fold (input_deductible kf.2). intros Hd. rewrite Hd in *.
  unfold ValidateIfFeeIsNil in Hv. rewrite bool_decide_false in Hv by done. simpl in Hv. case_match; [done|]. split.
  - rewrite bool_decide_false in Hv by done. simpl in Hv. intros E'. by rewrite E' in Hv.
  - by eapply stored_calculations_percent; [eapply new_calculations_percent|].
Qed.

(** A rule without calculations does not pass the handler. *)
Lemma rule_needs_calculations m minText deductible :
  cm_ApplicationRule m ∈ [MaxBetween; FlatFee; Percentual] → cm_Calculations m = [] →
  validateCalculationModel (Some m) minText deductible ≠ Ok tt.
Proof.
  intros Hr Hc. unfold validateCalculationModel, validateCalculationCountForRule. rewrite Hc. simpl.
  rewrite !elem_of_cons in Hr. destruct Hr as [->|[->|[->|[]%elem_of_nil]]]; done.
Qed.

Lemma merged_calculations_ok minAmount minText kf old m :
  updateCalculationModel minAmount kf.2 old = Ok m → check_deductible minAmount (bool_decide (is_Some m)) kf.2 old = Ok tt →
  update_fee_valid minText kf = Ok tt → deductible_ok old → becomes_deductible kf.2 old = true →
  percent_ok (cm_Calculations (fee_CalculationModel (merged_fee m kf.2 old))).
Proof.
  intros Hm Hc Hv Ho Hd. unfold updateCalculationModel in Hm.
  assert (m = None → percent_ok (cm_Calculations (fee_CalculationModel old))) as Hnone.
  { intros ->. unfold becomes_deductible in Hd. unfold check_deductible in Hc. destruct (fi_IsDeductibleFrom kf.2) as [[]|]; try done.
    - destruct (_ && _) in Hc; [done|]. simpl in Hc. by eapply existing_calculations_percent.
    - by apply Ho. }
  destruct (fi_CalculationModel kf.2) as [w|] eqn:Ew; [|inv_ok; by apply Hnone].
  destruct (_ && bool_decide (cm_Calculations w = [])) eqn:En; [inv_ok; by apply Hnone|].
  destruct (negb _ && negb _) eqn:Er; [done|]. rewrite Hd in Hm. inv_ok. destruct x. simpl.
  destruct (cm_Calculations w) as [|c l] eqn:El; simpl.
  - exfalso. rewrite (bool_decide_true (@nil Calculation = [])), andb_true_r in En by done. rewrite En in Er. simpl in Er. bool_facts.
    unfold update_fee_valid, ValidateIfFeeIsNil in Hv. rewrite Ew in Hv. rewrite andb_false_r in Hv.
    destruct (_ && _) in Hv; [done|]. destruct (_ && _) in Hv; [done|]. by eapply rule_needs_calculations.
  - by eapply stored_calculations_percent; [eapply update_calculations_percent|].
Qed.

Lemma updated_fee_ok an minAmount minText kf old f :
  SetAndValidateHasFieldsToUpdate an minAmount kf.2 old old = Ok (Some f) → update_fee_valid minText kf = Ok tt →
  deductible_ok old → deductible_ok f.
Proof.
  unfold SetAndValidateHasFieldsToUpdate. intros H Hv Ho. inv_ok. destruct x0, x1, x2. case_match; [|done]. inv_ok.
  intros Hd.
  assert (becomes_deductible kf.2 old = true) as Hb.
  { revert Hd. unfold GetIsDeductibleFrom, becomes_deductible. simpl. by destruct (fi_IsDeductibleFrom kf.2). }
  split; [|by eapply merged_calculations_ok]. clear Hd. simpl. unfold given, check_deductible, check_reference, becomes_deductible in *.
  destruct (IsNilOrEmpty (fi_ReferenceAmount kf.2)) eqn:En.
  - destruct (fi_IsDeductibleFrom kf.2) as [[]|]; try done; [|by apply Ho]. simpl in H0. by destruct (bool_decide (fee_ReferenceAmount old = AfterFeesAmount)) eqn:E; bool_facts.
  - destruct (bool_decide (fi_ReferenceAmount kf.2 ∈ _)) eqn:Ein; [|done]. simpl in H1.
    destruct (fi_IsDeductibleFrom kf.2) as [[]|] eqn:Ed; try done.
    + intros Ea. unfold update_fee_valid, ValidateIfFeeIsNil, input_deductible in Hv. rewrite Ed, Ea in Hv. simpl in Hv.
      rewrite andb_false_r in Hv. simpl in Hv. by destruct (bool_decide (fi_Priority kf.2 = 1)).
    + simpl in Hb. rewrite Hb, andb_true_r in H1. by destruct (bool_decide (fi_ReferenceAmount kf.2 = AfterFeesAmount)) eqn:E; bool_facts.
Qed.

(** *** The fees of a document *)

(** The keys of a request stay distinct after their conversion. *)
Definition keys_distinct (fees : list (string * FeeInput)) : bool := bool_decide (NoDup ((λ kf, toLowerCamel kf.1) <$> fees)).

Lemma update_fees_ok an minAmount minText existing fees u u' :
  fees_ok existing → keys_distinct fees = true → Forall (λ kf, update_fee_valid minText kf = Ok tt) fees →
  (∀ kf, kf ∈ fees → fu_fees u !! toLowerCamel kf.1 = existing !! toLowerCamel kf.1) → fees_ok (fu_fees u) →
  fold_res (update_one_fee an minAmount existing) u fees = Ok u' → fees_ok (fu_fees u').
Proof.
  unfold keys_distinct. intros He Hn%bool_decide_eq_true Hv. revert u.
  induction Hv as [|kf fees Hkf Hv IH]; intros u Hu Hok H; simpl in H; inv_ok; [done|].
  apply NoDup_cons in Hn as [Hk Hn]. apply (IH Hn x); [|clear IH|done].
  - intros kf' Hin. rewrite <- (Hu kf') by (by right).
    assert (toLowerCamel kf.1 ≠ toLowerCamel kf'.1) by (intros E; apply Hk, list_elem_of_fmap; by exists kf').
    unfold update_one_fee in H. destruct (existing !! _); inv_ok; [destruct x0|]; inv_ok; simpl; try done; by rewrite lookup_insert_ne.
  - assert (fu_fees u !! toLowerCamel kf.1 = existing !! toLowerCamel kf.1) as Ek by (apply Hu; by left).
    unfold update_one_fee in H. destruct (existing !! toLowerCamel kf.1) as [old|] eqn:Eo; inv_ok.
    + rewrite Ek in H. simpl in H. destruct x0 as [f|]; inv_ok; [|done]. simpl. apply map_Forall_insert_2; [|done].
      eapply updated_fee_ok; [done|done|]. exact (He _ _ Eo).
    + destruct x0. simpl. apply map_Forall_insert_2; [|done]. by eapply new_fee_ok.
Qed.

Lemma foldr_delete_ok fees ks : fees_ok fees → fees_ok (foldr delete fees ks).
Proof. intros H. induction ks as [|k ks IH]; simpl; [done|]. by apply map_Forall_delete. Qed.

Lemma FromEntityFeeMap_ok minAmount fees m :
  minAmount ≠ "" → for_each (create_fee_valid minAmount) fees = Ok tt → FromEntityFeeMap fees = Ok m → fees_ok m.
Proof.
  intros Hm Hv%for_each_Ok H. rewrite Forall_forall in Hv. unfold FromEntityFeeMap in H.
  revert H. apply fold_res_inv; [|apply map_Forall_empty]. intros b kf b' Hin Hb H. inv_ok. apply map_Forall_insert_2; [|done].
  eapply created_fee_ok; [done|by apply Hv|done].
Qed.

(** ** Requests keep the fees *)

Definition request_keys_distinct (r : package_request) : bool :=
  match r with UpdateRequest _ _ up => match up_Fee up with Some fees => keys_distinct fees | None => true end | _ => true end.

Lemma doc_fees_replace docs id p' : doc_fees_ok docs → fees_ok (pd_Fees p') → doc_fees_ok (replace_doc id p' docs).
Proof. intros H Hp q [->|[Hq _]]%replace_doc_elem; [done|by apply H]. Qed.

Lemma doc_fees_enabled ledger docs : doc_fees_ok docs → doc_fees_ok (enabled_docs ledger docs).
Proof. intros H p Hp. apply H. by apply list_elem_of_In, filter_In, proj1, list_elem_of_In in Hp. Qed.

Lemma invalidate_fees a ledger st : state_fees_ok st → state_fees_ok (invalidatePackageCache a ledger st).
Proof. intros [Hd Hc]. destruct a; split; try done; simpl; by apply map_Forall_delete. Qed.

Lemma read_fees get find set now ledger st : state_fees_ok st →
  state_fees_ok (findPackagesCached get find set now ledger st).1
  ∧ ∀ l, (findPackagesCached get find set now ledger st).2 = Ok l → doc_fees_ok l.
Proof.
  intros [Hd Hc]. unfold findPackagesCached. set (fetch := match FindByOrganizationIDAndLedgerID _ _ _ with Ok _ => _ | Err _ => _ end).
  assert (state_fees_ok fetch.1 ∧ ∀ l, fetch.2 = Ok l → doc_fees_ok l) as Hf.
  { unfold fetch, FindByOrganizationIDAndLedgerID. destruct find; simpl; [|by split..].
    split; [|intros l [= <-]; by apply doc_fees_enabled]. destruct set; split; try done; simpl;
      apply map_Forall_insert_2; try done; by apply doc_fees_enabled. }
  destruct get; [|done..]. destruct (ps_cache st !! uuid_String ledger) as [[t l]|] eqn:E; [|done].
  destruct (match t with Some t => now <? t | None => true end); [|done]. split; [done|]. intros l' [= <-].
  exact (Hc _ _ E).
Qed.

Lemma create_fees an organization cp st : state_fees_ok st → state_fees_ok (createPackage an organization cp st).1.
Proof.
  intros Hst. unfold createPackage. destruct (match cp_SegmentID cp with Some s => _ | None => _ end) as [segment|]; [|done].
  destruct (uuid_Parse (cp_LedgerID cp)) as [ledger|]; [|done].
  destruct (rbind _ _) as [[]|] eqn:Ev; [|done]. destruct (distinct _); [|done]. inv_ok. destruct x.
  unfold CreatePackage. destruct (prepare_package _ _ _ _ _ _) as [p|] eqn:E; [|done].
  assert (fees_ok (pd_Fees p)) as Hp.
  { unfold prepare_package in E. inv_ok. destruct (dparse (cp_MinAmount cp)) as [m|] eqn:Em; [|done].
    destruct (dparse (cp_MaxAmount cp)); [|done]. inv_ok. simpl. eapply FromEntityFeeMap_ok; [|done|done].
    intros Ee. rewrite Ee in Em. by rewrite dparse_empty in Em. }
  unfold insert_doc. destruct (existsb _ _); [by destruct (pa_write an)|].
  assert (state_fees_ok (set_docs (ps_docs st ++ [p]) st)) as Hd.
  { split; [|apply Hst]. intros q [Hq|Hq%list_elem_of_singleton]%elem_of_app; [by apply Hst|by subst]. }
  destruct (pa_write an); simpl; try done. by apply invalidate_fees.
Qed.

Lemma validated_fees_ok an up fees minAmount existing x :
  fees_ok existing → keys_distinct fees = true → Update_ValidateFees up fees = Ok tt →
  validationFeesSetUnset an minAmount existing fees = Ok x → fees_ok x.
Proof.
  intros He Hk Hv%for_each_Ok H. unfold validationFeesSetUnset in H. inv_ok. case_match; inv_ok. apply foldr_delete_ok.
  by eapply update_fees_ok with (u := mkFeesUpdate existing [] _).
Qed.

Lemma built_fees_ok an up p st p' :
  fees_ok (pd_Fees p) → match up_Fee up with Some fees => keys_distinct fees = true | None => True end → check_update up = Ok tt →
  buildUpdateFields an up p st = Ok p' → fees_ok (pd_Fees p').
Proof.
  unfold buildUpdateFields, check_update. intros Hf Hk Hc Hb. inv_ok. clear H. destruct (_ && _) in H1; [done|]. inv_ok. simpl.
  destruct (up_Fee up) as [fees|]; inv_ok; [|done]. destruct x2. by eapply validated_fees_ok.
Qed.

Lemma update_fees an id up st :
  state_fees_ok st → request_keys_distinct (UpdateRequest an id up) = true → state_fees_ok (updatePackageByID an id up st).1.
Proof.
  intros Hst Hk. unfold updatePackageByID. destruct (check_update up) as [[]|] eqn:Ec; [|done].
  unfold UpdatePackageByID. simpl in Hk. destruct (pa_find an); [|by case_match..].
  destruct (find_doc id st) as [p|] eqn:E; [|done]. apply find_doc_Some in E as (Hin & Hid & Hl).
  destruct (buildUpdateFields an up p st) as [p'|] eqn:Eb; [|done].
  assert (state_fees_ok (set_docs (replace_doc id p' (ps_docs st)) st)) as Hd.
  { split; [|apply Hst]. apply doc_fees_replace; [apply Hst|]. eapply built_fees_ok; [by apply Hst| |done|done].
    by destruct (up_Fee up). }
  destruct (pa_write an); simpl; try done. by apply invalidate_fees.
Qed.

Lemma delete_fees an id st : state_fees_ok st → state_fees_ok (DeletePackageByID an id st).1.
Proof.
  intros Hst. unfold DeletePackageByID, SoftDelete. destruct (find_doc id st) as [p|] eqn:E; [|done].
  apply find_doc_Some in E as (Hp & _).
  assert (state_fees_ok (set_docs (replace_doc id (deleted_doc (pa_now an) p) (ps_docs st)) st)) as Hd.
  { split; [|apply Hst]. apply doc_fees_replace; [apply Hst|]. exact (proj1 Hst p Hp). }
  destruct (pa_write an); simpl; try done. case_match; [|done]. by apply invalidate_fees.
Qed.

Lemma serve_all_fees rs st : state_fees_ok st → forallb request_keys_distinct rs = true → state_fees_ok (serve_all rs st).
Proof.
  revert st. induction rs as [|r rs IH]; intros st Hst H; [done|]. simpl in *. bool_facts. apply IH; [|done].
  destruct r; [by apply create_fees|by apply update_fees|by apply delete_fees|by apply read_fees].
Qed.

(** C36: After any requests, with any calls failing, a deductible fee of a package a transaction
    is charged from is always taken from the original amount, whatever the fees before it were,
    and none of its percentages is above one hundred; the fees named by an update must have keys
    that stay distinct when they are converted. *)
Theorem deductible_fees_bounded (rs : list package_request) get find set now ledger (l : list PackageDoc) p key f :
  forallb request_keys_distinct rs = true →
  (findPackagesCached get find set now ledger (serve_all rs no_packages)).2 = Ok l →
  p ∈ l → pd_Fees p !! key = Some f → GetIsDeductibleFrom f = true →
  (∀ currentValue originalValue, selectReferenceAmount f currentValue originalValue = originalValue) ∧
  ∀ c, c ∈ cm_Calculations (fee_CalculationModel f) → calc_Type c = PercentageType →
    ∃ d, dparse (calc_Value c) = Some d ∧ (dval d <= 100)%Q.
Proof.
  intros Hk Hl Hp Hf Hd.
  assert (deductible_ok f) as Hok.
  { assert (state_fees_ok no_packages) as H0 by (split; [intros q Hq; by apply elem_of_nil in Hq|apply map_Forall_empty]).
    destruct (read_fees get find set now ledger _ (serve_all_fees _ _ H0 Hk)) as [_ H]. exact (H _ Hl p Hp _ _ Hf). }
  destruct (Hok Hd) as [Hr Hpc]. split; [intros; unfold selectReferenceAmount; by rewrite bool_decide_false|].
  intros c Hc Ht. destruct (Hpc c Hc Ht) as (d & E & Hg). exists d. split; [done|].
  apply dgt_false in Hg. unfold hundred in Hg. by rewrite dval_new in Hg.
Qed.
End Packages.

(** ** Samples *)

#[local] Existing Instances Fixed.lib FixedText.text Numbered.lib Commons.lib.

Module PackageSample.
#[export] Instance parse : UuidParse (H := Numbered.lib) :=
  {| uuid_Parse := λ s, List.find (λ n : @uuid Numbered.lib, bool_decide (uuid_String n = s)) (seq 0 50) |}.
Definition exponent (d : @dec Fixed.lib) : Z := - Z.of_nat (Fixed.scale d).
Definition camel (s : string) : string := if bool_decide (s = "AdminFee") then "adminFee" else s.

Definition calls (id : @uuid Numbered.lib) (invalidate : answer) : package_answers :=
  mkPackageAnswers (λ _, Ok tt) Answered Answered (Ok id) Answered invalidate Answered 5.
Definition flat (v : string) : CalculationModel := mkCalculationModel FlatFee [mkCalculation FlatType v].
Definition percent (v : string) : CalculationModel := mkCalculationModel Percentual [mkCalculation PercentageType v].
Definition fee (label : string) (m : CalculationModel) (priority : Z) (deductible : bool) : FeeInput :=
  mkFeeInput label (Some m) OriginalAmount priority (Some deductible) "@fees" None None.
(** A change of the label only. *)
Definition relabel (label : string) : FeeInput := mkFeeInput label None "" 0 None "" None None.

Definition package (minimum maximum : string) (fees : list (string * FeeInput)) : CreatePackageInput :=
  mkCreatePackage "standard" None None "1" None minimum maximum None fees (Some true).
Definition create (id : @uuid Numbered.lib) (minimum maximum : string) (fees : list (string * FeeInput)) : package_request :=
  CreateRequest (calls id Answered) (7%nat : @uuid Numbered.lib) (package minimum maximum fees).
Definition change (fees : option (list (string * FeeInput))) (minimum maximum : option string) : UpdatePackageInput :=
  mkUpdatePackage "" "" minimum maximum None fees None.
Definition update (id : @uuid Numbered.lib) (up : UpdatePackageInput) : package_request := UpdateRequest (calls 0%nat Answered) id up.

Definition run (rs : list package_request) : packages_state := serve_all exponent camel rs no_packages.
Definition read (now : Time) (st : packages_state) : result PackageError (list PackageDoc) :=
  (findPackagesCached Answered Answered Answered now (1%nat : @uuid Numbered.lib) st).2.
Definition updated (rs : list package_request) (id : @uuid Numbered.lib) (up : UpdatePackageInput) : result PackageError PackageDoc :=
  (updatePackageByID exponent camel (calls 0%nat Answered) id up (run rs)).2.

Definition fees_view (p : PackageDoc) : list (string * string * Z * string * option bool) :=
  map (λ kf, (kf.1, fee_FeeLabel kf.2, fee_Priority kf.2, fee_ReferenceAmount kf.2, fee_IsDeductibleFrom kf.2)) (map_to_list (pd_Fees p)).
Definition ranges (r : result PackageError (list PackageDoc)) : list (string * string) :=
  match r with Ok l => map (λ p, (dstring (pd_MinimumAmount p), dstring (pd_MaximumAmount p))) l | Err _ => [] end.
Definition chosen (r : result PackageError (list PackageDoc)) (amount : @dec Fixed.lib) : result FeeError (option (@uuid Numbered.lib)) :=
  match r with
  | Ok l => match FindPackageToCalculateFee (map to_package l) "" None amount with Ok p => Ok (pk_ID <$> p) | Err e => Err e end
  | Err _ => Ok None
  end.

Definition one_fee : list (string * FeeInput) := [("adminFee", fee "admin" (percent "2") 1 true)].
(** Two packages; the second grows, and a third that would overlap it is refused. *)
Definition history : list package_request :=
  [create 10%nat "0" "100" one_fee; create 11%nat "101" "200" one_fee; update 11%nat (change None None (Some "300"));
   create 12%nat "250" "400" one_fee; ReadRequest Answered Answered Answered 6 (1%nat : @uuid Numbered.lib)].
(** Eleven packages side by side, and one over the last of them. *)
Definition tens (i : nat) : package_request :=
  create (10 + i)%nat (strconv_Itoa (10 * i)) (strconv_Itoa (10 * i + 9)) one_fee.
Definition crowded : list package_request := map tens (seq 0 11) ++ [create 30%nat "103" "107" one_fee].
End PackageSample.
Import PackageSample.


(** The growth is accepted, the overlap refused; an amount of 290 is charged by the second package. *)
Lemma managed_packages_selectable_witness :
  ranges (read 9 (run history)) = [("0", "100"); ("101", "300")] ∧
  ∃ l, read 9 (run history) = Ok l ∧ ∀ p, p ∈ l → applies "" None (fx 290 0) p = true →
    FindPackageToCalculateFee (map to_package l) "" None (fx 290 0) = Ok (Some (to_package p)).
Proof.
  split; [vm_compute; reflexivity|].
  assert (is_ok (read 9 (run history)) = true) as H by (vm_compute; reflexivity).
  destruct (read 9 (run history)) as [l|] eqn:E; [|discriminate H]. exists l. split; [reflexivity|]. intros p Hp Ha.
  assert (single_pages exponent camel history no_packages = true) as Hs by (vm_compute; reflexivity).
  unfold read, run in E.
  destruct (managed_packages_selectable (DL := Fixed.laws) (TL := FixedText.text_laws) exponent camel history Answered Answered Answered 9 1%nat l
    Hs E "" None (fx 290 0)) as (r & Hr & Hc).
  rewrite Hr, (Hc p Hp Ha). reflexivity.
Defined.

(** The range check reads ten packages: an eleventh is not seen, and the package over it makes
    every transaction in the common range fail. *)
Theorem crowded_ledger_overlaps :
  chosen (read 9 (run (map tens (seq 0 11)))) (fx 105 0) = Ok (Some 20%nat) ∧
  length (ps_docs (run crowded)) = 12%nat ∧ chosen (read 9 (run crowded)) (fx 105 0) = Err ErrFilterPackage.
Proof. split_and!; vm_compute; reflexivity. Qed.

(** A fee that becomes deductible, and a new one. *)
Definition deductible_history : list package_request :=
  [create 10%nat "100" "1000" [("adminFee", fee "admin" (percent "2") 1 false)];
   update 10%nat (change (Some [("AdminFee", mkFeeInput "" None "" 0 (Some true) "" None None); ("wire", fee "wire" (flat "30") 2 true)]) None None)].

Lemma deductible_fees_bounded_witness :
  ∃ l p f, read 9 (run deductible_history) = Ok l ∧ p ∈ l ∧ pd_Fees p !! "adminFee" = Some f ∧ fee_IsDeductibleFrom f = Some true ∧
  ∀ currentValue originalValue : dec, selectReferenceAmount f currentValue originalValue = originalValue.
Proof.
  assert (match read 9 (run deductible_history) with
          | Ok [p] => match pd_Fees p !! "adminFee" with Some f => bool_decide (fee_IsDeductibleFrom f = Some true) | None => false end
          | _ => false
          end = true) as H by (vm_compute; reflexivity).
  destruct (read 9 (run deductible_history)) as [l|] eqn:E; [|discriminate H]. destruct l as [|p [|]]; try discriminate H.
  destruct (pd_Fees p !! "adminFee") as [f|] eqn:Ef; [|discriminate H]. apply bool_decide_eq_true in H.
  exists [p], p, f. split; [reflexivity|]. split; [by left|]. split; [exact Ef|]. split; [exact H|].
  unfold read, run in E.
  refine (proj1 (deductible_fees_bounded (DL := Fixed.laws) (TL := FixedText.text_laws) exponent camel deductible_history Answered Answered Answered 9 1%nat [p] p "adminFee" f
    _ E _ Ef _)); [vm_compute; reflexivity|by left|]. unfold GetIsDeductibleFrom. by rewrite H.
Defined.

(** ** Defects of updates *)

Definition two_fees : list package_request :=
  [create 10%nat "100" "1000" [("adminFee", fee "admin" (percent "2") 1 false); ("wire", fee "wire" (flat "30") 2 true)]].

(** Two fees cannot be changed in one request without naming their priorities, though neither changes. *)
Theorem two_fees_cannot_be_updated :
  updated two_fees 10%nat (change (Some [("adminFee", relabel "a"); ("wire", relabel "w")]) None None) = Err ErrPriorityInvalid ∧
  is_ok (updated two_fees 10%nat (change (Some [("adminFee", relabel "a")]) None None)) = true.
Proof. split; vm_compute; reflexivity. Qed.

(** A new fee takes the priority of a fee the same request changes: two fees of priority one are stored. *)
Theorem duplicate_priorities_stored :
  match updated two_fees 10%nat (change (Some [("adminFee", relabel "a"); ("extra", fee "extra" (flat "5") 1 false)]) None None) with
  | Ok p => (fee_Priority <$> pd_Fees p !! "adminFee", fee_Priority <$> pd_Fees p !! "extra") = (Some 1, Some 1)
  | Err _ => False
  end.
Proof. vm_compute. reflexivity. Qed.

(** A deductible flat fee may not exceed the minimum amount, but the minimum can be lowered below it. *)
Theorem minimum_lowered_below_flat_fee :
  updated two_fees 10%nat (change (Some [("more", fee "more" (flat "130") 3 true)]) None None) = Err ErrDeductibleCalculationValueFlatFee ∧
  match updated two_fees 10%nat (change None (Some "10") None) with
  | Ok p => dstring (pd_MinimumAmount p) = "10" ∧ cm_Calculations ∘ fee_CalculationModel <$> pd_Fees p !! "wire" = Some [mkCalculation FlatType "30"]
  | Err _ => False
  end.
Proof. split; [vm_compute; reflexivity|vm_compute; split; reflexivity]. Qed.

(** A new fee without a calculation model is dereferenced. *)
Theorem new_fee_without_model_panics :
  updated two_fees 10%nat (change (Some [("extra", relabel "extra")]) None None) = Err NilDereference.
Proof. vm_compute. reflexivity. Qed.

(** Two keys that are converted to one are checked one by one: the fee becomes deductible by one
    and is taken after the other fees by the other. *)
Theorem colliding_keys_break_deductible_fee :
  match updated two_fees 10%nat (change (Some [("adminFee", mkFeeInput "" None "" 1 (Some true) "" None None);
                                               ("AdminFee", mkFeeInput "" None AfterFeesAmount 3 None "" None None)]) None None) with
  | Ok p => (λ f, (fee_IsDeductibleFrom f, fee_ReferenceAmount f)) <$> pd_Fees p !! "adminFee" = Some (Some true, AfterFeesAmount)
  | Err _ => False
  end.
Proof. vm_compute. reflexivity. Qed.

(** A set whose invalidation failed is served for ever: the deleted package is still charged. *)
Theorem stale_package_set_persists (now : Time) :
  let st := run ([create 10%nat "0" "100" one_fee; ReadRequest Answered Answered Answered 6 (1%nat : @uuid Numbered.lib);
                  DeleteRequest (calls 0%nat Refused) (10%nat : @uuid Numbered.lib)]) in
  find_doc (10%nat : @uuid Numbered.lib) st = None ∧ ranges (read now st) = [("0", "100")].
Proof. vm_compute. split; reflexivity. Qed.
